(* ===== verification/_CoqProject ===== *)
-Q . S2P
Prelude.v
Tokens.v
CText.v
Growable.v
Dates.v
PathUri.v
Syntax.v
Owners.v
TokenQuery.v
ProjectTree.v
References.v
SemTokens.v
SemDelta.v
Store.v
SemSync.v
Workspace.v
Assembly.v
Rpc.v
Json.v
MutJson.v
TextSync.v
Revalidate.v
Lifecycle.v
Diagnostics.v
DiagWorker.v
QueryContext.v
JobQueue.v
Server.v
CodeLens.v
Lexer.v
Signature.v
Hover.v
Completion.v
Symbols.v
Tj3.v
FileSys.v
Staging.v
Syscalls.v
Sandbox.v
Tj3Run.v
Arena.v
Snapshots.v
Framing.v
Flex.v
Scanner.v
ScanOrder.v
Grammar.v
ParseSafety.v
ParseBound.v
ParseTree.v
ProjectBlocks.v
ParsedDoc.v
LiveDocs.v
Positions.v
Handshake.v
Replies.v
ReplyTypes.v
LiveReplies.v
LiveDiags.v
ParseScope.v
