(* ===== verification/Prelude.v ===== *)
(** * taskjuggler-lsp: a verification library

    taskjuggler-lsp is a language server for TaskJuggler project files: one C
    process that reads JSON-RPC messages from an editor, keeps a table of parsed
    documents, assembles them into projects and answers queries from immutable
    snapshots on a pool of worker threads.  This library models the program under
    src/src/ and proves what each part promises.  Definitions carry the names of
    the C functions they translate; each file says at its top which source it is.

    ** How the program is put together, and where its parts are

    - Bytes in and out.  [Framing] is [read_message] and the loop of [main]
      (main.c) and [lsp_send_message] (rpc.c).  [Rpc] has the accessors and
      responses of rpc.c; yyjson as a reader is the interface [Yyjson].
      [MutJson] has the values that are sent, the types of the protocol and the
      interface [Writer] of what writes them ([yyjson_mut_write], which returns
      NULL for a string that is not UTF-8; then nothing is sent), [Handshake] what the server tells a client about itself (lifecycle.c,
      rpc.c), and [Replies] the JSON of every handler and the handlers behind
      the method table; [ReplyTypes] and [LiveReplies] are about what is sent.
    - Scheduling.  [Server] is server.c and threadpool.c: the method table, the
      coordinator that runs notifications in arrival order and pins a context
      for each query, the four workers, cancellation and shutdown, as a step
      relation over states; the query handlers are the interface
      [QueryHandlers], which [Replies] implements.  [JobQueue] is the intrusive
      linked list of job_queue.c, refined to the FIFO [Server] is proved against.
      [QueryContext] is what a query pins.
    - Documents.  [Store] is the slot table of document_store.c, [SemSync] what
      its counters mean to a client that asks for token deltas; [TextSync] and
      [Lifecycle] the notifications of lifecycle.c; [Workspace] the loading of
      files and of their includes; [Revalidate] compile_commands.json and the
      publication of a snapshot; [Assembly] the construction of a workspace
      snapshot from the table (workspace.c).
    - Parsing.  [Tokens] has the token kinds, their order and the lexer's
      keyword rules; [Scanner] the other rules of lexer.l, the actions and their
      position bookkeeping, on the matching of flex patterns in [Flex]; [Lexer]
      the [yylex] wrapper that adds statement terminators and closing braces;
      [Syntax] the data of parser.h; [Dates] the dates of parser.c.  [Grammar]
      has the productions of grammar.y, their actions on the arena of nodes and
      the globals, and the parser as shift, reduce and error-recovery moves;
      [ParseSafety], [ParseBound], [ParseTree] and [ParseScope] prove that it
      does not crash, that it ends, the shape of the tree it leaves, and which
      task a statement belongs to; [ProjectBlocks] where project blocks are
      completed.  [Owners] is what [parse] does behind it: sorting, scopes, and
      the declaration each token belongs to; [ScanOrder] and [ParsedDoc] put
      scanner, wrapper, parser and owner pass together, and [Positions] the
      32-bit bounds of their positions.  For the components that store and
      publish parses, scanner and parser together are the parameter [yyparse]
      (class [Env]); [LiveDocs] instantiates it with the grammar.
    - Projects.  [ProjectTree] is project_tree.c: the merged tree of a project
      and the memoised resolution of dependencies; [References] the requests
      definition, references, documentHighlight and the hover on dependencies.
    - Queries on one document.  [TokenQuery] has the lookups at a position
      (hover.c, document_symbol.c, dependency.c) and the keyword stack;
      [Hover], [Signature], [Completion], [CodeLens], [Symbols] (outline,
      workspace symbols, folding ranges) and [SemTokens], [SemDelta] the
      requests of the files of those names.
    - Diagnostics.  [Diagnostics] is the set and its publication; [DiagWorker]
      the worker threads and their registry.  What surrounds the external
      program (tj3.c) is in three files: [Tj3] the members of a project, the
      command line and the parsing of messages; [Staging] the temporary copy of
      the project and its removal, on the file system of [FileSys]; [Tj3Run] the
      forked child, the pipe and the entry point.  [Sandbox] is sandbox.c; both
      run on the system calls of [Syscalls].  [LiveDiags] puts server, workers
      and tj3 together.
    - Memory.  [Arena] is the bump allocator of arena.c, [Growable] the doubling
      arrays that are lists everywhere else, and [Snapshots] the
      reference counts, recycled token buffers and memos that the other files
      abstract from; there a snapshot is a value and never freed.
    - Shared text functions are in [CText] (C strings, decimal numbers) and
      [PathUri] (pathutil.c); [Json] is a reader of JSON, used only to state what
      the writer of [Symbols] produces.  This file has the arithmetic, list and
      map lemmas, tactics and hints the others share.

    State is a Record ([Document], [server], [pool], [eol_state], ...), an
    operation is a function on it, a failure is an [option], and what several
    threads do is an inductive step relation with invariants proved by induction
    over it.  Interfaces are classes: [Env] (file system, parser), [Yyjson],
    [Writer], [CcEnv] (compile_commands.json), [QueryHandlers], [Malloc], [Posix] (the
    answers a kernel may give to a system call) and [Tj3Env] with its laws
    [Tj3Laws] (what is installed, and what tj3 does to the files); clients are
    proved against them, and witnesses instantiate them.

    ** What the theorems show

    - Protocol.  Each message is in exactly one place and each request has
      exactly one reply made, which is sent if it can be written; a query is answered from the documents exactly the messages
      before it leave; a cancelled request is refused; closing the input drains
      the pool; workers show the latest snapshot they were asked for; messages
      survive the wire ([Server], [DiagWorker], [Framing]).  Every reply is a
      response object with an error or the result type of its request, and what
      a client decodes from the highlighting it is sent are the tokens of the
      text it had sent ([LiveReplies]); the capabilities name exactly the
      requests that are answered ([Handshake]).  Every diagnostic is of the
      protocol too, and stands for an [include], an include file or a message of
      tj3 ([LiveDiags]).
    - State.  The table invariant, the agreement of snapshots, text and parse,
      and the published workspace hold in every reachable state; edits at
      positions behind ASCII only keep the server's text equal to that of a
      client that counts UTF-16 columns ([Lifecycle], [TextSync]); the table
      refines a map from canonical URIs ([Store]); loading terminates on every
      include graph and covers its closure ([Workspace]); each document is
      assigned to exactly one project ([Assembly]).
    - Queries.  References, highlights and definitions are exact; a dependency
      resolves to the task its dots and bangs denote in the tree, whatever the
      memo holds; tokens get their innermost declaration; lookups return the innermost node or the last token; keyword
      stack, signatures and documentation agree with reference definitions;
      completions are the qualified ids, and the relative ones are exactly the
      tasks below the scope and resolve to what was offered; the dates of lenses are the right working days; outline,
      search and folding results are exact.
    - Scanning.  For every text the scanner returns, consumes all of it and
      records only spans that are true to the text, ordered and well-formed;
      with that the theorems on semantic tokens, the token under the cursor and
      the input of the parser hold of texts, without assumptions on spans
      ([Scanner]).
    - Parsing.  For every text, whatever the parse before left in the globals
      and whichever moves bison's tables pick: no action reads an unwritten
      value, a null pointer or no node ([ParseSafety]); the parser ends and is
      never stuck ([ParseBound]); where it stops, the arena holds a forest whose
      ranges nest and are in order ([ParseTree]).  So the document [parse]
      returns has the layout [doc_ok] the theorems of [Owners] and [TokenQuery]
      assume ([ParsedDoc]), and so has every document in the hands of a query,
      which is the parse of the text the messages before it left
      ([LiveDocs]).  The one assumption is that no brace stands before [project]
      ([ProjectBlocks]): a block nested in a task hoists its declarations to the
      root, where their ranges overlap the task.  Dates and dependencies are
      stored in the innermost open task ([ParseScope]).
    - Encodings.  The semantic-token array decodes to the tokens; a delta applied
      to the old array gives the new one, is minimal within its bound and keeps
      a client in step while the document stays in its slot ([SemSync]); URIs, dates, JSON and the messages of tj3 are read back.
    - Running tj3.  The staged copy mirrors the project ([Staging]); the child
      runs confined or not at all, and no descriptor or process is left in the
      server on any kernel ([Tj3Run], [Sandbox]); a confined run leaves what the
      file system had as it was, whatever tj3 does, and nothing new if the kernel
      refuses none of the calls of the clean-up.  Members with [..] in their
      paths, which staging can write elsewhere, are excluded by name.
    - Memory.  Regions of the arena do not overlap and stay readable; growable
      arrays are the lists they stand for, inside their blocks; snapshots are
      freed exactly when no reference is left, and never under a reader.

    ** Bounds and fuel

    Integers are [Z] with their width written out where it matters ([u32],
    [int32], [size_t]).  Recursion that is not structural has fuel, and the
    theorem about it shows the fuel is enough: 65 for loading files and for the
    include closure (a table of 64 slots; each level takes one), [7 * days + 1]
    rounds and 3 to leave a weekend for a working-day walk, one round of the
    scanner per character, [4 * n + 2] calls of [yylex] for [n] tokens,
    [22 * n + 37] moves of the parser for [n] tokens, one level more than the
    arena has nodes for reading a tree, 200 rounds for the left corners of a
    non-terminal (their table is a constant, checked against the productions),
    one round per bit of the size for a doubling buffer, the height of the tree
    for the owner pass, the height of the staged directory plus one for its
    removal, the length of the table for a binary search, and the length of the
    input for reading headers, messages and JSON.  [myers_diff_run] is bounded by
    [D_BOUND] as in the code, the links a path may follow by 40 as in Linux.

    ** Not modelled

    The tables flex and bison generate: [Flex] has the documented choice of a
    rule instead, and [Grammar] leaves the choice of a move open.  yyjson, which
    reads and writes JSON texts: the reader is an interface, and what is sent is
    modelled as the value handed to the writer, except where the program writes
    the text itself ([Symbols], [SemTokens]).  Debug output, which is compiled
    out by default.  The code that only returns memory, outside [Arena] and
    [Snapshots].  Allocation failure ends the process and is left out, except in
    [Arena] and where the code goes on without memory ([Tj3], [Tj3Run]).  Data
    races are excluded by construction: a step is one access under the lock or
    atomic the code uses. *)

From Stdlib Require Export Ascii String ZArith Lia.
From stdpp Require Export base tactics option strings gmap numbers list.

(** Nested inductive types are used with hand-written induction principles. *)
#[export] Set Warnings "-register-all,-clear-no-such-hyp".

(** ** Machine integers *)

(** [uint32_t] arithmetic is arithmetic modulo [2^32] on [Z]. *)
Definition u32_modulus : Z := 4294967296.

Definition u32 (z : Z) : Z := (z mod u32_modulus)%Z.

(** A value that a [uint32_t] can hold. *)
Definition is_u32 (z : Z) : Prop := (0 <= z < u32_modulus)%Z.

#[global] Instance is_u32_dec z : Decision (is_u32 z).
Proof. unfold is_u32. apply _. Defined.

Lemma u32_id z : is_u32 z -> u32 z = z.
Proof. unfold is_u32, u32. intros. by apply Z.mod_small. Qed.

Lemma u32_is_u32 z : is_u32 (u32 z).
Proof. unfold is_u32, u32. apply Z.mod_pos_bound. done. Qed.

Lemma u32_add_sub a b : is_u32 b -> u32 (a + u32 (b - a)) = b.
Proof.
  intros Hb. unfold u32. rewrite Zplus_mod_idemp_r.
  replace (a + (b - a))%Z with b by lia. by apply u32_id.
Qed.

Create HintDb tjlsp discriminated.
#[export] Hint Resolve u32_is_u32 : tjlsp.

(** ** C arrays of integers *)

(** [v[i]] and [v[i] = x] on an [int] array held as a list.  A read outside
    the array yields 0 and a write outside it does nothing, so every proof
    that uses a value read back has to show the access was in bounds. *)
Definition aget (v : list Z) (i : Z) : Z :=
  if (i <? 0)%Z then 0%Z else default 0%Z (v !! Z.to_nat i).
Definition aset (v : list Z) (i x : Z) : list Z :=
  if (i <? 0)%Z then v else <[Z.to_nat i := x]> v.

Lemma length_aset v i x : length (aset v i x) = length v.
Proof. unfold aset. case_match; [done|]. apply length_insert. Qed.

Lemma aget_aset_eq v i x :
  (0 <= i < Z.of_nat (length v))%Z -> aget (aset v i x) i = x.
Proof.
  intros Hi. unfold aget, aset. destruct (Z.ltb_spec i 0); [lia|].
  rewrite list_lookup_insert_eq; [done|lia].
Qed.

Lemma aget_aset_ne v i j x : (0 <= i)%Z -> i ≠ j -> aget (aset v i x) j = aget v j.
Proof.
  intros Hi Hne. unfold aget, aset. destruct (Z.ltb_spec i 0); [lia|].
  destruct (Z.ltb_spec j 0); [done|]. rewrite list_lookup_insert_ne; [done|lia].
Qed.

(** [calloc]ed array. *)
Lemma aget_replicate_0 n i : aget (replicate n 0%Z) i = 0%Z.
Proof.
  unfold aget. case_match; [done|].
  destruct (replicate n 0%Z !! Z.to_nat i) eqn:E; [|done].
  apply lookup_replicate in E as [-> _]. done.
Qed.

(** ** List facts *)

Lemma drop_cons {A} (l : list A) i x : l !! i = Some x -> drop i l = x :: drop (S i) l.
Proof. intros H. by rewrite (drop_S l x i H). Qed.

Lemma take_app_singleton {A} (l : list A) i x :
  l !! i = Some x -> take (S i) l = take i l ++ [x].
Proof. intros H. by apply take_S_r. Qed.

Lemma drop_cons_inv {A} (l l' : list A) i x :
  drop i l = x :: l' -> l !! i = Some x /\ drop (S i) l = l'.
Proof.
  intros H.
  assert (Hx : l !! i = Some x) by (rewrite <- (Nat.add_0_r i), <- lookup_drop, H; done).
  rewrite (drop_cons _ _ _ Hx) in H. by injection H.
Qed.

Lemma prefix_snoc_cases {A} (q p : list A) i :
  q `prefix_of` p ++ [i] -> q = p ++ [i] \/ q `prefix_of` p.
Proof.
  intros [k Hk]. destruct k as [|x k _] using rev_ind.
  - left. by rewrite app_nil_r in Hk.
  - right. rewrite app_assoc in Hk. apply app_inj_2 in Hk as [-> _]; [|done]. by exists k.
Qed.

Lemma list_filter_all {A} (P : A -> Prop) `{forall x, Decision (P x)} (l : list A) :
  (forall x, x ∈ l -> P x) -> filter P l = l.
Proof.
  induction l as [|x l IH]; intros Hl; [done|].
  rewrite filter_cons_True by (apply Hl; left). f_equal. apply IH. intros y Hy. apply Hl. by right.
Qed.

Lemma list_filter_none {A} (P : A -> Prop) `{forall x, Decision (P x)} (l : list A) :
  (forall x, x ∈ l -> ~ P x) -> filter P l = [].
Proof.
  induction l as [|x l IH]; intros Hl; [done|].
  rewrite filter_cons_False by (apply Hl; left). apply IH. intros y Hy. apply Hl. by right.
Qed.

Lemma omap_none {A B} (f : A -> option B) (l : list A) :
  (forall x, x ∈ l -> f x = None) -> omap f l = [].
Proof.
  induction l as [|x l IH]; intros Hl; [done|]. cbn. rewrite (Hl x) by left.
  apply IH. intros y Hy. apply Hl. by right.
Qed.

(** ** Strings *)

(** Seven-bit characters only. *)
Fixpoint ascii_text (s : string) : bool :=
  match s with
  | EmptyString => true
  | String c s' => (nat_of_ascii c <? 128)%nat && ascii_text s'
  end.

Lemma str_app_nil_r (s : string) : (s +:+ EmptyString)%string = s.
Proof. induction s as [|c s IH]; [done|]. exact (f_equal (String c) IH). Qed.

Lemma str_app_assoc (a b c : string) : ((a +:+ b) +:+ c)%string = (a +:+ (b +:+ c))%string.
Proof. induction a as [|x a IH]; [done|]. exact (f_equal (String x) IH). Qed.

Lemma str_app_cons (a b : string) x : (a +:+ String x b = (a +:+ String x EmptyString) +:+ b)%string.
Proof. induction a as [|y a IH]; [done|]. exact (f_equal (String y) IH). Qed.
