(* ===== verification/Tokens.v ===== *)
(** * Tokens: the token kinds of [grammar.y] and what [lexer.l] records of them.

    [token_kind] lists the %token declarations of src/src/grammar.y in order,
    [kind_value] the numbers bison gives them (258 upwards, 0 for end of
    input).  The second half models which tokens the flex actions of
    src/src/lexer.l append to the span array and which of them are counted by
    [is_sem_highlighted] in src/src/parser.c. *)

From S2P Require Import Prelude.
Local Open Scope Z_scope.
Local Open Scope string_scope.

(** ** Token kinds *)

Inductive token_kind : Set :=
  | TK_EOF | KW_PROJECT | KW_TASK | KW_RESOURCE | KW_ACCOUNT | KW_SHIFT | KW_MACRO
  | KW_INCLUDE | KW_FLAGS | KW_SUPPLEMENT | KW_EFFORT | KW_DURATION | KW_LENGTH
  | KW_MILESTONE | KW_DEPENDS | KW_PRECEDES | KW_ALLOCATE | KW_START | KW_END
  | KW_MAXSTART | KW_MINSTART | KW_MAXEND | KW_MINEND | KW_PRIORITY | KW_COMPLETE
  | KW_NOTE | KW_RESPONSIBLE | KW_BOOKING | KW_SCHEDULED | KW_RATE | KW_EFFICIENCY
  | KW_VACATION | KW_LEAVES | KW_NOW | KW_CURRENCY | KW_TIMEFORMAT | KW_TIMEZONE
  | KW_WORKINGHOURS | KW_TIMINGRESOLUTION | KW_SCENARIO | KW_SIG_END | KW_DOCS_END
  | KW_ACCOUNTPREFIX | KW_ACCOUNTREPORT | KW_ACCOUNTROOT | KW_ACTIVE | KW_ADOPT
  | KW_AGGREGATE | KW_ALERT | KW_ALERTLEVELS | KW_ALTERNATIVE | KW_AUTHOR | KW_AUXDIR
  | KW_BALANCE | KW_CAPTION | KW_CELLCOLOR | KW_CELLTEXT | KW_CENTER | KW_CHARGE
  | KW_CHARGESET | KW_COLUMNS | KW_COPYRIGHT | KW_CREDITS | KW_CURRENCYFORMAT
  | KW_DAILYMAX | KW_DAILYMIN | KW_DAILYWORKINGHOURS | KW_DATE | KW_DEFINITIONS
  | KW_DETAILS | KW_DISABLED | KW_EFFORTDONE | KW_EFFORTLEFT | KW_EMAIL | KW_ENABLED
  | KW_ENDCREDIT | KW_EPILOG | KW_EXPORT | KW_EXTEND | KW_FAIL | KW_FONTCOLOR | KW_FOOTER
  | KW_FORMATS | KW_GAPDURATION | KW_GAPLENGTH | KW_HALIGN | KW_HASALERT | KW_HEADER
  | KW_HEADLINE | KW_HEIGHT | KW_HIDEACCOUNT | KW_HIDEJOURNALENTRY | KW_HIDEREPORT
  | KW_HIDERESOURCE | KW_HIDETASK | KW_ICALREPORT | KW_INHERIT | KW_ISACTIVE
  | KW_ISCHILDOF | KW_ISDEPENDENCYOF | KW_ISDUTYOF | KW_ISFEATUREOF | KW_ISLEAF
  | KW_ISMILESTONE | KW_ISONGOING | KW_ISRESOURCE | KW_ISRESPONSIBILITYOF | KW_ISTASK
  | KW_ISVALID | KW_JOURNALATTRIBUTES | KW_JOURNALENTRY | KW_JOURNALMODE
  | KW_LEAVEALLOWANCES | KW_LEFT | KW_LIMITS | KW_LISTITEM | KW_LISTTYPE | KW_LOADUNIT
  | KW_MANAGERS | KW_MANDATORY | KW_MARKDATE | KW_MAXIMUM | KW_MINIMUM | KW_MONTHLYMAX
  | KW_MONTHLYMIN | KW_NAVIGATOR | KW_NEWTASK | KW_NIKUREPORT | KW_NOVEVENTS | KW_NUMBER
  | KW_NUMBERFORMAT | KW_ONEND | KW_ONSTART | KW_OPENNODES | KW_OUTPUTDIR | KW_OVERTIME
  | KW_PERIOD | KW_PERSISTENT | KW_PROJECTID | KW_PROJECTIDS | KW_PROJECTION | KW_PROLOG
  | KW_PURGE | KW_RAWHTMLHEAD | KW_REFERENCE | KW_REMAINING | KW_REPLACE
  | KW_REPORTPREFIX | KW_RESOURCEATTRIBUTES | KW_RESOURCEPREFIX | KW_RESOURCEREPORT
  | KW_RESOURCEROOT | KW_RESOURCES | KW_RICHTEXT | KW_RIGHT | KW_ROLLUPACCOUNT
  | KW_ROLLUPRESOURCE | KW_ROLLUPTASK | KW_SCALE | KW_SCENARIOS | KW_SCENARIOSPECIFIC
  | KW_SCHEDULING | KW_SCHEDULINGMODE | KW_SELECT | KW_SELFCONTAINED | KW_SHIFTS
  | KW_SHORTTIMEFORMAT | KW_SLOPPY | KW_SORTACCOUNTS | KW_SORTJOURNALENTRIES
  | KW_SORTRESOURCES | KW_SORTTASKS | KW_STARTCREDIT | KW_STATUS | KW_STATUSSHEET
  | KW_STATUSSHEETREPORT | KW_STRICT | KW_SUMMARY | KW_TAGFILE | KW_TASKATTRIBUTES
  | KW_TASKPREFIX | KW_TASKREPORT | KW_TASKROOT | KW_TEXT | KW_TEXTREPORT
  | KW_TIMEFORMAT1 | KW_TIMEFORMAT2 | KW_TIMEOFF | KW_TIMESHEET | KW_TIMESHEETREPORT
  | KW_TITLE | KW_TOOLTIP | KW_TRACEREPORT | KW_TRACKINGSCENARIO | KW_TREELEVEL | KW_WARN
  | KW_WEEKLYMAX | KW_WEEKLYMIN | KW_WEEKSTARTSMONDAY | KW_WEEKSTARTSSUNDAY | KW_WIDTH
  | KW_WORK | KW_YEARLYWORKINGDAYS | TK_IDENT | TK_STR | TK_INTEGER | TK_FLOAT | TK_DATE
  | TK_DURATION | TK_LBRACE | TK_RBRACE | TK_LBRACKET | TK_RBRACKET | TK_BANG | TK_PLUS
  | TK_MINUS | TK_DOT | TK_COLON | TK_COMMA | TK_PERCENT | TK_DOLLAR | TK_MULTI_LINE_STR
  | TK_ERROR | TK_LINE_COMMENT | TK_BLOCK_COMMENT | TK_EOL.

(** Bison numbers user tokens from 258 in declaration order. *)
Definition kind_value (k : token_kind) : Z :=
  match k with
  | TK_EOF => 0
  | KW_PROJECT => 258 | KW_TASK => 259 | KW_RESOURCE => 260 | KW_ACCOUNT => 261
  | KW_SHIFT => 262 | KW_MACRO => 263 | KW_INCLUDE => 264 | KW_FLAGS => 265
  | KW_SUPPLEMENT => 266 | KW_EFFORT => 267 | KW_DURATION => 268 | KW_LENGTH => 269
  | KW_MILESTONE => 270 | KW_DEPENDS => 271 | KW_PRECEDES => 272 | KW_ALLOCATE => 273
  | KW_START => 274 | KW_END => 275 | KW_MAXSTART => 276 | KW_MINSTART => 277
  | KW_MAXEND => 278 | KW_MINEND => 279 | KW_PRIORITY => 280 | KW_COMPLETE => 281
  | KW_NOTE => 282 | KW_RESPONSIBLE => 283 | KW_BOOKING => 284 | KW_SCHEDULED => 285
  | KW_RATE => 286 | KW_EFFICIENCY => 287 | KW_VACATION => 288 | KW_LEAVES => 289
  | KW_NOW => 290 | KW_CURRENCY => 291 | KW_TIMEFORMAT => 292 | KW_TIMEZONE => 293
  | KW_WORKINGHOURS => 294 | KW_TIMINGRESOLUTION => 295 | KW_SCENARIO => 296
  | KW_SIG_END => 297 | KW_DOCS_END => 298 | KW_ACCOUNTPREFIX => 299
  | KW_ACCOUNTREPORT => 300 | KW_ACCOUNTROOT => 301 | KW_ACTIVE => 302 | KW_ADOPT => 303
  | KW_AGGREGATE => 304 | KW_ALERT => 305 | KW_ALERTLEVELS => 306 | KW_ALTERNATIVE => 307
  | KW_AUTHOR => 308 | KW_AUXDIR => 309 | KW_BALANCE => 310 | KW_CAPTION => 311
  | KW_CELLCOLOR => 312 | KW_CELLTEXT => 313 | KW_CENTER => 314 | KW_CHARGE => 315
  | KW_CHARGESET => 316 | KW_COLUMNS => 317 | KW_COPYRIGHT => 318 | KW_CREDITS => 319
  | KW_CURRENCYFORMAT => 320 | KW_DAILYMAX => 321 | KW_DAILYMIN => 322
  | KW_DAILYWORKINGHOURS => 323 | KW_DATE => 324 | KW_DEFINITIONS => 325
  | KW_DETAILS => 326 | KW_DISABLED => 327 | KW_EFFORTDONE => 328 | KW_EFFORTLEFT => 329
  | KW_EMAIL => 330 | KW_ENABLED => 331 | KW_ENDCREDIT => 332 | KW_EPILOG => 333
  | KW_EXPORT => 334 | KW_EXTEND => 335 | KW_FAIL => 336 | KW_FONTCOLOR => 337
  | KW_FOOTER => 338 | KW_FORMATS => 339 | KW_GAPDURATION => 340 | KW_GAPLENGTH => 341
  | KW_HALIGN => 342 | KW_HASALERT => 343 | KW_HEADER => 344 | KW_HEADLINE => 345
  | KW_HEIGHT => 346 | KW_HIDEACCOUNT => 347 | KW_HIDEJOURNALENTRY => 348
  | KW_HIDEREPORT => 349 | KW_HIDERESOURCE => 350 | KW_HIDETASK => 351
  | KW_ICALREPORT => 352 | KW_INHERIT => 353 | KW_ISACTIVE => 354 | KW_ISCHILDOF => 355
  | KW_ISDEPENDENCYOF => 356 | KW_ISDUTYOF => 357 | KW_ISFEATUREOF => 358
  | KW_ISLEAF => 359 | KW_ISMILESTONE => 360 | KW_ISONGOING => 361 | KW_ISRESOURCE => 362
  | KW_ISRESPONSIBILITYOF => 363 | KW_ISTASK => 364 | KW_ISVALID => 365
  | KW_JOURNALATTRIBUTES => 366 | KW_JOURNALENTRY => 367 | KW_JOURNALMODE => 368
  | KW_LEAVEALLOWANCES => 369 | KW_LEFT => 370 | KW_LIMITS => 371 | KW_LISTITEM => 372
  | KW_LISTTYPE => 373 | KW_LOADUNIT => 374 | KW_MANAGERS => 375 | KW_MANDATORY => 376
  | KW_MARKDATE => 377 | KW_MAXIMUM => 378 | KW_MINIMUM => 379 | KW_MONTHLYMAX => 380
  | KW_MONTHLYMIN => 381 | KW_NAVIGATOR => 382 | KW_NEWTASK => 383 | KW_NIKUREPORT => 384
  | KW_NOVEVENTS => 385 | KW_NUMBER => 386 | KW_NUMBERFORMAT => 387 | KW_ONEND => 388
  | KW_ONSTART => 389 | KW_OPENNODES => 390 | KW_OUTPUTDIR => 391 | KW_OVERTIME => 392
  | KW_PERIOD => 393 | KW_PERSISTENT => 394 | KW_PROJECTID => 395 | KW_PROJECTIDS => 396
  | KW_PROJECTION => 397 | KW_PROLOG => 398 | KW_PURGE => 399 | KW_RAWHTMLHEAD => 400
  | KW_REFERENCE => 401 | KW_REMAINING => 402 | KW_REPLACE => 403
  | KW_REPORTPREFIX => 404 | KW_RESOURCEATTRIBUTES => 405 | KW_RESOURCEPREFIX => 406
  | KW_RESOURCEREPORT => 407 | KW_RESOURCEROOT => 408 | KW_RESOURCES => 409
  | KW_RICHTEXT => 410 | KW_RIGHT => 411 | KW_ROLLUPACCOUNT => 412
  | KW_ROLLUPRESOURCE => 413 | KW_ROLLUPTASK => 414 | KW_SCALE => 415
  | KW_SCENARIOS => 416 | KW_SCENARIOSPECIFIC => 417 | KW_SCHEDULING => 418
  | KW_SCHEDULINGMODE => 419 | KW_SELECT => 420 | KW_SELFCONTAINED => 421
  | KW_SHIFTS => 422 | KW_SHORTTIMEFORMAT => 423 | KW_SLOPPY => 424
  | KW_SORTACCOUNTS => 425 | KW_SORTJOURNALENTRIES => 426 | KW_SORTRESOURCES => 427
  | KW_SORTTASKS => 428 | KW_STARTCREDIT => 429 | KW_STATUS => 430
  | KW_STATUSSHEET => 431 | KW_STATUSSHEETREPORT => 432 | KW_STRICT => 433
  | KW_SUMMARY => 434 | KW_TAGFILE => 435 | KW_TASKATTRIBUTES => 436
  | KW_TASKPREFIX => 437 | KW_TASKREPORT => 438 | KW_TASKROOT => 439 | KW_TEXT => 440
  | KW_TEXTREPORT => 441 | KW_TIMEFORMAT1 => 442 | KW_TIMEFORMAT2 => 443
  | KW_TIMEOFF => 444 | KW_TIMESHEET => 445 | KW_TIMESHEETREPORT => 446 | KW_TITLE => 447
  | KW_TOOLTIP => 448 | KW_TRACEREPORT => 449 | KW_TRACKINGSCENARIO => 450
  | KW_TREELEVEL => 451 | KW_WARN => 452 | KW_WEEKLYMAX => 453 | KW_WEEKLYMIN => 454
  | KW_WEEKSTARTSMONDAY => 455 | KW_WEEKSTARTSSUNDAY => 456 | KW_WIDTH => 457
  | KW_WORK => 458 | KW_YEARLYWORKINGDAYS => 459 | TK_IDENT => 460 | TK_STR => 461
  | TK_INTEGER => 462 | TK_FLOAT => 463 | TK_DATE => 464 | TK_DURATION => 465
  | TK_LBRACE => 466 | TK_RBRACE => 467 | TK_LBRACKET => 468 | TK_RBRACKET => 469
  | TK_BANG => 470 | TK_PLUS => 471 | TK_MINUS => 472 | TK_DOT => 473 | TK_COLON => 474
  | TK_COMMA => 475 | TK_PERCENT => 476 | TK_DOLLAR => 477 | TK_MULTI_LINE_STR => 478
  | TK_ERROR => 479 | TK_LINE_COMMENT => 480 | TK_BLOCK_COMMENT => 481 | TK_EOL => 482
  end.

Definition all_kinds : list token_kind :=
  [ TK_EOF; KW_PROJECT; KW_TASK; KW_RESOURCE; KW_ACCOUNT; KW_SHIFT; KW_MACRO; KW_INCLUDE;
    KW_FLAGS; KW_SUPPLEMENT; KW_EFFORT; KW_DURATION; KW_LENGTH; KW_MILESTONE; KW_DEPENDS;
    KW_PRECEDES; KW_ALLOCATE; KW_START; KW_END; KW_MAXSTART; KW_MINSTART; KW_MAXEND;
    KW_MINEND; KW_PRIORITY; KW_COMPLETE; KW_NOTE; KW_RESPONSIBLE; KW_BOOKING;
    KW_SCHEDULED; KW_RATE; KW_EFFICIENCY; KW_VACATION; KW_LEAVES; KW_NOW; KW_CURRENCY;
    KW_TIMEFORMAT; KW_TIMEZONE; KW_WORKINGHOURS; KW_TIMINGRESOLUTION; KW_SCENARIO;
    KW_SIG_END; KW_DOCS_END; KW_ACCOUNTPREFIX; KW_ACCOUNTREPORT; KW_ACCOUNTROOT;
    KW_ACTIVE; KW_ADOPT; KW_AGGREGATE; KW_ALERT; KW_ALERTLEVELS; KW_ALTERNATIVE;
    KW_AUTHOR; KW_AUXDIR; KW_BALANCE; KW_CAPTION; KW_CELLCOLOR; KW_CELLTEXT; KW_CENTER;
    KW_CHARGE; KW_CHARGESET; KW_COLUMNS; KW_COPYRIGHT; KW_CREDITS; KW_CURRENCYFORMAT;
    KW_DAILYMAX; KW_DAILYMIN; KW_DAILYWORKINGHOURS; KW_DATE; KW_DEFINITIONS; KW_DETAILS;
    KW_DISABLED; KW_EFFORTDONE; KW_EFFORTLEFT; KW_EMAIL; KW_ENABLED; KW_ENDCREDIT;
    KW_EPILOG; KW_EXPORT; KW_EXTEND; KW_FAIL; KW_FONTCOLOR; KW_FOOTER; KW_FORMATS;
    KW_GAPDURATION; KW_GAPLENGTH; KW_HALIGN; KW_HASALERT; KW_HEADER; KW_HEADLINE;
    KW_HEIGHT; KW_HIDEACCOUNT; KW_HIDEJOURNALENTRY; KW_HIDEREPORT; KW_HIDERESOURCE;
    KW_HIDETASK; KW_ICALREPORT; KW_INHERIT; KW_ISACTIVE; KW_ISCHILDOF; KW_ISDEPENDENCYOF;
    KW_ISDUTYOF; KW_ISFEATUREOF; KW_ISLEAF; KW_ISMILESTONE; KW_ISONGOING; KW_ISRESOURCE;
    KW_ISRESPONSIBILITYOF; KW_ISTASK; KW_ISVALID; KW_JOURNALATTRIBUTES; KW_JOURNALENTRY;
    KW_JOURNALMODE; KW_LEAVEALLOWANCES; KW_LEFT; KW_LIMITS; KW_LISTITEM; KW_LISTTYPE;
    KW_LOADUNIT; KW_MANAGERS; KW_MANDATORY; KW_MARKDATE; KW_MAXIMUM; KW_MINIMUM;
    KW_MONTHLYMAX; KW_MONTHLYMIN; KW_NAVIGATOR; KW_NEWTASK; KW_NIKUREPORT; KW_NOVEVENTS;
    KW_NUMBER; KW_NUMBERFORMAT; KW_ONEND; KW_ONSTART; KW_OPENNODES; KW_OUTPUTDIR;
    KW_OVERTIME; KW_PERIOD; KW_PERSISTENT; KW_PROJECTID; KW_PROJECTIDS; KW_PROJECTION;
    KW_PROLOG; KW_PURGE; KW_RAWHTMLHEAD; KW_REFERENCE; KW_REMAINING; KW_REPLACE;
    KW_REPORTPREFIX; KW_RESOURCEATTRIBUTES; KW_RESOURCEPREFIX; KW_RESOURCEREPORT;
    KW_RESOURCEROOT; KW_RESOURCES; KW_RICHTEXT; KW_RIGHT; KW_ROLLUPACCOUNT;
    KW_ROLLUPRESOURCE; KW_ROLLUPTASK; KW_SCALE; KW_SCENARIOS; KW_SCENARIOSPECIFIC;
    KW_SCHEDULING; KW_SCHEDULINGMODE; KW_SELECT; KW_SELFCONTAINED; KW_SHIFTS;
    KW_SHORTTIMEFORMAT; KW_SLOPPY; KW_SORTACCOUNTS; KW_SORTJOURNALENTRIES;
    KW_SORTRESOURCES; KW_SORTTASKS; KW_STARTCREDIT; KW_STATUS; KW_STATUSSHEET;
    KW_STATUSSHEETREPORT; KW_STRICT; KW_SUMMARY; KW_TAGFILE; KW_TASKATTRIBUTES;
    KW_TASKPREFIX; KW_TASKREPORT; KW_TASKROOT; KW_TEXT; KW_TEXTREPORT; KW_TIMEFORMAT1;
    KW_TIMEFORMAT2; KW_TIMEOFF; KW_TIMESHEET; KW_TIMESHEETREPORT; KW_TITLE; KW_TOOLTIP;
    KW_TRACEREPORT; KW_TRACKINGSCENARIO; KW_TREELEVEL; KW_WARN; KW_WEEKLYMAX;
    KW_WEEKLYMIN; KW_WEEKSTARTSMONDAY; KW_WEEKSTARTSSUNDAY; KW_WIDTH; KW_WORK;
    KW_YEARLYWORKINGDAYS; TK_IDENT; TK_STR; TK_INTEGER; TK_FLOAT; TK_DATE; TK_DURATION;
    TK_LBRACE; TK_RBRACE; TK_LBRACKET; TK_RBRACKET; TK_BANG; TK_PLUS; TK_MINUS; TK_DOT;
    TK_COLON; TK_COMMA; TK_PERCENT; TK_DOLLAR; TK_MULTI_LINE_STR; TK_ERROR;
    TK_LINE_COMMENT; TK_BLOCK_COMMENT; TK_EOL ].

Definition kind_of_value (z : Z) : option token_kind :=
  list_find (fun k => kind_value k = z) all_kinds ≫= fun p => Some p.2.

Lemma kind_of_value_spec k : kind_of_value (kind_value k) = Some k.
Proof. destruct k; vm_compute; reflexivity. Qed.

Lemma kind_value_inj k1 k2 : kind_value k1 = kind_value k2 -> k1 = k2.
Proof.
  intros H. apply (f_equal kind_of_value) in H.
  rewrite !kind_of_value_spec in H. by simplify_eq.
Qed.

#[global] Instance token_kind_eq_dec : EqDecision token_kind.
Proof.
  refine (fun k1 k2 => match Z.eq_dec (kind_value k1) (kind_value k2) with
                       | left H => left (kind_value_inj _ _ H)
                       | right H => right _
                       end).
  congruence.
Defined.

Lemma all_kinds_complete k : k ∈ all_kinds.
Proof.
  apply list_elem_of_In. assert (H := kind_of_value_spec k).
  unfold kind_of_value in H.
  destruct (list_find _ _) as [[i k']|] eqn:E; simpl in H; [|done].
  simplify_eq. apply list_find_Some in E as (E & _ & _).
  by apply list_elem_of_In, list_elem_of_lookup_2 with i.
Qed.

(** A boolean property of token kinds that holds of every listed kind holds. *)
Lemma forall_kinds (P : token_kind -> bool) :
  forallb P all_kinds = true -> forall k, P k = true.
Proof.
  intros H k. rewrite forallb_forall in H.
  apply H, list_elem_of_In, all_kinds_complete.
Qed.

(** ** Keyword lexemes *)

(** The keyword rules of lexer.l: lexeme and the token it emits. *)
Definition lexer_keywords : list (string * token_kind) :=
  [ ("account", KW_ACCOUNT); ("accountprefix", KW_ACCOUNTPREFIX);
    ("accountreport", KW_ACCOUNTREPORT); ("accountroot", KW_ACCOUNTROOT);
    ("active", KW_ACTIVE); ("adopt", KW_ADOPT); ("aggregate", KW_AGGREGATE);
    ("alert", KW_ALERT); ("alertlevels", KW_ALERTLEVELS); ("allocate", KW_ALLOCATE);
    ("alternative", KW_ALTERNATIVE); ("author", KW_AUTHOR); ("auxdir", KW_AUXDIR);
    ("balance", KW_BALANCE); ("booking", KW_BOOKING); ("caption", KW_CAPTION);
    ("cellcolor", KW_CELLCOLOR); ("celltext", KW_CELLTEXT); ("center", KW_CENTER);
    ("charge", KW_CHARGE); ("chargeset", KW_CHARGESET); ("columns", KW_COLUMNS);
    ("complete", KW_COMPLETE); ("copyright", KW_COPYRIGHT); ("credits", KW_CREDITS);
    ("currency", KW_CURRENCY); ("currencyformat", KW_CURRENCYFORMAT);
    ("dailymax", KW_DAILYMAX); ("dailymin", KW_DAILYMIN);
    ("dailyworkinghours", KW_DAILYWORKINGHOURS); ("date", KW_DATE);
    ("definitions", KW_DEFINITIONS); ("depends", KW_DEPENDS); ("details", KW_DETAILS);
    ("disabled", KW_DISABLED); ("duration", KW_DURATION); ("efficiency", KW_EFFICIENCY);
    ("effort", KW_EFFORT); ("effortdone", KW_EFFORTDONE); ("effortleft", KW_EFFORTLEFT);
    ("email", KW_EMAIL); ("enabled", KW_ENABLED); ("end", KW_END);
    ("endcredit", KW_ENDCREDIT); ("epilog", KW_EPILOG); ("export", KW_EXPORT);
    ("extend", KW_EXTEND); ("fail", KW_FAIL); ("flags", KW_FLAGS);
    ("fontcolor", KW_FONTCOLOR); ("footer", KW_FOOTER); ("formats", KW_FORMATS);
    ("gapduration", KW_GAPDURATION); ("gaplength", KW_GAPLENGTH); ("halign", KW_HALIGN);
    ("hasalert", KW_HASALERT); ("header", KW_HEADER); ("headline", KW_HEADLINE);
    ("height", KW_HEIGHT); ("hideaccount", KW_HIDEACCOUNT);
    ("hidejournalentry", KW_HIDEJOURNALENTRY); ("hidereport", KW_HIDEREPORT);
    ("hideresource", KW_HIDERESOURCE); ("hidetask", KW_HIDETASK);
    ("icalreport", KW_ICALREPORT); ("include", KW_INCLUDE); ("inherit", KW_INHERIT);
    ("isactive", KW_ISACTIVE); ("ischildof", KW_ISCHILDOF);
    ("isdependencyof", KW_ISDEPENDENCYOF); ("isdutyof", KW_ISDUTYOF);
    ("isfeatureof", KW_ISFEATUREOF); ("isleaf", KW_ISLEAF);
    ("ismilestone", KW_ISMILESTONE); ("isongoing", KW_ISONGOING);
    ("isresource", KW_ISRESOURCE); ("isresponsibilityof", KW_ISRESPONSIBILITYOF);
    ("istask", KW_ISTASK); ("isvalid", KW_ISVALID);
    ("journalattributes", KW_JOURNALATTRIBUTES); ("journalentry", KW_JOURNALENTRY);
    ("journalmode", KW_JOURNALMODE); ("leaveallowances", KW_LEAVEALLOWANCES);
    ("leaves", KW_LEAVES); ("left", KW_LEFT); ("length", KW_LENGTH);
    ("limits", KW_LIMITS); ("listitem", KW_LISTITEM); ("listtype", KW_LISTTYPE);
    ("loadunit", KW_LOADUNIT); ("macro", KW_MACRO); ("managers", KW_MANAGERS);
    ("mandatory", KW_MANDATORY); ("markdate", KW_MARKDATE); ("maxend", KW_MAXEND);
    ("maximum", KW_MAXIMUM); ("maxstart", KW_MAXSTART); ("milestone", KW_MILESTONE);
    ("minend", KW_MINEND); ("minimum", KW_MINIMUM); ("minstart", KW_MINSTART);
    ("monthlymax", KW_MONTHLYMAX); ("monthlymin", KW_MONTHLYMIN);
    ("navigator", KW_NAVIGATOR); ("newtask", KW_NEWTASK); ("nikureport", KW_NIKUREPORT);
    ("note", KW_NOTE); ("novevents", KW_NOVEVENTS); ("now", KW_NOW);
    ("number", KW_NUMBER); ("numberformat", KW_NUMBERFORMAT); ("onend", KW_ONEND);
    ("onstart", KW_ONSTART); ("opennodes", KW_OPENNODES); ("outputdir", KW_OUTPUTDIR);
    ("overtime", KW_OVERTIME); ("period", KW_PERIOD); ("persistent", KW_PERSISTENT);
    ("precedes", KW_PRECEDES); ("priority", KW_PRIORITY); ("project", KW_PROJECT);
    ("projectid", KW_PROJECTID); ("projectids", KW_PROJECTIDS);
    ("projection", KW_PROJECTION); ("prolog", KW_PROLOG); ("purge", KW_PURGE);
    ("rate", KW_RATE); ("rawhtmlhead", KW_RAWHTMLHEAD); ("reference", KW_REFERENCE);
    ("remaining", KW_REMAINING); ("replace", KW_REPLACE);
    ("reportprefix", KW_REPORTPREFIX); ("resource", KW_RESOURCE);
    ("resourceattributes", KW_RESOURCEATTRIBUTES); ("resourceprefix", KW_RESOURCEPREFIX);
    ("resourcereport", KW_RESOURCEREPORT); ("resourceroot", KW_RESOURCEROOT);
    ("resources", KW_RESOURCES); ("responsible", KW_RESPONSIBLE);
    ("richtext", KW_RICHTEXT); ("right", KW_RIGHT); ("rollupaccount", KW_ROLLUPACCOUNT);
    ("rollupresource", KW_ROLLUPRESOURCE); ("rolluptask", KW_ROLLUPTASK);
    ("scale", KW_SCALE); ("scenario", KW_SCENARIO); ("scenarios", KW_SCENARIOS);
    ("scenariospecific", KW_SCENARIOSPECIFIC); ("scheduled", KW_SCHEDULED);
    ("scheduling", KW_SCHEDULING); ("schedulingmode", KW_SCHEDULINGMODE);
    ("select", KW_SELECT); ("selfcontained", KW_SELFCONTAINED); ("shift", KW_SHIFT);
    ("shifts", KW_SHIFTS); ("shorttimeformat", KW_SHORTTIMEFORMAT);
    ("sloppy", KW_SLOPPY); ("sortaccounts", KW_SORTACCOUNTS);
    ("sortjournalentries", KW_SORTJOURNALENTRIES); ("sortresources", KW_SORTRESOURCES);
    ("sorttasks", KW_SORTTASKS); ("start", KW_START); ("startcredit", KW_STARTCREDIT);
    ("status", KW_STATUS); ("statussheet", KW_STATUSSHEET);
    ("statussheetreport", KW_STATUSSHEETREPORT); ("strict", KW_STRICT);
    ("summary", KW_SUMMARY); ("supplement", KW_SUPPLEMENT); ("tagfile", KW_TAGFILE);
    ("task", KW_TASK); ("taskattributes", KW_TASKATTRIBUTES);
    ("taskprefix", KW_TASKPREFIX); ("taskreport", KW_TASKREPORT);
    ("taskroot", KW_TASKROOT); ("text", KW_TEXT); ("textreport", KW_TEXTREPORT);
    ("timeformat", KW_TIMEFORMAT); ("timeformat1", KW_TIMEFORMAT1);
    ("timeformat2", KW_TIMEFORMAT2); ("timeoff", KW_TIMEOFF);
    ("timesheet", KW_TIMESHEET); ("timesheetreport", KW_TIMESHEETREPORT);
    ("timezone", KW_TIMEZONE); ("timingresolution", KW_TIMINGRESOLUTION);
    ("title", KW_TITLE); ("tooltip", KW_TOOLTIP); ("tracereport", KW_TRACEREPORT);
    ("trackingscenario", KW_TRACKINGSCENARIO); ("treelevel", KW_TREELEVEL);
    ("vacation", KW_VACATION); ("warn", KW_WARN); ("weeklymax", KW_WEEKLYMAX);
    ("weeklymin", KW_WEEKLYMIN); ("weekstartsmonday", KW_WEEKSTARTSMONDAY);
    ("weekstartssunday", KW_WEEKSTARTSSUNDAY); ("width", KW_WIDTH); ("work", KW_WORK);
    ("workinghours", KW_WORKINGHOURS); ("yearlyworkingdays", KW_YEARLYWORKINGDAYS) ].

(** ** What the scanner records *)

(** How a flex action hands its token over: [emit_kw] and the multi-fragment
    variants record a span with the lexeme; [emit_plain] records identifiers
    and brackets with a lexeme, braces and the dependency punctuation without
    one, and nothing else. *)
Inductive span_record := RecordText | RecordNoText | RecordNothing.

Definition emit_plain_record (code : token_kind) : span_record :=
  match code with
  | TK_IDENT | TK_LBRACKET | TK_RBRACKET => RecordText
  | TK_LBRACE | TK_RBRACE | TK_BANG | TK_DOT | TK_COMMA => RecordNoText
  | _ => RecordNothing
  end.

(** The token kinds that reach [g_push_tok_span] through [emit_kw],
    [emit_kw_mfrag_text] or [store_semantic_token]: every keyword rule, dates,
    durations, strings and comments.  The rest goes through [emit_plain]. *)
Definition emitted_as_kw (k : token_kind) : bool :=
  bool_decide (k ∈ lexer_keywords.*2) ||
  match k with
  | TK_DATE | TK_DURATION | TK_STR | TK_MULTI_LINE_STR
  | TK_LINE_COMMENT | TK_BLOCK_COMMENT => true
  | _ => false
  end.

Definition record_of (k : token_kind) : span_record :=
  if emitted_as_kw k then RecordText else emit_plain_record k.

(** A token kind for which the scanner appends a span. *)
Definition lexed_kind (k : token_kind) : bool :=
  match record_of k with RecordNothing => false | _ => true end.

(** A token kind whose span carries its lexeme. *)
Definition lexed_with_text (k : token_kind) : bool :=
  match record_of k with RecordText => true | _ => false end.

(** [is_sem_highlighted] of parser.c. *)
Definition is_sem_highlighted (kind : token_kind) : bool :=
  bool_decide (kind ≠ TK_LBRACE) && bool_decide (kind ≠ TK_RBRACE) &&
  bool_decide (kind ≠ TK_BANG) && bool_decide (kind ≠ TK_DOT) &&
  bool_decide (kind ≠ TK_COMMA).

(** ** Tables keyed by the sentinels *)

(** [kind < KW_SIG_END] and [kind < KW_DOCS_END], the filters of
    [scan_kw_stack]. *)
Definition below (kind_max k : token_kind) : bool :=
  (kind_value k <? kind_value kind_max)%Z.

Lemma lexer_keywords_nodup : NoDup lexer_keywords.*1.
Proof. apply (bool_decide_unpack _). vm_compute. exact I. Qed.

(** A keyword lexeme and its kind determine each other. *)
Lemma lexer_keywords_kinds_nodup : NoDup lexer_keywords.*2.
Proof. apply (bool_decide_unpack _). vm_compute. exact I. Qed.

Lemma integer_not_recorded :
  lexed_kind TK_INTEGER = false /\ lexed_kind TK_FLOAT = false.
Proof. split; vm_compute; reflexivity. Qed.
