(* ===== verification/CText.v ===== *)
(** * Decimal text: [write_uint32], [PRIu64] formatting and [strtoull].

    The digit writer of src/src/semantic_tokens.c with its 10-byte scratch
    array, the decimal reader the C library offers, and the array
    serialisation built on them. *)

From S2P Require Import Prelude.
Local Open Scope Z_scope.

(** ** Characters *)

Definition ch_code (c : ascii) : Z := Z.of_nat (nat_of_ascii c).

Definition digit_char (d : Z) : ascii := ascii_of_nat (Z.to_nat (48 + d)).

Definition is_digit (c : ascii) : bool := (48 <=? ch_code c) && (ch_code c <=? 57).

Definition digit_val (c : ascii) : Z := ch_code c - 48.

(** [isspace] in the C locale. *)
Definition is_space (c : ascii) : bool :=
  (ch_code c =? 32) || ((9 <=? ch_code c) && (ch_code c <=? 13)).

Lemma ch_code_range c : (0 <= ch_code c < 256)%Z.
Proof. unfold ch_code. pose proof (nat_ascii_bounded c). lia. Qed.

Lemma ascii_of_ch_code c : ascii_of_nat (Z.to_nat (ch_code c)) = c.
Proof. unfold ch_code. by rewrite Nat2Z.id, ascii_nat_embedding. Qed.

Lemma ch_code_digit d : 0 <= d < 10 -> ch_code (digit_char d) = 48 + d.
Proof.
  intros Hd. unfold ch_code, digit_char.
  rewrite nat_ascii_embedding by lia. lia.
Qed.

Lemma is_digit_digit d : 0 <= d < 10 -> is_digit (digit_char d) = true.
Proof. intros Hd. unfold is_digit. rewrite ch_code_digit by done. lia. Qed.

Lemma digit_val_digit d : 0 <= d < 10 -> digit_val (digit_char d) = d.
Proof. intros Hd. unfold digit_val. rewrite ch_code_digit by done. lia. Qed.

Lemma is_digit_range c : is_digit c = true -> 0 <= digit_val c < 10.
Proof. unfold is_digit, digit_val. lia. Qed.

(** [tolower] in the C locale. *)
Definition tolower (c : ascii) : ascii :=
  if (65 <=? ch_code c) && (ch_code c <=? 90) then ascii_of_nat (Z.to_nat (ch_code c + 32)) else c.

(** A C string literal, written here with [~] for a double quote and [\] for a
    line break; neither occurs in the literals of the code. *)
Fixpoint lit (s : string) : string :=
  match s with
  | EmptyString => EmptyString
  | String c s' =>
      String (if bool_decide (c = "~"%char) then "034"%char
              else if bool_decide (c = "\"%char) then "010"%char else c) (lit s')
  end.

(** A C [int]: the 32-bit wrap-around of the compiled code.  (Signed overflow
    is undefined in C; the properties stay below it.) *)
Definition int32 (z : Z) : Z := (z + 2147483648) mod 4294967296 - 2147483648.

(** ** Ignoring case *)

(** [istarts] of completion.c.  The end of [s] counts as a NUL, which no character of a prefix matches. *)
Fixpoint istarts (s prefix : list ascii) : bool :=
  match prefix, s with
  | [], _ => true
  | _ :: _, [] => false
  | p :: prefix', c :: s' => bool_decide (tolower c = tolower p) && istarts s' prefix'
  end.

Lemma istarts_spec s p :
  istarts s p = true <-> (tolower <$> p) `prefix_of` (tolower <$> s).
Proof.
  revert s. induction p as [|x p IH]; intros [|c s]; cbn.
  - split; [|done]. intros _. apply prefix_nil.
  - split; [|done]. intros _. apply prefix_nil.
  - split; [done|]. by intros ?%prefix_nil_not.
  - rewrite andb_true_iff, bool_decide_eq_true, IH. split.
    + intros [<- H]. by apply prefix_cons.
    + intros H. split; [by apply prefix_cons_inv_1 in H|by apply prefix_cons_inv_2 in H].
Qed.

(** [strcasestr (haystack, needle) != NULL]. *)
Fixpoint strcasestr (haystack needle : list ascii) : bool :=
  istarts haystack needle ||
  match haystack with [] => false | _ :: h' => strcasestr h' needle end.

Lemma strcasestr_spec h n :
  strcasestr h n = true <-> exists l r, tolower <$> h = l ++ (tolower <$> n) ++ r.
Proof.
  induction h as [|c h IH]; cbn [strcasestr]; rewrite orb_true_iff.
  - rewrite istarts_spec. split.
    + intros [[r Hr]|?]; [|done]. by exists [], r.
    + intros (l & r & Hlr). symmetry in Hlr. apply app_nil in Hlr as [-> Hlr]. left. by exists r.
  - rewrite istarts_spec, IH. split.
    + intros [[r Hr]|(l & r & Hlr)]; [by exists [], r|]. exists (tolower c :: l), r. by rewrite fmap_cons, Hlr.
    + intros ([|x l] & r & Hlr); [left; by exists r|]. right. injection Hlr as _ Hlr. by exists l, r.
Qed.

(** ** Special characters *)

Definition newline : ascii := "010"%char.
Definition nul : ascii := "000"%char.
Definition dquote : ascii := "034"%char.
Definition backslash : ascii := "\"%char.

(** A C string ends at its first NUL. *)
Fixpoint until_nul (cs : list ascii) : list ascii :=
  match cs with
  | [] => []
  | c :: cs' => if bool_decide (c = nul) then [] else c :: until_nul cs'
  end.

Lemma until_nul_id cs : nul ∉ cs -> until_nul cs = cs.
Proof.
  induction cs as [|c cs IH]; [done|]. intros [Hc H]%not_elem_of_cons. cbn.
  rewrite bool_decide_false by done. by rewrite IH.
Qed.

(** ** Writing *)

(** The [while (val > 0)] loop: the digits in [tmp], least significant first.
    [fuel] is the size of [tmp]. *)
Fixpoint tmp_digits (fuel : nat) (val : Z) : list ascii :=
  match fuel with
  | O => []
  | S fuel' =>
      if val >? 0 then digit_char (val mod 10) :: tmp_digits fuel' (val / 10) else []
  end.

(** Decimal text of [val] through a scratch array of [size] digits. *)
Definition write_decimal (size : nat) (val : Z) : list ascii :=
  if val =? 0 then [digit_char 0] else reverse (tmp_digits size val).

Definition write_uint32 (val : Z) : list ascii := write_decimal 10 val.

(** ["%" PRIu64]: at most 20 digits. *)
Definition print_u64 (val : Z) : list ascii := write_decimal 20 val.

(** ** Reading *)

Definition ULLONG_MAX : Z := 18446744073709551615.

(** The value of a digit string continued from [acc]. *)
Definition dec_value (acc : Z) (ds : list ascii) : Z :=
  foldl (fun a c => a * 10 + digit_val c) acc ds.

Fixpoint take_digits (cs : list ascii) : list ascii :=
  match cs with
  | c :: cs' => if is_digit c then c :: take_digits cs' else []
  | [] => []
  end.

Fixpoint skip_spaces (cs : list ascii) : list ascii :=
  match cs with
  | c :: cs' => if is_space c then skip_spaces cs' else cs
  | [] => []
  end.

(** [strtoull (s, NULL, 10)]: leading white space, an optional sign, the
    digits; saturates at [ULLONG_MAX], and a minus sign negates modulo 2^64. *)
Definition strtoull (cs : list ascii) : Z :=
  let cs := skip_spaces cs in
  let '(neg, ds) := match cs with
                    | "-"%char :: r => (true, take_digits r)
                    | "+"%char :: r => (false, take_digits r)
                    | _ => (false, take_digits cs)
                    end in
  let v := dec_value 0 ds in
  if v >? ULLONG_MAX then ULLONG_MAX
  else if neg then (- v) mod (ULLONG_MAX + 1) else v.

(** [strtol (s, NULL, 10)]: saturation at the bounds of a [long]. *)
Definition LONG_MAX : Z := 9223372036854775807.
Definition strtol (cs : list ascii) : Z :=
  let cs := skip_spaces cs in
  let '(neg, ds) := match cs with
                    | "-"%char :: r => (true, take_digits r)
                    | "+"%char :: r => (false, take_digits r)
                    | _ => (false, take_digits cs)
                    end in
  let v := dec_value 0 ds in
  if neg : bool then Z.max (- LONG_MAX - 1) (- v) else Z.min LONG_MAX v.

(** ** The digit loop *)

Lemma tmp_digits_digits fuel val : Forall (fun c => is_digit c = true) (tmp_digits fuel val).
Proof.
  revert val. induction fuel as [|fuel IH]; intros val; simpl; [constructor|].
  destruct (val >? 0); constructor; [|apply IH].
  apply is_digit_digit, Z.mod_pos_bound. lia.
Qed.

Lemma length_tmp_digits fuel val : (length (tmp_digits fuel val) <= fuel)%nat.
Proof.
  revert val. induction fuel as [|fuel IH]; intros val; simpl; [lia|].
  destruct (val >? 0); simpl; [specialize (IH (val / 10))|]; lia.
Qed.

Lemma dec_value_app acc l1 l2 : dec_value acc (l1 ++ l2) = dec_value (dec_value acc l1) l2.
Proof. unfold dec_value. by rewrite foldl_app. Qed.

Lemma tmp_digits_value fuel val :
  0 <= val < 10 ^ Z.of_nat fuel -> dec_value 0 (reverse (tmp_digits fuel val)) = val.
Proof.
  revert val. induction fuel as [|fuel IH]; intros val Hv; simpl.
  { change (10 ^ Z.of_nat 0) with 1 in Hv. simpl. lia. }
  destruct (Z.gtb_spec val 0); [|simpl; lia].
  rewrite reverse_cons, dec_value_app, IH.
  - unfold dec_value. simpl. rewrite digit_val_digit by (apply Z.mod_pos_bound; lia).
    pose proof (Z.div_mod val 10). lia.
  - rewrite Nat2Z.inj_succ, Z.pow_succ_r in Hv by lia. split; [apply Z.div_pos; lia|].
    apply Z.div_lt_upper_bound; lia.
Qed.

Lemma write_decimal_digits size val :
  Forall (fun c => is_digit c = true) (write_decimal size val).
Proof.
  unfold write_decimal. case_match; [by repeat constructor|].
  apply Forall_reverse, tmp_digits_digits.
Qed.

Lemma write_decimal_value size val :
  0 <= val < 10 ^ Z.of_nat size -> dec_value 0 (write_decimal size val) = val.
Proof.
  intros Hv. unfold write_decimal. destruct (Z.eqb_spec val 0) as [->|]; [done|].
  by apply tmp_digits_value.
Qed.

Lemma write_decimal_nonempty size val :
  (0 < size)%nat -> 0 <= val -> write_decimal size val ≠ [].
Proof.
  intros Hs Hv. unfold write_decimal. destruct (Z.eqb_spec val 0); [done|].
  destruct size as [|size]; [lia|]. simpl. destruct (Z.gtb_spec val 0); [|lia].
  rewrite reverse_cons. by intros [_ ?]%app_nil.
Qed.

Lemma length_write_decimal size val :
  (0 < size)%nat -> (length (write_decimal size val) <= size)%nat.
Proof.
  intros. unfold write_decimal. case_match; [simpl; lia|].
  rewrite length_reverse. apply length_tmp_digits.
Qed.

Lemma take_digits_all ds : Forall (fun c => is_digit c = true) ds -> take_digits ds = ds.
Proof. induction 1 as [|c ds Hc _ IH]; simpl; [done|]. by rewrite Hc, IH. Qed.

Lemma digit_not_space c : is_digit c = true -> is_space c = false.
Proof. unfold is_digit, is_space. lia. Qed.

(** A digit is no sign. *)
Lemma digit_no_sign {A} c ds (minus plus : list ascii -> A) (other : A) : is_digit c = true ->
  match c :: ds with "-"%char :: r => minus r | "+"%char :: r => plus r | _ => other end = other.
Proof. intros Hc. destruct c as [[] [] [] [] [] [] [] []]; first [reflexivity|by vm_compute in Hc]. Qed.

Lemma strtol_digits ds : ds <> [] -> Forall (fun c => is_digit c = true) ds ->
  strtol ds = Z.min LONG_MAX (dec_value 0 ds).
Proof.
  intros Hne Hd. destruct ds as [|c ds]; [done|]. pose proof Hd as [Hc _]%Forall_cons.
  unfold strtol. cbn [skip_spaces]. rewrite (digit_not_space c Hc), (digit_no_sign c ds (fun r => (true, take_digits r)) (fun r => (false, take_digits r))) by done.
  by rewrite (take_digits_all (c :: ds)).
Qed.

(** Reading back a printed version number. *)
Lemma strtoull_print_u64 v : 0 <= v <= ULLONG_MAX -> strtoull (print_u64 v) = v.
Proof.
  intros Hv. unfold strtoull, print_u64.
  pose proof (write_decimal_digits 20 v) as Hd.
  pose proof (write_decimal_value 20 v ltac:(unfold ULLONG_MAX in *; lia)) as Hval.
  assert (Hne : write_decimal 20 v ≠ []) by (apply write_decimal_nonempty; lia).
  destruct (write_decimal 20 v) as [|c ds] eqn:E; [done|].
  assert (Hc : is_digit c = true) by (apply Forall_cons in Hd as [? _]; done).
  cbn [skip_spaces]. rewrite (digit_not_space c Hc), (digit_no_sign c ds (fun r => (true, take_digits r)) (fun r => (false, take_digits r))) by done.
  rewrite (take_digits_all (c :: ds)), Hval by done. destruct (Z.gtb_spec v ULLONG_MAX); [lia|done].
Qed.
