(* ===== verification/Growable.v ===== *)
(** * Growable arrays.

    The lists of the program are arrays that double when they are full: a
    pointer, a length and a capacity, both [int].  Those of the heap grow by
    [realloc], those of a parse are copied into the arena and the old block is
    left behind.  The other files have a list in their place; here the arrays
    themselves are modelled, over a memory of blocks, and implement the list. *)

From S2P Require Import Prelude.

Local Open Scope Z_scope.

(** ** Memory *)

(** A block is its cells; a cell that was never written holds nothing. *)
Abbreviation memory A := (gmap nat (list (option A))).

(** The allocator: a block that is not in use, or none. *)
Class Malloc (A : Type) := malloc : memory A -> Z -> option nat.
Class MallocFresh A `{Malloc A} : Prop := malloc_fresh : forall h size b, malloc h size = Some b -> h !! b = None.

(** What an operation comes to: a state, the end of the process (or the refusal
    of [includer_append_included_uri]), or behaviour C leaves undefined. *)
Inductive outcome (S : Type) : Type :=
  | Done (s : S)
  | No_memory
  | Undefined.
Arguments Done {_}. Arguments No_memory {_}. Arguments Undefined {_}.

Record array : Set := mkArray { a_items : option nat; a_n : Z; a_cap : Z }.

Definition no_items : array := mkArray None 0 0.

Definition INT_LIMIT : Z := 2147483648.

(** How an array grows. *)
Inductive growth : Set := Realloc | Arena_copy.

Section Array.
Context {A : Type} `{Malloc A}.

(** The cells behind a pointer: [NULL] has none. *)
Definition cells (h : memory A) (p : option nat) : option (list (option A)) :=
  match p with Some b => h !! b | None => Some [] end.

Definition pad (n : nat) (l : list (option A)) : list (option A) := take n l ++ replicate (n - length l) None.

(** [realloc (p, size)]: the block may move, and the old one is gone. *)
Definition realloc (h : memory A) (p : option nat) (size : Z) : outcome (nat * memory A) :=
  match cells h p with
  | None => Undefined
  | Some old =>
      let h1 := match p with Some b => delete b h | None => h end in
      match malloc h1 size with
      | Some b => Done (b, <[b := pad (Z.to_nat size) old]> h1)
      | None => No_memory
      end
  end.

(** [arena_alloc (size)] and [memcpy] of [n] elements; the old block stays.  The
    first push copies no element from a null pointer, which C11 leaves undefined
    and every C library treats as doing nothing; so does this. *)
Definition arena_copy (h : memory A) (p : option nat) (n size : Z) : outcome (nat * memory A) :=
  match malloc h size with
  | None => No_memory
  | Some b =>
      match cells h p with
      | Some old => if Z.of_nat (length old) <? n then Undefined
                    else Done (b, <[b := pad (Z.to_nat size) (take (Z.to_nat n) old)]> h)
      | None => Undefined
      end
  end.

(** [cap ? cap * 2 : k]; the product is an [int]. *)
Definition next_cap (k cap : Z) : option Z :=
  if cap =? 0 then Some k else if cap * 2 <? INT_LIMIT then Some (cap * 2) else None.

Definition make_room (g : growth) (k : Z) (h : memory A) (a : array) : outcome (array * memory A) :=
  if a_n a >=? a_cap a then
    match next_cap k (a_cap a) with
    | None => Undefined
    | Some nc =>
        match (match g with
               | Realloc => realloc h (a_items a) nc
               | Arena_copy => arena_copy h (a_items a) (a_n a) nc
               end) with
        | Done (b, h') => Done (mkArray (Some b) (a_n a) nc, h')
        | No_memory => No_memory
        | Undefined => Undefined
        end
    end
  else Done (a, h).

(** [items[n++] = x]. *)
Definition store_next (h : memory A) (a : array) (x : A) : outcome (array * memory A) :=
  match a_items a with
  | None => Undefined
  | Some b =>
      match h !! b with
      | Some blk =>
          if (0 <=? a_n a) && (a_n a <? Z.of_nat (length blk))
          then Done (mkArray (Some b) (a_n a + 1) (a_cap a), <[b := <[Z.to_nat (a_n a) := Some x]> blk]> h)
          else Undefined
      | None => Undefined
      end
  end.

Definition array_push (g : growth) (k : Z) (h : memory A) (a : array) (x : A) : outcome (array * memory A) :=
  match make_room g k h a with
  | Done (a', h') => store_next h' a' x
  | No_memory => No_memory
  | Undefined => Undefined
  end.

(** The arrays of the program. *)
Definition idlist_push := array_push Realloc 16.
Definition registry_add := array_push Realloc 4.
Definition PUSH := array_push Realloc 8.
Definition project_children_push := array_push Realloc 4.
Definition includes_push := array_push Realloc 4.
Definition projects_push := array_push Realloc 4.
Definition included_uris_push := array_push Realloc 4.
Definition diag_files_push := array_push Realloc 4.
Definition diag_items_push := array_push Realloc 4.
Definition members_push := array_push Realloc 4.
Definition symarr_push := array_push Arena_copy 4.
Definition node_children_push := array_push Arena_copy 4.
Definition dependencies_push := array_push Arena_copy 4.

Fixpoint push_all (g : growth) (k : Z) (h : memory A) (a : array) (xs : list A) : outcome (array * memory A) :=
  match xs with
  | [] => Done (a, h)
  | x :: xs' =>
      match array_push g k h a x with
      | Done (a', h') => push_all g k h' a' xs'
      | No_memory => No_memory
      | Undefined => Undefined
      end
  end.

(** The elements that are moved when [n] elements have been pushed one by one:
    all that are there each time the array is full. *)
Fixpoint moved (k : Z) (a : array) (n : nat) : Z :=
  match n with
  | O => 0
  | S n' =>
      let full := a_n a >=? a_cap a in
      (if full then a_n a else 0)
      + moved k (mkArray (a_items a) (a_n a + 1) (if full then default 0 (next_cap k (a_cap a)) else a_cap a)) n'
  end.

(** ** The list an array holds *)

Definition holds (h : memory A) (a : array) (l : list A) : Prop :=
  a_n a = Z.of_nat (length l) /\ a_n a <= a_cap a /\
  match a_items a with
  | None => a_cap a = 0
  | Some b => 0 < a_cap a /\ exists blk, h !! b = Some blk /\ Z.of_nat (length blk) = a_cap a /\ take (length l) blk = Some <$> l
  end.
End Array.

Section ArrayFacts.
Context {A : Type} `{MallocFresh A}.
Implicit Types (h : memory A) (a : array) (l : list A).

Lemma pad_length n (l : list (option A)) : length (pad n l) = n.
Proof. unfold pad. rewrite length_app, length_take, length_replicate. lia. Qed.

Lemma pad_take n m (l : list (option A)) : (m <= n)%nat -> (m <= length l)%nat -> take m (pad n l) = take m l.
Proof.
  intros Hmn Hl. unfold pad. rewrite take_app_le by (rewrite length_take; lia). rewrite take_take. f_equal. lia.
Qed.

Lemma next_cap_spec k cap : 0 < k < INT_LIMIT -> 0 <= cap -> 2 * cap < INT_LIMIT ->
  exists nc, next_cap k cap = Some nc /\ cap < nc /\ (cap = 0 -> nc = k) /\ (cap <> 0 -> nc = cap * 2).
Proof.
  unfold next_cap, INT_LIMIT. intros Hk Hc Hl. destruct (Z.eqb_spec cap 0); [exists k; split; [done|lia]|].
  destruct (Z.ltb_spec (cap * 2) 2147483648); [|lia]. exists (cap * 2). split; [done|lia].
Qed.

(** The old cells are there, and hold the list. *)
Lemma holds_cells h a l : holds h a l -> exists old, cells h (a_items a) = Some old /\
  Z.of_nat (length old) = a_cap a /\ take (length l) old = Some <$> l.
Proof.
  intros (Hn & Hc & Hb). destruct (a_items a) as [b|].
  - destruct Hb as (_ & blk & ? & ? & ?). by exists blk.
  - exists []. assert (l = []) as -> by (apply nil_length_inv; lia). done.
Qed.

(** A block apart from those that were freed, allocated or written. *)
Lemma holds_frame h h' a l : holds h a l -> (forall b, a_items a = Some b -> is_Some (h !! b) -> h' !! b = h !! b) -> holds h' a l.
Proof.
  intros (Hn & Hc & Hb) Hf. split_and!; [done|done|]. destruct (a_items a) as [b|]; [|done].
  destruct Hb as (? & blk & Hb & ?). split; [done|]. exists blk. by rewrite Hf.
Qed.

Lemma fresh_block h size b b' : malloc h size = Some b -> is_Some (h !! b') -> b' <> b.
Proof. intros Hm Hs ->. apply malloc_fresh in Hm. rewrite Hm in Hs. by destruct Hs. Qed.

Lemma make_room_ok g k h a l : 0 < k < INT_LIMIT -> holds h a l -> 2 * Z.of_nat (length l) < INT_LIMIT ->
  match make_room g k h a with
  | Done (a', h') =>
      holds h' a' l /\ a_n a' < a_cap a' /\
      (forall b, is_Some (h !! b) -> a_items a <> Some b -> h' !! b = h !! b /\ a_items a' <> Some b) /\
      (g = Arena_copy -> a' = a /\ h' = h \/
         forall b, is_Some (h !! b) -> h' !! b = h !! b /\ a_items a' <> Some b)
  | No_memory => True
  | Undefined => False
  end.
Proof.
  intros Hk Hh Hl. pose proof Hh as (Hn & Hcap & Hb). unfold make_room. rewrite Z.geb_leb.
  destruct (Z.leb_spec (a_cap a) (a_n a)) as [Hfull|Hroom].
  2: { split_and!; [done|done| |by left; split]. intros b _ ?. by split. }
  destruct (next_cap_spec k (a_cap a)) as (nc & -> & Hlt & _); [done|destruct (a_items a); lia|lia|].
  destruct (holds_cells _ _ _ Hh) as (old & Hold & Hlen & Htake).
  assert (Hnew : forall (h1 : memory A) b src, take (length l) src = Some <$> l -> (length l <= length src)%nat ->
    holds (<[b := pad (Z.to_nat nc) src]> h1) (mkArray (Some b) (a_n a) nc) l).
  { intros h1 b src Hsrc Hls. split_and!; cbn [a_n a_cap a_items]; [done|lia|]. split; [lia|]. exists (pad (Z.to_nat nc) src).
    rewrite lookup_insert_eq, pad_length, pad_take by lia. split_and!; [done|lia|done]. }
  destruct g.
  - unfold realloc. rewrite Hold. destruct (malloc _ nc) as [b|] eqn:Em; [|done]. split_and!; [apply Hnew; [done|lia]|cbn; lia| |done].
    intros b' Hb' Hne. assert (Hdel : is_Some ((match a_items a with Some b => delete b h | None => h end) !! b')).
    { destruct (a_items a) as [p|]; [|done]. rewrite lookup_delete_ne; [done|congruence]. }
    pose proof (fresh_block _ _ _ _ Em Hdel) as Hbb. cbn [a_items]. rewrite lookup_insert_ne by done. split; [|congruence].
    destruct (a_items a) as [p|]; [|done]. rewrite lookup_delete_ne; [done|congruence].
  - unfold arena_copy. destruct (malloc h nc) as [b|] eqn:Em; [|done]. rewrite Hold.
    destruct (Z.ltb_spec (Z.of_nat (length old)) (a_n a)); [lia|].
    assert (Hk' : forall b', is_Some (h !! b') -> <[b := pad (Z.to_nat nc) (take (Z.to_nat (a_n a)) old)]> h !! b' = h !! b' /\ Some b <> Some b').
    { intros b' Hb'. pose proof (fresh_block _ _ _ _ Em Hb'). rewrite lookup_insert_ne by done. split; congruence. }
    split_and!; [apply Hnew|cbn; lia|intros b' Hb' _; by apply Hk'|by right].
    + rewrite take_take. by replace (length l `min` Z.to_nat (a_n a))%nat with (length l) by lia.
    + rewrite length_take. lia.
Qed.

Lemma store_next_ok h a l x : holds h a l -> a_n a < a_cap a ->
  exists a' h' b, store_next h a x = Done (a', h') /\ holds h' a' (l ++ [x]) /\ a_items a = Some b /\ a_items a' = Some b /\
    (forall b', b' <> b -> h' !! b' = h !! b') /\
    (forall l0 a0, holds h a0 l0 -> a_items a0 = Some b -> (length l0 <= length l)%nat -> holds h' a0 l0).
Proof.
  intros (Hn & Hc & Hb) Hroom. destruct (a_items a) as [b|] eqn:Ei; [|lia]. destruct Hb as (Hpos & blk & Hblk & Hlen & Htake).
  unfold store_next. rewrite Ei, Hblk. destruct (Z.leb_spec 0 (a_n a)); [|lia]. destruct (Z.ltb_spec (a_n a) (Z.of_nat (length blk))); [|lia].
  cbn [andb]. eexists _, _, b. split; [done|]. split_and!; [|done|done|intros b' Hb'; by rewrite lookup_insert_ne|].
  - split_and!; cbn [a_n a_cap a_items]; [rewrite length_app; cbn; lia|lia|]. split; [done|]. eexists. rewrite lookup_insert_eq. split; [done|].
    rewrite length_insert. split; [done|]. rewrite length_app. cbn. rewrite Nat.add_1_r.
    rewrite Hn, Nat2Z.id, (take_S_r _ _ (Some x)) by (apply list_lookup_insert_eq; lia).
    by rewrite take_insert_ge, Htake, fmap_app by lia.
  - intros l0 a0 (Hn0 & Hc0 & Hb0) E0 Hle. split_and!; [done|done|]. rewrite E0 in *. destruct Hb0 as (Hp0 & blk0 & Hb0 & Hl0 & Ht0).
    rewrite Hblk in Hb0. injection Hb0 as <-. split; [done|]. eexists. rewrite lookup_insert_eq. split; [done|].
    rewrite length_insert. split; [done|]. rewrite take_insert_ge; [done|lia].
Qed.

(** Two descriptors without a common block. *)
Definition apart (a0 a : array) : Prop := a_items a0 = None \/ a_items a0 <> a_items a.

(** A descriptor whose elements a push leaves alone. *)
Definition untouched (g : growth) (a0 : array) (l0 : list A) (a : array) (l : list A) : Prop :=
  apart a0 a \/ g = Arena_copy /\ a_items a0 = a_items a /\ (length l0 <= length l)%nat.

Lemma array_push_ok g k h a l x :
  0 < k < INT_LIMIT -> holds h a l -> 2 * Z.of_nat (length l) < INT_LIMIT ->
  match array_push g k h a x with
  | Done (a', h') =>
      holds h' a' (l ++ [x]) /\
      forall a0 l0, holds h a0 l0 -> untouched g a0 l0 a l -> holds h' a0 l0 /\ untouched g a0 l0 a' (l ++ [x])
  | No_memory => True
  | Undefined => False
  end.
Proof.
  intros Hk Hh Hl. unfold array_push. pose proof (make_room_ok g k h a l Hk Hh Hl) as Hroom.
  destruct (make_room g k h a) as [[a1 h1]| |]; [|done..]. destruct Hroom as (Hh1 & Hlt & Hframe & Harena).
  destruct (store_next_ok h1 a1 l x Hh1 Hlt) as (a2 & h2 & b & -> & Hh2 & Hb & Hb2 & Hother & Hold). split; [done|].
  intros a0 l0 H0'. pose proof H0' as (_ & _ & Hs0).
  assert (Hfar : (forall b0, a_items a0 = Some b0 -> is_Some (h !! b0) -> h1 !! b0 = h !! b0 /\ a_items a1 <> Some b0) ->
    holds h2 a0 l0 /\ untouched g a0 l0 a2 (l ++ [x])).
  { intros Hf. split.
    - apply (holds_frame h); [done|]. intros b0 E0 Hb0. destruct (Hf b0 E0 Hb0) as [E1 Hne]. rewrite Hother; [done|congruence].
    - left. unfold apart. destruct (a_items a0) as [b0|]; [right|by left]. destruct Hs0 as (_ & blk & Hblk & _).
      destruct (Hf b0 eq_refl) as [_ Hne]; [by rewrite Hblk|]. congruence. }
  intros [[E|Hne]|(-> & E & Hle)].
  - apply Hfar. congruence.
  - apply Hfar. intros b0 E0 Hb0. apply Hframe; congruence.
  - destruct (Harena eq_refl) as [[-> ->]|Hall]; [|by apply Hfar; intros b0 _; apply Hall].
    split; [by apply Hold; [|congruence|]|]. right. split; [done|]. split; [congruence|]. rewrite length_app. lia.
Qed.

(** Doubling pays: pushing [n] elements moves fewer than [2 n]. *)
Theorem moves_linear k n : 0 < k -> 2 * Z.of_nat n < INT_LIMIT -> moved k no_items n <= 2 * Z.of_nat n.
Proof.
  intros Hk.
  assert (Hgen : forall n p i c, 0 <= i <= c -> (c = 0 \/ k <= c /\ c <= Z.max k (2 * i)) -> 2 * (i + Z.of_nat n) < INT_LIMIT ->
    moved k (mkArray p i c) n <= 2 * (i + Z.of_nat n) - Z.max 0 (c - k)).
  { clear n. induction n as [|n IH]; intros p i c Hi Hc Hn; [cbn; lia|]. cbn [moved a_n a_cap a_items]. rewrite Z.geb_leb.
    destruct (Z.leb_spec c i).
    - unfold next_cap. destruct (Z.eqb_spec c 0); cbn [default from_option id].
      + specialize (IH p (i + 1) k). lia.
      + destruct (Z.ltb_spec (c * 2) INT_LIMIT); [|lia]. cbn. specialize (IH p (i + 1) (c * 2)). lia.
    - specialize (IH p (i + 1) c). lia. }
  intros Hn. specialize (Hgen n None 0 0). unfold no_items. lia.
Qed.

(** C37: Growable arrays implement lists.  As long as an array has fewer than
    2^30 elements, whatever blocks the allocator returns, pushing never leaves
    the array's block, reads a cell that is not there or overflows the capacity:
    it appends to the list the array holds, or memory is out.  Every array in
    another block holds what it held; where the array is in an arena, so does
    every older copy of its descriptor.  Pushing [n] elements on an empty array
    moves at most [2 n]. *)
Theorem growable_arrays_correct g k xs h a l : 0 < k < INT_LIMIT ->
  holds h a l -> 2 * Z.of_nat (length (l ++ xs)) < INT_LIMIT ->
  match push_all g k h a xs with
  | Done (a', h') =>
      holds h' a' (l ++ xs) /\
      forall a0 l0, holds h a0 l0 -> untouched g a0 l0 a l -> holds h' a0 l0
  | No_memory => True
  | Undefined => False
  end /\
  moved k no_items (length xs) <= 2 * Z.of_nat (length xs).
Proof.
  intros Hk Hh Hl. split; [|apply moves_linear; rewrite length_app in Hl; lia].
  revert h a l Hh Hl. induction xs as [|x xs IH]; intros h a l Hh Hl; cbn [push_all]; [by rewrite app_nil_r|].
  rewrite length_app in Hl. cbn [length] in Hl.
  pose proof (array_push_ok g k h a l x Hk Hh ltac:(lia)) as Hp. destruct (array_push g k h a x) as [[a' h']| |]; [|done..].
  destruct Hp as [Hh' Hun]. assert (Hl' : 2 * Z.of_nat (length ((l ++ [x]) ++ xs)) < INT_LIMIT) by (rewrite !length_app; cbn [length]; lia).
  specialize (IH h' a' (l ++ [x]) Hh' Hl'). rewrite <- app_assoc in IH. cbn [app] in IH.
  destruct (push_all g k h' a' xs) as [[a2 h2]| |]; [|done..]. destruct IH as [Hh2 Hun2]. split; [done|].
  intros a0 l0 H0' Hu. destruct (Hun a0 l0 H0' Hu) as [? ?]. by apply Hun2.
Qed.
End ArrayFacts.

(** ** An arena *)

(** An allocator that hands out the next number. *)
#[global] Instance next_block {A} : Malloc A := fun h _ => Some (fresh (dom h)).
#[global] Instance next_block_fresh {A} : MallocFresh A.
Proof. intros h size b [= <-]. apply not_elem_of_dom, is_fresh. Qed.

(** A body of five items on an arena: the copy of the descriptor from before the
    array was moved still has its four. *)
Lemma growable_arrays_correct_witness :
  exists a h a4 h4, push_all (A := nat) Arena_copy 4 ∅ no_items [1; 2; 3; 4]%nat = Done (a4, h4) /\
    push_all Arena_copy 4 h4 a4 [5]%nat = Done (a, h) /\ a_items a <> a_items a4 /\
    holds h a [1; 2; 3; 4; 5]%nat /\ holds h a4 [1; 2; 3; 4]%nat.
Proof.
  assert (H0 : holds (A := nat) ∅ no_items []) by (by split_and!).
  pose proof (growable_arrays_correct Arena_copy 4 [1; 2; 3; 4]%nat ∅ no_items [] ltac:(unfold INT_LIMIT; lia) H0 ltac:(by vm_compute)) as [H4 _].
  destruct (push_all Arena_copy 4 ∅ no_items _) as [[a4 h4]| |] eqn:E4; [|vm_compute in E4; done..]. destruct H4 as [H4 _].
  pose proof (growable_arrays_correct Arena_copy 4 [5]%nat h4 a4 [1; 2; 3; 4]%nat ltac:(unfold INT_LIMIT; lia) H4 ltac:(by vm_compute)) as [H5 _].
  vm_compute in E4. injection E4 as <- <-.
  destruct (push_all Arena_copy 4 _ _ [5]%nat) as [[a h]| |] eqn:E5; [|vm_compute in E5; done..]. destruct H5 as [H5 Hun].
  eexists a, h, _, _. split; [reflexivity|]. split; [exact E5|]. split; [vm_compute in E5; by injection E5 as <- <-|].
  split; [exact H5|]. apply Hun; [exact H4|]. right. split; [done|]. split; [done|]. cbn. lia.
Defined.
