(* ===== verification/Dates.v ===== *)
(** * Dates: [parse_tjp_date] of [parser.c] and [format_date] of [code_lens.c].

    The C library functions they call ([sscanf], [timegm], [gmtime_r],
    [snprintf]) are modelled as far as they are used: UTC, the proleptic
    Gregorian calendar, a time as seconds since 1970-01-01. *)

From S2P Require Import Prelude CText.
Local Open Scope Z_scope.

(** ** The calendar *)

Definition SECONDS_PER_DAY : Z := 86400.

Definition is_leap (y : Z) : bool :=
  ((y mod 4 =? 0) && negb (y mod 100 =? 0)) || (y mod 400 =? 0).

(** Days before 1 January of year [y], counted from 1 January of year 1. *)
Definition days_before_year (y : Z) : Z :=
  365 * (y - 1) + (y - 1) / 4 - (y - 1) / 100 + (y - 1) / 400.

(** Days of the year before month [m] (0 is January). *)
Definition days_before_month (leap : bool) (m : Z) : Z :=
  let l := if leap then 1 else 0 in
  match m with
  | 0 => 0 | 1 => 31 | 2 => 59 + l | 3 => 90 + l | 4 => 120 + l | 5 => 151 + l | 6 => 181 + l
  | 7 => 212 + l | 8 => 243 + l | 9 => 273 + l | 10 => 304 + l | 11 => 334 + l | _ => 365 + l
  end.

Definition month_length (leap : bool) (m : Z) : Z :=
  days_before_month leap (m + 1) - days_before_month leap m.

(** Day number of 1970-01-01. *)
Definition EPOCH : Z := 719162.

(** [struct tm], as far as it is used: [tm_year] from 1900, [tm_mon] from 0. *)
Record tm : Set := mkTm { tm_year : Z; tm_mon : Z; tm_mday : Z; tm_wday : Z }.

(** [timegm]: months outside 0..11 carry into the year, days add up. *)
Definition timegm (t : tm) : Z :=
  let y := tm_year t + 1900 + tm_mon t / 12 in
  let m := tm_mon t mod 12 in
  (days_before_year y - EPOCH + days_before_month (is_leap y) m + (tm_mday t - 1)) * SECONDS_PER_DAY.

(** The year of a day number: an estimate that is at most one off. *)
Definition year_of_day (n : Z) : Z :=
  let y := n * 400 / 146097 + 1 in
  if n <? days_before_year y then y - 1
  else if days_before_year (y + 1) <=? n then y + 1
  else y.

(** The month of a day of the year: the last one that has begun. *)
Fixpoint month_from (leap : bool) (yday : Z) (ms : list Z) (m0 : Z) : Z :=
  match ms with
  | [] => m0
  | m :: ms' => if days_before_month leap m <=? yday then month_from leap yday ms' m else m0
  end.
Definition month_of_yday (leap : bool) (yday : Z) : Z :=
  month_from leap yday [1; 2; 3; 4; 5; 6; 7; 8; 9; 10; 11] 0.

Definition gmtime_r (t : Z) : tm :=
  let n := t / SECONDS_PER_DAY in
  let y := year_of_day (n + EPOCH) in
  let yday := n + EPOCH - days_before_year y in
  let m := month_of_yday (is_leap y) yday in
  mkTm (y - 1900) m (yday - days_before_month (is_leap y) m + 1) ((n + 4) mod 7).

(** ** [sscanf (text, "%4d-%2d-%2d", ..)] *)

(** The digits at the front, at most [width] of them. *)
Fixpoint scan_digits (width : nat) (cs : list ascii) : list ascii * list ascii :=
  match width, cs with
  | S w, c :: cs' =>
      if is_digit c then let '(ds, r) := scan_digits w cs' in (c :: ds, r) else ([], cs)
  | _, _ => ([], cs)
  end.

(** One ["%<width>d"]: white space, an optional sign that counts for the width,
    at least one digit. *)
Definition scan_int (width : nat) (cs : list ascii) : option (Z * list ascii) :=
  let cs := skip_spaces cs in
  let '(neg, w, cs) :=
    match cs with
    | "-"%char :: r => (true, pred width, r)
    | "+"%char :: r => (false, pred width, r)
    | _ => (false, width, cs)
    end in
  let '(ds, r) := scan_digits w cs in
  match ds with
  | [] => None
  | _ => Some (if neg : bool then - dec_value 0 ds else dec_value 0 ds, r)
  end.

Definition scan_minus (cs : list ascii) : option (list ascii) :=
  match cs with "-"%char :: r => Some r | _ => None end.

Definition scan_date (cs : list ascii) : option (Z * Z * Z) :=
  '(y, cs) ← scan_int 4 cs;
  cs ← scan_minus cs;
  '(m, cs) ← scan_int 2 cs;
  cs ← scan_minus cs;
  '(d, _) ← scan_int 2 cs;
  Some (y, m, d).

(** [parse_tjp_date]. *)
Definition parse_tjp_date (text : option string) : option Z :=
  match text with
  | None => None
  | Some s =>
      match scan_date (list_ascii_of_string s) with
      | None => None
      | Some (year, month, day) =>
          let t := timegm (mkTm (year - 1900) (month - 1) day 0) in
          if t =? -1 then None else Some t
      end
  end.

(** ** [format_date] *)

(** ["%0<width>d"]: the sign counts for the width. *)
Definition print_padded (width : nat) (z : Z) : list ascii :=
  let ds := write_decimal 20 (Z.abs z) in
  let sign := if z <? 0 then ["-"%char] else [] in
  sign ++ replicate (width - length sign - length ds) "0"%char ++ ds.

Definition format_date (t : Z) : list ascii :=
  let tm := gmtime_r t in
  print_padded 4 (tm_year tm + 1900) ++ ["-"%char] ++ print_padded 2 (tm_mon tm + 1)
    ++ ["-"%char] ++ print_padded 2 (tm_mday tm).

(** ** Facts *)

(** Linear arithmetic with divisions by constants. *)
Ltac div_lia := Z.to_euclidean_division_equations; lia.

(** A date of the calendar. *)
Definition valid_date (y m d : Z) : Prop :=
  1 <= m <= 12 /\ 1 <= d <= month_length (is_leap y) (m - 1).

Lemma div_step k y : 0 < k -> y / k = (y - 1) / k + (if y mod k =? 0 then 1 else 0).
Proof.
  intros Hk. pose proof (Z.div_mod y k ltac:(lia)). pose proof (Z.mod_pos_bound y k Hk).
  destruct (Z.eqb_spec (y mod k) 0) as [E|E].
  - replace (y - 1) with ((y / k - 1) * k + (k - 1)) by nia.
    rewrite Z.div_add_l, (Z.div_small (k - 1) k) by lia. lia.
  - replace (y - 1) with (y / k * k + (y mod k - 1)) by nia.
    rewrite Z.div_add_l, (Z.div_small (y mod k - 1) k) by lia. lia.
Qed.

Lemma year_length y :
  days_before_year (y + 1) = days_before_year y + (if is_leap y then 366 else 365).
Proof.
  unfold days_before_year, is_leap. replace (y + 1 - 1) with y by lia.
  rewrite (div_step 4 y), (div_step 100 y), (div_step 400 y) by lia.
  pose proof (Z.mod_mod_divide y 400 100 ltac:(by exists 4)) as H1.
  pose proof (Z.mod_mod_divide y 100 4 ltac:(by exists 25)) as H2.
  destruct (Z.eqb_spec (y mod 4) 0) as [E4|E4], (Z.eqb_spec (y mod 100) 0) as [E1|E1],
    (Z.eqb_spec (y mod 400) 0) as [E0|E0];
    rewrite ?E0, ?E1 in H1; rewrite ?E1, ?E4 in H2; cbn [andb orb negb]; done || lia.
Qed.

Lemma days_before_year_mono y y' : y <= y' -> days_before_year y <= days_before_year y'.
Proof. unfold days_before_year. intros. div_lia. Qed.

Lemma year_of_day_spec n :
  days_before_year (year_of_day n) <= n < days_before_year (year_of_day n + 1).
Proof.
  unfold year_of_day. set (y := n * 400 / 146097 + 1).
  assert (days_before_year (y - 1) <= n < days_before_year (y + 2)).
  { unfold days_before_year. assert (146097 * (y - 1) <= n * 400 < 146097 * y) by (unfold y; div_lia).
    clearbody y. div_lia. }
  destruct (Z.ltb_spec n (days_before_year y)).
  - replace (y - 1 + 1) with y by lia. lia.
  - destruct (Z.leb_spec (days_before_year (y + 1)) n); [|lia].
    replace (y + 1 + 1) with (y + 2) by lia. lia.
Qed.

Lemma year_of_day_unique n y :
  days_before_year y <= n < days_before_year (y + 1) -> year_of_day n = y.
Proof.
  intros Hn. pose proof (year_of_day_spec n) as Hy. destruct (Z.lt_trichotomy (year_of_day n) y) as [H|[H|H]].
  - pose proof (days_before_year_mono (year_of_day n + 1) y ltac:(lia)). lia.
  - done.
  - pose proof (days_before_year_mono (y + 1) (year_of_day n) ltac:(lia)). lia.
Qed.

Ltac months_compute H := cbv [days_before_month month_length Z.add Pos.add Pos.succ Pos.add_carry] in H.

(** The twelve months, one by one. *)
Ltac each_month m :=
  assert (m = 0 \/ m = 1 \/ m = 2 \/ m = 3 \/ m = 4 \/ m = 5 \/ m = 6 \/ m = 7 \/ m = 8 \/
          m = 9 \/ m = 10 \/ m = 11) as Hmonth by lia;
  repeat (destruct Hmonth as [->|Hmonth]; [|]); [..|subst m].

Lemma month_of_yday_spec leap m yd :
  0 <= m <= 11 -> days_before_month leap m <= yd < days_before_month leap (m + 1) ->
  month_of_yday leap yd = m.
Proof.
  intros Hm Hd. unfold month_of_yday.
  each_month m; destruct leap; months_compute Hd; cbn -[Z.leb];
    repeat match goal with |- context [?a <=? ?b] => destruct (Z.leb_spec a b) end; lia.
Qed.

Lemma days_before_month_range leap m :
  0 <= m <= 11 -> 0 <= days_before_month leap m /\ 28 <= month_length leap m <= 31 /\
  days_before_month leap (m + 1) <= (if leap then 366 else 365).
Proof.
  intros Hm. each_month m; destruct leap;
    cbv [days_before_month month_length Z.add Pos.add Pos.succ Pos.add_carry]; lia.
Qed.

(** The day number of a date. *)
Definition day_number (y m d : Z) : Z :=
  days_before_year y - EPOCH + days_before_month (is_leap y) (m - 1) + (d - 1).

Lemma timegm_day y m d w :
  1 <= m <= 12 -> timegm (mkTm (y - 1900) (m - 1) d w) = day_number y m d * SECONDS_PER_DAY.
Proof.
  intros Hm. unfold timegm, day_number. cbn [tm_year tm_mon tm_mday].
  rewrite (Z.div_small (m - 1) 12), (Z.mod_small (m - 1) 12) by lia.
  by replace (y - 1900 + 1900 + 0) with y by lia.
Qed.

(** [gmtime_r] inverts [timegm] on the dates of the calendar. *)
Lemma gmtime_timegm y m d secs :
  valid_date y m d -> 0 <= secs < SECONDS_PER_DAY ->
  gmtime_r (day_number y m d * SECONDS_PER_DAY + secs) =
    mkTm (y - 1900) (m - 1) d ((day_number y m d + 4) mod 7).
Proof.
  intros [Hm Hd] Hs. unfold gmtime_r. unfold SECONDS_PER_DAY in *.
  rewrite Z.div_add_l, (Z.div_small secs), Z.add_0_r by lia.
  pose proof (days_before_month_range (is_leap y) (m - 1) ltac:(lia)) as (H1 & _ & H2).
  unfold month_length in Hd. pose proof (year_length y) as Hy.
  assert (Hn : year_of_day (day_number y m d + EPOCH) = y).
  { apply year_of_day_unique. unfold day_number. lia. }
  rewrite Hn.
  assert (Hyd : day_number y m d + EPOCH - days_before_year y
                  = days_before_month (is_leap y) (m - 1) + (d - 1)) by (unfold day_number; lia).
  rewrite Hyd, (month_of_yday_spec (is_leap y) (m - 1)) by lia. f_equal. lia.
Qed.

(** Every time falls on a date of the calendar. *)
Lemma gmtime_valid t :
  let tm := gmtime_r t in
  valid_date (tm_year tm + 1900) (tm_mon tm + 1) (tm_mday tm) /\
  day_number (tm_year tm + 1900) (tm_mon tm + 1) (tm_mday tm) = t / SECONDS_PER_DAY.
Proof.
  cbn zeta. unfold gmtime_r. set (n := t / SECONDS_PER_DAY). cbn [tm_year tm_mon tm_mday].
  pose proof (year_of_day_spec (n + EPOCH)) as Hy. pose proof (year_length (year_of_day (n + EPOCH))) as Hl.
  set (y := year_of_day (n + EPOCH)) in *. replace (y - 1900 + 1900) with y by lia.
  set (yd := n + EPOCH - days_before_year y). set (leap := is_leap y) in *.
  assert (Hyd : 0 <= yd < if leap then 366 else 365) by (unfold yd; destruct leap; lia).
  assert (Hm : exists m, 0 <= m <= 11 /\ days_before_month leap m <= yd < days_before_month leap (m + 1)).
  { clearbody yd leap. clear -Hyd.
    destruct (Z.lt_ge_cases yd (days_before_month leap 6)); [
      destruct (Z.lt_ge_cases yd (days_before_month leap 3)); [
        destruct (Z.lt_ge_cases yd (days_before_month leap 1)); [exists 0|
        destruct (Z.lt_ge_cases yd (days_before_month leap 2)); [exists 1|exists 2]]|
        destruct (Z.lt_ge_cases yd (days_before_month leap 4)); [exists 3|
        destruct (Z.lt_ge_cases yd (days_before_month leap 5)); [exists 4|exists 5]]]|
      destruct (Z.lt_ge_cases yd (days_before_month leap 9)); [
        destruct (Z.lt_ge_cases yd (days_before_month leap 7)); [exists 6|
        destruct (Z.lt_ge_cases yd (days_before_month leap 8)); [exists 7|exists 8]]|
        destruct (Z.lt_ge_cases yd (days_before_month leap 10)); [exists 9|
        destruct (Z.lt_ge_cases yd (days_before_month leap 11)); [exists 10|exists 11]]]];
      destruct leap; cbv [days_before_month Z.add Pos.add Pos.succ Pos.add_carry] in *; lia. }
  destruct Hm as (m & Hm & Hd). rewrite (month_of_yday_spec leap m yd Hm Hd).
  unfold valid_date, day_number, month_length. replace (m + 1 - 1) with m by lia. fold leap.
  split; [lia|]. unfold yd. lia.
Qed.

(** ** Reading back a printed date *)

Lemma length_tmp_digits_pow fuel k : forall val,
  0 <= val < 10 ^ Z.of_nat k -> (length (tmp_digits fuel val) <= k)%nat.
Proof.
  revert k. induction fuel as [|fuel IH]; intros k val Hv; cbn [tmp_digits]; [cbn; lia|].
  destruct (Z.gtb_spec val 0); [|cbn; lia].
  destruct k as [|k]; [change (10 ^ Z.of_nat 0) with 1 in Hv; lia|].
  rewrite Nat2Z.inj_succ, Z.pow_succ_r in Hv by lia. cbn [length]. apply le_n_S, IH. div_lia.
Qed.

Lemma length_write_decimal_pow size k val :
  (0 < k)%nat -> 0 <= val < 10 ^ Z.of_nat k -> (length (write_decimal size val) <= k)%nat.
Proof.
  intros Hk Hv. unfold write_decimal. case_match; [cbn; lia|].
  rewrite length_reverse. by apply length_tmp_digits_pow.
Qed.

Lemma dec_value_zeros n ds : dec_value 0 (replicate n "0"%char ++ ds) = dec_value 0 ds.
Proof. induction n as [|n IH]; [done|]. cbn [replicate app]. exact IH. Qed.

(** A number that fits its width is printed with exactly that many digits. *)
Lemma print_padded_digits k z :
  (0 < k)%nat -> 0 <= z < 10 ^ Z.of_nat k -> 0 <= z < 10 ^ 20 ->
  Forall (fun c => is_digit c = true) (print_padded k z) /\
  length (print_padded k z) = k /\ dec_value 0 (print_padded k z) = z.
Proof.
  intros Hk Hz Hz20. unfold print_padded. destruct (Z.ltb_spec z 0); [lia|].
  rewrite Z.abs_eq by lia. cbn [app length]. rewrite Nat.sub_0_r.
  pose proof (length_write_decimal_pow 20 k z Hk Hz). split_and!.
  - apply Forall_app. split; [by apply Forall_replicate|apply write_decimal_digits].
  - rewrite length_app, length_replicate. lia.
  - rewrite dec_value_zeros. apply write_decimal_value. done.
Qed.

Lemma scan_digits_all ds rest :
  Forall (fun c => is_digit c = true) ds -> scan_digits (length ds) (ds ++ rest) = (ds, rest).
Proof. induction 1 as [|c ds Hc _ IH]; [by destruct rest|]. cbn. by rewrite Hc, IH. Qed.

Lemma scan_int_padded k z rest :
  (0 < k)%nat -> 0 <= z < 10 ^ Z.of_nat k -> 0 <= z < 10 ^ 20 ->
  scan_int k (print_padded k z ++ rest) = Some (z, rest).
Proof.
  intros Hk Hz Hz20. destruct (print_padded_digits k z Hk Hz Hz20) as (Hd & Hl & Hv).
  pose proof (scan_digits_all _ rest Hd) as Hs. rewrite Hl in Hs. unfold scan_int.
  destruct (print_padded k z) as [|c ds]; [cbn in Hl; lia|].
  apply Forall_cons in Hd as [Hc _]. cbn [skip_spaces app]. rewrite (digit_not_space c Hc).
  assert (He : (match c :: ds ++ rest with
               | "-"%char :: r => (true, pred k, r)
               | "+"%char :: r => (false, pred k, r)
               | _ => (false, k, c :: ds ++ rest)
               end) = (false, k, c :: ds ++ rest)).
  { clear -Hc. destruct c as [[] [] [] [] [] [] [] []]; first [reflexivity|by vm_compute in Hc]. }
  rewrite He. cbn [app] in Hs. rewrite Hs. by rewrite Hv.
Qed.

Definition date_text (y m d : Z) : list ascii :=
  print_padded 4 y ++ ["-"%char] ++ print_padded 2 m ++ ["-"%char] ++ print_padded 2 d.

Lemma parse_date_text y m d rest :
  valid_date y m d -> 0 <= y <= 9999 ->
  parse_tjp_date (Some (string_of_list_ascii (date_text y m d ++ rest)))
    = Some (day_number y m d * SECONDS_PER_DAY).
Proof.
  intros [Hm Hd] Hy. pose proof (days_before_month_range (is_leap y) (m - 1) ltac:(lia)) as (_ & Hr & _).
  unfold parse_tjp_date, scan_date, date_text. rewrite list_ascii_of_string_of_list_ascii.
  rewrite <- !(assoc_L (++)). rewrite (scan_int_padded 4 y) by lia. cbn [mbind option_bind app scan_minus].
  rewrite (scan_int_padded 2 m) by lia. cbn [mbind option_bind app scan_minus].
  rewrite (scan_int_padded 2 d) by lia. cbn [mbind option_bind].
  rewrite timegm_day by done. unfold SECONDS_PER_DAY.
  destruct (Z.eqb_spec (day_number y m d * 86400) (-1)); [lia|done].
Qed.

Lemma format_day y m d secs :
  valid_date y m d -> 0 <= secs < SECONDS_PER_DAY ->
  format_date (day_number y m d * SECONDS_PER_DAY + secs) = date_text y m d.
Proof.
  intros Hv Hs. unfold format_date. rewrite gmtime_timegm by done. cbn [tm_year tm_mon tm_mday].
  unfold date_text. by replace (y - 1900 + 1900) with y by lia; replace (m - 1 + 1) with m by lia.
Qed.

(** ** Properties *)

(** Dates survive the trip through [time_t].  The text of a date of the
    calendar, whatever time of day follows it, is parsed to the midnight (UTC)
    that starts it, and that time is formatted as the same text; and any time
    in the years 0 to 9999 is formatted as a text that is parsed to the
    midnight before it. *)
Theorem date_roundtrip rest :
  (forall y m d, valid_date y m d -> 0 <= y <= 9999 ->
     exists t, parse_tjp_date (Some (string_of_list_ascii (date_text y m d ++ rest))) = Some t /\
       t mod SECONDS_PER_DAY = 0 /\ format_date t = date_text y m d) /\
  (forall t, 0 <= tm_year (gmtime_r t) + 1900 <= 9999 ->
     parse_tjp_date (Some (string_of_list_ascii (format_date t ++ rest)))
       = Some (t - t mod SECONDS_PER_DAY)).
Proof.
  split.
  - intros y m d Hv Hy. exists (day_number y m d * SECONDS_PER_DAY).
    split; [by apply parse_date_text|]. split; [by apply Z.mod_mul|].
    rewrite <- (Z.add_0_r (_ * _)). by apply format_day.
  - intros t Hy. destruct (gmtime_valid t) as [Hv Hn].
    change (format_date t) with
      (date_text (tm_year (gmtime_r t) + 1900) (tm_mon (gmtime_r t) + 1) (tm_mday (gmtime_r t))).
    rewrite parse_date_text by done. rewrite Hn. f_equal. unfold SECONDS_PER_DAY. div_lia.
Qed.

Lemma date_roundtrip_witness :
  exists t, parse_tjp_date (Some "2024-02-29-09:00"%string) = Some t /\
    t mod SECONDS_PER_DAY = 0 /\ format_date t = list_ascii_of_string "2024-02-29".
Proof.
  assert (Hv : valid_date 2024 2 29) by (split; vm_compute; split; discriminate).
  exact (proj1 (date_roundtrip (list_ascii_of_string "-09:00")) 2024 2 29 Hv ltac:(lia)).
Defined.

(** A day the month does not have is not refused: it runs into the next month. *)
Example february_31 :
  format_date <$> parse_tjp_date (Some "2024-02-31"%string)
    = Some (list_ascii_of_string "2024-03-02").
Proof. vm_compute. reflexivity. Qed.
