(* ===== verification/PathUri.v ===== *)
(** * [pathutil.c]: file URIs, percent encoding and lexical normalisation.

    C strings are [string]s without a NUL character; [percent_decode] can
    produce one (from ["%00"]), which ends the C string, so its result is cut
    there.  [realpath] belongs to the file system and is a parameter. *)

From S2P Require Import Prelude CText.

(** ** Characters *)

Definition is_upper (c : ascii) : bool := ((65 <=? ch_code c) && (ch_code c <=? 90))%Z.
Definition is_lower (c : ascii) : bool := ((97 <=? ch_code c) && (ch_code c <=? 122))%Z.

(** [isxdigit] in the C locale. *)
Definition is_xdigit (c : ascii) : bool :=
  (is_digit c || ((65 <=? ch_code c) && (ch_code c <=? 70))
   || ((97 <=? ch_code c) && (ch_code c <=? 102)))%Z.

(** The value [strtol (hex, NULL, 16)] gives a digit. *)
Definition xdigit_val (c : ascii) : Z :=
  (if is_digit c then ch_code c - 48
   else if ch_code c <=? 70 then ch_code c - 55 else ch_code c - 87)%Z.

Definition slash : ascii := "/"%char.

(** A C string ends at its first NUL. *)
Fixpoint c_string (s : string) : string :=
  match s with
  | EmptyString => EmptyString
  | String c s' => if bool_decide (c = nul) then EmptyString else String c (c_string s')
  end.

Fixpoint no_nul (s : string) : bool :=
  match s with
  | EmptyString => true
  | String c s' => bool_decide (c ≠ nul) && no_nul s'
  end.

(** ** Percent encoding *)

Definition hex_byte (h l : ascii) : ascii :=
  ascii_of_nat (Z.to_nat (16 * xdigit_val h + xdigit_val l)).

(** The loop of [percent_decode]. *)
Fixpoint decode_bytes (src : string) : string :=
  match src with
  | EmptyString => EmptyString
  | String c rest =>
      match rest with
      | String h (String l rest') =>
          if bool_decide (c = "%"%char) && is_xdigit h && is_xdigit l
          then String (hex_byte h l) (decode_bytes rest')
          else String c (decode_bytes rest)
      | _ => String c (decode_bytes rest)
      end
  end.

Definition percent_decode (src : string) : string := c_string (decode_bytes src).

Definition unreserved (c : ascii) : bool :=
  bool_decide (c = slash) || is_upper c || is_lower c || is_digit c
  || bool_decide (c = "-"%char) || bool_decide (c = "_"%char)
  || bool_decide (c = "."%char) || bool_decide (c = "~"%char).

(** ["0123456789ABCDEF"[n]]. *)
Definition hex_digit (n : Z) : ascii :=
  ascii_of_nat (Z.to_nat (if n <? 10 then 48 + n else 55 + n)%Z).

Fixpoint percent_encode_path (src : string) : string :=
  match src with
  | EmptyString => EmptyString
  | String c rest =>
      if unreserved c then String c (percent_encode_path rest)
      else String "%"%char
             (String (hex_digit (Z.shiftr (ch_code c) 4))
                (String (hex_digit (Z.land (ch_code c) 15)) (percent_encode_path rest)))
  end.

(** ** URIs *)

Definition FILE_SCHEME : string := "file://".

(** [strncmp (s, "file://", 7) == 0], and [s + 7]. *)
Fixpoint strip_prefix (p s : string) : option string :=
  match p, s with
  | EmptyString, _ => Some s
  | String a p', String b s' => if bool_decide (a = b) then strip_prefix p' s' else None
  | _, _ => None
  end.

Definition uri_to_path (uri : string) : option string :=
  percent_decode <$> strip_prefix FILE_SCHEME uri.

Definition path_to_uri (path : string) : string :=
  String.append FILE_SCHEME (percent_encode_path path).

(** ** Lexical normalisation *)

(** The segments between slashes, in order; empty ones are not segments. *)
Fixpoint segments_from (seg path : list ascii) : list (list ascii) :=
  match path with
  | [] => if bool_decide (seg = []) then [] else [reverse seg]
  | c :: rest =>
      if bool_decide (c = slash)
      then (if bool_decide (seg = []) then [] else [reverse seg]) ++ segments_from [] rest
      else segments_from (c :: seg) rest
  end.

Definition segments (path : string) : list (list ascii) :=
  segments_from [] (list_ascii_of_string path).

Definition is_dot (seg : list ascii) : bool := bool_decide (seg = ["."%char]).

(** The output loop: a separator before every segment but the first. *)
Fixpoint write_segments (wrote_segment : bool) (segs : list (list ascii)) : list ascii :=
  match segs with
  | [] => []
  | seg :: segs' =>
      if is_dot seg then write_segments wrote_segment segs'
      else (if wrote_segment then [slash] else []) ++ seg ++ write_segments true segs'
  end.

Definition is_absolute (path : string) : bool :=
  match path with String c _ => bool_decide (c = slash) | EmptyString => false end.

(** The buffer written, before the terminating NUL. *)
Definition lexical_output (path : string) : list ascii :=
  (if is_absolute path then [slash] else []) ++ write_segments false (segments path).

Definition lexical_normalize_path (path : string) : string :=
  string_of_list_ascii (lexical_output path).

Section Normalize.
Variable realpath : string -> option string.

Definition normalize_uri (raw_uri : string) : string :=
  match uri_to_path raw_uri with
  | None => raw_uri
  | Some path => path_to_uri (default (lexical_normalize_path path) (realpath path))
  end.
End Normalize.

(** ** Characters as numbers *)

Lemma ch_code_ascii n : (0 <= n < 256)%Z -> ch_code (ascii_of_nat (Z.to_nat n)) = n.
Proof. intros. unfold ch_code. rewrite nat_ascii_embedding; lia. Qed.

Lemma hex_digit_code n : (0 <= n < 16)%Z ->
  ch_code (hex_digit n) = (if n <? 10 then 48 + n else 55 + n)%Z.
Proof. intros. unfold hex_digit. rewrite ch_code_ascii; [done|]. case_match; lia. Qed.

Lemma hex_digit_xdigit n : (0 <= n < 16)%Z -> is_xdigit (hex_digit n) = true.
Proof.
  intros. unfold is_xdigit, is_digit. rewrite hex_digit_code by done.
  destruct (Z.ltb_spec n 10); lia.
Qed.

Lemma xdigit_val_hex_digit n : (0 <= n < 16)%Z -> xdigit_val (hex_digit n) = n.
Proof.
  intros. unfold xdigit_val, is_digit. rewrite hex_digit_code by done.
  destruct (Z.ltb_spec n 10).
  - destruct (Z.leb_spec 48 (48 + n)), (Z.leb_spec (48 + n) 57); simpl; lia.
  - destruct (Z.leb_spec 48 (55 + n)), (Z.leb_spec (55 + n) 57), (Z.leb_spec (55 + n) 70);
      simpl; lia.
Qed.

Lemma hex_byte_encode c :
  hex_byte (hex_digit (Z.shiftr (ch_code c) 4)) (hex_digit (Z.land (ch_code c) 15)) = c.
Proof.
  pose proof (ch_code_range c) as Hc.
  rewrite Z.shiftr_div_pow2 by lia. change 15%Z with (Z.ones 4).
  rewrite Z.land_ones by lia. change (2 ^ 4)%Z with 16%Z.
  unfold hex_byte. rewrite !xdigit_val_hex_digit.
  - rewrite <- Z.div_mod by lia. apply ascii_of_ch_code.
  - apply Z.mod_pos_bound. lia.
  - split; [apply Z.div_pos; lia|apply Z.div_lt_upper_bound; lia].
Qed.

Lemma hex_encode_digits c :
  is_xdigit (hex_digit (Z.shiftr (ch_code c) 4)) = true /\
  is_xdigit (hex_digit (Z.land (ch_code c) 15)) = true.
Proof.
  pose proof (ch_code_range c) as Hc.
  rewrite Z.shiftr_div_pow2 by lia. change 15%Z with (Z.ones 4).
  rewrite Z.land_ones by lia. change (2 ^ 4)%Z with 16%Z.
  split; apply hex_digit_xdigit.
  - split; [apply Z.div_pos; lia|apply Z.div_lt_upper_bound; lia].
  - apply Z.mod_pos_bound. lia.
Qed.

(** ** Round trip *)

Lemma decode_unreserved c rest :
  unreserved c = true -> decode_bytes (String c rest) = String c (decode_bytes rest).
Proof.
  intros Hc. simpl. destruct rest as [|h [|l rest]]; try done.
  rewrite (bool_decide_eq_false_2 (c = "%"%char)); [done|]. intros ->. done.
Qed.

Lemma decode_encode p : decode_bytes (percent_encode_path p) = p.
Proof.
  induction p as [|c p IH]; [done|]. cbn [percent_encode_path].
  destruct (unreserved c) eqn:E.
  - rewrite decode_unreserved by done. by rewrite IH.
  - destruct (hex_encode_digits c) as [Hh Hl].
    cbn [decode_bytes]. rewrite Hh, Hl. rewrite bool_decide_eq_true_2 by done. cbn [andb].
    by rewrite hex_byte_encode, IH.
Qed.

Lemma c_string_id s : no_nul s = true -> c_string s = s.
Proof.
  induction s as [|c s IH]; simpl; [done|]. intros [Hc Hs]%andb_true_iff.
  apply bool_decide_eq_true in Hc. rewrite bool_decide_eq_false_2 by done. by rewrite IH.
Qed.

Lemma percent_roundtrip p : no_nul p = true -> percent_decode (percent_encode_path p) = p.
Proof. intros Hp. unfold percent_decode. rewrite decode_encode. by apply c_string_id. Qed.

Lemma uri_roundtrip p : no_nul p = true -> uri_to_path (path_to_uri p) = Some p.
Proof.
  intros Hp. unfold uri_to_path, path_to_uri.
  change (strip_prefix FILE_SCHEME _) with (Some (percent_encode_path p)).
  cbn [fmap option_fmap option_map]. by rewrite percent_roundtrip.
Qed.

Lemma length_encode p : (String.length (percent_encode_path p) <= 3 * String.length p)%nat.
Proof. induction p as [|c p IH]; simpl; [done|]. destruct (unreserved c); simpl; lia. Qed.

(** Only unreserved characters and escapes appear in an encoded path. *)
Fixpoint all_chars (P : ascii -> bool) (s : string) : bool :=
  match s with EmptyString => true | String c s' => P c && all_chars P s' end.

Definition uri_char (c : ascii) : bool := unreserved c || bool_decide (c = "%"%char).

Lemma xdigit_uri_char c : is_xdigit c = true -> uri_char c = true.
Proof.
  unfold is_xdigit, uri_char, unreserved, is_upper, is_lower, is_digit. intros H.
  destruct ((48 <=? ch_code c)%Z && (ch_code c <=? 57)%Z); [by rewrite !orb_true_r|].
  rewrite orb_false_l in H. apply orb_true_iff in H as [H|H].
  - assert ((65 <=? ch_code c)%Z && (ch_code c <=? 90)%Z = true) as -> by lia.
    by rewrite !orb_true_r.
  - assert ((97 <=? ch_code c)%Z && (ch_code c <=? 122)%Z = true) as -> by lia.
    by rewrite !orb_true_r.
Qed.

Lemma encode_chars p : all_chars uri_char (percent_encode_path p) = true.
Proof.
  induction p as [|c p IH]; [done|]. cbn [percent_encode_path].
  destruct (unreserved c) eqn:E; cbn [all_chars].
  - unfold uri_char at 1. by rewrite E, IH.
  - destruct (hex_encode_digits c) as [Hh Hl].
    by rewrite (xdigit_uri_char _ Hh), (xdigit_uri_char _ Hl), IH.
Qed.

(** ** Normal form *)

Lemma reverse_nil_iff {A} (l : list A) : reverse l = [] <-> l = [].
Proof.
  split; [|by intros ->]. intros H. rewrite <- (reverse_involutive l). by rewrite H.
Qed.

Definition seg_ok (seg : list ascii) : Prop := seg ≠ [] /\ slash ∉ seg.

Definition plain (seg : list ascii) : Prop := is_dot seg = false.

#[global] Instance plain_dec seg : Decision (plain seg).
Proof. unfold plain. apply _. Defined.

Lemma segments_from_ok seg path : slash ∉ seg -> Forall seg_ok (segments_from seg path).
Proof.
  assert (Hflush : forall s, slash ∉ s ->
            Forall seg_ok (if bool_decide (s = []) then [] else [reverse s])).
  { intros s Hs. case_bool_decide as E; [constructor|]. constructor; [|constructor].
    split; [by rewrite reverse_nil_iff|by rewrite elem_of_reverse]. }
  revert seg. induction path as [|c path IH]; intros seg Hseg; simpl; [by apply Hflush|].
  case_bool_decide.
  - apply Forall_app. split; [by apply Hflush|]. apply IH. apply not_elem_of_nil.
  - apply IH. rewrite not_elem_of_cons. by split; [congruence|].
Qed.

Lemma write_segments_filter w segs : write_segments w segs = write_segments w (filter plain segs).
Proof.
  revert w. induction segs as [|s segs IH]; intros w; [done|]. simpl.
  destruct (is_dot s) eqn:E.
  - rewrite filter_cons_False by (unfold plain; congruence). apply IH.
  - rewrite filter_cons_True by done. simpl. rewrite E. by rewrite IH.
Qed.

Lemma segments_from_app s seg rest :
  slash ∉ s -> segments_from seg (s ++ rest) = segments_from (reverse s ++ seg) rest.
Proof.
  revert seg. induction s as [|c s IH]; intros seg Hs; [done|].
  apply not_elem_of_cons in Hs as [Hc Hs]. simpl. rewrite bool_decide_eq_false_2 by congruence.
  rewrite IH by done. rewrite reverse_cons, <- app_assoc. done.
Qed.

Lemma segments_write_true seg segs :
  Forall seg_ok segs -> Forall plain segs ->
  segments_from seg (write_segments true segs)
    = (if bool_decide (seg = []) then [] else [reverse seg]) ++ segs.
Proof.
  intros Hok. revert seg. induction Hok as [|s segs [Hne Hsl] _ IH]; intros seg Hp; simpl.
  { by rewrite app_nil_r. }
  apply Forall_cons in Hp as [Hs Hp]. rewrite Hs. simpl. f_equal.
  rewrite segments_from_app, app_nil_r, IH by done.
  rewrite bool_decide_eq_false_2 by (by rewrite reverse_nil_iff). by rewrite reverse_involutive.
Qed.

Lemma segments_write_false segs :
  Forall seg_ok segs -> Forall plain segs -> segments_from [] (write_segments false segs) = segs.
Proof.
  intros [|s segs' [Hne Hsl] Hok] Hp; [done|]. apply Forall_cons in Hp as [Hs Hp].
  simpl. rewrite Hs. simpl. rewrite segments_from_app, app_nil_r, segments_write_true by done.
  rewrite bool_decide_eq_false_2 by (by rewrite reverse_nil_iff). by rewrite reverse_involutive.
Qed.

Lemma filter_ok {A} (P Q : A -> Prop) `{forall x, Decision (P x)} l :
  Forall Q l -> Forall Q (filter P l).
Proof. rewrite !Forall_forall. intros Hl x [_ Hx]%list_elem_of_filter. auto. Qed.

Lemma segments_normalize path :
  segments (lexical_normalize_path path) = filter plain (segments path).
Proof.
  unfold segments at 1, lexical_normalize_path.
  rewrite list_ascii_of_string_of_list_ascii. unfold lexical_output.
  rewrite write_segments_filter.
  assert (Hok : Forall seg_ok (filter plain (segments path))).
  { apply filter_ok, segments_from_ok, not_elem_of_nil. }
  assert (Hp : Forall plain (filter plain (segments path))).
  { apply Forall_forall. by intros s [Hs _]%list_elem_of_filter. }
  destruct (is_absolute path); simpl; by apply segments_write_false.
Qed.

Lemma is_absolute_normalize path :
  is_absolute (lexical_normalize_path path) = is_absolute path.
Proof.
  unfold lexical_normalize_path, lexical_output.
  destruct (is_absolute path) eqn:E; [done|]. rewrite write_segments_filter. simpl.
  assert (Hok : Forall seg_ok (filter plain (segments path))).
  { apply filter_ok, segments_from_ok, not_elem_of_nil. }
  destruct (filter plain (segments path)) as [|s segs] eqn:Es; [done|].
  apply Forall_cons in Hok as [[Hne Hsl] _].
  assert (Hs : plain s).
  { assert (s ∈ filter plain (segments path)) as [? _]%list_elem_of_filter
      by (rewrite Es; left). done. }
  simpl. rewrite Hs. destruct s as [|c s]; [done|]. simpl.
  apply not_elem_of_cons in Hsl as [Hc _]. by rewrite bool_decide_eq_false_2 by congruence.
Qed.

Lemma normalize_idem path :
  lexical_normalize_path (lexical_normalize_path path) = lexical_normalize_path path.
Proof.
  unfold lexical_normalize_path at 1, lexical_output.
  rewrite is_absolute_normalize, segments_normalize, <- write_segments_filter. done.
Qed.

Lemma length_write_segments w seg path :
  (length (write_segments w (segments_from seg path))
   <= (if w then 1 else 0) + length seg + length path)%nat.
Proof.
  assert (Hone : forall w s segs n, (length (write_segments true segs) <= S n)%nat ->
    (length (write_segments w segs) <= (if w then 1 else 0) + n)%nat ->
    (length (write_segments w ((if bool_decide (s = []) then [] else [reverse s]) ++ segs))
     <= (if w then 1 else 0) + length s + S n)%nat).
  { intros w' s segs n Ht Hw. case_bool_decide; simpl; [subst; simpl; lia|].
    destruct (is_dot (reverse s)); [lia|]. rewrite !length_app, length_reverse.
    destruct w'; simpl; lia. }
  revert w seg. induction path as [|c path IH]; intros w seg; simpl.
  - case_bool_decide; simpl; [lia|]. destruct (is_dot (reverse seg)); simpl; [lia|].
    rewrite !length_app, length_reverse. destruct w; simpl; lia.
  - case_bool_decide.
    + pose proof (IH true []). pose proof (IH w []). simpl in *.
      apply (Hone w seg _ (length path)); lia.
    + specialize (IH w (c :: seg)). simpl in IH. lia.
Qed.

Lemma length_list_ascii s : length (list_ascii_of_string s) = String.length s.
Proof. induction s; simpl; congruence. Qed.

(** Normalising adds no character but slashes. *)
Lemma segments_from_chars (P : ascii -> Prop) seg path :
  Forall P seg -> Forall P path -> Forall (Forall P) (segments_from seg path).
Proof.
  assert (Hflush : forall s, Forall P s ->
            Forall (Forall P) (if bool_decide (s = []) then [] else [reverse s])).
  { intros s Hs. case_bool_decide; repeat constructor. by apply Forall_reverse. }
  intros Hs Hp. revert seg Hs. induction Hp as [|c path Hc Hp IH]; intros seg Hs; simpl;
    [by apply Hflush|].
  case_bool_decide; [|apply IH; by constructor].
  apply Forall_app. split; [by apply Hflush|]. by apply IH.
Qed.

Lemma write_segments_chars (P : ascii -> Prop) w segs :
  P slash -> Forall (Forall P) segs -> Forall P (write_segments w segs).
Proof.
  intros Hsl Hs. revert w. induction Hs as [|s segs Hs _ IH]; intros w; simpl; [done|].
  destruct (is_dot s); [apply IH|]. rewrite !Forall_app. split_and!; [|done|apply IH].
  destruct w; by repeat constructor.
Qed.

Lemma no_nul_list s : no_nul s = true <-> Forall (fun c => c ≠ nul) (list_ascii_of_string s).
Proof.
  induction s as [|c s IH]; simpl; [done|]. rewrite andb_true_iff, Forall_cons, IH.
  by rewrite bool_decide_eq_true.
Qed.

Lemma no_nul_c_string s : no_nul (c_string s) = true.
Proof.
  induction s as [|c s IH]; [done|]. simpl. case_bool_decide; [done|].
  simpl. rewrite IH, andb_true_r. by apply bool_decide_eq_true.
Qed.

Lemma no_nul_normalize p : no_nul p = true -> no_nul (lexical_normalize_path p) = true.
Proof.
  rewrite !no_nul_list. unfold lexical_normalize_path.
  rewrite list_ascii_of_string_of_list_ascii. intros Hp. unfold lexical_output.
  apply Forall_app. split; [destruct (is_absolute p); by repeat constructor|].
  apply write_segments_chars; [done|]. apply segments_from_chars; [constructor|done].
Qed.

(** ** Properties *)

(** C34: File paths survive the trip through a URI: for every path without a
    NUL byte, whatever other bytes it has, decoding the URI [path_to_uri]
    builds gives the path back; the encoded text has only URI-safe characters
    and fits the [3 * len + 1] bytes allocated for it. *)
Theorem path_uri_roundtrip path :
  no_nul path = true ->
  uri_to_path (path_to_uri path) = Some path /\
  all_chars uri_char (percent_encode_path path) = true /\
  (String.length (percent_encode_path path) <= 3 * String.length path)%nat.
Proof. intros Hp. split_and!; [by apply uri_roundtrip|apply encode_chars|apply length_encode]. Qed.

Lemma path_uri_roundtrip_witness :
  path_to_uri "/a b/%41é.tjp" = "file:///a%20b/%2541%C3%A9.tjp"%string /\
  uri_to_path "file:///a%20b/%2541%C3%A9.tjp" = Some "/a b/%41é.tjp"%string.
Proof.
  split; [vm_compute; reflexivity|].
  exact (proj1 (path_uri_roundtrip "/a b/%41é.tjp" eq_refl)).
Defined.

(** [lexical_normalize_path] computes the normal form it promises: the
    result has exactly the non-dot segments of the path, in order, none of them
    empty, is absolute exactly when the path is, is left alone by a second
    normalisation, and never exceeds the bytes of the path, so the [len + 2]
    bytes allocated are enough. *)
Theorem lexical_normalize_correct path :
  segments (lexical_normalize_path path) = filter plain (segments path) /\
  is_absolute (lexical_normalize_path path) = is_absolute path /\
  lexical_normalize_path (lexical_normalize_path path) = lexical_normalize_path path /\
  (length (lexical_output path) <= String.length path)%nat.
Proof.
  split_and!; [apply segments_normalize|apply is_absolute_normalize|apply normalize_idem|].
  unfold lexical_output, segments. rewrite <- length_list_ascii.
  destruct path as [|c path]; [done|]. cbn [list_ascii_of_string is_absolute].
  destruct (bool_decide (c = slash)) eqn:E.
  - cbn [segments_from]. rewrite E. rewrite (bool_decide_eq_true_2 ([] = [])) by done. simpl.
    pose proof (length_write_segments false [] (list_ascii_of_string path)). simpl in *. lia.
  - pose proof (length_write_segments false [] (c :: list_ascii_of_string path)). simpl in *. lia.
Qed.

(** [normalize_uri] is a canonical form for document lookup: given that
    [realpath] returns resolved paths (which resolve to themselves and have no
    NUL), normalising twice is the same as once, for URIs that are not file
    URIs, for files that exist, and for files that do not. *)
Theorem normalize_uri_idempotent (realpath : string -> option string) uri :
  (forall p c, realpath p = Some c -> realpath c = Some c /\ no_nul c = true) ->
  (forall p, uri_to_path uri = Some p -> realpath p = None ->
     realpath (lexical_normalize_path p) = None) ->
  normalize_uri realpath (normalize_uri realpath uri) = normalize_uri realpath uri.
Proof.
  intros Hreal Hnone. unfold normalize_uri at 2 3.
  destruct (uri_to_path uri) as [p|] eqn:Eu; [|unfold normalize_uri; by rewrite Eu].
  unfold normalize_uri. destruct (realpath p) as [c|] eqn:Er; cbn [default from_option].
  - destruct (Hreal _ _ Er) as [Hc Hn]. rewrite uri_roundtrip by done. cbn. by rewrite Hc.
  - assert (Hp : no_nul p = true).
    { unfold uri_to_path in Eu. destruct (strip_prefix _ uri); [|done].
      injection Eu as <-. apply no_nul_c_string. }
    rewrite uri_roundtrip by by apply no_nul_normalize.
    cbn. rewrite (Hnone p) by done. cbn. by rewrite normalize_idem.
Qed.

(** A file system with one file, reached through a link. *)
Definition sample_realpath (p : string) : option string :=
  if bool_decide (p = "/w/link.tjp"%string \/ p = "/w/a b.tjp"%string)
  then Some "/w/a b.tjp"%string else None.

Lemma normalize_uri_idempotent_witness :
  normalize_uri sample_realpath "file:///w/link.tjp" = "file:///w/a%20b.tjp"%string /\
  normalize_uri sample_realpath "file:///w//./new%2Etjp" = "file:///w/new.tjp"%string /\
  normalize_uri sample_realpath (normalize_uri sample_realpath "file:///w/link.tjp")
    = normalize_uri sample_realpath "file:///w/link.tjp".
Proof.
  split_and!; [vm_compute; reflexivity..|].
  apply (normalize_uri_idempotent sample_realpath "file:///w/link.tjp").
  - intros p c. unfold sample_realpath. case_bool_decide; [|done]. intros [= <-].
    split; [by rewrite bool_decide_eq_true_2 by auto|reflexivity].
  - intros p Hp. vm_compute in Hp. injection Hp as <-. vm_compute. done.
Defined.
