(* ===== verification/Syntax.v ===== *)
(** * The data model of [parser.h] and the list-level helpers of [parser.c].

    A pointer to a [tj_node] of a document is the node's path: the child
    indexes leading to it from the synthetic root.  The per-document tree is
    immutable once [parse] returns, so a path names one node for the life of a
    snapshot, and [parent_node] is the path without its last index
    ([assign_parent_links] makes the pointers agree with the tree). *)

From S2P Require Import Prelude Tokens.
From stdpp Require Import sorting.
Local Open Scope Z_scope.

(** ** Positions and ranges *)

Record LspPos : Set := mkPos { line : Z; character : Z }.
Record LspRange : Set := mkRange { rstart : LspPos; rend : LspPos }.

#[global] Instance LspPos_eq_dec : EqDecision LspPos.
Proof. solve_decision. Defined.
#[global] Instance LspRange_eq_dec : EqDecision LspRange.
Proof. solve_decision. Defined.

(** Both coordinates are [uint32_t]. *)
Definition pos_wf (p : LspPos) : Prop := is_u32 (line p) /\ is_u32 (character p).
Definition range_wf (r : LspRange) : Prop := pos_wf (rstart r) /\ pos_wf (rend r).

Definition pos_cmp (a b : LspPos) : Z :=
  if negb (line a =? line b) then (if line a <? line b then -1 else 1)
  else if negb (character a =? character b)
       then (if character a <? character b then -1 else 1)
       else 0.

Definition pos_le (a b : LspPos) : Prop :=
  line a < line b \/ line a = line b /\ character a <= character b.
Definition pos_lt (a b : LspPos) : Prop :=
  line a < line b \/ line a = line b /\ character a < character b.

#[global] Instance pos_le_dec a b : Decision (pos_le a b).
Proof. unfold pos_le. apply _. Defined.
#[global] Instance pos_lt_dec a b : Decision (pos_lt a b).
Proof. unfold pos_lt. apply _. Defined.

(** Decides goals that are position comparisons by linear arithmetic. *)
Ltac pos_lia :=
  unfold pos_wf, is_u32, u32_modulus, pos_le, pos_lt, pos_cmp in *;
  repeat (match goal with
          | |- context [Z.eqb ?a ?b] => destruct (Z.eqb_spec a b)
          | |- context [Z.ltb ?a ?b] => destruct (Z.ltb_spec a b)
          | |- context [Z.leb ?a ?b] => destruct (Z.leb_spec a b)
          | H : context [Z.eqb ?a ?b] |- _ => destruct (Z.eqb_spec a b)
          | H : context [Z.ltb ?a ?b] |- _ => destruct (Z.ltb_spec a b)
          | H : context [Z.leb ?a ?b] |- _ => destruct (Z.leb_spec a b)
          end; simpl in *);
  try done; try lia; try (cbn [line character] in *; lia).

Lemma pos_cmp_le a b : pos_cmp a b <= 0 <-> pos_le a b.
Proof. pos_lia. Qed.
Lemma pos_cmp_lt a b : pos_cmp a b < 0 <-> pos_lt a b.
Proof. pos_lia. Qed.
Lemma pos_cmp_ge a b : 0 <= pos_cmp a b <-> pos_le b a.
Proof. pos_lia. Qed.
Lemma pos_cmp_gt a b : 0 < pos_cmp a b <-> pos_lt b a.
Proof. pos_lia. Qed.
Lemma pos_not_le a b : ~ pos_le a b <-> pos_lt b a.
Proof. pos_lia. Qed.
Lemma pos_not_lt a b : ~ pos_lt a b <-> pos_le b a.
Proof. pos_lia. Qed.

#[global] Instance pos_le_preorder : PreOrder pos_le.
Proof. split; repeat intro; pos_lia. Qed.
#[global] Instance pos_le_total : Total pos_le.
Proof. intros a b. pos_lia. Qed.
#[global] Instance pos_lt_strict : StrictOrder pos_lt.
Proof. split; repeat intro; unfold complement; pos_lia. Qed.
Lemma pos_le_lt_trans a b c : pos_le a b -> pos_lt b c -> pos_lt a c.
Proof. pos_lia. Qed.
Lemma pos_lt_le_trans a b c : pos_lt a b -> pos_le b c -> pos_lt a c.
Proof. pos_lia. Qed.
Lemma pos_lt_le a b : pos_lt a b -> pos_le a b.
Proof. pos_lia. Qed.

#[export] Hint Resolve pos_lt_le pos_le_lt_trans pos_lt_le_trans : tjlsp.

(** The guards the source writes as [pos_cmp(..) <op> 0]. *)
Definition pos_leb (a b : LspPos) : bool := pos_cmp a b <=? 0.
Definition pos_ltb (a b : LspPos) : bool := pos_cmp a b <? 0.

Lemma pos_leb_spec a b : reflect (pos_le a b) (pos_leb a b).
Proof.
  unfold pos_leb. destruct (pos_cmp a b <=? 0) eqn:E; constructor;
    rewrite <- pos_cmp_le; lia.
Qed.
Lemma pos_ltb_spec a b : reflect (pos_lt a b) (pos_ltb a b).
Proof.
  unfold pos_ltb. destruct (pos_cmp a b <? 0) eqn:E; constructor;
    rewrite <- pos_cmp_lt; lia.
Qed.

(** ** Token spans *)

Record TokenSpan : Set := mkSpan {
  ts_kind : token_kind;
  ts_start : LspPos;
  ts_end : LspPos;
  ts_text : option string
}.

#[global] Instance TokenSpan_eq_dec : EqDecision TokenSpan.
Proof. solve_decision. Defined.

(** [tokens[i].start] is non-decreasing: spans are appended in source order. *)
Definition spans_sorted (tokens : list TokenSpan) : Prop :=
  forall i j a b, (i <= j)%nat -> tokens !! i = Some a -> tokens !! j = Some b ->
    pos_le (ts_start a) (ts_start b).

Definition span_le (a b : TokenSpan) : Prop := pos_le (ts_start a) (ts_start b).

#[global] Instance span_le_dec a b : Decision (span_le a b).
Proof. unfold span_le. apply _. Defined.
#[global] Instance span_le_trans : Transitive span_le.
Proof. intros a b c. unfold span_le. apply transitivity. Qed.

(** The check for consecutive spans is enough, and is decidable. *)
Lemma Sorted_spans_sorted tokens : Sorted span_le tokens -> spans_sorted tokens.
Proof.
  intros Hs%Sorted_StronglySorted; [|apply _].
  induction Hs as [|s tokens _ IH Hmin]; intros i j a b Hij Ha Hb; [done|].
  rewrite Forall_lookup in Hmin. destruct i as [|i], j as [|j]; simpl in *; simplify_eq.
  - reflexivity.
  - by apply (Hmin j).
  - lia.
  - apply (IH i j); [lia|done|done].
Qed.

(** Closes [spans_sorted] on a concrete token list. *)
Ltac spans_sorted_dec :=
  apply Sorted_spans_sorted; apply (bool_decide_unpack _); vm_compute; exact I.

(** [g_push_tok_span]: the two accumulators it advances.  A span adds one to
    [g_num_sem_entries] for every source line it covers (a 32-bit [int]). *)
Definition g_push_tok_span (st : list TokenSpan * Z) (s : TokenSpan)
  : list TokenSpan * Z :=
  (st.1 ++ [s],
   if is_sem_highlighted (ts_kind s)
   then st.2 + u32 (line (ts_end s) - line (ts_start s) + 1)
   else st.2).

(** ** Dependencies, nodes *)

Inductive DepKind : Set := DEP_KIND_DEPENDS | DEP_KIND_PRECEDES.

Record Dependency : Set := mkDep {
  dep_kind : DepKind;
  bang_count : Z;
  dep_path : option string;
  source_range : LspRange
}.

Inductive tj_node : Set := TjNode {
  tn_keyword : token_kind;          (* TK_EOF (0) on the synthetic root *)
  tn_id : option string;
  tn_name : option string;
  tn_range : LspRange;
  tn_selection_range : LspRange;
  tn_start_date : Z;
  tn_end_date : Z;
  tn_has_start : bool;
  tn_has_end : bool;
  tn_dependencies : list Dependency;
  tn_children : list tj_node
}.

(** Induction that reaches every child. *)
Fixpoint tj_node_rect_children (P : tj_node -> Prop)
    (step : forall n, Forall P (tn_children n) -> P n) (n : tj_node) : P n :=
  step n ((fix go (l : list tj_node) : Forall P l :=
             match l with
             | [] => Forall_nil_2 P
             | c :: l' => Forall_cons_2 P c l' (tj_node_rect_children P step c) (go l')
             end) (tn_children n)).

Definition zero_pos : LspPos := mkPos 0 0.
Definition zero_range : LspRange := mkRange zero_pos zero_pos.

Lemma zero_pos_wf : pos_wf zero_pos.
Proof. by vm_compute. Qed.

(** [tj_node_new]: a zeroed node. *)
Definition tj_node_new : tj_node :=
  TjNode TK_EOF None None zero_range zero_range 0 0 false false [] [].

Definition set_children (n : tj_node) (cs : list tj_node) : tj_node :=
  TjNode (tn_keyword n) (tn_id n) (tn_name n) (tn_range n) (tn_selection_range n)
    (tn_start_date n) (tn_end_date n) (tn_has_start n) (tn_has_end n)
    (tn_dependencies n) cs.

(** [tj_node_append_child] and [tj_node_push_dependency] as updates of the
    parent (growth of the backing arrays is a matter of [arena.c]). *)
Definition tj_node_append_child (parent child : tj_node) : tj_node :=
  set_children parent (tn_children parent ++ [child]).

Definition tj_node_push_dependency (task : tj_node) (dep : Dependency) : tj_node :=
  TjNode (tn_keyword task) (tn_id task) (tn_name task) (tn_range task)
    (tn_selection_range task) (tn_start_date task) (tn_end_date task)
    (tn_has_start task) (tn_has_end task) (tn_dependencies task ++ [dep])
    (tn_children task).

(** ** Node pointers *)

Abbreviation node_path := (list nat).

Fixpoint node_at (n : tj_node) (p : node_path) : option tj_node :=
  match p with
  | [] => Some n
  | i :: p' => tn_children n !! i ≫= fun c => node_at c p'
  end.

(** [node->parent_node]: [None] on the root. *)
Definition parent_path (p : node_path) : option node_path :=
  match p with [] => None | _ => Some (removelast p) end.

(** The nodes met by [for (s = node; s; s = s->parent_node)], paths first:
    the node, its parent, ..., the root. *)
Fixpoint root_chain (n : tj_node) (here p : node_path) : list (node_path * tj_node) :=
  (here, n) ::
  match p with
  | [] => []
  | i :: p' =>
      match tn_children n !! i with
      | Some c => root_chain c (here ++ [i]) p'
      | None => []
      end
  end.

Definition parent_chain (root : tj_node) (p : node_path) : list (node_path * tj_node) :=
  reverse (root_chain root [] p).

(** ** Include prefixes *)

Inductive prefix_kind : Set :=
  | PREFIX_TASK | PREFIX_ACCOUNT | PREFIX_RESOURCE | PREFIX_REPORT.

Record prefix_set : Set := mkPrefixSet {
  ps_task : option string; ps_account : option string;
  ps_resource : option string; ps_report : option string
}.

Definition by_kind (ps : prefix_set) (k : prefix_kind) : option string :=
  match k with
  | PREFIX_TASK => ps_task ps | PREFIX_ACCOUNT => ps_account ps
  | PREFIX_RESOURCE => ps_resource ps | PREFIX_REPORT => ps_report ps
  end.

Definition empty_prefix_set : prefix_set := mkPrefixSet None None None None.

(** [prefix_get] reads a slot of a possibly NULL set. *)
Definition prefix_get (ps : option prefix_set) (k : prefix_kind) : option string :=
  ps ≫= fun s => by_kind s k.

(** [prefix_set_copy]: a deep copy, or the empty set for NULL. *)
Definition prefix_set_copy (src : option prefix_set) : prefix_set :=
  default empty_prefix_set src.

Record IncludeRef : Set := mkInclude { filename : string; inc_prefixes : prefix_set }.

(** The unquoted file name [push_include] stores. *)
Definition unquote (quoted : string) : string :=
  let len := String.length quoted in
  match quoted with
  | String c rest =>
      if (2 <=? len)%nat && (bool_decide (c = "034"%char) || bool_decide (c = "039"%char))
      then substring 0 (len - 2) rest
      else quoted
  | EmptyString => quoted
  end.

(** [push_include] on the includes array of a [ParseOutput]. *)
Definition push_include (includes : list IncludeRef) (quoted : option string)
    (prefixes : option prefix_set) : list IncludeRef :=
  match quoted with
  | None => includes
  | Some q => includes ++ [mkInclude (unquote q) (prefix_set_copy prefixes)]
  end.

(** ** ParseOutput *)

Record ParseOutput : Set := mkParseOutput {
  po_root : tj_node;
  po_tok_spans : list TokenSpan;
  po_num_sem_entries : Z;
  po_tok_owners : list (option node_path);
  po_includes : list IncludeRef
}.

(** ** Document snapshots *)

(** [doc_snapshot]: one document's frozen parse.  The reference count and the
    semantic-token memo are modelled where they matter, in [Snapshots.v]. *)
Record doc_snapshot : Set := mkDocSnapshot {
  doc_version : Z;
  snap_uri : string;
  snap_text : string;
  snap_root : tj_node;
  snap_tok_spans : list TokenSpan;
  snap_tok_owners : list (option node_path);
  snap_num_sem_entries : Z
}.

(** [docsnap_new] on the fields moved out of a [ParseOutput]. *)
Definition docsnap_new (uri text : string) (po : ParseOutput) (version : Z) : doc_snapshot :=
  mkDocSnapshot version uri text (po_root po) (po_tok_spans po) (po_tok_owners po)
    (po_num_sem_entries po).

(** [query_doc]: what a handler sees of one document. *)
Record query_doc : Set := mkQueryDoc {
  qd_uri : string;
  qd_prefixes : option prefix_set;
  qd_snap : doc_snapshot
}.

Definition qd_root (d : query_doc) : tj_node := snap_root (qd_snap d).
Definition qd_tok_spans (d : query_doc) : list TokenSpan := snap_tok_spans (qd_snap d).
Definition qd_tok_owners (d : query_doc) : list (option node_path) :=
  snap_tok_owners (qd_snap d).

(** [doc_symbol_pool]: the top-level declarations, none without a document. *)
Definition doc_symbol_pool (d : option query_doc) : list tj_node :=
  match d with Some q => tn_children (qd_root q) | None => [] end.

(** ** The positions of a document *)

Definition span_wf (s : TokenSpan) : Prop := pos_wf (ts_start s) /\ pos_wf (ts_end s).

Definition node_wf (n : tj_node) : Prop :=
  range_wf (tn_range n) /\ range_wf (tn_selection_range n) /\
  Forall (fun d => range_wf (source_range d)) (tn_dependencies n).

Definition tree_wf (root : tj_node) : Prop := forall p n, node_at root p = Some n -> node_wf n.

Definition doc_wf (qd : query_doc) : Prop := tree_wf (qd_root qd) /\ Forall span_wf (qd_tok_spans qd).

Lemma tree_wf_child root i c : tree_wf root -> tn_children root !! i = Some c -> tree_wf c.
Proof. intros H Hi p n Hn. apply (H (i :: p)). cbn. by rewrite Hi. Qed.

Lemma tree_wf_children root : tree_wf root -> Forall tree_wf (tn_children root).
Proof. intros H. apply Forall_lookup. intros i c. by apply tree_wf_child. Qed.

Lemma tree_wf_node root : tree_wf root -> node_wf root.
Proof. intros H. by apply (H []). Qed.

Lemma tree_wf_intro root : node_wf root -> Forall tree_wf (tn_children root) -> tree_wf root.
Proof.
  intros Hr Hc [|i p] n Hn; [by injection Hn as <-|]. cbn in Hn. destruct (tn_children root !! i) as [c|] eqn:Hi; [|done].
  rewrite Forall_lookup in Hc. by eapply Hc.
Qed.

(** ** Facts about chains *)

Lemma root_chain_head n here p :
  exists tl, root_chain n here p = (here, n) :: tl.
Proof. destruct p; simpl; eauto. Qed.

Lemma node_at_app n p q :
  node_at n (p ++ q) = node_at n p ≫= fun m => node_at m q.
Proof.
  revert n. induction p as [|i p IH]; intros n; simpl; [done|].
  destruct (tn_children n !! i); simpl; [apply IH | done].
Qed.

(** Every entry of the chain is a real node under its own path. *)
Lemma root_chain_node_at n here p q m :
  (q, m) ∈ root_chain n here p -> exists r, q = here ++ r /\ r `prefix_of` p /\ node_at n r = Some m.
Proof.
  revert n here. induction p as [|i p IH]; intros n here; simpl.
  - intros [=->->]%list_elem_of_singleton. exists []. rewrite app_nil_r. eauto using prefix_nil.
  - intros [[=->->]|Hin]%elem_of_cons.
    + exists []. rewrite app_nil_r. eauto using prefix_nil.
    + destruct (tn_children n !! i) as [c|] eqn:E; [|by apply elem_of_nil in Hin].
      destruct (IH _ _ Hin) as (r & -> & Hr & Hn).
      exists (i :: r). rewrite <- app_assoc. split_and!; [done| |by simpl; rewrite E].
      by apply prefix_cons.
Qed.
