(* ===== verification/Owners.v ===== *)
(** * [parse] post-processing: [build_owner_scope] and [assign_token_owners].

    After the grammar has run, [parse] sorts the top-level declarations by
    position and computes, for every token, the innermost declaration around
    it with one pass over the tokens and a stack of scopes.  The project
    block's body declarations are its siblings in the tree, and are put back
    under it for this purpose only.  The pass is first related to the relation
    [innermost] on that layout, then to [owner_of], which is about the tree
    alone. *)

From S2P Require Import Prelude Tokens Syntax.
From stdpp Require Import sorting.

(** A node together with its path. *)
Definition entry : Type := (node_path * tj_node)%type.

Definition e_start (e : entry) : LspPos := rstart (tn_range e.2).
Definition e_end (e : entry) : LspPos := rend (tn_range e.2).

(** The children array of a node, as entries. *)
Definition child_entries (e : entry) : list entry :=
  imap (fun i c => (e.1 ++ [i], c)) (tn_children e.2).

(** [compare_node_starts] as an order. *)
Definition starts_le (a b : entry) : Prop := pos_le (e_start a) (e_start b).

#[global] Instance starts_le_dec a b : Decision (starts_le a b).
Proof. unfold starts_le. apply _. Defined.
#[global] Instance starts_le_total : Total starts_le.
Proof. intros a b. apply pos_le_total. Qed.
#[global] Instance starts_le_trans : Transitive starts_le.
Proof. intros a b c. unfold starts_le. apply transitivity. Qed.

Definition range_within (inner outer : LspRange) : bool :=
  (0 <=? pos_cmp (rstart inner) (rstart outer))%Z
  && (pos_cmp (rend inner) (rend outer) <=? 0)%Z.

(** ** The scope layout *)

Record owner_scope : Type := mkOwnerScope {
  os_top : list entry;
  os_project_kids : list entry
}.

(** The first top-level child whose keyword is [KW_PROJECT]. *)
Definition find_project (root : tj_node) : option entry :=
  list_find (fun e : entry => tn_keyword e.2 = KW_PROJECT) (child_entries ([], root))
    ≫= fun ie => Some ie.2.

Definition is_entry (project : option entry) (e : entry) : bool :=
  match project with Some p => bool_decide (p.1 = e.1) | None => false end.

Definition build_owner_scope (root : tj_node) (project : option entry) : owner_scope :=
  let hoisted := filter (fun e => is_entry project e = false) (child_entries ([], root)) in
  match project with
  | Some p =>
      let inside := filter (fun e => range_within (tn_range e.2) (tn_range p.2) = true) hoisted in
      let outside := filter (fun e => range_within (tn_range e.2) (tn_range p.2) = false) hoisted in
      mkOwnerScope (merge_sort starts_le (outside ++ [p])) (merge_sort starts_le inside)
  | None => mkOwnerScope (merge_sort starts_le hoisted) []
  end.

(** ** The token pass *)

(** [children + idx] and [n - idx] as the list of siblings still ahead. *)
Record OwnerFrame : Type := mkFrame {
  of_rest : list entry;
  of_scope : option entry
}.

Section Pass.
Variable project : option entry.
Variable scope : owner_scope.

(** The project carries its hoisted body declarations as scope-children. *)
Definition scope_kids (e : entry) : list entry :=
  if is_entry project e then os_project_kids scope else child_entries e.

(** [while (depth > 1 && pos >= scope->range.end) depth--]. *)
Fixpoint pop_frames (pos : LspPos) (stack : list OwnerFrame) : list OwnerFrame :=
  match stack with
  | [] => stack
  | f :: st =>
      match st, of_scope f with
      | _ :: _, Some e => if pos_leb (e_end e) pos then pop_frames pos st else stack
      | _, _ => stack
      end
  end.

(** [while (idx < n && pos >= children[idx]->range.end) idx++]. *)
Fixpoint skip_ended (pos : LspPos) (es : list entry) : list entry :=
  match es with
  | e :: es' => if pos_leb (e_end e) pos then skip_ended pos es' else es
  | [] => []
  end.

(** The [for (;;)] loop; every iteration that does not leave it pushes a node
    one level deeper, so the height of the tree bounds it. *)
Fixpoint descend (fuel : nat) (pos : LspPos) (stack : list OwnerFrame) : list OwnerFrame :=
  match fuel with
  | O => stack
  | S fuel' =>
      match stack with
      | [] => stack
      | f :: st =>
          let f' := mkFrame (skip_ended pos (of_rest f)) (of_scope f) in
          match of_rest f' with
          | [] => f' :: st
          | child :: _ =>
              if pos_ltb pos (e_start child) then f' :: st
              else descend fuel' pos (mkFrame (scope_kids child) (Some child) :: f' :: st)
          end
      end
  end.

(** One iteration of the token loop: the new stack and the owner. *)
Definition owner_step (fuel : nat) (stack : list OwnerFrame) (pos : LspPos)
  : list OwnerFrame * option entry :=
  let stack' := descend fuel pos (pop_frames pos stack) in
  (stack', match stack' with f :: _ :: _ => of_scope f | _ => None end).

Fixpoint owner_loop (fuel : nat) (stack : list OwnerFrame) (spans : list TokenSpan)
  : list (option entry) :=
  match spans with
  | [] => []
  | s :: spans' =>
      let '(stack', o) := owner_step fuel stack (ts_start s) in
      o :: owner_loop fuel stack' spans'
  end.
End Pass.

(** The height of a tree. *)
Fixpoint height (n : tj_node) : nat :=
  S (foldr (fun c m => Nat.max (height c) m) 0 (tn_children n)).

Definition owner_fuel (root : tj_node) : nat := S (S (height root)).

Definition assign_token_owners (root : tj_node) (spans : list TokenSpan)
  : list (option node_path) :=
  let project := find_project root in
  let scope := build_owner_scope root project in
  (fun o : option entry => option_map fst o) <$>
    owner_loop project scope (owner_fuel root) [mkFrame (os_top scope) None] spans.

(** [parse] after [yyparse]: the children sorted into source order, parent
    links (implicit in the tree) and owners. *)
Definition parse_finish (root : tj_node) (spans : list TokenSpan) (num_sem_entries : Z)
    (includes : list IncludeRef) : ParseOutput :=
  let sorted := set_children root
    ((merge_sort starts_le (child_entries ([], root))).*2) in
  mkParseOutput sorted spans num_sem_entries (assign_token_owners sorted spans) includes.

(** ** Specification *)

Definition holds_pos (e : entry) (pos : LspPos) : Prop :=
  pos_le (e_start e) pos /\ pos_lt pos (e_end e).

Section Spec.
Variable kids : entry -> list entry.

(** The innermost entry around [pos], starting from [es] with [dflt] as the
    scope found so far. *)
Inductive innermost (pos : LspPos) : list entry -> option entry -> option entry -> Prop :=
  | innermost_here es dflt :
      (forall e, e ∈ es -> ~ holds_pos e pos) -> innermost pos es dflt dflt
  | innermost_in es dflt e r :
      e ∈ es -> holds_pos e pos -> innermost pos (kids e) (Some e) r ->
      innermost pos es dflt r.

(** Siblings in order, apart from each other, with their scope-children
    inside them. *)
Inductive scope_wf : LspPos -> LspPos -> list entry -> Prop :=
  | scope_wf_nil lo hi : pos_le lo hi -> scope_wf lo hi []
  | scope_wf_cons lo hi e es :
      pos_le lo (e_start e) -> scope_wf (e_start e) (e_end e) (kids e) ->
      scope_wf (e_end e) hi es -> scope_wf lo hi (e :: es).

Lemma scope_wf_le lo hi es : scope_wf lo hi es -> pos_le lo hi.
Proof.
  induction 1 as [|lo hi e es Hlo _ IH1 _ IH2]; [done|].
  etransitivity; [exact Hlo|]. by etransitivity.
Qed.

Lemma scope_wf_in lo hi es e :
  scope_wf lo hi es -> e ∈ es ->
  pos_le lo (e_start e) /\ scope_wf (e_start e) (e_end e) (kids e) /\ pos_le (e_end e) hi.
Proof.
  induction 1 as [|lo hi e' es Hlo Hk _ Hes IH]; [by intros ?%elem_of_nil|].
  intros [->|Hin]%elem_of_cons.
  - split_and!; [done..|]. by eapply scope_wf_le.
  - destruct (IH Hin) as (Hs & ? & ?). split_and!; [|done..].
    pose proof (scope_wf_le _ _ _ Hk). etransitivity; [exact Hlo|]. by etransitivity.
Qed.

Lemma scope_wf_app_r lo hi ds es : scope_wf lo hi (ds ++ es) -> exists lo', scope_wf lo' hi es.
Proof.
  revert lo. induction ds as [|d ds IH]; intros lo Hw; [eauto|].
  inversion Hw; subst. by eapply IH.
Qed.

(** Under that layout at most one sibling holds a position, so the innermost
    entry is unique. *)
Lemma holds_unique lo hi es a b pos :
  scope_wf lo hi es -> a ∈ es -> b ∈ es -> holds_pos a pos -> holds_pos b pos -> a = b.
Proof.
  induction 1 as [|lo hi e es Hlo Hk _ Hes IH]; [by intros ?%elem_of_nil|].
  intros [->|Ha]%elem_of_cons [->|Hb]%elem_of_cons [Hs He] [Hs' He']; [done|..].
  - destruct (scope_wf_in _ _ _ _ Hes Hb) as (Hle & _). exfalso. clear -Hle He Hs'. pos_lia.
  - destruct (scope_wf_in _ _ _ _ Hes Ha) as (Hle & _). exfalso. clear -Hle He' Hs. pos_lia.
  - by apply IH.
Qed.

Lemma innermost_functional pos lo hi es dflt r r' :
  scope_wf lo hi es -> innermost pos es dflt r -> innermost pos es dflt r' -> r = r'.
Proof.
  intros Hw Hr. revert lo hi Hw r'.
  induction Hr as [es dflt Hno|es dflt e r Hin Hh _ IH]; intros lo hi Hw r' Hr'.
  - inversion Hr' as [|? ? e ? Hin Hh]; subst; [done|]. by destruct (Hno e Hin).
  - inversion Hr' as [? ? Hno|? ? e' ? Hin' Hh' Hr'']; subst; [by destruct (Hno e Hin)|].
    assert (e' = e) as -> by (by eapply holds_unique).
    destruct (scope_wf_in _ _ _ _ Hw Hin) as (_ & Hk & _). by eapply IH.
Qed.
End Spec.

(** ** The stack pass finds the innermost entry *)

Section PassProofs.
Variable project : option entry.
Variable scope : owner_scope.

Abbreviation kids := (scope_kids project scope).
Abbreviation inner := (innermost kids).
Abbreviation wf := (scope_wf kids).

(** The nesting below [es] is at most [n] deep. *)
Fixpoint depth_le (n : nat) (es : list entry) : Prop :=
  match n with
  | O => es = []
  | S n' => Forall (fun e => depth_le n' (kids e)) es
  end.

Lemma depth_le_S n es : depth_le n es -> depth_le (S n) es.
Proof.
  revert es. induction n as [|n IH]; intros es; simpl; [by intros ->|].
  intros Hes. eapply Forall_impl; [exact Hes|]. intros e. apply IH.
Qed.

Lemma depth_le_mono n m es : (n <= m)%nat -> depth_le n es -> depth_le m es.
Proof. induction 1; [done|]. intros. apply depth_le_S. auto. Qed.

Lemma depth_le_suffix n ds es : depth_le n (ds ++ es) -> depth_le n es.
Proof.
  destruct n; simpl; [by intros [_ ->]%app_nil|]. by intros [_ ?]%Forall_app.
Qed.

Definition ended (pos : LspPos) (e : entry) : Prop := pos_le (e_end e) pos.

Lemma inner_skip pos ds es dflt r :
  Forall (ended pos) ds -> inner pos es dflt r -> inner pos (ds ++ es) dflt r.
Proof.
  intros Hd Hr. inversion Hr as [? ? Hno|? ? e ? Hin Hh Hk]; subst.
  - apply innermost_here. intros e [Hin|Hin]%elem_of_app; [|by apply Hno].
    rewrite Forall_forall in Hd. specialize (Hd e Hin). intros [_ Hlt].
    unfold ended in Hd. clear -Hd Hlt. pos_lia.
  - eapply innermost_in; [|done..]. rewrite elem_of_app. auto.
Qed.

Lemma skip_ended_split pos es :
  exists ds, es = ds ++ skip_ended pos es /\ Forall (ended pos) ds /\
    match skip_ended pos es with [] => True | e :: _ => pos_lt pos (e_end e) end.
Proof.
  induction es as [|e es (ds & Hds & Hf & Hh)]; simpl; [by exists []|].
  destruct (pos_leb_spec (e_end e) pos) as [Hle|Hgt].
  - exists (e :: ds). split_and!; [simpl; congruence|by constructor|done].
  - exists []. split_and!; [done|done|]. clear -Hgt. pos_lia.
Qed.

Variables (top0 : list entry) (N : nat).

(** What the stack means at position [pos]: each frame's list is what is left
    of its scope's children once the ended ones are dropped, and the scope of
    a frame is the next child of the frame below. *)
Inductive stack_ok (pos : LspPos) : list OwnerFrame -> Prop :=
  | stack_base ds rem lo hi :
      top0 = ds ++ rem -> Forall (ended pos) ds -> wf lo hi rem -> depth_le N rem ->
      stack_ok pos [mkFrame rem None]
  | stack_push e rem0 sc st ds rem lo :
      stack_ok pos (mkFrame (e :: rem0) sc :: st) -> pos_le (e_start e) pos ->
      kids e = ds ++ rem -> Forall (ended pos) ds -> wf lo (e_end e) rem ->
      depth_le N rem ->
      stack_ok pos (mkFrame rem (Some e) :: mkFrame (e :: rem0) sc :: st).

Lemma stack_ok_mono pos pos' st : pos_le pos pos' -> stack_ok pos st -> stack_ok pos' st.
Proof.
  intros Hle. assert (He : forall ds, Forall (ended pos) ds -> Forall (ended pos') ds).
  { intros ds Hd. eapply Forall_impl; [exact Hd|]. unfold ended. intros e ?. by etransitivity. }
  induction 1; [by eapply stack_base; eauto|]. eapply stack_push; eauto. by etransitivity.
Qed.

Definition top_holds (pos : LspPos) (f : OwnerFrame) : Prop :=
  match of_scope f with Some e => pos_lt pos (e_end e) | None => True end.

Lemma pop_frames_ok pos st :
  stack_ok pos st -> stack_ok pos (pop_frames pos st) /\
    exists f st', pop_frames pos st = f :: st' /\ top_holds pos f.
Proof.
  induction 1 as [ds rem lo hi|e rem0 sc st ds rem lo Hst IH]; simpl.
  - split; [by eapply stack_base|]. by eexists _, _.
  - destruct (pos_leb_spec (e_end e) pos) as [Hle|Hgt]; [done|].
    split; [by eapply stack_push|]. eexists _, _. split; [done|].
    unfold top_holds. simpl. clear -Hgt. pos_lia.
Qed.

Lemma stack_inner pos f st r :
  stack_ok pos (f :: st) -> top_holds pos f ->
  inner pos (of_rest f) (of_scope f) r -> inner pos top0 None r.
Proof.
  remember (f :: st) as s eqn:Hs. intros Hok. revert f st Hs.
  induction Hok as [ds rem lo hi Ht Hd _ _|e rem0 sc st0 ds rem lo Hok IH Hst Hk Hd Hw _];
    intros f st [= <- <-] Hh Hr; simpl in *.
  - rewrite Ht. by apply inner_skip.
  - unfold top_holds in Hh. simpl in Hh. eapply IH; [done| |].
    + unfold top_holds. simpl. destruct sc as [o|]; [|done].
      inversion Hok as [|? ? ? ? ? ? ? _ _ _ _ Hwo]; subst.
      destruct (scope_wf_in _ _ _ _ e Hwo ltac:(by left)) as (_ & _ & Hle).
      by eapply pos_lt_le_trans.
    + eapply innermost_in; [by left|by split|]. rewrite Hk. by apply inner_skip.
Qed.

Lemma descend_ok fuel n pos f st :
  (n < fuel)%nat -> (n <= N)%nat -> depth_le n (of_rest f) ->
  stack_ok pos (f :: st) -> top_holds pos f ->
  exists f' st', descend project scope fuel pos (f :: st) = f' :: st' /\
    stack_ok pos (f' :: st') /\ top_holds pos f' /\
    (forall e, e ∈ of_rest f' -> ~ holds_pos e pos).
Proof.
  revert n f st. induction fuel as [|fuel IH]; intros n f st Hn HN Hdep Hok Hh; [lia|].
  cbn [descend]. destruct (skip_ended_split pos (of_rest f)) as (ds & Hsp & Hds & Hhd).
  cbn [of_rest].
  assert (Hok' : stack_ok pos (mkFrame (skip_ended pos (of_rest f)) (of_scope f) :: st)).
  { inversion Hok as [ds0 rem lo hi Ht Hd Hw Hdp|e rem0 sc st0 ds0 rem lo Hst Hse Hk Hd Hw Hdp];
      subst; cbn [of_rest of_scope] in *; rewrite Hsp in Ht || rewrite Hsp in Hk;
      rewrite Hsp in Hw, Hdp; destruct (scope_wf_app_r _ _ _ _ _ Hw) as [lo' Hw'];
      apply depth_le_suffix in Hdp; rewrite app_assoc in *.
    - eapply stack_base; [done| |done|done]. by apply Forall_app.
    - eapply stack_push; [done|done|done| |done|done]. by apply Forall_app. }
  rewrite Hsp in Hdep. apply depth_le_suffix in Hdep.
  destruct (skip_ended pos (of_rest f)) as [|child rest] eqn:Esk.
  { eexists _, _. split_and!; [done..|]. intros e ?%elem_of_nil. done. }
  destruct (pos_ltb_spec pos (e_start child)) as [Hlt|Hge].
  - eexists _, _. split_and!; [done..|]. cbn [of_rest]. intros e Hin [Hs _].
    inversion Hok' as [? ? lo hi _ _ Hw _|? ? ? ? ? ? lo _ _ _ _ Hw _]; subst;
      (apply elem_of_cons in Hin as [->|Hin]; [clear -Hlt Hs; pos_lia|]);
      inversion Hw as [|? ? ? ? _ Hk Hes]; subst;
      destruct (scope_wf_in _ _ _ _ _ Hes Hin) as (Hle & _);
      apply scope_wf_le in Hk; clear -Hlt Hs Hle Hk; pos_lia.
  - destruct n as [|n]; [done|]. simpl in Hdep. apply Forall_cons in Hdep as [Hck _].
    apply (IH n); [lia|lia|done| |done].
    assert (Hwc : wf (e_start child) (e_end child) (kids child)).
    { inversion Hok' as [? ? lo hi _ _ Hw _|? ? ? ? ? ? lo _ _ _ _ Hw _]; subst;
        by inversion Hw. }
    eapply (stack_push pos child rest (of_scope f) st []); [done| |done|done|exact Hwc|].
    + clear -Hge. pos_lia.
    + eapply depth_le_mono; [|done]. lia.
Qed.

Lemma stack_owner pos f st :
  stack_ok pos (f :: st) -> match st with [] => None | _ => of_scope f end = of_scope f.
Proof. by inversion 1. Qed.

Lemma owner_loop_ok fuel st spans pos0 :
  (N < fuel)%nat -> stack_ok pos0 st ->
  Forall (fun s => pos_le pos0 (ts_start s)) spans -> spans_sorted spans ->
  Forall2 (fun s o => inner (ts_start s) top0 None o) spans
    (owner_loop project scope fuel st spans).
Proof.
  intros HN. revert st pos0. induction spans as [|s spans IH]; intros st pos0 Hok Hle Hs;
    simpl; [constructor|].
  apply Forall_cons in Hle as [Hle _]. unfold owner_step.
  pose proof (stack_ok_mono _ _ _ Hle Hok) as Hok1.
  destruct (pop_frames_ok _ _ Hok1) as [Hok2 (f & st' & Hpop & Hh)]. rewrite Hpop in *.
  assert (Hdep : depth_le N (of_rest f)) by (by inversion Hok2).
  destruct (descend_ok fuel N (ts_start s) f st' HN ltac:(lia) Hdep Hok2 Hh)
    as (f' & st'' & -> & Hok3 & Hh' & Hno).
  constructor.
  - replace (match st'' with [] => None | _ :: _ => of_scope f' end) with (of_scope f')
      by (by rewrite (stack_owner _ _ _ Hok3)).
    eapply stack_inner; [done..|]. by apply innermost_here.
  - eapply (IH _ (ts_start s)); [done| |].
    + rewrite Forall_lookup. intros i s' Hi. apply (Hs 0%nat (S i)); [lia|done|done].
    + intros i j a b Hij Ha Hb. apply (Hs (S i) (S j)); [lia|done|done].
Qed.
End PassProofs.

(** ** The layout of a well-formed document *)

Definition apart (a b : entry) : Prop :=
  pos_le (e_end a) (e_start b) \/ pos_le (e_end b) (e_start a).

Definition within (a b : entry) : Prop :=
  pos_le (e_start b) (e_start a) /\ pos_le (e_end a) (e_end b).

#[global] Instance within_dec a b : Decision (within a b).
Proof. unfold within. apply _. Defined.

(** What the grammar produces: non-empty declarations nested properly, and
    top-level declarations that do not overlap, except that the body of the
    project block lies inside the block. *)
Record root_ok (root : tj_node) : Prop := {
  root_nested : forall e, e ∈ child_entries ([], root) ->
    pos_lt (e_start e) (e_end e) /\
    scope_wf child_entries (e_start e) (e_end e) (child_entries e);
  root_apart : forall a b,
    a ∈ child_entries ([], root) -> b ∈ child_entries ([], root) -> a ≠ b ->
    is_entry (find_project root) a = false ->
    apart a b \/ (is_entry (find_project root) b = true /\ within a b)
}.

Lemma range_within_spec a b :
  range_within (tn_range a.2) (tn_range b.2) = true <-> within a b.
Proof.
  unfold range_within, within, e_start, e_end. rewrite andb_true_iff, !Z.leb_le.
  by rewrite pos_cmp_ge, pos_cmp_le.
Qed.

Lemma child_entries_lookup e i c :
  child_entries e !! i = Some c <-> exists n, tn_children e.2 !! i = Some n /\ c = (e.1 ++ [i], n).
Proof.
  unfold child_entries. rewrite list_lookup_imap, fmap_Some. naive_solver.
Qed.

Lemma elem_of_child_entries e c :
  c ∈ child_entries e <-> exists i n, tn_children e.2 !! i = Some n /\ c = (e.1 ++ [i], n).
Proof.
  rewrite list_elem_of_lookup. setoid_rewrite child_entries_lookup. naive_solver.
Qed.

(** Paths tell siblings apart. *)
Lemma child_entries_inj e a b :
  a ∈ child_entries e -> b ∈ child_entries e -> a.1 = b.1 -> a = b.
Proof.
  rewrite !elem_of_child_entries. intros (i & n & Hi & ->) (j & m & Hj & ->). simpl.
  intros [_ [= ->]]%app_inj_2; [|done]. congruence.
Qed.

Lemma child_entries_nodup e : NoDup (child_entries e).
Proof.
  apply NoDup_alt. intros i j c Hi Hj.
  apply child_entries_lookup in Hi as (n & _ & ->), Hj as (m & _ & Hj).
  injection Hj as Hj _. apply app_inj_2 in Hj as [_ Hj]; [|done]. by injection Hj.
Qed.

Lemma find_project_in root p : find_project root = Some p -> p ∈ child_entries ([], root).
Proof.
  unfold find_project. intros Hp.
  destruct (list_find _ _) as [[i x]|] eqn:E; [|done]. simpl in Hp. injection Hp as <-.
  apply list_find_Some in E as (Hl & _). by eapply list_elem_of_lookup_2.
Qed.

Lemma is_entry_true root p e :
  find_project root = Some p -> e ∈ child_entries ([], root) ->
  is_entry (Some p) e = true <-> e = p.
Proof.
  intros Hp He. simpl. rewrite bool_decide_eq_true. split; [|by intros ->].
  intros Heq. eapply child_entries_inj; [done|by apply find_project_in|done].
Qed.

Section Layout.
Variable root : tj_node.
Hypothesis Hroot : root_ok root.

Abbreviation project := (find_project root).
Abbreviation scope := (build_owner_scope root project).

(** Below the top level a node is never the project, so its scope-children
    are its children. *)
Lemma scope_kids_deep e :
  (2 <= length e.1)%nat -> scope_kids project scope e = child_entries e.
Proof.
  intros Hl. unfold scope_kids. destruct (is_entry project e) eqn:E; [|done].
  unfold is_entry in E. destruct project as [p|] eqn:Ep; [|done].
  apply bool_decide_eq_true in E. apply find_project_in, elem_of_child_entries in Ep
    as (i & n & _ & ->). rewrite <- E in Hl. simpl in Hl. lia.
Qed.

Lemma scope_wf_deep lo hi es :
  Forall (fun e : entry => (2 <= length e.1)%nat) es ->
  scope_wf child_entries lo hi es -> scope_wf (scope_kids project scope) lo hi es.
Proof.
  intros Hl Hw. revert Hl. induction Hw as [|lo hi e es Hlo _ IHk _ IHes]; intros Hl;
    [by constructor|].
  apply Forall_cons in Hl as [He Hl]. constructor; [done| |by apply IHes].
  rewrite scope_kids_deep by done. apply IHk.
  apply Forall_forall. intros c (i & n & _ & ->)%elem_of_child_entries. simpl.
  rewrite length_app. simpl. lia.
Qed.

Lemma top_children_long e :
  e ∈ child_entries ([], root) -> Forall (fun c : entry => (2 <= length c.1)%nat) (child_entries e).
Proof.
  intros (i & n & _ & ->)%elem_of_child_entries. apply Forall_forall.
  intros c (j & m & _ & ->)%elem_of_child_entries. simpl. lia.
Qed.

(** Sorted, pairwise apart entries form a layout. *)
Lemma sorted_scope_wf (kids : entry -> list entry) lo hi es :
  StronglySorted starts_le es -> NoDup es -> pos_le lo hi ->
  (forall e, e ∈ es -> pos_lt (e_start e) (e_end e) /\
     scope_wf kids (e_start e) (e_end e) (kids e) /\
     pos_le lo (e_start e) /\ pos_le (e_end e) hi) ->
  (forall a b, a ∈ es -> b ∈ es -> a ≠ b -> apart a b) ->
  scope_wf kids lo hi es.
Proof.
  intros Hs. revert lo. induction Hs as [|e es _ IH Hmin]; intros lo Hnd Hle Hall Hap;
    [by constructor|].
  apply NoDup_cons in Hnd as [Hni Hnd].
  destruct (Hall e ltac:(left)) as (Hlt & Hk & Hlo & Hhi). constructor; [done..|].
  apply IH; [done|done| |by intros a b ??; apply Hap; right].
  intros b Hb. destruct (Hall b ltac:(by right)) as (Hltb & Hkb & _ & Hhb).
  split_and!; [done..| |done].
  destruct (Hap e b ltac:(left) ltac:(by right) ltac:(by intros ->)) as [|Hbe]; [done|].
  rewrite Forall_forall in Hmin. specialize (Hmin b Hb). unfold starts_le in Hmin.
  exfalso. clear -Hbe Hmin Hltb. pos_lia.
Qed.

Definition hoisted : list entry :=
  filter (fun e => is_entry project e = false) (child_entries ([], root)).

Lemma elem_of_hoisted e :
  e ∈ hoisted <-> e ∈ child_entries ([], root) /\ is_entry project e = false.
Proof. unfold hoisted. rewrite list_elem_of_filter. tauto. Qed.

Lemma hoisted_kids e :
  e ∈ hoisted -> pos_lt (e_start e) (e_end e) /\
    scope_wf (scope_kids project scope) (e_start e) (e_end e) (scope_kids project scope e).
Proof.
  intros [Hin He]%elem_of_hoisted. destruct (root_nested _ Hroot e Hin) as [Hlt Hw].
  split; [done|]. unfold scope_kids at 2. rewrite He. apply scope_wf_deep; [|done].
  by apply top_children_long.
Qed.

Lemma hoisted_apart a b : a ∈ hoisted -> b ∈ hoisted -> a ≠ b -> apart a b.
Proof.
  intros [Ha Hpa]%elem_of_hoisted [Hb Hpb]%elem_of_hoisted Hne.
  destruct (root_apart _ Hroot a b Ha Hb Hne Hpa) as [|[Hp _]]; [done|]. congruence.
Qed.

Definition pos_max (ps : list LspPos) : LspPos :=
  foldr (fun p q => if pos_leb q p then p else q) zero_pos ps.

Lemma pos_max_le p ps : p ∈ ps -> pos_le p (pos_max ps).
Proof.
  induction ps as [|q ps IH]; [by intros ?%elem_of_nil|].
  simpl. intros [->|Hp]%elem_of_cons; destruct (pos_leb_spec (pos_max ps) q) as [Hle|Hle].
  - reflexivity.
  - by apply pos_lt_le, pos_not_le.
  - etransitivity; [by apply IH|done].
  - by apply IH.
Qed.

Lemma merge_sort_elem es e : e ∈ merge_sort starts_le es <-> e ∈ es.
Proof. by rewrite (merge_sort_Permutation starts_le es). Qed.

Lemma project_kids_eq p :
  project = Some p ->
  os_project_kids scope =
    merge_sort starts_le
      (filter (fun e : entry => range_within (tn_range e.2) (tn_range p.2) = true) hoisted).
Proof. intros Hp. unfold build_owner_scope, hoisted. by rewrite Hp. Qed.

Lemma project_kids_wf p :
  project = Some p ->
  scope_wf (scope_kids project scope) (e_start p) (e_end p) (os_project_kids scope).
Proof.
  intros Hp. rewrite (project_kids_eq p Hp). apply sorted_scope_wf.
  - apply StronglySorted_merge_sort; apply _.
  - rewrite merge_sort_Permutation. do 2 apply NoDup_filter. apply child_entries_nodup.
  - apply pos_lt_le. apply (root_nested _ Hroot). by apply find_project_in.
  - intros e He. rewrite merge_sort_elem, list_elem_of_filter in He. destruct He as [Hw He].
    apply range_within_spec in Hw as [??]. destruct (hoisted_kids e He). by split_and!.
  - intros a b Ha Hb. rewrite merge_sort_elem, list_elem_of_filter in Ha, Hb.
    apply hoisted_apart; tauto.
Qed.

Lemma scope_kids_project p :
  project = Some p -> scope_kids project scope p = os_project_kids scope.
Proof. intros Hp. unfold scope_kids. rewrite Hp. simpl. by rewrite bool_decide_eq_true_2. Qed.

Lemma elem_of_top e :
  e ∈ os_top scope <->
  match project with
  | Some p => e = p \/ e ∈ hoisted /\ ~ within e p
  | None => e ∈ hoisted
  end.
Proof.
  unfold build_owner_scope. fold hoisted.
  destruct project as [p|] eqn:Hp; cbn [os_top]; rewrite merge_sort_elem.
  - rewrite elem_of_app, list_elem_of_filter, list_elem_of_singleton.
    rewrite <- range_within_spec, not_true_iff_false. unfold hoisted. rewrite Hp. tauto.
  - unfold hoisted. by rewrite Hp.
Qed.

Lemma top_sorted : StronglySorted starts_le (os_top scope).
Proof.
  unfold build_owner_scope. destruct project; cbn [os_top];
    apply StronglySorted_merge_sort; apply _.
Qed.

Lemma top_nodup : NoDup (os_top scope).
Proof.
  unfold build_owner_scope. destruct project as [p|] eqn:Hp; cbn [os_top];
    rewrite merge_sort_Permutation.
  - apply NoDup_app. split_and!.
    + do 2 apply NoDup_filter. apply child_entries_nodup.
    + intros e He ->%list_elem_of_singleton. apply list_elem_of_filter in He as [_ He].
      apply list_elem_of_filter in He as [He Hin]. simpl in He.
      by rewrite bool_decide_eq_true_2 in He.
    + apply NoDup_singleton.
  - apply NoDup_filter, child_entries_nodup.
Qed.

Lemma top_entries e :
  e ∈ os_top scope -> pos_lt (e_start e) (e_end e) /\
    scope_wf (scope_kids project scope) (e_start e) (e_end e) (scope_kids project scope e).
Proof.
  rewrite elem_of_top. destruct project as [p|] eqn:Hp.
  - intros [->|[He _]].
    + split; [apply (root_nested _ Hroot); by apply find_project_in|].
      rewrite <- Hp, scope_kids_project by done. by apply project_kids_wf.
    + rewrite <- Hp. by apply hoisted_kids.
  - intros He. rewrite <- Hp. by apply hoisted_kids.
Qed.

Lemma top_apart a b : a ∈ os_top scope -> b ∈ os_top scope -> a ≠ b -> apart a b.
Proof.
  rewrite !elem_of_top. destruct project as [p|] eqn:Hp; [|by apply hoisted_apart].
  assert (Hproj : forall e, e ∈ hoisted -> ~ within e p -> apart e p).
  { intros e [He Hne]%elem_of_hoisted Hw.
    destruct (root_apart _ Hroot e p He) as [|[_ ?]]; [| | |done..].
    - by apply find_project_in.
    - intros ->. rewrite Hp in Hne. simpl in Hne. by rewrite bool_decide_eq_true_2 in Hne.
    - done. }
  intros [->|[Ha Hwa]] [->|[Hb Hwb]] Hne; [done| | |by apply hoisted_apart].
  - destruct (Hproj b Hb Hwb); [by right|by left].
  - by apply Hproj.
Qed.

Lemma top_wf : exists lo hi, scope_wf (scope_kids project scope) lo hi (os_top scope).
Proof.
  pose proof top_entries as He. pose proof top_apart as Ha.
  pose proof top_sorted as Hs. pose proof top_nodup as Hn.
  destruct (os_top scope) as [|e0 es] eqn:E; [by exists zero_pos, zero_pos; constructor|].
  exists (e_start e0), (pos_max (e_end <$> e0 :: es)).
  apply sorted_scope_wf; [done|done| | |done].
  - etransitivity; [|apply pos_max_le; by left]. apply pos_lt_le. apply He. by left.
  - intros e Hin. destruct (He e Hin). split_and!; [done..| |].
    + apply elem_of_cons in Hin as [->|Hin]; [done|].
      apply StronglySorted_inv in Hs as [_ Hs]. rewrite Forall_forall in Hs. by apply Hs.
    + apply pos_max_le, list_elem_of_fmap. eauto.
Qed.

(** *** Depth *)

Lemma height_child n c : c ∈ tn_children n -> (S (height c) <= height n)%nat.
Proof.
  destruct n as [? ? ? ? ? ? ? ? ? ? cs]. simpl. intros Hin. apply le_n_S.
  induction cs as [|c' cs IH]; [by apply elem_of_nil in Hin|].
  apply elem_of_cons in Hin as [->|Hin]; simpl; [lia|]. specialize (IH Hin). lia.
Qed.

Lemma child_height e c : c ∈ child_entries e -> (S (height c.2) <= height e.2)%nat.
Proof.
  intros (i & n & Hl & ->)%elem_of_child_entries. simpl.
  eapply height_child, list_elem_of_lookup_2. done.
Qed.

Lemma depth_deep n e :
  (1 <= length e.1)%nat -> (height e.2 <= n)%nat -> depth_le project scope n (child_entries e).
Proof.
  revert e. induction n as [|n IH]; intros e Hl Hh.
  { destruct e as [? []]. simpl in Hh. lia. }
  simpl. apply Forall_forall. intros c Hc. pose proof (child_height e c Hc).
  assert (2 <= length c.1)%nat.
  { apply elem_of_child_entries in Hc as (i & m & _ & ->). simpl. rewrite length_app. simpl. lia. }
  rewrite scope_kids_deep by done. apply IH; lia.
Qed.

Lemma depth_hoisted e : e ∈ hoisted ->
  depth_le project scope (pred (height root)) (scope_kids project scope e).
Proof.
  intros [He Hp]%elem_of_hoisted.
  replace (scope_kids project scope e) with (child_entries e) by (unfold scope_kids; by rewrite Hp).
  apply depth_deep; [|apply child_height in He; simpl in He; lia].
  apply elem_of_child_entries in He as (i & m & _ & ->). simpl. lia.
Qed.

Lemma depth_top : depth_le project scope (S (height root)) (os_top scope).
Proof.
  assert (Hh : height root = S (pred (height root))) by (destruct root; done).
  assert (Hho : forall e, e ∈ hoisted ->
            depth_le project scope (height root) (scope_kids project scope e)).
  { intros e He. eapply depth_le_mono; [|by apply depth_hoisted]. lia. }
  cbn [depth_le]. apply Forall_forall. intros e Hin. rewrite elem_of_top in Hin.
  destruct project as [p|] eqn:Hp; [|rewrite <- Hp in *; auto].
  destruct Hin as [->|[He _]]; rewrite <- Hp in *; [|auto].
  rewrite scope_kids_project by done. rewrite Hh. cbn [depth_le]. apply Forall_forall.
  intros e He. apply depth_hoisted. rewrite (project_kids_eq p Hp), merge_sort_elem in He. by apply list_elem_of_filter in He as [_ He].
Qed.

Lemma tok_owners_spec spans :
  spans_sorted spans ->
  Forall2 (fun s o => innermost (scope_kids project scope) (ts_start s) (os_top scope) None o)
    spans (owner_loop project scope (owner_fuel root) [mkFrame (os_top scope) None] spans).
Proof.
  intros Hs. destruct top_wf as (lo & hi & Hw).
  destruct spans as [|s spans]; [constructor|].
  apply (owner_loop_ok _ _ (os_top scope) (S (height root)) _ _ _ (ts_start s)).
  - unfold owner_fuel. lia.
  - apply (stack_base _ _ _ _ _ [] _ lo hi); [done|constructor|done|apply depth_top].
  - rewrite Forall_lookup. intros i s' Hi. by apply (Hs 0%nat i); [lia| |].
  - done.
Qed.
End Layout.

(** ** The owner of a position, from the tree alone *)

(** [around a b]: the entry [b] is [a] or lies somewhere below it. *)
Inductive around (a : entry) : entry -> Prop :=
  | around_refl : around a a
  | around_child b c : around a b -> c ∈ child_entries b -> around a c.

(** The declarations of a document: everything below its root. *)
Definition declaration (root : tj_node) (e : entry) : Prop :=
  exists t, t ∈ child_entries ([], root) /\ around t e.

(** [o] is the path of the innermost declaration that holds the position: all
    others that hold it are around that one, in the tree or as the project
    block.  Without an owner no declaration holds the position. *)
Definition owner_of (root : tj_node) (pos : LspPos) (o : option node_path) : Prop :=
  match o with
  | None => forall e, declaration root e -> ~ holds_pos e pos
  | Some q => exists e, declaration root e /\ e.1 = q /\ holds_pos e pos /\
      forall e', declaration root e' -> holds_pos e' pos -> around e' e \/ find_project root = Some e'
  end.

Lemma around_step a b : around a b -> a = b \/ exists k, k ∈ child_entries a /\ around k b.
Proof.
  induction 1 as [|b c _ IH Hc]; [by left|right]. destruct IH as [->|(k & Hk & Hkb)].
  - exists c. split; [done|constructor].
  - exists k. split; [done|]. by eapply around_child.
Qed.

Lemma around_below a k b : k ∈ child_entries a -> around k b -> around a b.
Proof.
  intros Hk. induction 1 as [|b c _ IH Hc]; [|by eapply around_child].
  eapply around_child; [constructor|done].
Qed.

Lemma around_path a b : around a b -> a = b \/ (length a.1 < length b.1)%nat.
Proof.
  induction 1 as [|b c _ IH (i & n & _ & ->)%elem_of_child_entries]; [by left|right]. cbn.
  rewrite length_app. cbn. destruct IH as [->|]; lia.
Qed.

Lemma around_antisym a b : around a b -> around b a -> a = b.
Proof. intros [->|?]%around_path [?|?]%around_path; [done..|lia]. Qed.

(** Ranges grow outwards. *)
Lemma around_within a b :
  around a b -> scope_wf child_entries (e_start a) (e_end a) (child_entries a) ->
  within b a /\ scope_wf child_entries (e_start b) (e_end b) (child_entries b).
Proof.
  intros Hab Hw. induction Hab as [|b c _ [[H1 H2] Hb] Hc]; [split; [by split|done]|].
  destruct (scope_wf_in _ _ _ _ _ Hb Hc) as (H3 & Hwc & H4). split; [|done].
  split; [by etransitivity|by etransitivity].
Qed.

Lemma within_holds pos a b : within b a -> holds_pos b pos -> holds_pos a pos.
Proof. intros [H1 H2] [H3 H4]. split; [by etransitivity|by eapply pos_lt_le_trans]. Qed.

Lemma apart_holds pos a b : apart a b -> holds_pos a pos -> holds_pos b pos -> False.
Proof. intros [H|H] [H1 H2] [H3 H4]; clear -H H1 H2 H3 H4; pos_lia. Qed.

(** Below a declaration the relation [innermost] finds the entry that all others
    are around. *)
Lemma innermost_tree kids pos d r :
  (forall x, around d x -> kids x = child_entries x) -> innermost kids pos (kids d) (Some d) r ->
  scope_wf child_entries (e_start d) (e_end d) (child_entries d) -> holds_pos d pos ->
  exists e, r = Some e /\ around d e /\ holds_pos e pos /\
    forall e', around d e' -> holds_pos e' pos -> around e' e.
Proof.
  intros Hk Hr. remember (kids d) as es eqn:Ees. remember (Some d) as dflt eqn:Ed. revert d Hk Ees Ed.
  induction Hr as [es dflt Hno|es dflt e r Hin Hh _ IH]; intros d Hk -> -> Hw Hd;
    rewrite (Hk d (around_refl d)) in *.
  - exists d. split_and!; [done|constructor|done|]. intros e' [->|(k & Hkin & Hke)]%around_step He'; [constructor|].
    destruct (scope_wf_in _ _ _ _ _ Hw Hkin) as (_ & Hwk & _).
    destruct (around_within _ _ Hke Hwk) as [Hin _]. destruct (Hno k Hkin). by eapply within_holds.
  - destruct (scope_wf_in _ _ _ _ _ Hw Hin) as (_ & Hwe & _).
    destruct (IH e) as (x & -> & Hx & Hhx & Hall); [|done|done|done|done|].
    { intros y Hy. apply Hk. by eapply around_below. }
    exists x. split_and!; [done|by eapply around_below|done|].
    intros e' [->|(k & Hkin & Hke)]%around_step He'; [by eapply around_below|].
    destruct (scope_wf_in _ _ _ _ _ Hw Hkin) as (_ & Hwk & _).
    destruct (around_within _ _ Hke Hwk) as [Hink _].
    rewrite (holds_unique _ _ _ _ _ _ _ Hw Hkin Hin (within_holds _ _ _ Hink He') Hh) in Hke. by apply Hall.
Qed.

Section Owner.
Variable root : tj_node.
Hypothesis Hroot : root_ok root.
Hypothesis Hflat : forall p, find_project root = Some p -> tn_children p.2 = [].

Abbreviation project := (find_project root).
Abbreviation scope := (build_owner_scope root project).

(** A declaration that holds a position, by the top-level one around it. *)
Lemma declaration_top pos e : declaration root e -> holds_pos e pos ->
  exists t, t ∈ child_entries ([], root) /\ around t e /\ holds_pos t pos /\
    (project = Some t /\ e = t \/ t ∈ hoisted root).
Proof.
  intros (t & Ht & Hte) Hh. exists t. destruct (root_nested _ Hroot t Ht) as [_ Hw].
  destruct (around_within _ _ Hte Hw) as [Hin _]. split_and!; [done|done|by eapply within_holds|].
  destruct (is_entry project t) eqn:Ep; [left|right; by apply elem_of_hoisted].
  unfold is_entry in Ep. destruct project as [p|] eqn:Hp; [|done].
  assert (t = p) as -> by (apply bool_decide_eq_true in Ep; eapply child_entries_inj; [done|by apply find_project_in|done]).
  split; [done|]. apply around_step in Hte as [->|(k & (i & n & Hi & _)%elem_of_child_entries & _)]; [done|].
  by rewrite (Hflat p eq_refl) in Hi.
Qed.

(** What the pass finds under a top-level declaration is its owner. *)
Lemma owner_under_top pos t r : t ∈ hoisted root -> holds_pos t pos ->
  innermost (scope_kids project scope) pos (scope_kids project scope t) (Some t) r ->
  exists e, r = Some e /\ owner_of root pos (Some e.1).
Proof.
  intros Ht Hh Hr. pose proof Ht as [Hin Hp]%elem_of_hoisted. destruct (root_nested _ Hroot t Hin) as [_ Hw].
  destruct (innermost_tree (scope_kids project scope) pos t r) as (e & -> & Hte & He & Hall); [|done|done|done|].
  { intros x Htx. unfold scope_kids. destruct (is_entry project x) eqn:Ex; [|done]. exfalso.
    apply around_path in Htx as [->|Hl]; [congruence|]. unfold is_entry in Ex. destruct project as [p|] eqn:E; [|done].
    apply bool_decide_eq_true in Ex. apply find_project_in, elem_of_child_entries in E as (i & n & _ & ->).
    apply elem_of_child_entries in Hin as (k & m & _ & ->). rewrite <- Ex in Hl. cbn in Hl. lia. }
  exists e. split; [done|]. exists e. split_and!; [by exists t|done|done|].
  intros e' Hd' He'. destruct (declaration_top pos e' Hd' He') as (t' & _ & Hte' & Hh' & [[Hpt ->]|Ht']); [by right|left].
  destruct (decide (t'.1 = t.1)) as [Heq|Hne].
  - apply Hall; [|done]. pose proof Ht' as [Hin' _]%elem_of_hoisted. by rewrite <- (child_entries_inj _ _ _ Hin' Hin Heq).
  - destruct (apart_holds pos t' t); [|done..]. apply (hoisted_apart _ Hroot); congruence.
Qed.

Lemma innermost_owner pos r :
  innermost (scope_kids project scope) pos (os_top scope) None r -> owner_of root pos (option_map fst r).
Proof.
  assert (Hc : project = None \/ exists p, project = Some p) by (destruct project; eauto).
  assert (Hnone : project = None -> forall t, t ∈ os_top scope <-> t ∈ hoisted root) by (intros Hp t; by rewrite elem_of_top, Hp).
  assert (Hsome : forall p, project = Some p -> forall t, t ∈ os_top scope <-> t = p \/ t ∈ hoisted root /\ ~ within t p)
    by (intros p Hp t; by rewrite elem_of_top, Hp).
  intros Hr. inversion Hr as [? ? Hno|? ? t ? Hin Hh Hk]; subst.
  - intros e He Hhe. destruct (declaration_top pos e He Hhe) as (t & _ & _ & Hht & [[Hp _]|Ht]).
    { apply (Hno t); [|done]. apply (Hsome t Hp). by left. }
    destruct Hc as [Hp|[p Hp]]; [by apply (Hno t); [apply Hnone|]|].
    destruct (decide (within t p)) as [Hw|Hw]; [|apply (Hno t); [apply (Hsome p Hp); by right|done]].
    apply (Hno p); [apply (Hsome p Hp); by left|by eapply within_holds].
  - destruct Hc as [Hp|[p Hp]].
    { apply (Hnone Hp) in Hin. by destruct (owner_under_top pos t r Hin Hh Hk) as (e & -> & ?). }
    apply (Hsome p Hp) in Hin as [->|[Ht _]]; [|by destruct (owner_under_top pos t r Ht Hh Hk) as (e & -> & ?)].
    rewrite (scope_kids_project root p Hp), (project_kids_eq root p Hp) in Hk.
    inversion Hk as [? ? Hno|? ? k ? Hkin Hhk Hkk]; subst.
    + exists p. split_and!; [exists p; split; [by apply find_project_in|constructor]|done|done|].
      intros e' Hd' He'. destruct (declaration_top pos e' Hd' He') as (t & _ & _ & Hht & [[Hpt ->]|Ht]); [by right|].
      exfalso. pose proof Ht as [Htin Htp]%elem_of_hoisted.
      destruct (root_apart _ Hroot t p Htin (find_project_in _ _ Hp)) as [Ha|[_ Hw]]; [|done|by eapply apart_holds|].
      { intros ->. rewrite Hp in Htp. cbn in Htp. by rewrite bool_decide_eq_true_2 in Htp. }
      apply (Hno t); [|done]. by rewrite merge_sort_elem, list_elem_of_filter, range_within_spec.
    + rewrite merge_sort_elem in Hkin. apply list_elem_of_filter in Hkin as [_ Hkin].
      by destruct (owner_under_top pos k r Hkin Hhk Hkk) as (e & -> & ?).
Qed.

Lemma owner_of_unique pos o o' : owner_of root pos o -> owner_of root pos o' -> o = o'.
Proof.
  destruct o as [q|], o' as [q'|]; cbn; [|firstorder..].
  intros (e & He & <- & Hh & Hall) (e' & He' & <- & Hh' & Hall'). f_equal.
  assert (Htop : forall x p, project = Some p -> declaration root x -> around x p -> x = p).
  { intros x p (i & n & _ & ->)%find_project_in%elem_of_child_entries (t & (k & m & _ & ->)%elem_of_child_entries & Ht) [?|Hl]%around_path; [done|].
    apply around_path in Ht as [<-|Ht]; cbn in *; lia. }
  destruct (Hall e' He' Hh') as [H1|H1], (Hall' e He Hh) as [H2|H2].
  - by rewrite (around_antisym _ _ H1 H2).
  - by rewrite (Htop e' e).
  - by rewrite (Htop e e').
  - congruence.
Qed.
End Owner.

(** C20: [assign_token_owners] finds, for every token of a well-formed
    document whose project block has no children of its own (its body was
    hoisted), the innermost declaration of the tree whose range holds the token's
    start: every other declaration that holds it is around that one, as a node
    around it in the tree or as the project block around its body; a token
    without an owner lies outside every declaration; and no other answer has
    this property. *)
Theorem assign_token_owners_innermost root spans :
  root_ok root -> (forall p, find_project root = Some p -> tn_children p.2 = []) -> spans_sorted spans ->
  Forall2 (fun s o => owner_of root (ts_start s) o /\ forall o', owner_of root (ts_start s) o' -> o' = o)
    spans (assign_token_owners root spans).
Proof.
  intros Hr Hf Hs. unfold assign_token_owners. rewrite Forall2_fmap_r.
  eapply Forall2_impl; [by apply (tok_owners_spec root Hr)|]. intros s o Ho.
  pose proof (innermost_owner root Hr Hf _ _ Ho) as Hown. split; [exact Hown|].
  intros o' Ho'. by eapply owner_of_unique.
Qed.

(** A document with a project block around a task and a nested task, and a
    task after it. *)
Definition sample_node (kw : token_kind) (id : string) (l1 l2 : Z) (cs : list tj_node) : tj_node :=
  TjNode kw (Some id) (Some id) (mkRange (mkPos l1 0) (mkPos l2 1))
    (mkRange (mkPos l1 5) (mkPos l1 7)) 0 0 false false [] cs.

Definition sample_root : tj_node :=
  set_children tj_node_new
    [ sample_node KW_PROJECT "p" 0 9 [];
      sample_node KW_TASK "a" 2 7 [sample_node KW_TASK "b" 3 5 []];
      sample_node KW_TASK "c" 11 12 [] ].

Definition sample_tokens : list TokenSpan :=
  (fun l => mkSpan TK_IDENT (mkPos l 0) (mkPos l 1) (Some "x"%string))
    <$> [0; 1; 2; 4; 6; 8; 10; 11]%Z.

Lemma assign_token_owners_innermost_witness :
  assign_token_owners sample_root sample_tokens
    = [Some [0]; Some [0]; Some [1]; Some [1; 0]; Some [1]; Some [0]; None; Some [2]] /\
  Forall2 (fun s o => owner_of sample_root (ts_start s) o /\ forall o', owner_of sample_root (ts_start s) o' -> o' = o)
    sample_tokens (assign_token_owners sample_root sample_tokens).
Proof.
  split; [vm_compute; reflexivity|].
  apply (assign_token_owners_innermost sample_root sample_tokens).
  - assert (Hch : child_entries ([], sample_root) =
      [([0], sample_node KW_PROJECT "p" 0 9 []);
       ([1], sample_node KW_TASK "a" 2 7 [sample_node KW_TASK "b" 3 5 []]);
       ([2], sample_node KW_TASK "c" 11 12 [])]) by reflexivity.
    split; rewrite Hch.
    + intros e He. rewrite !elem_of_cons, elem_of_nil in He.
      destruct He as [->|[->|[->|[]]]]; split; try (by left);
        repeat (constructor; simpl; try (by left); try (by right)); by left.
    + intros a b Ha Hb Hne Hp. rewrite !elem_of_cons, elem_of_nil in Ha, Hb.
      destruct Ha as [->|[->|[->|[]]]], Hb as [->|[->|[->|[]]]]; try done;
        first [left; left; by left|left; right; by left|right; split; [reflexivity|split; by left]].
  - intros p [= <-]. reflexivity.
  - spans_sorted_dec.
Defined.
