(* ===== verification/TokenQuery.v ===== *)
(** * Cursor lookups: [tok_span_at], [tj_node_at], [scan_kw_stack] and the
    functions that walk outwards from the node under the cursor.

    Models hover.c (tok_span_at, push_keyword_entry, bump_active_argc,
    scan_kw_stack, active_keyword_at, sym_qualified_id), document_symbol.c
    (tj_node_at, tj_node_find_path) and dependency.c. *)

From S2P Require Import Prelude Tokens Syntax Owners.
From stdpp Require Import sorting.
Local Open Scope Z_scope.

(** ** The binary search over the token starts *)

(** The loop [tok_span_at] and [tj_node_at] share: [found], or -1. *)
Fixpoint span_search (fuel : nat) (tokens : list TokenSpan) (pos : LspPos)
    (lo hi found : Z) : Z :=
  match fuel with
  | O => found
  | S fuel' =>
      if lo <=? hi then
        let mid := lo + (hi - lo) / 2 in
        match tokens !! Z.to_nat mid with
        | None => found
        | Some t =>
            if bool_decide (ts_kind t = TK_EOF)
            then span_search fuel' tokens pos lo (mid - 1) found
            else if pos_cmp (ts_start t) pos <=? 0
                 then span_search fuel' tokens pos (mid + 1) hi mid
                 else span_search fuel' tokens pos lo (mid - 1) found
        end
      else found
  end.

Definition span_found (tokens : list TokenSpan) (pos : LspPos) : Z :=
  span_search (S (length tokens)) tokens pos 0 (Z.of_nat (length tokens) - 1) (-1).

Definition pos_in (p start end_ : LspPos) : bool :=
  (pos_cmp start p <=? 0) && (pos_cmp p end_ <=? 0).

Definition tok_span_at (tokens : list TokenSpan) (pos : LspPos) : option TokenSpan :=
  let found := span_found tokens pos in
  if found >=? 0 then
    match tokens !! Z.to_nat found with
    | Some t => if pos_in pos (ts_start t) (ts_end t) then Some t else None
    | None => None
    end
  else None.

(** ** The node under a cursor *)

(** [while (s && pos_cmp (pos, s->range.end) >= 0) s = s->parent_node]. *)
Fixpoint climb (pos : LspPos) (chain : list (node_path * tj_node)) : option node_path :=
  match chain with
  | [] => None
  | (p, n) :: chain' =>
      if pos_cmp pos (rend (tn_range n)) >=? 0 then climb pos chain' else Some p
  end.

Definition tj_node_at (root : tj_node) (tokens : list TokenSpan)
    (owners : list (option node_path)) (pos : LspPos) : option node_path :=
  let found := span_found tokens pos in
  if found <? 0 then None
  else match owners !! Z.to_nat found with
       | Some (Some p) => climb pos (parent_chain root p)
       | _ => None
       end.

Definition pos_in_range (p : LspPos) (r : LspRange) : bool :=
  ((line p >? line (rstart r))
   || ((line p =? line (rstart r)) && (character p >=? character (rstart r))))
  && ((line p <? line (rend r))
      || ((line p =? line (rend r)) && (character p <=? character (rend r)))).

(** The first dependency of a node whose range holds the cursor, with its
    index. *)
Definition find_dep (cursor : LspPos) (n : tj_node) : option (nat * Dependency) :=
  list_find (fun d => pos_in_range cursor (source_range d) = true) (tn_dependencies n).

Fixpoint first_dep (cursor : LspPos) (chain : list (node_path * tj_node))
  : option (node_path * nat * Dependency) :=
  match chain with
  | [] => None
  | (p, n) :: chain' =>
      match find_dep cursor n with
      | Some (i, d) => Some (p, i, d)
      | None => first_dep cursor chain'
      end
  end.

(** [dependency_at_cursor]: the owner, the dependency and its index. *)
Definition dependency_at_cursor (root : tj_node) (tokens : list TokenSpan)
    (owners : list (option node_path)) (cursor : LspPos)
  : option (node_path * nat * Dependency) :=
  match tj_node_at root tokens owners cursor with
  | Some p => first_dep cursor (parent_chain root p)
  | None => None
  end.

Fixpoint first_task_decl (cursor : LspPos) (chain : list (node_path * tj_node))
  : option node_path :=
  match chain with
  | [] => None
  | (p, n) :: chain' =>
      if bool_decide (tn_keyword n = KW_TASK) && pos_in_range cursor (tn_selection_range n)
      then Some p else first_task_decl cursor chain'
  end.

Definition task_decl_at_cursor (root : tj_node) (tokens : list TokenSpan)
    (owners : list (option node_path)) (cursor : LspPos) : option node_path :=
  match tj_node_at root tokens owners cursor with
  | Some p => first_task_decl cursor (parent_chain root p)
  | None => None
  end.

(** ** Qualified ids *)

Definition CHAIN_CAP : nat := 64.

Definition nonempty_id (n : tj_node) : option string :=
  match tn_id n with
  | Some EmptyString => None
  | o => o
  end.

(** The ids collected into [chain], innermost first; [depth < 64] stops it. *)
Fixpoint collect_chain (room : nat) (kw : token_kind) (chain : list (node_path * tj_node))
  : list string :=
  match chain, room with
  | [], _ | _, O => []
  | (_, n) :: chain', S room' =>
      match nonempty_id n with
      | Some id => if bool_decide (tn_keyword n = kw) then id :: collect_chain room' kw chain'
                   else collect_chain room kw chain'
      | None => collect_chain room kw chain'
      end
  end.

Fixpoint join_dots (ids : list string) : string :=
  match ids with
  | [] => EmptyString
  | [s] => s
  | s :: ids' => (s +:+ "." +:+ join_dots ids')%string
  end.

(** [sym_qualified_id] of the node at [p]. *)
Definition sym_qualified_id (root : tj_node) (p : node_path) : string :=
  match node_at root p with
  | None => EmptyString
  | Some n =>
      match tn_id n with
      | None => EmptyString
      | Some id =>
          match collect_chain CHAIN_CAP (tn_keyword n) (parent_chain root p) with
          | [] => id
          | ids => join_dots (reverse ids)
          end
      end
  end.

(** ** Path navigation *)

(** [tj_node_find_path] over the children of a node: the children of the task
    at [path]; [None] is NULL. *)
Fixpoint find_path_in (n : tj_node) (path : list string) {struct n} : option (list tj_node) :=
  match path with
  | [] => Some (tn_children n)
  | seg :: path' =>
      (fix go (l : list tj_node) : option (list tj_node) :=
         match l with
         | [] => None
         | s :: l' =>
             if bool_decide (tn_keyword s = KW_TASK) && bool_decide (tn_id s = Some seg)
             then find_path_in s path'
             else if bool_decide (tn_keyword s = KW_PROJECT)
                  then match find_path_in s path with
                       | Some r => Some r
                       | None => go l'
                       end
                  else go l'
         end) (tn_children n)
  end.

Definition tj_node_find_path (syms : list tj_node) (path : list string)
  : option (list tj_node) :=
  find_path_in (set_children tj_node_new syms) path.

(** ** The keyword stack *)

Record KwStackEntry : Set := mkKwEntry {
  kw : string;
  kw_range : LspRange;
  kw_depth : Z;
  kw_argc : Z
}.

(** The stack is kept with its top first. *)
Definition pop_while (P : KwStackEntry -> bool) : list KwStackEntry -> list KwStackEntry :=
  fix go (stack : list KwStackEntry) :=
    match stack with
    | e :: st => if P e then go st else stack
    | [] => []
    end.

Definition push_keyword_entry (stack : list KwStackEntry) (stack_cap : nat)
    (brace_depth : Z) (tok : TokenSpan) (text : string) : list KwStackEntry :=
  let st := pop_while (fun e => kw_depth e >=? brace_depth) stack in
  if (length st <? stack_cap)%nat
  then mkKwEntry text (mkRange (ts_start tok) (ts_end tok)) brace_depth 0 :: st
  else st.

Definition fully_before (tok : TokenSpan) (cursor : LspPos) : bool :=
  (line (ts_end tok) <? line cursor)
  || ((line (ts_end tok) =? line cursor) && (character (ts_end tok) <=? character cursor)).

(** The innermost entry at [brace_depth] gets one more argument. *)
Fixpoint bump_at (brace_depth : Z) (stack : list KwStackEntry) : list KwStackEntry :=
  match stack with
  | [] => []
  | e :: st =>
      if kw_depth e =? brace_depth
      then mkKwEntry (kw e) (kw_range e) (kw_depth e) (kw_argc e + 1) :: st
      else e :: bump_at brace_depth st
  end.

Definition bump_active_argc (stack : list KwStackEntry) (brace_depth : Z)
    (tok : TokenSpan) (cursor : LspPos) : list KwStackEntry :=
  if fully_before tok cursor then bump_at brace_depth stack else stack.

Definition after_cursor (tok : TokenSpan) (cursor : LspPos) : bool :=
  (line (ts_start tok) >? line cursor)
  || ((line (ts_start tok) =? line cursor) && (character (ts_start tok) >? character cursor)).

(** The [switch] of [scan_kw_stack] on one token. *)
Definition scan_token (cursor : LspPos) (kind_max : token_kind) (track_argc : bool)
    (stack_cap : nat) (st : Z * list KwStackEntry) (tok : TokenSpan) : Z * list KwStackEntry :=
  let '(brace_depth, stack) := st in
  match ts_kind tok with
  | TK_LINE_COMMENT | TK_BLOCK_COMMENT => st
  | TK_LBRACE => (brace_depth + 1, stack)
  | TK_RBRACE =>
      let d := if brace_depth >? 0 then brace_depth - 1 else brace_depth in
      (d, pop_while (fun e => kw_depth e >? d) stack)
  | k =>
      match ts_text tok with
      | Some text =>
          if below kind_max k
          then (brace_depth, push_keyword_entry stack stack_cap brace_depth tok text)
          else (brace_depth, if track_argc then bump_active_argc stack brace_depth tok cursor
                             else stack)
      | None => (brace_depth, if track_argc then bump_active_argc stack brace_depth tok cursor
                              else stack)
      end
  end.

(** The token loop with its two breaks. *)
Fixpoint scan_loop (cursor : LspPos) (kind_max : token_kind) (track_argc : bool)
    (stack_cap : nat) (st : Z * list KwStackEntry) (tokens : list TokenSpan)
  : Z * list KwStackEntry :=
  match tokens with
  | [] => st
  | tok :: tokens' =>
      if bool_decide (ts_kind tok = TK_EOF) || after_cursor tok cursor then st
      else scan_loop cursor kind_max track_argc stack_cap
             (scan_token cursor kind_max track_argc stack_cap st tok) tokens'
  end.

(** The brace depth and the stack, top first. *)
Definition scan_kw_stack (tokens : list TokenSpan) (cursor : LspPos) (kind_max : token_kind)
    (track_argc : bool) (stack_cap : nat) : Z * list KwStackEntry :=
  scan_loop cursor kind_max track_argc stack_cap (0, []) tokens.

(** The topmost entry at a depth. *)
Fixpoint find_depth (depth : Z) (stack : list KwStackEntry) : option KwStackEntry :=
  match stack with
  | [] => None
  | e :: st => if kw_depth e =? depth then Some e else find_depth depth st
  end.

Definition entry_at_depth (st : Z * list KwStackEntry) : option KwStackEntry :=
  find_depth st.1 st.2.

Definition active_keyword_at (tokens : list TokenSpan) (cursor : LspPos)
  : option (string * LspRange) :=
  (fun e => (kw e, kw_range e))
    <$> entry_at_depth (scan_kw_stack tokens cursor KW_DOCS_END false 512).

(** ** The search finds the last token starting at or before a position *)

Definition no_eof (tokens : list TokenSpan) : Prop :=
  Forall (fun t => ts_kind t ≠ TK_EOF) tokens.

(** [f] is the index of the last token starting at or before [pos]. *)
Definition last_start (tokens : list TokenSpan) (pos : LspPos) (f : Z) : Prop :=
  -1 <= f < Z.of_nat (length tokens) /\
  forall i t, tokens !! i = Some t ->
    if (Z.of_nat i <=? f) then pos_le (ts_start t) pos else pos_lt pos (ts_start t).

Lemma span_search_spec fuel tokens pos lo hi :
  spans_sorted tokens -> no_eof tokens ->
  0 <= lo -> hi < Z.of_nat (length tokens) -> lo <= hi + 1 ->
  Z.of_nat fuel > hi - lo + 1 ->
  (forall i t, tokens !! i = Some t -> Z.of_nat i < lo -> pos_le (ts_start t) pos) ->
  (forall i t, tokens !! i = Some t -> hi < Z.of_nat i -> pos_lt pos (ts_start t)) ->
  last_start tokens pos (span_search fuel tokens pos lo hi (lo - 1)).
Proof.
  intros Hs He. revert lo hi. induction fuel as [|fuel IH]; intros lo hi Hlo Hhi Hle Hf Hl Hr; [lia|].
  cbn [span_search]. destruct (Z.leb_spec lo hi) as [Hlh|Hlh].
  2:{ split; [lia|]. intros i t Hi. destruct (Z.leb_spec (Z.of_nat i) (lo - 1)).
      - eapply Hl; [done|lia].
      - eapply Hr; [done|lia]. }
  assert (Hmid : lo <= lo + (hi - lo) / 2 <= hi).
  { pose proof (Z.div_pos (hi - lo) 2). pose proof (Z.div_le_upper_bound (hi - lo) 2 (hi - lo)). lia. }
  set (mid := lo + (hi - lo) / 2) in *.
  destruct (lookup_lt_is_Some_2 tokens (Z.to_nat mid)) as [t Ht]; [lia|]. rewrite Ht.
  rewrite bool_decide_eq_false_2 by (unfold no_eof in He; rewrite Forall_lookup in He; by eapply He).
  destruct (pos_leb_spec (ts_start t) pos) as [Hp|Hp]; unfold pos_leb in *.
  all: destruct (Z.leb_spec (pos_cmp (ts_start t) pos) 0) as [Hc|Hc];
    try (rewrite pos_cmp_le in Hc || (apply Z.lt_gt in Hc; apply Z.gt_lt in Hc; rewrite pos_cmp_gt in Hc)).
  - replace mid with (mid + 1 - 1) at 2 by lia. apply IH; [lia..| |done].
    intros i u Hi Hlt. destruct (decide (Z.of_nat i < lo)); [by eapply Hl|].
    etransitivity; [|exact Hp]. apply (Hs i (Z.to_nat mid)); [lia|done|done].
  - exfalso. clear -Hp Hc. pos_lia.
  - done.
  - apply IH; [lia..|done|]. intros i u Hi Hlt. destruct (decide (hi < Z.of_nat i)); [by eapply Hr|].
    apply (pos_lt_le_trans _ (ts_start t)); [clear -Hp; pos_lia|].
    apply (Hs (Z.to_nat mid) i); [lia|done|done].
Qed.

Lemma span_found_spec tokens pos :
  spans_sorted tokens -> no_eof tokens -> last_start tokens pos (span_found tokens pos).
Proof.
  intros Hs He. unfold span_found. apply (span_search_spec _ _ _ 0); [done..|lia|lia|lia|lia| |].
  - intros. lia.
  - intros i t Hi%lookup_lt_Some. lia.
Qed.

(** Tokens do not end before they start, and consecutive tokens do not
    overlap. *)
Definition follows (a b : TokenSpan) : Prop := pos_le (ts_end a) (ts_start b).
Definition proper (t : TokenSpan) : Prop := pos_le (ts_start t) (ts_end t).

#[global] Instance follows_dec a b : Decision (follows a b).
Proof. unfold follows. apply _. Defined.
#[global] Instance proper_dec t : Decision (proper t).
Proof. unfold proper. apply _. Defined.

Definition spans_apart (tokens : list TokenSpan) : Prop :=
  Forall proper tokens /\ Sorted follows tokens.

#[global] Instance spans_apart_dec tokens : Decision (spans_apart tokens).
Proof. unfold spans_apart. apply _. Defined.

Lemma spans_apart_lt tokens i j a b :
  spans_apart tokens -> (i < j)%nat -> tokens !! i = Some a -> tokens !! j = Some b ->
  pos_le (ts_end a) (ts_start b).
Proof.
  intros [Hp Hs]. revert i j a b. induction Hs as [|t tokens Hs IH Hhd]; intros i j a b Hij Ha Hb; [done|].
  apply Forall_cons in Hp as [Ht Hp].
  destruct i as [|i], j as [|j]; try lia; simpl in *.
  - injection Ha as <-. destruct Hhd as [|u tokens Hu]; [done|].
    destruct j as [|j]; simpl in Hb; [by injection Hb as <-|].
    apply Forall_cons in Hp as [Hu' Hp].
    etransitivity; [exact Hu|]. etransitivity; [exact Hu'|].
    apply (IH ltac:(by constructor) 0%nat (S j) u); [lia|done|done].
  - apply (IH Hp i j); [lia|done|done].
Qed.

Lemma spans_apart_sorted tokens : spans_apart tokens -> spans_sorted tokens.
Proof.
  intros Ha i j a b Hij Hi Hj. destruct (decide (i = j)) as [->|].
  { assert (a = b) as -> by congruence. reflexivity. }
  pose proof (spans_apart_lt _ i j a b Ha ltac:(lia) Hi Hj).
  destruct Ha as [Hp _]. rewrite Forall_lookup in Hp. specialize (Hp i a Hi).
  by etransitivity.
Qed.

Definition touches (t : TokenSpan) (pos : LspPos) : Prop :=
  pos_le (ts_start t) pos /\ pos_le pos (ts_end t).

Lemma pos_in_spec p a b : pos_in p a b = true <-> pos_le a p /\ pos_le p b.
Proof. unfold pos_in. by rewrite andb_true_iff, !Z.leb_le, !pos_cmp_le. Qed.

(** [tok_span_at] implements its specification: over proper, non-
    overlapping tokens the binary search returns a token that touches the
    position (both ends inclusive), the last one when two adjacent tokens do,
    and NULL exactly when no token touches it. *)
Theorem tok_span_at_correct tokens pos :
  spans_apart tokens -> no_eof tokens ->
  match tok_span_at tokens pos with
  | Some t => exists i, tokens !! i = Some t /\ touches t pos /\
      forall j u, (i < j)%nat -> tokens !! j = Some u -> ~ touches u pos
  | None => forall j u, tokens !! j = Some u -> ~ touches u pos
  end.
Proof.
  intros Ha He. pose proof (spans_apart_sorted _ Ha) as Hs.
  destruct (span_found_spec tokens pos Hs He) as [Hf Hlast].
  unfold tok_span_at. set (f := span_found tokens pos) in *.
  assert (Hafter : forall j u, tokens !! j = Some u -> f < Z.of_nat j -> ~ touches u pos).
  { intros j u Hj Hlt [Hle _]. specialize (Hlast j u Hj).
    destruct (Z.leb_spec (Z.of_nat j) f); [lia|]. clear -Hle Hlast. pos_lia. }
  rewrite Z.geb_leb. destruct (Z.leb_spec 0 f) as [H0|H0].
  2:{ intros j u Hj. eapply Hafter; [done|lia]. }
  destruct (lookup_lt_is_Some_2 tokens (Z.to_nat f)) as [t Ht]; [lia|]. rewrite Ht.
  destruct (pos_in pos (ts_start t) (ts_end t)) eqn:E.
  - apply pos_in_spec in E. exists (Z.to_nat f). split_and!; [done|done|].
    intros j u Hij Hj. eapply Hafter; [done|lia].
  - intros j u Hj [Hus Hue]. pose proof (Hlast (Z.to_nat f) t Ht) as Hst.
    destruct (Z.leb_spec (Z.of_nat (Z.to_nat f)) f); [|lia].
    assert (Hpe : ~ pos_le pos (ts_end t)).
    { intros Hpe. rewrite (proj2 (pos_in_spec _ _ _)) in E; [done|by split]. }
    destruct (Nat.lt_trichotomy j (Z.to_nat f)) as [Hlt|[->|Hgt]].
    + apply Hpe. pose proof (spans_apart_lt _ _ _ _ _ Ha Hlt Hj Ht).
      destruct Ha as [Hp _]. rewrite Forall_lookup in Hp. specialize (Hp _ _ Ht).
      etransitivity; [exact Hue|]. by etransitivity.
    + by simplify_eq.
    + apply (Hafter j u Hj); [lia|by split].
Qed.

Definition query_tokens : list TokenSpan :=
  [ mkSpan KW_TASK (mkPos 0 0) (mkPos 0 4) (Some "task"%string);
    mkSpan TK_IDENT (mkPos 0 5) (mkPos 0 6) (Some "t"%string);
    mkSpan TK_LBRACE (mkPos 0 6) (mkPos 0 7) None;
    mkSpan TK_RBRACE (mkPos 2 0) (mkPos 2 1) None ].

Lemma tok_span_at_correct_witness :
  tok_span_at query_tokens (mkPos 0 6) = query_tokens !! 2%nat /\
  match tok_span_at query_tokens (mkPos 1 3) with
  | Some t => exists i, query_tokens !! i = Some t /\ touches t (mkPos 1 3) /\
      forall j u, (i < j)%nat -> query_tokens !! j = Some u -> ~ touches u (mkPos 1 3)
  | None => forall j u, query_tokens !! j = Some u -> ~ touches u (mkPos 1 3)
  end.
Proof.
  split; [vm_compute; reflexivity|]. apply (tok_span_at_correct query_tokens (mkPos 1 3)).
  - apply (bool_decide_unpack _). vm_compute. exact I.
  - repeat constructor; done.
Defined.

(** ** The node at a cursor *)

(** [e] is the node its path names. *)
Definition entry_in (root : tj_node) (e : entry) : Prop := node_at root e.1 = Some e.2.

Lemma child_entry_in root e c : entry_in root e -> c ∈ child_entries e -> entry_in root c.
Proof.
  unfold entry_in. intros He (i & n & Hl & ->)%elem_of_child_entries. simpl.
  rewrite node_at_app, He. simpl. by rewrite Hl.
Qed.

Lemma root_chain_snoc n here p i c :
  node_at n (p ++ [i]) = Some c ->
  root_chain n here (p ++ [i]) = root_chain n here p ++ [(here ++ p ++ [i], c)].
Proof.
  revert n here. induction p as [|j p IH]; intros n here; simpl.
  - destruct (tn_children n !! i) as [d|]; simpl; [|done]. by intros [= ->].
  - destruct (tn_children n !! j) as [d|] eqn:E; simpl; [|done]. intros Hc.
    rewrite (IH d (here ++ [j]) Hc), <- app_assoc. done.
Qed.

(** One step up: the chain of a node is the node on top of its parent's. *)
Lemma parent_chain_snoc root p i c :
  node_at root (p ++ [i]) = Some c ->
  parent_chain root (p ++ [i]) = (p ++ [i], c) :: parent_chain root p.
Proof.
  intros Hc. unfold parent_chain. rewrite (root_chain_snoc _ _ _ _ _ Hc), reverse_app. done.
Qed.

Lemma node_at_parent root p i c :
  node_at root (p ++ [i]) = Some c -> exists n, node_at root p = Some n.
Proof. rewrite node_at_app. destruct (node_at root p); [eauto|done]. Qed.

(** [climb] stops at the deepest ancestor that ends after the position. *)
Lemma climb_spec root p n pos :
  node_at root p = Some n ->
  match climb pos (parent_chain root p) with
  | Some q => q `prefix_of` p /\
      (exists m, node_at root q = Some m /\ pos_lt pos (rend (tn_range m))) /\
      forall q' m', q' `prefix_of` p -> node_at root q' = Some m' ->
        pos_lt pos (rend (tn_range m')) -> q' `prefix_of` q
  | None => forall q' m', q' `prefix_of` p -> node_at root q' = Some m' ->
        ~ pos_lt pos (rend (tn_range m'))
  end.
Proof.
  revert n. induction p as [|i p IH] using rev_ind; intros n Hn.
  - simpl in Hn. injection Hn as <-. unfold parent_chain. simpl. rewrite Z.geb_leb.
    destruct (Z.leb_spec 0 (pos_cmp pos (rend (tn_range root)))) as [Hc|Hc].
    + intros q' m' ->%prefix_nil_inv [= <-]. rewrite pos_cmp_ge in Hc. clear -Hc. pos_lia.
    + rewrite pos_cmp_lt in Hc. split_and!; [done|eauto|]. intros q' m' Hq _ _. done.
  - rewrite (parent_chain_snoc _ _ _ _ Hn). cbn [climb]. rewrite Z.geb_leb.
    destruct (Z.leb_spec 0 (pos_cmp pos (rend (tn_range n)))) as [Hc|Hc].
    + rewrite pos_cmp_ge in Hc. destruct (node_at_parent _ _ _ _ Hn) as [n' Hn'].
      specialize (IH _ Hn').
      assert (Hq : forall q' m', q' `prefix_of` p ++ [i] -> node_at root q' = Some m' ->
                pos_lt pos (rend (tn_range m')) -> q' `prefix_of` p).
      { intros q' m' Hq Hm Hlt. apply prefix_snoc_cases in Hq as [->|]; [|done].
        rewrite Hn in Hm. injection Hm as <-. exfalso. clear -Hc Hlt. pos_lia. }
      destruct (climb pos (parent_chain root p)) as [q|].
      * destruct IH as (Hqp & Hm & Hdeep). split_and!; [by apply prefix_app_r|done|].
        intros q' m' Hq' Hm' Hlt. apply (Hdeep q' m'); [by eapply Hq|done..].
      * intros q' m' Hq' Hm' Hlt. apply (IH q' m'); [by eapply Hq|done..].
    + rewrite pos_cmp_lt in Hc. split_and!; [done|eauto|]. done.
Qed.

Lemma nested_range e rest m :
  scope_wf child_entries (e_start e) (e_end e) (child_entries e) ->
  node_at e.2 rest = Some m ->
  pos_le (e_start e) (rstart (tn_range m)) /\ pos_le (rend (tn_range m)) (e_end e).
Proof.
  revert e. induction rest as [|i rest IH]; intros e Hw; simpl.
  - intros [= <-]. split; reflexivity.
  - destruct (tn_children e.2 !! i) as [c|] eqn:Ec; simpl; [|done]. intros Hm.
    assert (Hin : (e.1 ++ [i], c) ∈ child_entries e) by (apply elem_of_child_entries; eauto).
    destruct (scope_wf_in _ _ _ _ _ Hw Hin) as (Hs & Hk & He).
    destruct (IH (e.1 ++ [i], c) Hk Hm) as [Hs' He']. split; by etransitivity.
Qed.

(** Below a declaration that is not the project block, the innermost entry
    around a position lies under every node that holds the position. *)
Lemma innermost_under (kids : entry -> list entry) pos e rest m r :
  (forall c, (2 <= length c.1)%nat -> kids c = child_entries c) ->
  (1 <= length e.1)%nat ->
  scope_wf child_entries (e_start e) (e_end e) (child_entries e) ->
  innermost kids pos (child_entries e) (Some e) r ->
  node_at e.2 rest = Some m -> pos_le (rstart (tn_range m)) pos -> pos_lt pos (rend (tn_range m)) ->
  exists x, r = Some x /\ (e.1 ++ rest) `prefix_of` x.1.
Proof.
  intros Hk. revert e. induction rest as [|i rest IH]; intros e Hl Hw Hr Hm Hs He.
  - rewrite app_nil_r. clear Hm.
    assert (Hgen : forall es d o, innermost kids pos es d o ->
      (forall c, c ∈ es -> e.1 `prefix_of` c.1 /\ (2 <= length c.1)%nat) ->
      (exists x, d = Some x /\ e.1 `prefix_of` x.1) ->
      exists x, o = Some x /\ e.1 `prefix_of` x.1).
    { intros es d o. induction 1 as [|es d c o Hin _ _ IH']; intros Hes Hd; [done|].
      destruct (Hes c Hin) as [Hp Hlc]. apply IH'; [|eauto].
      intros c' Hc'. rewrite Hk in Hc' by done.
      apply elem_of_child_entries in Hc' as (j & n & _ & ->). simpl.
      split; [by apply prefix_app_r|]. rewrite length_app. simpl. lia. }
    eapply Hgen; [exact Hr| |eauto].
    intros c (j & n & _ & ->)%elem_of_child_entries. simpl.
    split; [by apply prefix_app_r|]. rewrite length_app. simpl. lia.
  - simpl in Hm. destruct (tn_children e.2 !! i) as [c|] eqn:Ec; simpl in Hm; [|done].
    assert (Hin : (e.1 ++ [i], c) ∈ child_entries e) by (apply elem_of_child_entries; eauto).
    destruct (scope_wf_in _ _ _ _ _ Hw Hin) as (_ & Hwc & _).
    destruct (nested_range _ _ _ Hwc Hm) as [Hcs Hce].
    assert (Hhold : holds_pos (e.1 ++ [i], c) pos).
    { split; [by etransitivity|by eapply pos_lt_le_trans]. }
    inversion Hr as [? ? Hno|? ? e' ? Hin' Hh' Hr']; subst; [by destruct (Hno _ Hin)|].
    rewrite (holds_unique _ _ _ _ _ _ _ Hw Hin' Hin Hh' Hhold) in Hr'.
    rewrite Hk in Hr' by (simpl; rewrite length_app; simpl; lia).
    destruct (IH (e.1 ++ [i], c)) as (x & -> & Hx); simpl; auto.
    { rewrite length_app. lia. }
    exists x. split; [done|]. simpl in Hx. rewrite <- app_assoc in Hx. exact Hx.
Qed.

(** What the grammar and the scanner guarantee of a document, for the cursor
    queries: every declaration starts at a token, the synthetic root has no
    extent and the body of the project block was hoisted out of it. *)
Record doc_ok (root : tj_node) (tokens : list TokenSpan) : Prop := {
  doc_root : root_ok root;
  doc_sorted : spans_sorted tokens;
  doc_no_eof : no_eof tokens;
  doc_root_range : tn_range root = zero_range;
  doc_project : forall p, find_project root = Some p -> tn_children p.2 = [];
  doc_starts : forall q n, q ≠ [] -> node_at root q = Some n ->
    exists t, t ∈ tokens /\ ts_start t = rstart (tn_range n)
}.

Section NodeAt.
Variables (root : tj_node) (tokens : list TokenSpan).
Hypothesis Hdoc : doc_ok root tokens.

Abbreviation project := (find_project root).
Abbreviation scope := (build_owner_scope root project).
Abbreviation inner := (innermost (scope_kids project scope)).

Lemma top_entry_in e : e ∈ os_top scope -> e ∈ child_entries ([], root).
Proof.
  rewrite elem_of_top. destruct project as [p|] eqn:Hp; rewrite elem_of_hoisted; [|tauto].
  intros [->|[[He _] _]]; [by apply find_project_in|done].
Qed.

Lemma inner_valid pos es d o :
  inner pos es d o -> (forall e, e ∈ es -> entry_in root e) ->
  (forall x, d = Some x -> entry_in root x /\ holds_pos x pos) ->
  forall x, o = Some x -> entry_in root x /\ holds_pos x pos.
Proof.
  induction 1 as [|es d e o Hin Hh _ IH]; intros Hes Hd; [done|].
  apply IH; [|by intros x [= <-]; auto]. intros c Hc. unfold scope_kids in Hc.
  destruct (is_entry project e) eqn:Ep; [|by eapply child_entry_in; eauto].
  unfold is_entry in Ep. destruct project as [p|] eqn:Hp; [|done].
  rewrite <- Hp, (project_kids_eq root p Hp), merge_sort_elem in Hc.
  apply list_elem_of_filter in Hc as [_ [Hc _]%elem_of_hoisted].
  by apply (child_entry_in root ([], root)).
Qed.

(** A declaration other than the project block that holds the start of a token
    is the owner of the token or around it. *)
Lemma owner_under pos o q n :
  inner pos (os_top scope) None o ->
  q ≠ [] -> node_at root q = Some n -> is_entry project (q, n) = false ->
  pos_le (rstart (tn_range n)) pos -> pos_lt pos (rend (tn_range n)) ->
  exists x, o = Some x /\ q `prefix_of` x.1.
Proof.
  destruct Hdoc as [Hroot _ _ _ Hproj _]. intros Ho Hq Hn Hnp Hs He.
  destruct q as [|i rest]; [done|]. simpl in Hn.
  destruct (tn_children root !! i) as [c|] eqn:Ec; simpl in Hn; [|done].
  assert (Hin : ([i], c) ∈ child_entries ([], root)) by (apply elem_of_child_entries; eauto).
  assert (Hnpc : is_entry project ([i], c) = false).
  { destruct (is_entry project ([i], c)) eqn:E; [|done]. exfalso.
    destruct project as [p|] eqn:Hp; [|done].
    apply (is_entry_true root p ([i], c) Hp Hin) in E as <-.
    specialize (Hproj _ eq_refl). simpl in Hproj. destruct rest as [|j rest].
    - simpl in *. by rewrite bool_decide_eq_true_2 in Hnp.
    - simpl in Hn. by rewrite Hproj in Hn. }
  destruct (root_nested _ Hroot _ Hin) as [_ Hwc].
  destruct (nested_range _ _ _ Hwc Hn) as [Hcs Hce].
  assert (Hhold : holds_pos ([i], c) pos).
  { split; [by etransitivity|by eapply pos_lt_le_trans]. }
  assert (Hkc : scope_kids project scope ([i], c) = child_entries ([i], c))
    by (unfold scope_kids; by rewrite Hnpc).
  assert (Hinto : forall es d lo hi, scope_wf (scope_kids project scope) lo hi es ->
            ([i], c) ∈ es -> inner pos es d o ->
            inner pos (child_entries ([i], c)) (Some ([i], c)) o).
  { intros es d lo hi Hw Hce' Hd.
    inversion Hd as [? ? Hno|? ? e' ? Hin' Hh' Hd']; subst; [by destruct (Hno _ Hce')|].
    rewrite (holds_unique _ _ _ _ _ _ _ Hw Hin' Hce' Hh' Hhold), Hkc in Hd'. exact Hd'. }
  assert (Ho' : inner pos (child_entries ([i], c)) (Some ([i], c)) o).
  { destruct (top_wf root Hroot) as (lo & hi & Hw).
    assert (Hhoist : ([i], c) ∈ hoisted root) by (by apply elem_of_hoisted).
    assert (Hcase : ([i], c) ∈ os_top scope \/
                    exists p, project = Some p /\ within ([i], c) p).
    { rewrite elem_of_top. destruct project as [p|]; [|by left].
      destruct (decide (within ([i], c) p)); [right|left; right]; eauto. }
    destruct Hcase as [Ht|(p & Hp & Hwi)]; [by eapply Hinto|].
    assert (Hph : holds_pos p pos).
    { destruct Hwi as [H1 H2], Hhold as [H3 H4].
      split; [by etransitivity|by eapply pos_lt_le_trans]. }
    assert (Hpt : p ∈ os_top scope) by (rewrite elem_of_top, Hp; by left).
    inversion Ho as [? ? Hno|? ? e' ? Hin' Hh' Hd']; subst; [by destruct (Hno _ Hpt)|].
    rewrite (holds_unique _ _ _ _ _ _ _ Hw Hin' Hpt Hh' Hph) in Hd'.
    rewrite (scope_kids_project root p Hp) in Hd'.
    eapply Hinto; [by apply project_kids_wf| |exact Hd'].
    rewrite (project_kids_eq root p Hp), merge_sort_elem, list_elem_of_filter.
    split; [by apply range_within_spec|done]. }
  destruct (innermost_under (scope_kids project scope) pos ([i], c) rest n o) as (x & -> & Hx);
    [intros e; apply scope_kids_deep|simpl; lia|done|done|done|done|done|by exists x].
Qed.
Lemma nested_wf e rest m :
  scope_wf child_entries (e_start e) (e_end e) (child_entries e) ->
  node_at e.2 rest = Some m ->
  scope_wf child_entries (rstart (tn_range m)) (rend (tn_range m))
    (child_entries (e.1 ++ rest, m)).
Proof.
  revert e. induction rest as [|i rest IH]; intros e Hw; simpl.
  - intros [= <-]. by destruct e; rewrite app_nil_r.
  - destruct (tn_children e.2 !! i) as [c|] eqn:Ec; simpl; [|done]. intros Hm.
    assert (Hin : (e.1 ++ [i], c) ∈ child_entries e) by (apply elem_of_child_entries; eauto).
    destruct (scope_wf_in _ _ _ _ _ Hw Hin) as (_ & Hk & _).
    specialize (IH (e.1 ++ [i], c) Hk Hm). simpl in IH. by rewrite <- app_assoc in IH.
Qed.

(** A declaration starts no later than the declarations inside it. *)
Lemma prefix_start p x np nx :
  p ≠ [] -> p `prefix_of` x -> node_at root p = Some np -> node_at root x = Some nx ->
  pos_le (rstart (tn_range np)) (rstart (tn_range nx)).
Proof.
  intros Hp [k ->] Hnp Hnx. destruct p as [|i p]; [done|].
  pose proof Hnp as Hnp'. simpl in Hnp.
  destruct (tn_children root !! i) as [c|] eqn:Ec; simpl in Hnp; [|done].
  assert (Hin : ([i], c) ∈ child_entries ([], root)) by (apply elem_of_child_entries; eauto).
  destruct (root_nested _ (doc_root _ _ Hdoc) _ Hin) as [_ Hwc].
  pose proof (nested_wf _ _ _ Hwc Hnp) as Hwp. simpl in Hwp.
  rewrite node_at_app, Hnp' in Hnx. simpl in Hnx.
  by apply (nested_range (i :: p, np) k nx Hwp Hnx).
Qed.

(** The owner of the last token at or before a position. *)
Lemma owner_lookup f t :
  tokens !! f = Some t ->
  exists o, assign_token_owners root tokens !! f = Some (option_map fst o) /\
    inner (ts_start t) (os_top scope) None o /\
    (forall x, o = Some x -> entry_in root x /\ holds_pos x (ts_start t)).
Proof.
  intros Ht.
  pose proof (tok_owners_spec root (doc_root _ _ Hdoc) tokens (doc_sorted _ _ Hdoc)) as Ho.
  destruct (Forall2_lookup_l _ _ _ _ _ Ho Ht) as (o & Hlo & Hin).
  exists o. split_and!; [|done|].
  - unfold assign_token_owners. by rewrite list_lookup_fmap, Hlo.
  - apply (inner_valid _ _ _ _ Hin); [|done].
    intros e He%top_entry_in. by apply (child_entry_in root ([], root)).
Qed.

Lemma tj_node_at_spec pos :
  pos_wf pos ->
  let r := tj_node_at root tokens (assign_token_owners root tokens) pos in
  (forall p, r = Some p -> exists n, p ≠ [] /\ node_at root p = Some n /\ holds_pos (p, n) pos) /\
  (forall q n, q ≠ [] -> node_at root q = Some n -> is_entry project (q, n) = false ->
     holds_pos (q, n) pos -> exists p, r = Some p /\ q `prefix_of` p).
Proof.
  intros Hpos r. unfold r, tj_node_at.
  destruct (span_found_spec tokens pos (doc_sorted _ _ Hdoc) (doc_no_eof _ _ Hdoc)) as [Hf Hlast].
  set (f := span_found tokens pos) in *.
  assert (Hstart : forall q n, q ≠ [] -> node_at root q = Some n ->
            pos_le (rstart (tn_range n)) pos ->
            exists t, tokens !! Z.to_nat f = Some t /\ 0 <= f /\
              pos_le (rstart (tn_range n)) (ts_start t) /\ pos_le (ts_start t) pos).
  { intros q n Hq Hn Hle.
    destruct (doc_starts _ _ Hdoc q n Hq Hn) as (t' & (j & Hj)%list_elem_of_lookup & Hts).
    pose proof (Hlast j t' Hj) as Hj'. destruct (Z.leb_spec (Z.of_nat j) f).
    2:{ exfalso. rewrite Hts in Hj'. clear -Hle Hj'. pos_lia. }
    destruct (lookup_lt_is_Some_2 tokens (Z.to_nat f)) as [t Ht]; [lia|].
    exists t. split_and!; [done|lia| |].
    - rewrite <- Hts. apply (doc_sorted _ _ Hdoc j (Z.to_nat f)); [lia|done|done].
    - specialize (Hlast _ _ Ht). destruct (Z.leb_spec (Z.of_nat (Z.to_nat f)) f); [done|lia]. }
  destruct (Z.ltb_spec f 0) as [Hneg|Hpos'].
  { split; [done|]. intros q n Hq Hn _ [Hs _].
    destruct (Hstart q n Hq Hn Hs) as (_ & _ & ? & _). lia. }
  destruct (lookup_lt_is_Some_2 tokens (Z.to_nat f)) as [t Ht]; [lia|].
  assert (Htp : pos_le (ts_start t) pos).
  { specialize (Hlast _ _ Ht). destruct (Z.leb_spec (Z.of_nat (Z.to_nat f)) f); [done|lia]. }
  destruct (owner_lookup _ _ Ht) as (o & -> & Hin & Hval).
  split.
  - intros p Hp. destruct o as [x|]; [|done]. simpl in Hp.
    destruct (Hval x eq_refl) as [Hx [Hxs _]].
    pose proof (climb_spec root x.1 x.2 pos Hx) as Hc. rewrite Hp in Hc.
    destruct Hc as (Hpx & (n & Hn & Hlt) & _). exists n.
    assert (Hne : p ≠ []).
    { intros ->. simpl in Hn. injection Hn as <-. rewrite (doc_root_range _ _ Hdoc) in Hlt.
      destruct Hpos as [[Hp1 _] [Hp2 _]]. destruct Hlt as [Hlt|[_ Hlt]]; simpl in Hlt; lia. }
    split_and!; [done|done|]. split; [|done].
    etransitivity; [|exact Htp]. etransitivity; [|exact Hxs]. by eapply prefix_start.
  - intros q n Hq Hn Hnp [Hs He]. unfold e_start, e_end in Hs, He. simpl in Hs, He.
    destruct (Hstart q n Hq Hn Hs) as (t' & Ht' & _ & Hst & _).
    assert (t' = t) as -> by congruence.
    destruct (owner_under (ts_start t) o q n) as (x & -> & Hqx); [done|done|done|done|done| |].
    { by eapply pos_le_lt_trans. }
    simpl. destruct (Hval x eq_refl) as [Hx _].
    pose proof (climb_spec root x.1 x.2 pos Hx) as Hc.
    destruct (climb pos (parent_chain root x.1)) as [p|].
    + exists p. split; [done|]. destruct Hc as (_ & _ & Hdeep). by apply (Hdeep q n).
    + exfalso. by apply (Hc q n).
Qed.
End NodeAt.

(** [tj_node_at] answers with the innermost declaration: on a well-formed
    document with the owners [assign_token_owners] computed, the answer holds
    the position (inclusive start, exclusive end), and every declaration other
    than the project block that holds the position is the answer or encloses
    it; so the answer is NULL only outside all of them. *)
Theorem tj_node_at_innermost root tokens pos :
  doc_ok root tokens -> pos_wf pos ->
  let r := tj_node_at root tokens (assign_token_owners root tokens) pos in
  (forall p, r = Some p -> exists n, p ≠ [] /\ node_at root p = Some n /\ holds_pos (p, n) pos) /\
  (forall q n, q ≠ [] -> node_at root q = Some n -> is_entry (find_project root) (q, n) = false ->
     holds_pos (q, n) pos -> exists p, r = Some p /\ q `prefix_of` p).
Proof. intros Hdoc Hpos. by apply tj_node_at_spec. Qed.

(** One nested task. *)
Definition nested_root : tj_node :=
  set_children tj_node_new [sample_node KW_TASK "a" 2 7 [sample_node KW_TASK "b" 3 5 []]].

Definition nested_tokens : list TokenSpan :=
  (fun l => mkSpan TK_IDENT (mkPos l 0) (mkPos l 1) (Some "x"%string)) <$> [2; 3; 5; 7].

Lemma nested_doc_ok : doc_ok nested_root nested_tokens.
Proof.
  assert (Hch : child_entries ([], nested_root) =
            [([0%nat], sample_node KW_TASK "a" 2 7 [sample_node KW_TASK "b" 3 5 []])]) by reflexivity.
  split; try done.
  - split; rewrite Hch.
    + intros e ->%list_elem_of_singleton. split; [by left|].
      repeat (constructor; simpl; try (by left); try (by right)); by left.
    + by intros a b ->%list_elem_of_singleton ->%list_elem_of_singleton.
  - spans_sorted_dec.
  - repeat constructor; done.
  - intros [|i q] n Hq Hn; [done|]. destruct i as [|[|i]]; try done.
    simpl in Hn. destruct q as [|j q].
    + injection Hn as <-. eexists. split; [by left|done].
    + destruct j as [|[|j]]; try done. simpl in Hn. destruct q as [|k q]; [|by destruct k].
      injection Hn as <-. eexists. split; [by right; left|done].
Qed.

Lemma tj_node_at_innermost_witness :
  (fun l => tj_node_at nested_root nested_tokens
     (assign_token_owners nested_root nested_tokens) (mkPos l 0)) <$> [1; 4; 6; 8]
    = [None; Some [0; 0]%nat; Some [0]%nat; None] /\
  exists p, tj_node_at nested_root nested_tokens
     (assign_token_owners nested_root nested_tokens) (mkPos 4 0) = Some p /\
     [0]%nat `prefix_of` p.
Proof.
  split; [vm_compute; reflexivity|].
  apply (proj2 (tj_node_at_innermost nested_root nested_tokens (mkPos 4 0) nested_doc_ok
           ltac:(vm_compute; repeat split; congruence)) [0%nat] _ ltac:(done) eq_refl eq_refl).
  split; by left.
Defined.

(** The sample document without the token that opens line 8. *)
Definition gap_tokens : list TokenSpan :=
  (fun l => mkSpan TK_IDENT (mkPos l 0) (mkPos l 1) (Some "x"%string))
    <$> [0; 1; 2; 4; 6; 9; 10; 11].

(** Where the cursor is inside the project block but after a body
    declaration, [tj_node_at] answers NULL although the block holds the
    position: the walk starts at the body declaration, whose parent is the
    synthetic root. *)
Theorem tj_node_at_project_gap :
  tj_node_at sample_root gap_tokens (assign_token_owners sample_root gap_tokens) (mkPos 8 0)
    = None /\
  find_project sample_root = Some ([0%nat], sample_node KW_PROJECT "p" 0 9 []) /\
  holds_pos ([0%nat], sample_node KW_PROJECT "p" 0 9 []) (mkPos 8 0).
Proof. split_and!; [vm_compute; reflexivity..|split; by left]. Qed.

(** ** The keyword stack against a backward scan *)

(** The tokens the loop looks at. *)
Fixpoint tokens_before (cursor : LspPos) (tokens : list TokenSpan) : list TokenSpan :=
  match tokens with
  | [] => []
  | t :: tokens' =>
      if bool_decide (ts_kind t = TK_EOF) || after_cursor t cursor then []
      else t :: tokens_before cursor tokens'
  end.

Section KwStack.
Variables (cursor : LspPos) (kind_max : token_kind) (track_argc : bool) (stack_cap : nat).

Abbreviation step := (scan_token cursor kind_max track_argc stack_cap).

(** What a token means to the scanner. *)
Inductive token_class : Set :=
  | Comment | Open | Close | Keyword (text : string) | Argument.

Definition class_of (t : TokenSpan) : token_class :=
  match ts_kind t with
  | TK_LINE_COMMENT | TK_BLOCK_COMMENT => Comment
  | TK_LBRACE => Open
  | TK_RBRACE => Close
  | k => match ts_text t with
         | Some text => if below kind_max k then Keyword text else Argument
         | None => Argument
         end
  end.

(** Specification: walk the tokens backwards from the cursor, [r] blocks below
    the depth [l] of interest; the first keyword met at that depth is the one,
    with the arguments seen at that depth counted in [n]; the brace opening
    the block of interest ends the search. *)
Fixpoint back (l : Z) (rtokens : list TokenSpan) (r : nat) (n : Z) : option KwStackEntry :=
  match rtokens with
  | [] => None
  | t :: rest =>
      match class_of t with
      | Comment => back l rest r n
      | Open => match r with O => None | S r' => back l rest r' n end
      | Close => back l rest (S r) n
      | Keyword text =>
          if (r =? 0)%nat then Some (mkKwEntry text (mkRange (ts_start t) (ts_end t)) l n)
          else back l rest r n
      | Argument =>
          back l rest r (if (r =? 0)%nat && track_argc && fully_before t cursor then n + 1 else n)
      end
  end.

(** Braces are balanced up to the cursor and nest less than [stack_cap] deep. *)
Fixpoint nesting_ok (d : nat) (tokens : list TokenSpan) : bool :=
  (d <? stack_cap)%nat &&
  match tokens with
  | [] => true
  | t :: rest =>
      match class_of t, d with
      | Open, _ => nesting_ok (S d) rest
      | Close, S d' => nesting_ok d' rest
      | Close, O => false
      | _, _ => nesting_ok d rest
      end
  end.

Definition bumped (e : KwStackEntry) (n : Z) : KwStackEntry :=
  mkKwEntry (kw e) (kw_range e) (kw_depth e) (kw_argc e + n).

Lemma step_class d stack t :
  step (d, stack) t =
  match class_of t with
  | Comment => (d, stack)
  | Open => (d + 1, stack)
  | Close => let d' := if d >? 0 then d - 1 else d in
             (d', pop_while (fun e => kw_depth e >? d') stack)
  | Keyword text => (d, push_keyword_entry stack stack_cap d t text)
  | Argument => (d, if track_argc then bump_active_argc stack d t cursor else stack)
  end.
Proof.
  unfold scan_token, class_of.
  destruct (ts_kind t); try reflexivity; destruct (ts_text t); try reflexivity; by case_match.
Qed.

Lemma back_add l rtokens r n m :
  back l rtokens r (n + m) = option_map (fun e => bumped e m) (back l rtokens r n).
Proof.
  revert r n. induction rtokens as [|t rest IH]; intros r n; simpl; [done|].
  destruct (class_of t) as [| | |text|]; [apply IH|destruct r; [done|apply IH]|apply IH| |].
  - by destruct (r =? 0)%nat.
  - destruct (_ && _ && _); [|apply IH].
    replace (n + m + 1) with (n + 1 + m) by lia. apply IH.
Qed.

(** Depths strictly decrease from the top, below a bound. *)
Fixpoint desc (ub : Z) (stack : list KwStackEntry) : Prop :=
  match stack with
  | [] => True
  | e :: st => 0 <= kw_depth e < ub /\ desc (kw_depth e) st
  end.

Lemma desc_mono ub ub' stack : ub <= ub' -> desc ub stack -> desc ub' stack.
Proof. destruct stack as [|e st]; simpl; [done|]. intros ? [? ?]. split; [lia|done]. Qed.

Lemma desc_length ub stack : 0 <= ub -> desc ub stack -> Z.of_nat (length stack) <= ub.
Proof.
  revert ub. induction stack as [|e st IH]; intros ub Hub; simpl; [lia|].
  intros [? Hd]. specialize (IH (kw_depth e) ltac:(lia) Hd). lia.
Qed.

Lemma find_depth_above ub l stack : desc ub stack -> ub <= l -> find_depth l stack = None.
Proof.
  revert ub. induction stack as [|e st IH]; intros ub; simpl; [done|].
  intros [? Hd] Hl. destruct (Z.eqb_spec (kw_depth e) l); [lia|]. eapply IH; [done|lia].
Qed.

(** Popping everything at or above [D]. *)
Lemma pop_while_spec P D ub stack :
  (forall e, P e = true <-> D <= kw_depth e) -> desc ub stack ->
  desc D (pop_while P stack) /\
  forall l, l < D -> find_depth l (pop_while P stack) = find_depth l stack.
Proof.
  intros HP. revert ub. induction stack as [|e st IH]; intros ub Hd; simpl; [done|].
  destruct Hd as [He Hd]. destruct (P e) eqn:E.
  - apply HP in E. destruct (IH _ Hd) as [IH1 IH2]. split; [done|]. intros l Hl.
    rewrite IH2 by done. destruct (Z.eqb_spec (kw_depth e) l); [lia|done].
  - assert (~ D <= kw_depth e) by (rewrite <- HP; congruence).
    split; [split; [lia|done]|done].
Qed.

Lemma bump_at_spec D ub stack l :
  desc ub stack -> desc ub (bump_at D stack) /\
  find_depth l (bump_at D stack) =
    if l =? D then option_map (fun e => bumped e 1) (find_depth l stack) else find_depth l stack.
Proof.
  revert ub. induction stack as [|e st IH]; intros ub; simpl.
  { split; [done|]. by case_match. }
  intros [He Hd]. destruct (IH _ Hd) as [IH1 IH2].
  destruct (Z.eqb_spec (kw_depth e) D) as [HeD|HeD]; simpl.
  - split; [done|]. destruct (Z.eqb_spec l D) as [El|Hl], (Z.eqb_spec (kw_depth e) l); try done;
      congruence.
  - split; [done|]. destruct (Z.eqb_spec (kw_depth e) l) as [<-|Hne]; [|done].
    destruct (Z.eqb_spec (kw_depth e) D); [done|done].
Qed.

(** The stack answers every backward scan. *)
Definition stack_inv (d : nat) (stack : list KwStackEntry) (rtokens : list TokenSpan) : Prop :=
  desc (Z.of_nat d + 1) stack /\
  forall l : nat, (l <= d)%nat ->
    find_depth (Z.of_nat l) stack = back (Z.of_nat l) rtokens (d - l) 0.

Lemma step_inv d stack rtokens t tokens :
  stack_inv d stack rtokens -> nesting_ok d (t :: tokens) = true ->
  exists d', (step (Z.of_nat d, stack) t).1 = Z.of_nat d' /\
    stack_inv d' (step (Z.of_nat d, stack) t).2 (t :: rtokens) /\ nesting_ok d' tokens = true.
Proof.
  intros [Hd Hf] Hn. cbn [nesting_ok] in Hn. apply andb_true_iff in Hn as [Hcap Hn].
  apply Nat.ltb_lt in Hcap. rewrite step_class. unfold stack_inv. cbn [back].
  destruct (class_of t) as [| | |text|] eqn:Et; cbn [fst snd].
  - by exists d.
  - exists (S d). split; [lia|]. split; [|done]. split; [by eapply desc_mono; [|done]; lia|].
    intros l Hl. destruct (decide (l = S d)) as [->|].
    + rewrite Nat.sub_diag. eapply find_depth_above; [done|lia].
    + replace (S d - l)%nat with (S (d - l)) by lia. apply Hf. lia.
  - destruct d as [|d]; [done|]. exists d.
    destruct (Z.gtb_spec (Z.of_nat (S d)) 0); [|lia].
    replace (Z.of_nat (S d) - 1) with (Z.of_nat d) by lia.
    destruct (pop_while_spec (fun e => kw_depth e >? Z.of_nat d) (Z.of_nat d + 1)
                (Z.of_nat (S d) + 1) stack) as [Hd' Hf'];
      [intros e; rewrite Z.gtb_lt; lia|done|].
    split; [done|]. split; [|done]. split; [done|]. intros l Hl.
    rewrite Hf' by lia. rewrite Hf by lia. by replace (S (d - l)) with (S d - l)%nat by lia.
  - exists d. split; [done|]. split; [|done]. unfold push_keyword_entry.
    destruct (pop_while_spec (fun e => kw_depth e >=? Z.of_nat d) (Z.of_nat d)
                (Z.of_nat d + 1) stack) as [Hd' Hf'];
      [intros e; rewrite Z.geb_le; lia|done|].
    pose proof (desc_length (Z.of_nat d) _ ltac:(lia) Hd').
    destruct (Nat.ltb_spec (length (pop_while (fun e => kw_depth e >=? Z.of_nat d) stack)) stack_cap);
      [|lia].
    split; [simpl; split; [lia|done]|]. intros l Hl. cbn [find_depth kw_depth].
    destruct (Z.eqb_spec (Z.of_nat d) (Z.of_nat l)) as [E|E].
    + assert (l = d) as -> by lia. by rewrite Nat.sub_diag.
    + destruct (Nat.eqb_spec (d - l) 0); [lia|]. rewrite Hf' by lia. apply Hf. lia.
  - exists d. split; [done|]. split; [|done].
    unfold bump_active_argc. destruct track_argc; cbn [andb].
    2:{ split; [done|]. intros l Hl. rewrite andb_false_r. simpl. by apply Hf. }
    destruct (fully_before t cursor).
    2:{ split; [done|]. intros l Hl. rewrite !andb_false_r. by apply Hf. }
    split; [by apply (bump_at_spec _ _ _ 0)|]. intros l Hl.
    destruct (bump_at_spec (Z.of_nat d) _ _ (Z.of_nat l) Hd) as [_ ->].
    rewrite Hf by done. rewrite !andb_true_r.
    destruct (Z.eqb_spec (Z.of_nat l) (Z.of_nat d)), (Nat.eqb_spec (d - l) 0); try lia; [|done].
    rewrite back_add. done.
Qed.

Lemma scan_loop_before st tokens :
  scan_loop cursor kind_max track_argc stack_cap st tokens
  = foldl step st (tokens_before cursor tokens).
Proof.
  revert st. induction tokens as [|t tokens IH]; intros st; simpl; [done|].
  by destruct (_ || _); simpl.
Qed.

Lemma foldl_inv d stack rtokens tokens :
  stack_inv d stack rtokens -> nesting_ok d tokens = true ->
  exists d', (foldl step (Z.of_nat d, stack) tokens).1 = Z.of_nat d' /\ (d' < stack_cap)%nat /\
    stack_inv d' (foldl step (Z.of_nat d, stack) tokens).2 (reverse tokens ++ rtokens).
Proof.
  revert d stack rtokens. induction tokens as [|t tokens IH]; intros d stack rtokens Hi Hn.
  { exists d. simpl in Hn. rewrite andb_true_r, Nat.ltb_lt in Hn. done. }
  destruct (step_inv _ _ _ _ _ Hi Hn) as (d' & Ed & Hi' & Hn'). cbn [foldl].
  destruct (step (Z.of_nat d, stack) t) as [z stack']. cbn [fst snd] in *. subst z.
  rewrite reverse_cons, <- app_assoc. by apply IH.
Qed.

Lemma scan_kw_stack_spec tokens :
  nesting_ok 0 (tokens_before cursor tokens) = true ->
  let st := scan_kw_stack tokens cursor kind_max track_argc stack_cap in
  entry_at_depth st = back st.1 (reverse (tokens_before cursor tokens)) 0 0 /\
  desc (st.1 + 1) st.2 /\ (length st.2 <= stack_cap)%nat.
Proof.
  intros Hn st. unfold st, scan_kw_stack. rewrite scan_loop_before.
  destruct (foldl_inv 0 [] [] (tokens_before cursor tokens)) as (d & Ed & Hcap & Hd & Hf); [|done|].
  { split; [done|]. intros [|l] ?; [done|lia]. }
  change (Z.of_nat 0) with 0 in *. rewrite app_nil_r in *.
  destruct (foldl step (0, []) (tokens_before cursor tokens)) as [z stack] eqn:E.
  cbn [fst snd] in *. subst z. unfold entry_at_depth. cbn [fst snd].
  split_and!; [|done|].
  - rewrite Hf by lia. by rewrite Nat.sub_diag.
  - pose proof (desc_length (Z.of_nat d + 1) _ ltac:(lia) Hd). lia.
Qed.
(** *** Where the entries come from *)

(** A keyword token before the cursor, with a non-negative count. *)
Definition entry_from (tokens : list TokenSpan) (e : KwStackEntry) : Prop :=
  0 <= kw_argc e /\
  exists t, t ∈ tokens /\ ts_kind t ≠ TK_EOF /\ ts_text t = Some (kw e) /\
    kw_range e = mkRange (ts_start t) (ts_end t) /\ below kind_max (ts_kind t) = true.

Lemma class_of_keyword t text : class_of t = Keyword text ->
  ts_text t = Some text /\ below kind_max (ts_kind t) = true.
Proof.
  unfold class_of. destruct (ts_kind t); try discriminate; destruct (ts_text t); try discriminate;
    case_match eqn:E; try discriminate; intros [= ->]; by split.
Qed.

Lemma pop_while_Forall (P : KwStackEntry -> Prop) f stack :
  Forall P stack -> Forall P (pop_while f stack).
Proof. induction 1 as [|e stack He Hs IH]; cbn; [done|]. case_match; [done|by constructor]. Qed.

Lemma bump_at_Forall tokens z stack :
  Forall (entry_from tokens) stack -> Forall (entry_from tokens) (bump_at z stack).
Proof.
  induction 1 as [|e stack He Hs IH]; cbn; [done|]. case_match; constructor; try done.
  destruct He as [? He]. split; [cbn; lia|done].
Qed.

Lemma scan_token_entries tokens d stack t : t ∈ tokens -> ts_kind t ≠ TK_EOF ->
  Forall (entry_from tokens) stack -> Forall (entry_from tokens) (step (d, stack) t).2.
Proof.
  intros Hin Heof Hs. rewrite step_class. destruct (class_of t) eqn:E; cbn; try done.
  - by apply pop_while_Forall.
  - unfold push_keyword_entry. pose proof (pop_while_Forall _ (fun e => kw_depth e >=? d) _ Hs).
    case_match; [|done]. constructor; [|done]. apply class_of_keyword in E as [Ht Hb].
    split; [cbn; lia|]. by exists t.
  - destruct track_argc; [|done]. unfold bump_active_argc. case_match; [by apply bump_at_Forall|done].
Qed.

Lemma scan_loop_entries tokens l : forall st, (forall t, t ∈ l -> t ∈ tokens) ->
  Forall (entry_from tokens) st.2 ->
  Forall (entry_from tokens) (scan_loop cursor kind_max track_argc stack_cap st l).2.
Proof.
  induction l as [|t l IH]; intros [d stack] Hl Hs; cbn [scan_loop]; [done|].
  case_bool_decide; cbn [orb]; [done|]. case_match; [done|].
  apply IH; [intros; apply Hl; by right|]. apply scan_token_entries; [apply Hl; left|done|done].
Qed.

Lemma entry_at_depth_from tokens e :
  entry_at_depth (scan_kw_stack tokens cursor kind_max track_argc stack_cap) = Some e ->
  entry_from tokens e.
Proof.
  unfold entry_at_depth. intros He.
  assert (Hin : forall stack, find_depth (scan_kw_stack tokens cursor kind_max track_argc stack_cap).1 stack
    = Some e -> e ∈ stack).
  { induction stack as [|x stack IH]; cbn; [done|]. case_match; [intros [= ->]; left|intros; right; auto]. }
  pose proof (scan_loop_entries tokens tokens (0, []) ltac:(done) ltac:(constructor)) as Hf.
  rewrite Forall_forall in Hf. apply Hf. by apply Hin.
Qed.
End KwStack.

(** A span the scanner may record: of a kind it records, and with the lexeme of
    its kind if that is a keyword. *)
Definition lexeme_ok (t : TokenSpan) : Prop :=
  lexed_kind (ts_kind t) = true /\
  forall lex, (lex, ts_kind t) ∈ lexer_keywords -> ts_text t = Some lex.

(** The keyword stack of [scan_kw_stack] means what hover and signature
    help read from it: for braces balanced up to the cursor and nested less
    deeply than the stack's capacity, the entry at the cursor's brace depth is
    the keyword a backward scan from the cursor finds at that depth, skipping
    complete blocks and stopping at the brace that opens the enclosing one,
    and its [argc] is the number of argument tokens at that depth that end
    before the cursor; depths strictly decrease from the top and the capacity
    is never exceeded. *)
Theorem scan_kw_stack_correct tokens cursor kind_max track_argc stack_cap :
  nesting_ok kind_max stack_cap 0 (tokens_before cursor tokens) = true ->
  let st := scan_kw_stack tokens cursor kind_max track_argc stack_cap in
  entry_at_depth st
    = back cursor kind_max track_argc st.1 (reverse (tokens_before cursor tokens)) 0 0 /\
  desc (st.1 + 1) st.2 /\ (length st.2 <= stack_cap)%nat.
Proof. intros Hn. by apply scan_kw_stack_spec. Qed.

Lemma scan_kw_stack_correct_witness :
  let toks := query_tokens ++
    [mkSpan KW_DEPENDS (mkPos 3 0) (mkPos 3 7) (Some "depends"%string);
     mkSpan TK_IDENT (mkPos 3 8) (mkPos 3 9) (Some "x"%string)] in
  let st c := scan_kw_stack toks c KW_SIG_END true 512 in
  entry_at_depth (st (mkPos 3 9))
    = Some (mkKwEntry "depends" (mkRange (mkPos 3 0) (mkPos 3 7)) 0 1) /\
  entry_at_depth (st (mkPos 1 0)) = None /\
  entry_at_depth (st (mkPos 2 5))
    = back (mkPos 2 5) KW_SIG_END true (st (mkPos 2 5)).1
        (reverse (tokens_before (mkPos 2 5) toks)) 0 0.
Proof.
  intros toks st. split_and!; [vm_compute; reflexivity..|].
  apply (scan_kw_stack_correct toks (mkPos 2 5) KW_SIG_END true 512). vm_compute. reflexivity.
Defined.
