(* ===== verification/ProjectTree.v ===== *)
(** * [project_tree.c]: the cross-file resolution tree of a project.

    A [ProjectNode] tree is copied from the documents of a project; a pointer
    into it is the node's path below the synthetic root.  The memo cell of a
    dependency ([ProjectDep.resolved]) is kept beside the tree, in a store
    indexed by the owner's path and the dependency's index, because it is the
    only mutable part: resolvers of several query threads read and publish it
    concurrently. *)

From S2P Require Import Prelude Tokens Syntax TokenQuery.

(** ** Nodes *)

Inductive ProjectNode : Set := PNode {
  pn_keyword : token_kind;
  pn_id : option string;
  pn_name : option string;
  pn_range : LspRange;
  pn_selection_range : LspRange;
  pn_source_uri : option string;
  pn_dependencies : list Dependency;
  pn_children : list ProjectNode
}.

Fixpoint ProjectNode_rect_children (P : ProjectNode -> Prop)
    (step : forall n, Forall P (pn_children n) -> P n) (n : ProjectNode) : P n :=
  step n ((fix go (l : list ProjectNode) : Forall P l :=
             match l with
             | [] => Forall_nil_2 P
             | c :: l' => Forall_cons_2 P c l' (ProjectNode_rect_children P step c) (go l')
             end) (pn_children n)).

(** The zeroed synthetic root of a [ws_project]. *)
Definition empty_project_root : ProjectNode :=
  PNode TK_EOF None None zero_range zero_range None [] [].

Definition pn_set_children (n : ProjectNode) (cs : list ProjectNode) : ProjectNode :=
  PNode (pn_keyword n) (pn_id n) (pn_name n) (pn_range n) (pn_selection_range n)
    (pn_source_uri n) (pn_dependencies n) cs.

Fixpoint pnode_at (n : ProjectNode) (p : node_path) : option ProjectNode :=
  match p with
  | [] => Some n
  | i :: p' => pn_children n !! i ≫= fun c => pnode_at c p'
  end.

(** [project_node_append_child] on the node at a path of the tree. *)
Fixpoint project_node_append_child (parent : ProjectNode) (p : node_path)
    (child : ProjectNode) : ProjectNode :=
  match p with
  | [] => pn_set_children parent (pn_children parent ++ [child])
  | i :: p' =>
      match pn_children parent !! i with
      | Some c => pn_set_children parent
                    (<[i := project_node_append_child c p' child]> (pn_children parent))
      | None => parent
      end
  end.

(** [project_node_from_tj] with [copy_dependencies]: every field is copied,
    the memo cells start unresolved. *)
Fixpoint project_node_from_tj (source_uri : option string) (src : tj_node) : ProjectNode :=
  PNode (tn_keyword src) (tn_id src) (tn_name src) (tn_range src) (tn_selection_range src)
    source_uri (tn_dependencies src)
    ((fix go (l : list tj_node) : list ProjectNode :=
        match l with
        | [] => []
        | c :: l' => project_node_from_tj source_uri c :: go l'
        end) (tn_children src)).

(** ** Paths *)

Definition dot : ascii := "."%char.

(** [strtok_r] with ["."]: the non-empty pieces between dots. *)
Fixpoint strtok_dots_from (seg s : string) : list string :=
  match s with
  | EmptyString => if bool_decide (seg = EmptyString) then [] else [seg]
  | String c s' =>
      if bool_decide (c = dot)
      then (if bool_decide (seg = EmptyString) then [] else [seg])
             ++ strtok_dots_from EmptyString s'
      else strtok_dots_from (seg +:+ String c EmptyString)%string s'
  end.

Definition strtok_dots (s : string) : list string := strtok_dots_from EmptyString s.

(** [split_dotted_path] of a possibly NULL path. *)
Definition split_dotted_path (path : option string) : list string :=
  match path with None => [] | Some s => strtok_dots s end.

Definition is_task_named (id : string) (c : ProjectNode) : Prop :=
  pn_keyword c = KW_TASK /\ pn_id c = Some id.

#[global] Instance is_task_named_dec id c : Decision (is_task_named id c).
Proof. unfold is_task_named. apply _. Defined.

(** [child_task]: the index of the first task child with this id. *)
Definition child_task (children : list ProjectNode) (id : string) : option (nat * ProjectNode) :=
  list_find (is_task_named id) children.

(** [find_task]: descend id by id; the path from the node that owns
    [children]. *)
Fixpoint find_task (children : list ProjectNode) (segs : list string) : option node_path :=
  match segs with
  | [] => None
  | seg :: segs' =>
      match child_task children seg with
      | None => None
      | Some (i, c) =>
          match segs' with
          | [] => Some [i]
          | _ => cons i <$> find_task (pn_children c) segs'
          end
      end
  end.

(** ** Resolution *)

(** Climb one level per bang; a missing parent or the synthetic root (keyword
    0) is the ceiling. *)
Fixpoint climb_bangs (root : ProjectNode) (bangs : nat) (p : node_path) : option node_path :=
  match bangs with
  | O => Some p
  | S bangs' =>
      match parent_path p with
      | None => None
      | Some q =>
          match pnode_at root q with
          | Some n => if bool_decide (pn_keyword n = TK_EOF) then None
                      else climb_bangs root bangs' q
          | None => None
          end
      end
  end.

(** The target [project_dep_resolve] computes when the memo cell is cold. *)
Definition resolve_dep (root : ProjectNode) (owner : node_path) (d : Dependency)
  : option node_path :=
  match split_dotted_path (dep_path d) with
  | [] => None
  | segs =>
      if (bang_count d =? 0)%Z then find_task (pn_children root) segs
      else match climb_bangs root (Z.to_nat (bang_count d)) owner with
           | Some a => pnode_at root a ≫= fun n => app a <$> find_task (pn_children n) segs
           | None => None
           end
  end.

(** *** The memo *)

(** Absent is [PROJECT_DEP_UNRESOLVED], [Some None] is
    [PROJECT_DEP_RESOLVED_NULL]. *)
Abbreviation memo := (gmap (node_path * nat) (option node_path)).

Definition dep_at (root : ProjectNode) (owner : node_path) (i : nat) : option Dependency :=
  pnode_at root owner ≫= fun n => pn_dependencies n !! i.

(** [project_dep_resolve]: the target and the memo afterwards. *)
Definition project_dep_resolve (root : ProjectNode) (m : memo) (owner : node_path)
    (dep_index : nat) : option node_path * memo :=
  match dep_at root owner dep_index with
  | None => (None, m)
  | Some d =>
      match m !! (owner, dep_index) with
      | Some cached => (cached, m)
      | None =>
          let resolved := resolve_dep root owner d in
          (resolved, <[(owner, dep_index) := resolved]> m)
      end
  end.

(** ** Kinds and navigation *)

Inductive NodeKind : Set :=
  | NODE_KIND_TASK | NODE_KIND_ACCOUNT | NODE_KIND_RESOURCE | NODE_KIND_REPORT
  | NODE_KIND_OTHER.

#[global] Instance NodeKind_eq_dec : EqDecision NodeKind.
Proof. solve_decision. Defined.

Definition node_kind_of (keyword : token_kind) : NodeKind :=
  match keyword with
  | KW_TASK => NODE_KIND_TASK
  | KW_ACCOUNT => NODE_KIND_ACCOUNT
  | KW_RESOURCE | KW_SHIFT => NODE_KIND_RESOURCE
  | KW_PROJECT => NODE_KIND_OTHER
  | _ => NODE_KIND_REPORT
  end.

Definition is_kind_named (kind : NodeKind) (id : string) (c : ProjectNode) : Prop :=
  node_kind_of (pn_keyword c) = kind /\ pn_id c = Some id.

#[global] Instance is_kind_named_dec kind id c : Decision (is_kind_named kind id c).
Proof. unfold is_kind_named. apply _. Defined.

(** The [strtok_r] walk over children that satisfy [P id]. *)
Fixpoint walk_path (P : string -> ProjectNode -> Prop) `{forall id c, Decision (P id c)}
    (n : ProjectNode) (segs : list string) : option node_path :=
  match segs with
  | [] => Some []
  | seg :: segs' =>
      match list_find (P seg) (pn_children n) with
      | Some (i, c) => cons i <$> walk_path P c segs'
      | None => None
      end
  end.

(** [find_node_by_dotted_path] from the project root. *)
Definition find_node_by_dotted_path (start : ProjectNode) (path : option string)
    (kind : NodeKind) : option node_path :=
  walk_path (is_kind_named kind) start (split_dotted_path path).

(** [project_node_for_doc_task]: the copy of the document task at [p]. *)
Definition project_node_for_doc_task (project_root : ProjectNode)
    (task_prefix : option string) (doc_root : tj_node) (p : node_path) : option node_path :=
  match sym_qualified_id doc_root p with
  | EmptyString => None
  | qualified_id =>
      match find_node_by_dotted_path project_root task_prefix NODE_KIND_TASK with
      | None => None
      | Some q =>
          match pnode_at project_root q with
          | None => None
          | Some n => app q <$> walk_path is_task_named n (strtok_dots qualified_id)
          end
      end
  end.

(** [project_resolve_dep_ref] for the dependency with this index. *)
Definition project_resolve_dep_ref (project_root : ProjectNode) (m : memo)
    (task_prefix : option string) (doc_root : tj_node) (owner : node_path) (ordinal : nat)
  : option node_path * memo :=
  match project_node_for_doc_task project_root task_prefix doc_root owner with
  | None => (None, m)
  | Some q =>
      match pnode_at project_root q with
      | None => (None, m)
      | Some n => if (ordinal <? length (pn_dependencies n))%nat
                  then project_dep_resolve project_root m q ordinal
                  else (None, m)
      end
  end.

(** ** Hover text *)

Fixpoint pn_root_chain (n : ProjectNode) (p : node_path) : list ProjectNode :=
  n :: match p with
       | [] => []
       | i :: p' => match pn_children n !! i with
                    | Some c => pn_root_chain c p'
                    | None => []
                    end
       end.

Fixpoint collect_pn_chain (room : nat) (kw : token_kind) (chain : list ProjectNode)
  : list string :=
  match chain, room with
  | [], _ | _, O => []
  | n :: chain', S room' =>
      match pn_id n with
      | Some (String _ _ as id) =>
          if bool_decide (pn_keyword n = kw) then id :: collect_pn_chain room' kw chain'
          else collect_pn_chain room kw chain'
      | _ => collect_pn_chain room kw chain'
      end
  end.

(** The UTF-8 em-dash between the id and the name. *)
Definition em_dash : string :=
  String "226"%char (String "128"%char (String "148"%char EmptyString)).

Definition task_markdown (qid name : string) : string :=
  ("**Task `" +:+ qid +:+ "`** " +:+ em_dash +:+ " " +:+ name)%string.

(** [project_node_hover_markdown] of the node at [p]. *)
Definition project_node_hover_markdown (root : ProjectNode) (p : node_path) : string :=
  match pnode_at root p with
  | None => task_markdown EmptyString EmptyString
  | Some n =>
      let name := default EmptyString (pn_name n) in
      match pn_id n with
      | None => task_markdown EmptyString name
      | Some _ =>
          task_markdown
            (join_dots (reverse (collect_pn_chain CHAIN_CAP (pn_keyword n)
                                   (reverse (pn_root_chain root p))))) name
      end
  end.

(** ** Resolution is memoised transparently *)

(** Every published cell holds the target of its dependency. *)
Definition memo_ok (root : ProjectNode) (m : memo) : Prop :=
  forall p i v, m !! (p, i) = Some v ->
    exists d, dep_at root p i = Some d /\ v = resolve_dep root p d.

(** What the client of a dependency sees, whatever the memo. *)
Definition dep_target (root : ProjectNode) (owner : node_path) (i : nat) : option node_path :=
  dep_at root owner i ≫= resolve_dep root owner.

Lemma memo_ok_empty root : memo_ok root ∅.
Proof. intros p i v. by rewrite lookup_empty. Qed.

Lemma memo_ok_insert root m p i d :
  memo_ok root m -> dep_at root p i = Some d ->
  memo_ok root (<[(p, i) := resolve_dep root p d]> m).
Proof.
  intros Hm Hd q j v. destruct (decide ((p, i) = (q, j))) as [[= <- <-]|Hne].
  - rewrite lookup_insert_eq. intros [= <-]. eauto.
  - rewrite lookup_insert_ne by done. apply Hm.
Qed.

Lemma project_dep_resolve_ok root m p i :
  memo_ok root m ->
  (project_dep_resolve root m p i).1 = dep_target root p i /\
  memo_ok root (project_dep_resolve root m p i).2 /\
  m ⊆ (project_dep_resolve root m p i).2.
Proof.
  intros Hm. unfold project_dep_resolve, dep_target.
  destruct (dep_at root p i) as [d|] eqn:Ed; [|done]. simpl.
  destruct (m !! (p, i)) as [v|] eqn:Ev; simpl.
  - destruct (Hm _ _ _ Ev) as (d' & Ed' & ->). split_and!; [congruence|done|done].
  - split_and!; [done|by apply memo_ok_insert|by apply insert_subseteq].
Qed.

(** *** Concurrent resolvers

    A thread resolving a dependency first loads its cell; when the cell is
    cold it computes and publishes.  Loads and stores of different threads
    interleave freely. *)
Inductive resolver : Set :=
  | Starting (owner : node_path) (i : nat)
  | Computing (owner : node_path) (i : nat)
  | Returned (owner : node_path) (i : nat) (target : option node_path).

Inductive resolve_step (root : ProjectNode) : memo * resolver -> memo * resolver -> Prop :=
  | load_hit m p i v :
      m !! (p, i) = Some v -> resolve_step root (m, Starting p i) (m, Returned p i v)
  | load_miss m p i d :
      dep_at root p i = Some d -> m !! (p, i) = None ->
      resolve_step root (m, Starting p i) (m, Computing p i)
  | publish m p i d :
      dep_at root p i = Some d ->
      resolve_step root (m, Computing p i)
        (<[(p, i) := resolve_dep root p d]> m, Returned p i (resolve_dep root p d)).

(** One step of one of the threads sharing the memo. *)
Inductive threads_step (root : ProjectNode)
  : memo * list resolver -> memo * list resolver -> Prop :=
  | thread_step m m' k t t' ts :
      ts !! k = Some t -> resolve_step root (m, t) (m', t') ->
      threads_step root (m, ts) (m', <[k := t']> ts).

Definition resolver_ok (root : ProjectNode) (t : resolver) : Prop :=
  match t with Returned p i v => exists d, dep_at root p i = Some d /\ v = resolve_dep root p d | _ => True end.

Definition threads_inv (root : ProjectNode) (s : memo * list resolver) : Prop :=
  memo_ok root s.1 /\ Forall (resolver_ok root) s.2.

Lemma resolve_step_inv root m t m' t' :
  resolve_step root (m, t) (m', t') -> memo_ok root m -> resolver_ok root t ->
  memo_ok root m' /\ resolver_ok root t' /\ m ⊆ m'.
Proof.
  inversion 1; subst; intros Hm Ht; simpl.
  - split_and!; [done|by apply Hm|done].
  - done.
  - split_and!; [by apply memo_ok_insert|by exists d|].
    apply map_subseteq_spec. intros [q j] v Hv.
    destruct (decide ((p, i) = (q, j))) as [[= <- <-]|]; [|by rewrite lookup_insert_ne].
    rewrite lookup_insert_eq. destruct (Hm _ _ _ Hv) as (d' & Hd' & ->). congruence.
Qed.

Lemma threads_step_inv root s s' :
  threads_step root s s' -> threads_inv root s -> threads_inv root s' /\ s.1 ⊆ s'.1.
Proof.
  intros [m m' k t t' ts Hk Hs] [Hm Hts]. simpl in *.
  assert (Ht : resolver_ok root t) by (rewrite Forall_lookup in Hts; by eapply Hts).
  destruct (resolve_step_inv _ _ _ _ _ Hs Hm Ht) as (? & ? & ?).
  split; [|done]. split; [done|]. by apply Forall_insert.
Qed.

Lemma threads_run_inv root s s' :
  rtc (threads_step root) s s' -> threads_inv root s -> threads_inv root s' /\ s.1 ⊆ s'.1.
Proof.
  induction 1 as [s|s s1 s2 H1 _ IH]; intros Hi; [by split|].
  destruct (threads_step_inv _ _ _ H1 Hi) as [Hi1 Hsub].
  destruct (IH Hi1) as [Hi2 Hsub2]. split; [done|]. by etransitivity.
Qed.

(** ** Qualified ids name the task they were built from *)

Fixpoint no_dot (s : string) : bool :=
  match s with
  | EmptyString => true
  | String c s' => bool_decide (c ≠ dot) && no_dot s'
  end.

Definition good_id (id : string) : Prop := id ≠ EmptyString /\ no_dot id = true.

Lemma str_app_empty a b : (a +:+ b)%string = EmptyString <-> a = EmptyString /\ b = EmptyString.
Proof. destruct a; [|split; [done|by intros [? ?]]]. split; [by intros|by intros [_ ?]]. Qed.

Lemma strtok_app seg s rest :
  no_dot s = true ->
  strtok_dots_from seg (s +:+ rest)%string = strtok_dots_from (seg +:+ s)%string rest.
Proof.
  revert seg. induction s as [|c s IH]; intros seg; [by rewrite str_app_nil_r|].
  cbn [no_dot]. intros [Hc Hs]%andb_true_iff. apply bool_decide_eq_true in Hc.
  change (String c s +:+ rest)%string with (String c (s +:+ rest)).
  cbn [strtok_dots_from]. rewrite bool_decide_eq_false_2 by done.
  rewrite IH by done. f_equal. by rewrite <- str_app_cons.
Qed.

Lemma strtok_join ids : Forall good_id ids -> strtok_dots (join_dots ids) = ids.
Proof.
  unfold strtok_dots. induction 1 as [|id ids [Hne Hd] Hids IH]; [done|].
  destruct ids as [|id' ids].
  - cbn [join_dots]. rewrite <- (str_app_nil_r id) at 1. rewrite strtok_app by done.
    change (EmptyString +:+ id)%string with id. cbn [strtok_dots_from].
    by rewrite bool_decide_eq_false_2.
  - change (join_dots (id :: id' :: ids))
      with (id +:+ String dot (join_dots (id' :: ids)))%string.
    rewrite strtok_app by done. change (EmptyString +:+ id)%string with id.
    cbn [strtok_dots_from]. rewrite bool_decide_eq_true_2 by done.
    rewrite bool_decide_eq_false_2 by done. cbn [app]. by rewrite IH.
Qed.

(** [task_path cs p ids n]: from the children [cs], [p] leads to the task [n]
    through tasks whose ids [ids] are well formed and distinguish each of
    them among its sibling tasks. *)
Inductive task_path : list tj_node -> node_path -> list string -> tj_node -> Prop :=
  | task_path_one cs i n id :
      cs !! i = Some n -> tn_keyword n = KW_TASK -> tn_id n = Some id -> good_id id ->
      (forall j m, cs !! j = Some m -> tn_keyword m = KW_TASK -> tn_id m = Some id -> j = i) ->
      task_path cs [i] [id] n
  | task_path_step cs i n id p ids m :
      cs !! i = Some n -> tn_keyword n = KW_TASK -> tn_id n = Some id -> good_id id ->
      (forall j m, cs !! j = Some m -> tn_keyword m = KW_TASK -> tn_id m = Some id -> j = i) ->
      task_path (tn_children n) p ids m ->
      task_path cs (i :: p) (id :: ids) m.

Lemma task_path_good cs p ids n : task_path cs p ids n -> Forall good_id ids /\ ids ≠ [].
Proof. induction 1 as [|? ? ? ? ? ? ? ? ? ? ? ? _ [? ?]]; split; auto. Qed.

Lemma task_path_node cs p ids n root :
  tn_children root = cs -> task_path cs p ids n -> node_at root p = Some n /\ tn_keyword n = KW_TASK.
Proof.
  intros Hr Hp. revert root Hr. induction Hp as [cs i n id Hi Hk _ _ _|cs i n id p ids m Hi _ _ _ _ _ IH];
    intros root <-; simpl; rewrite Hi; simpl; [done|]. by apply IH.
Qed.

(** The ids collected on the way up, in reverse. *)
Definition chain_ids (kw : token_kind) (chain : list (node_path * tj_node)) : list string :=
  omap (fun e => if bool_decide (tn_keyword e.2 = kw) then nonempty_id e.2 else None) chain.

Lemma collect_chain_ids room kw chain :
  collect_chain room kw chain = take room (chain_ids kw chain).
Proof.
  revert room. induction chain as [|[p n] chain IH]; intros room; simpl; [by destruct room|].
  destruct room as [|room]; [done|].
  unfold chain_ids. simpl. destruct (nonempty_id n) as [id|]; simpl.
  - case_bool_decide; simpl; [by rewrite IH|apply IH].
  - case_bool_decide; apply IH.
Qed.

Lemma chain_ids_cons kw e l : chain_ids kw (e :: l) = chain_ids kw [e] ++ chain_ids kw l.
Proof. unfold chain_ids. by rewrite <- omap_app. Qed.

Lemma chain_ids_task here n id :
  tn_keyword n = KW_TASK -> tn_id n = Some id -> id ≠ EmptyString ->
  chain_ids KW_TASK [(here, n)] = [id].
Proof.
  intros Hk Hid Hne. unfold chain_ids. simpl. rewrite bool_decide_eq_true_2 by done.
  unfold nonempty_id. rewrite Hid. by destruct id.
Qed.

Lemma chain_ids_noid kw here n : tn_id n = None -> chain_ids kw [(here, n)] = [].
Proof. intros Hn. unfold chain_ids. simpl. unfold nonempty_id. rewrite Hn. by case_bool_decide. Qed.

Lemma chain_ids_reverse kw l : chain_ids kw (reverse l) = reverse (chain_ids kw l).
Proof.
  induction l as [|x l IH]; [done|]. rewrite chain_ids_cons, reverse_cons, reverse_app, <- IH.
  unfold chain_ids. rewrite omap_app. f_equal. simpl. by case_match.
Qed.

Lemma task_chain_ids cs p ids n here :
  task_path cs p ids n -> forall root, tn_children root = cs ->
  chain_ids KW_TASK (root_chain root here p) = chain_ids KW_TASK [(here, root)] ++ ids.
Proof.
  intros Hp. revert here. induction Hp as [cs i n id Hi Hk Hid [Hne _] _
    |cs i n id p ids m Hi Hk Hid [Hne _] _ _ IH]; intros here root <-;
    cbn [root_chain]; rewrite Hi, chain_ids_cons; f_equal.
  - by apply chain_ids_task.
  - rewrite IH by done. by rewrite (chain_ids_task _ _ id).
Qed.

(** [sym_qualified_id] is the dotted id when the nesting fits its chain. *)
Lemma sym_qualified_id_spec root p ids n :
  tn_id root = None -> task_path (tn_children root) p ids n ->
  (length ids <= CHAIN_CAP)%nat -> sym_qualified_id root p = join_dots ids.
Proof.
  intros Hr Hp Hl. destruct (task_path_node _ _ _ _ root eq_refl Hp) as [Hn Hk].
  unfold sym_qualified_id. rewrite Hn.
  assert (Hids : exists id, tn_id n = Some id).
  { clear -Hp. induction Hp; eauto. }
  destruct Hids as [id ->]. rewrite Hk, collect_chain_ids. unfold parent_chain.
  assert (Hc : chain_ids KW_TASK (reverse (root_chain root [] p)) = reverse ids).
  { rewrite chain_ids_reverse, (task_chain_ids _ _ _ _ [] Hp root eq_refl).
    by rewrite chain_ids_noid. }
  rewrite Hc, take_ge by (rewrite length_reverse; lia).
  destruct (task_path_good _ _ _ _ Hp) as [_ Hne].
  destruct (reverse ids) as [|x l] eqn:E.
  { apply (f_equal reverse) in E. by rewrite reverse_involutive in E. }
  by rewrite <- E, reverse_involutive.
Qed.

Lemma children_of_copy uri n :
  pn_children (project_node_from_tj uri n) = project_node_from_tj uri <$> tn_children n.
Proof.
  destruct n as [? ? ? ? ? ? ? ? ? ? cs]. cbn. induction cs as [|c cs IH]; [done|].
  exact (f_equal (cons _) IH).
Qed.

Lemma copy_named uri n id :
  is_task_named id (project_node_from_tj uri n) <-> tn_keyword n = KW_TASK /\ tn_id n = Some id.
Proof. by destruct n. Qed.

Lemma list_find_unique {A} (P : A -> Prop) `{forall x, Decision (P x)} (l : list A) i x :
  l !! i = Some x -> P x -> (forall j y, l !! j = Some y -> P y -> j = i) ->
  list_find P l = Some (i, x).
Proof.
  intros Hi Hx Hu. apply list_find_Some. split_and!; [done..|].
  intros j y Hj Hlt Hy. specialize (Hu j y Hj Hy). lia.
Qed.

(** Walking the ids through the copies arrives at the copy of the task. *)
Lemma walk_copy uri cs p ids n :
  task_path cs p ids n -> forall pn, pn_children pn = project_node_from_tj uri <$> cs ->
  walk_path is_task_named pn ids = Some p /\ find_task (pn_children pn) ids = Some p /\
  pnode_at pn p = Some (project_node_from_tj uri n).
Proof.
  induction 1 as [cs i n id Hi Hk Hid Hg Hu|cs i n id p ids m Hi Hk Hid Hg Hu Hp IH];
    intros pn Hpn.
  all: assert (Hf : list_find (is_task_named id) (pn_children pn)
                     = Some (i, project_node_from_tj uri n)).
  1,3: rewrite Hpn; apply list_find_unique;
    [by rewrite list_lookup_fmap, Hi
    |by apply copy_named
    |intros j y Hj Hy; rewrite list_lookup_fmap in Hj;
     destruct (cs !! j) as [m'|] eqn:Em; [|done]; injection Hj as <-;
     apply copy_named in Hy as [Hy1 Hy2]; by eapply Hu].
  all: assert (Hl : pn_children pn !! i = Some (project_node_from_tj uri n))
    by (by rewrite Hpn, list_lookup_fmap, Hi).
  - cbn [walk_path find_task pnode_at]. unfold child_task. rewrite Hf, Hl. done.
  - destruct (IH (project_node_from_tj uri n) (children_of_copy uri n)) as (IH1 & IH2 & IH3).
    cbn [walk_path find_task pnode_at]. unfold child_task. rewrite Hf, Hl. cbn.
    rewrite IH1, IH2, IH3. destruct (task_path_good _ _ _ _ Hp) as [_ Hne].
    by destruct ids.
Qed.

Lemma pnode_at_app n p q : pnode_at n (p ++ q) = pnode_at n p ≫= fun m => pnode_at m q.
Proof.
  revert n. induction p as [|i p IH]; intros n; simpl; [done|].
  destruct (pn_children n !! i); simpl; [apply IH|done].
Qed.

(** The copies of a document below the prefix target: [k] is the place of the
    copy of its top-level declaration [i]. *)
Definition copied_at (tgt : ProjectNode) (uri : option string) (doc_root : tj_node)
    (i k : nat) : Prop :=
  exists c id, tn_children doc_root !! i = Some c /\ tn_id c = Some id /\
    pn_children tgt !! k = Some (project_node_from_tj uri c) /\
    forall j y, pn_children tgt !! j = Some y -> is_task_named id y -> j = k.

Lemma walk_copied tgt uri doc_root i p ids n k :
  copied_at tgt uri doc_root i k -> task_path (tn_children doc_root) (i :: p) ids n ->
  walk_path is_task_named tgt ids = Some (k :: p) /\
  find_task (pn_children tgt) ids = Some (k :: p) /\
  pnode_at tgt (k :: p) = Some (project_node_from_tj uri n).
Proof.
  intros (c & id & Hc & Hid & Hk & Hu) Hp.
  assert (Hck : tn_keyword c = KW_TASK) by (inversion Hp; congruence).
  assert (Hf : list_find (is_task_named id) (pn_children tgt)
               = Some (k, project_node_from_tj uri c)).
  { apply list_find_unique; [done|by apply copy_named|done]. }
  inversion Hp as [? ? ? ? Hi _ Hid' _ _|? ? ? ? ? ids' ? Hi _ Hid' _ _ Hp']; subst;
    rewrite Hc in Hi; injection Hi as <-; rewrite Hid in Hid'; injection Hid' as <-;
    cbn [walk_path find_task pnode_at]; unfold child_task; rewrite Hf, Hk; [done|].
  destruct (walk_copy uri _ _ _ _ Hp' (project_node_from_tj uri c) (children_of_copy uri c))
    as (H1 & H2 & H3).
  cbn. rewrite H1, H2, H3. destruct (task_path_good _ _ _ _ Hp') as [_ Hne]. by destruct ids'.
Qed.

(** ** What a dependency denotes *)

(** The pieces of a path: the non-empty ones among those its dots separate. *)
Definition pieces (s : string) (segs : list string) : Prop :=
  exists l, s = join_dots l /\ Forall (fun x => no_dot x = true) l /\ segs = filter (fun x => x ≠ EmptyString) l.

(** [p] leads down from [n] through tasks of these names, each the first of its
    name among its siblings. *)
Inductive task_chain : ProjectNode -> list string -> node_path -> Prop :=
  | task_chain_nil n : task_chain n [] []
  | task_chain_cons n i c id segs p :
      pn_children n !! i = Some c -> pn_keyword c = KW_TASK -> pn_id c = Some id ->
      (forall j c', (j < i)%nat -> pn_children n !! j = Some c' -> pn_keyword c' = KW_TASK -> pn_id c' <> Some id) ->
      task_chain c segs p -> task_chain n (id :: segs) (i :: p).

(** Where the names are looked up: at the root without bangs; with bangs, that
    many levels above the owner, no level of which is the synthetic root
    (keyword 0). *)
Inductive looked_up_at (root : ProjectNode) (owner : node_path) (bangs : Z) : node_path -> Prop :=
  | at_the_root : bangs = 0%Z -> looked_up_at root owner bangs []
  | above_owner base rest :
      bangs <> 0%Z -> owner = base ++ rest -> length rest = Z.to_nat bangs ->
      (forall q, base `prefix_of` q -> q `prefix_of` owner -> q <> owner ->
         exists n, pnode_at root q = Some n /\ pn_keyword n <> TK_EOF) ->
      looked_up_at root owner bangs base.

(** The task a dependency of [owner] stands for. *)
Definition denotes (root : ProjectNode) (owner : node_path) (d : Dependency) (t : node_path) : Prop :=
  exists segs base n p, pieces (default EmptyString (dep_path d)) segs /\ segs <> [] /\
    looked_up_at root owner (bang_count d) base /\ pnode_at root base = Some n /\ task_chain n segs p /\ t = base ++ p.

(** [v] is the right content for the cell of a dependency. *)
Definition answers (root : ProjectNode) (p : node_path) (i : nat) (v : option node_path) : Prop :=
  exists d, dep_at root p i = Some d /\ forall t, v = Some t <-> denotes root p d t.

(** Every published cell has the right content. *)
Definition memo_correct (root : ProjectNode) (m : memo) : Prop :=
  forall p i v, m !! (p, i) = Some v -> answers root p i v.

Lemma strtok_pieces l : Forall (fun x => no_dot x = true) l ->
  strtok_dots (join_dots l) = filter (fun x => x ≠ EmptyString) l.
Proof.
  unfold strtok_dots. induction 1 as [|id ids Hd Hids IH]; [done|].
  assert (Hseg : forall ys, (if bool_decide (id = EmptyString) then [] else [id]) ++ filter (fun x => x ≠ EmptyString) ys
                  = filter (fun x => x ≠ EmptyString) (id :: ys)).
  { intros ys. rewrite filter_cons. by destruct id. }
  destruct ids as [|id' ids].
  - rewrite <- Hseg, filter_nil, app_nil_r. cbn [join_dots]. rewrite <- (str_app_nil_r id) at 1. rewrite strtok_app by done. done.
  - change (join_dots (id :: id' :: ids)) with (id +:+ String dot (join_dots (id' :: ids)))%string.
    rewrite strtok_app by done. change (EmptyString +:+ id)%string with id.
    cbn [strtok_dots_from]. rewrite bool_decide_eq_true_2 by done. by rewrite IH, Hseg.
Qed.

Lemma pieces_exist s : exists l, s = join_dots l /\ Forall (fun x => no_dot x = true) l /\ l <> [].
Proof.
  induction s as [|c s (l & -> & Hl & Hne)]; [exists [EmptyString]; by repeat constructor|].
  destruct l as [|x l]; [done|]. destruct (decide (c = dot)) as [->|Hc].
  - exists (EmptyString :: x :: l). split; [done|]. split; [by constructor|done].
  - exists (String c x :: l). split; [by destruct l|]. split; [|done]. apply Forall_cons in Hl as [Hx Hl].
    constructor; [|done]. cbn. by rewrite bool_decide_eq_true_2.
Qed.

Lemma pieces_strtok s segs : pieces s segs <-> strtok_dots s = segs.
Proof.
  split.
  - intros (l & -> & Hl & ->). by apply strtok_pieces.
  - intros <-. destruct (pieces_exist s) as (l & -> & Hl & _). exists l. split_and!; [done..|]. by apply strtok_pieces.
Qed.

Lemma task_chain_find n segs p : segs <> [] -> task_chain n segs p <-> find_task (pn_children n) segs = Some p.
Proof.
  intros Hne. revert n p Hne. induction segs as [|id segs IH]; intros n p Hne; [done|]. cbn [find_task]. unfold child_task. split.
  - inversion 1 as [|? i c ? ? q Hi Hk Hid Hfirst Hq]; subst.
    assert (Hf : list_find (is_task_named id) (pn_children n) = Some (i, c)).
    { apply list_find_Some. split_and!; [done|by split|]. intros j c' Hj Hlt [? ?]. by eapply Hfirst. }
    rewrite Hf. destruct segs as [|id' segs]; [by inversion Hq|]. by rewrite (proj1 (IH c q ltac:(done)) Hq).
  - destruct (list_find _ _) as [[i c]|] eqn:Hf; [|done]. apply list_find_Some in Hf as (Hi & [Hk Hid] & Hfirst).
    assert (Hfirst' : forall j c', (j < i)%nat -> pn_children n !! j = Some c' -> pn_keyword c' = KW_TASK -> pn_id c' <> Some id).
    { intros j c' Hlt Hj Hk' Hid'. by apply (Hfirst j c' Hj Hlt). }
    destruct segs as [|id' segs]; [intros [= <-]; econstructor; [done..|constructor]|].
    intros (q & Hq & ->)%fmap_Some. econstructor; [done..|]. by apply IH.
Qed.

Lemma parent_snoc p i : parent_path (p ++ [i]) = Some p.
Proof. unfold parent_path. rewrite removelast_last. by destruct p. Qed.

Lemma climb_bangs_spec root b p a :
  climb_bangs root b p = Some a <->
  exists rest, p = a ++ rest /\ length rest = b /\
    forall q, a `prefix_of` q -> q `prefix_of` p -> q <> p -> exists n, pnode_at root q = Some n /\ pn_keyword n <> TK_EOF.
Proof.
  revert p. induction b as [|b IH]; intros p; cbn [climb_bangs].
  - split.
    + intros [= <-]. exists []. rewrite app_nil_r. split_and!; [done..|]. intros q Hpq Hqp Hne. destruct Hne. by apply (anti_symm prefix).
    + intros (rest & -> & ->%nil_length_inv & _). by rewrite app_nil_r.
  - destruct p as [|i p _] using rev_ind.
    { split; [done|]. intros (rest & Hr & Hl & _). apply eq_sym, app_nil in Hr as [_ ->]. done. }
    rewrite parent_snoc. split.
    + destruct (pnode_at root p) as [n|] eqn:En; [|done]. case_bool_decide as Hk; [done|].
      intros (rest & -> & Hl & Hq)%IH. exists (rest ++ [i]). rewrite app_assoc, length_app, Hl. split_and!; [done|cbn; lia|].
      intros q Haq Hqp Hne. apply prefix_snoc_cases in Hqp as [|Hqp]; [done|].
      destruct (decide (q = a ++ rest)) as [->|Hne']; [by exists n|by apply Hq].
    + intros (rest & Hr & Hl & Hq). destruct rest as [|x rest _] using rev_ind; [done|].
      rewrite app_assoc in Hr. apply app_inj_2 in Hr as [-> [= <-]]; [|done]. rewrite length_app in Hl. cbn in Hl.
      destruct (Hq (a ++ rest)) as (n & -> & Hk); [by apply prefix_app_r|by apply prefix_app_r| |].
      { intros E%(f_equal length). rewrite !length_app in E. cbn in E. lia. }
      rewrite bool_decide_eq_false_2 by done. apply IH. exists rest. split_and!; [done|lia|].
      intros q Haq Hqp Hne. apply Hq; [done|by apply prefix_app_r|]. intros ->. apply prefix_length in Hqp.
      rewrite !length_app in Hqp. cbn in Hqp. lia.
Qed.

Lemma resolve_denotes root owner d t : resolve_dep root owner d = Some t <-> denotes root owner d t.
Proof.
  assert (Hs : forall segs, pieces (default EmptyString (dep_path d)) segs <-> split_dotted_path (dep_path d) = segs).
  { intros segs. rewrite pieces_strtok. by destruct (dep_path d). }
  unfold resolve_dep, denotes. destruct (split_dotted_path (dep_path d)) as [|seg segs] eqn:Es.
  { split; [done|]. intros (segs & _ & _ & _ & <-%Hs & ? & _). done. }
  assert (Hne : seg :: segs <> []) by done. set (l := seg :: segs) in *.
  destruct (Z.eqb_spec (bang_count d) 0) as [Hb|Hb]; split.
  - intros Hf. exists l, [], root, t. split_and!; [by apply Hs|done|by constructor|done|by apply task_chain_find|done].
  - intros (l' & base & n & p & <-%Hs & _ & Hl & Hn & Hp & ->). destruct Hl as [_|base rest Hb']; [|done].
    injection Hn as <-. by apply task_chain_find.
  - destruct (climb_bangs _ _ _) as [a|] eqn:Ec; [|done]. apply climb_bangs_spec in Ec as (rest & Ho & Hlen & Hq).
    intros (n & Hn & (p & Hp & ->)%fmap_Some)%bind_Some. exists l, a, n, p.
    split_and!; [by apply Hs|done|by eapply above_owner|done|by apply task_chain_find|done].
  - intros (l' & base & n & p & <-%Hs & _ & Hl & Hn & Hp & ->). destruct Hl as [Hb'|base rest _ Ho Hlen Hq]; [done|].
    assert (Hc : climb_bangs root (Z.to_nat (bang_count d)) owner = Some base) by (apply climb_bangs_spec; by exists rest).
    rewrite Hc. cbn [mbind option_bind]. rewrite Hn. cbn [mbind option_bind].
    apply (task_chain_find n l p Hne) in Hp. by rewrite Hp.
Qed.

Lemma answers_target root p i v : answers root p i v <-> exists d, dep_at root p i = Some d /\ v = resolve_dep root p d.
Proof.
  split; intros (d & Hd & Hv); exists d; (split; [done|]).
  - apply option_eq. intros t. by rewrite Hv, resolve_denotes.
  - intros t. by rewrite Hv, resolve_denotes.
Qed.

Lemma memo_correct_ok root m : memo_correct root m <-> memo_ok root m.
Proof. by split; intros Hm p i v Hv%Hm; apply answers_target. Qed.

(** ** Properties *)

(** C19: Dependencies are resolved as their text says, and memoised
    transparently.  A dependency denotes the task its dotted path leads to, name
    by name, from the root of the project or, with bangs, from that many levels
    above its owner ([denotes]).  From a memo whose cells are right (a fresh
    snapshot's is empty), [project_dep_resolve] returns the task the dependency
    denotes, or NULL if it denotes none; it publishes exactly that in the cell
    of the dependency and leaves all other cells alone; a dependency that does
    not exist changes nothing.  The same holds of any number of query threads,
    of each of which a call is the undisturbed run, that resolve dependencies of
    one shared tree with their loads and publications interleaving in any order:
    every thread that returns got what its dependency denotes, the memo stays
    right, and a published cell never changes. *)
Theorem dependency_resolution_correct root m :
  memo_correct root m ->
  (forall p i d, dep_at root p i = Some d ->
     let r := project_dep_resolve root m p i in
     (forall t, r.1 = Some t <-> denotes root p d t) /\ memo_correct root r.2 /\ m ⊆ r.2 /\
     r.2 !! (p, i) = Some r.1 /\ (forall c, c <> (p, i) -> r.2 !! c = m !! c) /\
     rtc (resolve_step root) (m, Starting p i) (r.2, Returned p i r.1)) /\
  (forall p i, dep_at root p i = None -> project_dep_resolve root m p i = (None, m)) /\
  (forall ts m' ts', Forall (fun t => exists p i, t = Starting p i) ts -> rtc (threads_step root) (m, ts) (m', ts') ->
     (forall k p i v, ts' !! k = Some (Returned p i v) -> answers root p i v) /\
     memo_correct root m' /\ m ⊆ m').
Proof.
  rewrite memo_correct_ok. intros Hm. split_and!.
  - intros p i d Hd r. destruct (project_dep_resolve_ok root m p i Hm) as (H1 & H2 & H3).
    unfold dep_target in H1. rewrite Hd in H1. cbn in H1. fold r in H1, H2, H3. split_and!; [|by apply memo_correct_ok|done|..].
    + intros t. by rewrite H1, resolve_denotes.
    + rewrite H1. subst r. unfold project_dep_resolve. rewrite Hd. destruct (m !! (p, i)) as [v|] eqn:Ev; cbn [fst snd]; [|by rewrite lookup_insert_eq].
      destruct (Hm _ _ _ Ev) as (d' & Hd' & ->). rewrite Hd in Hd'. by injection Hd' as <-.
    + intros c Hc. subst r. unfold project_dep_resolve. rewrite Hd. destruct (m !! (p, i)); cbn [fst snd]; [done|]. by rewrite lookup_insert_ne.
    + subst r. unfold project_dep_resolve. rewrite Hd. destruct (m !! (p, i)) as [v|] eqn:Ev; cbn [fst snd]; [by apply rtc_once, load_hit|].
      eapply rtc_l; [by eapply load_miss|]. by apply rtc_once, publish.
  - intros p i Hd. unfold project_dep_resolve. by rewrite Hd.
  - intros ts m' ts' Hts Hrun. destruct (threads_run_inv _ _ _ Hrun) as [[Hm' Hts'] Hsub].
    { split; [done|]. cbn. eapply Forall_impl; [exact Hts|]. by intros t (p & i & ->). }
    split_and!; [|by apply memo_correct_ok|done]. intros k p i v Hk. rewrite Forall_lookup in Hts'.
    by apply answers_target, (Hts' k _ Hk).
Qed.

(** Two tasks, the second of which depends on the first. *)
Definition dep_on (bangs : Z) (path : string) : Dependency :=
  mkDep DEP_KIND_DEPENDS bangs (Some path) zero_range.

Definition task_pn (id : string) (deps : list Dependency) (cs : list ProjectNode) : ProjectNode :=
  PNode KW_TASK (Some id) (Some id) zero_range zero_range (Some "file:///p.tjp"%string) deps cs.

Definition sample_project : ProjectNode :=
  pn_set_children empty_project_root
    [ task_pn "a" [] [task_pn "x" [] []; task_pn "y" [dep_on 1 "x"; dep_on 0 "b"] []];
      task_pn "b" [dep_on 0 "a.y"; dep_on 1 "a"; dep_on 0 "a.z"] [] ].

Lemma dependency_resolution_correct_witness :
  project_dep_resolve sample_project ∅ [0; 1] 0
    = (Some [0; 0], {[ ([0; 1], 0) := Some [0; 0] ]}) /\
  denotes sample_project [0; 1] (dep_on 1 "x") [0; 0] /\
  (fun i => dep_target sample_project [1] i) <$> [0; 1; 2] = [Some [0; 1]; None; None] /\
  (* two threads race for one cell: both see it cold, both publish *)
  exists m', rtc (threads_step sample_project)
      (∅, [Starting [1] 0; Starting [1] 0])
      (m', [Returned [1] 0 (Some [0; 1]); Returned [1] 0 (Some [0; 1])]) /\
    memo_correct sample_project m'.
Proof.
  assert (H0 : memo_correct sample_project ∅) by (intros p i v; by rewrite lookup_empty).
  destruct (dependency_resolution_correct sample_project ∅ H0) as (Hone & _ & Hmany).
  split_and!; [vm_compute; reflexivity| |vm_compute; reflexivity|].
  { apply (Hone [0; 1] 0 (dep_on 1 "x") eq_refl). vm_compute. reflexivity. }
  set (d := dep_on 0 "a.y"). set (m1 := <[([1], 0) := Some [0; 1]]> (∅ : memo)).
  set (m2 := <[([1], 0) := Some [0; 1]]> m1).
  assert (Hrun : rtc (threads_step sample_project)
      (∅, [Starting [1] 0; Starting [1] 0])
      (m2, [Returned [1] 0 (Some [0; 1]); Returned [1] 0 (Some [0; 1])])).
  { eapply rtc_l. { eapply (thread_step _ _ _ 0); [done|]. by apply (load_miss _ _ _ _ d). }
    eapply rtc_l. { eapply (thread_step _ _ _ 1); [done|]. by apply (load_miss _ _ _ _ d). }
    eapply rtc_l. { eapply (thread_step _ _ _ 0); [done|]. by apply (publish _ _ _ _ d). }
    eapply rtc_l. { eapply (thread_step _ _ _ 1); [done|]. by apply (publish _ _ _ _ d). }
    apply rtc_refl. }
  exists m2. split; [exact Hrun|]. refine (proj1 (proj2 (Hmany _ _ _ _ Hrun))). repeat constructor; by eexists _, _.
Defined.

(** Cursor lookups and the project tree meet at the right node: for a
    task of a document nested in tasks with well-formed ids that are unique
    among their siblings, at most 64 deep, whose top-level declaration was
    copied under the document's prefix target, [project_node_for_doc_task]
    returns the copy of that very task; and without a prefix an absolute
    dependency written with the task's qualified id resolves to it. *)
Theorem doc_task_bridge project_root task_prefix q tgt uri doc_root i p ids n k owner :
  find_node_by_dotted_path project_root task_prefix NODE_KIND_TASK = Some q ->
  pnode_at project_root q = Some tgt ->
  copied_at tgt uri doc_root i k ->
  tn_id doc_root = None -> task_path (tn_children doc_root) (i :: p) ids n ->
  (length ids <= CHAIN_CAP)%nat ->
  project_node_for_doc_task project_root task_prefix doc_root (i :: p) = Some (q ++ k :: p) /\
  pnode_at project_root (q ++ k :: p) = Some (project_node_from_tj uri n) /\
  (q = [] -> resolve_dep project_root owner
               (dep_on 0 (sym_qualified_id doc_root (i :: p))) = Some (k :: p)).
Proof.
  intros Hq Ht Hc Hr Hp Hl.
  destruct (walk_copied _ _ _ _ _ _ _ _ Hc Hp) as (Hw & Hf & Hn).
  destruct (task_path_good _ _ _ _ Hp) as [Hg Hne].
  pose proof (sym_qualified_id_spec _ _ _ _ Hr Hp Hl) as Hs.
  pose proof (strtok_join ids Hg) as Htok.
  split_and!.
  - unfold project_node_for_doc_task. rewrite Hs.
    destruct (join_dots ids) as [|ch s] eqn:E; [by rewrite <- Htok in Hne|].
    by rewrite Hq, Ht, Htok, Hw.
  - by rewrite pnode_at_app, Ht.
  - intros ->. injection Ht as <-. unfold resolve_dep, split_dotted_path, dep_on.
    cbn [dep_path bang_count]. rewrite Hs, Htok. by destruct ids.
Qed.

Definition sample_node_kw (kw : token_kind) (id : string) (cs : list tj_node) : tj_node :=
  TjNode kw (Some id) (Some id) zero_range zero_range 0 0 false false [] cs.

Definition bridge_doc : tj_node :=
  set_children tj_node_new
    [ sample_node_kw KW_RESOURCE "a" [];
      sample_node_kw KW_TASK "a" [sample_node_kw KW_TASK "y" []] ].

Lemma doc_task_bridge_witness :
  let proj := pn_set_children empty_project_root
    (project_node_from_tj None <$> tn_children bridge_doc) in
  sym_qualified_id bridge_doc [1; 0] = "a.y"%string /\
  project_node_for_doc_task proj None bridge_doc [1; 0] = Some [1; 0].
Proof.
  intros proj. split; [vm_compute; reflexivity|].
  refine (proj1 (doc_task_bridge proj None [] proj None bridge_doc 1 [0] ["a"; "y"]%string
            (sample_node_kw KW_TASK "y" []) 1 [] eq_refl eq_refl _ eq_refl _ _)).
  - eexists _, _. split_and!; [reflexivity..|].
    intros [|[|j]] y Hy [Hk _]; simplify_eq/=; done.
  - eapply task_path_step; [reflexivity..|by split| |].
    + intros [|[|j]] m Hm Hk; simplify_eq/=; done.
    + eapply task_path_one; [reflexivity..|by split|].
      intros [|j] m Hm Hk; simplify_eq/=; done.
  - vm_compute. lia.
Defined.
