(* ===== verification/References.v ===== *)
(** * [definition.c], [references.c], [document_highlight.c] and the
    dependency hover of [hover.c].

    The handlers walk the project tree and resolve dependencies through the
    memo, which they thread.  A handler's [None] is the JSON [null] result; a
    missing [params] or [position] is a [None] position. *)

From S2P Require Import Prelude Tokens Syntax Owners TokenQuery ProjectTree.

(** An LSP Location. *)
Record Location : Set := mkLocation {
  loc_uri : option string;
  loc_range : LspRange
}.

#[global] Instance Location_eq_dec : EqDecision Location.
Proof. solve_decision. Defined.

(** ** Go to definition *)

Definition build_definition_json (root : ProjectNode) (target : option node_path)
  : option Location :=
  target ≫= fun p => pnode_at root p ≫= fun n =>
    Some (mkLocation (pn_source_uri n) (pn_selection_range n)).

(** The task prefix in force on a document. *)
Definition task_prefix (d : query_doc) : option string := prefix_get (qd_prefixes d) PREFIX_TASK.

(** The dependency under the cursor, resolved; [None] when there is none. *)
Definition dep_ref_at (root : ProjectNode) (m : memo) (d : query_doc) (pos : LspPos)
  : option (Dependency * (option node_path * memo)) :=
  match dependency_at_cursor (qd_root d) (qd_tok_spans d) (qd_tok_owners d) pos with
  | None => None
  | Some (owner, ordinal, dep) =>
      Some (dep, project_resolve_dep_ref root m (task_prefix d) (qd_root d) owner ordinal)
  end.

Definition handle_definition (pos : option LspPos) (project_root : option ProjectNode)
    (m : memo) (d : option query_doc) : option Location * memo :=
  match pos, d, project_root with
  | Some pos, Some d, Some root =>
      match dep_ref_at root m d pos with
      | Some (_, (target, m')) => (build_definition_json root target, m')
      | None => (None, m)
      end
  | _, _, _ => (None, m)
  end.

(** ** Find references *)

Section Collect.
Variables (root : ProjectNode) (wanted : node_path).

(** The loop over one node's dependencies. *)
Fixpoint refs_of_deps (m : memo) (p : node_path) (uri : option string) (i : nat)
    (deps : list Dependency) : list Location * memo :=
  match deps with
  | [] => ([], m)
  | d :: deps' =>
      let '(target, m1) := project_dep_resolve root m p i in
      let '(ls, m2) := refs_of_deps m1 p uri (S i) deps' in
      (if bool_decide (target = Some wanted) then mkLocation uri (source_range d) :: ls else ls,
       m2)
  end.

Fixpoint collect_refs_in_subtree (m : memo) (p : node_path) (node : ProjectNode)
  : list Location * memo :=
  let '(ls, m1) := refs_of_deps m p (pn_source_uri node) 0 (pn_dependencies node) in
  let '(ls', m2) :=
    (fix go (m : memo) (i : nat) (cs : list ProjectNode) : list Location * memo :=
       match cs with
       | [] => ([], m)
       | c :: cs' =>
           let '(l1, m1) := collect_refs_in_subtree m (p ++ [i]) c in
           let '(l2, m2) := go m1 (S i) cs' in
           (l1 ++ l2, m2)
       end) m1 0 (pn_children node) in
  (ls ++ ls', m2).
End Collect.

Definition build_references_json (root : ProjectNode) (m : memo) (wanted : option node_path)
  : option (list Location) * memo :=
  match wanted with
  | None => (None, m)
  | Some w => let '(ls, m') := collect_refs_in_subtree root w m [] root in (Some ls, m')
  end.

(** The project node of the task declaration under the cursor. *)
Definition decl_node_at (root : ProjectNode) (d : query_doc) (pos : LspPos) : option node_path :=
  task_decl_at_cursor (qd_root d) (qd_tok_spans d) (qd_tok_owners d) pos ≫= fun p =>
    project_node_for_doc_task root (task_prefix d) (qd_root d) p.

Definition handle_references (pos : option LspPos) (project_root : option ProjectNode)
    (m : memo) (d : option query_doc) : option (list Location) * memo :=
  match pos, d, project_root with
  | Some pos, Some d, Some root => build_references_json root m (decl_node_at root d pos)
  | _, _, _ => (None, m)
  end.

(** ** Document highlight *)

(** kind 2 = Read, 3 = Write. *)
Record Highlight : Set := mkHighlight { hl_range : LspRange; hl_kind : Z }.

(** [last_ident_in_range]: the loop keeps the last match. *)
Definition last_ident_in_range (tokens : list TokenSpan) (range : LspRange) : option LspRange :=
  foldl (fun found t =>
           if negb (bool_decide (ts_kind t = TK_IDENT)) then found
           else if (pos_cmp (ts_start t) (rstart range) <? 0)%Z then found
           else if (pos_cmp (ts_start t) (rend range) >? 0)%Z then found
           else Some (mkRange (ts_start t) (ts_end t)))
    None tokens.

Section Highlights.
Variables (root : ProjectNode) (wanted : node_path) (doc_uri : string)
  (tokens : list TokenSpan).

Fixpoint reads_of_deps (m : memo) (p : node_path) (i : nat) (deps : list Dependency)
  : list Highlight * memo :=
  match deps with
  | [] => ([], m)
  | d :: deps' =>
      let '(target, m1) := project_dep_resolve root m p i in
      let '(hs, m2) := reads_of_deps m1 p (S i) deps' in
      (if bool_decide (target = Some wanted)
       then match last_ident_in_range tokens (source_range d) with
            | Some segment => mkHighlight segment 2 :: hs
            | None => hs
            end
       else hs, m2)
  end.

Fixpoint collect_read_highlights (m : memo) (p : node_path) (node : ProjectNode)
  : list Highlight * memo :=
  let '(hs, m1) := if bool_decide (pn_source_uri node = Some doc_uri)
                   then reads_of_deps m p 0 (pn_dependencies node) else ([], m) in
  let '(hs', m2) :=
    (fix go (m : memo) (i : nat) (cs : list ProjectNode) : list Highlight * memo :=
       match cs with
       | [] => ([], m)
       | c :: cs' =>
           let '(l1, m1) := collect_read_highlights m (p ++ [i]) c in
           let '(l2, m2) := go m1 (S i) cs' in
           (l1 ++ l2, m2)
       end) m1 0 (pn_children node) in
  (hs ++ hs', m2).
End Highlights.

Definition build_document_highlight_json (root : ProjectNode) (m : memo)
    (wanted : option node_path) (doc_uri : string) (tokens : list TokenSpan)
  : option (list Highlight) * memo :=
  match wanted with
  | None => (None, m)
  | Some w =>
      let decl := match pnode_at root w with
                  | Some n => if bool_decide (pn_source_uri n = Some doc_uri)
                              then [mkHighlight (pn_selection_range n) 3] else []
                  | None => []
                  end in
      let '(hs, m') := collect_read_highlights root w doc_uri tokens m [] root in
      (Some (decl ++ hs), m')
  end.

Definition resolve_highlight_target (root : ProjectNode) (m : memo) (d : query_doc)
    (pos : LspPos) : option node_path * memo :=
  match task_decl_at_cursor (qd_root d) (qd_tok_spans d) (qd_tok_owners d) pos with
  | Some p => (project_node_for_doc_task root (task_prefix d) (qd_root d) p, m)
  | None =>
      match dep_ref_at root m d pos with
      | Some (_, r) => r
      | None => (None, m)
      end
  end.

Definition handle_document_highlight (pos : option LspPos) (project_root : option ProjectNode)
    (m : memo) (d : option query_doc) : option (list Highlight) * memo :=
  match pos, d, project_root with
  | Some pos, Some d, Some root =>
      let '(wanted, m1) := resolve_highlight_target root m d pos in
      build_document_highlight_json root m1 wanted (qd_uri d) (qd_tok_spans d)
  | _, _, _ => (None, m)
  end.

(** ** Dependency hover *)

(** [try_dependency_hover]: the Markdown and the range, [None] to fall through
    to the keyword documentation. *)
Definition try_dependency_hover (project_root : option ProjectNode) (m : memo)
    (d : query_doc) (pos : LspPos) : option (string * LspRange) * memo :=
  match project_root with
  | None => (None, m)
  | Some root =>
      match dep_ref_at root m d pos with
      | Some (dep, (Some target, m')) =>
          (Some (project_node_hover_markdown root target, source_range dep), m')
      | Some (_, (None, m')) => (None, m')
      | None => (None, m)
      end
  end.

(** ** Specification: all the dependencies of a tree *)

(** A dependency with the path, the source URI and the index it has. *)
Record placed_dep : Set := mkPlaced {
  pd_owner : node_path; pd_index : nat; pd_uri : option string; pd_dep : Dependency
}.

Definition node_deps (p : node_path) (n : ProjectNode) : list placed_dep :=
  imap (fun i d => mkPlaced p i (pn_source_uri n) d) (pn_dependencies n).

(** In pre-order. *)
Fixpoint all_deps (p : node_path) (n : ProjectNode) : list placed_dep :=
  node_deps p n ++
  (fix go (i : nat) (cs : list ProjectNode) : list placed_dep :=
     match cs with
     | [] => []
     | c :: cs' => all_deps (p ++ [i]) c ++ go (S i) cs'
     end) 0 (pn_children n).

(** The children of the nested recursion. *)
Fixpoint forest_deps (p : node_path) (i : nat) (cs : list ProjectNode) : list placed_dep :=
  match cs with
  | [] => []
  | c :: cs' => all_deps (p ++ [i]) c ++ forest_deps p (S i) cs'
  end.

Lemma all_deps_eq p n : all_deps p n = node_deps p n ++ forest_deps p 0 (pn_children n).
Proof.
  destruct n as [? ? ? ? ? ? ? cs]. cbn [all_deps pn_children]. f_equal. generalize 0.
  induction cs as [|c cs IH]; intros i; [done|]. exact (f_equal (app _) (IH (S i))).
Qed.

Definition resolves_to (root : ProjectNode) (wanted : node_path) (d : placed_dep) : Prop :=
  dep_target root (pd_owner d) (pd_index d) = Some wanted.

#[global] Instance resolves_to_dec root wanted d : Decision (resolves_to root wanted d).
Proof. unfold resolves_to. apply _. Defined.

Definition dep_location (d : placed_dep) : Location :=
  mkLocation (pd_uri d) (source_range (pd_dep d)).

(** ** The walks compute the filtered list *)

Section Walk.
Variables (root : ProjectNode) (wanted : node_path).

Lemma refs_of_deps_spec m p uri i deps :
  memo_ok root m ->
  (refs_of_deps root wanted m p uri i deps).1
    = dep_location <$> filter (resolves_to root wanted)
        (imap (fun j d => mkPlaced p (i + j) uri d) deps) /\
  memo_ok root (refs_of_deps root wanted m p uri i deps).2.
Proof.
  revert m i. induction deps as [|d deps IH]; intros m i Hm; [done|].
  cbn [refs_of_deps]. destruct (project_dep_resolve_ok root m p i Hm) as (Ht & Hm1 & _).
  destruct (project_dep_resolve root m p i) as [target m1]. cbn [fst snd] in *.
  destruct (IH m1 (S i) Hm1) as [IH1 IH2].
  destruct (refs_of_deps root wanted m1 p uri (S i) deps) as [ls m2]. cbn [fst snd] in *.
  split; [|done]. rewrite imap_cons, Nat.add_0_r.
  assert (Himap : imap ((fun j d => mkPlaced p (i + j) uri d) ∘ S) deps
                  = imap (fun j d => mkPlaced p (S i + j) uri d) deps).
  { apply imap_ext. intros j x _. unfold compose. f_equal. lia. }
  rewrite Himap. case_bool_decide as E.
  - rewrite filter_cons_True by (unfold resolves_to; simpl; congruence). by rewrite IH1.
  - rewrite filter_cons_False by (unfold resolves_to; simpl; congruence). by rewrite IH1.
Qed.

Lemma collect_refs_spec node : forall m p,
  memo_ok root m ->
  (collect_refs_in_subtree root wanted m p node).1
    = dep_location <$> filter (resolves_to root wanted) (all_deps p node) /\
  memo_ok root (collect_refs_in_subtree root wanted m p node).2.
Proof.
  induction node as [n IHn] using ProjectNode_rect_children. intros m p Hm.
  rewrite all_deps_eq, filter_app, fmap_app.
  destruct n as [kw id name rg sr uri deps cs]. cbn [pn_children] in *.
  cbn [collect_refs_in_subtree pn_source_uri pn_dependencies pn_children].
  destruct (refs_of_deps_spec m p uri 0 deps Hm) as [H1 Hm1].
  destruct (refs_of_deps root wanted m p uri 0 deps) as [ls m1]. cbn [fst snd] in *.
  match goal with |- context [?f m1 0 cs] => set (go := f) end.
  assert (Hgo : forall cs' i m', Forall (fun n => forall m p, memo_ok root m ->
            (collect_refs_in_subtree root wanted m p n).1
              = dep_location <$> filter (resolves_to root wanted) (all_deps p n) /\
            memo_ok root (collect_refs_in_subtree root wanted m p n).2) cs' ->
          memo_ok root m' ->
          (go m' i cs').1 = dep_location <$> filter (resolves_to root wanted) (forest_deps p i cs') /\
          memo_ok root (go m' i cs').2).
  { induction cs' as [|c cs' IH]; intros i m' Hcs Hm'; [done|].
    apply Forall_cons in Hcs as [Hc Hcs].
    change (go m' i (c :: cs')) with
      (let '(l1, m1) := collect_refs_in_subtree root wanted m' (p ++ [i]) c in
       let '(l2, m2) := go m1 (S i) cs' in (l1 ++ l2, m2)).
    destruct (Hc m' (p ++ [i]) Hm') as [Hc1 Hc2].
    destruct (collect_refs_in_subtree root wanted m' (p ++ [i]) c) as [l1 m2].
    cbn [fst snd] in *. destruct (IH (S i) m2 Hcs Hc2) as [IH1 IH2].
    destruct (go m2 (S i) cs') as [l2 m3]. cbn [fst snd forest_deps] in *.
    split; [|done]. by rewrite filter_app, fmap_app, <- Hc1, IH1. }
  destruct (Hgo cs 0 m1 IHn Hm1) as [Hg1 Hg2].
  destruct (go m1 0 cs) as [ls' m2]. cbn [fst snd] in *. split; [|done].
  by rewrite H1, Hg1.
Qed.
End Walk.

(** ** All dependencies are there, once *)

Lemma forest_deps_elem d p i cs :
  d ∈ forest_deps p i cs <-> exists j c, cs !! j = Some c /\ d ∈ all_deps (p ++ [i + j]) c.
Proof.
  revert i. induction cs as [|c cs IH]; intros i; simpl.
  { rewrite elem_of_nil. split; [done|]. by intros (j & c & ? & _). }
  rewrite elem_of_app, IH. split.
  - intros [H|(j & c' & Hj & H)]; [exists 0, c; by rewrite Nat.add_0_r|].
    exists (S j), c'. by rewrite Nat.add_succ_r.
  - intros ([|j] & c' & Hj & H); simpl in Hj.
    + injection Hj as <-. left. by rewrite Nat.add_0_r in H.
    + right. exists j, c'. by rewrite Nat.add_succ_r in H.
Qed.

Lemma all_deps_elem d n : forall p,
  d ∈ all_deps p n <-> exists q m, pd_owner d = p ++ q /\ pnode_at n q = Some m /\
    pn_dependencies m !! pd_index d = Some (pd_dep d) /\ pd_uri d = pn_source_uri m.
Proof.
  induction n as [n IHn] using ProjectNode_rect_children. intros p.
  rewrite all_deps_eq, elem_of_app, forest_deps_elem.
  assert (Hnode : d ∈ node_deps p n <-> pd_owner d = p /\
            pn_dependencies n !! pd_index d = Some (pd_dep d) /\ pd_uri d = pn_source_uri n).
  { unfold node_deps. rewrite elem_of_lookup_imap. split.
    - intros (i & x & -> & Hx). done.
    - intros (Ho & Hi & Hu). exists (pd_index d), (pd_dep d). split; [|done].
      destruct d; simpl in *; congruence. }
  rewrite Hnode. rewrite Forall_lookup in IHn. split.
  - intros [(Ho & Hi & Hu)|(j & c & Hj & Hd)].
    + exists [], n. by rewrite app_nil_r.
    + apply (IHn j c Hj) in Hd as (q & m & Ho & Hq & Hi & Hu).
      exists (j :: q), m. simpl. rewrite Hj. by rewrite <- app_assoc in Ho.
  - intros ([|j q] & m & Ho & Hq & Hi & Hu); simpl in Hq.
    + injection Hq as <-. left. by rewrite app_nil_r in Ho.
    + right. destruct (pn_children n !! j) as [c|] eqn:Ej; [|done]. simpl in Hq.
      exists j, c. split; [done|]. apply (IHn j c Ej). exists q, m. by rewrite <- app_assoc.
Qed.

Lemma forest_owner_prefix d p i cs :
  d ∈ forest_deps p i cs -> exists j q, (i <= j)%nat /\ pd_owner d = p ++ j :: q.
Proof.
  intros (j & c & _ & (q & m & Ho & _)%all_deps_elem)%forest_deps_elem.
  exists (i + j), q. split; [lia|]. by rewrite <- app_assoc in Ho.
Qed.

Definition dep_key (d : placed_dep) : node_path * nat := (pd_owner d, pd_index d).

Lemma all_deps_nodup n : forall p, NoDup (dep_key <$> all_deps p n).
Proof.
  induction n as [n IHn] using ProjectNode_rect_children. intros p.
  rewrite all_deps_eq, fmap_app, NoDup_app. split_and!.
  - unfold node_deps. apply NoDup_alt. intros i j x Hi Hj.
    rewrite list_lookup_fmap, list_lookup_imap in Hi, Hj.
    destruct (pn_dependencies n !! i); [|done]. destruct (pn_dependencies n !! j); [|done].
    simpl in *. injection Hi as <-. by injection Hj.
  - intros k (d & -> & Hd)%list_elem_of_fmap (d' & Heq & Hd')%list_elem_of_fmap.
    unfold node_deps in Hd. apply elem_of_lookup_imap in Hd as (i & x & -> & _).
    apply forest_owner_prefix in Hd' as (j & q & _ & Ho).
    unfold dep_key in Heq. simpl in Heq. injection Heq as Hp _. rewrite Ho in Hp.
    apply (f_equal length) in Hp. rewrite length_app in Hp. simpl in Hp. lia.
  - assert (Hf : forall cs i, Forall (fun n => forall p, NoDup (dep_key <$> all_deps p n)) cs ->
              NoDup (dep_key <$> forest_deps p i cs)).
    { induction cs as [|c cs IH]; intros i Hcs; [constructor|].
      apply Forall_cons in Hcs as [Hc Hcs]. simpl. rewrite fmap_app, NoDup_app.
      split_and!; [apply Hc| |by apply IH].
      intros k (d & -> & (q & m & Ho & _)%all_deps_elem)%list_elem_of_fmap
        (d' & Heq & Hd')%list_elem_of_fmap.
      apply forest_owner_prefix in Hd' as (j & q' & Hj & Ho').
      unfold dep_key in Heq. injection Heq as Hp _. rewrite Ho, Ho', <- app_assoc in Hp.
      apply app_inv_head in Hp. simpl in Hp. injection Hp as Hij _. lia. }
    by apply Hf.
Qed.

Lemma all_deps_dep_at root d :
  d ∈ all_deps [] root ->
  dep_at root (pd_owner d) (pd_index d) = Some (pd_dep d).
Proof.
  intros (q & m & Ho & Hq & Hi & _)%all_deps_elem. simpl in Ho. unfold dep_at.
  by rewrite Ho, Hq.
Qed.

Lemma references_list root m w :
  memo_ok root m ->
  exists m', build_references_json root m (Some w)
      = (Some (dep_location <$> filter (resolves_to root w) (all_deps [] root)), m') /\
    memo_ok root m'.
Proof.
  intros Hm. unfold build_references_json.
  destruct (collect_refs_spec root w root m [] Hm) as [H1 H2].
  destruct (collect_refs_in_subtree root w m [] root) as [ls m']. simpl in *. exists m'.
  by rewrite H1.
Qed.

(** ** Highlights *)

Lemma last_ident_spec tokens range :
  match last_ident_in_range tokens range with
  | Some r => exists i t, tokens !! i = Some t /\ r = mkRange (ts_start t) (ts_end t) /\
      ts_kind t = TK_IDENT /\ pos_le (rstart range) (ts_start t) /\
      pos_le (ts_start t) (rend range) /\
      forall j u, (i < j)%nat -> tokens !! j = Some u ->
        ~ (ts_kind u = TK_IDENT /\ pos_le (rstart range) (ts_start u) /\
           pos_le (ts_start u) (rend range))
  | None => forall j u, tokens !! j = Some u ->
        ~ (ts_kind u = TK_IDENT /\ pos_le (rstart range) (ts_start u) /\
           pos_le (ts_start u) (rend range))
  end.
Proof.
  unfold last_ident_in_range. induction tokens as [|t tokens IH] using rev_ind; [done|].
  rewrite foldl_snoc. set (r := foldl _ None tokens) in *.
  assert (Hhit : forall u, (ts_kind u = TK_IDENT /\ pos_le (rstart range) (ts_start u) /\
             pos_le (ts_start u) (rend range)) <->
           negb (bool_decide (ts_kind u = TK_IDENT)) = false /\
           (pos_cmp (ts_start u) (rstart range) <? 0)%Z = false /\
           (pos_cmp (ts_start u) (rend range) >? 0)%Z = false).
  { intros u. rewrite negb_false_iff, bool_decide_eq_true, Z.ltb_ge, pos_cmp_ge, Z.gtb_ltb,
      Z.ltb_ge, pos_cmp_le. tauto. }
  assert (Hold : forall hit : ~ (ts_kind t = TK_IDENT /\ pos_le (rstart range) (ts_start t) /\
             pos_le (ts_start t) (rend range)),
     match r with
     | Some r => exists i u, (tokens ++ [t]) !! i = Some u /\ r = mkRange (ts_start u) (ts_end u) /\
         ts_kind u = TK_IDENT /\ pos_le (rstart range) (ts_start u) /\
         pos_le (ts_start u) (rend range) /\
         forall j v, (i < j)%nat -> (tokens ++ [t]) !! j = Some v ->
           ~ (ts_kind v = TK_IDENT /\ pos_le (rstart range) (ts_start v) /\
              pos_le (ts_start v) (rend range))
     | None => forall j v, (tokens ++ [t]) !! j = Some v ->
           ~ (ts_kind v = TK_IDENT /\ pos_le (rstart range) (ts_start v) /\
              pos_le (ts_start v) (rend range))
     end).
  { intros Hno. destruct r as [r|].
    - destruct IH as (i & u & Hi & Hr & H1 & H2 & H3 & Hafter). exists i, u.
      split_and!; [by apply lookup_app_l_Some|done..|].
      intros j v Hij Hj. apply lookup_snoc_Some in Hj as [[_ Hj]|[_ <-]]; [by eapply Hafter|done].
    - intros j v Hj. apply lookup_snoc_Some in Hj as [[_ Hj]|[_ <-]]; [by eapply IH|done]. }
  destruct (negb (bool_decide (ts_kind t = TK_IDENT))) eqn:E1;
    [apply Hold; rewrite Hhit; intros [? _]; congruence|].
  destruct (pos_cmp (ts_start t) (rstart range) <? 0)%Z eqn:E2;
    [apply Hold; rewrite Hhit; intros (_ & ? & _); congruence|].
  destruct (pos_cmp (ts_start t) (rend range) >? 0)%Z eqn:E3;
    [apply Hold; rewrite Hhit; intros (_ & _ & ?); congruence|].
  destruct (proj2 (Hhit t)) as (H1 & H2 & H3); [done|].
  exists (length tokens), t. split_and!; [by apply list_lookup_middle|done..|].
  intros j v Hij Hj%lookup_lt_Some. rewrite length_app in Hj. simpl in Hj. lia.
Qed.

Definition reads_in (root : ProjectNode) (w : node_path) (doc_uri : string)
    (tokens : list TokenSpan) (d : placed_dep) : list Highlight :=
  if bool_decide (pd_uri d = Some doc_uri) && bool_decide (resolves_to root w d)
  then match last_ident_in_range tokens (source_range (pd_dep d)) with
       | Some r => [mkHighlight r 2]
       | None => []
       end
  else [].

Section ReadWalk.
Variables (root : ProjectNode) (wanted : node_path) (doc_uri : string)
  (tokens : list TokenSpan).

Lemma reads_of_deps_spec m p i deps :
  memo_ok root m ->
  (reads_of_deps root wanted tokens m p i deps).1
    = concat (reads_in root wanted doc_uri tokens <$>
        imap (fun j d => mkPlaced p (i + j) (Some doc_uri) d) deps) /\
  memo_ok root (reads_of_deps root wanted tokens m p i deps).2.
Proof.
  revert m i. induction deps as [|d deps IH]; intros m i Hm; [done|].
  cbn [reads_of_deps]. destruct (project_dep_resolve_ok root m p i Hm) as (Ht & Hm1 & _).
  destruct (project_dep_resolve root m p i) as [target m1]. cbn [fst snd] in *.
  destruct (IH m1 (S i) Hm1) as [IH1 IH2].
  destruct (reads_of_deps root wanted tokens m1 p (S i) deps) as [hs m2]. cbn [fst snd] in *.
  split; [|done]. rewrite imap_cons, Nat.add_0_r.
  assert (Himap : imap ((fun j d => mkPlaced p (i + j) (Some doc_uri) d) ∘ S) deps
                  = imap (fun j d => mkPlaced p (S i + j) (Some doc_uri) d) deps).
  { apply imap_ext. intros j x _. unfold compose. f_equal. lia. }
  rewrite Himap. cbn [fmap list_fmap concat]. rewrite <- IH1. unfold reads_in at 1.
  cbn [pd_uri pd_dep]. rewrite (bool_decide_eq_true_2 (Some doc_uri = Some doc_uri)) by done.
  assert (Hb : bool_decide (resolves_to root wanted (mkPlaced p i (Some doc_uri) d))
               = bool_decide (target = Some wanted)).
  { apply bool_decide_ext. unfold resolves_to. simpl. by rewrite Ht. }
  rewrite Hb. clear Hb. cbn [andb]. case_bool_decide; [|done].
  by destruct (last_ident_in_range tokens (source_range d)).
Qed.

Lemma collect_reads_spec node : forall m p,
  memo_ok root m ->
  (collect_read_highlights root wanted doc_uri tokens m p node).1
    = concat (reads_in root wanted doc_uri tokens <$> all_deps p node) /\
  memo_ok root (collect_read_highlights root wanted doc_uri tokens m p node).2.
Proof.
  induction node as [n IHn] using ProjectNode_rect_children. intros m p Hm.
  rewrite all_deps_eq, fmap_app, concat_app.
  destruct n as [kw id name rg sr uri deps cs]. cbn [pn_children] in *.
  cbn [collect_read_highlights pn_source_uri pn_dependencies pn_children].
  assert (Hnode : exists hs m1,
     (if bool_decide (uri = Some doc_uri) then reads_of_deps root wanted tokens m p 0 deps
      else ([], m)) = (hs, m1) /\ memo_ok root m1 /\
     hs = concat (reads_in root wanted doc_uri tokens <$>
            node_deps p (PNode kw id name rg sr uri deps cs))).
  { case_bool_decide as E.
    - subst uri. destruct (reads_of_deps_spec m p 0 deps Hm) as [H1 H2].
      destruct (reads_of_deps root wanted tokens m p 0 deps) as [hs m1]. by exists hs, m1.
    - exists [], m. split_and!; [done..|]. unfold node_deps. cbn [pn_dependencies pn_source_uri].
      generalize 0. clear -E. intros _.
      assert (Hnil : Forall (fun d => reads_in root wanted doc_uri tokens d = [])
                (imap (fun i d => mkPlaced p i uri d) deps)).
      { rewrite Forall_lookup. intros i d Hd. rewrite list_lookup_imap in Hd.
        destruct (deps !! i); [|done]. injection Hd as <-. unfold reads_in. cbn [pd_uri].
        by rewrite bool_decide_eq_false_2. }
      induction Hnil as [|d l Hd _ IH]; [done|].
      rewrite fmap_cons. cbn [concat]. by rewrite Hd, <- IH. }
  destruct Hnode as (hs & m1 & -> & Hm1 & ->).
  match goal with |- context [?f m1 0 cs] => set (go := f) end.
  assert (Hgo : forall cs' i m', Forall (fun n => forall m p, memo_ok root m ->
            (collect_read_highlights root wanted doc_uri tokens m p n).1
              = concat (reads_in root wanted doc_uri tokens <$> all_deps p n) /\
            memo_ok root (collect_read_highlights root wanted doc_uri tokens m p n).2) cs' ->
          memo_ok root m' ->
          (go m' i cs').1 = concat (reads_in root wanted doc_uri tokens <$> forest_deps p i cs') /\
          memo_ok root (go m' i cs').2).
  { induction cs' as [|c cs' IH]; intros i m' Hcs Hm'; [done|].
    apply Forall_cons in Hcs as [Hc Hcs].
    change (go m' i (c :: cs')) with
      (let '(l1, m1) := collect_read_highlights root wanted doc_uri tokens m' (p ++ [i]) c in
       let '(l2, m2) := go m1 (S i) cs' in (l1 ++ l2, m2)).
    destruct (Hc m' (p ++ [i]) Hm') as [Hc1 Hc2].
    destruct (collect_read_highlights root wanted doc_uri tokens m' (p ++ [i]) c) as [l1 m2].
    cbn [fst snd] in *. destruct (IH (S i) m2 Hcs Hc2) as [IH1 IH2].
    destruct (go m2 (S i) cs') as [l2 m3]. cbn [fst snd forest_deps] in *.
    split; [|done]. by rewrite fmap_app, concat_app, <- Hc1, IH1. }
  destruct (Hgo cs 0 m1 IHn Hm1) as [Hg1 Hg2].
  destruct (go m1 0 cs) as [ls' m2]. cbn [fst snd] in *. split; [|done]. by rewrite Hg1.
Qed.
End ReadWalk.

(** ** Properties *)

(** C12: Find references is exact: from any correct memo, the answer for a
    target lists, in pre-order, the location of every dependency of the project
    that resolves to the target and nothing else, each dependency once, and
    the memo it leaves is correct. *)
Theorem references_exact root m w :
  memo_ok root m ->
  exists ls m', build_references_json root m (Some w) = (Some ls, m') /\
    memo_ok root m' /\
    ls = dep_location <$> filter (resolves_to root w) (all_deps [] root) /\
    NoDup (dep_key <$> all_deps [] root) /\
    (forall p i n d, pnode_at root p = Some n -> pn_dependencies n !! i = Some d ->
       dep_target root p i = Some w -> mkLocation (pn_source_uri n) (source_range d) ∈ ls).
Proof.
  intros Hm. destruct (references_list root m w Hm) as (m' & -> & Hm'). eexists _, m'.
  split_and!; [done|done|done|apply all_deps_nodup|].
  intros p i n d Hp Hi Hw. apply list_elem_of_fmap.
  exists (mkPlaced p i (pn_source_uri n) d). split; [done|].
  apply list_elem_of_filter. split; [done|]. apply all_deps_elem. by exists p, n.
Qed.

Lemma references_exact_witness :
  (build_references_json sample_project ∅ (Some [0; 1])).1
    = Some [mkLocation (Some "file:///p.tjp"%string) zero_range] /\
  exists ls m', build_references_json sample_project ∅ (Some [0; 1]) = (Some ls, m') /\
    memo_ok sample_project m'.
Proof.
  split; [vm_compute; reflexivity|].
  destruct (references_exact sample_project ∅ [0; 1] (memo_ok_empty _)) as (ls & m' & H & Hm & _).
  exists ls, m'. by split.
Defined.

(** Go to definition and find references are inverse: when the
    dependency under the cursor resolves to a target, the answer of
    [textDocument/definition] is the declaration of that target, and asking for
    the references of that target lists the very dependency the cursor was
    on (its copy in the project tree). *)
Theorem definition_references_inverse root m d pos dep target m1 :
  memo_ok root m -> dep_ref_at root m d pos = Some (dep, (Some target, m1)) ->
  (exists q owner ordinal n d', 
     dependency_at_cursor (qd_root d) (qd_tok_spans d) (qd_tok_owners d) pos
       = Some (owner, ordinal, dep) /\
     project_node_for_doc_task root (task_prefix d) (qd_root d) owner = Some q /\
     pnode_at root q = Some n /\ pn_dependencies n !! ordinal = Some d' /\
     forall m2, memo_ok root m2 ->
       exists ls, (build_references_json root m2 (Some target)).1 = Some ls /\
         mkLocation (pn_source_uri n) (source_range d') ∈ ls) /\
  handle_definition (Some pos) (Some root) m (Some d)
    = (build_definition_json root (Some target), m1).
Proof.
  intros Hm Hr. split; [|unfold handle_definition; by rewrite Hr].
  unfold dep_ref_at in Hr.
  destruct (dependency_at_cursor _ _ _ pos) as [[[owner ordinal] dep']|]; [|done].
  injection Hr as -> Hr. unfold project_resolve_dep_ref in Hr.
  destruct (project_node_for_doc_task _ _ _ _) as [q|] eqn:Eq; [|done].
  destruct (pnode_at root q) as [n|] eqn:En; [|done].
  destruct (Nat.ltb_spec ordinal (length (pn_dependencies n))) as [Hlt|]; [|done].
  destruct (lookup_lt_is_Some_2 _ _ Hlt) as [d' Hd'].
  exists q, owner, ordinal, n, d'. split_and!; [done..|]. intros m2 Hm2.
  destruct (references_list root m2 target Hm2) as (m3 & -> & _).
  eexists. split; [done|]. apply list_elem_of_fmap.
  exists (mkPlaced q ordinal (pn_source_uri n) d'). split; [done|].
  apply list_elem_of_filter. split.
  - destruct (project_dep_resolve_ok root m q ordinal Hm) as (Ht & _).
    unfold resolves_to. simpl. rewrite <- Ht, Hr. done.
  - apply all_deps_elem. by exists q, n.
Qed.

Definition sample_node_kw_at (kw : token_kind) (id : string) (l1 l2 : Z) (deps : list Dependency)
  : tj_node :=
  TjNode kw (Some id) (Some id) (mkRange (mkPos l1 0) (mkPos l2 9))
    (mkRange (mkPos l1 5) (mkPos l1 6)) 0 0 false false deps [].

(** [task a {}] and [task b { depends a }]. *)
Definition ref_doc_root : tj_node :=
  set_children tj_node_new
    [ sample_node_kw_at KW_TASK "a" 0 0 [];
      sample_node_kw_at KW_TASK "b" 1 3
        [mkDep DEP_KIND_DEPENDS 0 (Some "a"%string) (mkRange (mkPos 2 10) (mkPos 2 11))] ].

Definition ref_doc_tokens : list TokenSpan :=
  [ mkSpan KW_TASK (mkPos 0 0) (mkPos 0 4) (Some "task"%string);
    mkSpan TK_IDENT (mkPos 0 5) (mkPos 0 6) (Some "a"%string);
    mkSpan KW_TASK (mkPos 1 0) (mkPos 1 4) (Some "task"%string);
    mkSpan TK_IDENT (mkPos 1 5) (mkPos 1 6) (Some "b"%string);
    mkSpan KW_DEPENDS (mkPos 2 2) (mkPos 2 9) (Some "depends"%string);
    mkSpan TK_IDENT (mkPos 2 10) (mkPos 2 11) (Some "a"%string) ].

Definition ref_doc : query_doc :=
  mkQueryDoc "file:///d.tjp" None
    (mkDocSnapshot 1 "file:///d.tjp" "" ref_doc_root ref_doc_tokens
       (assign_token_owners ref_doc_root ref_doc_tokens) 6).

Definition ref_project : ProjectNode :=
  pn_set_children empty_project_root
    (project_node_from_tj (Some "file:///d.tjp"%string) <$> tn_children ref_doc_root).

Lemma definition_references_inverse_witness :
  (handle_definition (Some (mkPos 2 10)) (Some ref_project) ∅ (Some ref_doc)).1
    = Some (mkLocation (Some "file:///d.tjp"%string) (mkRange (mkPos 0 5) (mkPos 0 6))) /\
  (handle_references (Some (mkPos 0 5)) (Some ref_project) ∅ (Some ref_doc)).1
    = Some [mkLocation (Some "file:///d.tjp"%string) (mkRange (mkPos 2 10) (mkPos 2 11))] /\
  exists dep target m1,
    handle_definition (Some (mkPos 2 10)) (Some ref_project) ∅ (Some ref_doc)
      = (build_definition_json ref_project (Some target), m1) /\
    dep_ref_at ref_project ∅ ref_doc (mkPos 2 10) = Some (dep, (Some target, m1)).
Proof.
  split_and!; [vm_compute; reflexivity..|].
  eexists _, [0], _. split.
  - eapply (definition_references_inverse ref_project ∅ ref_doc (mkPos 2 10));
      [apply memo_ok_empty|vm_compute; reflexivity].
  - vm_compute. reflexivity.
Defined.

(** Document highlight is exact: for a resolved target the answer is the
    declaration when it lives in the document (kind Write), followed by one
    Read per dependency declared in the document that resolves to the target,
    each covering the last identifier token inside the reference. *)
Theorem document_highlight_exact root m w n doc_uri tokens :
  memo_ok root m -> pnode_at root w = Some n ->
  exists m', build_document_highlight_json root m (Some w) doc_uri tokens
    = (Some ((if bool_decide (pn_source_uri n = Some doc_uri)
              then [mkHighlight (pn_selection_range n) 3] else [])
             ++ concat (reads_in root w doc_uri tokens <$> all_deps [] root)), m') /\
    memo_ok root m' /\
    forall d r, r ∈ reads_in root w doc_uri tokens d ->
      resolves_to root w d /\ pd_uri d = Some doc_uri /\ hl_kind r = 2%Z /\
      exists t, t ∈ tokens /\ ts_kind t = TK_IDENT /\
        hl_range r = mkRange (ts_start t) (ts_end t) /\
        pos_le (rstart (source_range (pd_dep d))) (ts_start t) /\
        pos_le (ts_start t) (rend (source_range (pd_dep d))).
Proof.
  intros Hm Hn. unfold build_document_highlight_json. rewrite Hn.
  destruct (collect_reads_spec root w doc_uri tokens root m [] Hm) as [H1 H2].
  destruct (collect_read_highlights root w doc_uri tokens m [] root) as [hs m'].
  cbn [fst snd] in *. exists m'. split_and!; [by rewrite H1|done|].
  intros d r Hr. unfold reads_in in Hr. case_bool_decide as Hu; [|by apply elem_of_nil in Hr].
  case_bool_decide as Ht; [|by apply elem_of_nil in Hr]. cbn [andb] in Hr.
  pose proof (last_ident_spec tokens (source_range (pd_dep d))) as Hl.
  destruct (last_ident_in_range _ _) as [rg|]; [|by apply elem_of_nil in Hr].
  apply list_elem_of_singleton in Hr as ->.
  destruct Hl as (i & t & Hi & -> & Hk & Hs & He & _).
  split_and!; [done..|]. exists t. split_and!; [by eapply list_elem_of_lookup_2|done..].
Qed.

Lemma document_highlight_exact_witness :
  (handle_document_highlight (Some (mkPos 2 10)) (Some ref_project) ∅ (Some ref_doc)).1
    = Some [mkHighlight (mkRange (mkPos 0 5) (mkPos 0 6)) 3;
            mkHighlight (mkRange (mkPos 2 10) (mkPos 2 11)) 2] /\
  exists r, build_document_highlight_json ref_project ∅ (Some [0]) "file:///d.tjp" ref_doc_tokens = r.
Proof.
  split; [vm_compute; reflexivity|].
  destruct (document_highlight_exact ref_project ∅ [0] _ "file:///d.tjp" ref_doc_tokens
              (memo_ok_empty _) eq_refl) as (m' & H & _).
  eexists. exact H.
Defined.
