(* ===== verification/SemTokens.v ===== *)
(** * [semantic_tokens.c]: classification, delta encoding, serialisation.

    The encoder is modelled with the buffer, the counters and the
    previous-position cursor it threads through [emit_token]; a decoder for the
    LSP wire format is the specification it is compared with. *)

From S2P Require Import Prelude Tokens CText Syntax.
Local Open Scope Z_scope.

(** ** Classification *)

Definition SEMTOK_TYPE_KEYWORD : Z := 0.
Definition SEMTOK_TYPE_COMMENT : Z := 1.
Definition SEMTOK_TYPE_STRING : Z := 2.
Definition SEMTOK_TYPE_NUMBER : Z := 3.
Definition SEMTOK_TYPE_VARIABLE : Z := 4.
Definition SEMTOK_TYPE_FUNCTION : Z := 5.

Definition semantic_token_type_names : list string :=
  ["keyword"; "comment"; "string"; "number"; "variable"; "function"]%string.

(** [classify]: the type and the modifiers, [None] when it returns 0. *)
Definition classify (kind : token_kind) : option (Z * Z) :=
  match kind with
  | TK_LBRACE | TK_RBRACE | TK_BANG | TK_DOT | TK_COMMA => None
  | TK_LINE_COMMENT | TK_BLOCK_COMMENT => Some (SEMTOK_TYPE_COMMENT, 0)
  | TK_STR | TK_MULTI_LINE_STR => Some (SEMTOK_TYPE_STRING, 0)
  | TK_DATE | TK_DURATION => Some (SEMTOK_TYPE_NUMBER, 0)
  | TK_IDENT => Some (SEMTOK_TYPE_VARIABLE, 0)
  | KW_PROJECT | KW_TASK | KW_RESOURCE | KW_ACCOUNT | KW_SHIFT =>
      Some (SEMTOK_TYPE_KEYWORD, 0)
  | _ => if (kind_value KW_PROJECT <=? kind_value kind)
            && (kind_value kind <=? kind_value KW_YEARLYWORKINGDAYS)
         then Some (SEMTOK_TYPE_FUNCTION, 0) else None
  end.

(** ** Delta encoding *)

(** The output buffer with [*prev_line] and [*prev_char]. *)
Record sem_state : Set := mkSemState {
  sem_buf : list Z; prev_line : Z; prev_char : Z
}.

Definition push_entry (buf : list Z)
    (delta_line delta_start length token_type modifiers : Z) : list Z :=
  if length =? 0 then buf
  else buf ++ [delta_line; delta_start; length; token_type; modifiers].

Definition push_relative_entry (st : sem_state)
    (line character length token_type modifiers : Z) : sem_state :=
  let delta_line := u32 (line - prev_line st) in
  let delta_start := if delta_line =? 0 then u32 (character - prev_char st) else character in
  mkSemState (push_entry (sem_buf st) delta_line delta_start length token_type modifiers)
    line character.

(** [strchr (p, '\n')]: the characters before the newline, and the text after
    it when there is one. *)
Fixpoint split_nl (p : string) : nat * option string :=
  match p with
  | EmptyString => (0%nat, None)
  | String c p' =>
      if bool_decide (c = "010"%char) then (0%nat, Some p')
      else let '(n, r) := split_nl p' in (S n, r)
  end.

(** The [while (current_line < end_line)] loop, [lines] iterations of it. *)
Fixpoint emit_lines (lines : nat) (st : sem_state) (p : string)
    (current_line current_char token_type modifiers : Z) : sem_state * Z * Z :=
  match lines with
  | O => (st, current_line, current_char)
  | S lines' =>
      let '(n, nl) := split_nl p in
      let seg_len := u32 (Z.of_nat n) in
      let st' := if seg_len >? 0
                 then push_relative_entry st current_line current_char seg_len
                        token_type modifiers
                 else st in
      emit_lines lines' st' (default p nl) (u32 (current_line + 1)) 0 token_type modifiers
  end.

Definition emit_token (st : sem_state) (start_line start_char end_line end_char
    token_type modifiers : Z) (text : option string) : sem_state :=
  if start_line =? end_line
  then push_relative_entry st start_line start_char (u32 (end_char - start_char))
         token_type modifiers
  else
    let '(st', current_line, current_char) :=
      emit_lines (Z.to_nat (end_line - start_line)) st (default EmptyString text)
        start_line start_char token_type modifiers in
    push_relative_entry st' current_line current_char end_char token_type modifiers.

(** One iteration of the loop of [compute_semantic_tokens_data]. *)
Definition sem_step (st : sem_state) (s : TokenSpan) : sem_state :=
  match classify (ts_kind s) with
  | None => st
  | Some (token_type, modifiers) =>
      emit_token st (line (ts_start s)) (character (ts_start s))
        (line (ts_end s)) (character (ts_end s)) token_type modifiers (ts_text s)
  end.

Definition compute_semantic_tokens_data (spans : list TokenSpan) : list Z :=
  sem_buf (foldl sem_step (mkSemState [] 0 0) spans).

(** [num_sem_entries] as the lexer accumulates it for the same spans. *)
Definition lexer_num_sem_entries (spans : list TokenSpan) : Z :=
  (foldl g_push_tok_span ([], 0) spans).2.

(** ** Serialisation *)

(** The body of the serialisation loop: digits, and a comma between entries. *)
Fixpoint write_entries (buf : list Z) : list ascii :=
  match buf with
  | [] => []
  | [v] => write_uint32 v
  | v :: buf' => write_uint32 v ++ ","%char :: write_entries buf'
  end.

(** The bytes [build_uint32_array_json] hands to [yyjson_mut_rawncpy]. *)
Definition build_uint32_array_json (buf : list Z) : list ascii :=
  "["%char :: write_entries buf ++ ["]"%char].

Definition json_cap (count : nat) : nat := 2 + count * 11.

(** ** Requests *)

(** [sem_tokens_result_id] prints the parse version. *)
Definition sem_tokens_result_id (s : doc_snapshot) : list ascii := print_u64 (doc_version s).

(** The data [docsnap_sem_tokens] computes for a snapshot; the write-once memo
    in front of it is modelled in [Snapshots.v]. *)
Definition docsnap_data (s : doc_snapshot) : list Z :=
  compute_semantic_tokens_data (snap_tok_spans s).

(** A SemanticTokens object, or [null]. *)
Definition handle_semantic_tokens_full (d : option doc_snapshot)
  : option (list ascii * list Z) :=
  match d with
  | None => None
  | Some s => Some (sem_tokens_result_id s, docsnap_data s)
  end.

(** ** Specification: decoding the wire format *)

Record sem_entry : Set := mkEntry {
  e_line : Z; e_char : Z; e_len : Z; e_type : Z; e_mods : Z
}.

(** What an LSP client does with the data array. *)
Fixpoint decode (l c : Z) (data : list Z) : list sem_entry :=
  match data with
  | dl :: ds :: len :: ty :: md :: rest =>
      let l' := l + dl in
      let c' := if dl =? 0 then c + ds else ds in
      mkEntry l' c' len ty md :: decode l' c' rest
  | _ => []
  end.

(** The lengths of the lines of a text; the last line's length repeats. *)
Fixpoint line_lengths (n : nat) (p : string) : list Z :=
  match n with
  | O => []
  | S n' => let '(len, nl) := split_nl p in
            Z.of_nat len :: line_lengths n' (default p nl)
  end.

(** One entry per line length, from column [c] of line [l], then column 0. *)
Fixpoint line_pieces (l c : Z) (lens : list Z) (ty md : Z) : list sem_entry :=
  match lens with
  | [] => []
  | len :: lens' => mkEntry l c len ty md :: line_pieces (l + 1) 0 lens' ty md
  end.

(** The highlighted pieces of one span, one per source line it covers. *)
Definition span_entries (s : TokenSpan) : list sem_entry :=
  match classify (ts_kind s) with
  | None => []
  | Some (ty, md) =>
      let l0 := line (ts_start s) in
      let c0 := character (ts_start s) in
      let n := Z.to_nat (line (ts_end s) - l0) in
      if l0 =? line (ts_end s)
      then [mkEntry l0 c0 (character (ts_end s) - c0) ty md]
      else filter (fun e => 0 < e_len e)
             (line_pieces l0 c0 (line_lengths n (default EmptyString (ts_text s))) ty md)
           ++ [mkEntry (line (ts_end s)) 0 (character (ts_end s)) ty md]
  end.

(** What the scanner guarantees of the spans: they are non-empty, do not
    overlap, come in source order, and end after the start of their last line. *)
Definition span_ok (s : TokenSpan) : Prop :=
  pos_wf (ts_start s) /\ pos_wf (ts_end s) /\ pos_lt (ts_start s) (ts_end s) /\
  0 < character (ts_end s) /\
  Z.of_nat (String.length (default EmptyString (ts_text s))) < u32_modulus.

Inductive spans_from : LspPos -> list TokenSpan -> Prop :=
  | spans_from_nil p : spans_from p []
  | spans_from_cons p s spans :
      pos_le p (ts_start s) -> span_ok s -> spans_from (ts_end s) spans ->
      spans_from p (s :: spans).

(** Reading back the serialised array. *)
Fixpoint scan_entries (cs : list ascii) (cur : Z) : option (list Z) :=
  match cs with
  | [] => None
  | c :: cs' =>
      if is_digit c then scan_entries cs' (cur * 10 + digit_val c)
      else if bool_decide (c = ","%char) then cons cur <$> scan_entries cs' 0
      else if bool_decide (c = "]"%char) && bool_decide (cs' = []) then Some [cur]
      else None
  end.

Definition scan_array (cs : list ascii) : option (list Z) :=
  match cs with
  | "["%char :: "]"%char :: [] => Some []
  | "["%char :: cs' => scan_entries cs' 0
  | _ => None
  end.

(** ** The buffer bound *)

Lemma classify_highlighted k : classify k ≠ None -> is_sem_highlighted k = true.
Proof.
  pose proof (forall_kinds
    (fun k => match classify k with None => true | Some _ => is_sem_highlighted k end)
    ltac:(vm_compute; reflexivity) k) as Hk.
  simpl in Hk. by destruct (classify k).
Qed.

Lemma classify_length_5 (st : sem_state) l c len ty md :
  let st' := push_relative_entry st l c len ty md in
  (length (sem_buf st') = length (sem_buf st) \/
   length (sem_buf st') = length (sem_buf st) + 5)%nat.
Proof.
  simpl. unfold push_entry. case_match; [by left|]. right. rewrite length_app. done.
Qed.

(** Every state is reached with at most [n] pushes of five integers. *)
Definition grew (st st' : sem_state) (n : nat) : Prop :=
  exists k, (k <= n)%nat /\ length (sem_buf st') = (length (sem_buf st) + 5 * k)%nat.

Lemma grew_refl st : grew st st 0.
Proof. exists 0%nat. lia. Qed.

Lemma grew_trans st1 st2 st3 n m : grew st1 st2 n -> grew st2 st3 m -> grew st1 st3 (n + m).
Proof. intros (k & ? & ?) (k' & ? & ?). exists (k + k')%nat. lia. Qed.

Lemma grew_le st st' n m : grew st st' n -> (n <= m)%nat -> grew st st' m.
Proof. intros (k & ? & ?) ?. exists k. lia. Qed.

Lemma push_relative_grew st l c len ty md : grew st (push_relative_entry st l c len ty md) 1.
Proof.
  destruct (classify_length_5 st l c len ty md) as [E|E]; [exists 0%nat|exists 1%nat]; rewrite E; lia.
Qed.

Lemma emit_lines_grew n st p cl cc ty md :
  grew st (emit_lines n st p cl cc ty md).1.1 n.
Proof.
  revert st p cl cc. induction n as [|n IH]; intros st p cl cc; simpl; [apply grew_refl|].
  destruct (split_nl p) as [len nl]. eapply (grew_trans _ _ _ 1 n); [|apply IH].
  case_match; [apply push_relative_grew|]. exists 0%nat. lia.
Qed.

Lemma emit_token_grew st sl sc el ec ty md text :
  grew st (emit_token st sl sc el ec ty md text) (S (Z.to_nat (el - sl))).
Proof.
  unfold emit_token. case_match.
  { eapply grew_le; [apply push_relative_grew|lia]. }
  pose proof (emit_lines_grew (Z.to_nat (el - sl)) st (default EmptyString text) sl sc ty md) as Hg.
  destruct (emit_lines _ _ _ _ _ _ _) as [[st' cl] cc]. simpl in Hg.
  rewrite <- Nat.add_1_r. eapply grew_trans; [done|apply push_relative_grew].
Qed.

(** Spans end on or after the line they start on. *)
Definition span_lines_ok (s : TokenSpan) : Prop :=
  0 <= line (ts_end s) - line (ts_start s) < u32_modulus - 1.

Lemma sem_loop_bound spans st acc :
  Forall span_lines_ok spans ->
  let st' := foldl sem_step st spans in
  let acc' := foldl g_push_tok_span acc spans in
  exists k, length (sem_buf st') = (length (sem_buf st) + 5 * k)%nat /\
    Z.of_nat k <= acc'.2 - acc.2.
Proof.
  intros Hs. revert st acc. induction Hs as [|s spans Hs _ IH]; intros st acc; simpl.
  { exists 0%nat. lia. }
  destruct (IH (sem_step st s) (g_push_tok_span acc s)) as (k & -> & Hk).
  assert (Hg : grew st (sem_step st s)
                 (Z.to_nat ((g_push_tok_span acc s).2 - acc.2)) /\
               acc.2 <= (g_push_tok_span acc s).2).
  { unfold sem_step, g_push_tok_span. simpl. unfold span_lines_ok in Hs.
    assert (Hu : u32 (line (ts_end s) - line (ts_start s) + 1)
                 = line (ts_end s) - line (ts_start s) + 1)
      by (apply u32_id; unfold is_u32; lia).
    destruct (classify (ts_kind s)) as [[ty md]|] eqn:E.
    - rewrite classify_highlighted by (by rewrite E). simpl. rewrite Hu. split; [|lia].
      eapply grew_le; [apply emit_token_grew|]. lia.
    - split; [exists 0%nat; lia|]. case_match; simpl; lia. }
  destruct Hg as [(j & Hj & E) Hacc]. exists (j + k)%nat. rewrite E. lia.
Qed.

(** ** The encoding decodes to the spans' pieces *)

(** The buffer decodes to [es] and leaves a decoder at the cursor. *)
Definition encodes (st : sem_state) (es : list sem_entry) : Prop :=
  forall rest, decode 0 0 (sem_buf st ++ rest)
               = es ++ decode (prev_line st) (prev_char st) rest.

Definition cursor (st : sem_state) : LspPos := mkPos (prev_line st) (prev_char st).

Lemma push_relative_encodes st es l c len ty md :
  encodes st es -> pos_wf (cursor st) -> pos_wf (mkPos l c) ->
  pos_le (cursor st) (mkPos l c) -> 0 < len ->
  encodes (push_relative_entry st l c len ty md) (es ++ [mkEntry l c len ty md]).
Proof.
  unfold cursor. intros He [Hpl Hpc] [Hl Hc] Hle Hlen rest. simpl in *.
  unfold push_entry. destruct (Z.eqb_spec len 0); [lia|].
  rewrite <- !app_assoc, He. simpl. f_equal. unfold pos_le in Hle. simpl in Hle.
  rewrite (u32_id (l - prev_line st)) by (unfold is_u32 in *; lia).
  replace (prev_line st + (l - prev_line st)) with l by lia.
  destruct (Z.eqb_spec (l - prev_line st) 0) as [E|E]; [|done].
  rewrite u32_id by (unfold is_u32 in *; lia).
  by replace (prev_char st + (c - prev_char st)) with c by lia.
Qed.

Lemma split_nl_length p :
  (fst (split_nl p) + String.length (default EmptyString (snd (split_nl p)))
   <= String.length p)%nat /\
  (String.length (default p (snd (split_nl p))) <= String.length p)%nat.
Proof.
  induction p as [|ch p [IH1 IH2]]; [done|]. simpl. case_match; simpl; [lia|].
  destruct (split_nl p) as [n [r|]]; simpl in *; lia.
Qed.

Lemma emit_lines_encodes n st es p cl cc ty md :
  encodes st es -> pos_wf (cursor st) -> pos_wf (mkPos cl cc) ->
  pos_le (cursor st) (mkPos cl cc) -> cl + Z.of_nat n < u32_modulus ->
  Z.of_nat (String.length p) < u32_modulus ->
  let '(st', cl', cc') := emit_lines n st p cl cc ty md in
  encodes st' (es ++ filter (fun e => 0 < e_len e) (line_pieces cl cc (line_lengths n p) ty md)) /\
  pos_wf (cursor st') /\ pos_le (cursor st') (mkPos cl' cc') /\
  cl' = cl + Z.of_nat n /\ cc' = (if (n =? 0)%nat then cc else 0).
Proof.
  revert st es p cl cc. induction n as [|n IH]; intros st es p cl cc He Hw Hw' Hle Hb Hp.
  { simpl. rewrite app_nil_r. split_and!; try done. lia. }
  cbn [emit_lines line_lengths]. destruct (split_nl_length p) as [Hn Hr].
  destruct (split_nl p) as [len nl]. cbn [fst snd] in Hn, Hr. cbn [line_pieces].
  destruct Hw' as [Hwl Hwc]. cbn [line character] in Hwl, Hwc.
  assert (Hl : u32 (Z.of_nat len) = Z.of_nat len) by (apply u32_id; unfold is_u32; lia).
  assert (Hc1 : u32 (cl + 1) = cl + 1) by (apply u32_id; unfold is_u32 in *; lia).
  rewrite Hl, Hc1.
  assert (Hwn : pos_wf (mkPos (cl + 1) 0)) by (unfold pos_wf, is_u32 in *; simpl; lia).
  destruct (Z.gtb_spec (Z.of_nat len) 0) as [Hlen|Hlen].
  - specialize (IH (push_relative_entry st cl cc (Z.of_nat len) ty md)
                  (es ++ [mkEntry cl cc (Z.of_nat len) ty md]) (default p nl) (cl + 1) 0).
    destruct (emit_lines n _ _ _ _ _ _) as [[st' cl'] cc'].
    rewrite filter_cons_True by (simpl; lia). rewrite cons_middle, app_assoc.
    destruct IH as (? & ? & ? & -> & ->).
    + apply push_relative_encodes; [done..|lia].
    + done.
    + done.
    + unfold cursor. simpl. left. simpl. lia.
    + lia.
    + lia.
    + split_and!; [done..|lia|]. by destruct (n =? 0)%nat.
  - specialize (IH st es (default p nl) (cl + 1) 0).
    destruct (emit_lines n _ _ _ _ _ _) as [[st' cl'] cc'].
    rewrite filter_cons_False by (simpl; lia).
    destruct IH as (? & ? & ? & -> & ->); [done..| |lia|lia|].
    + unfold pos_le in *. simpl in *. lia.
    + split_and!; [done..|lia|]. by destruct (n =? 0)%nat.
Qed.

Lemma sem_step_encodes st es s :
  encodes st es -> pos_wf (cursor st) -> pos_le (cursor st) (ts_start s) -> span_ok s ->
  encodes (sem_step st s) (es ++ span_entries s) /\
  pos_wf (cursor (sem_step st s)) /\ pos_le (cursor (sem_step st s)) (ts_end s).
Proof.
  intros He Hw Hle (Hws & Hwe & Hlt & Hec & Htx). unfold sem_step, span_entries.
  destruct (classify (ts_kind s)) as [[ty md]|].
  2:{ rewrite app_nil_r. split_and!; [done..|]. etransitivity; [done|]. by apply pos_lt_le. }
  unfold emit_token. destruct (ts_start s) as [sl sc], (ts_end s) as [el ec]. simpl in *.
  destruct (Z.eqb_spec sl el) as [->|Hne].
  - destruct Hlt as [|[_ Hlt]]; [simpl in *; lia|]. simpl in Hlt.
    destruct Hws as [Hsl Hsc], Hwe as [Hel Hecw]. simpl in *.
    rewrite u32_id by (unfold is_u32 in *; lia). split_and!.
    + apply push_relative_encodes; [done..|lia].
    + done.
    + right. simpl. lia.
  - destruct Hlt as [Hlt|[? _]]; [|done]. simpl in Hlt.
    pose proof (emit_lines_encodes (Z.to_nat (el - sl)) st es (default EmptyString (ts_text s))
                  sl sc ty md He Hw Hws Hle) as Hel.
    destruct (emit_lines _ _ _ _ _ _ _) as [[st' cl'] cc'].
    destruct Hel as (He' & Hw' & Hle' & -> & ->).
    { destruct Hwe as [Hel _]. unfold is_u32 in Hel. simpl in Hel. lia. }
    { done. }
    assert (Z.to_nat (el - sl) ≠ 0%nat) by lia.
    destruct (Nat.eqb_spec (Z.to_nat (el - sl)) 0); [done|].
    replace (sl + Z.of_nat (Z.to_nat (el - sl))) with el in * by lia.
    rewrite app_assoc. split_and!.
    + apply push_relative_encodes; [done|done| |done|lia].
      destruct Hwe. split; [done|]. done.
    + destruct Hwe. split; done.
    + right. simpl. lia.
Qed.

Lemma sem_loop_encodes p spans st es :
  spans_from p spans -> encodes st es -> pos_wf (cursor st) -> pos_le (cursor st) p ->
  encodes (foldl sem_step st spans) (es ++ concat (span_entries <$> spans)).
Proof.
  intros Hs. revert st es. induction Hs as [p|p s spans Hp Hok _ IH]; intros st es He Hw Hle; simpl.
  { by rewrite app_nil_r. }
  rewrite app_assoc.
  destruct (sem_step_encodes st es s) as (? & ? & ?); [done..|by etransitivity|done|].
  by apply IH.
Qed.

(** ** Serialisation facts *)

Lemma scan_digits ds rest cur :
  Forall (fun c => is_digit c = true) ds ->
  scan_entries (ds ++ rest) cur = scan_entries rest (dec_value cur ds).
Proof.
  intros Hd. revert cur. induction Hd as [|c ds Hc _ IH]; intros cur; [done|].
  simpl. by rewrite Hc, IH.
Qed.

Lemma scan_uint32 v rest :
  is_u32 v -> scan_entries (write_uint32 v ++ rest) 0 = scan_entries rest v.
Proof.
  intros Hv. rewrite scan_digits by apply write_decimal_digits.
  unfold write_uint32. rewrite write_decimal_value; [done|].
  unfold is_u32, u32_modulus in Hv. simpl. lia.
Qed.

Lemma scan_write_entries v buf :
  Forall is_u32 (v :: buf) ->
  scan_entries (write_entries (v :: buf) ++ ["]"%char]) 0 = Some (v :: buf).
Proof.
  revert v. induction buf as [|w buf IH]; intros v Hv; apply Forall_cons in Hv as [Hv Hb].
  - simpl. by rewrite scan_uint32.
  - change (write_entries (v :: w :: buf))
      with (write_uint32 v ++ ","%char :: write_entries (w :: buf)).
    rewrite <- app_assoc, scan_uint32 by done. cbn -[write_entries]. by rewrite IH.
Qed.

Lemma length_write_entries buf : (length (write_entries buf) <= length buf * 11)%nat.
Proof.
  induction buf as [|v [|w buf] IH]; [done| |].
  - pose proof (length_write_decimal 10 v ltac:(lia)). simpl in *. unfold write_uint32. lia.
  - pose proof (length_write_decimal 10 v ltac:(lia)).
    change (write_entries (v :: w :: buf))
      with (write_uint32 v ++ ","%char :: write_entries (w :: buf)).
    rewrite length_app. cbn [length] in *. unfold write_uint32. lia.
Qed.

Lemma write_entries_head v buf :
  is_u32 v -> exists c tl, write_entries (v :: buf) = c :: tl /\ is_digit c = true.
Proof.
  intros Hv. pose proof (write_decimal_digits 10 v) as Hd.
  pose proof (write_decimal_nonempty 10 v ltac:(lia) ltac:(unfold is_u32 in Hv; lia)) as Hne.
  fold (write_uint32 v) in Hd, Hne.
  destruct buf; cbn [write_entries]; destruct (write_uint32 v) as [|c ds]; try done;
    apply Forall_cons in Hd as [Hc _]; simpl; eauto.
Qed.

(** ** Properties *)

(** The buffer [compute_semantic_tokens_data] allocates is large enough:
    for any spans that do not end before the line they start on, the number of
    integers written is at most five times the entry count that
    [g_push_tok_span] accumulated while the same spans were lexed, and it is a
    multiple of five. *)
Theorem sem_tokens_buffer_bound spans :
  Forall span_lines_ok spans ->
  Z.of_nat (length (compute_semantic_tokens_data spans)) <= 5 * lexer_num_sem_entries spans /\
  (length (compute_semantic_tokens_data spans) mod 5 = 0)%nat.
Proof.
  intros Hs. destruct (sem_loop_bound spans (mkSemState [] 0 0) ([], 0) Hs) as (k & Hk & Hb).
  unfold compute_semantic_tokens_data, lexer_num_sem_entries. rewrite Hk.
  cbn [sem_buf snd length] in *. rewrite Nat.add_0_l, (Nat.mul_comm 5 k).
  split; [lia|]. apply Nat.Div0.mod_mul.
Qed.

Definition sample_spans : list TokenSpan :=
  [ mkSpan KW_TASK (mkPos 1 0) (mkPos 1 4) (Some "task"%string);
    mkSpan TK_IDENT (mkPos 1 5) (mkPos 1 7) (Some "t1"%string);
    mkSpan TK_LBRACE (mkPos 1 8) (mkPos 1 9) None;
    mkSpan TK_BLOCK_COMMENT (mkPos 2 2) (mkPos 4 5)
      (Some (String.append "/* one" (String "010"
              (String "010" "  */"))))%string ].

Lemma sem_tokens_buffer_bound_witness :
  Z.of_nat (length (compute_semantic_tokens_data sample_spans))
    <= 5 * lexer_num_sem_entries sample_spans /\
  lexer_num_sem_entries sample_spans = 5.
Proof.
  split; [|vm_compute; reflexivity].
  apply (sem_tokens_buffer_bound sample_spans).
  repeat constructor; vm_compute; congruence.
Defined.

(** The delta encoding is a faithful wire format: for non-empty,
    non-overlapping spans in source order, a client that decodes the data
    array with plain additions recovers exactly the highlighted pieces of the
    spans, one per non-empty source line, with their positions, lengths and
    types. *)
Theorem sem_tokens_decode spans :
  spans_from zero_pos spans ->
  decode 0 0 (compute_semantic_tokens_data spans) = concat (span_entries <$> spans).
Proof.
  intros Hs.
  assert (Hst : encodes (mkSemState [] 0 0) []) by (intros rest; done).
  pose proof (sem_loop_encodes zero_pos spans _ [] Hs Hst) as He.
  unfold compute_semantic_tokens_data.
  rewrite <- (app_nil_r (sem_buf _)), He, app_nil_r; [done|by vm_compute|reflexivity].
Qed.

Lemma sem_tokens_decode_witness :
  decode 0 0 (compute_semantic_tokens_data sample_spans)
    = [ mkEntry 1 0 4 0 0; mkEntry 1 5 2 4 0; mkEntry 2 2 6 1 0; mkEntry 4 0 5 1 0 ] /\
  decode 0 0 (compute_semantic_tokens_data sample_spans)
    = concat (span_entries <$> sample_spans).
Proof.
  split; [vm_compute; reflexivity|]. apply (sem_tokens_decode sample_spans).
  repeat (constructor; [apply (bool_decide_unpack _); vm_compute; exact I
                       |repeat split; try (vm_compute; congruence);
                        apply (bool_decide_unpack _); vm_compute; exact I|]).
  constructor.
Defined.

(** The fast serialisation of integer arrays round-trips: for [uint32]
    entries the bytes written fit the allocated [2 + count * 11], and a JSON
    array reader gets the entries back. *)
Theorem uint32_array_roundtrip buf :
  Forall is_u32 buf ->
  scan_array (build_uint32_array_json buf) = Some buf /\
  (length (build_uint32_array_json buf) <= json_cap (length buf))%nat.
Proof.
  intros Hb. split.
  - unfold build_uint32_array_json. destruct buf as [|v buf]; [done|].
    pose proof (scan_write_entries v buf Hb) as Hs. apply Forall_cons in Hb as [Hv _].
    destruct (write_entries_head v buf Hv) as (c & tl & Hw & Hc).
    rewrite Hw in *. simpl app in *. unfold scan_array.
    destruct c as [[] [] [] [] [] [] [] []]; try (by vm_compute in Hc); exact Hs.
  - unfold build_uint32_array_json, json_cap. simpl. rewrite length_app. simpl.
    pose proof (length_write_entries buf). lia.
Qed.

Lemma uint32_array_roundtrip_witness :
  build_uint32_array_json [0; 4294967295; 12] = list_ascii_of_string "[0,4294967295,12]" /\
  scan_array (build_uint32_array_json [0; 4294967295; 12]) = Some [0; 4294967295; 12].
Proof.
  split; [vm_compute; reflexivity|].
  apply (uint32_array_roundtrip [0; 4294967295; 12]).
  repeat constructor; vm_compute; congruence.
Defined.
