(* ===== verification/SemDelta.v ===== *)
(** * [semantic_tokens_delta.c]: the Myers diff behind semantic-token deltas.

    The old and the new data arrays are flat [uint32] buffers read in
    five-integer tuples.  [myers_diff_run] is modelled with its in-place [v]
    array, its triangular snapshot store and its backtrace; the theorems show
    that the emitted edits, applied the way the protocol says, turn the old
    array into the new one, and that the [ops] allocation is large enough. *)

From S2P Require Import Prelude CText Syntax SemTokens.
Local Open Scope Z_scope.

Definition TUPLE_LEN : nat := 5.
Definition D_BOUND : nat := 1024.

Record EditOp : Set := mkEditOp {
  start_tok : nat;
  delete_tok : nat;
  insert_b_start : nat;
  insert_tok : nat
}.

(** [raw_kinds] entries: 0 = snake, 1 = delete from a, 2 = insert from b. *)
Inductive raw_kind : Set := Snake | Delete | Insert.

#[global] Instance raw_kind_eq_dec : EqDecision raw_kind.
Proof. solve_decision. Defined.

(** ** Coalescing *)

(** The inner loop of [coalesce_edit_ops]: the deletes and inserts up to the
    next snake, and the steps that remain. *)
Fixpoint edit_run (steps : list raw_kind) (del ins : nat) : nat * nat * list raw_kind :=
  match steps with
  | Delete :: steps' => edit_run steps' (S del) ins
  | Insert :: steps' => edit_run steps' del (S ins)
  | _ => (del, ins, steps)
  end.

(** [coalesce_edit_ops] on the steps in chronological order; [fuel] bounds the
    outer loop, which consumes at least one step per iteration. *)
Fixpoint coalesce_loop (fuel : nat) (steps : list raw_kind)
    (a_offset b_offset cur_x cur_y : nat) : list EditOp :=
  match fuel with
  | O => []
  | S fuel' =>
      match steps with
      | [] => []
      | Snake :: steps' =>
          coalesce_loop fuel' steps' a_offset b_offset (S cur_x) (S cur_y)
      | _ =>
          let '(del, ins, rest) := edit_run steps 0 0 in
          mkEditOp (a_offset + cur_x) del (b_offset + cur_y) ins
            :: coalesce_loop fuel' rest a_offset b_offset (cur_x + del) (cur_y + ins)
      end
  end.

Definition coalesce_edit_ops (raw_kinds : list raw_kind) (a_offset b_offset : nat)
  : list EditOp :=
  coalesce_loop (S (length raw_kinds)) (reverse raw_kinds) a_offset b_offset 0 0.

(** ** The diff *)

Section Myers.
Context {T : Type} `{EqDecision T}.
Variables a b : list T.

Let na := Z.of_nat (length a).
Let nb := Z.of_nat (length b).

Definition tokens_equal (x y : Z) : bool :=
  match a !! Z.to_nat x, b !! Z.to_nat y with
  | Some s, Some t => bool_decide (s = t)
  | _, _ => false
  end.

(** The snake loop; [length a] iterations are enough, since each one
    advances [x] and stops at [na]. *)
Fixpoint slide (fuel : nat) (x y : Z) : Z * Z :=
  match fuel with
  | O => (x, y)
  | S fuel' =>
      if (x <? na) && (y <? nb) && tokens_equal x y
      then slide fuel' (x + 1) (y + 1) else (x, y)
  end.

(** The choice between moving down (an insertion) and right (a deletion). *)
Definition go_down (d k vkm1 vkp1 : Z) : bool :=
  (k =? -d) || (negb (k =? d) && (vkm1 <? vkp1)).

(** The [k] loop of one [d]: the updated [v], or the end point found. *)
Fixpoint k_loop (max_total d : Z) (ks : list Z) (v : list Z) : list Z + (Z * Z) :=
  match ks with
  | [] => inl v
  | k :: ks' =>
      let vkm1 := aget v (k - 1 + max_total) in
      let vkp1 := aget v (k + 1 + max_total) in
      let x0 := if go_down d k vkm1 vkp1 then vkp1 else vkm1 + 1 in
      let '(x, y) := slide (length a) x0 (x0 - k) in
      let v' := aset v (k + max_total) x in
      if (na <=? x) && (nb <=? y) then inr (x, y) else k_loop max_total d ks' v'
  end.

Definition diagonals (d : nat) : list Z :=
  (fun i => - Z.of_nat d + 2 * Z.of_nat i) <$> seq 0 (S d).

Definition snap_off (d : nat) : Z := Z.of_nat d * (Z.of_nat d + 1) / 2.

(** Copy level [d] of [v] into the snapshot store. *)
Definition snapshot_level (max_total : Z) (d : nat) (v snap : list Z) : list Z :=
  foldl (fun sn i =>
           aset sn (snap_off d + Z.of_nat i)
             (aget v (- Z.of_nat d + 2 * Z.of_nat i + max_total)))
    snap (seq 0 (S d)).

(** The [d] loop: [Some (d_found, x_final, y_final)] and the snapshots. *)
Fixpoint d_loop (max_total : Z) (ds : list nat) (v snap : list Z)
  : option (nat * Z * Z) * list Z :=
  match ds with
  | [] => (None, snap)
  | d :: ds' =>
      match k_loop max_total (Z.of_nat d) (diagonals d) v with
      | inr (x, y) => (Some (d, x, y), snap)
      | inl v' => d_loop max_total ds' v' (snapshot_level max_total d v' snap)
      end
  end.

(** The backward snake of the backtrace: records a 0 per step. *)
Fixpoint unslide (fuel : nat) (x y x_edge y_edge : Z) (raw : list raw_kind)
  : Z * Z * list raw_kind :=
  match fuel with
  | O => (x, y, raw)
  | S fuel' =>
      if (x >? x_edge) && (y >? y_edge)
      then unslide fuel' (x - 1) (y - 1) x_edge y_edge (raw ++ [Snake])
      else (x, y, raw)
  end.

(** The backtrace loop for [d = d_found] down to 1. *)
Fixpoint backtrace (d : nat) (snap : list Z) (x y : Z) (raw : list raw_kind)
  : list raw_kind :=
  match d with
  | O => (unslide (length a) x y 0 0 raw).2
  | S d' =>
      let dz := Z.of_nat d in
      let k := x - y in
      let off := snap_off d' in
      let at_k (kk : Z) := aget snap (off + (kk + (dz - 1)) / 2) in
      let down := go_down dz k (at_k (k - 1)) (at_k (k + 1)) in
      let k_prev := if down then k + 1 else k - 1 in
      let x_prev := at_k k_prev in
      let y_prev := x_prev - k_prev in
      let x_edge := if down then x_prev else x_prev + 1 in
      let y_edge := if down then y_prev + 1 else y_prev in
      let '(x1, y1, raw1) := unslide (length a) x y x_edge y_edge raw in
      if down then backtrace d' snap x1 (y1 - 1) (raw1 ++ [Insert])
      else backtrace d' snap (x1 - 1) y1 (raw1 ++ [Delete])
  end.

Definition myers_diff_run (a_offset b_offset : nat) : list EditOp :=
  if (length a =? 0)%nat && (length b =? 0)%nat then []
  else if (length a =? 0)%nat || (length b =? 0)%nat
          || (D_BOUND <? length a + length b)%nat
  then [mkEditOp a_offset (length a) b_offset (length b)]
  else
    let max_total_i := na + nb in
    let v := replicate (2 * (length a + length b) + 1) 0 in
    let snap := replicate (Z.to_nat (max_total_i * (max_total_i + 1) / 2)) 0 in
    match d_loop max_total_i (seq 0 (S (length a + length b))) v snap with
    | (Some (d_found, x_final, y_final), snap') =>
        if (d_found =? 0)%nat then []
        else coalesce_edit_ops (backtrace d_found snap' x_final y_final [])
               a_offset b_offset
    | (None, _) => []
    end.
End Myers.

(** ** The response *)

(** One SemanticTokensEdit: offsets in integers, data only when inserting. *)
Record SemEdit : Set := mkSemEdit {
  se_start : nat;
  se_deleteCount : nat;
  se_data : option (list Z)
}.

(** [build_edit_json]. *)
Definition build_edit (op : EditOp) (new_buf : list Z) : SemEdit :=
  mkSemEdit (start_tok op * TUPLE_LEN) (delete_tok op * TUPLE_LEN)
    (if (0 <? insert_tok op)%nat
     then Some (take (insert_tok op * TUPLE_LEN)
                  (drop (insert_b_start op * TUPLE_LEN) new_buf))
     else None).

(** The tuples of a flat buffer: [count / TUPLE_LEN] of them. *)
Fixpoint tuples (buf : list Z) : list (list Z) :=
  match buf with
  | v1 :: v2 :: v3 :: v4 :: v5 :: rest => [v1; v2; v3; v4; v5] :: tuples rest
  | _ => []
  end.

(** Length of the common prefix: the first trimming loop. *)
Fixpoint common_prefix {T} `{EqDecision T} (l1 l2 : list T) : nat :=
  match l1, l2 with
  | x :: l1', y :: l2' => if decide (x = y) then S (common_prefix l1' l2') else 0
  | _, _ => 0
  end.

(** The second trimming loop compares from the ends and may not run into the
    prefix: both counters stop at the shorter remainder. *)
Definition common_suffix {T} `{EqDecision T} (prefix : nat) (l1 l2 : list T) : nat :=
  common_prefix (reverse (drop prefix l1)) (reverse (drop prefix l2)).

Record SemDeltaResult : Set := mkSemDelta {
  sd_resultId : option (list ascii);
  sd_edits : list SemEdit
}.

Definition build_semantic_tokens_delta_json (prev_buf new_buf : list Z)
    (result_id : option (list ascii)) : SemDeltaResult :=
  let prev_tok := tuples prev_buf in
  let new_tok := tuples new_buf in
  let prefix := common_prefix prev_tok new_tok in
  let suffix := common_suffix prefix prev_tok new_tok in
  let a := take (length prev_tok - prefix - suffix) (drop prefix prev_tok) in
  let b := take (length new_tok - prefix - suffix) (drop prefix new_tok) in
  let ops := myers_diff_run a b prefix prefix in
  mkSemDelta result_id ((fun op => build_edit op new_buf) <$> ops).

(** The result of [handle_semantic_tokens_full_delta]. *)
Inductive sem_answer : Set :=
  | AnswerNull
  | AnswerFull (result_id : list ascii) (data : list Z)
  | AnswerDelta (delta : SemDeltaResult).

(** The snapshot the client's result id names: the current parse or the
    retained previous one. *)
Definition delta_base (previous_result_id : option (list ascii)) (d : doc_snapshot)
    (prev_snap : option doc_snapshot) : option doc_snapshot :=
  match previous_result_id with
  | None => None
  | Some rid =>
      let prev_version := strtoull rid in
      if prev_version =? doc_version d then Some d
      else match prev_snap with
           | Some p => if prev_version =? doc_version p then Some p else None
           | None => None
           end
  end.

Definition handle_semantic_tokens_full_delta (previous_result_id : option (list ascii))
    (prev_snap d : option doc_snapshot) : sem_answer :=
  match d with
  | None => AnswerNull
  | Some s =>
      match delta_base previous_result_id s prev_snap with
      | Some base =>
          AnswerDelta (build_semantic_tokens_delta_json (docsnap_data base) (docsnap_data s)
                         (Some (sem_tokens_result_id s)))
      | None => AnswerFull (sem_tokens_result_id s) (docsnap_data s)
      end
  end.

(** ** What a client does with a delta *)

(** All offsets of an edit list refer to the previous array, so the edits are
    applied from the last to the first. *)
Definition apply_edit {A} (buf : list A) (start del : nat) (ins : list A) : list A :=
  take start buf ++ ins ++ drop (start + del) buf.

Definition apply_edits (buf : list Z) (edits : list SemEdit) : list Z :=
  foldr (fun e acc => apply_edit acc (se_start e) (se_deleteCount e)
                        (default [] (se_data e))) buf edits.

(** ** Correctness of the diff *)

(** [script steps l1 l2]: the steps, in chronological order, rewrite [l1] into
    [l2]; a snake step keeps an equal element. *)
Inductive script {T} : list raw_kind -> list T -> list T -> Prop :=
  | script_nil : script [] [] []
  | script_snake s t l1 l2 : script s l1 l2 -> script (Snake :: s) (t :: l1) (t :: l2)
  | script_delete s t l1 l2 : script s l1 l2 -> script (Delete :: s) (t :: l1) l2
  | script_insert s t l1 l2 : script s l1 l2 -> script (Insert :: s) l1 (t :: l2).

(** The number of deletions and insertions in a list of steps. *)
Fixpoint edit_count (steps : list raw_kind) : nat :=
  match steps with
  | [] => 0
  | Snake :: steps' => edit_count steps'
  | _ :: steps' => S (edit_count steps')
  end.

Lemma edit_count_app s1 s2 : edit_count (s1 ++ s2) = (edit_count s1 + edit_count s2)%nat.
Proof. induction s1 as [|[] s1 IH]; simpl; congruence. Qed.

Lemma edit_count_reverse s : edit_count (reverse s) = edit_count s.
Proof.
  induction s as [|k s IH]; [done|].
  rewrite reverse_cons, edit_count_app, IH. destruct k; simpl; lia.
Qed.

Lemma edit_count_snakes n : edit_count (replicate n Snake) = 0%nat.
Proof. by induction n. Qed.

(** The number of tokens a list of ops deletes and inserts. *)
Fixpoint ops_cost (ops : list EditOp) : nat :=
  match ops with
  | [] => 0
  | op :: ops' => delete_tok op + insert_tok op + ops_cost ops'
  end.

Lemma edit_run_count steps del ins :
  let '(d, i, rest) := edit_run steps del ins in
  (d + i + edit_count rest = del + ins + edit_count steps /\
   d + i + length rest = del + ins + length steps)%nat.
Proof.
  revert del ins. induction steps as [|[] steps IH]; intros del ins; simpl; [lia|lia| |].
  - specialize (IH (S del) ins). destruct (edit_run steps (S del) ins) as [[??]?]. lia.
  - specialize (IH del (S ins)). destruct (edit_run steps del (S ins)) as [[??]?]. lia.
Qed.

Lemma edit_run_le steps del ins :
  let '(d, i, rest) := edit_run steps del ins in (del <= d /\ ins <= i)%nat.
Proof.
  revert del ins. induction steps as [|[] steps IH]; intros del ins; simpl; [lia|lia| |].
  - specialize (IH (S del) ins). destruct (edit_run steps (S del) ins) as [[??]?]. lia.
  - specialize (IH del (S ins)). destruct (edit_run steps del (S ins)) as [[??]?]. lia.
Qed.

(** Coalescing neither loses nor adds an edit, and opens at most one op per
    edit. *)
Lemma coalesce_loop_cost fuel steps ao bo cx cy :
  (length steps < fuel)%nat ->
  ops_cost (coalesce_loop fuel steps ao bo cx cy) = edit_count steps /\
  (length (coalesce_loop fuel steps ao bo cx cy) <= edit_count steps)%nat.
Proof.
  revert steps cx cy. induction fuel as [|fuel IH]; [lia|].
  intros [|[] steps] cx cy Hl; [done| | |]; simpl in Hl; cbn [coalesce_loop edit_count].
  - apply IH. lia.
  - cbn [edit_run]. pose proof (edit_run_count steps 1 0) as Hc.
    pose proof (edit_run_le steps 1 0) as Hle.
    destruct (edit_run steps 1 0) as [[d i] rest].
    destruct (IH rest (cx + d)%nat (cy + i)%nat) as [IH1 IH2]; [lia|].
    cbn [ops_cost delete_tok insert_tok length]. lia.
  - cbn [edit_run]. pose proof (edit_run_count steps 0 1) as Hc.
    pose proof (edit_run_le steps 0 1) as Hle.
    destruct (edit_run steps 0 1) as [[d i] rest].
    destruct (IH rest (cx + d)%nat (cy + i)%nat) as [IH1 IH2]; [lia|].
    cbn [ops_cost delete_tok insert_tok length]. lia.
Qed.

(** Applying the ops of a diff, in token units. *)
Definition apply_ops {T} (new : list T) (ops : list EditOp) (old : list T) : list T :=
  foldr (fun op acc => apply_edit acc (start_tok op) (delete_tok op)
                         (take (insert_tok op) (drop (insert_b_start op) new)))
    old ops.

Section MyersProofs.
Context {T : Type} `{EqDecision T}.
Variables a b : list T.

Abbreviation na := (Z.of_nat (length a)).
Abbreviation nb := (Z.of_nat (length b)).
Abbreviation slide' := (slide a b (length a)).

(** *** The snake *)

(** All elements on the diagonal between the two points match. *)
Definition matches (x y n : Z) : Prop :=
  forall i, 0 <= i < n -> exists t,
    a !! Z.to_nat (x + i) = Some t /\ b !! Z.to_nat (y + i) = Some t.

Lemma slide_spec fuel x y :
  0 <= x -> 0 <= y -> exists n, 0 <= n /\ slide a b fuel x y = (x + n, y + n) /\
    matches x y n /\ (n = 0 \/ x + n <= na /\ y + n <= nb).
Proof.
  revert x y. induction fuel as [|fuel IH]; intros x y Hx Hy; simpl.
  { exists 0. rewrite !Z.add_0_r. split_and!; [lia|done|intros ? ?; lia|by left]. }
  destruct ((x <? na) && (y <? nb) && tokens_equal a b x y) eqn:E.
  2:{ exists 0. rewrite !Z.add_0_r. split_and!; [lia|done|intros ? ?; lia|by left]. }
  apply andb_true_iff in E as [[Hxn Hyn]%andb_true_iff Heq].
  apply Z.ltb_lt in Hxn, Hyn.
  unfold tokens_equal in Heq.
  destruct (a !! Z.to_nat x) as [s|] eqn:Ea; [|done].
  destruct (b !! Z.to_nat y) as [t|] eqn:Eb; [|done].
  apply bool_decide_eq_true in Heq as <-.
  destruct (IH (x + 1) (y + 1) ltac:(lia) ltac:(lia)) as (n & Hn & -> & Hm & Hb).
  exists (n + 1). split_and!; [lia|f_equal; lia| |right; lia].
  intros i Hi. destruct (decide (i = 0)) as [->|Hi0].
  - exists s. by rewrite !Z.add_0_r.
  - destruct (Hm (i - 1) ltac:(lia)) as (u & Hua & Hub).
    exists u. by replace (x + i) with (x + 1 + (i - 1)) by lia;
      replace (y + i) with (y + 1 + (i - 1)) by lia.
Qed.

(** *** Furthest points, as a function of the level and the diagonal *)

Definition edge_of (prev : Z -> Z) (d : nat) (k : Z) : Z :=
  if go_down (Z.of_nat d) k (prev (k - 1)) (prev (k + 1))
  then prev (k + 1) else prev (k - 1) + 1.

(** Level 0 starts from the calloc'ed zeros. *)
Fixpoint V (d : nat) : Z -> Z :=
  match d with
  | O => fun k => (slide' 0 (0 - k)).1
  | S d' => fun k => let x0 := edge_of (V d') d k in (slide' x0 (x0 - k)).1
  end.

Definition diag_ok (d : nat) (k : Z) : Prop :=
  exists i, 0 <= i <= Z.of_nat d /\ k = - Z.of_nat d + 2 * i.

Lemma diag_ok_bounds d k : diag_ok d k -> - Z.of_nat d <= k <= Z.of_nat d.
Proof. intros (i & Hi & ->). lia. Qed.

Lemma diag_ok_0 k : diag_ok 0 k -> k = 0.
Proof. intros (i & ? & ->). lia. Qed.

Lemma diag_ok_up d k : diag_ok (S d) k -> k ≠ Z.of_nat (S d) -> diag_ok d (k + 1).
Proof. intros (i & Hi & ->) Hk. exists i. lia. Qed.

Lemma diag_ok_down d k : diag_ok (S d) k -> k ≠ - Z.of_nat (S d) -> diag_ok d (k - 1).
Proof. intros (i & Hi & ->) Hk. exists (i - 1). lia. Qed.

Lemma diag_ok_succ d k : diag_ok d k -> diag_ok (S d) (k + 1) /\ diag_ok (S d) (k - 1).
Proof. intros (i & Hi & ->). split; [exists (i + 1)|exists i]; lia. Qed.

Lemma go_down_cases d k u w :
  diag_ok (S d) k ->
  go_down (Z.of_nat (S d)) k u w = true /\ k ≠ Z.of_nat (S d) \/
  go_down (Z.of_nat (S d)) k u w = false /\ k ≠ - Z.of_nat (S d).
Proof.
  intros Hk%diag_ok_bounds. unfold go_down.
  destruct (Z.eqb_spec k (- Z.of_nat (S d))); simpl; [left; split; [done|lia]|].
  destruct (Z.eqb_spec k (Z.of_nat (S d))); simpl; [right; done|].
  destruct (u <? w); [left|right]; done.
Qed.

Lemma V_0 : exists n, 0 <= n /\ V 0 0 = n /\ matches 0 0 n /\ n <= na /\ n <= nb.
Proof.
  destruct (slide_spec (length a) 0 0) as (n & Hn & He & Hm & Hb); [lia..|].
  exists n. unfold V. rewrite Z.sub_0_r, He. simpl. split_and!; [lia|lia|done|lia..].
Qed.

(** Furthest points stay in the quadrant. *)
Lemma V_nonneg d k : diag_ok d k -> 0 <= V d k /\ k <= V d k.
Proof.
  revert k. induction d as [|d IH]; intros k Hk.
  - apply diag_ok_0 in Hk as ->. destruct V_0 as (n & ? & -> & _). lia.
  - simpl. assert (0 <= edge_of (V d) (S d) k /\ k <= edge_of (V d) (S d) k) as [H1 H2].
    { unfold edge_of.
      destruct (go_down_cases d k (V d (k-1)) (V d (k+1)) Hk) as [[-> Hne]|[-> Hne]].
      - destruct (IH (k + 1)); [by apply diag_ok_up|lia].
      - destruct (IH (k - 1)); [by apply diag_ok_down|lia]. }
    destruct (slide_spec (length a) (edge_of (V d) (S d) k) (edge_of (V d) (S d) k - k))
      as (n & Hn & He & _); [lia..|].
    rewrite He. simpl. lia.
Qed.

Lemma edge_quadrant d k :
  diag_ok (S d) k -> 0 <= edge_of (V d) (S d) k /\ k <= edge_of (V d) (S d) k.
Proof.
  intros Hk. unfold edge_of.
  destruct (go_down_cases d k (V d (k-1)) (V d (k+1)) Hk) as [[-> Hne]|[-> Hne]].
  - destruct (V_nonneg d (k + 1)); [by apply diag_ok_up|lia].
  - destruct (V_nonneg d (k - 1)); [by apply diag_ok_down|lia].
Qed.

Lemma V_step d k :
  diag_ok (S d) k ->
  exists n, 0 <= n /\ V (S d) k = edge_of (V d) (S d) k + n /\
    matches (edge_of (V d) (S d) k) (edge_of (V d) (S d) k - k) n /\
    (n = 0 \/ V (S d) k <= na /\ V (S d) k - k <= nb).
Proof.
  intros Hk. simpl. destruct (edge_quadrant d k Hk) as [H1 H2].
  destruct (slide_spec (length a) (edge_of (V d) (S d) k) (edge_of (V d) (S d) k - k))
    as (n & Hn & He & Hm & Hb); [lia..|].
  exists n. rewrite He. simpl. split_and!; [lia|done|done|].
  destruct Hb; [by left|right; lia].
Qed.

(** One more edit reaches at least one step further. *)
Lemma V_mono d k : diag_ok d k -> V d k + 1 <= V (S d) (k + 1) /\ V d k <= V (S d) (k - 1).
Proof.
  intros Hk. destruct (diag_ok_succ d k Hk) as [Hu Hd].
  pose proof (diag_ok_bounds _ _ Hk).
  split.
  - destruct (V_step d (k + 1) Hu) as (n & Hn & -> & _).
    unfold edge_of, go_down. replace (k + 1 - 1) with k by lia.
    destruct (Z.eqb_spec (k + 1) (- Z.of_nat (S d))); [lia|]. simpl.
    destruct (Z.eqb_spec (k + 1) (Z.of_nat (S d))); simpl; [lia|].
    destruct (Z.ltb_spec (V d k) (V d (k + 1 + 1))); lia.
  - destruct (V_step d (k - 1) Hd) as (n & Hn & -> & _).
    unfold edge_of, go_down. replace (k - 1 + 1) with k by lia.
    destruct (Z.eqb_spec (k - 1) (- Z.of_nat (S d))); simpl; [lia|].
    destruct (Z.eqb_spec (k - 1) (Z.of_nat (S d))); simpl; [lia|].
    destruct (Z.ltb_spec (V d (k - 1 - 1)) (V d k)); lia.
Qed.

(** The end of the grid is reached on diagonal [k] at level [d]. *)
Definition done_at (d : nat) (k : Z) : Prop := na <= V d k /\ nb <= V d k - k.

(** A point below the grid was reachable one level earlier, one row up. *)
Lemma below_grid d k :
  diag_ok d k -> nb < V d k - k ->
  exists d', d = S d' /\ diag_ok d' (k + 1) /\ V d k <= V d' (k + 1).
Proof.
  revert k. induction d as [|d IH]; intros k Hk Hy.
  { apply diag_ok_0 in Hk as ->. destruct V_0 as (n & ? & HV & _ & ? & ?). lia. }
  exists d. split; [done|].
  destruct (V_step d k Hk) as (n & Hn & HV & Hm & Hb).
  destruct Hb as [->|Hb]; [|lia]. rewrite Z.add_0_r in HV. rewrite HV in *.
  unfold edge_of in *.
  destruct (go_down_cases d k (V d (k-1)) (V d (k+1)) Hk) as [[Hg Hne]|[Hg Hne]];
    rewrite Hg in *.
  - split; [by apply diag_ok_up|lia].
  - destruct (IH (k - 1)) as (d' & -> & Hd' & Hle);
      [by apply diag_ok_down|lia|].
    replace (k - 1 + 1) with k in * by lia.
    destruct (V_mono d' k Hd'). split; [by apply diag_ok_succ|lia].
Qed.

(** A point right of the grid was reachable one level earlier, one column left. *)
Lemma right_of_grid d k :
  diag_ok d k -> na < V d k ->
  exists d', d = S d' /\ diag_ok d' (k - 1) /\ V d k - 1 <= V d' (k - 1).
Proof.
  revert k. induction d as [|d IH]; intros k Hk Hx.
  { apply diag_ok_0 in Hk as ->. destruct V_0 as (n & ? & HV & _ & ? & ?). lia. }
  exists d. split; [done|].
  destruct (V_step d k Hk) as (n & Hn & HV & Hm & Hb).
  destruct Hb as [->|Hb]; [|lia]. rewrite Z.add_0_r in HV. rewrite HV in *.
  unfold edge_of in *.
  destruct (go_down_cases d k (V d (k-1)) (V d (k+1)) Hk) as [[Hg Hne]|[Hg Hne]];
    rewrite Hg in *.
  - destruct (IH (k + 1)) as (d' & -> & Hd' & Hle);
      [by apply diag_ok_up|lia|].
    replace (k + 1 - 1) with k in * by lia.
    destruct (V_mono d' k Hd'). split; [by apply diag_ok_succ|lia].
  - split; [by apply diag_ok_down|lia].
Qed.

(** The first level that is done ends exactly at the far corner. *)
Lemma done_exact d k :
  diag_ok d k -> done_at d k -> (forall d' k', (d' < d)%nat -> diag_ok d' k' -> ~ done_at d' k') ->
  V d k = na /\ V d k - k = nb.
Proof.
  intros Hk [Hx Hy] Hprev.
  assert (~ nb < V d k - k).
  { intros Hlt. destruct (below_grid d k Hk Hlt) as (d' & -> & Hd' & Hle).
    apply (Hprev d' (k + 1)); [lia|done|split; lia]. }
  assert (~ na < V d k).
  { intros Hlt. destruct (right_of_grid d k Hk Hlt) as (d' & -> & Hd' & Hle).
    apply (Hprev d' (k - 1)); [lia|done|split; lia]. }
  lia.
Qed.

(** Walking right along the bottom-most diagonals, then down: the corner is
    reached within [length a + length b] edits. *)
Lemma V_right d : Z.of_nat d <= V d (Z.of_nat d).
Proof.
  assert (forall d, diag_ok d (Z.of_nat d)) as Hk.
  { intros m. exists (Z.of_nat m). lia. }
  pose proof (V_nonneg d (Z.of_nat d) (Hk d)). lia.
Qed.

Lemma V_down j : na <= V (length a + j) (na - Z.of_nat j).
Proof.
  induction j as [|j IH].
  - rewrite Nat.add_0_r, Z.sub_0_r. apply V_right.
  - rewrite Nat.add_succ_r.
    replace (na - Z.of_nat (S j)) with (na - Z.of_nat j - 1) by lia.
    assert (diag_ok (length a + j) (na - Z.of_nat j)) as Hk by (exists na; lia).
    destruct (V_mono _ _ Hk). lia.
Qed.

Lemma done_eventually :
  diag_ok (length a + length b) (na - nb) /\ done_at (length a + length b) (na - nb).
Proof.
  pose proof (V_down (length b)). split; [exists na; lia|].
  unfold done_at. lia.
Qed.

(** *** The arrays hold the furthest points *)

Abbreviation maxt := (na + nb).
Abbreviation v_len := (2 * (length a + length b) + 1)%nat.

(** Where the snake of diagonal [k] starts at level [d]. *)
Definition X0 (d : nat) (k : Z) : Z :=
  match d with O => 0 | S d' => edge_of (V d') d k end.

(** The reads of level [d] see the values of level [d - 1]. *)
Definition reads_ok (d : nat) (v : list Z) : Prop :=
  forall k, diag_ok d k ->
    (if go_down (Z.of_nat d) k (aget v (k - 1 + maxt)) (aget v (k + 1 + maxt))
     then aget v (k + 1 + maxt) else aget v (k - 1 + maxt) + 1) = X0 d k.

Definition level_ok (d : nat) (v : list Z) : Prop :=
  forall k, diag_ok d k -> aget v (k + maxt) = V d k.

Lemma X0_quadrant d k : diag_ok d k -> 0 <= X0 d k /\ k <= X0 d k.
Proof.
  destruct d as [|d]; intros Hk; simpl.
  - apply diag_ok_0 in Hk. lia.
  - unfold edge_of.
    destruct (go_down_cases d k (V d (k-1)) (V d (k+1)) Hk) as [[-> Hne]|[-> Hne]].
    + destruct (V_nonneg d (k + 1)); [by apply diag_ok_up|lia].
    + destruct (V_nonneg d (k - 1)); [by apply diag_ok_down|lia].
Qed.

Lemma slide_V d k : diag_ok d k -> slide' (X0 d k) (X0 d k - k) = (V d k, V d k - k).
Proof.
  intros Hk. destruct (X0_quadrant d k Hk).
  destruct (slide_spec (length a) (X0 d k) (X0 d k - k)) as (n & Hn & He & _); [lia..|].
  destruct d as [|d].
  - apply diag_ok_0 in Hk as ->. unfold V. simpl X0 in *. rewrite He. simpl. f_equal. lia.
  - change (V (S d) k) with (slide' (X0 (S d) k) (X0 (S d) k - k)).1.
    rewrite He. simpl. f_equal. lia.
Qed.

(** Writes of a level do not disturb its reads: the parities differ. *)
Lemma reads_ok_aset d v k x :
  (d <= length a + length b)%nat -> diag_ok d k -> reads_ok d v ->
  reads_ok d (aset v (k + maxt) x).
Proof.
  intros Hd Hk Hv k' Hk'. pose proof (diag_ok_bounds _ _ Hk).
  destruct Hk as (i & ? & ?), Hk' as (i' & ? & ?).
  rewrite !aget_aset_ne by lia. apply Hv. exists i'. lia.
Qed.

Lemma level_reads_ok d v : level_ok d v -> reads_ok (S d) v.
Proof.
  intros Hv k Hk. simpl X0. unfold edge_of.
  destruct (decide (k = - Z.of_nat (S d))) as [Hlo|Hlo].
  { replace (go_down _ _ _ _) with true
      by (unfold go_down; destruct (Z.eqb_spec k (- Z.of_nat (S d))); done).
    replace (go_down _ _ _ _) with true
      by (unfold go_down; destruct (Z.eqb_spec k (- Z.of_nat (S d))); done).
    apply Hv. apply diag_ok_up; [done|lia]. }
  rewrite (Hv (k - 1)) by (by apply diag_ok_down).
  destruct (decide (k = Z.of_nat (S d))) as [Hhi|Hhi].
  - unfold go_down. destruct (Z.eqb_spec k (- Z.of_nat (S d))); [done|].
    destruct (Z.eqb_spec k (Z.of_nat (S d))); [|done]. done.
  - by rewrite (Hv (k + 1)) by (by apply diag_ok_up).
Qed.

Lemma k_loop_spec d ks v :
  (d <= length a + length b)%nat -> length v = v_len -> reads_ok d v ->
  NoDup ks -> (forall k, k ∈ ks -> diag_ok d k) ->
  (forall k, diag_ok d k -> k ∉ ks -> aget v (k + maxt) = V d k /\ ~ done_at d k) ->
  match k_loop a b maxt (Z.of_nat d) ks v with
  | inl v' => length v' = v_len /\ level_ok d v' /\ forall k, diag_ok d k -> ~ done_at d k
  | inr (x, y) => exists k, diag_ok d k /\ done_at d k /\ x = V d k /\ y = V d k - k
  end.
Proof.
  revert v. induction ks as [|k ks IH]; intros v Hd Hl Hr Hnd Hks Hdone; simpl.
  { split_and!; [done| |]; intros k Hk; by apply Hdone; [|apply not_elem_of_nil]. }
  assert (Hk : diag_ok d k) by (apply Hks; left).
  rewrite (Hr k Hk), (slide_V d k Hk).
  pose proof (diag_ok_bounds _ _ Hk).
  destruct ((na <=? V d k) && (nb <=? V d k - k)) eqn:E.
  { apply andb_true_iff in E as [?%Z.leb_le ?%Z.leb_le]. exists k. by split_and!. }
  apply NoDup_cons in Hnd as [Hnk Hnd].
  apply IH; [done|by rewrite length_aset|by apply reads_ok_aset|done| |].
  { intros k' ?. apply Hks. by right. }
  intros k' Hk' Hnin. destruct (decide (k' = k)) as [->|Hne].
  - split; [apply aget_aset_eq; lia|]. intros [??].
    apply andb_false_iff in E as [?%Z.leb_gt|?%Z.leb_gt]; lia.
  - pose proof (diag_ok_bounds _ _ Hk').
    rewrite aget_aset_ne by lia. apply Hdone; [done|].
    rewrite elem_of_cons. tauto.
Qed.

Lemma diagonals_spec d k : k ∈ diagonals d <-> diag_ok d k.
Proof.
  unfold diagonals. rewrite list_elem_of_fmap. split.
  - intros (i & -> & Hi%elem_of_seq). exists (Z.of_nat i). lia.
  - intros (i & ? & ->). exists (Z.to_nat i). rewrite elem_of_seq. lia.
Qed.

Lemma diagonals_nodup d : NoDup (diagonals d).
Proof.
  unfold diagonals. apply NoDup_fmap_2_strong; [|apply NoDup_seq].
  intros x y _ _. lia.
Qed.

(** *** Snapshots *)

Definition snap_ok (d : nat) (snap : list Z) : Prop :=
  forall d' k, (d' < d)%nat -> diag_ok d' k ->
    aget snap (snap_off d' + (k + Z.of_nat d') / 2) = V d' k.

Lemma snap_off_succ d : snap_off (S d) = snap_off d + Z.of_nat d + 1.
Proof.
  unfold snap_off.
  replace (Z.of_nat (S d) * (Z.of_nat (S d) + 1))
    with (Z.of_nat d * (Z.of_nat d + 1) + (Z.of_nat d + 1) * 2) by lia.
  rewrite Z.div_add by lia. lia.
Qed.

Lemma snap_off_nonneg d : 0 <= snap_off d.
Proof. unfold snap_off. apply Z.div_pos; lia. Qed.

Lemma snap_off_mono d d' : (d <= d')%nat -> snap_off d <= snap_off d'.
Proof.
  induction 1 as [|d' _ IH]; [lia|]. rewrite snap_off_succ.
  pose proof (snap_off_nonneg d'). lia.
Qed.

(** Filling a stretch of an array. *)
Lemma fill_spec (f : nat -> Z) off n s arr :
  0 <= off -> off + Z.of_nat (s + n) <= Z.of_nat (length arr) ->
  let arr' := foldl (fun sn i => aset sn (off + Z.of_nat i) (f i)) arr (seq s n) in
  length arr' = length arr /\
  (forall i, (s <= i < s + n)%nat -> aget arr' (off + Z.of_nat i) = f i) /\
  (forall j, j < off + Z.of_nat s \/ off + Z.of_nat (s + n) <= j -> aget arr' j = aget arr j).
Proof.
  revert s arr. induction n as [|n IH]; intros s arr Ho Hl arr'; simpl in arr'.
  { split_and!; [done|intros; lia|done]. }
  destruct (IH (S s) (aset arr (off + Z.of_nat s) (f s)) Ho) as (H1 & H2 & H3);
    [rewrite length_aset; lia|].
  fold arr' in H1, H2, H3. split_and!.
  - by rewrite H1, length_aset.
  - intros i Hi. destruct (decide (i = s)) as [->|Hne]; [|apply H2; lia].
    rewrite H3 by lia. apply aget_aset_eq. lia.
  - intros j Hj. rewrite H3 by lia. apply aget_aset_ne; lia.
Qed.

Lemma snapshot_level_spec d v snap :
  (d < length a + length b)%nat ->
  Z.of_nat (length snap) = maxt * (maxt + 1) / 2 ->
  level_ok d v -> snap_ok d snap ->
  let snap' := snapshot_level maxt d v snap in
  length snap' = length snap /\ snap_ok (S d) snap'.
Proof.
  intros Hd Hl Hv Hs snap'.
  assert (snap_off (S d) <= Z.of_nat (length snap)).
  { rewrite Hl. transitivity (snap_off (length a + length b)).
    - apply snap_off_mono. lia.
    - unfold snap_off. rewrite Nat2Z.inj_add. done. }
  pose proof (snap_off_succ d). pose proof (snap_off_nonneg d).
  destruct (fill_spec (fun i => aget v (- Z.of_nat d + 2 * Z.of_nat i + maxt))
              (snap_off d) (S d) 0 snap) as (F1 & F2 & F3); [done|lia|].
  fold (snapshot_level maxt d v snap) in F1, F2, F3. fold snap' in F1, F2, F3.
  split; [done|]. intros d' k Hd' Hk. pose proof (diag_ok_bounds _ _ Hk).
  destruct (decide (d' = d)) as [->|Hne].
  - destruct Hk as (i & Hi & ->).
    replace ((- Z.of_nat d + 2 * i + Z.of_nat d) / 2) with i
      by (replace (- Z.of_nat d + 2 * i + Z.of_nat d) with (i * 2) by lia;
          by rewrite Z.div_mul by lia).
    specialize (F2 (Z.to_nat i)). rewrite Z2Nat.id in F2 by lia.
    rewrite F2 by lia. apply Hv. exists i. lia.
  - assert ((k + Z.of_nat d') / 2 <= Z.of_nat d') by (apply Z.div_le_upper_bound; lia).
    pose proof (snap_off_succ d'). pose proof (snap_off_mono (S d') d ltac:(lia)).
    rewrite F3 by lia. apply Hs; [lia|done].
Qed.

Lemma d_loop_spec n d v snap :
  (d + n = S (length a + length b))%nat -> length v = v_len ->
  Z.of_nat (length snap) = maxt * (maxt + 1) / 2 ->
  reads_ok d v -> snap_ok d snap ->
  (forall d' k', (d' < d)%nat -> diag_ok d' k' -> ~ done_at d' k') ->
  exists df snap', d_loop a b maxt (seq d n) v snap = (Some (df, na, nb), snap') /\
    snap_ok df snap' /\ diag_ok df (na - nb) /\ V df (na - nb) = na /\
    (df <= length a + length b)%nat /\
    (forall d' k', (d' < df)%nat -> diag_ok d' k' -> ~ done_at d' k').
Proof.
  revert d v snap. induction n as [|n IH]; intros d v snap Hn Hl Hls Hr Hs Hno.
  { destruct done_eventually as [Hk Hdone].
    exfalso. eapply Hno; [|done|done]. lia. }
  cbn [seq d_loop]. pose proof (k_loop_spec d (diagonals d) v) as Hkl.
  destruct (k_loop a b maxt (Z.of_nat d) (diagonals d) v) as [v'|[x y]].
  - destruct Hkl as (Hl' & Hv' & Hno');
      [lia|done|done|apply diagonals_nodup|intros k; apply diagonals_spec| |].
    { intros k Hk Hnk. by rewrite diagonals_spec in Hnk. }
    assert (d ≠ length a + length b)%nat.
    { intros ->. destruct done_eventually as [Hk Hdone]. by apply (Hno' (na - nb)). }
    destruct (snapshot_level_spec d v' snap) as [Hls' Hs']; [lia|done..|].
    apply IH; [lia|done|by rewrite Hls'|by apply level_reads_ok|done|].
    intros d' k' Hd' Hk'. destruct (decide (d' = d)) as [->|]; [by apply Hno'|].
    apply Hno; [lia|done].
  - destruct Hkl as (k & Hk & Hdone & -> & ->);
      [lia|done|done|apply diagonals_nodup|intros k; apply diagonals_spec| |].
    { intros k Hk Hnk. by rewrite diagonals_spec in Hnk. }
    destruct (done_exact d k Hk Hdone Hno) as [Hx Hy].
    assert (k = na - nb) as -> by lia.
    exists d, snap. rewrite Hy, Hx. split_and!; [done..|lia|done].
Qed.

(** *** Minimality *)

(** [reach d x y]: some path of [d] edits leads from the corner to (x, y). *)
Inductive reach : nat -> nat -> nat -> Prop :=
  | reach_start : reach 0 0 0
  | reach_snake d x y t :
      reach d x y -> a !! x = Some t -> b !! y = Some t -> reach d (S x) (S y)
  | reach_delete d x y : reach d x y -> (x < length a)%nat -> reach (S d) (S x) y
  | reach_insert d x y : reach d x y -> (y < length b)%nat -> reach (S d) x (S y).

Lemma slide_maximal fuel x y t :
  0 <= x -> 0 <= y -> (Z.to_nat na <= fuel + Z.to_nat x)%nat ->
  a !! Z.to_nat (slide a b fuel x y).1 = Some t ->
  b !! Z.to_nat (slide a b fuel x y).2 = Some t -> False.
Proof.
  revert x y. induction fuel as [|fuel IH]; intros x y Hx Hy Hf; simpl.
  { intros Ha%lookup_lt_Some _. lia. }
  destruct ((x <? na) && (y <? nb) && tokens_equal a b x y) eqn:E.
  { apply IH; lia. }
  simpl. intros Ha Hb. pose proof (lookup_lt_Some _ _ _ Ha).
  pose proof (lookup_lt_Some _ _ _ Hb).
  rewrite !andb_false_iff in E. unfold tokens_equal in E. rewrite Ha, Hb in E.
  rewrite bool_decide_eq_true_2 in E by done.
  destruct E as [[E%Z.ltb_ge|E%Z.ltb_ge]|E]; [lia|lia|done].
Qed.

(** The furthest point of a level is not followed by a match. *)
Lemma V_maximal d k t :
  diag_ok d k -> a !! Z.to_nat (V d k) = Some t -> b !! Z.to_nat (V d k - k) = Some t -> False.
Proof.
  intros Hk. destruct d as [|d].
  - apply diag_ok_0 in Hk as ->. destruct (slide_spec (length a) 0 0) as (n & Hn & He & _); [lia..|].
    pose proof (slide_maximal (length a) 0 0 t) as Hm. rewrite He in Hm.
    unfold V. rewrite Z.sub_0_r, He. simpl in *. intros Ha Hb. apply Hm; [lia..|done|].
    by rewrite Z.sub_0_r in Hb.
  - destruct (edge_quadrant d k Hk) as [H1 H2].
    destruct (slide_spec (length a) (edge_of (V d) (S d) k) (edge_of (V d) (S d) k - k))
      as (n & Hn & He & _); [lia..|].
    pose proof (slide_maximal (length a) (edge_of (V d) (S d) k)
                  (edge_of (V d) (S d) k - k) t) as Hm.
    rewrite He in Hm. cbn [V]. rewrite He. cbn [fst snd] in *.
    intros Ha Hb. apply Hm; [lia..|done|].
    by replace (edge_of (V d) (S d) k - k + n) with (edge_of (V d) (S d) k + n - k) by lia.
Qed.

(** No path of [d] edits gets further than the search's level [d]. *)
Lemma reach_below_V d x y :
  reach d x y -> diag_ok d (Z.of_nat x - Z.of_nat y) /\
    Z.of_nat x <= V d (Z.of_nat x - Z.of_nat y).
Proof.
  induction 1 as [|d x y t _ [Hk IH] Ha Hb|d x y _ [Hk IH] _|d x y _ [Hk IH] _].
  - split; [exists 0; lia|]. change (Z.of_nat 0 - Z.of_nat 0) with 0. destruct V_0 as (n & ? & -> & _). lia.
  - replace (Z.of_nat (S x) - Z.of_nat (S y)) with (Z.of_nat x - Z.of_nat y) by lia.
    split; [done|]. apply Z.le_lteq in IH as [|E]; [lia|]. exfalso.
    apply (V_maximal d (Z.of_nat x - Z.of_nat y) t Hk); rewrite <- E.
    + by rewrite Nat2Z.id.
    + by replace (Z.of_nat x - (Z.of_nat x - Z.of_nat y)) with (Z.of_nat y) by lia;
        rewrite Nat2Z.id.
  - destruct (diag_ok_succ d _ Hk) as [Hu _]. destruct (V_mono d _ Hk) as [Hm _].
    replace (Z.of_nat (S x) - Z.of_nat y) with (Z.of_nat x - Z.of_nat y + 1) by lia.
    split; [done|lia].
  - destruct (diag_ok_succ d _ Hk) as [_ Hd]. destruct (V_mono d _ Hk) as [_ Hm].
    replace (Z.of_nat x - Z.of_nat (S y)) with (Z.of_nat x - Z.of_nat y - 1) by lia.
    split; [done|lia].
Qed.

Lemma script_reach s l1 l2 d x y :
  script s l1 l2 -> drop x a = l1 -> drop y b = l2 -> (x <= length a)%nat ->
  (y <= length b)%nat -> reach d x y -> reach (d + edit_count s) (length a) (length b).
Proof.
  intros Hs. revert d x y. induction Hs as [|s t l1 l2 _ IH|s t l1 l2 _ IH|s t l1 l2 _ IH];
    intros d x y Ha Hb Hx Hy Hr; simpl.
  - apply (f_equal length) in Ha, Hb. rewrite length_drop in Ha, Hb. simpl in *.
    rewrite Nat.add_0_r. by replace (length a) with x by lia; replace (length b) with y by lia.
  - pose proof (drop_cons_inv _ _ _ _ Ha) as [La Ha'].
    pose proof (drop_cons_inv _ _ _ _ Hb) as [Lb Hb'].
    apply (IH d (S x) (S y)); [done..|by apply lookup_lt_Some in La|by apply lookup_lt_Some in Lb|].
    by eapply reach_snake.
  - pose proof (drop_cons_inv _ _ _ _ Ha) as [La Ha']. apply lookup_lt_Some in La.
    rewrite Nat.add_succ_r, <- Nat.add_succ_l. apply (IH (S d) (S x) y); [done..|].
    by apply reach_delete.
  - pose proof (drop_cons_inv _ _ _ _ Hb) as [Lb Hb']. apply lookup_lt_Some in Lb.
    rewrite Nat.add_succ_r, <- Nat.add_succ_l. apply (IH (S d) x (S y)); [done..|].
    by apply reach_insert.
Qed.

Lemma script_lower_bound s df :
  script s a b -> (forall d' k', (d' < df)%nat -> diag_ok d' k' -> ~ done_at d' k') ->
  (df <= edit_count s)%nat.
Proof.
  intros Hs Hno. pose proof (script_reach s a b 0 0 0 Hs) as Hr.
  destruct (reach_below_V _ _ _ (Hr eq_refl eq_refl ltac:(lia) ltac:(lia) reach_start))
    as [Hk HV].
  apply Nat.nlt_ge. intros Hlt. apply (Hno _ _ Hlt Hk). split; simpl in *; lia.
Qed.

(** *** The backtrace yields an edit script *)

Lemma unslide_spec fuel x y xe ye n raw :
  (n <= fuel)%nat -> x = xe + Z.of_nat n -> y = ye + Z.of_nat n ->
  unslide fuel x y xe ye raw = (xe, ye, raw ++ replicate n Snake).
Proof.
  revert x y n raw. induction fuel as [|fuel IH]; intros x y n raw Hn -> ->; simpl.
  { assert (n = 0)%nat as -> by lia. simpl. rewrite app_nil_r. repeat f_equal; lia. }
  rewrite !Z.gtb_ltb. destruct n as [|n].
  - rewrite (proj2 (Z.ltb_ge _ _)) by lia. simpl. rewrite app_nil_r. repeat f_equal; lia.
  - rewrite !(proj2 (Z.ltb_lt _ _)) by lia. simpl.
    rewrite (IH _ _ n) by lia. simpl. by rewrite <- app_assoc.
Qed.

(** Matching elements extend a script backwards by snake steps. *)
Lemma script_snakes n x y s :
  0 <= x -> 0 <= y -> matches x y (Z.of_nat n) ->
  script s (drop (Z.to_nat (x + Z.of_nat n)) a) (drop (Z.to_nat (y + Z.of_nat n)) b) ->
  script (replicate n Snake ++ s) (drop (Z.to_nat x) a) (drop (Z.to_nat y) b).
Proof.
  revert x y. induction n as [|n IH]; intros x y Hx Hy Hm Hs; simpl.
  { by rewrite !Z.add_0_r in Hs. }
  destruct (Hm 0 ltac:(lia)) as (t & Ha & Hb). rewrite !Z.add_0_r in Ha, Hb.
  rewrite (drop_cons _ _ _ Ha), (drop_cons _ _ _ Hb). constructor.
  rewrite <- !Z2Nat.inj_succ by lia. apply IH; [lia..| |].
  - intros i Hi. destruct (Hm (i + 1)) as (u & ? & ?); [lia|]. exists u.
    by replace (Z.succ x + i) with (x + (i + 1)) by lia;
      replace (Z.succ y + i) with (y + (i + 1)) by lia.
  - by replace (Z.succ x + Z.of_nat n) with (x + Z.of_nat (S n)) by lia;
      replace (Z.succ y + Z.of_nat n) with (y + Z.of_nat (S n)) by lia.
Qed.

Lemma script_insert_at y s (l1 : list T) :
  0 <= y < nb -> script s l1 (drop (Z.to_nat (y + 1)) b) ->
  script (Insert :: s) l1 (drop (Z.to_nat y) b).
Proof.
  intros Hy Hs. destruct (lookup_lt_is_Some_2 b (Z.to_nat y)) as [t Ht]; [lia|].
  rewrite (drop_cons _ _ _ Ht), <- Z2Nat.inj_succ by lia. by constructor.
Qed.

Lemma script_delete_at x s (l2 : list T) :
  0 <= x < na -> script s (drop (Z.to_nat (x + 1)) a) l2 ->
  script (Delete :: s) (drop (Z.to_nat x) a) l2.
Proof.
  intros Hx Hs. destruct (lookup_lt_is_Some_2 a (Z.to_nat x)) as [t Ht]; [lia|].
  rewrite (drop_cons _ _ _ Ht), <- Z2Nat.inj_succ by lia. by constructor.
Qed.

(** The snapshot reads of the backtrace are the furthest points. *)
Lemma snap_read d snap k :
  snap_ok (S d) snap -> diag_ok d k ->
  aget snap (snap_off d + (k + (Z.of_nat (S d) - 1)) / 2) = V d k.
Proof.
  intros Hs Hk. replace (Z.of_nat (S d) - 1) with (Z.of_nat d) by lia.
  apply Hs; [lia|done].
Qed.

Lemma snap_ok_pred d snap : snap_ok (S d) snap -> snap_ok d snap.
Proof. intros Hs d' k Hd. apply Hs. lia. Qed.

Lemma backtrace_down_choice d snap k :
  snap_ok (S d) snap -> diag_ok (S d) k ->
  go_down (Z.of_nat (S d)) k
    (aget snap (snap_off d + (k - 1 + (Z.of_nat (S d) - 1)) / 2))
    (aget snap (snap_off d + (k + 1 + (Z.of_nat (S d) - 1)) / 2))
  = go_down (Z.of_nat (S d)) k (V d (k - 1)) (V d (k + 1)).
Proof.
  intros Hs Hk. unfold go_down.
  destruct (Z.eqb_spec k (- Z.of_nat (S d))); [done|].
  destruct (Z.eqb_spec k (Z.of_nat (S d))); [done|]. simpl.
  assert (diag_ok d (k - 1)) by (by apply diag_ok_down).
  assert (diag_ok d (k + 1)) by (by apply diag_ok_up).
  by rewrite !snap_read.
Qed.

Lemma backtrace_spec d snap x y raw :
  snap_ok d snap -> diag_ok d (x - y) -> V d (x - y) = x -> x <= na -> y <= nb ->
  script (reverse raw) (drop (Z.to_nat x) a) (drop (Z.to_nat y) b) ->
  script (reverse (backtrace a d snap x y raw)) a b /\
  edit_count (backtrace a d snap x y raw) =
    (d + edit_count raw)%nat.
Proof.
  revert x y raw. induction d as [|d IH]; intros x y raw Hs Hk HV Hxn Hyn Hscr.
  - apply diag_ok_0 in Hk as Hxy. rewrite Hxy in HV.
    destruct V_0 as (n & Hn & HV0 & Hm & ? & ?).
    assert (x = n) as -> by lia. assert (y = n) as -> by lia.
    simpl. rewrite (unslide_spec _ _ _ _ _ (Z.to_nat n)) by lia. simpl.
    rewrite reverse_app, reverse_replicate, edit_count_app, edit_count_snakes, Nat.add_0_r.
    split; [|done]. apply (script_snakes _ 0 0); [lia..|by rewrite Z2Nat.id by lia|].
    by rewrite !Z2Nat.id by lia.
  - set (k := x - y) in *. cbn [backtrace]. fold k.
    rewrite (backtrace_down_choice d snap k) by done.
    destruct (V_step d k Hk) as (n & Hn & HVs & Hm & _).
    rewrite HV in HVs. unfold edge_of in HVs, Hm.
    assert (Hpred := snap_ok_pred _ _ Hs).
    destruct (go_down_cases d k (V d (k-1)) (V d (k+1)) Hk) as [[Hg Hne]|[Hg Hne]];
      rewrite Hg in *.
    + assert (Hk' : diag_ok d (k + 1)) by (by apply diag_ok_up).
      destruct (V_nonneg d _ Hk'). rewrite (snap_read d snap _ Hs Hk').
      rewrite (unslide_spec _ _ _ _ _ (Z.to_nat n)) by lia.
      replace (V d (k + 1) - (k + 1) + 1 - 1) with (V d (k + 1) - (k + 1)) by lia.
      replace (V d (k + 1) - (k + 1 )) with (V d (k + 1) - k - 1) by lia.
      destruct (IH (V d (k + 1)) (V d (k + 1) - k - 1) ((raw ++ replicate (Z.to_nat n) Snake) ++ [Insert]))
        as [IH1 IH2];
        [done| by replace (_ - _) with (k + 1) by lia
        | by replace (_ - (_ - k - 1)) with (k + 1) by lia | lia | lia | | ].
      * rewrite !reverse_app, reverse_singleton, reverse_replicate. simpl.
        apply script_insert_at; [lia|].
        replace (V d (k + 1) - k - 1 + 1) with (V d (k + 1) - k) by lia.
        apply script_snakes; [lia..|by rewrite Z2Nat.id by lia|].
        rewrite Z2Nat.id by lia.
        by replace (V d (k + 1) + n) with x by lia;
          replace (V d (k + 1) - k + n) with y by lia.
      * split; [done|]. rewrite IH2, !edit_count_app, edit_count_snakes. simpl. lia.
    + assert (Hk' : diag_ok d (k - 1)) by (by apply diag_ok_down).
      destruct (V_nonneg d _ Hk'). rewrite (snap_read d snap _ Hs Hk').
      rewrite (unslide_spec _ _ _ _ _ (Z.to_nat n)) by lia.
      replace (V d (k - 1) + 1 - 1) with (V d (k - 1)) by lia.
      destruct (IH (V d (k - 1)) (V d (k - 1) - (k - 1)) ((raw ++ replicate (Z.to_nat n) Snake) ++ [Delete]))
        as [IH1 IH2];
        [done| by replace (_ - _) with (k - 1) by lia
        | by replace (_ - (_ - (k - 1))) with (k - 1) by lia | lia | lia | | ].
      * rewrite !reverse_app, reverse_singleton, reverse_replicate. simpl.
        apply script_delete_at; [lia|].
        replace (V d (k - 1) - (k - 1)) with (V d (k - 1) + 1 - k) by lia.
        apply script_snakes; [lia..|by rewrite Z2Nat.id by lia|].
        rewrite Z2Nat.id by lia.
        by replace (V d (k - 1) + 1 + n) with x by lia;
          replace (V d (k - 1) + 1 - k + n) with y by lia.
      * split; [done|]. rewrite IH2, !edit_count_app, edit_count_snakes. simpl. lia.
Qed.

(** *** Coalescing a script *)

Lemma edit_run_spec steps del ins (l1 l2 : list T) :
  script steps l1 l2 ->
  exists n m rest, edit_run steps del ins = ((del + n)%nat, (ins + m)%nat, rest) /\
    script rest (drop n l1) (drop m l2) /\
    (n <= length l1)%nat /\ (m <= length l2)%nat /\
    length steps = (n + m + length rest)%nat /\
    edit_count steps = (n + m + edit_count rest)%nat /\
    ((n + m)%nat = 0%nat -> match steps with [] | Snake :: _ => True | _ => False end).
Proof.
  intros Hs. revert del ins. induction Hs as [|s t l1 l2 Hs IH|s t l1 l2 Hs IH|s t l1 l2 Hs IH];
    intros del ins.
  - exists 0%nat, 0%nat, []. simpl. rewrite !Nat.add_0_r. split_and!; try done. constructor.
  - exists 0%nat, 0%nat, (Snake :: s). simpl. rewrite !Nat.add_0_r.
    split_and!; try done; [by constructor|lia..].
  - destruct (IH (S del) ins) as (n & m & rest & He & Hr & ? & ? & ? & Hf & _).
    exists (S n), m, rest. simpl. rewrite He.
    split_and!; [by rewrite Nat.add_succ_r|done|lia..].
  - destruct (IH del (S ins)) as (n & m & rest & He & Hr & ? & ? & ? & Hf & _).
    exists n, (S m), rest. simpl. rewrite He.
    split_and!; [by rewrite Nat.add_succ_r|done|lia..].
Qed.

(** One coalesced edit, applied after the edits to its right. *)
Lemma apply_edit_run (old l1 l2 s1 : list T) p n m :
  drop p old = l1 ++ s1 -> (n <= length l1)%nat -> (m <= length l2)%nat -> (p <= length old)%nat ->
  apply_edit (take (p + n) old ++ drop m l2 ++ s1) p n (take m l2) = take p old ++ l2 ++ s1.
Proof.
  intros Ho Hn Hm Hp. unfold apply_edit.
  assert (length old = p + length (l1 ++ s1))%nat by (rewrite <- Ho, length_drop; lia).
  rewrite length_app in *.
  rewrite take_app_le by (rewrite length_take; lia).
  rewrite take_take, Nat.min_l by lia.
  rewrite drop_app_length' by (rewrite length_take; lia).
  rewrite (app_assoc (take m l2)), (take_drop m l2). done.
Qed.

Lemma coalesce_loop_spec fuel steps ao bo cx cy (old new l1 l2 s1 s2 : list T) :
  (length steps < fuel)%nat -> script steps l1 l2 ->
  drop (ao + cx) old = l1 ++ s1 -> drop (bo + cy) new = l2 ++ s2 ->
  (ao + cx <= length old)%nat ->
  apply_ops new (coalesce_loop fuel steps ao bo cx cy) old = take (ao + cx) old ++ l2 ++ s1 /\
  (length (coalesce_loop fuel steps ao bo cx cy) <= edit_count steps)%nat.
Proof.
  revert steps cx cy l1 l2. induction fuel as [|fuel IH]; [simpl; lia|].
  intros steps cx cy l1 l2 Hlen Hs Ho Hn Hcx.
  assert (Hedit : forall k tl, steps = k :: tl -> k ≠ Snake ->
    let '(del, ins, rest) := edit_run steps 0 0 in
    let ops := mkEditOp (ao + cx) del (bo + cy) ins
                 :: coalesce_loop fuel rest ao bo (cx + del) (cy + ins) in
    apply_ops new ops old = take (ao + cx) old ++ l2 ++ s1 /\
    (length ops <= edit_count steps)%nat).
  { intros k tl Hk Hne.
    destruct (edit_run_spec steps 0 0 l1 l2 Hs)
      as (n & m & rest & -> & Hr & Hnl & Hml & Hlens & Hc & Hpos). rewrite !Nat.add_0_l.
    assert (1 <= n + m)%nat.
    { destruct (Nat.eq_dec (n + m)%nat 0%nat) as [H0|]; [|lia].
      specialize (Hpos H0). subst steps. by destruct k. }
    assert (length old = ao + cx + length (l1 ++ s1))%nat by (rewrite <- Ho, length_drop; lia).
    rewrite length_app in *.
    destruct (IH rest (cx + n)%nat (cy + m)%nat (drop n l1) (drop m l2)) as [IH1 IH2];
      [lia|done| | |lia|].
    - rewrite Nat.add_assoc, <- drop_drop, Ho, drop_app_le by lia. done.
    - rewrite Nat.add_assoc, <- drop_drop, Hn, drop_app_le by lia. done.
    - split; [|simpl; lia]. unfold apply_ops in *.
      cbn [foldr start_tok delete_tok insert_tok insert_b_start].
      rewrite IH1, Hn, take_app_le by lia.
      rewrite Nat.add_assoc. by apply (apply_edit_run old l1 l2 s1). }
  destruct steps as [|[] steps]; cbn [coalesce_loop].
  - inversion Hs; subst. simpl. split; [|lia].
    rewrite <- (take_drop (ao + cx) old) at 1. by rewrite Ho.
  - inversion Hs as [|? t l1' l2' Hs'| |]; subst.
    assert (Hlt : old !! (ao + cx)%nat = Some t).
    { rewrite <- (Nat.add_0_r (ao + cx)), <- lookup_drop, Ho. done. }
    pose proof (lookup_lt_Some _ _ _ Hlt).
    destruct (IH steps (S cx) (S cy) l1' l2') as [IH1 IH2]; [simpl in *; lia|done| | |lia|].
    + rewrite Nat.add_succ_r, (drop_cons _ _ _ Hlt) in *. by simplify_eq/=.
    + assert (Hln : new !! (bo + cy)%nat = Some t).
      { rewrite <- (Nat.add_0_r (bo + cy)), <- lookup_drop, Hn. done. }
      rewrite Nat.add_succ_r, (drop_cons _ _ _ Hln) in *. by simplify_eq/=.
    + split; [|done]. rewrite IH1, Nat.add_succ_r, (take_app_singleton _ _ _ Hlt).
      by rewrite <- !app_assoc.
  - specialize (Hedit _ _ eq_refl ltac:(done)).
    by destruct (edit_run (Delete :: steps) 0 0) as [[??]?].
  - specialize (Hedit _ _ eq_refl ltac:(done)).
    by destruct (edit_run (Insert :: steps) 0 0) as [[??]?].
Qed.

(** *** The whole run *)

Lemma script_length s (l1 l2 : list T) :
  script s l1 l2 -> (length s <= length l1 + length l2)%nat.
Proof. induction 1; simpl; lia. Qed.

Lemma script_no_edits s (l1 l2 : list T) : script s l1 l2 -> edit_count s = 0%nat -> l1 = l2.
Proof. induction 1; simpl; intros; [done| |lia..]. f_equal. auto. Qed.

Abbreviation snap_total := (Z.to_nat (maxt * (maxt + 1) / 2)).

(** The search succeeds at the far corner and its backtrace is an edit
    script with [d_found] edits. *)
Lemma diff_trace :
  exists df snap,
    d_loop a b maxt (seq 0 (S (length a + length b))) (replicate v_len 0)
      (replicate snap_total 0) = (Some (df, na, nb), snap) /\
    (df <= length a + length b)%nat /\
    script (reverse (backtrace a df snap na nb [])) a b /\
    edit_count (backtrace a df snap na nb []) = df /\
    (forall s, script s a b -> (df <= edit_count s)%nat).
Proof.
  assert (0 <= maxt * (maxt + 1) / 2) by (apply Z.div_pos; lia).
  destruct (d_loop_spec (S (length a + length b)) 0 (replicate v_len 0)
              (replicate snap_total 0)) as (df & snap & Hd & Hs & Hk & HV & Hle & Hmin).
  - lia.
  - by rewrite length_replicate.
  - rewrite length_replicate. lia.
  - intros k Hk%diag_ok_0. subst k. simpl. by rewrite !aget_replicate_0.
  - intros d' k' ?. lia.
  - intros d' k' ?. lia.
  - exists df, snap. split; [done|]. split; [done|].
    destruct (backtrace_spec df snap na nb []) as [Hscr Hc]; [done..|lia|lia| |].
    + rewrite !Nat2Z.id, !drop_all. constructor.
    + split; [done|]. split; [rewrite Hc; simpl; lia|].
      intros s Hsc. by apply script_lower_bound.
Qed.

Lemma script_lower s (l1 l2 : list T) : script s l1 l2 ->
  (length l1 <= length l2 + edit_count s /\ length l2 <= length l1 + edit_count s)%nat.
Proof. induction 1; simpl; lia. Qed.

(** The ops cost what the cheapest edit script costs. *)
Lemma myers_cost s ao bo :
  (length a + length b <= D_BOUND)%nat -> script s a b ->
  (ops_cost (myers_diff_run a b ao bo) <= edit_count s)%nat.
Proof.
  intros Hd Hs. unfold myers_diff_run.
  destruct ((length a =? 0)%nat && (length b =? 0)%nat) eqn:E0; [simpl; lia|].
  destruct (_ || _) eqn:E1.
  { simpl. rewrite !orb_true_iff, !Nat.eqb_eq, Nat.ltb_lt in E1.
    pose proof (script_lower _ _ _ Hs). lia. }
  destruct diff_trace as (df & snap & Hdl & _ & _ & Hc & Hmin). rewrite Hdl.
  destruct (df =? 0)%nat; [simpl; lia|]. unfold coalesce_edit_ops.
  edestruct coalesce_loop_cost as [-> _]; [rewrite length_reverse; lia|].
  rewrite edit_count_reverse, Hc. by apply Hmin.
Qed.

Lemma myers_diff_run_spec (p s : list T) :
  apply_ops (p ++ b ++ s) (myers_diff_run a b (length p) (length p)) (p ++ a ++ s)
  = p ++ b ++ s.
Proof.
  unfold myers_diff_run.
  destruct ((length a =? 0)%nat && (length b =? 0)%nat) eqn:E0.
  { apply andb_true_iff in E0 as [Ha%Nat.eqb_eq Hb%Nat.eqb_eq].
    by rewrite (nil_length_inv a), (nil_length_inv b). }
  destruct (_ || _) eqn:E1.
  { simpl. unfold apply_edit.
    replace (drop (length p + length a) (p ++ a ++ s)) with s
      by (by rewrite drop_app_add, drop_app_length).
    by rewrite take_app_length, drop_app_length, take_app_length. }
  destruct diff_trace as (df & snap & Hd & Hle & Hscr & Hc & _). rewrite Hd.
  destruct (Nat.eqb_spec df 0) as [->|Hdf].
  { apply script_no_edits in Hscr as ->; [done|]. by rewrite edit_count_reverse. }
  unfold coalesce_edit_ops.
  destruct (coalesce_loop_spec (S (length (backtrace a df snap na nb [])))
              (reverse (backtrace a df snap na nb [])) (length p) (length p) 0 0
              (p ++ a ++ s) (p ++ b ++ s) a b s s) as (-> & _).
  - rewrite length_reverse. lia.
  - done.
  - by rewrite Nat.add_0_r, drop_app_length.
  - by rewrite Nat.add_0_r, drop_app_length.
  - rewrite !length_app. lia.
  - by rewrite Nat.add_0_r, take_app_length.
Qed.
End MyersProofs.

(** ** Flat buffers *)

Lemma concat_tuples buf : (length buf mod TUPLE_LEN = 0)%nat -> concat (tuples buf) = buf.
Proof.
  remember (length buf) as n eqn:Hn. revert buf Hn.
  induction (lt_wf n) as [n _ IH]; intros buf -> Hm.
  destruct buf as [|v1 [|v2 [|v3 [|v4 [|v5 buf]]]]]; try done.
  simpl. rewrite (IH (length buf)); [done|simpl; lia|done|].
  unfold TUPLE_LEN in *. change (length (v1 :: v2 :: v3 :: v4 :: v5 :: buf))
    with (5 + length buf)%nat in Hm.
  by rewrite <- Nat.Div0.add_mod_idemp_l in Hm.
Qed.

Definition tuple_ok (t : list Z) : Prop := length t = TUPLE_LEN.

Lemma tuples_ok buf : Forall tuple_ok (tuples buf).
Proof.
  remember (length buf) as n eqn:Hn. revert buf Hn.
  induction (lt_wf n) as [n _ IH]; intros buf ->.
  destruct buf as [|v1 [|v2 [|v3 [|v4 [|v5 buf]]]]]; simpl; constructor; [done|].
  apply (IH (length buf)); simpl; lia.
Qed.

Lemma concat_take (l : list (list Z)) n :
  Forall tuple_ok l -> concat (take n l) = take (n * TUPLE_LEN) (concat l).
Proof.
  intros Hl. revert n. induction Hl as [|t l Ht Hl IH]; intros [|n]; simpl; try done.
  rewrite (IH n). unfold tuple_ok, TUPLE_LEN in *.
  change (5 + n * 5)%nat with (5 + (n * 5))%nat. rewrite take_app.
  rewrite Ht, (take_ge t) by lia. do 2 f_equal. lia.
Qed.

Lemma concat_drop (l : list (list Z)) n :
  Forall tuple_ok l -> concat (drop n l) = drop (n * TUPLE_LEN) (concat l).
Proof.
  intros Hl. revert n. induction Hl as [|t l Ht Hl IH]; intros [|n]; try done.
  cbn [drop]. rewrite (IH n). unfold tuple_ok, TUPLE_LEN in *.
  simpl concat. rewrite drop_app, Ht, (drop_ge t) by lia. simpl. f_equal. lia.
Qed.

Lemma apply_ops_flat new_tok ops old_tok :
  Forall tuple_ok old_tok -> Forall tuple_ok new_tok ->
  Forall tuple_ok (apply_ops new_tok ops old_tok) /\
  apply_edits (concat old_tok) ((fun op => build_edit op (concat new_tok)) <$> ops)
    = concat (apply_ops new_tok ops old_tok).
Proof.
  intros Ho Hn. induction ops as [|op ops [IH1 IH2]]; [done|].
  unfold apply_ops in *. cbn [foldr fmap list_fmap]. unfold apply_edits in *. cbn [foldr].
  rewrite IH2. set (acc := foldr _ old_tok ops) in *. split.
  - unfold apply_edit. rewrite !Forall_app. auto using Forall_take, Forall_drop.
  - unfold apply_edit. rewrite !concat_app.
    rewrite !concat_take, !concat_drop by auto using Forall_take, Forall_drop.
    unfold build_edit. cbn [se_start se_deleteCount se_data].
    rewrite <- Nat.mul_add_distr_r. do 2 f_equal.
    destruct (Nat.ltb_spec 0 (insert_tok op)) as [|Hz]; [done|].
    assert (insert_tok op = 0)%nat as -> by lia. by rewrite !take_0.
Qed.

(** ** Trimming *)

Lemma common_prefix_spec {T} `{EqDecision T} (l1 l2 : list T) :
  (common_prefix l1 l2 <= length l1)%nat /\ (common_prefix l1 l2 <= length l2)%nat /\
  take (common_prefix l1 l2) l1 = take (common_prefix l1 l2) l2.
Proof.
  revert l2. induction l1 as [|x l1 IH]; intros [|y l2]; simpl; try (split_and!; [lia|lia|done]).
  destruct (decide (x = y)) as [->|]; simpl; [|split_and!; [lia|lia|done]].
  destruct (IH l2) as (? & ? & E). split_and!; [lia|lia|by rewrite E].
Qed.

(** Both arrays split into a common prefix, a middle and a common suffix. *)
Lemma trim_spec {T} `{EqDecision T} (l1 l2 : list T) :
  let p := common_prefix l1 l2 in
  let s := common_suffix p l1 l2 in
  exists P S, length P = p /\
    l1 = P ++ take (length l1 - p - s) (drop p l1) ++ S /\
    l2 = P ++ take (length l2 - p - s) (drop p l2) ++ S.
Proof.
  intros p s. destruct (common_prefix_spec l1 l2) as (Hp1 & Hp2 & Hp). fold p in Hp1, Hp2, Hp.
  destruct (common_prefix_spec (reverse (drop p l1)) (reverse (drop p l2))) as (Hs1 & Hs2 & Hs).
  fold (common_suffix p l1 l2) in Hs1, Hs2, Hs. fold s in Hs1, Hs2, Hs.
  rewrite length_reverse, length_drop in Hs1, Hs2.
  rewrite !take_reverse, !length_drop in Hs. apply (f_equal reverse) in Hs.
  rewrite !reverse_involutive in Hs.
  exists (take p l1), (drop (length l1 - p - s) (drop p l1)). split_and!.
  - by rewrite length_take, Nat.min_l.
  - by rewrite take_drop, take_drop.
  - by rewrite Hp, Hs, take_drop, take_drop.
Qed.

(** The core fact behind the delta response. *)
Lemma delta_edits_spec prev new rid :
  (length prev mod TUPLE_LEN = 0)%nat -> (length new mod TUPLE_LEN = 0)%nat ->
  apply_edits prev (sd_edits (build_semantic_tokens_delta_json prev new rid)) = new.
Proof.
  intros Hp Hn. unfold build_semantic_tokens_delta_json. cbn [sd_edits].
  destruct (trim_spec (tuples prev) (tuples new)) as (P & S' & HP & E1 & E2).
  set (p := common_prefix (tuples prev) (tuples new)) in *.
  set (s := common_suffix p (tuples prev) (tuples new)) in *.
  set (a := take (length (tuples prev) - p - s) (drop p (tuples prev))) in *.
  set (b := take (length (tuples new) - p - s) (drop p (tuples new))) in *.
  destruct (apply_ops_flat (tuples new) (myers_diff_run a b p p) (tuples prev)
              (tuples_ok prev) (tuples_ok new)) as [_ H2].
  rewrite !concat_tuples in H2 by done. rewrite H2.
  rewrite E1, E2, <- HP, myers_diff_run_spec, <- E2. by apply concat_tuples.
Qed.

(** Every edit of a delta lies on tuple boundaries. *)
Lemma delta_edits_aligned prev new rid :
  Forall (fun e => (se_start e mod TUPLE_LEN = 0)%nat /\ (se_deleteCount e mod TUPLE_LEN = 0)%nat)
    (sd_edits (build_semantic_tokens_delta_json prev new rid)).
Proof.
  unfold build_semantic_tokens_delta_json. cbn [sd_edits]. rewrite Forall_fmap.
  apply Forall_true. intros op. unfold build_edit. cbn [se_start se_deleteCount].
  split; apply Nat.Div0.mod_mul.
Qed.

(** C1: The delta answer of [textDocument/semanticTokens/full/delta] is
    correct: for two data arrays of whole tokens, applying the edits of the
    answer to the old array (offsets counted in the old array) gives exactly
    the new array, every edit starts and deletes on a token boundary, and the
    result id is passed on unchanged. *)
Theorem semantic_tokens_delta_correct prev_buf new_buf result_id :
  (length prev_buf mod TUPLE_LEN = 0)%nat -> (length new_buf mod TUPLE_LEN = 0)%nat ->
  let delta := build_semantic_tokens_delta_json prev_buf new_buf result_id in
  apply_edits prev_buf (sd_edits delta) = new_buf /\
  Forall (fun e => (se_start e mod TUPLE_LEN = 0)%nat /\
                   (se_deleteCount e mod TUPLE_LEN = 0)%nat) (sd_edits delta) /\
  sd_resultId delta = result_id.
Proof.
  intros Hp Hn delta. split_and!; [by apply delta_edits_spec|apply delta_edits_aligned|done].
Qed.

Lemma semantic_tokens_delta_correct_witness :
  let old := [0; 0; 3; 1; 0; 1; 0; 4; 2; 0; 0; 5; 2; 2; 0] in
  let new := [0; 0; 3; 1; 0; 2; 0; 4; 2; 0; 0; 5; 2; 2; 0; 1; 1; 1; 1; 0] in
  sd_edits (build_semantic_tokens_delta_json old new (Some ["7"%char]))
    = [mkSemEdit 5 5 (Some [2; 0; 4; 2; 0]); mkSemEdit 15 0 (Some [1; 1; 1; 1; 0])] /\
  apply_edits old (sd_edits (build_semantic_tokens_delta_json old new (Some ["7"%char]))) = new.
Proof.
  intros old new. split; [vm_compute; reflexivity|].
  exact (proj1 (semantic_tokens_delta_correct old new (Some ["7"%char]) eq_refl eq_refl)).
Defined.

(** C21: The diff is minimal within its size bound: when the two token windows
    together have at most [D_BOUND] tokens, no edit script between them
    deletes and inserts fewer tokens than the returned operations do. *)
Theorem myers_diff_run_minimal {T} `{EqDecision T} (a b : list T) ao bo steps :
  (length a + length b <= D_BOUND)%nat -> script steps a b ->
  (ops_cost (myers_diff_run a b ao bo) <= edit_count steps)%nat.
Proof. intros. by apply myers_cost. Qed.

Lemma myers_diff_run_minimal_witness :
  let a := [1; 2; 3] in let b := [2; 3; 4] in
  (ops_cost (myers_diff_run a b 0 0) = 2)%nat /\
  (ops_cost (myers_diff_run a b 0 0) <= 4)%nat.
Proof.
  intros a b. split; [vm_compute; reflexivity|].
  apply (myers_diff_run_minimal a b 0 0
           [Delete; Snake; Delete; Insert; Insert]); [vm_compute; lia|].
  repeat constructor.
Defined.

(** The buffers of [myers_diff_run] are large enough: whenever the search
    runs, it ends at the far corner with an edit distance of at most [na + nb]
    (the guard for [d_found < 0] is unreachable), the recorded steps fit the
    [na + nb] entries of [raw_kinds], and the coalesced operations fit the
    [d_found] entries of [ops]. *)
Theorem myers_diff_run_buffers {T} `{EqDecision T} (a b : list T) ao bo :
  let max_total := Z.of_nat (length a) + Z.of_nat (length b) in
  exists d_found snap raw_kinds,
    d_loop a b max_total (seq 0 (S (length a + length b)))
      (replicate (2 * (length a + length b) + 1) 0)
      (replicate (Z.to_nat (max_total * (max_total + 1) / 2)) 0)
      = (Some (d_found, Z.of_nat (length a), Z.of_nat (length b)), snap) /\
    (d_found <= length a + length b)%nat /\
    raw_kinds = backtrace a d_found snap (Z.of_nat (length a)) (Z.of_nat (length b)) [] /\
    (length raw_kinds <= length a + length b)%nat /\
    (length (coalesce_edit_ops raw_kinds ao bo) <= d_found)%nat.
Proof.
  intros max_total. destruct (diff_trace a b) as (df & snap & Hd & Hle & Hscr & Hc & _).
  exists df, snap, (backtrace a df snap (Z.of_nat (length a)) (Z.of_nat (length b)) []).
  split_and!; [done|done|done| |].
  - rewrite <- length_reverse. by apply script_length.
  - unfold coalesce_edit_ops. edestruct coalesce_loop_cost as [_ H].
    2:{ etransitivity; [exact H|]. by rewrite edit_count_reverse, Hc. }
    rewrite length_reverse. lia.
Qed.

(** ** Client and server stay in step *)

(** What the client holds for a document: the last result id and its data. *)
Definition client : Type := (list ascii * list Z)%type.

Definition client_apply (c : client) (a : sem_answer) : client :=
  match a with
  | AnswerNull => c
  | AnswerFull rid data => (rid, data)
  | AnswerDelta delta => (default c.1 (sd_resultId delta), apply_edits c.2 (sd_edits delta))
  end.

Lemma docsnap_data_tuples s :
  Forall span_lines_ok (snap_tok_spans s) -> (length (docsnap_data s) mod TUPLE_LEN = 0)%nat.
Proof.
  intros Hs. destruct (sem_loop_bound (snap_tok_spans s) (mkSemState [] 0 0) ([], 0) Hs)
    as (k & Hk & _).
  unfold docsnap_data, compute_semantic_tokens_data. rewrite Hk.
  cbn [sem_buf length]. rewrite Nat.add_0_l, (Nat.mul_comm 5 k). apply Nat.Div0.mod_mul.
Qed.

Lemma delta_base_version rid d prev_snap b :
  delta_base (Some rid) d prev_snap = Some b ->
  strtoull rid = doc_version b /\ (b = d \/ prev_snap = Some b).
Proof.
  unfold delta_base. destruct (Z.eqb_spec (strtoull rid) (doc_version d)).
  { intros [= <-]. auto. }
  destruct prev_snap as [p|]; [|done].
  destruct (Z.eqb_spec (strtoull rid) (doc_version p)); [|done]. intros [= <-]. auto.
Qed.

(** The answer to a delta request, for a client that holds the answer for some
    snapshot [held] of the document: whatever the current snapshot [d] and the
    retained previous one are, as long as equal versions name equal parses, the
    answer (a delta against the current or the previous parse, or the full array
    when the version is unknown) leaves it holding exactly the current result id
    and the current data. *)
Lemma delta_answer_syncs held d prev_snap :
  0 <= doc_version held <= ULLONG_MAX ->
  Forall span_lines_ok (snap_tok_spans d) ->
  Forall span_lines_ok (snap_tok_spans held) ->
  (forall b, b = d \/ prev_snap = Some b -> doc_version b = doc_version held -> b = held) ->
  client_apply (sem_tokens_result_id held, docsnap_data held)
    (handle_semantic_tokens_full_delta (Some (sem_tokens_result_id held)) prev_snap (Some d))
  = (sem_tokens_result_id d, docsnap_data d).
Proof.
  intros Hv Hd Hh Hver. unfold handle_semantic_tokens_full_delta.
  destruct (delta_base _ _ _) as [b|] eqn:E; [|done].
  destruct (delta_base_version _ _ _ _ E) as [Eb Hb].
  unfold sem_tokens_result_id in Eb. rewrite strtoull_print_u64 in Eb by done.
  rewrite (Hver b Hb (eq_sym Eb)). unfold client_apply. cbn [fst snd].
  rewrite delta_edits_spec by (by apply docsnap_data_tuples). done.
Qed.
