(* ===== verification/Store.v ===== *)
(** * [document_store.c]: the table of tracked documents.

    [docs] is the fixed array of [MAX_DOCS] slots; a [Document *] is a slot
    index.  What the program gets from outside is collected in the class
    [Env]: the file system ([realpath] and the bytes [fopen]/[fread] deliver)
    and the generated parser [yyparse].  Every operation runs under one
    environment; different notifications may see different ones. *)

From S2P Require Import Prelude CText PathUri Syntax Owners.

(** ** The environment *)

Record yyparse_result : Set := mkYyparse {
  yy_root : tj_node; yy_tok_spans : list TokenSpan;
  yy_num_sem_entries : Z; yy_includes : list IncludeRef
}.

Class Env : Set := mkEnv {
  realpath : string -> option string;
  file_bytes : string -> option string;
  yyparse : string -> yyparse_result
}.

(** [parse]: run the generated parser on a fresh [ParseOutput], then sort and
    assign owners. *)
Definition parse `{Env} (src : string) : ParseOutput :=
  let r := yyparse src in
  parse_finish (yy_root r) (yy_tok_spans r) (yy_num_sem_entries r) (yy_includes r).

(** [read_file]: the bytes read become a C string, so they end at a NUL. *)
Definition read_file `{Env} (path : string) : option string :=
  c_string <$> file_bytes path.

(** ** Slots *)

Definition MAX_DOCS : nat := 64.

Record Document : Set := mkDocument {
  d_uri : option string;
  d_text : option string;
  d_version : Z;
  d_in_use : bool;
  d_disk_only : bool;
  d_is_cc_root : bool;
  d_snap : option doc_snapshot;
  d_prev_snap : option doc_snapshot;
  d_prefixes : prefix_set;
  d_included_uris : list string
}.

(** A zeroed slot. *)
Definition blank : Document :=
  mkDocument None None 0 false false false None None empty_prefix_set [].

Abbreviation store := (list Document).

Definition docstore_init : store := replicate MAX_DOCS blank.

(** Field updates. *)
Definition set_text (t : option string) (d : Document) : Document :=
  mkDocument (d_uri d) t (d_version d) (d_in_use d) (d_disk_only d) (d_is_cc_root d)
    (d_snap d) (d_prev_snap d) (d_prefixes d) (d_included_uris d).
Definition set_disk_only (b : bool) (d : Document) : Document :=
  mkDocument (d_uri d) (d_text d) (d_version d) (d_in_use d) b (d_is_cc_root d)
    (d_snap d) (d_prev_snap d) (d_prefixes d) (d_included_uris d).
Definition set_cc_root (b : bool) (d : Document) : Document :=
  mkDocument (d_uri d) (d_text d) (d_version d) (d_in_use d) (d_disk_only d) b
    (d_snap d) (d_prev_snap d) (d_prefixes d) (d_included_uris d).
Definition set_snaps (v : Z) (snap prev : option doc_snapshot) (d : Document) : Document :=
  mkDocument (d_uri d) (d_text d) v (d_in_use d) (d_disk_only d) (d_is_cc_root d)
    snap prev (d_prefixes d) (d_included_uris d).
Definition set_prefixes (p : prefix_set) (d : Document) : Document :=
  mkDocument (d_uri d) (d_text d) (d_version d) (d_in_use d) (d_disk_only d) (d_is_cc_root d)
    (d_snap d) (d_prev_snap d) p (d_included_uris d).
Definition set_included (l : list string) (d : Document) : Document :=
  mkDocument (d_uri d) (d_text d) (d_version d) (d_in_use d) (d_disk_only d) (d_is_cc_root d)
    (d_snap d) (d_prev_snap d) (d_prefixes d) l.

(** ** Operations *)

(** [docs[i].in_use && strcmp(docs[i].uri, uri) == 0]. *)
Definition holds_uri (uri : string) (d : Document) : Prop :=
  d_in_use d = true /\ d_uri d = Some uri.

#[global] Instance holds_uri_dec uri d : Decision (holds_uri uri d).
Proof. unfold holds_uri. apply _. Defined.

(** The scanning loop of [doc_find]. *)
Definition find_slot (docs : store) (uri : string) : option nat :=
  fst <$> list_find (holds_uri uri) docs.

(** [doc_find]: by exact text first, then by the canonical form. *)
Definition doc_find `{Env} (docs : store) (uri : string) : option nat :=
  match find_slot docs uri with
  | Some i => Some i
  | None =>
      let canon := normalize_uri realpath uri in
      if bool_decide (canon = uri) then None else find_slot docs canon
  end.

(** [doc_alloc]: the first free slot gets the canonical URI and version 1. *)
Definition claim (uri : string) (d : Document) : Document :=
  mkDocument (Some uri) (d_text d) 1 true (d_disk_only d) (d_is_cc_root d)
    (d_snap d) (d_prev_snap d) (d_prefixes d) (d_included_uris d).

Definition doc_alloc `{Env} (docs : store) (uri : string) : option (nat * store) :=
  let canon := normalize_uri realpath uri in
  match list_find (fun d => d_in_use d = false) docs with
  | Some (i, d) => Some (i, <[i := claim canon d]> docs)
  | None => None
  end.

Definition doc_clear_parse_state (d : Document) : Document :=
  set_snaps (d_version d) None None d.

(** The counter is a [uint64_t]. *)
Definition u64 (z : Z) : Z := (z mod (ULLONG_MAX + 1))%Z.

(** [doc_install_parse]: stamp, build the snapshot, rotate. *)
Definition doc_install_parse (po : option ParseOutput) (d : Document) : Document :=
  match po with
  | Some p =>
      let version := d_version d in
      let fresh := docsnap_new (default EmptyString (d_uri d)) (default EmptyString (d_text d))
                     p version in
      set_snaps (u64 (version + 1)) (Some fresh) (d_snap d) d
  | None => set_snaps (d_version d) None (d_snap d) d
  end.

(** [doc_free]: everything is released and the slot zeroed. *)
Definition doc_free (d : Document) : Document := blank.

(** ** Invariant *)

(** A free slot is a zeroed slot; a used one has a URI; [prev_snap] and [snap]
    carry consecutive stamps, the last one before the counter. *)
Definition slot_ok (d : Document) : Prop :=
  (d_in_use d = false -> d = blank) /\
  (d_in_use d = true -> is_Some (d_uri d) /\ (0 <= d_version d <= ULLONG_MAX)%Z) /\
  (forall s, d_snap d = Some s ->
     snap_uri s = default EmptyString (d_uri d) /\ d_version d = u64 (doc_version s + 1)) /\
  (forall s p, d_snap d = Some s -> d_prev_snap d = Some p ->
     snap_uri p = snap_uri s /\ doc_version s = u64 (doc_version p + 1)).

(** The URIs of used slots are pairwise different. *)
Definition uris_unique (docs : store) : Prop :=
  forall i j di dj uri, docs !! i = Some di -> docs !! j = Some dj ->
    holds_uri uri di -> holds_uri uri dj -> i = j.

Definition store_ok (docs : store) : Prop :=
  length docs = MAX_DOCS /\ Forall slot_ok docs /\ uris_unique docs.

(** Every stored URI is its own canonical form (as long as the files stay
    where they were when their slots were claimed). *)
Definition canonical `{Env} (docs : store) : Prop :=
  forall i d uri, docs !! i = Some d -> holds_uri uri d -> normalize_uri realpath uri = uri.

(** The abstract table: canonical URI to slot. *)
Definition table (docs : store) (uri : string) (i : nat) : Prop :=
  exists d, docs !! i = Some d /\ holds_uri uri d.

(** ** Facts *)

Lemma find_slot_Some docs uri i :
  find_slot docs uri = Some i ->
  exists d, docs !! i = Some d /\ holds_uri uri d.
Proof.
  unfold find_slot. intros H. apply fmap_Some in H as ([j d] & Hf & ->).
  apply list_find_Some in Hf as (Hd & Hp & _). eauto.
Qed.

Lemma find_slot_None docs uri :
  find_slot docs uri = None <-> forall i d, docs !! i = Some d -> ~ holds_uri uri d.
Proof.
  unfold find_slot. rewrite fmap_None, list_find_None, Forall_lookup. done.
Qed.

Lemma find_slot_iff docs uri i :
  uris_unique docs -> find_slot docs uri = Some i <-> table docs uri i.
Proof.
  intros Hu. split; [apply find_slot_Some|]. intros (d & Hd & Hp).
  destruct (find_slot docs uri) as [j|] eqn:E.
  - apply find_slot_Some in E as (d' & Hd' & Hp'). f_equal. by eapply Hu.
  - rewrite find_slot_None in E. by destruct (E _ _ Hd).
Qed.

Lemma doc_find_Some `{Env} docs uri i :
  doc_find docs uri = Some i ->
  table docs uri i \/ table docs (normalize_uri realpath uri) i.
Proof.
  unfold doc_find. destruct (find_slot docs uri) as [j|] eqn:E.
  - intros [= <-]. left. by apply find_slot_Some.
  - case_bool_decide; [done|]. intros Hf. right. by apply find_slot_Some.
Qed.

Lemma doc_find_lt `{Env} docs uri i : doc_find docs uri = Some i -> (i < length docs)%nat.
Proof.
  intros [(d & Hd & _)|(d & Hd & _)]%doc_find_Some; by apply lookup_lt_Some in Hd.
Qed.

(** Nothing found: neither the text nor its canonical form is in the table. *)
Lemma doc_find_None `{Env} docs uri :
  doc_find docs uri = None ->
  forall i d, docs !! i = Some d -> ~ holds_uri uri d /\ ~ holds_uri (normalize_uri realpath uri) d.
Proof.
  unfold doc_find. destruct (find_slot docs uri) as [j|] eqn:E; [done|].
  rewrite find_slot_None in E. case_bool_decide as Hc.
  - rewrite Hc. intros _ i d Hd. split; by eapply E.
  - rewrite find_slot_None. eauto.
Qed.

Lemma slot_ok_blank : slot_ok blank.
Proof. repeat split; simpl; try done; lia. Qed.

(** A change of one slot that keeps its place in the table. *)
Definition keeps_place (f : Document -> Document) : Prop :=
  forall d, d_in_use (f d) = d_in_use d /\ d_uri (f d) = d_uri d.

Lemma keeps_place_holds f uri d : keeps_place f -> holds_uri uri (f d) <-> holds_uri uri d.
Proof. intros Hf. unfold holds_uri. destruct (Hf d) as [-> ->]. done. Qed.

Lemma alter_table f i docs uri j :
  keeps_place f -> table (alter f i docs) uri j <-> table docs uri j.
Proof.
  intros Hf. unfold table. destruct (decide (i = j)) as [->|Hne].
  - rewrite list_lookup_alter_eq. destruct (docs !! j) as [d|]; simpl.
    + split; intros (d' & [= <-] & H); eexists; (split; [reflexivity|]);
        by apply (keeps_place_holds f uri d Hf).
    + split; by intros (d' & [=] & _).
  - by rewrite list_lookup_alter_ne.
Qed.

Lemma uris_unique_table docs :
  uris_unique docs <-> forall uri i j, table docs uri i -> table docs uri j -> i = j.
Proof.
  split.
  - intros H uri i j (di & Hi & Pi) (dj & Hj & Pj). by eapply H.
  - intros H i j di dj uri Hi Hj Pi Pj. apply (H uri); eexists; eauto.
Qed.

Lemma canonical_table `{Env} docs :
  canonical docs <-> forall uri i, table docs uri i -> normalize_uri realpath uri = uri.
Proof.
  split.
  - intros Hc uri i (d & Hd & P). by eapply Hc.
  - intros Hc i d uri Hd P. apply (Hc uri i). by exists d.
Qed.

Lemma store_ok_alter f i docs :
  keeps_place f -> (forall d, docs !! i = Some d -> slot_ok d -> slot_ok (f d)) ->
  store_ok docs -> store_ok (alter f i docs).
Proof.
  intros Hf Hs (Hl & Hok & Hu). split_and!.
  - by rewrite length_alter.
  - rewrite Forall_lookup in *. intros j d. destruct (decide (i = j)) as [->|Hne].
    + rewrite list_lookup_alter_eq, fmap_Some. intros (d0 & Hd & ->). eauto.
    + rewrite list_lookup_alter_ne by done. eauto.
  - rewrite uris_unique_table in *. intros uri a b. rewrite !alter_table by done. eauto.
Qed.

Lemma canonical_alter `{Env} f i docs :
  keeps_place f -> canonical docs -> canonical (alter f i docs).
Proof.
  intros Hf. rewrite !canonical_table. intros Hc uri j. rewrite alter_table by done. eauto.
Qed.

Lemma doc_find_alter `{Env} f i docs uri :
  keeps_place f -> doc_find (alter f i docs) uri = doc_find docs uri.
Proof.
  intros Hf.
  assert (Hs : forall u, find_slot (alter f i docs) u = find_slot docs u).
  { intros u. unfold find_slot. revert i.
    induction docs as [|d docs IH]; intros [|i]; try done; simpl.
    - destruct (decide (holds_uri u (f d))) as [Hp|Hp];
        destruct (decide (holds_uri u d)) as [Hq|Hq]; try done;
        apply (keeps_place_holds f u d Hf) in Hp || apply (keeps_place_holds f u d Hf) in Hq;
        done.
    - destruct (decide (holds_uri u d)); [done|].
      specialize (IH i). change (list_alter f i docs) with (alter f i docs).
      destruct (list_find _ (alter f i docs)) as [[]|], (list_find _ docs) as [[]|];
        cbn in IH |- *; simplify_eq; done. }
  unfold doc_find. by rewrite !Hs.
Qed.

Lemma keeps_set_text t : keeps_place (set_text t). Proof. done. Qed.
Lemma keeps_set_disk_only b : keeps_place (set_disk_only b). Proof. done. Qed.
Lemma keeps_set_cc_root b : keeps_place (set_cc_root b). Proof. done. Qed.
Lemma keeps_set_prefixes p : keeps_place (set_prefixes p). Proof. done. Qed.
Lemma keeps_set_included l : keeps_place (set_included l). Proof. done. Qed.
Lemma keeps_clear : keeps_place doc_clear_parse_state. Proof. done. Qed.
Lemma keeps_install po : keeps_place (doc_install_parse po). Proof. by destruct po. Qed.
Lemma keeps_compose f g : keeps_place f -> keeps_place g -> keeps_place (fun d => g (f d)).
Proof. intros Hf Hg d. destruct (Hf d), (Hg (f d)). split; congruence. Qed.

#[export] Hint Resolve keeps_set_text keeps_set_disk_only keeps_set_cc_root
  keeps_set_prefixes keeps_set_included keeps_clear keeps_install keeps_compose : tjlsp.

(** Slots in use: their plain fields can change freely. *)
Lemma slot_ok_plain (f : Document -> Document) d :
  d_in_use d = true -> d_in_use (f d) = true -> d_uri (f d) = d_uri d ->
  d_version (f d) = d_version d -> d_snap (f d) = d_snap d ->
  d_prev_snap (f d) = d_prev_snap d -> slot_ok d -> slot_ok (f d).
Proof.
  intros Hu Hu' Eu Ev Es Ep (_ & H2 & H3 & H4).
  unfold slot_ok. rewrite Hu', Eu, Ev, Es, Ep. split_and!; eauto. done.
Qed.

Lemma slot_ok_clear d : slot_ok d -> slot_ok (doc_clear_parse_state d).
Proof.
  intros (H1 & H2 & H3 & H4). split_and!; try done.
  intros Hu. by rewrite (H1 Hu).
Qed.

Lemma u64_range z : (0 <= u64 z <= ULLONG_MAX)%Z.
Proof. unfold u64. pose proof (Z.mod_pos_bound z (ULLONG_MAX + 1)). unfold ULLONG_MAX in *. lia. Qed.

Lemma u64_succ_ne z : u64 (z + 1) ≠ z.
Proof.
  unfold u64, ULLONG_MAX. intros He.
  pose proof (Z.div_mod (z + 1) (18446744073709551615 + 1)). lia.
Qed.

Lemma slot_ok_install po d : d_in_use d = true -> slot_ok d -> slot_ok (doc_install_parse po d).
Proof.
  intros Hu (H1 & H2 & H3 & H4). destruct po as [p|]; split_and!; simpl; try congruence.
  - intros _. split; [by apply H2|apply u64_range].
  - intros s [= <-]. done.
  - intros s q [= <-] Hq. destruct (H3 _ Hq) as [-> Hv]. done.
  - intros _. by apply H2.
Qed.

(** [doc_alloc] and [doc_free] change the table at one place. *)
Lemma insert_table docs i d uri j :
  (i < length docs)%nat ->
  table (<[i := d]> docs) uri j <-> (j = i /\ holds_uri uri d) \/ (j ≠ i /\ table docs uri j).
Proof.
  intros Hi. unfold table. destruct (decide (j = i)) as [->|Hne].
  - rewrite list_lookup_insert_eq by done. split.
    + intros (d' & [= <-] & H). auto.
    + intros [[_ H]|[? _]]; [eauto|done].
  - rewrite list_lookup_insert_ne by done. split; [auto|].
    intros [[? _]|[_ ?]]; done.
Qed.

Lemma doc_alloc_spec `{Env} docs uri :
  store_ok docs ->
  match doc_alloc docs uri with
  | Some (i, docs') =>
      docs !! i = Some blank /\ docs' = <[i := claim (normalize_uri realpath uri) blank]> docs /\
      (i < length docs)%nat /\ forall k d, (k < i)%nat -> docs !! k = Some d -> d_in_use d = true
  | None => forall i d, docs !! i = Some d -> d_in_use d = true
  end.
Proof.
  intros (Hl & Hok & Hu). unfold doc_alloc.
  destruct (list_find _ docs) as [[i d]|] eqn:E.
  - apply list_find_Some in E as (Hd & Hf & Hlt). rewrite Forall_lookup in Hok.
    destruct (Hok _ _ Hd) as (Hb & _). rewrite (Hb Hf) in *.
    split_and!; [done..|by apply lookup_lt_Some in Hd|].
    intros k d' Hk Hd'. specialize (Hlt _ _ Hd' Hk). by destruct (d_in_use d').
  - rewrite list_find_None, Forall_lookup in E. intros i d Hd. specialize (E _ _ Hd).
    by destruct (d_in_use d).
Qed.

Lemma slot_ok_claim uri : slot_ok (claim uri blank).
Proof. unfold slot_ok; simpl. by split_and!. Qed.

Lemma doc_alloc_ok `{Env} docs uri i docs' :
  store_ok docs -> doc_alloc docs uri = Some (i, docs') ->
  (forall j, ~ table docs (normalize_uri realpath uri) j) -> store_ok docs'.
Proof.
  intros Hst Ha Hfresh. pose proof (doc_alloc_spec docs uri Hst) as Hs. rewrite Ha in Hs.
  destruct Hs as (Hb & -> & Hi & _). destruct Hst as (Hl & Hok & Hu). split_and!.
  - by rewrite length_insert.
  - apply Forall_insert; [done|apply slot_ok_claim].
  - rewrite uris_unique_table in *. intros u a b. rewrite !insert_table by done.
    intros [[-> Pa]|[Ha' Ta]] [[-> Pb]|[Hb' Tb]]; eauto.
    + destruct Pa as [_ [= <-]]. by destruct (Hfresh b).
    + destruct Pb as [_ [= <-]]. by destruct (Hfresh a).
Qed.

Lemma store_ok_free docs i : store_ok docs -> store_ok (alter doc_free i docs).
Proof.
  intros (Hl & Hok & Hu). split_and!.
  - by rewrite length_alter.
  - rewrite Forall_lookup in *. intros j d. destruct (decide (i = j)) as [->|Hne].
    + rewrite list_lookup_alter_eq, fmap_Some. intros (d0 & Hd & ->). apply slot_ok_blank.
    + rewrite list_lookup_alter_ne by done. eauto.
  - intros a b da db u. destruct (decide (i = a)) as [<-|Ha].
    { rewrite list_lookup_alter_eq, fmap_Some. intros (d0 & _ & ->) _ [? _]. done. }
    destruct (decide (i = b)) as [<-|Hb].
    { rewrite (list_lookup_alter_eq _ docs), fmap_Some. intros _ (d0 & _ & ->) _ [? _]. done. }
    rewrite !list_lookup_alter_ne by done. apply Hu.
Qed.

Lemma store_ok_init : store_ok docstore_init.
Proof.
  split_and!.
  - reflexivity.
  - apply Forall_replicate, slot_ok_blank.
  - intros i j di dj uri [-> _]%lookup_replicate _ [? _]. done.
Qed.

(** In a canonical store, [doc_find] is a lookup by canonical URI. *)
Lemma doc_find_canonical `{Env} docs uri i :
  uris_unique docs -> canonical docs ->
  normalize_uri realpath (normalize_uri realpath uri) = normalize_uri realpath uri ->
  doc_find docs uri = Some i <-> table docs (normalize_uri realpath uri) i.
Proof.
  intros Hu Hc Hn. rewrite canonical_table in Hc. split.
  - intros [Ht|Ht]%doc_find_Some; [|done]. by rewrite (Hc _ _ Ht).
  - intros Ht. unfold doc_find. destruct (find_slot docs uri) as [j|] eqn:E.
    + apply find_slot_iff in E; [|done]. rewrite (Hc _ _ E) in Ht.
      f_equal. by eapply (proj1 (uris_unique_table docs) Hu).
    + case_bool_decide as Heq; [|by apply find_slot_iff].
      rewrite Heq in Ht. apply find_slot_iff in Ht; [|done]. congruence.
Qed.

(** ** Properties *)

(** C31: The slot array implements a table from canonical URIs to documents:
    [doc_find] finds exactly the slot registered under the canonical form of
    any spelling of a URI; allocating a URI that was not found adds exactly that
    entry, in a clean slot, and moves nothing else; it fails only when all 64
    slots are taken; freeing removes exactly that entry.  The invariant of the
    array is kept throughout. *)
Theorem store_refines_table `{Env} docs uri :
  store_ok docs -> canonical docs ->
  normalize_uri realpath (normalize_uri realpath uri) = normalize_uri realpath uri ->
  let canon := normalize_uri realpath uri in
  (forall i, doc_find docs uri = Some i <-> table docs canon i) /\
  (doc_find docs uri = None ->
   match doc_alloc docs uri with
   | Some (i, docs') =>
       docs' !! i = Some (claim canon blank) /\
       (forall u j, table docs' u j <-> (u = canon /\ j = i) \/ table docs u j) /\
       (forall j, j ≠ i -> docs' !! j = docs !! j) /\
       store_ok docs' /\ canonical docs'
   | None => forall i, (i < MAX_DOCS)%nat -> exists d, docs !! i = Some d /\ d_in_use d = true
   end) /\
  (forall i, let docs' := alter doc_free i docs in
     (forall u j, table docs' u j <-> table docs u j /\ j ≠ i) /\
     store_ok docs' /\ canonical docs').
Proof.
  intros Hst Hc Hn canon. pose proof Hst as (Hl & Hok & Hu). split_and!.
  - intros i. by apply doc_find_canonical.
  - intros Hnone. pose proof (doc_alloc_spec docs uri Hst) as Ha.
    destruct (doc_alloc docs uri) as [[i docs']|] eqn:E.
    + destruct Ha as (Hb & -> & Hi & _).
      assert (Ht : forall u j, table (<[i:=claim canon blank]> docs) u j
                               <-> (u = canon /\ j = i) \/ table docs u j).
      { intros u j. rewrite insert_table by done. split.
        - intros [[-> [_ [= ->]]]|[_ ?]]; auto.
        - intros [[-> ->]|Ht]; [by left|]. destruct (decide (j = i)) as [->|]; [|auto].
          destruct Ht as (d & Hd & [Hd' _]). rewrite Hb in Hd. injection Hd as <-. done. }
      split_and!.
      * by apply list_lookup_insert_eq.
      * done.
      * intros j Hj. by rewrite list_lookup_insert_ne.
      * eapply doc_alloc_ok; [done..|]. intros j (d & Hd & Hh).
        by apply (doc_find_None _ _ Hnone _ _ Hd).
      * apply canonical_table. intros u j [[-> _]|Hj]%Ht; [done|].
        by eapply (proj1 (canonical_table docs) Hc).
    + intros i Hi. rewrite <- Hl in Hi. apply lookup_lt_is_Some in Hi as [d Hd]. eauto.
  - intros i docs'.
    assert (Ht : forall u j, table docs' u j <-> table docs u j /\ j ≠ i).
    { intros u j. unfold table, docs'. destruct (decide (i = j)) as [->|Hne].
      - rewrite list_lookup_alter_eq. split; [|by intros []].
        intros (d & Hd & [Hp _]). apply fmap_Some in Hd as (d0 & _ & ->). done.
      - rewrite list_lookup_alter_ne by done. split; [intros ?; split; [done|congruence]|by intros []]. }
    split_and!; [done|by apply store_ok_free|].
    apply canonical_table. intros u j [Hj _]%Ht. by eapply (proj1 (canonical_table docs) Hc).
Qed.

(** An environment whose file system has a directory and a link to it. *)
Definition sample_env : Env :=
  mkEnv sample_realpath (fun _ => None)
    (fun _ => mkYyparse tj_node_new [] 0 []).

Lemma store_refines_table_witness :
  let docs := <[0 := claim "file:///w/a%20b.tjp" blank]> docstore_init in
  @doc_find sample_env docs "file:///w/link.tjp" = Some 0 /\
  @doc_find sample_env docs "file:///w//./a b.tjp" = Some 0 /\
  @doc_find sample_env docs "file:///w/b.tjp" = None /\
  (@doc_find sample_env docs "file:///w/link.tjp" = Some 0 <->
   table docs (normalize_uri sample_realpath "file:///w/link.tjp") 0).
Proof.
  split_and!; [vm_compute; reflexivity..|].
  refine (proj1 (@store_refines_table sample_env _ "file:///w/link.tjp" _ _ _) 0).
  - apply (@doc_alloc_ok sample_env docstore_init "file:///w/link.tjp" 0).
    + apply store_ok_init.
    + reflexivity.
    + intros j (d & [-> _]%lookup_replicate & [? _]). done.
  - apply canonical_table. intros uri i. rewrite insert_table by (vm_compute; lia).
    intros [[_ [_ [= <-]]]|[_ (d & [-> _]%lookup_replicate & [? _])]]; done.
  - reflexivity.
Defined.

(** Semantic-token result ids tell a document's parses apart: installing a
    parse stamps the new snapshot with the counter, steps the counter modulo
    2^64 and keeps the outgoing snapshot as the previous one; in every state the
    slot invariant allows, the current and the previous snapshot carry different
    stamps, and the text and URI of the snapshot are those that were parsed. *)
Theorem install_parse_stamps d po :
  slot_ok d -> d_in_use d = true ->
  let d' := doc_install_parse (Some po) d in
  slot_ok d' /\ d_prev_snap d' = d_snap d /\
  (exists s, d_snap d' = Some s /\ doc_version s = d_version d /\
     Some (snap_uri s) = d_uri d' /\ snap_text s = default EmptyString (d_text d) /\
     snap_tok_spans s = po_tok_spans po /\ snap_root s = po_root po /\
     forall p, d_prev_snap d' = Some p -> doc_version p ≠ doc_version s) /\
  d_version d' ≠ d_version d.
Proof.
  intros Hok Hu d'. pose proof Hok as (_ & Hv & Hs & _). destruct (Hv Hu) as [[uri Huri] Hr].
  split_and!; [by apply slot_ok_install|done| |by apply u64_succ_ne].
  eexists. split_and!; [reflexivity|done|by simpl; rewrite Huri|done..|].
  simpl. intros p Hp. destruct (Hs _ Hp) as [_ He]. intros Heq.
  rewrite He in Heq. by apply (u64_succ_ne (doc_version p)).
Qed.

Lemma install_parse_stamps_witness :
  let po := mkParseOutput tj_node_new [] 0 [] [] in
  let d := set_snaps ULLONG_MAX None None (claim "file:///a.tjp" blank) in
  let d1 := doc_install_parse (Some po) d in
  (doc_version <$> d_snap d1) = Some ULLONG_MAX /\ d_version d1 = 0%Z /\
  d_prev_snap (doc_install_parse (Some po) d1) = d_snap d1.
Proof.
  intros po d d1. split_and!; [reflexivity..|].
  refine (proj1 (proj2 (install_parse_stamps d1 po _ eq_refl))).
  apply slot_ok_install; [done|]. by split_and!.
Defined.
