(* ===== verification/SemSync.v ===== *)
(** * Semantic tokens between the client and one document.

    What can happen to the slot of a document from [doc_alloc] to [doc_free],
    with the requests of a client for its tokens in between, and the theorem that
    the client never drifts.  The stamps of the parses, which are the result
    ids, tell all parses of one such lifetime apart; they start again when the
    slot is freed and taken anew. *)

From S2P Require Import Prelude CText Tokens Syntax SemTokens SemDelta Store.
Local Open Scope Z_scope.

(** The document, its parses so far, oldest first, and what the client holds. *)
Record slot_state : Type := mkSlot {
  sl_doc : Document;
  sl_parses : list doc_snapshot;
  sl_client : option client
}.

(** The slot as [doc_alloc] leaves it. *)
Definition slot_start (uri : string) : slot_state := mkSlot (claim uri blank) [] None.

(** A parse records spans whose lines are in order, as the scanner's are
    ([Scanner.scanned_span_ok]).  A full request without a parse is answered
    with null and leaves the client what it has. *)
Inductive slot_step : slot_state -> slot_state -> Prop :=
  | step_change d l c d' :
      d_version d' = d_version d -> d_snap d' = d_snap d -> d_prev_snap d' = d_prev_snap d ->
      slot_step (mkSlot d l c) (mkSlot d' l c)
  | step_parse d l c po s :
      Forall span_lines_ok (po_tok_spans po) -> d_snap (doc_install_parse (Some po) d) = Some s ->
      slot_step (mkSlot d l c) (mkSlot (doc_install_parse (Some po) d) (l ++ [s]) c)
  | step_no_parse d l c : slot_step (mkSlot d l c) (mkSlot (doc_install_parse None d) l c)
  | step_clear d l c : slot_step (mkSlot d l c) (mkSlot (doc_clear_parse_state d) l c)
  | step_full d l c a :
      handle_semantic_tokens_full (d_snap d) = Some a -> slot_step (mkSlot d l c) (mkSlot d l (Some a))
  | step_delta d l c :
      slot_step (mkSlot d l (Some c))
        (mkSlot d l (Some (client_apply c (handle_semantic_tokens_full_delta (Some c.1) (d_prev_snap d) (d_snap d))))).

(** What the client holds is the answer for one of the parses. *)
Definition answer_for (s : doc_snapshot) : client := (sem_tokens_result_id s, docsnap_data s).

(** The parses are stamped 1, 2, ...; the current and the retained snapshot are
    among them. *)
Record slot_inv (st : slot_state) : Prop := mkSlotInv {
  inv_counter : d_version (sl_doc st) = u64 (1 + Z.of_nat (length (sl_parses st)));
  inv_stamps : forall k s, sl_parses st !! k = Some s -> doc_version s = 1 + Z.of_nat k;
  inv_spans : Forall (fun s => Forall span_lines_ok (snap_tok_spans s)) (sl_parses st);
  inv_snap : forall s, d_snap (sl_doc st) = Some s -> s ∈ sl_parses st;
  inv_prev : forall s, d_prev_snap (sl_doc st) = Some s -> s ∈ sl_parses st;
  inv_client : forall c, sl_client st = Some c -> exists s, s ∈ sl_parses st /\ c = answer_for s
}.

Lemma stamps_distinct st a b : slot_inv st -> a ∈ sl_parses st -> b ∈ sl_parses st ->
  doc_version a = doc_version b -> a = b.
Proof.
  intros Hi [i Ha]%list_elem_of_lookup [j Hb]%list_elem_of_lookup He.
  rewrite (inv_stamps _ Hi _ _ Ha), (inv_stamps _ Hi _ _ Hb) in He. assert (i = j) as -> by lia. congruence.
Qed.

Lemma stamp_range st s : slot_inv st -> Z.of_nat (length (sl_parses st)) <= ULLONG_MAX -> s ∈ sl_parses st ->
  0 <= doc_version s <= ULLONG_MAX.
Proof.
  intros Hi Hl [k Hk]%list_elem_of_lookup. rewrite (inv_stamps _ Hi _ _ Hk). apply lookup_lt_Some in Hk. lia.
Qed.

(** A delta request brings the client up to date. *)
Lemma delta_in_sync st c s : slot_inv st -> Z.of_nat (length (sl_parses st)) <= ULLONG_MAX ->
  sl_client st = Some c -> d_snap (sl_doc st) = Some s ->
  client_apply c (handle_semantic_tokens_full_delta (Some c.1) (d_prev_snap (sl_doc st)) (Some s)) = answer_for s.
Proof.
  intros Hi Hl Hc Hs. destruct (inv_client _ Hi c Hc) as (held & Hin & ->).
  pose proof (inv_snap _ Hi s Hs) as Hsin. pose proof (inv_spans _ Hi) as Hsp. rewrite Forall_forall in Hsp.
  apply delta_answer_syncs; [by eapply stamp_range|by apply Hsp|by apply Hsp|].
  intros b [->|Hb] He; (eapply stamps_distinct; [done| |done|done]); [done|by apply (inv_prev _ Hi)].
Qed.

Lemma slot_step_inv st st' : slot_step st st' -> Z.of_nat (length (sl_parses st')) <= ULLONG_MAX ->
  slot_inv st -> slot_inv st'.
Proof.
  intros Hs Hl Hi. destruct Hs as [d l c d' E1 E2 E3|d l c po s Hsp Hsn|d l c|d l c|d l c a Ha|d l c];
    pose proof Hi as [H1 H2 H3 H4 H5 H6]; cbn in *.
  - by constructor; cbn; rewrite ?E1, ?E2, ?E3.
  - rewrite length_app in Hl. cbn in Hl. injection Hsn as <-. set (s := docsnap_new _ _ _ _).
    assert (Hv : doc_version s = 1 + Z.of_nat (length l)).
    { cbn. rewrite H1. unfold u64. apply Z.mod_small. lia. }
    assert (Hin : forall x, x ∈ l -> x ∈ l ++ [s]) by (intros x Hx; apply elem_of_app; by left).
    constructor; cbn.
    + rewrite H1, length_app. unfold u64. rewrite Zplus_mod_idemp_l. cbn. f_equal. lia.
    + intros k x Hk. apply lookup_app_Some in Hk as [Hk|[Hk Hx]]; [by apply H2|].
      destruct (k - length l)%nat as [|n] eqn:E; [|by destruct n]. injection Hx as <-. rewrite Hv. lia.
    + apply Forall_app. by repeat constructor.
    + intros x [= <-]. apply elem_of_app. right. by left.
    + intros x Hx. by apply Hin, H4.
    + intros a Ha. destruct (H6 a Ha) as (x & Hx & ->). exists x. by split; [apply Hin|].
  - by constructor; cbn.
  - by constructor; cbn.
  - constructor; cbn; try done. intros b [= <-]. unfold handle_semantic_tokens_full in Ha.
    destruct (d_snap d) as [s|] eqn:Hd; [|done]. injection Ha as <-. exists s. by split; [apply H4|].
  - constructor; cbn; try done. intros b [= <-]. destruct (d_snap d) as [s|] eqn:Hd; [|by apply H6].
    exists s. split; [by apply H4|]. by apply (delta_in_sync (mkSlot d l (Some c))).
Qed.

Lemma slot_run_inv uri st : rtc slot_step (slot_start uri) st ->
  Z.of_nat (length (sl_parses st)) <= ULLONG_MAX -> slot_inv st.
Proof.
  revert st. apply (rtc_ind_r (fun st => Z.of_nat (length (sl_parses st)) <= ULLONG_MAX -> slot_inv st)).
  - intros _. by constructor.
  - intros st1 st2 _ Hs IH Hl. eapply slot_step_inv; [exact Hs|done|]. apply IH.
    destruct Hs; cbn in *; rewrite ?length_app in Hl; lia.
Qed.

(** C27: A client never drifts from the server while a document stays in its
    slot.  From [doc_alloc] on, for any sequence of edits, parses (fewer than
    2^64) and token requests of a client that sends the result id it holds: what
    the client holds is at every moment the answer for one of the parses, and
    whatever a delta request is answered with (a delta against the current or
    the previous parse, or the full array when the version is unknown) leaves it
    with exactly the result id and the data of the current parse.  A client that
    keeps its result id while the slot is freed and taken anew is not covered:
    the stamps start again. *)
Theorem semantic_tokens_client_sync uri st :
  rtc slot_step (slot_start uri) st -> Z.of_nat (length (sl_parses st)) <= ULLONG_MAX ->
  (forall c, sl_client st = Some c -> exists s, s ∈ sl_parses st /\ c = answer_for s) /\
  forall c s, sl_client st = Some c -> d_snap (sl_doc st) = Some s ->
    client_apply c (handle_semantic_tokens_full_delta (Some c.1) (d_prev_snap (sl_doc st)) (Some s))
    = (sem_tokens_result_id s, docsnap_data s).
Proof.
  intros Hr Hl. pose proof (slot_run_inv uri st Hr Hl) as Hi. split; [apply Hi|].
  intros c s Hc Hs. by apply (delta_in_sync st).
Qed.

(** ** Examples *)

Definition tokens_parse (spans : list TokenSpan) : ParseOutput := mkParseOutput tj_node_new spans 0 [] [].

Definition parsed_once (spans : list TokenSpan) : Document :=
  doc_install_parse (Some (tokens_parse spans)) (claim "file:///a.tjp" blank).

(** The tokens are asked for after the first parse, and again after a second. *)
Definition first_snap : doc_snapshot := default (docsnap_new "" "" (tokens_parse []) 0) (d_snap (parsed_once sample_spans)).
Definition parsed_twice : Document := doc_install_parse (Some (tokens_parse (drop 1 sample_spans))) (parsed_once sample_spans).
Definition second_snap : doc_snapshot := default (docsnap_new "" "" (tokens_parse []) 0) (d_snap parsed_twice).

Definition second_state : slot_state := mkSlot parsed_twice [first_snap; second_snap] (Some (answer_for first_snap)).

Lemma second_state_run : rtc slot_step (slot_start "file:///a.tjp") second_state.
Proof.
  assert (Hsp : Forall span_lines_ok sample_spans) by (repeat constructor; vm_compute; congruence).
  eapply rtc_l; [by apply (step_parse _ _ _ (tokens_parse sample_spans) first_snap)|].
  eapply rtc_l; [by apply (step_full _ _ _ (answer_for first_snap))|].
  apply rtc_once. apply (step_parse _ [first_snap] _ (tokens_parse (drop 1 sample_spans)) second_snap); [|done].
  by apply Forall_drop.
Qed.

Lemma semantic_tokens_client_sync_witness :
  handle_semantic_tokens_full_delta (Some ["1"%char]) (Some first_snap) (Some second_snap)
    = AnswerDelta (mkSemDelta (Some ["2"%char]) [mkSemEdit 0 10 (Some [1; 5; 2; 4; 0])]) /\
  client_apply (answer_for first_snap)
    (handle_semantic_tokens_full_delta (Some (sem_tokens_result_id first_snap)) (Some first_snap) (Some second_snap))
  = (sem_tokens_result_id second_snap, docsnap_data second_snap).
Proof.
  split; [vm_compute; reflexivity|].
  apply (proj2 (semantic_tokens_client_sync "file:///a.tjp" second_state second_state_run ltac:(vm_compute; congruence))); reflexivity.
Defined.

(** After the slot was freed and taken anew the first parse has the stamp the
    client may still hold: it is sent an empty delta and keeps the old data. *)
Example stamps_restart :
  let held := answer_for first_snap in
  let reopened := parsed_once (drop 1 sample_spans) in
  client_apply held (handle_semantic_tokens_full_delta (Some held.1) (d_prev_snap reopened) (d_snap reopened)) = held /\
  (snd ∘ answer_for <$> d_snap reopened) <> Some held.2.
Proof. split; [vm_compute; reflexivity|by vm_compute]. Qed.
