(* ===== verification/Workspace.v ===== *)
(** * [workspace.c], loading: files, includes and compile commands.

    Loading a file parses it and loads every file it includes, recursively;
    the recursion ends because every level claims a slot of the document table
    before it recurses. *)

From S2P Require Import Prelude CText PathUri Syntax Owners Store.

Section Loading.
Context `{Env}.

(** ** Include paths *)

(** The text before the last ['/'], when there is one. *)
Fixpoint dir_of (path : string) : option string :=
  match path with
  | EmptyString => None
  | String c rest =>
      match dir_of rest with
      | Some d => Some (String c d)
      | None => if bool_decide (c = slash) then Some EmptyString else None
      end
  end.

Definition resolve_include_path (includer_path filename : string) : string :=
  match dir_of includer_path with
  | Some dir => if is_absolute filename then filename
                else (dir +:+ String slash filename)%string
  | None => filename
  end.

(** ** [follow_includes] *)

Definition append_included (uri : string) (d : Document) : Document :=
  set_included (d_included_uris d ++ [uri]) d.

(** [alter] at a slot that may be NULL. *)
Definition alter_slot (f : Document -> Document) (i : option nat) (docs : store) : store :=
  match i with Some i => alter f i docs | None => docs end.

(** One round of the loop: load the file, hand this include's prefixes to its
    document, record the URI on the includer. *)
Definition follow_include (load : store -> string -> option store) (file_path : string)
    (includer : option nat) (docs : store) (inc : IncludeRef) : option store :=
  let full_path := resolve_include_path file_path (filename inc) in
  docs1 ← load docs full_path;
  let target_uri := path_to_uri full_path in
  let docs2 := alter_slot (set_prefixes (prefix_set_copy (Some (inc_prefixes inc))))
                 (doc_find docs1 target_uri) docs1 in
  Some (alter_slot (append_included target_uri) includer docs2).

Fixpoint follow_loop (load : store -> string -> option store) (file_path : string)
    (includer : option nat) (docs : store) (incs : list IncludeRef) : option store :=
  match incs with
  | [] => Some docs
  | inc :: incs' =>
      docs1 ← follow_include load file_path includer docs inc;
      follow_loop load file_path includer docs1 incs'
  end.

Definition follow_includes_with (load : store -> string -> option store) (docs : store)
    (file_path : string) (po : ParseOutput) : option store :=
  let includer := doc_find docs (path_to_uri file_path) in
  follow_loop load file_path includer (alter_slot (set_included []) includer docs)
    (po_includes po).

(** ** [load_file_from_disk] *)

(** [None] only when the recursion is cut by the fuel. *)
Fixpoint load_file_from_disk (fuel : nat) (docs : store) (path : string) : option store :=
  match fuel with
  | O => None
  | S fuel' =>
      let uri := path_to_uri path in
      match doc_find docs uri with
      | Some _ => Some docs
      | None =>
          match read_file path with
          | None => Some docs
          | Some text =>
              match doc_alloc docs uri with
              | None => Some docs
              | Some (i, docs1) =>
                  let docs2 := alter (fun d => set_disk_only true (set_text (Some text) d)) i docs1 in
                  let po := parse text in
                  docs3 ← follow_includes_with (load_file_from_disk fuel') docs2 path po;
                  Some (alter (doc_install_parse (Some po)) i docs3)
              end
          end
      end
  end.

(** Enough for any table: one level per slot, and one that finds it full. *)
Definition LOAD_FUEL : nat := S MAX_DOCS.

Definition load_file (docs : store) (path : string) : store :=
  default docs (load_file_from_disk LOAD_FUEL docs path).

Definition follow_includes (docs : store) (file_path : string) (po : ParseOutput) : store :=
  default docs (follow_includes_with (load_file_from_disk LOAD_FUEL) docs file_path po).

(** [install_disk_text] on the document in slot [i]. *)
Definition install_disk_text (docs : store) (i : nat) (text path : string) : store :=
  let docs1 := alter (fun d => set_disk_only true (set_text (Some text) d)) i docs in
  let po := parse text in
  alter (doc_install_parse (Some po)) i (follow_includes docs1 path po).

(** ** Specification *)

(** [docs'] extends [docs]: a used slot keeps everything but its prefixes, and
    gets [g i] appended to its included URIs. *)
Definition extends (g : nat -> list string) (docs docs' : store) : Prop :=
  length docs' = length docs /\
  forall i d, docs !! i = Some d -> d_in_use d = true ->
    exists p, docs' !! i = Some (set_prefixes p (set_included (d_included_uris d ++ g i) d)).

Definition has_free (docs : store) : Prop :=
  exists i d, docs !! i = Some d /\ d_in_use d = false.

Definition include_path (path : string) (inc : IncludeRef) : string :=
  resolve_include_path path (filename inc).

(** A readable file has a document, unless the table is full. *)
Definition covered (docs : store) (path : string) : Prop :=
  is_Some (read_file path) -> has_free docs -> is_Some (doc_find docs (path_to_uri path)).

Definition include_uris (path : string) (incs : list IncludeRef) : list string :=
  (fun inc => path_to_uri (include_path path inc)) <$> incs.

(** What a slot filled by loading holds. *)
Definition loaded (docs : store) (d : Document) : Prop :=
  d_disk_only d = true /\ d_is_cc_root d = false /\ d_prev_snap d = None /\ d_version d = 2%Z /\
  exists path text, let uri := normalize_uri realpath (path_to_uri path) in
    d_uri d = Some uri /\ read_file path = Some text /\ d_text d = Some text /\
    d_snap d = Some (docsnap_new uri text (parse text) 1) /\
    d_included_uris d = include_uris path (po_includes (parse text)) /\
    Forall (fun inc => covered docs (include_path path inc)) (po_includes (parse text)).

Definition load_post (g : nat -> list string) (docs docs' : store) : Prop :=
  store_ok docs' /\ extends g docs docs' /\
  forall i d', docs' !! i = Some d' -> d_in_use d' = true ->
    (exists d, docs !! i = Some d /\ d_in_use d = true) \/ loaded docs' d'.

Definition free_slots (docs : store) : nat :=
  length (filter (fun d => d_in_use d = false) docs).

Definition no_appends : nat -> list string := fun _ => [].

(** ** Facts *)

Lemma set_nothing d : set_prefixes (d_prefixes d) (set_included (d_included_uris d ++ []) d) = d.
Proof. rewrite app_nil_r. by destruct d. Qed.

Lemma extends_refl docs : extends no_appends docs docs.
Proof. split; [done|]. intros i d Hd _. exists (d_prefixes d). by rewrite set_nothing. Qed.

Lemma extends_trans g1 g2 a b c :
  extends g1 a b -> extends g2 b c -> extends (fun i => g1 i ++ g2 i) a c.
Proof.
  intros [L1 H1] [L2 H2]. split; [congruence|]. intros i d Hd Hu.
  destruct (H1 _ _ Hd Hu) as [p Hp]. destruct (H2 _ _ Hp Hu) as [q Hq].
  exists q. rewrite Hq. cbn. by rewrite app_assoc.
Qed.

Lemma extends_free g docs docs' i d' :
  extends g docs docs' -> docs' !! i = Some d' -> d_in_use d' = false ->
  exists d, docs !! i = Some d /\ d_in_use d = false.
Proof.
  intros [Hl Hx] Hd Hf. assert (Hi := lookup_lt_Some _ _ _ Hd). rewrite Hl in Hi.
  apply lookup_lt_is_Some in Hi as [d E]. exists d. split; [done|].
  destruct (d_in_use d) eqn:Hu; [|done].
  destruct (Hx _ _ E Hu) as [p Hp]. rewrite Hd in Hp. injection Hp as ->. cbn in Hf. congruence.
Qed.

Lemma extends_has_free g docs docs' : extends g docs docs' -> has_free docs' -> has_free docs.
Proof. intros Hx (i & d & Hd & Hf). exists i. by eapply extends_free. Qed.

Lemma extends_table g docs docs' uri i :
  extends g docs docs' -> table docs uri i -> table docs' uri i.
Proof.
  intros [_ Hx] (d & Hd & Hu & He). destruct (Hx _ _ Hd Hu) as [p Hp].
  eexists. split; [exact Hp|]. done.
Qed.

(** What is found stays found. *)
Lemma doc_find_found docs uri :
  is_Some (doc_find docs uri) <->
  exists i, table docs uri i \/ table docs (normalize_uri realpath uri) i.
Proof.
  split.
  - intros [i Hi%doc_find_Some]. eauto.
  - intros [i Hi]. destruct (doc_find docs uri) as [j|] eqn:E; [done|].
    destruct Hi as [(d & Hd & Hp)|(d & Hd & Hp)];
      by destruct (doc_find_None _ _ E _ _ Hd).
Qed.

Lemma extends_found g docs docs' uri :
  extends g docs docs' -> is_Some (doc_find docs uri) -> is_Some (doc_find docs' uri).
Proof.
  intros Hx. rewrite !doc_find_found. intros [i [Hi|Hi]]; exists i; [left|right];
    by eapply extends_table.
Qed.

Lemma extends_covered g docs docs' path :
  extends g docs docs' -> covered docs path -> covered docs' path.
Proof.
  intros Hx Hc Hr Hf. eapply extends_found; [done|]. apply Hc; [done|].
  by eapply extends_has_free.
Qed.

Lemma extends_free_slots g docs docs' :
  extends g docs docs' -> (free_slots docs' <= free_slots docs)%nat.
Proof.
  intros Hx. assert (HF : Forall2 (fun d d' => d_in_use d' = false -> d_in_use d = false) docs docs').
  { apply Forall2_same_length_lookup_2; [by destruct Hx|]. intros i d d' Hd Hd' Hf.
    destruct (extends_free _ _ _ _ _ Hx Hd' Hf) as (d0 & Hd0 & ?). congruence. }
  unfold free_slots. clear Hx. induction HF as [|d d' l l' Hh _ IH]; [done|].
  rewrite !filter_cons.
  case_decide as E'; case_decide as E; simpl; try lia. by destruct (E (Hh E')).
Qed.

Lemma free_slots_claim docs i d :
  docs !! i = Some blank -> d_in_use d = true ->
  (S (free_slots (<[i := d]> docs)) = free_slots docs)%nat.
Proof.
  intros Hi Hu. unfold free_slots. rewrite insert_take_drop by by apply lookup_lt_Some in Hi.
  assert (E : docs = take i docs ++ blank :: drop (S i) docs) by by rewrite take_drop_middle.
  rewrite E at 3. rewrite !filter_app, !length_app.
  rewrite filter_cons_False, (filter_cons_True _ blank) by (done || congruence). simpl. lia.
Qed.

Lemma loaded_set_prefixes docs p d : loaded docs d -> loaded docs (set_prefixes p d).
Proof. done. Qed.

Lemma loaded_extends g docs docs' d : extends g docs docs' -> loaded docs d -> loaded docs' d.
Proof.
  intros Hx (H1 & H2 & H3 & H4 & path & text & P1 & P2 & P3 & P4 & P5 & P6).
  split_and!; try done. exists path, text. split_and!; try done.
  eapply Forall_impl; [done|]. intros inc. by apply (extends_covered g).
Qed.

Lemma load_post_refl docs : store_ok docs -> load_post no_appends docs docs.
Proof. intros Hst. split_and!; [done|apply extends_refl|]. eauto. Qed.

(** Steps compose when the second one appends only to slots of the first. *)
Lemma load_post_trans g1 g2 a b c :
  load_post g1 a b -> load_post g2 b c ->
  (forall i d, b !! i = Some d -> d_in_use d = true ->
     g2 i ≠ [] -> exists d0, a !! i = Some d0 /\ d_in_use d0 = true) ->
  load_post (fun i => g1 i ++ g2 i) a c.
Proof.
  intros (_ & X1 & N1) (S2 & X2 & N2) Hg. split_and!; [done|by eapply extends_trans|].
  intros i d Hd Hu. destruct (N2 _ _ Hd Hu) as [(db & Hb & Hub)|?]; [|by right].
  destruct (N1 _ _ Hb Hub) as [?|Hl]; [by left|].
  destruct (decide (g2 i = [])) as [E|E]; [|left; by eapply Hg].
  right. destruct X2 as [HL X2']. destruct (X2' _ _ Hb Hub) as [p Hp].
  rewrite E, app_nil_r in Hp. rewrite Hd in Hp. injection Hp as ->.
  apply (loaded_extends g2 b); [done|]. revert Hl. by destruct db.
Qed.

Lemma load_post_ext g g' docs docs' :
  (forall i, g i = g' i) -> load_post g docs docs' -> load_post g' docs docs'.
Proof.
  intros Hg (S1 & [L X] & N). split_and!; [done| |done].
  split; [done|]. intros i d. rewrite <- Hg. apply X.
Qed.

(** Appends at the includer's slot only. *)
Definition app_at (o : option nat) (l : list string) (i : nat) : list string :=
  if decide (o = Some i) then l else [].

Definition used (docs : store) (o : option nat) : Prop :=
  forall i, o = Some i -> exists d, docs !! i = Some d /\ d_in_use d = true.

Lemma used_extends g docs docs' o : extends g docs docs' -> used docs o -> used docs' o.
Proof.
  intros [_ X] Hu i Ho. destruct (Hu _ Ho) as (d & Hd & Hi). destruct (X _ _ Hd Hi) as [p Hp].
  by eexists.
Qed.

Lemma doc_find_used docs uri : used docs (doc_find docs uri).
Proof. intros i [(d & Hd & Hu & _)|(d & Hd & Hu & _)]%doc_find_Some; eauto. Qed.

(** One used slot changes its prefixes and gets [l] appended. *)
Lemma load_post_alter f o l docs :
  keeps_place f ->
  (forall d, exists p, f d = set_prefixes p (set_included (d_included_uris d ++ l) d)) ->
  used docs o -> store_ok docs -> load_post (app_at o l) docs (alter_slot f o docs).
Proof.
  intros Hk Hf Hu Hst. destruct o as [i|]; simpl; [|by apply load_post_refl].
  destruct (Hu i eq_refl) as (di & Hdi & Hui). split_and!.
  - apply store_ok_alter; [done| |done]. intros d Hd Hok. destruct (Hf d) as [p Hp].
    apply slot_ok_plain; rewrite ?Hp; simpl; congruence || done.
  - split; [by rewrite length_alter|]. intros j d Hd Huse. unfold app_at.
    destruct (decide (i = j)) as [->|Hne].
    + destruct (Hf d) as [p Hp]. exists p.
      rewrite list_lookup_alter_eq, Hd, decide_True by done. simpl. by rewrite Hp.
    + rewrite list_lookup_alter_ne, decide_False by congruence.
      exists (d_prefixes d). by rewrite set_nothing.
  - intros j d Hd Huse. left. destruct (decide (i = j)) as [->|Hne]; [by eauto|].
    rewrite list_lookup_alter_ne in Hd by done. eauto.
Qed.

Section Follow.
Variable n : nat.
Variable load : store -> string -> option store.
Hypothesis load_spec : forall docs path,
  store_ok docs -> (free_slots docs <= n)%nat ->
  exists docs', load docs path = Some docs' /\ load_post no_appends docs docs' /\
                covered docs' path.

Lemma follow_include_post file_path o docs inc :
  store_ok docs -> (free_slots docs <= n)%nat -> used docs o ->
  let uri := path_to_uri (include_path file_path inc) in
  exists docs', follow_include load file_path o docs inc = Some docs' /\
    load_post (app_at o [uri]) docs docs' /\ covered docs' (include_path file_path inc).
Proof.
  intros Hst Hn Hu uri. unfold follow_include. fold (include_path file_path inc).
  destruct (load_spec docs (include_path file_path inc) Hst Hn) as (d1 & -> & P1 & C1).
  cbn [mbind option_bind]. fold uri.
  set (d2 := alter_slot _ (doc_find d1 uri) d1).
  assert (P2 : load_post no_appends d1 d2).
  { eapply load_post_ext; [|apply (load_post_alter _ _ []);
      [auto with tjlsp| |apply doc_find_used|by destruct P1]].
    - intros i. unfold app_at. by case_decide.
    - intros d. eexists. rewrite app_nil_r. by destruct d. }
  assert (P3 : load_post (app_at o [uri]) d2 (alter_slot (append_included uri) o d2)).
  { apply load_post_alter; [done| | |by destruct P2].
    - intros d. exists (d_prefixes d). by destruct d.
    - eapply used_extends; [by apply P2|]. eapply used_extends; [by apply P1|done]. }
  pose proof (load_post_trans _ _ _ _ _ P1 P2) as P12.
  eexists. split; [reflexivity|]. split.
  - eapply load_post_ext; [|eapply load_post_trans; [apply P12|exact P3|]]; [done|done|].
    intros i d Hd Hi Hne. unfold app_at in Hne. case_decide; [|done]. by apply Hu.
  - eapply extends_covered; [apply P3|]. eapply extends_covered; [apply P2|done].
Qed.

Lemma follow_loop_post file_path o incs : forall docs,
  store_ok docs -> (free_slots docs <= n)%nat -> used docs o ->
  exists docs', follow_loop load file_path o docs incs = Some docs' /\
    load_post (app_at o (include_uris file_path incs)) docs docs' /\
    Forall (fun inc => covered docs' (include_path file_path inc)) incs.
Proof.
  induction incs as [|inc incs IH]; intros docs Hst Hn Hu; cbn [follow_loop].
  - exists docs. split_and!; [done| |by constructor].
    eapply load_post_ext; [|by apply load_post_refl]. intros i. unfold app_at. by case_decide.
  - destruct (follow_include_post file_path o docs inc Hst Hn Hu) as (d1 & -> & P1 & C1).
    cbn [mbind option_bind].
    destruct (IH d1) as (d2 & -> & P2 & C2).
    + by destruct P1.
    + pose proof (extends_free_slots _ _ _ (proj1 (proj2 P1))). lia.
    + eapply used_extends; [by apply P1|done].
    + exists d2. split_and!; [done| |].
      * eapply load_post_ext; [|eapply load_post_trans; [exact P1|exact P2|]].
        -- intros i. unfold app_at. by case_decide.
        -- intros i d Hd Hi Hne. unfold app_at in Hne. case_decide; [|done]. by apply Hu.
      * constructor; [|done]. eapply extends_covered; [apply P2|done].
Qed.

End Follow.

Lemma lookup_alter_claim (docs : store) (i : nat) d f :
  (i < length docs)%nat -> alter f i (<[i := d]> docs) = <[i := f d]> docs.
Proof.
  intros Hi. apply list_eq. intros j. destruct (decide (i = j)) as [<-|Hne].
  - by rewrite list_lookup_alter_eq, !list_lookup_insert_eq.
  - by rewrite list_lookup_alter_ne, !list_lookup_insert_ne.
Qed.

(** Installing a parse in a used slot hides nothing. *)
Lemma covered_install docs i d po path :
  docs !! i = Some d -> d_in_use d = true ->
  covered docs path -> covered (alter (doc_install_parse po) i docs) path.
Proof.
  intros Hd Hu Hc Hr (k & dk & Hk & Hfk). rewrite doc_find_alter by auto with tjlsp.
  apply Hc; [done|]. destruct (decide (i = k)) as [<-|Hne].
  - rewrite list_lookup_alter_eq, Hd in Hk. injection Hk as <-.
    destruct (keeps_install po d) as [Hk _]. congruence.
  - rewrite list_lookup_alter_ne in Hk by done. by exists k, dk.
Qed.

(** Claiming a free slot and filling it. *)
Lemma load_fill docs i d g docs3 po :
  store_ok docs -> docs !! i = Some blank -> d_in_use d = true ->
  (forall j, j ≠ i -> g j = []) ->
  load_post g (<[i := d]> docs) docs3 ->
  (forall p, loaded (alter (doc_install_parse (Some po)) i docs3)
    (doc_install_parse (Some po) (set_prefixes p (set_included (d_included_uris d ++ g i) d)))) ->
  load_post no_appends docs (alter (doc_install_parse (Some po)) i docs3).
Proof.
  intros Hst Hb Hu Hg (S3 & [L3 X3] & N3) Hl.
  assert (Hi : (i < length docs)%nat) by by apply lookup_lt_Some in Hb.
  destruct (X3 i d) as [p Hp]; [by apply list_lookup_insert_eq|done|].
  split_and!.
  - apply store_ok_alter; [auto with tjlsp| |done]. intros d' Hd' Hok.
    apply slot_ok_install; [|done]. rewrite Hp in Hd'. by injection Hd' as <-.
  - split; [by rewrite length_alter, L3, length_insert|]. intros j dj Hj Huj.
    assert (Hne : j ≠ i) by (intros ->; rewrite Hb in Hj; by injection Hj as <-).
    destruct (X3 j dj) as [q Hq]; [by rewrite list_lookup_insert_ne|done|].
    exists q. rewrite list_lookup_alter_ne, Hq by done. by rewrite Hg.
  - intros j d' Hd' Huj. destruct (decide (j = i)) as [->|Hne].
    + right. rewrite list_lookup_alter_eq, Hp in Hd'. injection Hd' as <-. apply Hl.
    + rewrite list_lookup_alter_ne in Hd' by done.
      destruct (N3 _ _ Hd' Huj) as [(d0 & Hd0 & Hu0)|Hl0].
      * left. rewrite list_lookup_insert_ne in Hd0 by done. eauto.
      * right. destruct Hl0 as (H1 & H2 & H3 & H4 & path & text & P1 & P2 & P3 & P4 & P5 & P6).
        split_and!; try done. exists path, text. split_and!; try done.
        eapply Forall_impl; [exact P6|]. intros inc. by eapply covered_install.
Qed.

(** The slot just claimed is what the URI now finds. *)
Lemma doc_find_claimed docs i d uri :
  (i < length docs)%nat -> doc_find docs uri = None -> uris_unique (<[i := d]> docs) ->
  holds_uri (normalize_uri realpath uri) d -> doc_find (<[i := d]> docs) uri = Some i.
Proof.
  intros Hi Ef Hu Hh. set (canon := normalize_uri realpath uri) in *.
  assert (Ht : table (<[i:=d]> docs) canon i) by (apply insert_table; [done|]; by left).
  unfold doc_find. destruct (find_slot (<[i:=d]> docs) uri) as [j|] eqn:Ej.
  - apply find_slot_iff in Ej; [|done]. apply insert_table in Ej; [|done].
    destruct Ej as [[-> _]|[_ (d0 & Hd & Hp)]]; [done|].
    by destruct (doc_find_None _ _ Ef _ _ Hd).
  - fold canon. case_bool_decide as Hc; [|by apply find_slot_iff].
    rewrite Hc in Ht. apply find_slot_iff in Ht; [congruence|done].
Qed.

(** The document while its file is being loaded. *)
Definition loading (canon text : string) : Document :=
  set_disk_only true (set_text (Some text) (claim canon blank)).

Lemma store_ok_loading docs uri i docs1 text :
  store_ok docs -> doc_find docs uri = None -> doc_alloc docs uri = Some (i, docs1) ->
  store_ok (alter (fun d => set_disk_only true (set_text (Some text) d)) i docs1) /\
  alter (fun d => set_disk_only true (set_text (Some text) d)) i docs1
    = <[i := loading (normalize_uri realpath uri) text]> docs /\
  docs !! i = Some blank.
Proof.
  intros Hst Ef Ea. pose proof (doc_alloc_spec docs uri Hst) as Ha. rewrite Ea in Ha.
  destruct Ha as (Hb & -> & Hi & _). split_and!; [|by apply lookup_alter_claim|done].
  apply store_ok_alter; [done| |eapply doc_alloc_ok; [done..|]].
  - intros d Hd. rewrite list_lookup_insert_eq in Hd by done. injection Hd as <-.
    by apply (slot_ok_plain (fun d => set_disk_only true (set_text (Some text) d))).
  - intros j (d & Hd & Hp). by destruct (doc_find_None _ _ Ef _ _ Hd).
Qed.

Lemma load_total fuel : forall docs path,
  store_ok docs -> (free_slots docs < fuel)%nat ->
  exists docs', load_file_from_disk fuel docs path = Some docs' /\
    load_post no_appends docs docs' /\ covered docs' path.
Proof.
  induction fuel as [|fuel IH]; intros docs path Hst Hf; [lia|]. cbn [load_file_from_disk].
  set (uri := path_to_uri path).
  destruct (doc_find docs uri) as [i0|] eqn:Ef.
  { exists docs. split_and!; [done|by apply load_post_refl|]. intros _ _. by eexists. }
  destruct (read_file path) as [text|] eqn:Er.
  2: { exists docs. split_and!; [done|by apply load_post_refl|]. intros []. congruence. }
  destruct (doc_alloc docs uri) as [[i docs1]|] eqn:Ea.
  2: { pose proof (doc_alloc_spec docs uri Hst) as Ha. rewrite Ea in Ha.
       exists docs. split_and!; [done|by apply load_post_refl|].
       intros _ (i & d & Hd & Hfree). specialize (Ha _ _ Hd). congruence. }
  destruct (store_ok_loading docs uri i docs1 text Hst Ef Ea) as (S2 & E2 & Hb).
  rewrite E2 in *. set (d2 := loading _ text) in *.
  assert (Hi : (i < length docs)%nat) by by apply lookup_lt_Some in Hb.
  unfold follow_includes_with. fold uri.
  rewrite doc_find_claimed by (done || apply S2). cbn [alter_slot].
  rewrite lookup_alter_claim by done. change (set_included [] d2) with d2.
  set (po := parse text). pose proof (free_slots_claim docs i d2 Hb eq_refl) as Hfree.
  destruct (follow_loop_post (pred fuel) (load_file_from_disk fuel)) with
    (file_path := path) (o := Some i) (incs := po_includes po) (docs := <[i := d2]> docs)
    as (docs3 & -> & P3 & C3).
  { intros docs' path' Hst' Hf'. apply IH; [done|]. lia. }
  { done. } { lia. }
  { intros j [= <-]. exists d2. by rewrite list_lookup_insert_eq. }
  cbn [mbind option_bind]. set (docs4 := alter _ i docs3).
  destruct (proj2 (proj1 (proj2 P3)) i d2) as [p Hp]; [by apply list_lookup_insert_eq|done|].
  exists docs4. split_and!; [done| |].
  - eapply load_fill; [done|done| | |exact P3|]; [done| |].
    + intros j Hj. unfold app_at. case_decide; congruence.
    + intros q. split_and!; try done. exists path, text. unfold app_at.
      rewrite decide_True by done. fold uri. split_and!; try done.
      eapply Forall_impl; [exact C3|]. intros inc. by eapply covered_install.
  - intros _ _. rewrite doc_find_found. exists i. right. fold uri.
    eexists. unfold docs4. rewrite list_lookup_alter_eq, Hp. by split.
Qed.

Lemma free_slots_lt docs : store_ok docs -> (free_slots docs < LOAD_FUEL)%nat.
Proof.
  intros (Hl & _). unfold free_slots, LOAD_FUEL. pose proof (length_filter (fun d => d_in_use d = false) docs).
  rewrite Hl in *. lia.
Qed.

Lemma load_file_ok docs path : store_ok docs -> store_ok (load_file docs path).
Proof.
  intros Hst. destruct (load_total LOAD_FUEL docs path Hst (free_slots_lt _ Hst)) as (d' & E & P & _).
  unfold load_file. rewrite E. apply P.
Qed.

(** [follow_includes] never runs out of fuel either. *)
Lemma follow_includes_post docs path po :
  store_ok docs ->
  let o := doc_find docs (path_to_uri path) in
  let docs' := follow_includes docs path po in
  load_post (app_at o (include_uris path (po_includes po))) (alter_slot (set_included []) o docs) docs' /\
  Forall (fun inc => covered docs' (include_path path inc)) (po_includes po).
Proof.
  intros Hst o docs'.
  assert (S1 : store_ok (alter_slot (set_included []) o docs)).
  { destruct o as [i|] eqn:Eo; [|done]. apply store_ok_alter; [auto with tjlsp| |done].
    intros d Hd. destruct (doc_find_used docs (path_to_uri path) i Eo) as (d' & Hd' & Hu).
    rewrite Hd in Hd'. injection Hd' as <-. by apply slot_ok_plain. }
  destruct (follow_loop_post MAX_DOCS (load_file_from_disk LOAD_FUEL)) with
    (file_path := path) (o := o) (incs := po_includes po) (docs := alter_slot (set_included []) o docs)
    as (docs3 & E & P3 & C3).
  { intros d p Hd Hf. apply load_total; [done|]. unfold LOAD_FUEL. lia. }
  { done. } { pose proof (free_slots_lt _ S1) as Hlt. unfold LOAD_FUEL in Hlt. lia. }
  { intros i Ho. destruct (doc_find_used docs (path_to_uri path) i Ho) as (d & Hd & Hu).
    rewrite Ho. exists (set_included [] d). cbn. by rewrite list_lookup_alter_eq, Hd. }
  assert (docs' = docs3) as ->.
  { unfold docs', follow_includes, follow_includes_with. fold o. by rewrite E. }
  done.
Qed.

(** ** Properties *)

(** C28: Loading a file terminates for every file system and every include graph
    (cycles included), within 65 levels.  Afterwards the file is in the table
    unless it is unreadable or the table is full; every document that was there
    before keeps its text, its parses, its owner and its include list (only the
    include prefixes may be set anew); and every document that was added is a
    background document holding the file's bytes, their parse, and the resolved
    URIs of its includes, each of which is again in the table under the same
    conditions. *)
Theorem load_file_correct docs path :
  store_ok docs ->
  let docs' := load_file docs path in
  load_file_from_disk LOAD_FUEL docs path = Some docs' /\
  store_ok docs' /\ covered docs' path /\
  (forall i d, docs !! i = Some d -> d_in_use d = true ->
     exists p, docs' !! i = Some (set_prefixes p d)) /\
  (forall i d', docs' !! i = Some d' -> d_in_use d' = true ->
     (exists d, docs !! i = Some d /\ d_in_use d = true) \/ loaded docs' d').
Proof.
  intros Hst docs'.
  destruct (load_total LOAD_FUEL docs path Hst (free_slots_lt _ Hst)) as (d' & E & P & C).
  assert (docs' = d') as -> by (unfold docs', load_file; by rewrite E).
  destruct P as (S & [_ X] & N). split_and!; try done.
  intros i d Hd Hu. destruct (X _ _ Hd Hu) as [p Hp]. exists p. rewrite Hp.
  unfold no_appends. rewrite app_nil_r. by destruct d.
Qed.

End Loading.

(** Two files that include each other, one with a task prefix, and a missing
    include. *)
Definition task_prefix_set (t : string) : prefix_set := mkPrefixSet (Some t) None None None.

Definition cyclic_env : Env :=
  mkEnv (fun _ => None)
    (fun p => if bool_decide (p = "/w/a.tjp"%string) then Some "A"%string
              else if bool_decide (p = "/w/b.tji"%string) then Some "B"%string else None)
    (fun t => mkYyparse tj_node_new [] 0
       (if bool_decide (t = "A"%string) then [mkInclude "b.tji" (task_prefix_set "x")]
        else [mkInclude "/w/./a.tjp" empty_prefix_set; mkInclude "missing.tji" empty_prefix_set])).

Lemma load_file_correct_witness :
  let docs' := @load_file cyclic_env docstore_init "/w/a.tjp" in
  (d_uri <$> docs' !! 0) = Some (Some "file:///w/a.tjp"%string) /\
  (d_included_uris <$> docs' !! 1)
    = Some ["file:///w/./a.tjp"; "file:///w/missing.tji"]%string /\
  (d_prefixes <$> docs' !! 1) = Some (task_prefix_set "x") /\
  (d_in_use <$> docs' !! 2) = Some false /\
  store_ok docs'.
Proof.
  intros docs'. split_and!; [vm_compute; reflexivity..|].
  apply (@load_file_correct cyclic_env docstore_init "/w/a.tjp" store_ok_init).
Defined.
