(* ===== verification/Assembly.v ===== *)
(** * [workspace.c] and [query_context.c]: assembling the workspace snapshot.

    [build_workspace_snapshot] turns the document table into the immutable
    [workspace_snapshot] that queries read: one [ws_doc] per parsed document,
    one project per compile-commands root with its include closure copied into
    one tree, and one singleton project for every document no closure reached. *)

From S2P Require Import Prelude CText PathUri Tokens Syntax Owners TokenQuery ProjectTree Store Workspace.

(** ** Snapshot data *)

Record ws_doc : Set := mkWsDoc {
  wd_snap : option doc_snapshot;
  wd_prefixes : prefix_set;
  wd_project_index : Z;
  wd_disk_only : bool
}.

Record ws_project : Set := mkWsProject {
  wp_id : option string;
  wp_root : ProjectNode;
  wp_from_compile_commands : bool
}.

Record workspace_snapshot : Set := mkWs {
  ws_docs : list ws_doc;
  ws_projects : list ws_project;
  ws_cc_status : Z
}.

(** [ws_alloc]: zeroed entries that belong to no project. *)
Definition zero_ws_doc : ws_doc := mkWsDoc None empty_prefix_set (-1) false.
Definition ws_alloc (num_docs : nat) : workspace_snapshot :=
  mkWs (replicate num_docs zero_ws_doc) [] 0.

(** [ws_add_project]: a zeroed project at the end; its index. *)
Definition ws_add_project (ws : workspace_snapshot) (id : option string)
  : nat * workspace_snapshot :=
  (length (ws_projects ws),
   mkWs (ws_docs ws) (ws_projects ws ++ [mkWsProject id empty_project_root false])
     (ws_cc_status ws)).

Definition alter_project (f : ws_project -> ws_project) (pidx : nat) (ws : workspace_snapshot)
  : workspace_snapshot :=
  mkWs (ws_docs ws) (alter f pidx (ws_projects ws)) (ws_cc_status ws).
Definition alter_ws_doc (f : ws_doc -> ws_doc) (i : Z) (ws : workspace_snapshot)
  : workspace_snapshot :=
  if (i <? 0)%Z then ws
  else mkWs (alter f (Z.to_nat i) (ws_docs ws)) (ws_projects ws) (ws_cc_status ws).

Definition set_index (pidx : nat) (w : ws_doc) : ws_doc :=
  mkWsDoc (wd_snap w) (wd_prefixes w) (Z.of_nat pidx) (wd_disk_only w).
Definition set_root (f : ProjectNode -> ProjectNode) (p : ws_project) : ws_project :=
  mkWsProject (wp_id p) (f (wp_root p)) (wp_from_compile_commands p).
Definition set_from_cc (p : ws_project) : ws_project :=
  mkWsProject (wp_id p) (wp_root p) true.

(** ** Copying a document *)

(** The cast [(prefix_kind) kind]; a project block has no prefix. *)
Definition prefix_kind_of (k : NodeKind) : option prefix_kind :=
  match k with
  | NODE_KIND_TASK => Some PREFIX_TASK | NODE_KIND_ACCOUNT => Some PREFIX_ACCOUNT
  | NODE_KIND_RESOURCE => Some PREFIX_RESOURCE | NODE_KIND_REPORT => Some PREFIX_REPORT
  | NODE_KIND_OTHER => None
  end.

(** One round of the loop over top-level declarations. *)
Definition copy_declaration (source_uri : option string) (prefixes : prefix_set)
    (proot : ProjectNode) (child : tj_node) : ProjectNode :=
  let kind := node_kind_of (tn_keyword child) in
  match prefix_kind_of kind with
  | None => proot
  | Some k =>
      match find_node_by_dotted_path proot (prefix_get (Some prefixes) k) kind with
      | None => proot
      | Some target =>
          project_node_append_child proot target (project_node_from_tj source_uri child)
      end
  end.

Definition copy_document_into_project (d : Document) (proot : ProjectNode) : ProjectNode :=
  match d_snap d with
  | None => proot
  | Some s => foldl (copy_declaration (d_uri d) (d_prefixes d)) proot (tn_children (snap_root s))
  end.

(** ** Slots and snapshot documents *)

Definition is_parsed (d : Document) : bool := d_in_use d && bool_decide (is_Some (d_snap d)).

(** The first loop of [build_workspace_snapshot]. *)
Fixpoint number_slots (docs : store) (ndoc : Z) : list Z :=
  match docs with
  | [] => []
  | d :: docs' => if is_parsed d then ndoc :: number_slots docs' (ndoc + 1)
                  else (-1)%Z :: number_slots docs' ndoc
  end.

Definition slot_to_wsdoc (docs : store) : list Z := number_slots docs 0.

Definition ws_doc_index_of (stw : list Z) (i : nat) : Z := aget stw (Z.of_nat i).

Definition populate_ws_doc (d : Document) (w : ws_doc) : ws_doc :=
  mkWsDoc (d_snap d) (prefix_set_copy (Some (d_prefixes d))) (wd_project_index w) (d_disk_only d).

(** ** Projects *)

Definition assign_doc_to_project (stw : list Z) (pidx : nat) (docs : store)
    (ws : workspace_snapshot) (i : nat) : workspace_snapshot :=
  match docs !! i with
  | None => ws
  | Some d =>
      let ws1 := alter_project (set_root (copy_document_into_project d)) pidx ws in
      alter_ws_doc (fun w => if (wd_project_index w <? 0)%Z then set_index pidx w else w)
        (ws_doc_index_of stw i) ws1
  end.

(** The queue, the visited list and the snapshot under construction. *)
Record bfs_state : Set := mkBfs {
  bfs_queue : list nat; bfs_visited : list nat; bfs_ws : workspace_snapshot
}.

(** The body of the inner loop, for one included URI. *)
Definition visit_include `{Env} (stw : list Z) (pidx : nat) (docs : store)
    (st : bfs_state) (uri : string) : bfs_state :=
  match doc_find docs uri with
  | None => st
  | Some c =>
      match docs !! c ≫= d_snap with
      | None => st
      | Some _ =>
          if bool_decide (c ∈ bfs_visited st) then st
          else mkBfs (bfs_queue st ++ [c]) (bfs_visited st ++ [c])
                 (assign_doc_to_project stw pidx docs (bfs_ws st) c)
      end
  end.

(** [while (q_head < q_len)]. *)
Fixpoint bfs_loop `{Env} (fuel : nat) (stw : list Z) (pidx : nat) (docs : store)
    (st : bfs_state) : option bfs_state :=
  match fuel with
  | O => None
  | S fuel' =>
      match bfs_queue st with
      | [] => Some st
      | cur :: queue' =>
          let uris := default [] (d_included_uris <$> docs !! cur) in
          bfs_loop fuel' stw pidx docs
            (foldl (visit_include stw pidx docs)
               (mkBfs queue' (bfs_visited st) (bfs_ws st)) uris)
      end
  end.

(** Each round takes a slot that no earlier round took. *)
Definition BFS_FUEL : nat := S MAX_DOCS.

Definition project_populate_from_root `{Env} (stw : list Z) (docs : store)
    (ws : workspace_snapshot) (pidx root : nat) : workspace_snapshot :=
  default ws (bfs_ws <$>
    bfs_loop BFS_FUEL stw pidx docs
      (mkBfs [root] [root] (assign_doc_to_project stw pidx docs ws root))).

(** ** [build_workspace_snapshot] *)

Definition populate_slot (stw : list Z) (ws : workspace_snapshot) (i : nat) (d : Document)
  : workspace_snapshot :=
  alter_ws_doc (populate_ws_doc d) (ws_doc_index_of stw i) ws.

(** One round of pass 1. *)
Definition add_cc_root `{Env} (stw : list Z) (docs : store) (ws : workspace_snapshot) (i : nat)
    (root : Document) : workspace_snapshot :=
  if d_in_use root && d_is_cc_root root && bool_decide (is_Some (d_snap root)) then
    let '(pidx, ws1) := ws_add_project ws (d_uri root) in
    project_populate_from_root stw docs (alter_project set_from_cc pidx ws1) pidx i
  else ws.

(** One round of pass 2. *)
Definition add_orphan (stw : list Z) (ws : workspace_snapshot) (i : nat) (d : Document)
  : workspace_snapshot :=
  let wsd := ws_doc_index_of stw i in
  if (wsd <? 0)%Z then ws
  else if (0 <=? default (-1) (wd_project_index <$> ws_docs ws !! Z.to_nat wsd))%Z then ws
  else
    let '(pidx, ws1) := ws_add_project ws (d_uri d) in
    alter_ws_doc (set_index pidx) wsd
      (alter_project (set_root (copy_document_into_project d)) pidx ws1).

Fixpoint fold_slots {A} (f : A -> nat -> Document -> A) (i : nat) (docs : store) (a : A) : A :=
  match docs with
  | [] => a
  | d :: docs' => fold_slots f (S i) docs' (f a i d)
  end.

Definition set_cc_status (status : Z) (ws : workspace_snapshot) : workspace_snapshot :=
  mkWs (ws_docs ws) (ws_projects ws) status.

Definition build_workspace_snapshot `{Env} (docs : store) (cc_status : Z) : workspace_snapshot :=
  let stw := slot_to_wsdoc docs in
  let ndoc := length (filter (fun d => is_parsed d = true) docs) in
  let ws := set_cc_status cc_status (fold_slots (populate_slot stw) 0 docs (ws_alloc ndoc)) in
  let ws1 := fold_slots (add_cc_root stw docs) 0 docs ws in
  fold_slots (add_orphan stw) 0 docs ws1.

(** ** Specification *)

Definition parsed (docs : store) (i : nat) : Prop :=
  exists d, docs !! i = Some d /\ is_parsed d = true.

(** Document [i] includes document [j]. *)
Definition include_edge `{Env} (docs : store) (i j : nat) : Prop :=
  exists d uri, docs !! i = Some d /\ uri ∈ d_included_uris d /\
    doc_find docs uri = Some j /\ parsed docs j.

(** [v] lists the include closure of [r], once each, [r] first. *)
Definition is_closure `{Env} (docs : store) (r : nat) (v : list nat) : Prop :=
  NoDup v /\ head v = Some r /\ forall i, i ∈ v <-> rtc (include_edge docs) r i.

Definition copy_slot (docs : store) (n : ProjectNode) (i : nat) : ProjectNode :=
  match docs !! i with Some d => copy_document_into_project d n | None => n end.

(** ** The include search *)

Definition included_doc `{Env} (docs : store) (uri : string) : option nat :=
  match doc_find docs uri with
  | None => None
  | Some c => match docs !! c ≫= d_snap with Some _ => Some c | None => None end
  end.

Lemma visit_include_eq `{Env} stw pidx docs st uri :
  visit_include stw pidx docs st uri =
  match included_doc docs uri with
  | None => st
  | Some c => if bool_decide (c ∈ bfs_visited st) then st
              else mkBfs (bfs_queue st ++ [c]) (bfs_visited st ++ [c])
                     (assign_doc_to_project stw pidx docs (bfs_ws st) c)
  end.
Proof.
  unfold visit_include, included_doc. destruct (doc_find docs uri); [|done].
  by destruct (_ ≫= d_snap).
Qed.

Lemma included_doc_parsed `{Env} docs uri c :
  included_doc docs uri = Some c <-> doc_find docs uri = Some c /\ parsed docs c.
Proof.
  unfold included_doc, parsed, is_parsed.
  destruct (doc_find docs uri) as [j|] eqn:E; [|naive_solver].
  assert (Hj : exists d, docs !! j = Some d /\ d_in_use d = true).
  { apply doc_find_Some in E as [(d & Hd & Hu & _)|(d & Hd & Hu & _)]; eauto. }
  destruct Hj as (d & Hd & Hu). rewrite Hd. cbn. split.
  - destruct (d_snap d) eqn:Es; [|done]. intros [= <-]. split; [done|].
    exists d. by rewrite Hd, Hu, Es.
  - intros [[= <-] (d' & Hd' & Hp)]. rewrite Hd in Hd'. injection Hd' as <-.
    rewrite Hu in Hp. by destruct (d_snap d).
Qed.

Lemma closed_reach {A} (R : A -> A -> Prop) (v : list A) x y :
  (forall i j, i ∈ v -> R i j -> j ∈ v) -> rtc R x y -> x ∈ v -> y ∈ v.
Proof. intros Hc Hr. induction Hr; eauto. Qed.

Section Bfs.
Context `{Env}.
Variables (stw : list Z) (pidx : nat) (docs : store).

Abbreviation assign := (assign_doc_to_project stw pidx docs).

(** Scanning one document's includes appends the unseen ones, once each. *)
Lemma visit_includes uris : forall q v ws, NoDup v ->
  exists new, foldl (visit_include stw pidx docs) (mkBfs q v ws) uris
      = mkBfs (q ++ new) (v ++ new) (foldl assign ws new) /\
    NoDup (v ++ new) /\
    (forall j, j ∈ v ++ new <-> j ∈ v \/ exists uri, uri ∈ uris /\ included_doc docs uri = Some j).
Proof.
  induction uris as [|uri uris IH]; intros q v ws Hnd; cbn [foldl].
  - exists []. rewrite !app_nil_r. split_and!; [done..|]. intros j. split; [auto|].
    intros [?|(u & Hu & _)]; [done|]. by apply elem_of_nil in Hu.
  - rewrite visit_include_eq. cbn [bfs_visited bfs_queue bfs_ws].
    destruct (included_doc docs uri) as [c|] eqn:Ec; [case_bool_decide as Hc|].
    + destruct (IH q v ws Hnd) as (new & -> & Hnd' & Hin). exists new. split_and!; [done..|].
      intros j. rewrite Hin. setoid_rewrite elem_of_cons. split; [naive_solver|].
      intros [?|(u & [->|?] & Hu)]; [auto| |eauto]. left. congruence.
    + destruct (IH (q ++ [c]) (v ++ [c]) (assign ws c)) as (new & -> & Hnd' & Hin).
      { apply NoDup_app. split_and!; [done| |apply NoDup_singleton].
        intros x Hx ->%list_elem_of_singleton. done. }
      exists (c :: new). rewrite <- !app_assoc in *. split_and!; [done..|].
      intros j. cbn in Hin |- *. rewrite Hin, elem_of_app, list_elem_of_singleton.
      setoid_rewrite elem_of_cons. naive_solver.
    + destruct (IH q v ws Hnd) as (new & -> & Hnd' & Hin). exists new. split_and!; [done..|].
      intros j. rewrite Hin. setoid_rewrite elem_of_cons. split; [naive_solver|].
      intros [?|(u & [->|?] & Hu)]; [auto|congruence|eauto].
Qed.

Lemma bounded_nodup (v : list nat) n : NoDup v -> (forall i, i ∈ v -> (i < n)%nat) -> (length v <= n)%nat.
Proof.
  intros Hnd Hb. rewrite <- (length_seq n 0). apply submseteq_length, NoDup_submseteq; [done|].
  intros i Hi%Hb. apply elem_of_seq. lia.
Qed.

Variable root : nat.
Hypothesis len : length docs = MAX_DOCS.

(** The search state: the queue is the part of the visited list that is still
    to be scanned. *)
Definition bfs_inv (ws0 : workspace_snapshot) (popped : list nat) (st : bfs_state) : Prop :=
  bfs_visited st = popped ++ bfs_queue st /\ NoDup (bfs_visited st) /\
  head (bfs_visited st) = Some root /\
  bfs_ws st = foldl assign ws0 (bfs_visited st) /\
  (forall i, i ∈ bfs_visited st -> (i < MAX_DOCS)%nat /\ rtc (include_edge docs) root i) /\
  (forall i j, i ∈ popped -> include_edge docs i j -> j ∈ bfs_visited st).

Lemma bfs_step ws0 popped cur queue v ws :
  bfs_inv ws0 popped (mkBfs (cur :: queue) v ws) ->
  bfs_inv ws0 (popped ++ [cur])
    (foldl (visit_include stw pidx docs) (mkBfs queue v ws)
       (default [] (d_included_uris <$> docs !! cur))).
Proof.
  intros (Hv & Hnd & Hhd & Hws & Hin & Hcl). cbn in *.
  destruct (visit_includes (default [] (d_included_uris <$> docs !! cur)) queue v ws Hnd)
    as (new & -> & Hnd' & Hnew).
  assert (Hcur : cur ∈ v) by (rewrite Hv; set_solver).
  assert (Hedge : forall j, include_edge docs cur j <->
    exists uri, uri ∈ default [] (d_included_uris <$> docs !! cur) /\ included_doc docs uri = Some j).
  { intros j. unfold include_edge. setoid_rewrite included_doc_parsed.
    destruct (docs !! cur) as [d|] eqn:E; simpl.
    - split; [intros (d' & u & [= <-] & ? & ? & ?); eauto|intros (u & ? & ? & ?); eauto 6].
    - split; [intros (? & ? & [=] & _)|intros (u & Hu%elem_of_nil & _)]; done. }
  split_and!; cbn.
  - by rewrite Hv, <- !app_assoc.
  - done.
  - by destruct v.
  - by rewrite foldl_app, <- Hws.
  - intros i [Hi|Hi]%Hnew; [by apply Hin|].
    assert (He : include_edge docs cur i) by by apply Hedge. split.
    + destruct He as (_ & _ & _ & _ & _ & d & Hd & _). apply lookup_lt_Some in Hd. lia.
    + eapply rtc_r; [by apply Hin|done].
  - intros i j [Hi| ->%list_elem_of_singleton]%elem_of_app He.
    + apply elem_of_app. left. by eapply Hcl.
    + apply Hnew. right. by apply Hedge.
Qed.

Lemma bfs_loop_correct ws0 fuel : forall popped st,
  bfs_inv ws0 popped st -> (MAX_DOCS < fuel + length popped)%nat ->
  exists st', bfs_loop fuel stw pidx docs st = Some st' /\
    is_closure docs root (bfs_visited st') /\ bfs_ws st' = foldl assign ws0 (bfs_visited st').
Proof.
  induction fuel as [|fuel IH]; intros popped st Hinv Hf.
  - destruct Hinv as (Hv & Hnd & _ & _ & Hin & _).
    pose proof (bounded_nodup (bfs_visited st) MAX_DOCS Hnd (fun i Hi => proj1 (Hin i Hi))) as Hl.
    rewrite Hv, length_app in Hl. lia.
  - destruct st as [[|cur queue] v ws]; cbn [bfs_loop bfs_queue bfs_visited bfs_ws].
    + eexists. split; [done|]. destruct Hinv as (Hv & Hnd & Hhd & Hws & Hin & Hcl). cbn in *.
      rewrite app_nil_r in Hv. subst popped. split; [|done]. split; [done|]. split; [done|].
      intros i. split; [intros Hi; by apply Hin|]. intros Hr. eapply closed_reach; [exact Hcl|done|].
      destruct v; simplify_eq/=; set_solver.
    + apply (IH (popped ++ [cur])).
      * by apply bfs_step.
      * rewrite length_app. simpl. lia.
Qed.

End Bfs.

(** The closure is copied and stamped document by document. *)
Lemma populate_from_root_spec `{Env} stw docs ws pidx root :
  length docs = MAX_DOCS -> (root < MAX_DOCS)%nat ->
  exists v, is_closure docs root v /\
    project_populate_from_root stw docs ws pidx root
      = foldl (assign_doc_to_project stw pidx docs) ws v.
Proof.
  intros Hl Hr. unfold project_populate_from_root.
  destruct (bfs_loop_correct stw pidx docs root Hl ws BFS_FUEL []
    (mkBfs [root] [root] (assign_doc_to_project stw pidx docs ws root))) as (st & -> & Hc & Hws).
  - split_and!; cbn; [done|apply NoDup_singleton|done|done| |].
    + by intros i ->%list_elem_of_singleton.
    + by intros i j Hi%elem_of_nil.
  - unfold BFS_FUEL. unfold MAX_DOCS. simpl. lia.
  - exists (bfs_visited st). by split.
Qed.

(** ** The snapshot documents as a view of the slots *)

Definition ws_doc_of (d : Document) (k : Z) : ws_doc :=
  mkWsDoc (d_snap d) (d_prefixes d) k (d_disk_only d).

(** One entry per parsed slot, in slot order; [idx] gives its project. *)
Fixpoint ws_view (idx : nat -> Z) (i : nat) (docs : store) : list ws_doc :=
  match docs with
  | [] => []
  | d :: docs' => if is_parsed d then ws_doc_of d (idx i) :: ws_view idx (S i) docs'
                  else ws_view idx (S i) docs'
  end.

Definition num_parsed (docs : store) : nat :=
  length (filter (fun d => is_parsed d = true) docs).

Lemma num_parsed_cons d docs :
  num_parsed (d :: docs) = ((if is_parsed d then 1 else 0) + num_parsed docs)%nat.
Proof.
  unfold num_parsed. rewrite filter_cons. destruct (is_parsed d) eqn:E; case_decide; congruence || done.
Qed.

Lemma number_slots_lookup docs j d n :
  docs !! j = Some d -> number_slots docs n !! j =
    Some (if is_parsed d then (n + Z.of_nat (num_parsed (take j docs)))%Z else (-1)%Z).
Proof.
  revert j n. induction docs as [|d0 docs IH]; intros [|j] n; cbn [lookup list_lookup]; try done.
  - intros [= ->]. cbn [number_slots]. destruct (is_parsed d); [|done]. cbn. f_equal. lia.
  - intros Hd. cbn [number_slots take]. rewrite num_parsed_cons.
    destruct (is_parsed d0); cbn; rewrite (IH _ _ Hd); destruct (is_parsed d); try done.
    f_equal. lia.
Qed.

Lemma slot_index docs j d :
  docs !! j = Some d ->
  ws_doc_index_of (slot_to_wsdoc docs) j =
    if is_parsed d then Z.of_nat (num_parsed (take j docs)) else (-1)%Z.
Proof.
  intros Hd. unfold ws_doc_index_of, aget, slot_to_wsdoc.
  destruct (Z.ltb_spec (Z.of_nat j) 0); [lia|].
  rewrite Nat2Z.id, (number_slots_lookup docs j d) by done. cbn. by destruct (is_parsed d).
Qed.

Definition upd (idx : nat -> Z) (i : nat) (g : Z -> Z) (j : nat) : Z :=
  if decide (j = i) then g (idx j) else idx j.

Lemma ws_view_ext idx idx' i docs :
  (forall j d, docs !! j = Some d -> is_parsed d = true -> idx (i + j)%nat = idx' (i + j)%nat) ->
  ws_view idx i docs = ws_view idx' i docs.
Proof.
  revert i. induction docs as [|d docs IH]; intros i Hx; [done|]. cbn.
  rewrite (IH (S i)).
  - destruct (is_parsed d) eqn:E; [|done]. specialize (Hx 0 d eq_refl E).
    rewrite Nat.add_0_r in Hx. by rewrite Hx.
  - intros j d' Hd Hp. specialize (Hx (S j) d' Hd Hp). by rewrite Nat.add_succ_r in Hx.
Qed.

Lemma ws_view_alter f g idx i docs j d :
  docs !! j = Some d -> is_parsed d = true ->
  (forall k, f (ws_doc_of d k) = ws_doc_of d (g k)) ->
  alter f (num_parsed (take j docs)) (ws_view idx i docs) = ws_view (upd idx (i + j) g) i docs.
Proof.
  intros Hd Hp Hf. revert i j Hd. induction docs as [|d0 docs IH]; intros i [|j] Hd; try done.
  - injection Hd as ->. cbn. rewrite Hp. cbn. rewrite Hf. f_equal.
    + unfold upd. rewrite decide_True by lia. done.
    + apply ws_view_ext. intros j d' _ _. unfold upd. by rewrite decide_False by lia.
  - cbn [take]. rewrite num_parsed_cons. cbn [ws_view].
    specialize (IH (S i) j Hd). rewrite Nat.add_succ_r.
    destruct (is_parsed d0); cbn; [|exact IH].
    f_equal; [|exact IH]. unfold upd. by rewrite decide_False by lia.
Qed.

Lemma ws_view_lookup idx i docs j d :
  docs !! j = Some d -> is_parsed d = true ->
  ws_view idx i docs !! num_parsed (take j docs) = Some (ws_doc_of d (idx (i + j)%nat)).
Proof.
  intros Hd Hp. revert i j Hd. induction docs as [|d0 docs IH]; intros i [|j] Hd; try done.
  - injection Hd as ->. cbn. rewrite Hp. cbn. by rewrite Nat.add_0_r.
  - cbn [take]. rewrite num_parsed_cons. cbn [ws_view].
    specialize (IH (S i) j Hd). rewrite Nat.add_succ_r.
    destruct (is_parsed d0); cbn; exact IH.
Qed.

(** Updating the entry of a parsed slot. *)
Lemma alter_ws_doc_view f g idx docs i d projs st :
  docs !! i = Some d -> is_parsed d = true ->
  (forall k, f (ws_doc_of d k) = ws_doc_of d (g k)) ->
  alter_ws_doc f (ws_doc_index_of (slot_to_wsdoc docs) i) (mkWs (ws_view idx 0 docs) projs st)
    = mkWs (ws_view (upd idx i g) 0 docs) projs st.
Proof.
  intros Hd Hp Hf. rewrite (slot_index docs i d Hd), Hp. unfold alter_ws_doc.
  destruct (Z.ltb_spec (Z.of_nat (num_parsed (take i docs))) 0); [lia|].
  rewrite Nat2Z.id. cbn. by rewrite (ws_view_alter f g idx 0 docs i d).
Qed.

(** The loop that captures the snapshots. *)
Lemma populate_all docs :
  fold_slots (populate_slot (slot_to_wsdoc docs)) 0 docs (ws_alloc (num_parsed docs))
    = mkWs (ws_view (fun _ => (-1)%Z) 0 docs) [] 0.
Proof.
  assert (Hgen : forall pre suf, docs = pre ++ suf ->
    fold_slots (populate_slot (slot_to_wsdoc docs)) (length pre) suf
      (mkWs (ws_view (fun _ => (-1)%Z) 0 pre ++ replicate (num_parsed suf) zero_ws_doc) [] 0)
    = mkWs (ws_view (fun _ => (-1)%Z) 0 docs) [] 0).
  { assert (Hlen : forall idx i l, length (ws_view idx i l) = num_parsed l).
    { intros idx i l. revert i. induction l as [|d l IH]; intros i; [done|].
      rewrite num_parsed_cons. cbn. destruct (is_parsed d); cbn; by rewrite IH. }
    assert (Happ : forall idx l1 l2 i,
      ws_view idx i (l1 ++ l2) = ws_view idx i l1 ++ ws_view idx (i + length l1) l2).
    { intros idx l1 l2. induction l1 as [|d l1 IH]; intros i; cbn.
      - by rewrite Nat.add_0_r.
      - rewrite IH, Nat.add_succ_r. by destruct (is_parsed d). }
    intros pre suf. revert pre. induction suf as [|d suf IH]; intros pre Hd; cbn [fold_slots].
    - rewrite app_nil_r in Hd. by rewrite Hd, app_nil_r.
    - assert (Hl : docs !! length pre = Some d) by (rewrite Hd; by apply list_lookup_middle).
      specialize (IH (pre ++ [d])). rewrite <- app_assoc, length_app in IH. cbn in IH.
      rewrite Nat.add_1_r in IH. rewrite <- (IH Hd). f_equal.
      unfold populate_slot. rewrite (slot_index _ _ _ Hl), Happ. cbn [ws_view].
      rewrite num_parsed_cons. destruct (is_parsed d); cbn [Z.ltb]; [|by rewrite app_nil_r].
      unfold alter_ws_doc. destruct (Z.ltb_spec (Z.of_nat (num_parsed (take (length pre) docs))) 0); [lia|].
      rewrite Nat2Z.id. cbn [ws_docs ws_projects ws_cc_status]. f_equal.
      rewrite Hd, take_app_length, <- (Hlen (fun _ => (-1)%Z) 0 pre), <- app_assoc. cbn.
      rewrite alter_app_r_alt by lia. rewrite Nat.sub_diag. done. }
  exact (Hgen [] docs eq_refl).
Qed.

(** ** Which project a document belongs to *)

Section IndexOf.
Context {A : Type} (P : A -> Prop) `{forall x, Decision (P x)}.

(** The position of the first match, or -1. *)
Definition index_of (l : list A) : Z :=
  match list_find P l with Some (k, _) => Z.of_nat k | None => (-1)%Z end.

Lemma index_of_neg l : (index_of l < 0)%Z <-> forall x, x ∈ l -> ~ P x.
Proof.
  unfold index_of. destruct (list_find P l) as [[k x]|] eqn:E.
  - apply list_find_Some in E as (Hk & Hp & _). split; [lia|]. intros Hn.
    destruct (Hn x); [by eapply list_elem_of_lookup_2|done].
  - apply list_find_None in E. rewrite Forall_forall in E. split; [done|lia].
Qed.

Lemma index_of_found l :
  (0 <= index_of l)%Z <-> exists k x, index_of l = Z.of_nat k /\ l !! k = Some x /\ P x /\
    forall m y, (m < k)%nat -> l !! m = Some y -> ~ P y.
Proof.
  split; [|intros (k & x & -> & _); lia].
  unfold index_of. destruct (list_find P l) as [[k x]|] eqn:E; [|lia].
  apply list_find_Some in E as (Hk & Hp & Hm). intros _. exists k, x. split_and!; eauto.
Qed.

Lemma index_of_snoc l x :
  index_of (l ++ [x]) =
    if (index_of l <? 0)%Z then (if decide (P x) then Z.of_nat (length l) else (-1)%Z)
    else index_of l.
Proof.
  unfold index_of. destruct (list_find P l) as [[k y]|] eqn:E.
  - rewrite (list_find_app_l _ _ _ _ _ E). destruct (Z.ltb_spec (Z.of_nat k) 0); [lia|done].
  - rewrite list_find_app_r by done. cbn. by destruct (decide (P x)).
Qed.
End IndexOf.

(** The first closure that holds the document, or else its place among the
    orphans, or -1. *)
Definition claimed (vs : list (list nat)) (i : nat) : Z := index_of (fun v => i ∈ v) vs.
Definition member_index (vs : list (list nat)) (os : list nat) (i : nat) : Z :=
  if (claimed vs i <? 0)%Z then
    let m := index_of (fun o => o = i) os in
    if (m <? 0)%Z then (-1)%Z else (Z.of_nat (length vs) + m)%Z
  else claimed vs i.

Definition slot_uri (docs : store) (i : nat) : option string := docs !! i ≫= d_uri.

(** The project of a closure and of an orphan. *)
Definition cc_project (docs : store) (r : nat) (v : list nat) : ws_project :=
  mkWsProject (slot_uri docs r) (foldl (copy_slot docs) empty_project_root v) true.
Definition orphan_project (docs : store) (i : nat) : ws_project :=
  mkWsProject (slot_uri docs i) (copy_slot docs empty_project_root i) false.

Definition is_root_slot (docs : store) (i : nat) : Prop :=
  exists d, docs !! i = Some d /\ is_parsed d = true /\ d_is_cc_root d = true.

#[global] Instance is_root_slot_dec docs i : Decision (is_root_slot docs i).
Proof.
  unfold is_root_slot. destruct (docs !! i) as [d|].
  - destruct (decide (is_parsed d = true /\ d_is_cc_root d = true)) as [Hy|Hn].
    + left. by exists d.
    + right. intros (d' & [= <-] & ?). done.
  - right. by intros (d' & [=] & _).
Defined.

#[global] Instance parsed_dec docs i : Decision (parsed docs i).
Proof.
  unfold parsed. destruct (docs !! i) as [d|].
  - destruct (decide (is_parsed d = true)) as [Hy|Hn].
    + left. by exists d.
    + right. intros (d' & [= <-] & ?). done.
  - right. by intros (d' & [=] & _).
Defined.

Definition is_orphan (docs : store) (vs : list (list nat)) (i : nat) : Prop :=
  parsed docs i /\ (claimed vs i < 0)%Z.

(** Compile-commands roots and orphans among the first [n] slots. *)
Definition roots_upto (docs : store) (n : nat) : list nat := filter (is_root_slot docs) (seq 0 n).
Definition orphans_upto (docs : store) (vs : list (list nat)) (n : nat) : list nat :=
  filter (is_orphan docs vs) (seq 0 n).

Lemma fold_slots_inv {A} (f : A -> nat -> Document -> A) (I : nat -> A -> Prop) (docs : store) a :
  (forall i d a, docs !! i = Some d -> I i a -> I (S i) (f a i d)) ->
  I 0 a -> I (length docs) (fold_slots f 0 docs a).
Proof.
  intros Hstep. assert (Hgen : forall pre suf b, docs = pre ++ suf -> I (length pre) b ->
    I (length docs) (fold_slots f (length pre) suf b)).
  { intros pre suf. revert pre. induction suf as [|d suf IH]; intros pre b Hd Hb; cbn.
    - by rewrite Hd, app_nil_r.
    - specialize (IH (pre ++ [d]) (f b (length pre) d)).
      rewrite length_app, <- app_assoc in IH. cbn in IH. rewrite Nat.add_1_r in IH.
      apply IH; [done|]. apply Hstep; [|done]. rewrite Hd. by apply list_lookup_middle. }
  exact (Hgen [] docs a eq_refl).
Qed.

Lemma alter_snoc {A} (f : A -> A) (l : list A) x : alter f (length l) (l ++ [x]) = l ++ [f x].
Proof. rewrite alter_app_r_alt by done. by rewrite Nat.sub_diag. Qed.

Lemma filter_seq_S (P : nat -> Prop) `{forall i, Decision (P i)} n :
  filter P (seq 0 (S n)) = filter P (seq 0 n) ++ (if decide (P n) then [n] else []).
Proof.
  by rewrite seq_S, filter_app.
Qed.

(** Copying and stamping a list of documents. *)
Lemma assign_all docs pidx v : forall idx projs st,
  (forall i, i ∈ v -> parsed docs i) ->
  foldl (assign_doc_to_project (slot_to_wsdoc docs) pidx docs) (mkWs (ws_view idx 0 docs) projs st) v
  = mkWs (ws_view (fun j => if decide (j ∈ v) then
                              (if (idx j <? 0)%Z then Z.of_nat pidx else idx j) else idx j) 0 docs)
      (alter (set_root (fun n => foldl (copy_slot docs) n v)) pidx projs) st.
Proof.
  induction v as [|i v IH]; intros idx projs st Hv; cbn [foldl].
  - f_equal. symmetry. apply list_eq. intros j. destruct (decide (pidx = j)) as [->|Hne].
    + rewrite list_lookup_alter_eq. by destruct (projs !! j) as [[]|].
    + by rewrite list_lookup_alter_ne.
  - destruct (Hv i) as (d & Hd & Hp); [set_solver|].
    unfold assign_doc_to_project at 2. rewrite Hd. unfold alter_project. cbn [ws_docs ws_projects ws_cc_status].
    rewrite (alter_ws_doc_view _ (fun k => if (k <? 0)%Z then Z.of_nat pidx else k) idx docs i d)
      by (done || (intros k; cbn; by destruct (k <? 0)%Z)).
    rewrite IH by set_solver. f_equal.
    + apply ws_view_ext. intros j d' _ _. cbn. unfold upd.
      destruct (decide (j = i)) as [->|Hne].
      * rewrite (decide_True (P := i ∈ i :: v)) by set_solver.
        destruct (idx i <? 0)%Z eqn:E; rewrite ?E; [|by case_decide].
        case_decide; [|done]. destruct (Z.ltb_spec (Z.of_nat pidx) 0); [lia|done].
      * destruct (decide (j ∈ v)); [rewrite decide_True by set_solver|rewrite decide_False by set_solver]; done.
    + rewrite list_alter_alter_eq. apply list_alter_ext; [|done]. intros p _.
      unfold set_root, compose, copy_slot. cbn. by rewrite Hd.
Qed.

(** ** The two passes *)

Section Passes.
Context `{Env}.
Variable docs : store.
Hypothesis len : length docs = MAX_DOCS.
Abbreviation stw := (slot_to_wsdoc docs).

Lemma closure_parsed r v i : parsed docs r -> is_closure docs r v -> i ∈ v -> parsed docs i.
Proof.
  intros Hr (_ & _ & Hv) Hi%Hv. revert Hr. clear Hv. induction Hi as [|x y z (d & uri & _ & _ & _ & Hy) _ IH]; auto.
Qed.

Definition after_roots (st : Z) (n : nat) (ws : workspace_snapshot) : Prop :=
  exists vs, Forall2 (is_closure docs) (roots_upto docs n) vs /\
    ws = mkWs (ws_view (claimed vs) 0 docs)
           (zip_with (cc_project docs) (roots_upto docs n) vs) st.

Lemma add_cc_root_step st i d ws :
  docs !! i = Some d -> after_roots st i ws -> after_roots st (S i) (add_cc_root stw docs ws i d).
Proof.
  intros Hd (vs & Hvs & ->). unfold add_cc_root, after_roots, roots_upto. rewrite filter_seq_S.
  assert (Hroot : is_root_slot docs i <->
    d_in_use d && d_is_cc_root d && bool_decide (is_Some (d_snap d)) = true).
  { unfold is_root_slot, is_parsed. rewrite Hd. split.
    - intros (d' & [= <-] & [-> ->]%andb_prop & ->). done.
    - intros [[Hu Hc]%andb_prop Hs]%andb_prop. exists d. by rewrite Hu, Hc, Hs. }
  destruct (decide (is_root_slot docs i)) as [Hr|Hr].
  2: { destruct (_ && _); [by destruct Hr; apply Hroot|]. exists vs. by rewrite app_nil_r. }
  rewrite (proj1 Hroot Hr). cbn [ws_add_project]. unfold alter_project.
  cbn [ws_docs ws_projects ws_cc_status]. rewrite alter_snoc.
  fold (roots_upto docs i) in *. set (roots := roots_upto docs i) in *.
  assert (Hi : (i < MAX_DOCS)%nat) by (rewrite <- len; by apply lookup_lt_Some in Hd).
  match goal with |- context [project_populate_from_root _ _ ?w _ _] => set (ws := w) end.
  destruct (populate_from_root_spec stw docs ws
              (length (zip_with (cc_project docs) roots vs)) i len Hi) as (v & Hv & ->).
  assert (Hpi : parsed docs i) by (destruct Hr as (d' & ? & ? & _); by exists d').
  unfold ws. rewrite assign_all by (intros j; by apply (closure_parsed i)).
  rewrite alter_snoc, length_zip_with_l_eq by by eapply Forall2_length.
  exists (vs ++ [v]). split; [by apply Forall2_app, Forall2_cons_2; [..|constructor]|].
  assert (Hl := Forall2_length _ _ _ Hvs). fold roots in Hl. f_equal.
  - apply ws_view_ext. intros j d' _ _. cbn. unfold claimed. rewrite index_of_snoc, Hl.
    destruct (Z.ltb_spec (index_of (fun v0 => j ∈ v0) vs) 0) as [Hn|Hn]; case_decide; try done.
    apply Z.le_antisymm; [|unfold index_of in *; case_match; [case_match|]; lia].
    unfold index_of in *; case_match; [case_match|]; lia.
  - rewrite zip_with_app by done. cbn. unfold cc_project, slot_uri, set_root. by rewrite Hd.
Qed.

Variable vs : list (list nat).
Variable cc : list ws_project.
Hypothesis cc_len : length cc = length vs.

Definition after_orphans (st : Z) (n : nat) (ws : workspace_snapshot) : Prop :=
  ws = mkWs (ws_view (member_index vs (orphans_upto docs vs n)) 0 docs)
         (cc ++ (orphan_project docs <$> orphans_upto docs vs n)) st.

Lemma add_orphan_step st i d ws :
  docs !! i = Some d -> after_orphans st i ws -> after_orphans st (S i) (add_orphan stw ws i d).
Proof.
  intros Hd ->. unfold add_orphan, after_orphans, orphans_upto. rewrite filter_seq_S.
  fold (orphans_upto docs vs i). set (os := orphans_upto docs vs i).
  assert (Hos : (index_of (fun o => o = i) os < 0)%Z).
  { apply index_of_neg. intros o Ho ->. unfold os, orphans_upto in Ho.
    apply list_elem_of_filter in Ho as [_ Ho%elem_of_seq]. lia. }
  rewrite (slot_index docs i d Hd).
  destruct (is_parsed d) eqn:Hp.
  2: { rewrite decide_False; [by rewrite app_nil_r|].
       intros [(d' & Hd' & Hp') _]. congruence. }
  destruct (Z.ltb_spec (Z.of_nat (num_parsed (take i docs))) 0); [lia|].
  rewrite Nat2Z.id. cbn [ws_docs]. rewrite (ws_view_lookup _ 0 docs i d Hd Hp). cbn [fmap option_fmap option_map default].
  cbn. unfold member_index at 1.
  destruct (Z.ltb_spec (claimed vs i) 0) as [Hc|Hc].
  - destruct (Z.ltb_spec (index_of (fun o => o = i) os) 0); [|lia]. cbn.
    rewrite decide_True by (split; [by exists d|done]).
    unfold alter_project. cbn [ws_docs ws_projects ws_cc_status]. rewrite alter_snoc.
    rewrite length_app, length_fmap.
    pose proof (alter_ws_doc_view (set_index (length cc + length os))
      (fun _ => Z.of_nat (length cc + length os)) (member_index vs os) docs i d
      (cc ++ (orphan_project docs <$> os) ++ [orphan_project docs i]) st Hd Hp (fun k => eq_refl)) as Ha.
    rewrite (slot_index docs i d Hd), Hp in Ha. rewrite <- app_assoc.
    replace (set_root (copy_document_into_project d) (mkWsProject (d_uri d) empty_project_root false))
      with (orphan_project docs i) by (unfold orphan_project, slot_uri, copy_slot, set_root; by rewrite Hd).
    rewrite Ha, fmap_app. cbn. f_equal. apply ws_view_ext. intros j d' _ _. cbn.
    unfold upd, member_index. rewrite index_of_snoc. destruct (decide (j = i)) as [->|Hne].
    + destruct (Z.ltb_spec (claimed vs i) 0); [|lia].
      destruct (Z.ltb_spec (index_of (fun o => o = i) os) 0); [|lia].
      rewrite decide_True by done. destruct (Z.ltb_spec (Z.of_nat (length os)) 0); lia.
    + rewrite decide_False by congruence. destruct (claimed vs j <? 0)%Z; [|done].
      destruct (index_of (fun o => o = j) os <? 0)%Z eqn:E; by rewrite ?E.
  - destruct (Z.leb_spec 0 (claimed vs i)); [|lia].
    rewrite decide_False; [by rewrite app_nil_r|]. intros [_ ?]. lia.
Qed.
End Passes.

(** The built snapshot in closed form. *)
Lemma build_form `{Env} docs status :
  length docs = MAX_DOCS ->
  exists vs, Forall2 (is_closure docs) (roots_upto docs MAX_DOCS) vs /\
    build_workspace_snapshot docs status =
      mkWs (ws_view (member_index vs (orphans_upto docs vs MAX_DOCS)) 0 docs)
        (zip_with (cc_project docs) (roots_upto docs MAX_DOCS) vs
           ++ (orphan_project docs <$> orphans_upto docs vs MAX_DOCS)) status.
Proof.
  intros Hl. unfold build_workspace_snapshot. fold (num_parsed docs).
  rewrite populate_all. unfold set_cc_status. cbn [ws_docs ws_projects ws_cc_status].
  pose proof (fold_slots_inv (add_cc_root (slot_to_wsdoc docs) docs)
    (after_roots docs status) docs (mkWs (ws_view (fun _ => (-1)%Z) 0 docs) [] status)) as Hroots.
  destruct Hroots as (vs & Hvs & ->).
  { intros i d a. by apply add_cc_root_step. }
  { exists []. split; [constructor|]. done. }
  rewrite Hl in *. exists vs. split; [done|].
  pose proof (fold_slots_inv (add_orphan (slot_to_wsdoc docs))
    (after_orphans docs vs (zip_with (cc_project docs) (roots_upto docs MAX_DOCS) vs) status) docs
    (mkWs (ws_view (claimed vs) 0 docs)
       (zip_with (cc_project docs) (roots_upto docs MAX_DOCS) vs) status)) as Horph.
  rewrite Hl in Horph. apply Horph.
  - assert (Hlen := Forall2_length _ _ _ Hvs).
    intros i d a. apply add_orphan_step; [done|]. by rewrite length_zip_with_r_eq.
  - unfold after_orphans, orphans_upto. cbn [seq]. rewrite filter_nil, app_nil_r. f_equal.
    apply ws_view_ext. intros j d _ _. cbn. unfold member_index, index_of. cbn.
    destruct (Z.ltb_spec (claimed vs j) 0) as [Hc|]; [|done].
    unfold claimed, index_of in *. case_match; [case_match; lia|done].
Qed.

(** A parsed document has a project: the first root's that reaches it, or its
    own. *)
Lemma member_found `{Env} docs vs i :
  length docs = MAX_DOCS -> Forall2 (is_closure docs) (roots_upto docs MAX_DOCS) vs -> parsed docs i ->
  let orphans := orphans_upto docs vs MAX_DOCS in
  let projects := zip_with (cc_project docs) (roots_upto docs MAX_DOCS) vs
                    ++ (orphan_project docs <$> orphans) in
  exists k, member_index vs orphans i = Z.of_nat k /\ (k < length projects)%nat /\
    ((exists v, vs !! k = Some v /\ i ∈ v /\ forall m w, (m < k)%nat -> vs !! m = Some w -> i ∉ w) \/
     ((forall r, r ∈ roots_upto docs MAX_DOCS -> ~ rtc (include_edge docs) r i) /\
      projects !! k = Some (orphan_project docs i))).
Proof.
  intros Hl Hvs Hp orphans projects. unfold projects.
  assert (Hlen := Forall2_length _ _ _ Hvs).
  unfold member_index. rewrite length_app, length_fmap, length_zip_with_l_eq by done.
  destruct (Z.ltb_spec (claimed vs i) 0) as [Hc|Hc].
  - assert (Ho : i ∈ orphans).
    { apply list_elem_of_filter. split; [done|]. apply elem_of_seq.
      destruct Hp as (d & Hd%lookup_lt_Some & _). lia. }
    assert (Hf : (0 <= index_of (fun o => o = i) orphans)%Z).
    { destruct (Z.ltb_spec (index_of (fun o => o = i) orphans) 0) as [Hn|]; [|done].
      rewrite index_of_neg in Hn. by destruct (Hn i Ho). }
    apply index_of_found in Hf as (m & o & -> & Hm & -> & _).
    destruct (Z.ltb_spec (Z.of_nat m) 0); [lia|].
    exists (length vs + m)%nat. split_and!; [lia|apply lookup_lt_Some in Hm; lia|].
    right. split.
    + intros r Hr Hreach. unfold claimed in Hc. rewrite index_of_neg in Hc.
      apply list_elem_of_lookup in Hr as [q Hq].
      destruct (Forall2_lookup_l _ _ _ _ _ Hvs Hq) as (v & Hv & _ & _ & Hin).
      apply (Hc v); [by eapply list_elem_of_lookup_2|by apply Hin].
    + rewrite lookup_app_r; rewrite length_zip_with_l_eq by done; [|lia].
      replace (length vs + m - length (roots_upto docs MAX_DOCS))%nat with m by lia.
      by rewrite list_lookup_fmap, Hm.
  - apply index_of_found in Hc as (k & v & Hk & Hv & Hi & Hmin). exists k.
    split_and!; [exact Hk|apply lookup_lt_Some in Hv; lia|]. left. eauto.
Qed.

(** ** Properties *)

(** C22: Every parsed document belongs to exactly one project of the snapshot.
    The projects are one per compile-commands root, in slot order, each holding
    the copies of exactly the documents its include graph reaches (each once,
    the root first), then one singleton per document no root reaches.  A
    document's entry names the first root that reaches it, or its singleton; its
    snapshot, prefixes and owner flag are the slot's. *)
Theorem workspace_snapshot_correct `{Env} docs status :
  store_ok docs ->
  let ws := build_workspace_snapshot docs status in
  let roots := filter (is_root_slot docs) (seq 0 MAX_DOCS) in
  exists vs, let orphans := filter (is_orphan docs vs) (seq 0 MAX_DOCS) in
    Forall2 (is_closure docs) roots vs /\
    ws_projects ws = zip_with (cc_project docs) roots vs ++ (orphan_project docs <$> orphans) /\
    ws_docs ws = ws_view (member_index vs orphans) 0 docs /\ ws_cc_status ws = status /\
    forall i, parsed docs i -> exists k, member_index vs orphans i = Z.of_nat k /\
      (k < length (ws_projects ws))%nat /\
      ((exists v, vs !! k = Some v /\ i ∈ v /\ forall m w, (m < k)%nat -> vs !! m = Some w -> i ∉ w) \/
       ((forall r, r ∈ roots -> ~ rtc (include_edge docs) r i) /\
        ws_projects ws !! k = Some (orphan_project docs i))).
Proof.
  intros (Hl & _ & _) ws roots. destruct (build_form docs status Hl) as (vs & Hvs & Hws).
  exists vs. unfold ws. rewrite Hws. cbn [ws_projects ws_docs ws_cc_status].
  change (filter (is_orphan docs vs) (seq 0 MAX_DOCS)) with (orphans_upto docs vs MAX_DOCS).
  set (orphans := orphans_upto docs vs MAX_DOCS).
  change (roots_upto docs MAX_DOCS) with roots in *. split_and!; [done..|].
  intros i Hp. by apply member_found.
Qed.

(** Two mutually including files under a compile-commands root, and an editor
    document beside them. *)
Definition cyclic_store : store :=
  let docs := @load_file cyclic_env docstore_init "/w/a.tjp" in
  alter (set_cc_root true) 0 docs.

Lemma cyclic_store_ok : store_ok cyclic_store.
Proof.
  apply store_ok_alter; [auto with tjlsp| |apply load_file_ok, store_ok_init].
  intros d Hd. assert (Hu : d_in_use d = true) by (vm_compute in Hd; by injection Hd as <-).
  by apply slot_ok_plain.
Qed.

Lemma workspace_snapshot_correct_witness :
  let ws := @build_workspace_snapshot cyclic_env cyclic_store 1 in
  (wd_project_index <$> ws_docs ws) = [0; 0]%Z /\ ws_cc_status ws = 1%Z /\
  exists vs, Forall2 (@is_closure cyclic_env cyclic_store)
               (filter (is_root_slot cyclic_store) (seq 0 MAX_DOCS)) vs.
Proof.
  intros ws. split_and!; [vm_compute; reflexivity..|].
  destruct (@workspace_snapshot_correct cyclic_env cyclic_store 1 cyclic_store_ok) as (vs & Hvs & _).
  by exists vs.
Defined.

(** ** What a document contributes *)

Lemma kind_task kw : node_kind_of kw = NODE_KIND_TASK <-> kw = KW_TASK.
Proof. split; [by destruct kw|by intros ->]. Qed.

Lemma append_child_keyword n q c : pn_keyword (project_node_append_child n q c) = pn_keyword n.
Proof. destruct q as [|i q]; cbn; [done|]. by destruct (pn_children n !! i). Qed.

(** No task at the top of the tree. *)
Definition no_top_task (n : ProjectNode) : Prop :=
  Forall (fun c => pn_keyword c ≠ KW_TASK) (pn_children n).

Lemma find_prefix_no_task n prefix :
  no_top_task n -> split_dotted_path prefix ≠ [] ->
  find_node_by_dotted_path n prefix NODE_KIND_TASK = None.
Proof.
  intros Hn Hp. unfold find_node_by_dotted_path.
  destruct (split_dotted_path prefix) as [|seg segs]; [done|]. cbn.
  replace (list_find (is_kind_named NODE_KIND_TASK seg) (pn_children n)) with
    (@None (nat * ProjectNode)); [done|]. symmetry. apply list_find_None.
  eapply Forall_impl; [exact Hn|]. intros c Hc [Hk _]. by apply kind_task in Hk.
Qed.

Lemma no_top_task_append n q c :
  no_top_task n -> (q = [] -> pn_keyword c ≠ KW_TASK) ->
  no_top_task (project_node_append_child n q c).
Proof.
  intros Hn Hq. destruct q as [|i q]; cbn.
  - apply Forall_app. split; [done|]. by repeat constructor; apply Hq.
  - destruct (pn_children n !! i) as [ci|] eqn:E; [|done]. unfold no_top_task. cbn.
    apply Forall_insert; [done|]. rewrite append_child_keyword.
    by eapply Forall_lookup_1 in Hn.
Qed.

(** A document that carries a task prefix disappears from its own singleton
    project: none of its tasks is copied, so no task of the document has a
    counterpart in the project tree and every cross-reference lookup from it
    answers nothing.  (Pass 2 applies the include prefix although the prefix
    path only exists in the including file's project.) *)
Theorem orphan_prefix_drops_tasks docs i d s :
  docs !! i = Some d -> d_snap d = Some s ->
  split_dotted_path (ps_task (d_prefixes d)) ≠ [] ->
  let tree := wp_root (orphan_project docs i) in
  (forall c, c ∈ pn_children tree -> pn_keyword c ≠ KW_TASK) /\
  (forall p, project_node_for_doc_task tree (ps_task (d_prefixes d)) (snap_root s) p = None).
Proof.
  intros Hd Hs Hp tree. assert (Hn : no_top_task tree).
  { unfold tree, orphan_project, copy_slot, copy_document_into_project. cbn. rewrite Hd, Hs.
    assert (Hg : forall cs n, no_top_task n ->
              no_top_task (foldl (copy_declaration (d_uri d) (d_prefixes d)) n cs)).
    { induction cs as [|c cs IH]; intros n Hn; [done|]. cbn. apply IH.
      unfold copy_declaration. destruct (prefix_kind_of _) as [k|] eqn:Ek; [|done].
      destruct (find_node_by_dotted_path _ _ _) as [q|] eqn:Eq; [|done].
      apply no_top_task_append; [done|]. intros -> Hk. replace (pn_keyword _) with (tn_keyword c) in Hk
        by (by destruct c). rewrite Hk in Ek, Eq. injection Ek as <-. cbn in Eq.
      by rewrite find_prefix_no_task in Eq. }
    apply Hg. constructor. }
  split; [by apply Forall_forall|]. intros p. unfold project_node_for_doc_task.
  destruct (sym_qualified_id _ p); [done|]. by rewrite find_prefix_no_task.
Qed.

Lemma orphan_prefix_drops_tasks_witness :
  let s := mkDocSnapshot 1 "file:///w/b.tji" "task y {}"
             (set_children tj_node_new [sample_node_kw KW_TASK "y" []]) [] [] 0 in
  let d := set_prefixes (task_prefix_set "x")
             (set_snaps 2 (Some s) None (claim "file:///w/b.tji" blank)) in
  let docs := <[1 := d]> docstore_init in
  wp_root (orphan_project docs 1) = empty_project_root /\
  project_node_for_doc_task (wp_root (orphan_project docs 1)) (Some "x"%string) (snap_root s) [0] = None.
Proof.
  intros s d docs. split; [vm_compute; reflexivity|].
  refine (proj2 (orphan_prefix_drops_tasks docs 1 d s eq_refl eq_refl _) [0]).
  vm_compute. done.
Defined.

(** Declarations that go into the tree. *)
Definition copied_decls (cs : list tj_node) : list tj_node :=
  filter (fun c => node_kind_of (tn_keyword c) ≠ NODE_KIND_OTHER) cs.

Lemma copy_unprefixed uri cs : forall n,
  foldl (copy_declaration uri empty_prefix_set) n cs =
    pn_set_children n (pn_children n ++ (project_node_from_tj uri <$> copied_decls cs)).
Proof.
  induction cs as [|c cs IH]; intros n; cbn [foldl].
  - unfold copied_decls. rewrite filter_nil. cbn. rewrite app_nil_r. by destruct n.
  - rewrite IH. unfold copied_decls, copy_declaration. rewrite filter_cons.
    destruct (node_kind_of (tn_keyword c)) eqn:Ek; cbn; case_decide; try done; try congruence;
      cbn; by rewrite <- app_assoc.
Qed.

(** Without include prefixes a document's top-level declarations land in its
    project unchanged: a singleton project of an unprefixed document holds the
    copies of exactly its non-project declarations, in source order, each
    stamped with the document's URI; so a task nested in well-named, uniquely
    named tasks is found again from the document, at the same place among the
    copies. *)
Theorem orphan_tree_content docs i d s c k p ids n :
  docs !! i = Some d -> d_snap d = Some s -> d_prefixes d = empty_prefix_set ->
  let tree := wp_root (orphan_project docs i) in
  let decls := copied_decls (tn_children (snap_root s)) in
  pn_children tree = (project_node_from_tj (d_uri d) <$> decls) /\
  (decls !! k = Some c ->
   (forall j y, decls !! j = Some y -> tn_keyword y = KW_TASK -> tn_id y = tn_id c -> j = k) ->
   tn_id (snap_root s) = None -> (length ids <= CHAIN_CAP)%nat ->
   forall t, tn_children (snap_root s) !! t = Some c ->
   task_path (tn_children (snap_root s)) (t :: p) ids n ->
   project_node_for_doc_task tree None (snap_root s) (t :: p) = Some (k :: p)).
Proof.
  intros Hd Hs He tree decls. assert (Hc : pn_children tree = (project_node_from_tj (d_uri d) <$> decls)).
  { unfold tree, orphan_project, copy_slot, copy_document_into_project. cbn.
    rewrite Hd, Hs, He, copy_unprefixed. done. }
  split; [done|]. intros Hk Hu Hr Hl t Ht Hp.
  assert (Hcid : exists id, tn_id c = Some id).
  { inversion Hp as [? ? ? ? Hi _ Hid _ _|? ? ? ? ? ? ? Hi _ Hid _ _ _]; subst;
      rewrite Ht in Hi; injection Hi as <-; eauto. }
  destruct Hcid as [id Hid].
  destruct (walk_copied tree (d_uri d) (snap_root s) t p ids n k) as (Hw & _ & _); [|done|].
  { exists c, id. split_and!; [done..| |].
    - by rewrite Hc, list_lookup_fmap, Hk.
    - intros j y. rewrite Hc, list_lookup_fmap, fmap_Some. intros (y0 & Hy & ->) [Hkw Hyid].
      apply (Hu j y0); [done| |]; destruct y0; cbn in *; congruence. }
  destruct (task_path_good _ _ _ _ Hp) as [Hg Hne].
  pose proof (sym_qualified_id_spec _ _ _ _ Hr Hp Hl) as Hsq.
  pose proof (strtok_join ids Hg) as Htok.
  unfold project_node_for_doc_task. rewrite Hsq.
  destruct (join_dots ids) as [|ch rest] eqn:E; [by rewrite <- Htok in Hne|].
  change (find_node_by_dotted_path tree None NODE_KIND_TASK) with (Some (@nil nat)).
  cbn [pnode_at]. by rewrite Htok, Hw.
Qed.

Lemma orphan_tree_content_witness :
  let s := mkDocSnapshot 1 "file:///w/c.tjp" "" bridge_doc [] [] 0 in
  let d := set_snaps 2 (Some s) None (claim "file:///w/c.tjp" blank) in
  let docs := <[0 := d]> docstore_init in
  project_node_for_doc_task (wp_root (orphan_project docs 0)) None bridge_doc [1; 0] = Some [1; 0].
Proof.
  intros s d docs.
  refine (proj2 (orphan_tree_content docs 0 d s (sample_node_kw KW_TASK "a" [sample_node_kw KW_TASK "y" []])
    1 [0] ["a"; "y"]%string (sample_node_kw KW_TASK "y" []) eq_refl eq_refl eq_refl)
    eq_refl _ eq_refl _ 1 eq_refl _).
  - intros [|[|j]] y Hy Hk Hi; simplify_eq/=; done.
  - vm_compute. lia.
  - eapply task_path_step; [reflexivity..|by split| |].
    + intros [|[|j]] m Hm Hk; simplify_eq/=; done.
    + eapply task_path_one; [reflexivity..|by split|].
      intros [|j] m Hm Hk; simplify_eq/=; done.
Defined.
