(* ===== verification/Rpc.v ===== *)
(** * [rpc.c]: reading JSON values.

    The JSON library is a parameter: [Yyjson] collects the accessors the code
    calls on the values of an incoming message.  A value is any type with those
    accessors; [None] stands for a NULL result or for a value of another type. *)

From S2P Require Import Prelude Syntax.

Class Yyjson := mkYyjson {
  yyjson_val : Type;
  (** [yyjson_obj_get]: the member with that key. *)
  yyjson_obj_get : yyjson_val -> string -> option yyjson_val;
  (** [yyjson_is_str] and [yyjson_get_str]. *)
  get_str : yyjson_val -> option string;
  (** [yyjson_is_num] and the value converted to an integer. *)
  get_num : yyjson_val -> option Z;
  (** [yyjson_is_int] and [yyjson_get_sint]. *)
  get_int : yyjson_val -> option Z;
  (** [yyjson_is_uint] and [yyjson_get_uint]: the non-negative integers. *)
  get_uint : yyjson_val -> option Z;
  (** [yyjson_is_sint] and the value: the negative integers. *)
  get_sint : yyjson_val -> option Z;
  (** [yyjson_is_real] and the bits of the number. *)
  get_real : yyjson_val -> option Z;
  (** [yyjson_is_arr] and the elements. *)
  get_arr : yyjson_val -> option (list yyjson_val);
  yyjson_is_obj : yyjson_val -> bool
}.

Section Rpc.
Context `{Yyjson}.

Definition json_to_pos (obj : option yyjson_val) : LspPos :=
  match obj with
  | None => mkPos 0 0
  | Some o =>
      mkPos (default 0%Z (u32 <$> (yyjson_obj_get o "line" ≫= get_num)))
            (default 0%Z (u32 <$> (yyjson_obj_get o "character" ≫= get_num)))
  end.

Definition json_str (obj : option yyjson_val) (key : string) : option string :=
  obj ≫= fun o => yyjson_obj_get o key ≫= get_str.

(** How the cursor requests (hover, completion, signature help) read their
    position: under [textDocumentPosition] or directly under the parameters. *)
Definition request_position (params : option yyjson_val) : option LspPos :=
  params ≫= fun p =>
  let tdp := default p (yyjson_obj_get p "textDocumentPosition") in
  match yyjson_obj_get tdp "position" with
  | Some o => Some (json_to_pos (Some o))
  | None => (fun o => json_to_pos (Some o)) <$> yyjson_obj_get p "position"
  end.

(** [copy_id]: the id of a response.  A negative id goes through
    [yyjson_get_int], which returns a C [int]. *)
Inductive mut_id : Set :=
  | Id_null | Id_str (s : string) | Id_uint (z : Z) | Id_int (z : Z) | Id_real (bits : Z).

Definition to_int (z : Z) : Z := ((z + 2 ^ 31) mod 2 ^ 32 - 2 ^ 31)%Z.

Definition copy_id (id : option yyjson_val) : mut_id :=
  match id with
  | None => Id_null
  | Some v =>
      match get_str v, get_uint v, get_sint v, get_real v with
      | Some s, _, _, _ => Id_str s
      | None, Some z, _, _ => Id_uint z
      | None, None, Some z, _ => Id_int (to_int z)
      | None, None, None, Some r => Id_real r
      | None, None, None, None => Id_null
      end
  end.

Lemma json_to_pos_wf o : pos_wf (json_to_pos o).
Proof.
  unfold json_to_pos, pos_wf. destruct o as [o|]; [|by vm_compute].
  destruct (_ ≫= get_num), (yyjson_obj_get o "character" ≫= get_num); cbn;
    split; auto with tjlsp; by vm_compute.
Qed.
End Rpc.

(** A response object: its id and its [result] or [error] member. *)
Inductive response (R : Type) : Type :=
  | Response (id : mut_id) (result : R)
  | Error_response (id : mut_id) (code : Z) (message : string).
Arguments Response {R} id result.
Arguments Error_response {R} id code message.

Definition make_response `{Yyjson} {R : Type} (id : option yyjson_val) (result : R) : response R :=
  Response (copy_id id) result.
Definition make_error_response `{Yyjson} {R : Type} (id : option yyjson_val) (code : Z)
    (message : string) : response R :=
  Error_response (copy_id id) code message.

(** A concrete JSON document type, for examples. *)
Inductive sample_json : Set :=
  | JStr (s : string) | JNum (z : Z) | JArr (l : list sample_json)
  | JObj (l : list (string * sample_json)).

#[global] Instance sample_yyjson : Yyjson :=
  mkYyjson sample_json
    (fun v k => match v with
                | JObj l => snd <$> List.find (fun p => bool_decide (p.1 = k)) l
                | _ => None
                end)
    (fun v => match v with JStr s => Some s | _ => None end)
    (fun v => match v with JNum z => Some z | _ => None end)
    (fun v => match v with JNum z => Some z | _ => None end)
    (fun v => match v with JNum z => if (0 <=? z)%Z then Some z else None | _ => None end)
    (fun v => match v with JNum z => if (0 <=? z)%Z then None else Some z | _ => None end)
    (fun v => None)
    (fun v => match v with JArr l => Some l | _ => None end)
    (fun v => match v with JObj _ => true | _ => false end).
