(* ===== verification/Json.v ===== *)
(** * JSON text: what a client reads.

    The code writes some of its answers as text, not through the JSON library
    (document symbols).  This file states what that text has to be: values of
    the shapes used, their text, and a reader; reading the text of a value
    gives the value back. *)

From S2P Require Import Prelude CText.
Local Open Scope Z_scope.

Definition str (s : string) : list ascii := list_ascii_of_string s.
Arguments str s%_string_scope.

Inductive json : Set :=
  | Json_str (s : list ascii)
  | Json_num (n : Z)
  | Json_arr (l : list json)
  | Json_obj (l : list (list ascii * json)).

(** Induction that reaches the elements and the members. *)
Section JsonInd.
Variable P : json -> Prop.
Hypothesis Hstr : forall s, P (Json_str s).
Hypothesis Hnum : forall n, P (Json_num n).
Hypothesis Harr : forall l, Forall P l -> P (Json_arr l).
Hypothesis Hobj : forall l, Forall (fun m => P m.2) l -> P (Json_obj l).

Fixpoint json_children_ind (v : json) : P v :=
  match v with
  | Json_str s => Hstr s
  | Json_num n => Hnum n
  | Json_arr l =>
      Harr l ((fix go l : Forall P l := match l with
                           | [] => Forall_nil_2 P
                           | v :: l' => Forall_cons_2 P v l' (json_children_ind v) (go l')
                           end) l)
  | Json_obj l =>
      Hobj l ((fix go l : Forall (fun m => P m.2) l :=
                 match l with
                 | [] => Forall_nil_2 _
                 | (k, v) :: l' => Forall_cons_2 (fun m => P m.2) (k, v) l' (json_children_ind v) (go l')
                 end) l)
  end.
End JsonInd.

(** ** Text *)

Definition hex_char (n : Z) : ascii :=
  if n <? 10 then digit_char n else ascii_of_nat (Z.to_nat (87 + n)).

(** Control characters, the backslash and the double quote are escaped. *)
Definition needs_escape (c : ascii) : bool :=
  bool_decide (c = dquote) || bool_decide (c = backslash) || (ch_code c <? 32).

Definition escape (c : ascii) : list ascii :=
  if bool_decide (c = dquote) then [backslash; dquote]
  else if bool_decide (c = backslash) then [backslash; backslash]
  else [backslash; "u"%char; "0"%char; "0"%char; hex_char (ch_code c / 16); hex_char (ch_code c mod 16)].

Definition escaped (s : list ascii) : list ascii :=
  flat_map (fun c => if needs_escape c then escape c else [c]) s.

Definition json_str_text (s : list ascii) : list ascii := dquote :: escaped s ++ [dquote].

(** [a, b, c]. *)
Fixpoint commas (l : list (list ascii)) : list ascii :=
  match l with
  | [] => []
  | [x] => x
  | x :: l' => x ++ ","%char :: commas l'
  end.

Fixpoint json_text (v : json) : list ascii :=
  match v with
  | Json_str s => json_str_text s
  | Json_num n => write_decimal 10 n
  | Json_arr l => "["%char :: commas (map json_text l) ++ ["]"%char]
  | Json_obj l => "{"%char :: commas (map (fun m => json_str_text m.1 ++ ":"%char :: json_text m.2) l) ++ ["}"%char]
  end.

(** Numbers that fit ten digits. *)
Fixpoint json_wf (v : json) : Prop :=
  match v with
  | Json_str _ => True
  | Json_num n => 0 <= n < 10 ^ 10
  | Json_arr l => fold_right (fun v a => json_wf v /\ a) True l
  | Json_obj l => fold_right (fun m a => json_wf m.2 /\ a) True l
  end.

(** ** Reading *)

Definition hex_val (c : ascii) : option Z :=
  let n := ch_code c in
  if is_digit c then Some (n - 48)
  else if (97 <=? n) && (n <=? 102) then Some (n - 87)
  else if (65 <=? n) && (n <=? 70) then Some (n - 55) else None.

(** The body of a string up to its closing quote; [\u] escapes below 256. *)
Fixpoint read_string (cs : list ascii) : option (list ascii * list ascii) :=
  match cs with
  | [] => None
  | c :: cs' =>
      if bool_decide (c = dquote) then Some ([], cs')
      else if bool_decide (c = backslash) then
        match cs' with
        | e :: cs1 =>
            if bool_decide (e = dquote) || bool_decide (e = backslash)
            then '(s, r) ← read_string cs1; Some (e :: s, r)
            else match cs1 with
                 | h1 :: h2 :: h3 :: h4 :: cs2 =>
                     if bool_decide (e = "u"%char) && bool_decide (h1 = "0"%char) && bool_decide (h2 = "0"%char)
                     then a ← hex_val h3; b ← hex_val h4; '(s, r) ← read_string cs2;
                          Some (ascii_of_nat (Z.to_nat (16 * a + b)) :: s, r)
                     else None
                 | _ => None
                 end
        | [] => None
        end
      else if ch_code c <? 32 then None
      else '(s, r) ← read_string cs'; Some (c :: s, r)
  end.

Definition expect (c : ascii) (cs : list ascii) : option (list ascii) :=
  match cs with
  | x :: cs' => if bool_decide (x = c) then Some cs' else None
  | [] => None
  end.

Fixpoint read_json (fuel : nat) (cs : list ascii) : option (json * list ascii) :=
  match fuel with
  | O => None
  | S fuel' =>
      match cs with
      | [] => None
      | c :: cs' =>
          if bool_decide (c = dquote) then '(s, r) ← read_string cs'; Some (Json_str s, r)
          else if bool_decide (c = "["%char) then
            match expect "]"%char cs' with
            | Some r => Some (Json_arr [], r)
            | None => '(l, r) ← read_elems fuel' cs'; Some (Json_arr l, r)
            end
          else if bool_decide (c = "{"%char) then
            match expect "}"%char cs' with
            | Some r => Some (Json_obj [], r)
            | None => '(l, r) ← read_members fuel' cs'; Some (Json_obj l, r)
            end
          else match take_digits cs with
               | [] => None
               | ds => Some (Json_num (dec_value 0 ds), drop (length ds) cs)
               end
      end
  end
with read_elems (fuel : nat) (cs : list ascii) : option (list json * list ascii) :=
  match fuel with
  | O => None
  | S fuel' =>
      '(v, r) ← read_json fuel' cs;
      match expect ","%char r with
      | Some r' => '(l, r'') ← read_elems fuel' r'; Some (v :: l, r'')
      | None => r' ← expect "]"%char r; Some ([v], r')
      end
  end
with read_members (fuel : nat) (cs : list ascii) : option (list (list ascii * json) * list ascii) :=
  match fuel with
  | O => None
  | S fuel' =>
      cs' ← expect dquote cs;
      '(k, r) ← read_string cs';
      r ← expect ":"%char r;
      '(v, r) ← read_json fuel' r;
      match expect ","%char r with
      | Some r' => '(l, r'') ← read_members fuel' r'; Some ((k, v) :: l, r'')
      | None => r' ← expect "}"%char r; Some ([(k, v)], r')
      end
  end.

(** ** Strings *)

Lemma hex_val_char n : 0 <= n < 16 -> hex_val (hex_char n) = Some n.
Proof.
  intros Hn. assert (Hc : n ∈ seqZ 0 16) by (apply elem_of_seqZ; lia).
  revert n Hn Hc. assert (Hall : Forall (fun n => hex_val (hex_char n) = Some n) (seqZ 0 16)).
  { apply (bool_decide_unpack _). vm_compute. exact I. }
  intros n _ Hin. rewrite Forall_forall in Hall. by apply Hall.
Qed.

Lemma read_string_escaped s rest : read_string (escaped s ++ dquote :: rest) = Some (s, rest).
Proof.
  induction s as [|c s IH]; [done|]. unfold escaped in *. cbn [flat_map]. rewrite <- app_assoc.
  set (tl := flat_map _ s) in *. unfold needs_escape, escape.
  destruct (bool_decide (c = dquote)) eqn:Eq; cbn [orb].
  { apply bool_decide_eq_true in Eq as ->. cbn [app read_string]. by rewrite IH. }
  destruct (bool_decide (c = backslash)) eqn:Eb; cbn [orb].
  { apply bool_decide_eq_true in Eb as ->. cbn [app read_string]. by rewrite IH. }
  destruct (ch_code c <? 32) eqn:Ec.
  - cbn [app read_string].
    rewrite (bool_decide_eq_false_2 (backslash = dquote)), (bool_decide_eq_true_2 (backslash = backslash)),
      (bool_decide_eq_false_2 ("u"%char = dquote)), (bool_decide_eq_false_2 ("u"%char = backslash)),
      (bool_decide_eq_true_2 ("u"%char = "u"%char)), !(bool_decide_eq_true_2 ("0"%char = "0"%char)) by done.
    cbn [orb andb]. pose proof (ch_code_range c).
    assert (0 <= ch_code c / 16 < 16) by (Z.to_euclidean_division_equations; lia).
    assert (0 <= ch_code c mod 16 < 16) by (apply Z.mod_pos_bound; lia).
    rewrite !hex_val_char by done. cbn [mbind option_bind]. rewrite IH.
    by rewrite <- Z.div_mod, ascii_of_ch_code by done.
  - cbn [app read_string]. rewrite Eq, Eb, Ec. by rewrite IH.
Qed.

(** ** Values *)

Definition not_digit_first (rest : list ascii) : Prop :=
  match rest with [] => True | c :: _ => is_digit c = false end.

Lemma take_digits_app ds rest : Forall (fun c => is_digit c = true) ds -> not_digit_first rest ->
  take_digits (ds ++ rest) = ds.
Proof.
  induction 1 as [|c ds Hc _ IH]; intros Hr; cbn.
  - destruct rest as [|c rest]; [done|]. cbn in Hr |- *. by rewrite Hr.
  - by rewrite Hc, IH.
Qed.

(** The first character tells the shapes apart. *)
Definition opens (c : ascii) : Prop :=
  c = dquote \/ c = "["%char \/ c = "{"%char \/ is_digit c = true.

Lemma json_text_head v : json_wf v -> exists c tl, json_text v = c :: tl /\ opens c.
Proof.
  unfold opens. destruct v as [s|n|l|l]; cbn [json_text]; try (intros _; eexists _, _; split; [reflexivity|by auto]).
  intros Hn. cbn [json_wf] in Hn. pose proof (write_decimal_digits 10 n) as Hd.
  pose proof (write_decimal_nonempty 10 n ltac:(lia) ltac:(lia)) as Hne.
  destruct (write_decimal 10 n) as [|c tl]; [done|]. apply Forall_cons in Hd as [Hc _]. eauto 8.
Qed.

Lemma opens_not c x : opens c -> x = "]"%char \/ x = "}"%char -> bool_decide (c = x) = false.
Proof.
  intros Ho Hx. apply bool_decide_eq_false. intros ->. unfold opens in Ho.
  destruct Hx as [-> | ->]; destruct Ho as [H|[H|[H|H]]]; try discriminate; by vm_compute in H.
Qed.

Definition reads_back (v : json) : Prop := json_wf v ->
  forall fuel rest, (length (json_text v) <= fuel)%nat -> not_digit_first rest ->
  read_json fuel (json_text v ++ rest) = Some (v, rest).

Lemma read_number n : reads_back (Json_num n).
Proof.
  intros Hn fuel rest Hf Hr. cbn [json_wf json_text] in *.
  pose proof (write_decimal_digits 10 n) as Hd. pose proof (write_decimal_value 10 n Hn) as Hv.
  pose proof (write_decimal_nonempty 10 n ltac:(lia) ltac:(lia)) as Hne.
  pose proof (take_digits_app _ rest Hd Hr) as Ht.
  destruct (write_decimal 10 n) as [|c ds] eqn:E; [done|]. destruct fuel as [|fuel]; [cbn in Hf; lia|].
  cbn [read_json app]. apply Forall_cons in Hd as [Hc _].
  assert (Hx : forall x, is_digit x = false -> bool_decide (c = x) = false).
  { intros x Hx. apply bool_decide_eq_false. intros ->. congruence. }
  rewrite !Hx by done. cbn [app] in Ht. rewrite Ht. rewrite Hv. do 2 f_equal.
  change (c :: ds ++ rest) with ((c :: ds) ++ rest). by rewrite drop_app_length.
Qed.

Lemma expect_same x rest : expect x (x :: rest) = Some rest.
Proof. unfold expect. by rewrite bool_decide_eq_true_2. Qed.

Lemma expect_other x c rest : c <> x -> expect x (c :: rest) = None.
Proof. intros. unfold expect. by rewrite bool_decide_eq_false_2. Qed.

Lemma read_elems_back v l : Forall reads_back (v :: l) -> Forall json_wf (v :: l) ->
  forall fuel rest, (length (commas (map json_text (v :: l))) < fuel)%nat ->
  read_elems fuel (commas (map json_text (v :: l)) ++ "]"%char :: rest) = Some (v :: l, rest).
Proof.
  revert v. induction l as [|v2 l IH]; intros v Hb Hw fuel rest Hf;
    apply Forall_cons in Hb as [Hv Hb]; apply Forall_cons in Hw as [Hwv Hw];
    (destruct fuel as [|fuel]; [lia|]); cbn [read_elems].
  - cbn [map commas] in *. rewrite Hv by (done || lia). done.
  - change (commas (map json_text (v :: v2 :: l)))
      with (json_text v ++ ","%char :: commas (map json_text (v2 :: l))) in *.
    rewrite <- app_assoc. cbn [app]. rewrite length_app in Hf. cbn [length] in Hf.
    rewrite Hv by (done || lia). cbn [mbind option_bind]. rewrite expect_same.
    by rewrite IH by (done || lia).
Qed.

(** Case analysis on the first bind of an equation and of the goal. *)
Tactic Notation "bind_case" ident(H) simple_intropattern(pat) :=
  match type of H with
  | mbind _ ?e = Some _ => destruct e as [pat|]; [|discriminate H]; cbn [mbind option_bind] in H |- *
  end.

(** The text of a member. *)
Definition member_text (m : list ascii * json) : list ascii :=
  json_str_text m.1 ++ ":"%char :: json_text m.2.

Lemma read_members_back m l : Forall (fun m => reads_back m.2) (m :: l) -> Forall (fun m => json_wf m.2) (m :: l) ->
  forall fuel rest, (length (commas (map member_text (m :: l))) < fuel)%nat ->
  read_members fuel (commas (map member_text (m :: l)) ++ "}"%char :: rest) = Some (m :: l, rest).
Proof.
  assert (Hone : forall m rest, reads_back m.2 -> json_wf m.2 -> not_digit_first rest ->
    forall fuel, (length (member_text m) <= fuel)%nat ->
    (cs' ← expect dquote (member_text m ++ rest); '(k, r) ← read_string cs'; r ← expect ":"%char r;
     '(v, r) ← read_json fuel r; Some ((k, v), r)) = Some (m, rest)).
  { intros [k v] rest Hv Hw Hr fuel Hf. unfold member_text, json_str_text in *. cbn [fst snd] in *.
    rewrite <- app_assoc. cbn [app expect]. rewrite bool_decide_eq_true_2 by done. cbn [mbind option_bind].
    rewrite <- app_assoc. cbn [app]. rewrite read_string_escaped. cbn beta iota. cbn [expect mbind option_bind].
    rewrite bool_decide_eq_true_2 by done.
    rewrite length_app in Hf. cbn [length] in Hf. cbn [mbind option_bind]. by rewrite Hv by (done || lia). }
  revert m. induction l as [|m2 l IH]; intros m Hb Hw fuel rest Hf;
    apply Forall_cons in Hb as [Hv Hb]; apply Forall_cons in Hw as [Hwv Hw];
    (destruct fuel as [|fuel]; [lia|]); cbn [read_members].
  - cbn [map commas] in *. specialize (Hone m ("}"%char :: rest) Hv Hwv ltac:(done) fuel ltac:(lia)).
    bind_case Hone cs. bind_case Hone [k r]. bind_case Hone r1. bind_case Hone [v r2]. injection Hone as <- ->. done.
  - change (commas (map member_text (m :: m2 :: l)))
      with (member_text m ++ ","%char :: commas (map member_text (m2 :: l))) in *.
    rewrite length_app in Hf. cbn [length] in Hf.
    pose proof (IH m2 Hb Hw fuel rest ltac:(lia)) as IH'. revert IH'.
    generalize (commas (map member_text (m2 :: l))). intros tl IH'. rewrite <- app_assoc, <- app_comm_cons.
    specialize (Hone m (","%char :: tl ++ "}"%char :: rest) Hv Hwv ltac:(done) fuel ltac:(lia)).
    bind_case Hone cs. bind_case Hone [k r]. bind_case Hone r1. bind_case Hone [v r2].
    injection Hone as <- ->. rewrite expect_same. cbn [mbind option_bind]. by rewrite IH'.
Qed.

Lemma json_wf_elems l : json_wf (Json_arr l) <-> Forall json_wf l.
Proof. induction l as [|v l IH]; cbn in *; [by split|]. by rewrite Forall_cons, IH. Qed.

Lemma json_wf_members l : json_wf (Json_obj l) <-> Forall (fun m => json_wf m.2) l.
Proof. induction l as [|v l IH]; cbn in *; [by split|]. by rewrite Forall_cons, IH. Qed.

(** The first character of the elements is not the closing bracket. *)
Lemma commas_head x tl rest :
  (exists c t, x = c :: t /\ opens c) -> forall d, d = "]"%char \/ d = "}"%char ->
  expect d (commas (x :: tl) ++ rest) = None.
Proof.
  intros (c & t & -> & Ho) d Hd. destruct tl as [|y tl]; cbn [commas app expect]; by rewrite (opens_not c d Ho Hd).
Qed.

(** Reading a value's text, followed by anything but a digit, gives the value. *)
Lemma read_json_text v : reads_back v.
Proof.
  induction v as [s|n|l IH|l IH] using json_children_ind.
  - intros _ fuel rest Hf _. cbn [json_text] in *. unfold json_str_text in *.
    destruct fuel as [|fuel]; [cbn in Hf; lia|]. cbn [read_json app].
    rewrite bool_decide_eq_true_2 by done. rewrite <- app_assoc. cbn [app]. by rewrite read_string_escaped.
  - apply read_number.
  - intros Hw%json_wf_elems fuel rest Hf _. cbn [json_text] in *. rewrite <- app_comm_cons, <- app_assoc.
    change (["]"%char] ++ rest) with ("]"%char :: rest). cbn [length] in Hf. rewrite length_app in Hf.
    cbn [length] in Hf. destruct fuel as [|fuel]; [lia|]. destruct l as [|v l]; [done|].
    assert (He : expect "]"%char (commas (map json_text (v :: l)) ++ "]"%char :: rest) = None).
    { apply commas_head; [|by left]. apply json_text_head. by apply Forall_cons in Hw as [? _]. }
    pose proof (read_elems_back v l IH Hw fuel rest ltac:(lia)) as Hr. revert He Hr.
    generalize (commas (map json_text (v :: l)) ++ "]"%char :: rest). intros body He Hr. cbn [read_json].
    rewrite (bool_decide_eq_false_2 ("["%char = dquote)), (bool_decide_eq_true_2 ("["%char = "["%char)) by done.
    by rewrite He, Hr.
  - intros Hw%json_wf_members fuel rest Hf _. cbn [json_text] in *. rewrite <- app_comm_cons, <- app_assoc.
    change (["}"%char] ++ rest) with ("}"%char :: rest). cbn [length] in Hf. rewrite length_app in Hf.
    cbn [length] in Hf. destruct fuel as [|fuel]; [lia|]. destruct l as [|m l]; [done|].
    change (map (fun m => json_str_text m.1 ++ ":"%char :: json_text m.2) (m :: l))
      with (map member_text (m :: l)) in *.
    assert (He : expect "}"%char (commas (map member_text (m :: l)) ++ "}"%char :: rest) = None).
    { apply commas_head; [|by right]. exists dquote. eexists. split; [reflexivity|by left]. }
    pose proof (read_members_back m l IH Hw fuel rest ltac:(lia)) as Hr. revert He Hr.
    generalize (commas (map member_text (m :: l)) ++ "}"%char :: rest). intros body He Hr. cbn [read_json].
    rewrite (bool_decide_eq_false_2 ("{"%char = dquote)), (bool_decide_eq_false_2 ("{"%char = "["%char)),
      (bool_decide_eq_true_2 ("{"%char = "{"%char)) by done. by rewrite He, Hr.
Qed.
