(* ===== verification/MutJson.v ===== *)
(** * JSON values sent to the client, and the types of the protocol.

    The values the code builds with [yyjson_mut_*], the helpers of [rpc.c] and
    [document_symbol.c] that build pieces of them, and the result and
    notification types of the Language Server Protocol as schemas, with what it
    means that a value has a type.  A text added raw has the type of the value
    it is the text of. *)

From S2P Require Import Prelude CText Syntax Json Rpc.

(** ** Values *)

Inductive mut_val : Set :=
  | M_null
  | M_bool (b : bool)
  | M_uint (n : Z)
  | M_int (n : Z)
  | M_real (bits : Z)
  | M_str (s : string)
  | M_raw (s : list ascii)                     (* text as it is written *)
  | M_arr (l : list mut_val)
  | M_obj (l : list (string * mut_val)).

Definition member (k : string) (l : list (string * mut_val)) : option mut_val :=
  snd <$> List.find (fun m => String.eqb m.1 k) l.

Definition field (k : string) (v : mut_val) : option mut_val :=
  match v with M_obj l => member k l | _ => None end.

Fixpoint field_path (ks : list string) (v : mut_val) : option mut_val :=
  match ks with
  | [] => Some v
  | k :: ks' => field k v ≫= field_path ks'
  end.

Definition keys (v : mut_val) : list string := match v with M_obj l => l.*1 | _ => [] end.

(** [yyjson_mut_obj_add_str], which adds no member for a NULL string. *)
Definition obj_add_str (k : string) (s : option string) : list (string * mut_val) :=
  match s with Some s => [(k, M_str s)] | None => [] end.

(** [null] for no answer, else the value of the answer. *)
Definition or_null {A} (f : A -> mut_val) (x : option A) : mut_val := from_option f M_null x.

(** ** [rpc.c] and [document_symbol.c] *)

Definition position_json (p : LspPos) : mut_val :=
  M_obj [("line", M_uint (line p)); ("character", M_uint (character p))]%string.

Definition range_json (r : LspRange) : mut_val :=
  M_obj [("start", position_json (rstart r)); ("end", position_json (rend r))]%string.

Definition id_json (id : mut_id) : mut_val :=
  match id with
  | Id_null => M_null
  | Id_str s => M_str s
  | Id_uint z => M_uint z
  | Id_int z => M_int z
  | Id_real bits => M_real bits
  end.

(** What [make_response] and [make_error_response] build. *)
Definition response_json (r : response mut_val) : mut_val :=
  match r with
  | Response id result => M_obj [("jsonrpc", M_str "2.0"); ("id", id_json id); ("result", result)]%string
  | Error_response id code message =>
      M_obj [("jsonrpc", M_str "2.0"); ("id", id_json id);
             ("error", M_obj [("code", M_int code); ("message", M_str message)])]%string
  end.

(** ** The writer *)

(** [yyjson_mut_write], which fails on some values: a string has to be valid
    UTF-8, a number finite.  [None] is the NULL it returns then. *)
Class Writer := mkWriter { yyjson_mut_write : mut_val -> option string }.

(** A writer for values of seven-bit texts and without reals, for examples. *)
Fixpoint plain_value (v : mut_val) : bool :=
  match v with
  | M_str s => ascii_text s
  | M_real _ => false
  | M_arr l => forallb plain_value l
  | M_obj l => forallb (fun m => ascii_text m.1 && plain_value m.2) l
  | _ => true
  end.

Fixpoint value_text (v : mut_val) : list ascii :=
  match v with
  | M_null => str "null"
  | M_bool b => str (if b then "true" else "false")
  | M_uint n => write_decimal 20 n
  | M_int n => if (n <? 0)%Z then "-"%char :: write_decimal 20 (- n) else write_decimal 20 n
  | M_real _ => []
  | M_str s => json_str_text (str s)
  | M_raw text => text
  | M_arr l => "["%char :: commas (map value_text l) ++ ["]"%char]
  | M_obj l => "{"%char :: commas (map (fun m => json_str_text (str m.1) ++ ":"%char :: value_text m.2) l) ++ ["}"%char]
  end.

Definition plain_writer : Writer :=
  mkWriter (fun v => if plain_value v then Some (string_of_list_ascii (value_text v)) else None).

Example plain_writer_example :
  yyjson_mut_write (Writer := plain_writer) (M_obj [("a", M_arr [M_int (-1); M_null])])%string
    = Some (string_of_list_ascii (str "{" ++ json_str_text (str "a") ++ str ":[-1,null]}")) /\
  yyjson_mut_write (Writer := plain_writer) (M_str (String (ascii_of_nat 255) "")) = None.
Proof. split; vm_compute; reflexivity. Qed.

(** ** Protocol types *)

Inductive type_name : Set :=
  | Position | Range | Location_ | MarkupContent | Hover_ | ParameterInformation | SignatureInformation
  | SignatureHelp_ | DocumentHighlight_ | Command | CodeLens_ | FoldingRange_ | SymbolInformation
  | DocumentSymbol_ | TextEdit | CompletionItem | CompletionList | SemanticTokens_ | SemanticTokensEdit
  | SemanticTokensDelta | Diagnostic_ | ResponseId | ResponseError.

Inductive lsp_type : Set :=
  | T_null | T_bool | T_uint | T_int | T_real | T_string
  | T_literal (s : string)
  | T_enum (lo hi : Z)                                  (* the numbers of an enumeration *)
  | T_array (t : lsp_type)
  | T_or (t u : lsp_type)
  | T_object (fields : list (string * bool * lsp_type)) (* a member and whether it is required *)
  | T_named (n : type_name)
  | T_any.

Definition required (k : string) (t : lsp_type) : string * bool * lsp_type := (k, true, t).
Definition optional (k : string) (t : lsp_type) : string * bool * lsp_type := (k, false, t).

(** The types of version 3.18 of the protocol; the members the server never
    sends are left out. *)
Definition type_def (n : type_name) : lsp_type :=
  match n with
  | Position => T_object [required "line" T_uint; required "character" T_uint]
  | Range => T_object [required "start" (T_named Position); required "end" (T_named Position)]
  | Location_ => T_object [required "uri" T_string; required "range" (T_named Range)]
  | MarkupContent =>
      T_object [required "kind" (T_or (T_literal "plaintext") (T_literal "markdown")); required "value" T_string]
  | Hover_ => T_object [required "contents" (T_named MarkupContent); optional "range" (T_named Range)]
  | ParameterInformation => T_object [required "label" T_string; optional "documentation" (T_named MarkupContent)]
  | SignatureInformation =>
      T_object [required "label" T_string; optional "documentation" (T_named MarkupContent);
                optional "parameters" (T_array (T_named ParameterInformation));
                optional "activeParameter" (T_or T_uint T_null)]
  | SignatureHelp_ =>
      T_object [required "signatures" (T_array (T_named SignatureInformation)); optional "activeSignature" T_uint]
  | DocumentHighlight_ => T_object [required "range" (T_named Range); optional "kind" (T_enum 1 3)]
  | Command => T_object [required "title" T_string; required "command" T_string]
  | CodeLens_ => T_object [required "range" (T_named Range); optional "command" (T_named Command)]
  | FoldingRange_ =>
      T_object [required "startLine" T_uint; required "endLine" T_uint;
                optional "kind" (T_or (T_literal "comment") (T_literal "region"))]
  | SymbolInformation =>
      T_object [required "name" T_string; required "kind" (T_enum 1 26); optional "containerName" T_string;
                required "location" (T_named Location_)]
  | DocumentSymbol_ =>
      T_object [required "name" T_string; optional "detail" T_string; required "kind" (T_enum 1 26);
                required "range" (T_named Range); required "selectionRange" (T_named Range);
                optional "children" (T_array (T_named DocumentSymbol_))]
  | TextEdit => T_object [required "range" (T_named Range); required "newText" T_string]
  | CompletionItem =>
      T_object [required "label" T_string; optional "kind" (T_enum 1 25); optional "detail" T_string;
                optional "sortText" T_string; optional "textEdit" (T_named TextEdit)]
  | CompletionList => T_object [required "isIncomplete" T_bool; required "items" (T_array (T_named CompletionItem))]
  | SemanticTokens_ => T_object [optional "resultId" T_string; required "data" (T_array T_uint)]
  | SemanticTokensEdit =>
      T_object [required "start" T_uint; required "deleteCount" T_uint; optional "data" (T_array T_uint)]
  | SemanticTokensDelta =>
      T_object [optional "resultId" T_string; required "edits" (T_array (T_named SemanticTokensEdit))]
  | Diagnostic_ =>
      T_object [required "range" (T_named Range); optional "severity" (T_enum 1 4); optional "source" T_string;
                required "message" T_string]
  | ResponseId => T_or (T_or T_uint T_int) (T_or T_string (T_or T_real T_null))
  | ResponseError => T_object [required "code" T_int; required "message" T_string]
  end%string.

(** ** Having a type *)

(** The value a raw text is written from. *)
Fixpoint embed (v : json) : mut_val :=
  match v with
  | Json_str s => M_str (string_of_list_ascii s)
  | Json_num n => M_uint n
  | Json_arr l => M_arr (map embed l)
  | Json_obj l => M_obj (map (fun m => (string_of_list_ascii m.1, embed m.2)) l)
  end.

(** An object has the members of its type and no others, the required ones
    among them, each once. *)
Inductive has_type : lsp_type -> mut_val -> Prop :=
  | has_null : has_type T_null M_null
  | has_bool b : has_type T_bool (M_bool b)
  | has_uint n : (0 <= n)%Z -> has_type T_uint (M_uint n)
  | has_int n : has_type T_int (M_int n)
  | has_real bits : has_type T_real (M_real bits)
  | has_string s : has_type T_string (M_str s)
  | has_literal s : has_type (T_literal s) (M_str s)
  | has_enum lo hi n : (lo <= n <= hi)%Z -> has_type (T_enum lo hi) (M_uint n)
  | has_enum_int lo hi n : (lo <= n <= hi)%Z -> has_type (T_enum lo hi) (M_int n)
  | has_array t l : (forall v, v ∈ l -> has_type t v) -> has_type (T_array t) (M_arr l)
  | has_left t u v : has_type t v -> has_type (T_or t u) v
  | has_right t u v : has_type u v -> has_type (T_or t u) v
  | has_object fs l : NoDup l.*1 ->
      (forall k, k ∈ l.*1 -> k ∈ fs.*1.*1) ->
      (forall k t, (k, true, t) ∈ fs -> is_Some (member k l)) ->
      (forall k b t v, (k, b, t) ∈ fs -> member k l = Some v -> has_type t v) ->
      has_type (T_object fs) (M_obj l)
  | has_named n v : has_type (type_def n) v -> has_type (T_named n) v
  | has_any v : has_type T_any v
  | has_raw t v : json_wf v -> has_type t (embed v) -> has_type t (M_raw (json_text v)).

(** ** Checking *)

Definition no_repeats (ks : list string) : bool := bool_decide (NoDup ks).

(** Each member once, all of them known, the required ones there. *)
Definition members_known (fs : list (string * bool * lsp_type)) (ks : list string) : bool :=
  no_repeats ks && forallb (fun k => bool_decide (k ∈ fs.*1.*1)) ks
    && forallb (fun f => implb f.1.2 (bool_decide (f.1.1 ∈ ks))) fs.

Fixpoint members_typed (fs : list (string * bool * lsp_type)) (l : list (string * mut_val)) : Prop :=
  match fs with
  | [] => True
  | (k, _, t) :: fs' =>
      match member k l with Some v => has_type t v | None => True end /\ members_typed fs' l
  end.

Lemma member_Some k l : is_Some (member k l) <-> k ∈ l.*1.
Proof.
  unfold member. split.
  - intros [v Hv]. destruct (List.find _ l) as [[k' v']|] eqn:E; [|done].
    apply find_some in E as [Hin Hk%String.eqb_eq]. cbn in Hk. subst.
    apply list_elem_of_fmap. exists (k, v'). split; [done|by apply list_elem_of_In].
  - intros ([k' v] & -> & Hin)%list_elem_of_fmap. destruct (List.find _ l) as [m|] eqn:E; [by exists m.2|].
    apply list_elem_of_In in Hin. apply (find_none _ _ E) in Hin. cbn in Hin. by rewrite String.eqb_refl in Hin.
Qed.

Lemma members_typed_spec fs l : members_typed fs l ->
  forall k b t v, (k, b, t) ∈ fs -> member k l = Some v -> has_type t v.
Proof.
  induction fs as [|[[k0 b0] t0] fs IH]; cbn; [by intros _ k b t v ?%not_elem_of_nil|].
  intros [H0 H] k b t v [[= -> -> ->]|Hin]%elem_of_cons Hm; [by rewrite Hm in H0|by eapply IH].
Qed.

Lemma object_intro fs l : members_known fs l.*1 = true -> members_typed fs l -> has_type (T_object fs) (M_obj l).
Proof.
  unfold members_known. intros [[Hn Hk]%andb_true_iff Hr]%andb_true_iff Ht.
  constructor; [by apply bool_decide_eq_true in Hn| | |by apply members_typed_spec].
  - intros k Hin. rewrite forallb_forall in Hk. apply list_elem_of_In, Hk in Hin. by apply bool_decide_eq_true in Hin.
  - intros k t Hin. rewrite forallb_forall in Hr. apply list_elem_of_In, Hr in Hin. cbn in Hin.
    apply bool_decide_eq_true in Hin. by apply member_Some.
Qed.

Lemma array_intro {A} t (f : A -> mut_val) l : (forall x, x ∈ l -> has_type t (f x)) -> has_type (T_array t) (M_arr (f <$> l)).
Proof. intros H. constructor. intros v (x & -> & Hx)%list_elem_of_fmap. by apply H. Qed.

Lemma null_or t {A} (f : A -> mut_val) (x : option A) :
  (forall y, x = Some y -> has_type t (f y)) -> has_type (T_or T_null t) (or_null f x).
Proof. intros H. destruct x as [y|]; [apply has_right; by apply H|apply has_left, has_null]. Qed.

(** Goes through the structure of a value; what is left are the parts that are
    not constructors. *)
Create HintDb lsp.

Ltac has_type_step :=
  match goal with
  | H : has_type ?t ?v |- has_type ?t ?v => exact H
  | |- has_type (T_named _) ?v =>
      first [solve [auto with lsp] | match v with M_obj _ => apply has_named; cbn [type_def]; unfold required, optional end]
  | |- has_type (T_object _) (M_obj _) =>
      apply object_intro; [vm_compute; reflexivity|cbn; split_and?; try exact I]
  | |- has_type (T_array _) (M_arr (_ <$> _)) => apply array_intro; intros
  | |- has_type T_null M_null => apply has_null
  | |- has_type T_bool _ => apply has_bool
  | |- has_type T_int _ => apply has_int
  | |- has_type T_string _ => apply has_string
  | |- has_type (T_literal _) (M_str _) => apply has_literal
  | |- has_type (T_enum _ _) (M_uint _) => apply has_enum; first [done|lia|shelve]
  | |- has_type (T_enum _ _) (M_int _) => apply has_enum_int; first [done|lia|shelve]
  | |- has_type T_uint (M_uint _) => apply has_uint; first [done|lia|shelve]
  end.
Ltac has_type := unshelve (repeat has_type_step).

Lemma position_typed p : pos_wf p -> has_type (T_named Position) (position_json p).
Proof. unfold pos_wf, is_u32, position_json. intros [? ?]. has_type. Qed.
#[export] Hint Resolve position_typed : lsp.

Lemma range_typed r : range_wf r -> has_type (T_named Range) (range_json r).
Proof. intros [? ?]. unfold range_json. has_type. Qed.
#[export] Hint Resolve range_typed : lsp.

Lemma id_typed id : (forall z, id = Id_uint z -> 0 <= z)%Z -> has_type (T_named ResponseId) (id_json id).
Proof.
  intros H. apply has_named. destruct id as [|s|z|z|b]; cbn [id_json type_def].
  - do 3 apply has_right. apply has_null.
  - apply has_right, has_left, has_string.
  - apply has_left, has_left, has_uint. by apply H.
  - apply has_left, has_right, has_int.
  - apply has_right, has_right, has_left, has_real.
Qed.
