(* ===== verification/TextSync.v ===== *)
(** * [lifecycle.c]: applying the text changes of [textDocument/didChange]. *)

From S2P Require Import Prelude Syntax Rpc.

Definition newline : ascii := ascii_of_nat 10.

(** The line and column counters after reading one byte ([uint32_t]). *)
Definition advance (p : LspPos) (c : ascii) : LspPos :=
  if bool_decide (c = newline) then mkPos (u32 (line p + 1)) 0
  else mkPos (line p) (u32 (character p + 1)).

(** One of the two scanning loops: the bytes passed before the counters meet
    the target, and the rest. *)
Fixpoint scan_to (target cur : LspPos) (src : string) : string * string :=
  match src with
  | EmptyString => (EmptyString, EmptyString)
  | String c rest =>
      if bool_decide (cur = target) then (EmptyString, src)
      else let '(pre, suf) := scan_to target (advance cur c) rest in (String c pre, suf)
  end.

(** [apply_incremental_change]; the second loop starts its counters at the
    range's start, whether or not the first one met it. *)
Definition apply_incremental_change (src : option string) (range : LspRange) (new_text : string)
  : string :=
  let '(prefix, rest) := scan_to (rstart range) (mkPos 0 0) (default EmptyString src) in
  let '(_, suffix) := scan_to (rend range) (rstart range) rest in
  (prefix +:+ new_text +:+ suffix)%string.

Section Changes.
Context `{Yyjson}.

(** [apply_content_changes]; [None] when no usable change was produced. *)
Fixpoint apply_changes (base : option string) (current : option string)
    (changes : list yyjson_val) : option string :=
  match changes with
  | [] => current
  | change :: changes' =>
      let text := match current with Some t => t | None => default EmptyString base end in
      match json_str (Some change) "text" with
      | None => None
      | Some new_text =>
          let next :=
            match yyjson_obj_get change "range" with
            | Some range_obj =>
                apply_incremental_change (Some text)
                  (mkRange (json_to_pos (yyjson_obj_get range_obj "start"))
                           (json_to_pos (yyjson_obj_get range_obj "end"))) new_text
            | None => new_text
            end in
          apply_changes base (Some next) changes'
      end
  end.

Definition apply_content_changes (base_text : option string) (changes : list yyjson_val)
  : option string := apply_changes base_text None changes.
End Changes.

(** ** Specification *)

(** The position after reading [s] from [p]. *)
Fixpoint pos_after (p : LspPos) (s : string) : LspPos :=
  match s with
  | EmptyString => p
  | String c s' => pos_after (advance p c) s'
  end.

Definition origin : LspPos := mkPos 0 0.

(** A byte offset's position in a text as the scanning loops count: lines end at
    line feeds and columns count bytes. *)
Definition pos_of (a : string) : LspPos := pos_after origin a.

(** *** The client's positions

    The protocol's: lines end at a line feed, at a carriage return or at both,
    and columns count UTF-16 code units of the text, which is kept in UTF-8. *)

Definition carriage_return : ascii := ascii_of_nat 13.

(** Code units of the character a byte begins; a continuation byte begins none. *)
Definition utf16_units (c : ascii) : Z :=
  let n := nat_of_ascii c in
  if (n <? 128)%nat then 1%Z else if (n <? 192)%nat then 0%Z else if (n <? 240)%nat then 1%Z else 2%Z.

Definition first_char (s : string) : option ascii :=
  match s with EmptyString => None | String c _ => Some c end.

Definition client_step (p : LspPos) (c : ascii) (next : option ascii) : LspPos :=
  if bool_decide (c = newline) || bool_decide (c = carriage_return) && negb (bool_decide (next = Some newline))
  then mkPos (line p + 1) 0 else mkPos (line p) (character p + utf16_units c).

Fixpoint client_after (p : LspPos) (a rest : string) : LspPos :=
  match a with
  | EmptyString => p
  | String c a' => client_after (client_step p c (first_char (a' +:+ rest)%string)) a' rest
  end.

(** The position of the end of [a] in the text [a +:+ rest]. *)
Definition client_pos (a rest : string) : LspPos := client_after origin a rest.

(** Only ASCII stands before the end of [a] on its line. *)
Definition ascii_column (a : string) : Prop :=
  exists before this_line, a = (before +:+ this_line)%string /\ ascii_text this_line = true /\
    (before = EmptyString \/ exists x, before = (x +:+ String newline "")%string).

(** Every carriage return stands before a line feed. *)
Fixpoint no_lone_return (s : string) : bool :=
  match s with
  | EmptyString => true
  | String c s' => (negb (bool_decide (c = carriage_return)) || bool_decide (first_char s' = Some newline)) && no_lone_return s'
  end.

(** The client's own edits: a full replacement, or a splice of a range of its
    text, with the change object that describes it. *)
Inductive client_edit `{Yyjson} (t : string) (change : yyjson_val) : string -> Prop :=
  | edit_full new :
      json_str (Some change) "text" = Some new ->
      yyjson_obj_get change "range" = None -> client_edit t change new
  | edit_splice a b c new r :
      t = (a +:+ (b +:+ c))%string -> no_lone_return t = true ->
      ascii_column a -> ascii_column (a +:+ b)%string ->
      json_str (Some change) "text" = Some new ->
      yyjson_obj_get change "range" = Some r ->
      json_to_pos (yyjson_obj_get r "start") = client_pos a (b +:+ c)%string ->
      json_to_pos (yyjson_obj_get r "end") = client_pos (a +:+ b)%string c ->
      client_edit t change (a +:+ (new +:+ c))%string.

Inductive client_edits `{Yyjson} : string -> list yyjson_val -> string -> Prop :=
  | edits_done t : client_edits t [] t
  | edits_step t ch chs t1 t' :
      (Z.of_nat (String.length t) < u32_modulus)%Z ->
      client_edit t ch t1 -> client_edits t1 chs t' -> client_edits t (ch :: chs) t'.

(** ** Facts *)

Lemma pos_after_app p a b : pos_after p (a +:+ b)%string = pos_after (pos_after p a) b.
Proof. revert p. induction a as [|c a IH]; intros p; [done|]. apply (IH (advance p c)). Qed.

(** How far the counters can have come. *)
Definition small (p : LspPos) (n : Z) : Prop :=
  (0 <= line p)%Z /\ (0 <= character p)%Z /\ (line p + n < u32_modulus)%Z /\
  (character p + n < u32_modulus)%Z.

Lemma advance_lt p c n : small p (1 + n) -> (0 <= n)%Z -> pos_lt p (advance p c) /\ small (advance p c) n.
Proof.
  intros (H1 & H2 & H3 & H4) Hn. unfold advance, small.
  assert (Hl : u32 (line p + 1) = (line p + 1)%Z) by (apply u32_id; unfold is_u32; lia).
  assert (Hc : u32 (character p + 1) = (character p + 1)%Z) by (apply u32_id; unfold is_u32; lia).
  case_bool_decide; cbn; rewrite ?Hl, ?Hc; (split; [pos_lia|lia]).
Qed.

Lemma pos_after_le p s : small p (Z.of_nat (String.length s)) -> pos_le p (pos_after p s).
Proof.
  revert p. induction s as [|c s IH]; intros p Hp; [cbn; pos_lia|]. cbn [pos_after].
  cbn [String.length] in Hp. rewrite Nat2Z.inj_succ, <- Z.add_1_l in Hp.
  destruct (advance_lt p c _ Hp) as [Hlt Hs]; [lia|]. specialize (IH _ Hs). pos_lia.
Qed.

Lemma pos_after_ne p c s :
  small p (Z.of_nat (S (String.length s))) -> p ≠ pos_after p (String c s).
Proof.
  rewrite Nat2Z.inj_succ, <- Z.add_1_l. intros Hp.
  destruct (advance_lt p c _ Hp) as [Hlt Hs]; [lia|].
  pose proof (pos_after_le _ _ Hs) as Hle. cbn. intros E. rewrite <- E in Hle. pos_lia.
Qed.

Lemma str_length_app (a b : string) :
  String.length (a +:+ b)%string = (String.length a + String.length b)%nat.
Proof. induction a as [|c a IH]; [done|]. exact (f_equal S IH). Qed.

Lemma small_le p n m : small p n -> (m <= n)%Z -> small p m.
Proof. unfold small. lia. Qed.

(** The loop stops exactly where the target is. *)
Lemma scan_to_hit p a b :
  small p (Z.of_nat (String.length a + String.length b)) ->
  scan_to (pos_after p a) p (a +:+ b)%string = (a, b).
Proof.
  revert p. induction a as [|c a IH]; intros p Hp.
  - destruct b as [|x b]; [done|]. change (EmptyString +:+ String x b)%string with (String x b).
    cbn [scan_to pos_after]. by rewrite bool_decide_eq_true_2.
  - change (String c a +:+ b)%string with (String c (a +:+ b)%string).
    cbn [scan_to]. rewrite bool_decide_eq_false_2.
    2: { apply pos_after_ne. eapply small_le; [exact Hp|]. cbn. lia. }
    cbn [pos_after]. rewrite IH; [done|].
    cbn [String.length] in Hp. rewrite Nat.add_succ_l, Nat2Z.inj_succ, <- Z.add_1_l in Hp.
    apply (advance_lt p c) in Hp; [|lia]. apply Hp.
Qed.

Lemma scan_to_miss target p s :
  (forall a b, s = (a +:+ b)%string -> pos_after p a ≠ target) -> scan_to target p s = (s, EmptyString).
Proof.
  revert p. induction s as [|c s IH]; intros p Hp; [done|]. cbn [scan_to].
  rewrite bool_decide_eq_false_2 by by apply (Hp EmptyString (String c s)).
  rewrite IH; [done|]. intros a b ->. by apply (Hp (String c a) b).
Qed.

Lemma origin_small n : (Z.of_nat n < u32_modulus)%Z -> small origin (Z.of_nat n).
Proof. unfold small, u32_modulus. cbn. lia. Qed.

Lemma apply_incremental_splice a b c new :
  (Z.of_nat (String.length (a +:+ b +:+ c)%string) < u32_modulus)%Z ->
  apply_incremental_change (Some (a +:+ b +:+ c)%string)
    (mkRange (pos_of a) (pos_of (a +:+ b)%string)) new = (a +:+ new +:+ c)%string.
Proof.
  rewrite !str_length_app. intros Hl. unfold apply_incremental_change. cbn [from_option id rstart rend].
  unfold pos_of. change (mkPos 0 0) with origin.
  rewrite scan_to_hit by (rewrite str_length_app; by apply origin_small).
  rewrite pos_after_app, scan_to_hit; [done|].
  assert (Hg : forall s p n, small p (Z.of_nat (String.length s) + n) -> (0 <= n)%Z ->
            small (pos_after p s) n).
  { clear. induction s as [|x s IH]; intros p n Hp Hn; [done|]. cbn [pos_after]. apply IH; [|done].
    cbn [String.length] in Hp. rewrite Nat2Z.inj_succ in Hp.
    apply (advance_lt p x); [|lia]. eapply small_le; [exact Hp|]. lia. }
  apply Hg; [|lia]. eapply small_le; [by apply origin_small|]. lia.
Qed.

(** *** The client's positions are the loops' *)

Lemma first_char_app s rest : s <> EmptyString -> first_char (s +:+ rest)%string = first_char s.
Proof. by destruct s. Qed.

Lemma no_lone_return_cons c s : no_lone_return (String c s) = true ->
  (c = carriage_return -> first_char s = Some newline) /\ no_lone_return s = true.
Proof.
  cbn [no_lone_return]. rewrite andb_true_iff, orb_true_iff, negb_true_iff, bool_decide_eq_false, bool_decide_eq_true.
  intros [[?|?] ?]; by split.
Qed.

(** Where no carriage return stands alone, only line feeds end lines. *)
Lemma client_step_lf p c next : (c = carriage_return -> next = Some newline) ->
  client_step p c next =
    if bool_decide (c = newline) then mkPos (line p + 1) 0 else mkPos (line p) (character p + utf16_units c).
Proof.
  intros Hcr. unfold client_step. destruct (decide (c = newline)) as [->|Hn].
  - by rewrite bool_decide_eq_true_2.
  - rewrite (bool_decide_eq_false_2 (c = newline)) by done. cbn [orb].
    destruct (decide (c = carriage_return)) as [Hc|Hc].
    + rewrite (bool_decide_eq_true_2 (next = _)) by auto. by rewrite andb_false_r.
    + by rewrite (bool_decide_eq_false_2 (c = carriage_return)).
Qed.

Lemma ascii_units c : (nat_of_ascii c <? 128)%nat = true -> utf16_units c = 1%Z.
Proof. intros Hc. unfold utf16_units. by rewrite Hc. Qed.

(** One byte moves the line counters alike, and on ASCII the column counters. *)
Lemma step_agrees p q c next n : small p (1 + n) -> (0 <= n)%Z -> line p = line q ->
  (c = carriage_return -> next = Some newline) ->
  line (advance p c) = line (client_step q c next) /\
  (c = newline \/ utf16_units c = 1%Z /\ p = q -> advance p c = client_step q c next).
Proof.
  intros (H1 & H2 & H3 & H4) Hn Hl Hcr. rewrite client_step_lf by done. unfold advance.
  rewrite !u32_id by (unfold is_u32; lia). case_bool_decide as Hc; rewrite Hl; (split; [done|]).
  - done.
  - intros [?|[-> ->]]; done.
Qed.

Lemma after_line a : forall p q rest n, small p (Z.of_nat (String.length a) + n) -> (0 <= n)%Z -> line p = line q ->
  no_lone_return (a +:+ rest)%string = true ->
  line (pos_after p a) = line (client_after q a rest) /\ small (pos_after p a) n /\
  (ascii_text a = true -> p = q -> pos_after p a = client_after q a rest).
Proof.
  induction a as [|c a IH]; intros p q rest n Hp Hn Hl Hcr; [done|].
  cbn [String.length] in Hp. rewrite Nat2Z.inj_succ, <- Z.add_1_l, <- Z.add_assoc in Hp.
  apply no_lone_return_cons in Hcr as [Hc Hcr].
  destruct (step_agrees p q c _ _ Hp ltac:(lia) Hl Hc) as [Hl' Heq].
  destruct (advance_lt p c _ Hp ltac:(lia)) as [_ Hs].
  destruct (IH _ _ rest n Hs Hn Hl' Hcr) as (I1 & I2 & I3).
  cbn [pos_after client_after ascii_text]. split_and!; [done|done|].
  intros [Ha Hasc]%andb_true_iff Hpq. apply I3; [done|]. apply Heq. right. split; [by apply ascii_units|done].
Qed.

Lemma client_after_app q a b rest :
  client_after q (a +:+ b)%string rest = client_after (client_after q a (b +:+ rest)%string) b rest.
Proof.
  revert q. induction a as [|c a IH]; intros q; [done|]. change (String c a +:+ b)%string with (String c (a +:+ b))%string.
  cbn [client_after]. by rewrite IH, str_app_assoc.
Qed.

(** Where only ASCII precedes it on its line, a position is the same for both. *)
Lemma client_pos_bytes a rest :
  (Z.of_nat (String.length (a +:+ rest)%string) < u32_modulus)%Z -> no_lone_return (a +:+ rest)%string = true ->
  ascii_column a -> client_pos a rest = pos_of a.
Proof.
  intros Hlen Hcr (before & l & -> & Hasc & Hb). unfold client_pos, pos_of.
  rewrite client_after_app, pos_after_app. rewrite str_app_assoc in Hcr. rewrite !str_length_app in Hlen.
  assert (Hs : small origin (Z.of_nat (String.length before) + Z.of_nat (String.length l))).
  { eapply small_le; [by apply origin_small|]. lia. }
  assert (Hp : pos_after origin before = client_after origin before (l +:+ rest)%string).
  { destruct Hb as [->|[x ->]]; [done|]. rewrite client_after_app, pos_after_app.
    rewrite str_app_assoc in Hcr. rewrite str_length_app, Nat2Z.inj_add, <- Z.add_assoc in Hs.
    destruct (after_line x origin origin _ _ Hs ltac:(lia) eq_refl Hcr) as (Hline & Hx & _).
    cbn [pos_after client_after]. eapply step_agrees; [exact Hx|lia|exact Hline|done|by left]. }
  destruct (after_line before origin origin _ _ Hs ltac:(lia) eq_refl Hcr) as (_ & Hsl & _).
  assert (Hcr' : no_lone_return (l +:+ rest)%string = true).
  { clear -Hcr. induction before as [|c before IH]; [done|]. by apply no_lone_return_cons in Hcr as [_ Hcr%IH]. }
  rewrite <- (Z.add_0_r (Z.of_nat (String.length l))) in Hsl.
  destruct (after_line l _ _ rest 0 Hsl ltac:(lia) eq_refl Hcr') as (_ & _ & Heq).
  rewrite Hp in Heq |- *. symmetry. by apply Heq.
Qed.

(** Whenever the client edits its text (below 4 GiB) by full replacements and by
    splices of valid ranges, and sends the change objects in order, the fold of
    those objects over the server's copy gives the client's text. *)
Lemma content_changes_client `{Yyjson} t changes t' :
  client_edits t changes t' -> changes ≠ [] ->
  apply_content_changes (Some t) changes = Some t'.
Proof.
  intros He Hne. unfold apply_content_changes.
  assert (Hgen : forall base cur u chs u', client_edits u chs u' ->
            u = match cur with Some x => x | None => default EmptyString base end ->
            (cur = None -> chs ≠ []) -> apply_changes base cur chs = Some u').
  { intros base cur u chs u' Hr. revert cur. induction Hr as [u|u ch chs u1 u' Hl Hs _ IH]; intros cur Hu Hc.
    - destruct cur as [x|]; [by rewrite Hu|by destruct (Hc eq_refl)].
    - cbn [apply_changes]. rewrite <- Hu. destruct Hs as [new Ht Hr|a b c new r Hu' Hcr Ha Hb Ht Hr Hs He'].
      + rewrite Ht, Hr. by apply (IH (Some new)).
      + rewrite Hu' in Hl, Hcr. rewrite Ht, Hr, Hs, He', client_pos_bytes by done.
        rewrite client_pos_bytes by (rewrite ?str_app_assoc; done).
        rewrite Hu', apply_incremental_splice by done. by apply (IH (Some _)). }
  by apply (Hgen (Some t) None t).
Qed.

Definition json_pos (l c : Z) : sample_json := JObj [("line", JNum l); ("character", JNum c)]%string.
Definition json_change (l1 c1 l2 c2 : Z) (text : string) : sample_json :=
  JObj [("range", JObj [("start", json_pos l1 c1); ("end", json_pos l2 c2)]); ("text", JStr text)]%string.

(** A two-line text. *)
Definition two_lines : string := ("ab" +:+ String newline "cd")%string.

(** Behind a character outside ASCII the columns part: a client that deletes the
    [x] of [éx] (bytes C3 A9 78) sends columns 1 and 2, and the server cuts the
    character in two and keeps the [x]. *)
Definition accented : string := String (ascii_of_nat 195) (String (ascii_of_nat 169) EmptyString).

Example columns_part :
  client_pos accented "x" = mkPos 0 1 /\ client_pos (accented +:+ "x")%string "" = mkPos 0 2 /\
  pos_of accented = mkPos 0 2 /\
  apply_incremental_change (Some (accented +:+ "x")%string) (mkRange (mkPos 0 1) (mkPos 0 2)) ""
    = String (ascii_of_nat 195) "x".
Proof. vm_compute. done. Qed.

(** So do the lines behind a carriage return that stands alone. *)
Example lines_part :
  let a := String carriage_return "a" in
  client_pos a "b" = mkPos 1 1 /\ pos_of a = mkPos 0 2.
Proof. vm_compute. done. Qed.

(** ** Properties *)

(** What an out-of-range change does: a start that is no position of the
    text (for instance a column past the end of its line, which clients may
    send for the end of the line) leaves the whole text and puts the new text
    at its end; a valid start with an end that does not lie after it deletes
    everything behind the start. *)
Theorem out_of_range_change src r new :
  ((forall a b, src = (a +:+ b)%string -> pos_of a ≠ rstart r) ->
   apply_incremental_change (Some src) r new = (src +:+ new)%string) /\
  (forall a c, src = (a +:+ c)%string -> rstart r = pos_of a ->
   (Z.of_nat (String.length src) < u32_modulus)%Z ->
   (forall b c', c = (b +:+ c')%string -> pos_of (a +:+ b)%string ≠ rend r) ->
   apply_incremental_change (Some src) r new = (a +:+ new)%string).
Proof.
  unfold apply_incremental_change. cbn [from_option id]. split.
  - intros Hm. rewrite scan_to_miss by exact Hm. cbn [scan_to]. by rewrite str_app_nil_r.
  - intros a c -> Hs Hl Hm. rewrite Hs. unfold pos_of. change (mkPos 0 0) with origin.
    rewrite scan_to_hit by (rewrite str_length_app in Hl; by apply origin_small).
    rewrite scan_to_miss, str_app_nil_r; [done|]. intros b c' Hc. rewrite <- pos_after_app.
    by eapply Hm.
Qed.

Lemma out_of_range_change_witness :
  apply_incremental_change (Some two_lines) (mkRange (mkPos 0 9) (mkPos 0 9)) "!"
    = (two_lines +:+ "!")%string /\
  apply_incremental_change (Some two_lines) (mkRange (mkPos 0 1) (mkPos 0 0)) "!" = "a!"%string.
Proof.
  assert (Hpre : forall s a b, s = (a +:+ b)%string ->
            exists n, (n <= String.length s)%nat /\ a = substring 0 n s).
  { clear. induction s as [|x s IH]; intros [|y a] b Hab.
    - by exists 0.
    - discriminate Hab.
    - exists 0. split; [lia|done].
    - injection Hab as <- Hab. destruct (IH _ _ Hab) as (n & Hn & ->).
      exists (S n). split; [cbn; lia|done]. }
  split.
  - refine (proj1 (out_of_range_change two_lines (mkRange (mkPos 0 9) (mkPos 0 9)) "!") _).
    intros a b (n & Hn & ->)%Hpre. do 6 (destruct n as [|n]; [vm_compute; congruence|]).
    change (String.length _) with 5 in Hn || change (String.length _) with 4 in Hn. lia.
  - refine (proj2 (out_of_range_change two_lines (mkRange (mkPos 0 1) (mkPos 0 0)) "!") "a"%string
      ("b" +:+ String newline "cd")%string eq_refl eq_refl eq_refl _).
    intros b c (n & Hn & ->)%Hpre. do 5 (destruct n as [|n]; [vm_compute; congruence|]).
    change (String.length _) with 5 in Hn || change (String.length _) with 4 in Hn. lia.
Defined.
