(* ===== verification/Revalidate.v ===== *)
(** * [compile_commands.c] and the rest of [workspace.c]: reading
    [compile_commands.json] and revalidating.

    [server] is the coordinator's state: the document table, the cached facts
    about [compile_commands.json], the published snapshot, and the messages
    sent so far. *)

From S2P Require Import Prelude CText PathUri Syntax Store Workspace Assembly Rpc.

(** ** compile_commands.json *)

Definition path_join (a b : string) : string :=
  match String.get (String.length a - 1) a with
  | Some c => if bool_decide (c = slash) then (a +:+ b)%string
              else (a +:+ String slash b)%string
  | None => (a +:+ b)%string
  end.

Definition resolve_entry_path (workspace_root directory : option string) (file : string)
  : option string :=
  if is_absolute file then Some file
  else
    let base := match directory with
                | Some (String c d) => Some (String c d)
                | _ => workspace_root
                end in
    (fun b => path_join b file) <$> base.

Record CompileEntry : Set := mkCompileEntry {
  file_abs : string; ce_directory : option string; ce_command : option string
}.

Inductive CompileCommandsResult : Set :=
  | CC_OK | CC_NOT_FOUND | CC_PARSE_ERROR | CC_SCHEMA_ERROR | CC_NO_ROOT.

(** [cc_status]. *)
Definition CC_STATUS_OK : Z := 0.
Definition CC_STATUS_MISSING : Z := 1.
Definition CC_STATUS_MALFORMED : Z := 2.

(** [st_mtim] and [st_size] as [stat] reports them. *)
Record file_stat : Set := mkStat { mtime_sec : Z; mtime_nsec : Z; st_size : Z }.

#[global] Instance file_stat_eq_dec : EqDecision file_stat.
Proof. solve_decision. Defined.

Definition no_stat : file_stat := mkStat 0 0 0.

(** What [compile_commands.json] looks like from outside: [stat] of a path and
    [yyjson_read_file] of it. *)
Class CcEnv `{Yyjson} := mkCcEnv {
  stat : string -> option file_stat;
  yyjson_read_file : string -> option yyjson_val
}.

(** The published diagnostics baseline, a notice to the user, and the hand-over
    to the diagnostics workers. *)
Inductive event : Set :=
  | Publish_empty (uri : string)
  | Show_message (type : Z) (text : string)
  | Register_watchers
  | Registry_update (ws : workspace_snapshot).

Record server : Set := mkServer {
  sv_docs : store;
  g_workspace_root : option string;
  g_cc_path : option string;
  g_cc_stat : file_stat;
  g_cc_attempted : bool;
  g_cc_status : Z;
  g_ws : option workspace_snapshot;
  sv_sent : list event
}.

Definition with_docs (docs : store) (s : server) : server :=
  mkServer docs (g_workspace_root s) (g_cc_path s) (g_cc_stat s) (g_cc_attempted s)
    (g_cc_status s) (g_ws s) (sv_sent s).
Definition with_cc (st : file_stat) (attempted : bool) (status : Z) (s : server) : server :=
  mkServer (sv_docs s) (g_workspace_root s) (g_cc_path s) st attempted status (g_ws s) (sv_sent s).
Definition with_ws (ws : workspace_snapshot) (s : server) : server :=
  mkServer (sv_docs s) (g_workspace_root s) (g_cc_path s) (g_cc_stat s) (g_cc_attempted s)
    (g_cc_status s) (Some ws) (sv_sent s).
Definition send (e : event) (s : server) : server :=
  mkServer (sv_docs s) (g_workspace_root s) (g_cc_path s) (g_cc_stat s) (g_cc_attempted s)
    (g_cc_status s) (g_ws s) (sv_sent s ++ [e]).

(** The state at startup. *)
Definition server_init : server :=
  mkServer docstore_init None None no_stat false CC_STATUS_OK None [].

Section Revalidate.
Context `{Env} `{CcEnv}.

Definition workspace_set_root_from_uri (root_uri : option string) (s : server) : server :=
  let root := match g_workspace_root s with
              | Some r => Some r
              | None => root_uri ≫= uri_to_path
              end in
  let cc_path := match g_cc_path s with
                 | Some p => Some p
                 | None => (fun r => path_join r "compile_commands.json") <$> root
                 end in
  mkServer (sv_docs s) root cc_path (g_cc_stat s) (g_cc_attempted s) (g_cc_status s)
    (g_ws s) (sv_sent s).

Definition parse_compile_entry (workspace_root : option string) (item : yyjson_val)
  : option CompileEntry :=
  if yyjson_is_obj item then
    file_s ← yyjson_obj_get item "file" ≫= get_str;
    let dir_s := yyjson_obj_get item "directory" ≫= get_str in
    let cmd_s := yyjson_obj_get item "command" ≫= get_str in
    abs_path ← resolve_entry_path workspace_root dir_s file_s;
    Some (mkCompileEntry abs_path dir_s cmd_s)
  else None.

Definition compile_commands_load (workspace_root : option string)
  : CompileCommandsResult * list CompileEntry :=
  match workspace_root with
  | None => (CC_NO_ROOT, [])
  | Some root =>
      let cc_path := path_join root "compile_commands.json" in
      match stat cc_path with
      | None => (CC_NOT_FOUND, [])
      | Some _ =>
          match yyjson_read_file cc_path with
          | None => (CC_PARSE_ERROR, [])
          | Some doc =>
              match get_arr doc with
              | None => (CC_SCHEMA_ERROR, [])
              | Some items => (CC_OK, omap (parse_compile_entry workspace_root) items)
              end
          end
      end
  end.

(** One round of [load_compile_entries]. *)
Definition load_entry (docs : store) (e : CompileEntry) : store :=
  let docs1 := load_file docs (file_abs e) in
  alter_slot (set_cc_root true) (doc_find docs1 (path_to_uri (file_abs e))) docs1.

Definition load_compile_entries (docs : store) (entries : list CompileEntry) : store :=
  foldl load_entry docs entries.

Definition reload_compile_commands (s : server) : server :=
  match g_cc_path s with
  | None => with_cc (g_cc_stat s) true CC_STATUS_MISSING s
  | Some cc_path =>
      let s1 := with_cc (default no_stat (stat cc_path)) true CC_STATUS_OK s in
      match compile_commands_load (g_workspace_root s) with
      | (CC_OK, entries) => with_docs (load_compile_entries (sv_docs s1) entries) s1
      | (CC_NOT_FOUND, _) => with_cc (g_cc_stat s1) true CC_STATUS_MISSING s1
      | (CC_PARSE_ERROR, _) | (CC_SCHEMA_ERROR, _) =>
          with_cc (g_cc_stat s1) true CC_STATUS_MALFORMED s1
      | (CC_NO_ROOT, _) => s1
      end
  end.

Definition maybe_reload_compile_commands (s : server) : server :=
  match g_cc_path s with
  | None => s
  | Some cc_path =>
      match stat cc_path with
      | None =>
          if bool_decide (g_cc_stat s = no_stat) then s
          else send (Show_message 1 "taskjuggler-lsp: compile_commands.json has been removed.")
                 (with_cc no_stat (g_cc_attempted s) (g_cc_status s) s)
      | Some st =>
          if bool_decide (st ≠ g_cc_stat s) || negb (g_cc_attempted s)
          then reload_compile_commands s else s
      end
  end.

Definition publish_workspace_snapshot (s : server) : server :=
  with_ws (build_workspace_snapshot (sv_docs s) (g_cc_status s)) s.

Definition republish_all_diagnostics (s : server) : server :=
  foldl (fun s (d : Document) =>
           if d_in_use d && negb (d_disk_only d)
           then send (Publish_empty (default EmptyString (d_uri d))) s else s)
    s (sv_docs s).

(** [diag_registry_update (g_ws)]. *)
Definition notify_workers (s : server) : server :=
  match g_ws s with Some ws => send (Registry_update ws) s | None => s end.

Definition revalidate_all_docs (s : server) : server :=
  notify_workers
    (republish_all_diagnostics (publish_workspace_snapshot (maybe_reload_compile_commands s))).

(** ** Facts *)

(** What loading and tagging do to a document that is already there. *)
Definition kept (docs docs' : store) : Prop :=
  forall i d, docs !! i = Some d -> d_in_use d = true ->
    exists p b, (d_is_cc_root d = true -> b = true) /\
      docs' !! i = Some (set_prefixes p (set_cc_root b d)).

Lemma kept_refl docs : kept docs docs.
Proof. intros i d Hd _. exists (d_prefixes d), (d_is_cc_root d). rewrite Hd. by destruct d. Qed.

Lemma kept_trans a b c : kept a b -> kept b c -> kept a c.
Proof.
  intros Hab Hbc i d Hd Hu. destruct (Hab _ _ Hd Hu) as (p & b1 & I1 & Hb).
  destruct (Hbc _ _ Hb Hu) as (q & b2 & I2 & Hc). exists q, b2. split; [|exact Hc].
  intros Hr. apply I2. cbn. by apply I1.
Qed.

Lemma load_file_kept docs path :
  store_ok docs ->
  store_ok (load_file docs path) /\ kept docs (load_file docs path) /\
  covered (load_file docs path) path.
Proof.
  intros Hst. split; [by apply load_file_ok|].
  destruct (load_total LOAD_FUEL docs path Hst (free_slots_lt _ Hst)) as (d' & E & (_ & [_ X] & _) & C).
  unfold load_file. rewrite E. split; [|exact C]. intros i d Hd Hu.
  destruct (X _ _ Hd Hu) as [p Hp]. exists p, (d_is_cc_root d). cbn. rewrite Hp.
  unfold no_appends. rewrite app_nil_r. by destruct d.
Qed.

(** A document of this file is tagged as a project root. *)
Definition tagged (docs : store) (path : string) : Prop :=
  exists i d, docs !! i = Some d /\ d_in_use d = true /\ d_is_cc_root d = true /\
    (d_uri d = Some (path_to_uri path) \/ d_uri d = Some (normalize_uri realpath (path_to_uri path))).

Lemma tagged_kept docs docs' path : kept docs docs' -> tagged docs path -> tagged docs' path.
Proof.
  intros Hk (i & d & Hd & Hu & Hr & Hn). destruct (Hk _ _ Hd Hu) as (p & b & Hb & Hd').
  eexists i, _. split; [exact Hd'|]. cbn. rewrite Hb by done. done.
Qed.

Lemma kept_has_free docs docs' :
  length docs' = length docs -> kept docs docs' -> has_free docs' -> has_free docs.
Proof.
  intros Hl Hk (i & d' & Hd' & Hf). assert (Hi := lookup_lt_Some _ _ _ Hd'). rewrite Hl in Hi.
  apply lookup_lt_is_Some in Hi as [d Hd]. exists i, d. split; [done|].
  destruct (d_in_use d) eqn:Hu; [|done]. destruct (Hk _ _ Hd Hu) as (p & b & _ & Hx).
  rewrite Hd' in Hx. injection Hx as ->. cbn in Hf. congruence.
Qed.

Lemma load_entry_spec docs e :
  store_ok docs ->
  store_ok (load_entry docs e) /\ kept docs (load_entry docs e) /\
  (is_Some (read_file (file_abs e)) -> has_free (load_entry docs e) ->
   tagged (load_entry docs e) (file_abs e)).
Proof.
  intros Hst. destruct (load_file_kept docs (file_abs e) Hst) as (S1 & K1 & C1).
  unfold load_entry. set (docs1 := load_file docs (file_abs e)) in *.
  destruct (doc_find docs1 _) as [i|] eqn:Ef; cbn [alter_slot].
  2: { split_and!; [done..|]. intros Hr Hf. destruct (C1 Hr Hf). congruence. }
  destruct (doc_find_used docs1 _ i Ef) as (di & Hdi & Hui). split_and!.
  - apply store_ok_alter; [auto with tjlsp| |done]. intros d Hd. rewrite Hdi in Hd.
    injection Hd as <-. by apply (slot_ok_plain (set_cc_root true)).
  - apply (kept_trans _ _ _ K1). intros j d Hd Hu. destruct (decide (i = j)) as [->|Hne].
    + exists (d_prefixes d), true. rewrite list_lookup_alter_eq, Hd. split; [done|]. by destruct d.
    + exists (d_prefixes d), (d_is_cc_root d). rewrite list_lookup_alter_ne, Hd by done.
      by destruct d.
  - intros _ _. exists i, (set_cc_root true di). rewrite list_lookup_alter_eq, Hdi.
    split_and!; [done..|]. cbn.
    apply doc_find_Some in Ef as [(d & Hd & _ & Hn)|(d & Hd & _ & Hn)];
      rewrite Hdi in Hd; injection Hd as <-; auto.
Qed.

Lemma load_entries_spec entries : forall docs,
  store_ok docs -> let docs' := load_compile_entries docs entries in
  store_ok docs' /\ kept docs docs' /\
  forall e, e ∈ entries -> is_Some (read_file (file_abs e)) -> has_free docs' ->
    tagged docs' (file_abs e).
Proof.
  induction entries as [|e entries IH]; intros docs Hst docs'.
  { split_and!; [done|apply kept_refl|]. by intros e He%elem_of_nil. }
  destruct (load_entry_spec docs e Hst) as (S1 & K1 & T1).
  destruct (IH _ S1) as (S2 & K2 & T2). fold docs' in S2, K2, T2. split_and!; [done| |].
  - by eapply kept_trans.
  - intros e' [->|He]%elem_of_cons Hr Hf; [|by apply T2].
    eapply tagged_kept; [exact K2|]. apply T1; [done|].
    eapply (kept_has_free _ docs'); [|done..].
    transitivity MAX_DOCS; [apply S2|symmetry; apply S1].
Qed.

Lemma reload_kept s :
  store_ok (sv_docs s) ->
  let s' := maybe_reload_compile_commands s in
  store_ok (sv_docs s') /\ kept (sv_docs s) (sv_docs s').
Proof.
  intros Hst s'. assert (Hr : store_ok (sv_docs (reload_compile_commands s)) /\
    kept (sv_docs s) (sv_docs (reload_compile_commands s))).
  { unfold reload_compile_commands. destruct (g_cc_path s); [|split; [done|apply kept_refl]].
    destruct (compile_commands_load _) as [[] entries]; cbn;
      try (split; [done|apply kept_refl]). by destruct (load_entries_spec entries (sv_docs s) Hst) as (? & ? & _). }
  unfold s', maybe_reload_compile_commands.
  destruct (g_cc_path s); [|split; [done|apply kept_refl]].
  destruct (stat _); case_match; done || (split; [done|apply kept_refl]).
Qed.

Definition editor_uris (docs : store) : list string :=
  (fun d => default EmptyString (d_uri d)) <$>
    filter (fun d => d_in_use d = true /\ d_disk_only d = false) docs.

Lemma republish_spec s :
  republish_all_diagnostics s =
    mkServer (sv_docs s) (g_workspace_root s) (g_cc_path s) (g_cc_stat s) (g_cc_attempted s)
      (g_cc_status s) (g_ws s) (sv_sent s ++ (Publish_empty <$> editor_uris (sv_docs s))).
Proof.
  unfold republish_all_diagnostics, editor_uris.
  assert (Hg : forall l s0, foldl (fun s (d : Document) =>
             if d_in_use d && negb (d_disk_only d)
             then send (Publish_empty (default EmptyString (d_uri d))) s else s) s0 l
    = mkServer (sv_docs s0) (g_workspace_root s0) (g_cc_path s0) (g_cc_stat s0) (g_cc_attempted s0)
      (g_cc_status s0) (g_ws s0) (sv_sent s0 ++ (Publish_empty <$> ((fun d => default EmptyString (d_uri d)) <$>
         filter (fun d => d_in_use d = true /\ d_disk_only d = false) l)))).
  { induction l as [|d l IH]; intros s0; cbn [foldl].
    - rewrite filter_nil. cbn. rewrite app_nil_r. by destruct s0.
    - rewrite IH, filter_cons. destruct (d_in_use d) eqn:Eu, (d_disk_only d) eqn:Ed; cbn;
        case_decide as Hc; destruct_and?; try congruence; try done;
        try (destruct Hc; by split); cbn; by rewrite <- app_assoc. }
  apply Hg.
Qed.

Lemma maybe_reload_sent s :
  sv_sent (maybe_reload_compile_commands s) = sv_sent s \/
  exists text, sv_sent (maybe_reload_compile_commands s) = sv_sent s ++ [Show_message 1 text].
Proof.
  unfold maybe_reload_compile_commands. destruct (g_cc_path s) as [p|] eqn:Ep; [|by left].
  destruct (stat p).
  - case_match; [|by left]. left. unfold reload_compile_commands. rewrite Ep.
    by destruct (compile_commands_load _) as [[] ?].
  - case_match; [by left|right]. by eexists.
Qed.

(** The effects of a revalidation, for the handlers that end with one. *)
Lemma revalidate_spec s :
  store_ok (sv_docs s) ->
  let s' := revalidate_all_docs s in
  store_ok (sv_docs s') /\ kept (sv_docs s) (sv_docs s') /\
  g_ws s' = Some (build_workspace_snapshot (sv_docs s') (g_cc_status s')) /\
  exists notice, (length notice <= 1)%nat /\
    sv_sent s' = sv_sent s ++ notice ++ (Publish_empty <$> editor_uris (sv_docs s'))
                 ++ [Registry_update (build_workspace_snapshot (sv_docs s') (g_cc_status s'))].
Proof.
  intros Hst s'. destruct (reload_kept s Hst) as [S1 K1].
  unfold s', revalidate_all_docs. rewrite republish_spec. unfold notify_workers. cbn.
  split_and!; [done..|].
  destruct (maybe_reload_sent s) as [->|[text ->]].
  - exists []. split; [cbn; lia|]. by rewrite <- app_assoc.
  - exists [Show_message 1 text]. split; [cbn; lia|]. by rewrite <- !app_assoc.
Qed.

(** ** Properties *)

(** A usable [compile_commands.json] makes its files project roots: when it
    can be read as an array, the status is OK, every entry with a resolvable
    path to a readable file has a document tagged as root (unless the table is
    full), entries without one are skipped, and no document loses its text, its
    parses or its owner; otherwise no document changes and the status says
    whether the file is missing or malformed. *)
Theorem reload_compile_commands_correct s cc_path root :
  store_ok (sv_docs s) -> g_cc_path s = Some cc_path -> g_workspace_root s = Some root ->
  let s' := reload_compile_commands s in
  let path := path_join root "compile_commands.json" in
  store_ok (sv_docs s') /\ kept (sv_docs s) (sv_docs s') /\ g_cc_attempted s' = true /\
  match stat path, yyjson_read_file path ≫= get_arr with
  | Some _, Some items =>
      g_cc_status s' = CC_STATUS_OK /\
      forall item e, item ∈ items -> parse_compile_entry (Some root) item = Some e ->
        is_Some (read_file (file_abs e)) -> has_free (sv_docs s') ->
        tagged (sv_docs s') (file_abs e)
  | None, _ => sv_docs s' = sv_docs s /\ g_cc_status s' = CC_STATUS_MISSING
  | Some _, None => sv_docs s' = sv_docs s /\ g_cc_status s' = CC_STATUS_MALFORMED
  end.
Proof.
  intros Hst Hp Hr s' path. unfold s', reload_compile_commands.
  rewrite Hp, Hr. cbn [compile_commands_load]. fold path.
  destruct (stat path); [|by split_and!; [|apply kept_refl|..]].
  destruct (yyjson_read_file path) as [doc|]; [|by split_and!; [|apply kept_refl|..]].
  cbn [mbind option_bind]. destruct (get_arr doc) as [items|]; [|by split_and!; [|apply kept_refl|..]].
  cbn [sv_docs with_docs with_cc g_cc_attempted g_cc_status].
  destruct (load_entries_spec (omap (parse_compile_entry (Some root)) items) (sv_docs s) Hst)
    as (S1 & K1 & T1).
  split_and!; [done..|]. intros item e Hi He. apply T1. apply list_elem_of_omap. eauto.
Qed.

(** Every revalidation publishes the truth: the published snapshot is the one
    assembled from the current table, the text, parses and owner of every
    document are untouched, each editor document gets exactly one empty baseline
    (preceded by at most one notice), and only then the workers are handed that
    very snapshot. *)
Theorem revalidate_publishes s :
  store_ok (sv_docs s) ->
  let s' := revalidate_all_docs s in
  let ws := build_workspace_snapshot (sv_docs s') (g_cc_status s') in
  store_ok (sv_docs s') /\ g_ws s' = Some ws /\
  (forall i d, sv_docs s !! i = Some d -> d_in_use d = true ->
     exists d', sv_docs s' !! i = Some d' /\ d_uri d' = d_uri d /\ d_text d' = d_text d /\
       d_snap d' = d_snap d /\ d_prev_snap d' = d_prev_snap d /\ d_disk_only d' = d_disk_only d) /\
  exists notice, (length notice <= 1)%nat /\
    sv_sent s' = sv_sent s ++ notice ++ (Publish_empty <$> editor_uris (sv_docs s'))
                 ++ [Registry_update ws].
Proof.
  intros Hst s' ws. destruct (revalidate_spec s Hst) as (S1 & K1 & W1 & N1).
  split_and!; [done..| |done]. intros i d Hd Hu. destruct (K1 _ _ Hd Hu) as (p & b & _ & Hx).
  eexists. split; [exact Hx|]. done.
Qed.

End Revalidate.

(** The workspace [/w] of [cyclic_env] with a compile_commands.json that names
    [a.tjp] and has one entry that is skipped. *)
#[global] Instance sample_cc : CcEnv :=
  mkCcEnv sample_yyjson (fun p => if bool_decide (p = "/w/compile_commands.json"%string)
                    then Some (mkStat 1 0 10) else None)
    (fun _ => Some (JArr [JNum 3; JObj [("file"%string, JStr "a.tjp")]])).

Definition sample_server : server :=
  @workspace_set_root_from_uri (Some "file:///w"%string) server_init.

Lemma reload_compile_commands_correct_witness :
  let s' := @reload_compile_commands cyclic_env _ sample_cc sample_server in
  g_cc_status s' = CC_STATUS_OK /\ (d_is_cc_root <$> sv_docs s' !! 0) = Some true /\
  store_ok (sv_docs s').
Proof.
  intros s'. split_and!; [vm_compute; reflexivity..|].
  refine (proj1 (@reload_compile_commands_correct cyclic_env _ sample_cc sample_server
    "/w/compile_commands.json" "/w" store_ok_init eq_refl eq_refl)).
Defined.

Lemma revalidate_publishes_witness :
  let s' := @revalidate_all_docs cyclic_env _ sample_cc sample_server in
  (length (sv_sent s') = 1)%nat /\
  g_ws s' = Some (@build_workspace_snapshot cyclic_env (sv_docs s') (g_cc_status s')).
Proof.
  intros s'. split; [vm_compute; reflexivity|].
  apply (proj1 (proj2 (@revalidate_publishes cyclic_env _ sample_cc sample_server store_ok_init))).
Defined.
