(* ===== verification/Lifecycle.v ===== *)
(** * [lifecycle.c]: the notifications that change the document table.

    Each handler takes the notification's [params] and the coordinator's state;
    the early returns leave the state as it is. *)

From S2P Require Import Prelude PathUri Syntax Owners Store Workspace Assembly Rpc TextSync Revalidate.

(** A property all environments of a run have; none by default. *)
Class Lawful : Type := lawful : Env -> Prop.
#[global] Instance any_env : Lawful | 100 := fun _ => True.

Class LawfulEnv `{Lawful} (E : Env) : Prop := lawful_env : lawful E.
#[global] Instance any_env_lawful E : LawfulEnv (H := any_env) E := I.

(** A snapshot is what a parse of its text gave. *)
Definition parse_of `{Lawful} (sn : doc_snapshot) : Prop :=
  exists (E : Env) v, lawful E /\ sn = docsnap_new (snap_uri sn) (snap_text sn) (@parse E (snap_text sn)) v.

Lemma parse_of_new `{Lawful} `{!LawfulEnv E} uri text v : parse_of (docsnap_new uri text (@parse E text) v).
Proof. exists E, v. done. Qed.

Section Handlers.
Context `{Env} `{CcEnv}.

(** [follow_includes] when the URI has a path. *)
Definition follow_uri (docs : store) (uri : string) (po : ParseOutput) : store :=
  match uri_to_path uri with Some path => follow_includes docs path po | None => docs end.

(** Parse the text, follow its includes, install the parse. *)
Definition reparse (docs : store) (i : nat) (uri text : string) : store :=
  let po := parse text in
  alter (doc_install_parse (Some po)) i (follow_uri docs uri po).

(** The tail of [handle_didopen]: the editor takes the slot over. *)
Definition open_slot (docs : store) (i : nat) (uri text : string) : store :=
  reparse (alter (fun d => set_text (Some text) (set_disk_only false d)) i docs) i uri text.

Definition handle_didopen (params : option yyjson_val) (s : server) : server :=
  match params ≫= (fun p => yyjson_obj_get p "textDocument") with
  | None => s
  | Some tdi =>
      match json_str (Some tdi) "uri", json_str (Some tdi) "text" with
      | Some uri, Some text =>
          match doc_find (sv_docs s) uri with
          | Some i =>
              match sv_docs s !! i with
              | None => s
              | Some d =>
                  if negb (d_disk_only d) then s
                  else if bool_decide (d_text d = Some text)
                  then revalidate_all_docs (with_docs (alter (set_disk_only false) i (sv_docs s)) s)
                  else
                    let docs1 := alter (fun d => doc_clear_parse_state (set_text None d)) i (sv_docs s) in
                    revalidate_all_docs (with_docs (open_slot docs1 i uri text) s)
              end
          | None =>
              match doc_alloc (sv_docs s) uri with
              | None => s
              | Some (i, docs1) => revalidate_all_docs (with_docs (open_slot docs1 i uri text) s)
              end
          end
      | _, _ => s
      end
  end.

Definition handle_didchange (params : option yyjson_val) (s : server) : server :=
  match params with
  | None => s
  | Some p =>
      match yyjson_obj_get p "textDocument", yyjson_obj_get p "contentChanges" ≫= get_arr with
      | Some tdi, Some changes =>
          match json_str (Some tdi) "uri" with
          | None => s
          | Some uri =>
              match changes, doc_find (sv_docs s) uri with
              | [], _ | _, None => s
              | _, Some i =>
                  match apply_content_changes (sv_docs s !! i ≫= d_text) changes with
                  | None => s
                  | Some current =>
                      revalidate_all_docs
                        (with_docs (reparse (alter (set_text (Some current)) i (sv_docs s)) i uri current) s)
                  end
              end
          end
      | _, _ => s
      end
  end.

Definition handle_didclose (params : option yyjson_val) (s : server) : server :=
  match params ≫= (fun p => yyjson_obj_get p "textDocument") with
  | None => s
  | Some tdi =>
      match json_str (Some tdi) "uri" with
      | None => s
      | Some uri =>
          match doc_find (sv_docs s) uri with
          | None => s
          | Some i =>
              match uri_to_path uri with
              | Some path =>
                  match read_file path with
                  | Some text =>
                      revalidate_all_docs (with_docs (install_disk_text (sv_docs s) i text path) s)
                  | None =>
                      revalidate_all_docs
                        (with_docs (alter doc_free i (sv_docs s)) (send (Publish_empty uri) s))
                  end
              | None =>
                  revalidate_all_docs
                    (with_docs (alter doc_free i (sv_docs s)) (send (Publish_empty uri) s))
              end
          end
      end
  end.

(** [forget_watched_file]: [None] when nothing changed. *)
Definition forget_watched_file (docs : store) (uri : string) : option store :=
  match doc_find docs uri with
  | Some i => match docs !! i with
              | Some d => if d_disk_only d then Some (alter doc_free i docs) else None
              | None => None
              end
  | None => None
  end.

(** The part of a reload shared by watched files and renames: read the file,
    find or allocate its slot, install the text. *)
Definition admit_text (docs : store) (uri : string) : option store :=
  path ← uri_to_path uri;
  text ← read_file path;
  match doc_find docs uri with
  | Some i => Some (install_disk_text docs i text path)
  | None =>
      match doc_alloc docs uri with
      | Some (i, docs1) => Some (install_disk_text docs1 i text path)
      | None => None
      end
  end.

Definition admit_watched_file (docs : store) (uri : string) : option store :=
  match doc_find docs uri ≫= (fun i => docs !! i) with
  | Some d => if negb (d_disk_only d) then None else admit_text docs uri
  | None => admit_text docs uri
  end.

(** One round of the event loop; the flag is [changed]. *)
Definition watched_event (st : store * bool) (event : yyjson_val) : store * bool :=
  let '(docs, changed) := st in
  match json_str (Some event) "uri", yyjson_obj_get event "type" ≫= get_num with
  | Some uri, Some type =>
      match (if bool_decide (type = 3%Z) then forget_watched_file docs uri
             else admit_watched_file docs uri) with
      | Some docs' => (docs', true)
      | None => (docs, changed)
      end
  | _, _ => (docs, changed)
  end.

Definition handle_did_change_watched_files (params : option yyjson_val) (s : server) : server :=
  match (params ≫= (fun p => yyjson_obj_get p "changes")) ≫= get_arr with
  | None => s
  | Some events =>
      let '(docs, changed) := foldl watched_event (sv_docs s, false) events in
      if changed then revalidate_all_docs (with_docs docs s) else with_docs docs s
  end.

(** One round of the rename loop. *)
Definition rename_event (st : server * bool) (file_item : yyjson_val) : server * bool :=
  let '(s, changed) := st in
  match json_str (Some file_item) "oldUri", json_str (Some file_item) "newUri" with
  | Some old_uri, Some new_uri =>
      let '(s1, changed1) :=
        match doc_find (sv_docs s) old_uri with
        | Some i =>
            match sv_docs s !! i with
            | Some d =>
                let s0 := if d_disk_only d then s else send (Publish_empty old_uri) s in
                (with_docs (alter doc_free i (sv_docs s0)) s0, true)
            | None => (s, changed)
            end
        | None => (s, changed)
        end in
      match admit_text (sv_docs s1) new_uri with
      | Some docs' => (with_docs docs' s1, true)
      | None => (s1, changed1)
      end
  | _, _ => (s, changed)
  end.

Definition handle_did_rename_files (params : option yyjson_val) (s : server) : server :=
  match (params ≫= (fun p => yyjson_obj_get p "files")) ≫= get_arr with
  | None => s
  | Some files =>
      let '(s1, changed) := foldl rename_event (s, false) files in
      if changed then revalidate_all_docs s1 else s1
  end.

(** [handle_initialized]. *)
Definition handle_initialized (s : server) : server :=
  let s1 := reload_compile_commands (send Register_watchers s) in
  match g_workspace_root s1 with Some _ => revalidate_all_docs s1 | None => s1 end.

(** [handle_initialize], without the constant capabilities it answers. *)
Definition handle_initialize (params : option yyjson_val) (s : server) : server :=
  match (params ≫= (fun p => yyjson_obj_get p "rootUri")) ≫= get_str with
  | Some root_uri => workspace_set_root_from_uri (Some root_uri) s
  | None => s
  end.

(** The notification rows of the method table. *)
Inductive notification : Set :=
  | Initialized | DidOpen | DidChange | DidClose | DidChangeWatchedFiles | DidRenameFiles.

Definition notify (n : notification) (params : option yyjson_val) (s : server) : server :=
  match n with
  | Initialized => handle_initialized s
  | DidOpen => handle_didopen params s
  | DidChange => handle_didchange params s
  | DidClose => handle_didclose params s
  | DidChangeWatchedFiles => handle_did_change_watched_files params s
  | DidRenameFiles => handle_did_rename_files params s
  end.

(** ** Invariant *)

(** What is known of the environments the notifications run under. *)
Context `{Lawful} `{!LawfulEnv _}.

(** A snapshot is a parse of the text its document holds. *)
Definition in_sync (d : Document) : Prop :=
  forall sn, d_snap d = Some sn -> d_text d = Some (snap_text sn) /\ parse_of sn.

Definition docs_ok (docs : store) : Prop := store_ok docs /\ Forall in_sync docs.

Definition server_ok (s : server) : Prop := docs_ok (sv_docs s).

(** The content of a document, as queries see it. *)
Definition same_content (d d' : Document) : Prop :=
  d_in_use d' = d_in_use d /\ d_uri d' = d_uri d /\ d_text d' = d_text d /\
  d_snap d' = d_snap d /\ d_prev_snap d' = d_prev_snap d /\ d_disk_only d' = d_disk_only d.

(** Used documents outside [except] keep their content. *)
Definition undisturbed (except : nat -> Document -> Prop) (docs docs' : store) : Prop :=
  forall i d, docs !! i = Some d -> d_in_use d = true -> ~ except i d ->
    exists d', docs' !! i = Some d' /\ same_content d d'.

(** ** Facts *)

Lemma same_content_refl d : same_content d d.
Proof. by split_and!. Qed.

Lemma undisturbed_refl P docs : undisturbed P docs docs.
Proof. intros i d Hd _ _. exists d. split; [done|apply same_content_refl]. Qed.

(** Slots filled by loading are in sync, and old ones stay so. *)
Lemma load_post_in_sync g docs docs' :
  load_post g docs docs' -> Forall in_sync docs -> Forall in_sync docs'.
Proof.
  intros (S1 & [_ X] & N) Hs. rewrite Forall_lookup in *. intros i d' Hd' sn Hsn.
  destruct (d_in_use d') eqn:Hu.
  - destruct (N _ _ Hd' Hu) as [(d & Hd & Hud)|Hl].
    + destruct (X _ _ Hd Hud) as [p Hp]. rewrite Hd' in Hp. injection Hp as ->. by apply (Hs i d).
    + destruct Hl as (_ & _ & _ & _ & path & text & _ & _ & Ht & Hs' & _).
      rewrite Hs' in Hsn. injection Hsn as <-. split; [done|apply parse_of_new].
  - destruct S1 as (_ & Hok & _). rewrite Forall_lookup in Hok.
    destruct (Hok _ _ Hd') as (Hb & _). rewrite (Hb Hu) in Hsn. done.
Qed.

(** What [follow_includes] does to the slots that are in use. *)
Lemma follow_uri_spec docs uri po :
  store_ok docs ->
  let docs' := follow_uri docs uri po in
  store_ok docs' /\
  (forall i d, docs !! i = Some d -> d_in_use d = true ->
     exists p l, docs' !! i = Some (set_prefixes p (set_included l d))) /\
  (forall P : nat -> Prop, (forall i d, docs !! i = Some d -> ~ P i -> in_sync d) ->
     (forall i, P i -> exists d, docs !! i = Some d /\ d_in_use d = true) ->
     forall i d', docs' !! i = Some d' -> ~ P i -> in_sync d').
Proof.
  intros Hst docs'. unfold docs', follow_uri. destruct (uri_to_path uri) as [path|].
  2: { split_and!; [done| |].
       - intros i d Hd _. exists (d_prefixes d), (d_included_uris d). rewrite Hd. by destruct d.
       - intros P Hp _ i d'. apply Hp. }
  destruct (follow_includes_post docs path po Hst) as [Hpost _].
  set (o := doc_find docs (path_to_uri path)) in *.
  set (d1 := alter_slot (set_included []) o docs) in *.
  assert (Hd1 : forall i d, docs !! i = Some d -> exists l, d1 !! i = Some (set_included l d)).
  { intros i d Hd. unfold d1. destruct o as [j|]; cbn [alter_slot].
    - destruct (decide (j = i)) as [->|Hne].
      + rewrite list_lookup_alter_eq, Hd. by eexists.
      + rewrite list_lookup_alter_ne, Hd by done. exists (d_included_uris d). by destruct d.
    - rewrite Hd. exists (d_included_uris d). by destruct d. }
  assert (Hl1 : length d1 = length docs).
  { unfold d1. destruct o; cbn; [apply length_alter|done]. }
  pose proof Hpost as (S1 & [HL X] & N). split_and!; [done| |].
  - intros i d Hd Hu. destruct (Hd1 _ _ Hd) as [l Hl]. destruct (X _ _ Hl Hu) as [p Hp].
    exists p. eexists. rewrite Hp. reflexivity.
  - intros P HP Hused i d' Hd' Hn sn Hsn.
    destruct (d_in_use d') eqn:Hu.
    + destruct (N _ _ Hd' Hu) as [(d & Hd & Hud)|Hl].
      * destruct (X _ _ Hd Hud) as [p Hp]. rewrite Hd' in Hp. injection Hp as ->.
        assert (Hi : (i < length docs)%nat) by (rewrite <- Hl1; by apply lookup_lt_Some in Hd).
        apply lookup_lt_is_Some in Hi as [d0 Hd0]. destruct (Hd1 _ _ Hd0) as [l Hl].
        rewrite Hd in Hl. injection Hl as ->. by apply (HP i d0).
      * destruct Hl as (_ & _ & _ & _ & path' & text & _ & _ & Ht & Hs' & _).
        rewrite Hs' in Hsn. injection Hsn as <-. split; [done|apply parse_of_new].
    + destruct S1 as (_ & Hok & _). rewrite Forall_lookup in Hok.
      destruct (Hok _ _ Hd') as (Hb & _). rewrite (Hb Hu) in Hsn. done.
Qed.

(** The common core of opening, changing and reloading a document: slot [i] is
    put into state [f d] with the new text, then reparsed. *)
Lemma reparse_spec docs i d f uri text :
  docs_ok docs -> docs !! i = Some d -> d_in_use d = true ->
  keeps_place f -> slot_ok (f d) -> d_text (f d) = Some text ->
  let docs' := reparse (alter f i docs) i uri text in
  docs_ok docs' /\ undisturbed (fun j _ => j = i) docs docs' /\
  exists p l, docs' !! i = Some (doc_install_parse (Some (parse text))
                                   (set_prefixes p (set_included l (f d)))).
Proof.
  intros [Hst Hsync] Hd Hu Hk Hf Ht docs'.
  assert (S1 : store_ok (alter f i docs)).
  { apply store_ok_alter; [done| |done]. intros d0 Hd0 _. rewrite Hd in Hd0. by injection Hd0 as <-. }
  destruct (follow_uri_spec (alter f i docs) uri (parse text) S1) as (S2 & X & Y).
  set (docs2 := follow_uri (alter f i docs) uri (parse text)) in *.
  assert (Huf : d_in_use (f d) = true) by (destruct (Hk d) as [-> _]; done).
  destruct (X i (f d)) as (p & l & Hi); [by rewrite list_lookup_alter_eq, Hd|done|].
  unfold docs', reparse. fold docs2. split_and!.
  - split.
    + apply store_ok_alter; [auto with tjlsp| |done]. intros d0 Hd0. rewrite Hi in Hd0.
      injection Hd0 as <-. by apply slot_ok_install.
    + rewrite Forall_lookup. intros j dj. destruct (decide (i = j)) as [<-|Hne].
      * rewrite list_lookup_alter_eq, Hi. intros [= <-] sn [= <-]. cbn. rewrite Ht.
        split; [done|apply parse_of_new].
      * rewrite list_lookup_alter_ne by done. intros Hj. apply (Y (fun j => j = i)) in Hj; [done| | |congruence].
        -- intros k dk Hdk Hk'. rewrite list_lookup_alter_ne in Hdk by congruence.
           rewrite Forall_lookup in Hsync. by eapply Hsync.
        -- intros k ->. exists (f d). by rewrite list_lookup_alter_eq, Hd.
  - intros j dj Hdj Huj Hne. destruct (X j dj) as (q & m & Hj); [by rewrite list_lookup_alter_ne|done|].
    eexists. rewrite list_lookup_alter_ne, Hj by done. split; [reflexivity|]. by split_and!.
  - exists p, l. by rewrite list_lookup_alter_eq, Hi.
Qed.

Lemma install_as_reparse docs i text uri path :
  uri_to_path uri = Some path ->
  install_disk_text docs i text path =
    reparse (alter (fun d => set_disk_only true (set_text (Some text) d)) i docs) i uri text.
Proof. intros Hp. unfold install_disk_text, reparse, follow_uri. by rewrite Hp. Qed.

Lemma in_sync_plain (f : Document -> Document) docs i :
  (forall d, d_snap (f d) = d_snap d) -> (forall d, d_text (f d) = d_text d) ->
  Forall in_sync docs -> Forall in_sync (alter f i docs).
Proof.
  intros Hs Ht Hok. rewrite Forall_lookup in *. intros j d. destruct (decide (i = j)) as [->|Hne].
  - rewrite list_lookup_alter_eq, fmap_Some. intros (d0 & Hd & ->) sn. rewrite Hs, Ht.
    by apply (Hok j).
  - rewrite list_lookup_alter_ne by done. apply Hok.
Qed.

Lemma docs_ok_free docs i : docs_ok docs -> docs_ok (alter doc_free i docs).
Proof.
  intros [Hst Hs]. split; [by apply store_ok_free|]. rewrite Forall_lookup in *. intros j d.
  destruct (decide (i = j)) as [->|Hne].
  - rewrite list_lookup_alter_eq, fmap_Some. by intros (d0 & _ & ->) sn.
  - rewrite list_lookup_alter_ne by done. apply Hs.
Qed.

Lemma docs_ok_alloc docs uri i docs1 :
  docs_ok docs -> doc_find docs uri = None -> doc_alloc docs uri = Some (i, docs1) ->
  docs_ok docs1 /\ docs !! i = Some blank /\
  docs1 = <[i := claim (normalize_uri realpath uri) blank]> docs.
Proof.
  intros [Hst Hs] Hf Ha. pose proof (doc_alloc_spec docs uri Hst) as Hsp. rewrite Ha in Hsp.
  destruct Hsp as (Hb & -> & Hi & _). split_and!; [|done..]. split.
  - eapply doc_alloc_ok; [done..|]. intros j (d & Hd & Hp).
    by destruct (doc_find_None _ _ Hf _ _ Hd).
  - apply Forall_insert; [done|]. by intros sn.
Qed.

Lemma load_file_in_sync docs path : store_ok docs -> Forall in_sync docs -> Forall in_sync (load_file docs path).
Proof.
  intros Hst. destruct (load_total LOAD_FUEL docs path Hst (free_slots_lt _ Hst)) as (d' & E & P & _).
  unfold load_file. rewrite E. by eapply load_post_in_sync.
Qed.

Lemma load_entries_in_sync entries : forall docs,
  store_ok docs -> Forall in_sync docs -> Forall in_sync (load_compile_entries docs entries).
Proof.
  induction entries as [|e entries IH]; intros docs Hst Hs; [done|]. cbn [load_compile_entries foldl].
  destruct (load_entry_spec docs e Hst) as (S1 & _). apply (IH _ S1).
  unfold load_entry. destruct (doc_find _ _); cbn [alter_slot]; [apply in_sync_plain; try done|];
    by apply load_file_in_sync.
Qed.

Lemma reload_in_sync s :
  docs_ok (sv_docs s) -> docs_ok (sv_docs (reload_compile_commands s)) /\
  undisturbed (fun _ _ => False) (sv_docs s) (sv_docs (reload_compile_commands s)).
Proof.
  intros [Hst Hs]. unfold reload_compile_commands.
  destruct (g_cc_path s); [|split; [done|apply undisturbed_refl]].
  destruct (compile_commands_load _) as [[] entries]; cbn;
    try (split; [done|apply undisturbed_refl]).
  destruct (load_entries_spec entries (sv_docs s) Hst) as (S1 & K1 & _). split.
  - split; [done|]. by apply load_entries_in_sync.
  - intros i d Hd Hu _. destruct (K1 _ _ Hd Hu) as (p & b & _ & Hx). eexists.
    split; [exact Hx|]. by split_and!.
Qed.

Lemma revalidate_ok s :
  docs_ok (sv_docs s) ->
  let s' := revalidate_all_docs s in
  server_ok s' /\ undisturbed (fun _ _ => False) (sv_docs s) (sv_docs s') /\
  g_ws s' = Some (build_workspace_snapshot (sv_docs s') (g_cc_status s')).
Proof.
  intros Hok s'. pose proof Hok as [Hst Hs].
  destruct (revalidate_spec s Hst) as (S1 & K1 & W1 & _). fold s' in S1, K1, W1.
  split_and!; [split; [done|]|  |done].
  - unfold s', revalidate_all_docs. rewrite republish_spec. unfold notify_workers. cbn.
    unfold maybe_reload_compile_commands. destruct (g_cc_path s); [|done].
    destruct (stat _); case_match; try done. by apply reload_in_sync.
  - intros i d Hd Hu _. destruct (K1 _ _ Hd Hu) as (p & b & _ & Hx). eexists.
    split; [exact Hx|]. by split_and!.
Qed.

Lemma undisturbed_trans P a b c :
  undisturbed P a b -> undisturbed (fun _ _ => False) b c -> undisturbed P a c.
Proof.
  intros Hab Hbc i d Hd Hu Hn. destruct (Hab _ _ Hd Hu Hn) as (d1 & Hd1 & E1).
  destruct (Hbc i d1 Hd1) as (d2 & Hd2 & E2); [by destruct E1 as [-> _]|naive_solver|].
  exists d2. split; [done|]. unfold same_content in *. destruct_and!. split_and!; congruence.
Qed.

Lemma undisturbed_weaken (P Q : nat -> Document -> Prop) a b :
  (forall i d, a !! i = Some d -> d_in_use d = true -> P i d -> Q i d) ->
  undisturbed P a b -> undisturbed Q a b.
Proof. intros HPQ Hab i d Hd Hu Hn. apply (Hab i d); [done..|]. intros Hp. by eapply Hn, HPQ. Qed.

(** The outcome of a handler: nothing happened to the documents, or they are
    consistent, only [except] was disturbed, and the published snapshot shows
    the new table. *)
Definition outcome (except : nat -> Document -> Prop) (s s' : server) : Prop :=
  server_ok s' /\ undisturbed except (sv_docs s) (sv_docs s') /\
  ((sv_docs s' = sv_docs s /\ g_ws s' = g_ws s) \/
   g_ws s' = Some (build_workspace_snapshot (sv_docs s') (g_cc_status s'))).

Lemma outcome_refl P s : server_ok s -> outcome P s s.
Proof. intros Hok. split_and!; [done|apply undisturbed_refl|by left]. Qed.

Lemma outcome_revalidate P s s1 :
  docs_ok (sv_docs s1) -> undisturbed P (sv_docs s) (sv_docs s1) ->
  outcome P s (revalidate_all_docs s1).
Proof.
  intros Hok Hu. destruct (revalidate_ok s1 Hok) as (O1 & U1 & W1).
  split_and!; [done|by eapply undisturbed_trans|by right].
Qed.

(** Each operation that rewrites one slot. *)
Definition background (i : nat) (d : Document) : Prop := d_disk_only d = true.
Definition named (uri : string) (i : nat) (d : Document) : Prop :=
  d_uri d = Some uri \/ d_uri d = Some (normalize_uri realpath uri).

Lemma doc_find_named docs uri i :
  doc_find docs uri = Some i ->
  exists d, docs !! i = Some d /\ d_in_use d = true /\ named uri i d.
Proof.
  intros [(d & Hd & Hu & Hn)|(d & Hd & Hu & Hn)]%doc_find_Some; exists d; split_and!; unfold named; auto.
Qed.

Lemma slot_is_named docs uri i :
  doc_find docs uri = Some i ->
  forall j d, docs !! j = Some d -> d_in_use d = true -> j = i -> named uri j d.
Proof.
  intros Hf j d Hd _ ->. destruct (doc_find_named docs uri i Hf) as (d' & Hd' & _ & Hn).
  rewrite Hd in Hd'. by injection Hd' as <-.
Qed.

(** A fresh slot disturbs nobody. *)
Lemma undisturbed_claim docs i d1 docs' :
  docs !! i = Some blank ->
  undisturbed (fun j _ => j = i) (<[i := d1]> docs) docs' ->
  undisturbed (fun _ _ => False) docs docs'.
Proof.
  intros Hb Hu j d Hd Huse _. assert (Hne : j ≠ i).
  { intros ->. rewrite Hb in Hd. by injection Hd as <-. }
  apply (Hu j d); [|done..]. by rewrite list_lookup_insert_ne.
Qed.

Lemma docs_ok_slot docs i d : docs_ok docs -> docs !! i = Some d -> slot_ok d.
Proof. intros [(_ & Hok & _) _] Hd. rewrite Forall_lookup in Hok. by eapply Hok. Qed.

Lemma slot_ok_retext d b t : d_in_use d = true -> slot_ok d -> slot_ok (set_text t (set_disk_only b d)).
Proof. intros Hu Hok. by apply (slot_ok_plain (fun d => set_text t (set_disk_only b d))). Qed.

(** Reloading a found document from disk. *)
Lemma install_disk_spec docs i d uri path text :
  docs_ok docs -> docs !! i = Some d -> d_in_use d = true -> uri_to_path uri = Some path ->
  docs_ok (install_disk_text docs i text path) /\
  undisturbed (fun j _ => j = i) docs (install_disk_text docs i text path).
Proof.
  intros Hok Hd Hu Hp. rewrite (install_as_reparse _ _ _ uri) by done.
  assert (Hf : slot_ok (set_disk_only true (set_text (Some text) d))).
  { apply (slot_ok_plain (fun d => set_disk_only true (set_text (Some text) d))); try done.
    by eapply docs_ok_slot. }
  destruct (reparse_spec docs i d (fun d => set_disk_only true (set_text (Some text) d)) uri text
    Hok Hd Hu (fun d => conj eq_refl eq_refl) Hf eq_refl) as (O1 & U1 & _). done.
Qed.

Lemma admit_text_spec docs uri docs' :
  docs_ok docs -> admit_text docs uri = Some docs' ->
  docs_ok docs' /\ undisturbed (named uri) docs docs' /\
  (doc_find docs uri = None -> undisturbed (fun _ _ => False) docs docs') /\
  (forall i, doc_find docs uri = Some i -> undisturbed (fun j _ => j = i) docs docs').
Proof.
  intros Hok. unfold admit_text. destruct (uri_to_path uri) as [path|] eqn:Ep; [|done].
  cbn [mbind option_bind]. destruct (read_file path) as [text|]; [|done]. cbn [mbind option_bind].
  destruct (doc_find docs uri) as [i|] eqn:Ef.
  - intros [= <-]. destruct (doc_find_named docs uri i Ef) as (d & Hd & Hu & Hn).
    destruct (install_disk_spec docs i d uri path text Hok Hd Hu Ep) as [O1 U1].
    split_and!; [done| |done|by intros j [= <-]].
    eapply undisturbed_weaken; [|exact U1]. by apply slot_is_named.
  - destruct (doc_alloc docs uri) as [[i docs1]|] eqn:Ea; [|done]. intros [= <-].
    destruct (docs_ok_alloc docs uri i docs1 Hok Ef Ea) as (O1 & Hb & E1).
    assert (Hi : (i < length docs)%nat) by by apply lookup_lt_Some in Hb.
    destruct (install_disk_spec docs1 i (claim (normalize_uri realpath uri) blank) uri path text O1)
      as [O2 U2]; [rewrite E1; by apply list_lookup_insert_eq|done|done|].
    assert (Hnone : undisturbed (fun _ _ => False) docs (install_disk_text docs1 i text path)).
    { eapply undisturbed_claim; [exact Hb|]. rewrite <- E1. exact U2. }
    split_and!; [done| |done|done]. eapply undisturbed_weaken; [|exact Hnone]. done.
Qed.

Lemma handle_didopen_outcome params s : server_ok s -> outcome background s (handle_didopen params s).
Proof.
  intros Hok. unfold handle_didopen.
  destruct (params ≫= _) as [tdi|]; [|by apply outcome_refl].
  destruct (json_str (Some tdi) "uri") as [uri|]; [|by apply outcome_refl].
  destruct (json_str (Some tdi) "text") as [text|]; [|by apply outcome_refl].
  destruct (doc_find (sv_docs s) uri) as [i|] eqn:Ef.
  - destruct (sv_docs s !! i) as [d|] eqn:Hd; [|by apply outcome_refl].
    destruct (doc_find_named _ _ _ Ef) as (d' & Hd' & Hu & _). rewrite Hd in Hd'. injection Hd' as <-.
    destruct (d_disk_only d) eqn:Edo; cbn [negb]; [|by apply outcome_refl].
    assert (Hbg : forall docs', undisturbed (fun j _ => j = i) (sv_docs s) docs' ->
              undisturbed background (sv_docs s) docs').
    { intros docs'. apply undisturbed_weaken. intros j dj Hj _ ->. rewrite Hd in Hj.
      by injection Hj as <-. }
    case_bool_decide.
    + apply outcome_revalidate; cbn.
      * destruct Hok as [Hst Hs]. split; [|by apply in_sync_plain].
        apply store_ok_alter; [done| |done]. intros d0 Hd0. rewrite Hd in Hd0. injection Hd0 as <-.
        by apply (slot_ok_plain (set_disk_only false)).
      * apply Hbg. intros j dj Hj Hjo Hne. exists dj. rewrite list_lookup_alter_ne, Hj by done.
        split; [done|apply same_content_refl].
    + set (f := fun d => set_text (Some text) (set_disk_only false
                         (doc_clear_parse_state (set_text None d)))).
      assert (Hf : slot_ok (f d)).
      { apply slot_ok_retext; [done|]. apply slot_ok_clear, (slot_ok_plain (set_text None)); try done.
        by eapply docs_ok_slot. }
      destruct (reparse_spec (sv_docs s) i d f uri text Hok Hd Hu (fun d => conj eq_refl eq_refl) Hf eq_refl)
        as (O1 & U1 & _).
      apply outcome_revalidate; cbn; unfold open_slot; rewrite list_alter_alter_eq; [exact O1|by apply Hbg].
  - destruct (doc_alloc (sv_docs s) uri) as [[i docs1]|] eqn:Ea; [|by apply outcome_refl].
    destruct (docs_ok_alloc _ _ _ _ Hok Ef Ea) as (O1 & Hb & E1).
    assert (Hi : (i < length (sv_docs s))%nat) by by apply lookup_lt_Some in Hb.
    set (d1 := claim (normalize_uri realpath uri) blank) in *.
    assert (Hd1 : docs1 !! i = Some d1) by (rewrite E1; by apply list_lookup_insert_eq).
    assert (Hf : slot_ok (set_text (Some text) (set_disk_only false d1)))
      by (apply slot_ok_retext; [done|apply slot_ok_claim]).
    destruct (reparse_spec docs1 i d1 (fun d => set_text (Some text) (set_disk_only false d)) uri text
      O1 Hd1 eq_refl (fun d => conj eq_refl eq_refl) Hf eq_refl) as (O2 & U2 & _).
    apply outcome_revalidate; cbn; [exact O2|].
    eapply undisturbed_weaken; [|eapply undisturbed_claim; [exact Hb|]; rewrite <- E1; exact U2]. done.
Qed.

Definition did_uri (params : option yyjson_val) : option string :=
  (params ≫= (fun p => yyjson_obj_get p "textDocument")) ≫= (fun t => json_str (Some t) "uri").

Definition named_by (uri : option string) (i : nat) (d : Document) : Prop :=
  exists u, uri = Some u /\ named u i d.

Lemma handle_didchange_outcome params s :
  server_ok s -> outcome (named_by (did_uri params)) s (handle_didchange params s).
Proof.
  intros Hok. unfold handle_didchange. destruct params as [p|]; [|by apply outcome_refl].
  destruct (yyjson_obj_get p "textDocument") as [tdi|] eqn:Et; [|by apply outcome_refl].
  destruct (_ ≫= get_arr) as [changes|]; [|by apply outcome_refl].
  destruct (json_str (Some tdi) "uri") as [uri|] eqn:Eu; [|by apply outcome_refl].
  destruct changes as [|ch chs]; [by apply outcome_refl|].
  destruct (doc_find (sv_docs s) uri) as [i|] eqn:Ef; [|by apply outcome_refl].
  destruct (apply_content_changes _ _) as [cur|]; [|by apply outcome_refl].
  destruct (doc_find_named _ _ _ Ef) as (d & Hd & Hu & _).
  assert (Hf : slot_ok (set_text (Some cur) d)).
  { apply (slot_ok_plain (set_text (Some cur))); try done. by eapply docs_ok_slot. }
  destruct (reparse_spec (sv_docs s) i d (set_text (Some cur)) uri cur Hok Hd Hu
    (keeps_set_text _) Hf eq_refl) as (O1 & U1 & _).
  apply outcome_revalidate; [exact O1|]. eapply undisturbed_weaken; [|exact U1].
  intros j dj Hj Huj ->. exists uri. split; [by cbn; rewrite Et|]. by eapply slot_is_named.
Qed.

Lemma undisturbed_free docs i :
  undisturbed (fun j _ => j = i) docs (alter doc_free i docs).
Proof.
  intros j d Hd _ Hne. exists d. rewrite list_lookup_alter_ne, Hd by congruence.
  split; [done|apply same_content_refl].
Qed.

Lemma handle_didclose_outcome params s :
  server_ok s -> outcome (named_by (did_uri params)) s (handle_didclose params s).
Proof.
  intros Hok. unfold handle_didclose, did_uri.
  destruct (params ≫= _) as [tdi|]; [|by apply outcome_refl].
  destruct (json_str (Some tdi) "uri") as [uri|] eqn:Eu; [|by apply outcome_refl].
  destruct (doc_find (sv_docs s) uri) as [i|] eqn:Ef; [|by apply outcome_refl].
  destruct (doc_find_named _ _ _ Ef) as (d & Hd & Hu & _).
  assert (Hnm : forall docs', undisturbed (fun j _ => j = i) (sv_docs s) docs' ->
    undisturbed (named_by (Some tdi ≫= (fun t => json_str (Some t) "uri"))) (sv_docs s) docs').
  { intros docs'. apply undisturbed_weaken. intros j dj Hj Huj Hji. exists uri.
    split; [exact Eu|]. by eapply slot_is_named. }
  destruct (uri_to_path uri) as [path|] eqn:Ep; [destruct (read_file path) as [text|]|].
  - destruct (install_disk_spec (sv_docs s) i d uri path text Hok Hd Hu Ep) as [O1 U1].
    by apply outcome_revalidate; [|apply Hnm].
  - by apply outcome_revalidate; [apply docs_ok_free|apply Hnm, undisturbed_free].
  - by apply outcome_revalidate; [apply docs_ok_free|apply Hnm, undisturbed_free].
Qed.

(** Disturbances that only depend on a document's content add up. *)
Lemma undisturbed_trans_stable P a b c :
  (forall i d d', same_content d d' -> P i d' -> P i d) ->
  undisturbed P a b -> undisturbed P b c -> undisturbed P a c.
Proof.
  intros HP Hab Hbc i d Hd Hu Hn. destruct (Hab _ _ Hd Hu Hn) as (d1 & Hd1 & E1).
  destruct (Hbc i d1 Hd1) as (d2 & Hd2 & E2).
  { by destruct E1 as [-> _]. } { intros Hp. by eapply Hn, HP. }
  exists d2. split; [done|]. unfold same_content in *. destruct_and!. split_and!; congruence.
Qed.

Lemma background_stable i d d' : same_content d d' -> background i d' -> background i d.
Proof. unfold same_content, background. intros (_ & _ & _ & _ & _ & ->). done. Qed.

Lemma named_stable uri i d d' : same_content d d' -> named uri i d' -> named uri i d.
Proof. unfold same_content, named. intros (_ & -> & _). done. Qed.

Lemma watched_step docs changed ev docs' changed' :
  docs_ok docs -> watched_event (docs, changed) ev = (docs', changed') ->
  docs_ok docs' /\ undisturbed background docs docs' /\
  ((docs', changed') = (docs, changed) \/ changed' = true).
Proof.
  intros Hok. unfold watched_event.
  assert (Hsame : (docs, changed) = (docs', changed') ->
    docs_ok docs' /\ undisturbed background docs docs' /\
    ((docs', changed') = (docs, changed) \/ changed' = true)).
  { intros [= <- <-]. split_and!; [done|apply undisturbed_refl|by left]. }
  destruct (json_str (Some ev) "uri") as [uri|]; [|exact Hsame].
  destruct (yyjson_obj_get ev "type" ≫= get_num) as [ty|]; [|exact Hsame].
  assert (Hbg : forall i d, docs !! i = Some d -> d_disk_only d = true ->
    forall j dj, docs !! j = Some dj -> d_in_use dj = true -> j = i -> background j dj).
  { intros i d Hd Hb j dj Hj _ ->. rewrite Hd in Hj. by injection Hj as <-. }
  case_bool_decide.
  - unfold forget_watched_file. destruct (doc_find docs uri) as [i|]; [|exact Hsame].
    destruct (docs !! i) as [d|] eqn:Hd; [|exact Hsame].
    destruct (d_disk_only d) eqn:Hb; [|exact Hsame]. intros [= <- <-].
    split_and!; [by apply docs_ok_free| |by right].
    eapply undisturbed_weaken; [|apply undisturbed_free]. by eapply Hbg.
  - unfold admit_watched_file. destruct (doc_find docs uri) as [i|] eqn:Ef; cbn [mbind option_bind].
    + destruct (doc_find_named docs uri i Ef) as (d & Hd & Hu & _). rewrite Hd.
      destruct (d_disk_only d) eqn:Hb; cbn [negb]; [|exact Hsame].
      destruct (admit_text docs uri) as [docs1|] eqn:Ea; [|exact Hsame]. intros [= <- <-].
      destruct (admit_text_spec docs uri docs1 Hok Ea) as (O1 & _ & _ & U1).
      split_and!; [done| |by right]. eapply undisturbed_weaken; [|by apply U1]. by eapply Hbg.
    + destruct (admit_text docs uri) as [docs1|] eqn:Ea; [|exact Hsame]. intros [= <- <-].
      destruct (admit_text_spec docs uri docs1 Hok Ea) as (O1 & _ & U1 & _).
      split_and!; [done| |by right]. eapply undisturbed_weaken; [|by apply U1]. done.
Qed.

Lemma handle_watched_outcome params s :
  server_ok s -> outcome background s (handle_did_change_watched_files params s).
Proof.
  intros Hok. unfold handle_did_change_watched_files.
  destruct (_ ≫= get_arr) as [events|]; [|by apply outcome_refl].
  assert (Hg : forall evs docs changed, docs_ok docs -> undisturbed background (sv_docs s) docs ->
    (changed = false -> docs = sv_docs s) ->
    let st := foldl watched_event (docs, changed) evs in
    docs_ok st.1 /\ undisturbed background (sv_docs s) st.1 /\ (st.2 = false -> st.1 = sv_docs s)).
  { induction evs as [|ev evs IH]; intros docs changed Hd Hu Hc; [done|]. cbn [foldl].
    destruct (watched_event (docs, changed) ev) as [docs1 ch1] eqn:E.
    destruct (watched_step _ _ _ _ _ Hd E) as (O1 & U1 & [[= -> ->]| ->]); apply IH; try done.
    eapply undisturbed_trans_stable; [apply background_stable|exact Hu|exact U1]. }
  specialize (Hg events (sv_docs s) false Hok (undisturbed_refl _ _) (fun _ => eq_refl)).
  destruct (foldl watched_event _ events) as [docs changed]. cbn in Hg. destruct Hg as (O1 & U1 & C1).
  destruct changed; [by apply outcome_revalidate|].
  split_and!; [exact O1|exact U1|]. left. by rewrite C1.
Qed.

(** The documents a rename notification names. *)
Definition renamed (params : option yyjson_val) (i : nat) (d : Document) : Prop :=
  exists files item key uri,
    (params ≫= (fun p => yyjson_obj_get p "files")) ≫= get_arr = Some files /\ item ∈ files /\
    (key = "oldUri" \/ key = "newUri")%string /\ json_str (Some item) key = Some uri /\ named uri i d.

Lemma renamed_stable params i d d' : same_content d d' -> renamed params i d' -> renamed params i d.
Proof.
  intros Hs (files & item & key & uri & ? & ? & ? & ? & ?). exists files, item, key, uri.
  split_and!; [done..|by eapply named_stable].
Qed.

Lemma rename_step P s changed item s' changed' :
  (forall i d d', same_content d d' -> P i d' -> P i d) ->
  (forall key uri i d, (key = "oldUri" \/ key = "newUri")%string ->
     json_str (Some item) key = Some uri -> named uri i d -> P i d) ->
  server_ok s -> rename_event (s, changed) item = (s', changed') ->
  server_ok s' /\ undisturbed P (sv_docs s) (sv_docs s') /\
  ((s', changed') = (s, changed) \/ changed' = true).
Proof.
  intros HP Hnm Hok. unfold rename_event.
  assert (Hsame : (s, changed) = (s', changed') ->
    server_ok s' /\ undisturbed P (sv_docs s) (sv_docs s') /\
    ((s', changed') = (s, changed) \/ changed' = true)).
  { intros [= <- <-]. split_and!; [done|apply undisturbed_refl|by left]. }
  destruct (json_str (Some item) "oldUri") as [old|] eqn:Eo; [|exact Hsame].
  destruct (json_str (Some item) "newUri") as [new|] eqn:En; [|exact Hsame].
  match goal with |- (let '(_, _) := ?e in _) = _ -> _ =>
    assert (Hold : server_ok e.1 /\ undisturbed P (sv_docs s) (sv_docs e.1) /\
              (e = (s, changed) \/ e.2 = true)); [|destruct e as [s1 changed1]] end.
  - destruct (doc_find (sv_docs s) old) as [i|] eqn:Ef; [|split_and!; [done|apply undisturbed_refl|by left]].
    destruct (sv_docs s !! i) as [d|] eqn:Hd; [|split_and!; [done|apply undisturbed_refl|by left]].
    replace (sv_docs (if d_disk_only d then s else send (Publish_empty old) s)) with (sv_docs s)
      by (by destruct (d_disk_only d)).
    split_and!; [by apply docs_ok_free| |by right]. cbn.
    eapply undisturbed_weaken; [|apply undisturbed_free]. intros j dj Hj Hu Hji.
    eapply Hnm; [by left|exact Eo|]. by eapply slot_is_named.
  - cbn in Hold. destruct Hold as (O1 & U1 & C1).
    destruct (admit_text (sv_docs s1) new) as [docs'|] eqn:Ea.
    + intros [= <- <-]. destruct (admit_text_spec _ _ _ O1 Ea) as (O2 & U2 & _).
      split_and!; [exact O2| |by right].
      eapply undisturbed_trans_stable; [exact HP|exact U1|]. cbn.
      eapply undisturbed_weaken; [|exact U2]. intros i d _ _. eapply Hnm; [by right|exact En].
    + intros [= <- <-]. split_and!; [done..|]. destruct C1 as [[= -> ->]| ->]; auto.
Qed.

Lemma handle_rename_outcome params s :
  server_ok s -> outcome (renamed params) s (handle_did_rename_files params s).
Proof.
  intros Hok. unfold handle_did_rename_files.
  destruct (_ ≫= get_arr) as [files|] eqn:Efs; [|by apply outcome_refl].
  assert (Hg : forall items s1 changed, (forall it, it ∈ items -> it ∈ files) -> server_ok s1 ->
    undisturbed (renamed params) (sv_docs s) (sv_docs s1) -> (changed = false -> s1 = s) ->
    let st := foldl rename_event (s1, changed) items in
    server_ok st.1 /\ undisturbed (renamed params) (sv_docs s) (sv_docs st.1) /\
    (st.2 = false -> st.1 = s)).
  { induction items as [|it items IH]; intros s1 changed Hin Hd Hu Hc; [done|]. cbn [foldl].
    destruct (rename_event (s1, changed) it) as [s2 ch2] eqn:E.
    destruct (rename_step (renamed params) s1 changed it s2 ch2) as (O1 & U1 & C1); try done.
    - apply renamed_stable.
    - intros key uri i d Hk Hs Hn. exists files, it, key, uri. split_and!; try done.
      apply Hin. set_solver.
    - assert (Hin' : forall x, x ∈ items -> x ∈ files) by (intros x Hx; apply Hin; set_solver).
      apply IH; [done..| |].
      + eapply undisturbed_trans_stable; [apply renamed_stable|exact Hu|exact U1].
      + destruct C1 as [[= -> ->]| ->]; done. }
  specialize (Hg files s false (fun _ H => H) Hok (undisturbed_refl _ _) (fun _ => eq_refl)).
  destruct (foldl rename_event _ files) as [s1 changed]. cbn in Hg. destruct Hg as (O1 & U1 & C1).
  destruct changed; [by apply outcome_revalidate|]. rewrite C1 by done. by apply outcome_refl.
Qed.

Lemma handle_initialized_outcome s :
  server_ok s -> (g_cc_path s = None <-> g_workspace_root s = None) ->
  outcome (fun _ _ => False) s (handle_initialized s).
Proof.
  intros Hok Hroot. unfold handle_initialized. set (s0 := send Register_watchers s).
  destruct (reload_in_sync s0 Hok) as [O1 U1].
  assert (Hr : g_workspace_root (reload_compile_commands s0) = g_workspace_root s /\
    (g_cc_path s = None -> sv_docs (reload_compile_commands s0) = sv_docs s /\
       g_ws (reload_compile_commands s0) = g_ws s)).
  { unfold reload_compile_commands. cbn. destruct (g_cc_path s); [|done].
    destruct (compile_commands_load _) as [[] ?]; done. }
  destruct Hr as [Er Hn]. rewrite Er. destruct (g_workspace_root s) eqn:Ew.
  - by apply outcome_revalidate.
  - split_and!; [exact O1|exact U1|]. left. apply Hn. by apply Hroot.
Qed.

(** ** The workspace root *)

(** [g_cc_path] is derived from [g_workspace_root]. *)
Definition roots_ok (s : server) : Prop :=
  g_cc_path s = (fun r => path_join r "compile_commands.json") <$> g_workspace_root s.

Definition same_roots (s s' : server) : Prop :=
  g_cc_path s' = g_cc_path s /\ g_workspace_root s' = g_workspace_root s.

Lemma revalidate_roots s : same_roots s (revalidate_all_docs s).
Proof.
  unfold revalidate_all_docs, notify_workers. rewrite republish_spec. cbn.
  unfold maybe_reload_compile_commands, reload_compile_commands, same_roots.
  destruct (g_cc_path s) as [p|] eqn:Ep; [|done].
  destruct (stat p); case_match; try done; destruct (compile_commands_load _) as [[] ?]; done.
Qed.

Lemma same_roots_trans a b c : same_roots a b -> same_roots b c -> same_roots a c.
Proof. unfold same_roots. intros [-> ->] [-> ->]. done. Qed.

Lemma rename_roots item s changed : same_roots s (rename_event (s, changed) item).1.
Proof.
  unfold rename_event. destruct (json_str (Some item) "oldUri"), (json_str (Some item) "newUri"); try done.
  destruct (doc_find (sv_docs s) s0) as [i|]; [destruct (sv_docs s !! i) as [d|]; [destruct (d_disk_only d)|]|];
    cbn; by case_match.
Qed.

Lemma renames_roots items : forall st s, same_roots s st.1 -> same_roots s (foldl rename_event st items).1.
Proof.
  induction items as [|it items IH]; intros [s1 ch] s Hs; [done|]. cbn [foldl]. apply IH.
  eapply same_roots_trans; [exact Hs|apply rename_roots].
Qed.

Lemma notify_roots n params s : same_roots s (notify n params s).
Proof.
  assert (Hr : forall docs s1, same_roots s s1 -> same_roots s (revalidate_all_docs (with_docs docs s1))).
  { intros docs s1 Hs. eapply same_roots_trans; [exact Hs|]. apply (revalidate_roots (with_docs docs s1)). }
  destruct n; cbn [notify].
  - unfold handle_initialized. assert (Hs : same_roots s (reload_compile_commands (send Register_watchers s))).
    { unfold reload_compile_commands. cbn. destruct (g_cc_path s) as [p|] eqn:Ep; unfold same_roots;
        [destruct (compile_commands_load _) as [[] ?]|]; done. }
    destruct (g_workspace_root (reload_compile_commands _)); [|done].
    eapply same_roots_trans; [exact Hs|apply revalidate_roots].
  - unfold handle_didopen. repeat (case_match; try done; try (by apply Hr)).
  - unfold handle_didchange. repeat (case_match; try done; try (by apply Hr)).
  - unfold handle_didclose. repeat (case_match; try done; try (by apply Hr)).
  - unfold handle_did_change_watched_files. repeat (case_match; try done; try (by apply Hr)).
  - unfold handle_did_rename_files. destruct (_ ≫= get_arr) as [files|]; [|done].
    pose proof (renames_roots files (s, false) s (conj eq_refl eq_refl)) as Hf.
    destruct (foldl rename_event (s, false) files) as [s1 ch]. destruct ch; [|exact Hf].
    eapply same_roots_trans; [exact Hf|apply revalidate_roots].
Qed.

(** What a notification is about. *)
Definition touches (n : notification) (params : option yyjson_val) : nat -> Document -> Prop :=
  match n with
  | Initialized => fun _ _ => False
  | DidOpen | DidChangeWatchedFiles => background
  | DidChange | DidClose => named_by (did_uri params)
  | DidRenameFiles => renamed params
  end.

Lemma notify_outcome n params s :
  server_ok s -> roots_ok s -> outcome (touches n params) s (notify n params s).
Proof.
  intros Hok Hr. destruct n; cbn [notify touches].
  - apply handle_initialized_outcome; [done|]. rewrite Hr. by destruct (g_workspace_root s).
  - by apply handle_didopen_outcome.
  - by apply handle_didchange_outcome.
  - by apply handle_didclose_outcome.
  - by apply handle_watched_outcome.
  - by apply handle_rename_outcome.
Qed.

End Handlers.

(** ** The coordinator over time *)

(** One message, under whatever the file system and the parser are by then. *)
Inductive server_step `{Yyjson} `{Lawful} (s : server) : server -> Prop :=
  | step_initialize (params : option yyjson_val) : server_step s (handle_initialize params s)
  | step_notify (E : Env) (C : CcEnv) n params : lawful E -> server_step s (@notify E _ C n params s).

(** The published snapshot was assembled from the current table. *)
Definition published (s : server) : Prop :=
  (g_ws s = None /\ sv_docs s = docstore_init) \/
  exists (E : Env) status, g_ws s = Some (@build_workspace_snapshot E (sv_docs s) status).

(** ** Properties *)

Lemma server_state_ok `{Yyjson} `{Lawful} s :
  rtc server_step server_init s -> server_ok s /\ roots_ok s /\ published s.
Proof.
  intros Hr. remember server_init as s0 eqn:E0.
  assert (Hinit : server_ok s0 /\ roots_ok s0 /\ published s0).
  { subst s0. split_and!; [split; [apply store_ok_init|]|done|by left].
    apply Forall_replicate. by intros sn. }
  clear E0. induction Hr as [|a b c Hab _ IH]; [done|]. apply IH.
  destruct Hinit as (Hok & Hroots & Hpub). destruct Hab as [params|E C n params HE].
  - unfold handle_initialize. destruct (_ ≫= get_str) as [u|]; [|done].
    split_and!; [done| |exact Hpub]. unfold roots_ok in *. cbn. rewrite Hroots.
    by destruct (g_workspace_root a).
  - assert (LawfulEnv E) by exact HE.
    destruct (notify_outcome n params a Hok Hroots) as (O1 & _ & W1).
    destruct (notify_roots n params a) as [R1 R2]. split_and!; [done| |].
    + unfold roots_ok. by rewrite R1, R2.
    + destruct W1 as [[Ed Ew]|Ew].
      * unfold published. by rewrite Ed, Ew.
      * right. by eexists _, _.
Qed.

(** C6: In every state the coordinator can reach, whatever notifications arrive
    in whatever order and however the file system changes in between: the
    document table satisfies its invariant (unique URIs, clean free slots,
    distinct parse stamps), every snapshot is a parse of the text its document
    holds, and the published snapshot shows exactly the current table. *)
Theorem reachable_server_ok `{Yyjson} `{Lawful} s :
  rtc server_step server_init s -> server_ok s /\ roots_ok s /\ published s.
Proof. apply server_state_ok. Qed.

(** Notifications respect each other's documents: in a consistent state,
    opening and watched-file events never change the text, the parses or the
    owner of a document the editor manages; changing and closing only touch the
    document they name, renaming only the documents it names, and the startup
    load none; and whenever the table changed the new snapshot is published. *)
Theorem notifications_isolated `{Env} `{CcEnv} n params s :
  server_ok s -> roots_ok s ->
  let s' := notify n params s in
  (forall i d, sv_docs s !! i = Some d -> d_in_use d = true -> ~ touches n params i d ->
     exists d', sv_docs s' !! i = Some d' /\ same_content d d') /\
  ((sv_docs s' = sv_docs s /\ g_ws s' = g_ws s) \/
   g_ws s' = Some (build_workspace_snapshot (sv_docs s') (g_cc_status s'))).
Proof. intros Hok Hr s'. by destruct (notify_outcome n params s Hok Hr) as (_ & ? & ?). Qed.

(** After the final revalidation the content is still there. *)
Lemma revalidated_content `{Env} `{CcEnv} s i d :
  docs_ok (sv_docs s) -> sv_docs s !! i = Some d -> d_in_use d = true ->
  exists d', sv_docs (revalidate_all_docs s) !! i = Some d' /\ same_content d d'.
Proof. intros Hok Hd Hu. destruct (revalidate_ok s Hok) as (_ & U & _). apply (U i d); [done..|by intros []]. Qed.

(** Opening hands the document to the editor: the open is refused only when
    the editor already owns the document or the table is full; otherwise the
    document named by the URI now holds exactly the opened text, belongs to the
    editor, and its snapshot is of that text. *)
Theorem didopen_takes_over `{Env} `{CcEnv} s p tdi uri text :
  server_ok s ->
  yyjson_obj_get p "textDocument" = Some tdi ->
  json_str (Some tdi) "uri" = Some uri -> json_str (Some tdi) "text" = Some text ->
  let s' := handle_didopen (Some p) s in
  (s' = s /\ exists i d, doc_find (sv_docs s) uri = Some i /\ sv_docs s !! i = Some d /\
                         d_disk_only d = false) \/
  (s' = s /\ doc_find (sv_docs s) uri = None /\ forall d, d ∈ sv_docs s -> d_in_use d = true) \/
  exists i d', sv_docs s' !! i = Some d' /\ d_in_use d' = true /\ named uri i d' /\
    d_text d' = Some text /\ d_disk_only d' = false /\
    forall sn, d_snap d' = Some sn -> snap_text sn = text.
Proof.
  intros Hok Htd Huri Htext s'. unfold s', handle_didopen. cbn [mbind option_bind].
  rewrite Htd, Huri, Htext.
  destruct (doc_find (sv_docs s) uri) as [i|] eqn:Ef.
  - destruct (doc_find_named _ _ _ Ef) as (d & Hd & Hu & Hn). rewrite Hd.
    destruct (d_disk_only d) eqn:Hdo; cbn [negb]; [|left; eauto 6].
    right. right. case_bool_decide as Hsame.
    + destruct Hok as [Hst Hs]. destruct (revalidated_content
        (with_docs (alter (set_disk_only false) i (sv_docs s)) s) i (set_disk_only false d))
        as (d' & Hd' & E); [| |done|].
      * split; [|by apply in_sync_plain]. apply store_ok_alter; [done| |done].
        intros d0 Hd0. rewrite Hd in Hd0. injection Hd0 as <-. by apply (slot_ok_plain (set_disk_only false)).
      * cbn. by rewrite list_lookup_alter_eq, Hd.
      * exists i, d'. unfold same_content, named in *. cbn in E. destruct_and!.
        split_and!; [exact Hd'|congruence|destruct Hn; [left|right]; congruence|congruence..|].
        intros sn Hsn. rewrite Forall_lookup in Hs. specialize (Hs i d Hd sn).
        rewrite Hsame in Hs. assert (Hx : Some text = Some (snap_text sn)) by (apply Hs; congruence).
        by injection Hx.
    + set (f := fun d => set_text (Some text) (set_disk_only false
                         (doc_clear_parse_state (set_text None d)))).
      assert (Hf : slot_ok (f d)).
      { apply slot_ok_retext; [done|]. apply slot_ok_clear, (slot_ok_plain (set_text None)); try done.
        by eapply docs_ok_slot. }
      destruct (reparse_spec (sv_docs s) i d f uri text Hok Hd Hu (fun d => conj eq_refl eq_refl) Hf eq_refl)
        as (O1 & _ & q & l & Hi).
      unfold open_slot. rewrite list_alter_alter_eq.
      destruct (revalidated_content (with_docs (reparse (alter f i (sv_docs s)) i uri text) s) i _ O1 Hi Hu)
        as (d' & Hd' & E).
      exists i, d'. unfold same_content, named in *. cbn in E. destruct_and!.
      split_and!; [exact Hd'|congruence|destruct Hn; [left|right]; congruence|congruence..|].
      intros sn Hsn. by simplify_eq.
  - pose proof (doc_alloc_spec (sv_docs s) uri (proj1 Hok)) as Hspec.
    destruct (doc_alloc (sv_docs s) uri) as [[i docs1]|] eqn:Ea.
    2: { right. left. split_and!; [done..|]. intros d [j Hj]%list_elem_of_lookup. by eapply Hspec. }
    right. right. destruct (docs_ok_alloc _ _ _ _ Hok Ef Ea) as (O1 & Hb & E1).
    assert (Hi : (i < length (sv_docs s))%nat) by by apply lookup_lt_Some in Hb.
    set (d1 := claim (normalize_uri realpath uri) blank) in *.
    assert (Hd1 : docs1 !! i = Some d1) by (rewrite E1; by apply list_lookup_insert_eq).
    assert (Hf : slot_ok (set_text (Some text) (set_disk_only false d1)))
      by (apply slot_ok_retext; [done|apply slot_ok_claim]).
    destruct (reparse_spec docs1 i d1 (fun d => set_text (Some text) (set_disk_only false d)) uri text
      O1 Hd1 eq_refl (fun d => conj eq_refl eq_refl) Hf eq_refl) as (O2 & _ & q & l & Hi2).
    destruct (revalidated_content (with_docs (open_slot docs1 i uri text) s) i _ O2 Hi2 eq_refl)
      as (d' & Hd' & E).
    exists i, d'. unfold same_content, named in *. cbn in E. destruct_and!.
    split_and!; [exact Hd'|congruence|right; congruence|congruence..|].
    intros sn Hsn. by simplify_eq.
Qed.

(** C18: Editing keeps the server's copy equal to the client's: when a change
    notification carries, in order, the edits the client made to the text the
    server holds, the document holds the edited text afterwards and its snapshot
    is the parse of that text. The client's edits are full replacements and
    splices of its own text, with positions as the protocol counts them (UTF-16
    columns, lines ended by a line feed, a carriage return or both). It covers
    the splices the byte-counting handler can follow: the two positions lie in
    the text, in front of them on their lines stands only ASCII, no carriage
    return stands alone and the text is below 4 GiB. Without these the copies
    part: see [TextSync.columns_part], [TextSync.lines_part] and
    [TextSync.out_of_range_change]. *)
Theorem didchange_tracks_client `{Env} `{CcEnv} s p tdi uri arr changes t t' i :
  server_ok s ->
  yyjson_obj_get p "textDocument" = Some tdi -> json_str (Some tdi) "uri" = Some uri ->
  yyjson_obj_get p "contentChanges" = Some arr -> get_arr arr = Some changes -> changes ≠ [] ->
  doc_find (sv_docs s) uri = Some i -> sv_docs s !! i ≫= d_text = Some t ->
  client_edits t changes t' ->
  exists d' sn, sv_docs (handle_didchange (Some p) s) !! i = Some d' /\ d_text d' = Some t' /\
    d_snap d' = Some sn /\ snap_text sn = t' /\ snap_root sn = po_root (parse t').
Proof.
  intros Hok Htd Huri Harr Hch Hne Hf Ht He. unfold handle_didchange.
  rewrite Htd, Harr. cbn [mbind option_bind]. rewrite Hch, Huri, Hf.
  destruct changes as [|ch chs]; [done|]. cbn [mbind option_bind] in Ht. rewrite Ht.
  rewrite (content_changes_client t (ch :: chs) t') by done.
  destruct (doc_find_named _ _ _ Hf) as (d & Hd & Hu & _).
  assert (Hfo : slot_ok (set_text (Some t') d)).
  { apply (slot_ok_plain (set_text (Some t'))); try done. by eapply docs_ok_slot. }
  destruct (reparse_spec (sv_docs s) i d (set_text (Some t')) uri t' Hok Hd Hu
    (keeps_set_text _) Hfo eq_refl) as (O1 & _ & q & l & Hi).
  destruct (revalidated_content (with_docs (reparse (alter (set_text (Some t')) i (sv_docs s)) i uri t') s)
    i _ O1 Hi Hu) as (d' & Hd' & E).
  unfold same_content in E. cbn in E. destruct_and!.
  eexists d', _. split_and!; [done|congruence|eassumption|done|done].
Qed.

(** A rename takes a document away from the editor: when the new name is
    already open in the editor (and the old one is not tracked), the handler
    replaces the editor's text by the file's bytes and marks the document as a
    background one, where a watched-file event for the same file leaves it
    alone. *)
Theorem rename_overrides_editor `{Env} `{CcEnv} s p arr item old new path text i d :
  server_ok s ->
  yyjson_obj_get p "files" = Some arr -> get_arr arr = Some [item] ->
  json_str (Some item) "oldUri" = Some old -> json_str (Some item) "newUri" = Some new ->
  doc_find (sv_docs s) old = None -> doc_find (sv_docs s) new = Some i ->
  sv_docs s !! i = Some d -> d_disk_only d = false ->
  uri_to_path new = Some path -> read_file path = Some text ->
  (exists d', sv_docs (handle_did_rename_files (Some p) s) !! i = Some d' /\
     d_text d' = Some text /\ d_disk_only d' = true) /\
  admit_watched_file (sv_docs s) new = None.
Proof.
  intros Hok Hp Harr Ho Hn Hfo Hfn Hd Hdo Hpath Hread. split.
  - unfold handle_did_rename_files. cbn [mbind option_bind]. rewrite Hp. cbn [mbind option_bind].
    rewrite Harr. cbn [foldl rename_event]. unfold rename_event. rewrite Ho, Hn, Hfo.
    unfold admit_text. rewrite Hpath. cbn [mbind option_bind]. rewrite Hread.
    cbn [mbind option_bind]. rewrite Hfn.
    destruct (doc_find_named _ _ _ Hfn) as (d0 & Hd0 & Hu & _). rewrite Hd in Hd0. injection Hd0 as <-.
    rewrite (install_as_reparse _ _ _ new) by done.
    set (f := fun d => set_disk_only true (set_text (Some text) d)).
    assert (Hf : slot_ok (f d)) by (apply (slot_ok_plain f); try done; by eapply docs_ok_slot).
    destruct (reparse_spec (sv_docs s) i d f new text Hok Hd Hu (fun d => conj eq_refl eq_refl) Hf eq_refl)
      as (O1 & _ & q & l & Hi).
    destruct (revalidated_content (with_docs (reparse (alter f i (sv_docs s)) i new text) s) i _ O1 Hi Hu)
      as (d' & Hd' & E).
    exists d'. unfold same_content in E. cbn in E. destruct_and!. done.
  - unfold admit_watched_file. rewrite Hfn. cbn [mbind option_bind]. by rewrite Hd, Hdo.
Qed.

(** ** A session *)

Definition text_document (uri : string) (more : list (string * sample_json)) : sample_json :=
  JObj (("uri"%string, JStr uri) :: more).
Definition open_params (uri text : string) : sample_json :=
  JObj [("textDocument"%string, text_document uri [("text"%string, JStr text)])].
Definition change_params (uri : string) (changes : list sample_json) : sample_json :=
  JObj [("textDocument"%string, text_document uri []); ("contentChanges"%string, JArr changes)].

Abbreviation sample_notify := (@notify cyclic_env sample_yyjson sample_cc).

(** Startup, then the editor opens [b.tji], which was loaded as an include. *)
Definition root_params : sample_json := JObj [("rootUri"%string, JStr "file:///w")].
Definition session_root : server := @handle_initialize sample_yyjson (Some root_params) server_init.
Definition session_loaded : server := sample_notify Initialized None session_root.
Definition session : server :=
  sample_notify DidOpen (Some (open_params "file:///w/b.tji" "ab")) session_loaded.

Lemma session_reachable : rtc (server_step (H := sample_yyjson)) server_init session.
Proof.
  apply rtc_l with session_root.
  { exact (step_initialize (H := sample_yyjson) server_init (Some root_params)). }
  apply rtc_l with session_loaded.
  { exact (step_notify (H := sample_yyjson) session_root cyclic_env sample_cc Initialized None I). }
  apply rtc_l with session; [|apply rtc_refl].
  exact (step_notify (H := sample_yyjson) session_loaded cyclic_env sample_cc DidOpen
           (Some (open_params "file:///w/b.tji" "ab")) I).
Qed.

Lemma session_ok : server_ok session /\ roots_ok session.
Proof.
  assert (O0 : server_ok session_root /\ roots_ok session_root).
  { split; [|reflexivity]. split; [apply store_ok_init|]. apply Forall_replicate. by intros sn. }
  assert (Hstep : forall n p s, server_ok s /\ roots_ok s ->
            server_ok (sample_notify n p s) /\ roots_ok (sample_notify n p s)).
  { intros n p s [Ho Hr]. split; [by apply (notify_outcome (H := cyclic_env) (H1 := sample_cc))|].
    unfold roots_ok. by destruct (notify_roots (H := cyclic_env) (H1 := sample_cc) n p s) as [-> ->]. }
  by apply Hstep, Hstep.
Qed.

Lemma reachable_server_ok_witness :
  (d_text <$> sv_docs session !! 1) = Some (Some "ab"%string) /\
  (d_disk_only <$> sv_docs session !! 1) = Some false /\
  published session.
Proof.
  split_and!; [vm_compute; reflexivity..|].
  apply (reachable_server_ok (H := sample_yyjson) session session_reachable).
Defined.

Lemma notifications_isolated_witness :
  let s' := sample_notify DidChange (Some (change_params "file:///w/a.tjp" [JObj [("text"%string, JStr "A")]])) session in
  exists d', sv_docs s' !! 1 = Some d' /\ d_text d' = Some "ab"%string.
Proof.
  intros s'. destruct (sv_docs session !! 1) as [d|] eqn:Hd; [|by vm_compute in Hd].
  destruct (proj1 (@notifications_isolated cyclic_env sample_yyjson sample_cc DidChange
    (Some (change_params "file:///w/a.tjp" [JObj [("text"%string, JStr "A")]])) session
    (proj1 session_ok) (proj2 session_ok)) 1 d) as (d' & Hd' & E).
  - exact Hd.
  - vm_compute in Hd. by injection Hd as <-.
  - intros (u & Hu & Hn). vm_compute in Hu. injection Hu as <-.
    vm_compute in Hd. injection Hd as <-. vm_compute in Hn. destruct Hn; congruence.
  - exists d'. split; [exact Hd'|]. destruct E as (_ & _ & -> & _).
    vm_compute in Hd. by injection Hd as <-.
Defined.

Lemma didopen_takes_over_witness :
  let s' := @handle_didopen cyclic_env sample_yyjson sample_cc
              (Some (open_params "file:///w/a.tjp" "new")) session in
  (d_text <$> sv_docs s' !! 0) = Some (Some "new"%string) /\
  (d_is_cc_root <$> sv_docs s' !! 0) = Some true /\
  ((s' = session /\ exists i d, @doc_find cyclic_env (sv_docs session) "file:///w/a.tjp" = Some i /\
      sv_docs session !! i = Some d /\ d_disk_only d = false) \/
   (s' = session /\ @doc_find cyclic_env (sv_docs session) "file:///w/a.tjp" = None /\
      forall d, d ∈ sv_docs session -> d_in_use d = true) \/
   exists i d', sv_docs s' !! i = Some d' /\ d_in_use d' = true /\
     @named cyclic_env "file:///w/a.tjp" i d' /\
     d_text d' = Some "new"%string /\ d_disk_only d' = false /\
     forall sn, d_snap d' = Some sn -> snap_text sn = "new"%string).
Proof.
  intros s'. split_and!; [vm_compute; reflexivity..|].
  exact (@didopen_takes_over cyclic_env sample_yyjson sample_cc session
    (open_params "file:///w/a.tjp" "new")
    (text_document "file:///w/a.tjp" [("text"%string, JStr "new")])
    "file:///w/a.tjp" "new" (proj1 session_ok) eq_refl eq_refl eq_refl).
Defined.

Lemma didchange_tracks_client_witness :
  exists d' sn, sv_docs (@handle_didchange cyclic_env sample_yyjson sample_cc
      (Some (change_params "file:///w/b.tji" [json_change 0 1 0 2 "xy"])) session) !! 1 = Some d' /\
    d_text d' = Some "axy"%string /\ d_snap d' = Some sn /\ snap_text sn = "axy"%string /\
    snap_root sn = po_root (@parse cyclic_env "axy").
Proof.
  apply (@didchange_tracks_client cyclic_env sample_yyjson sample_cc session
    (change_params "file:///w/b.tji" [json_change 0 1 0 2 "xy"])
    (text_document "file:///w/b.tji" []) "file:///w/b.tji"
    (JArr [json_change 0 1 0 2 "xy"]) [json_change 0 1 0 2 "xy"] "ab" "axy" 1
    (proj1 session_ok)); try reflexivity; [done|].
  apply (edits_step (H := sample_yyjson) _ _ _ "axy"%string); [vm_compute; reflexivity| |constructor].
  apply (edit_splice (H := sample_yyjson) "ab" _ "a" "b" "" "xy"
    (JObj [("start", json_pos 0 1); ("end", json_pos 0 2)])%string); try by vm_compute.
  - exists EmptyString, "a"%string. split_and!; [done..|by left].
  - exists EmptyString, "ab"%string. split_and!; [done..|by left].
Defined.

Lemma rename_overrides_editor_witness :
  let p := JObj [("files"%string, JArr [JObj [("oldUri"%string, JStr "file:///w/old.tji");
                                             ("newUri"%string, JStr "file:///w/b.tji")]])] in
  exists d', sv_docs (@handle_did_rename_files cyclic_env sample_yyjson sample_cc (Some p) session) !! 1
      = Some d' /\ d_text d' = Some "B"%string /\ d_disk_only d' = true.
Proof.
  intros p. destruct (sv_docs session !! 1) as [d|] eqn:Hd; [|by vm_compute in Hd].
  refine (proj1 (@rename_overrides_editor cyclic_env sample_yyjson sample_cc session p
    (JArr [JObj [("oldUri"%string, JStr "file:///w/old.tji"); ("newUri"%string, JStr "file:///w/b.tji")]])
    (JObj [("oldUri"%string, JStr "file:///w/old.tji"); ("newUri"%string, JStr "file:///w/b.tji")])
    "file:///w/old.tji" "file:///w/b.tji" "/w/b.tji" "B" 1 d
    (proj1 session_ok) eq_refl eq_refl eq_refl eq_refl _ _ Hd _ eq_refl eq_refl)).
  - vm_compute. reflexivity.
  - vm_compute. reflexivity.
  - vm_compute in Hd. by injection Hd as <-.
Defined.
