(* ===== verification/Diagnostics.v ===== *)
(** * [diagnostics.c]: collecting and publishing diagnostics.

    A publication replaces all markers of its URI, so the diagnostics of several
    sources are first merged per URI in a [diag_set]. *)

From S2P Require Import Prelude Tokens Syntax Rpc MutJson Store Assembly Revalidate.

Definition DIAG_ERROR : Z := 1.
Definition DIAG_WARNING : Z := 2.

Record Diagnostic : Set := mkDiagnostic {
  dg_range : LspRange; dg_severity : Z; dg_message : string; dg_source : option string
}.

(** One [diag_file] per URI, in the order of first use. *)
Abbreviation diag_set := (list (string * list Diagnostic)).

Definition diag_set_new : diag_set := [].

(** [diag_set_add]: append to the URI's bucket, created at the end if new. *)
Fixpoint diag_set_add (s : diag_set) (uri : string) (d : Diagnostic) : diag_set :=
  match s with
  | [] => [(uri, [d])]
  | (u, items) :: s' =>
      if bool_decide (u = uri) then (u, items ++ [d]) :: s' else (u, items) :: diag_set_add s' uri d
  end.

Definition diag_set_has (s : option diag_set) (uri : string) : bool :=
  match s with
  | None => false
  | Some s => existsb (fun f => bool_decide (f.1 = uri)) s
  end.

(** ** Notifications *)

(** A [textDocument/publishDiagnostics] notification: a URI and its markers. *)
Definition publication : Set := (string * list Diagnostic)%type.

Definition diagnostic_json (d : Diagnostic) : mut_val :=
  M_obj ([("range", range_json (dg_range d)); ("severity", M_int (dg_severity d))]%string
         ++ obj_add_str "source" (dg_source d) ++ [("message"%string, M_str (dg_message d))]).

Definition publication_json (p : publication) : mut_val :=
  M_obj [("jsonrpc", M_str "2.0"); ("method", M_str "textDocument/publishDiagnostics");
         ("params", M_obj [("uri", M_str p.1); ("diagnostics", M_arr (diagnostic_json <$> p.2))])]%string.

Section Publish.
Context `{Writer}.

(** The notification is sent if the library can write it. *)
Definition publish_diagnostics_list (uri : string) (diags : list Diagnostic) : list publication :=
  match yyjson_mut_write (publication_json (uri, diags)) with
  | Some text => [(uri, diags)]
  | None => []
  end.

Definition publish_diagnostics (uri : string) : list publication := publish_diagnostics_list uri [].

(** [diag_set_publish]: the notifications it sends, in order. *)
Definition diag_set_publish (current previous : option diag_set) : list publication :=
  (default [] current ≫= fun f => publish_diagnostics_list f.1 f.2) ++
  (filter (fun u => diag_set_has current u = false) (fst <$> default [] previous) ≫= publish_diagnostics).
End Publish.

(** ** Missing compile_commands.json *)

Definition ends_with (suffix s : string) : bool :=
  (String.length suffix <=? String.length s)%nat &&
  bool_decide (substring (String.length s - String.length suffix) (String.length suffix) s = suffix).

Definition cc_word (status : Z) : string :=
  if bool_decide (status = CC_STATUS_MALFORMED) then "Malformed" else "Missing".

Definition INT_MAX : Z := 2147483647.

Definition standalone_message (status : Z) : string :=
  (cc_word status +:+ " compile_commands.json, this file will be parsed stand-alone, not as part of any other loaded .tjp file that includes it.")%string.
Definition disabled_message (status : Z) : string :=
  (cc_word status +:+ " compile_commands.json, cross-file LSP features are disabled.")%string.

(** [add_warning]. *)
Definition warning (range : LspRange) (message : string) : Diagnostic :=
  mkDiagnostic range DIAG_WARNING message (Some "taskjuggler-lsp"%string).

Definition add_warning (out : diag_set) (uri : string) (range : LspRange) (message : string)
  : diag_set := diag_set_add out uri (warning range message).

(** The loop over the tokens of a [.tjp]. *)
Fixpoint warn_includes (spans : list TokenSpan) (uri : string) (status : Z) (out : diag_set)
  : diag_set :=
  match spans with
  | [] => out
  | t :: spans' =>
      warn_includes spans' uri status
        (if bool_decide (ts_kind t = KW_INCLUDE)
         then add_warning out uri (mkRange (ts_start t) (ts_end t)) (disabled_message status)
         else out)
  end.

Definition collect_doc_cc_warnings (s : doc_snapshot) (status : Z) (out : diag_set) : diag_set :=
  if ends_with ".tji" (snap_uri s)
  then add_warning out (snap_uri s) (mkRange (mkPos 0 0) (mkPos 0 INT_MAX)) (standalone_message status)
  else warn_includes (snap_tok_spans s) (snap_uri s) status out.

(** [diag_collect_cc_missing] for the project at this index. *)
Definition collect_ws_doc (status : Z) (pindex : nat) (out : diag_set) (w : ws_doc) : diag_set :=
  match wd_snap w with
  | Some s => if negb (bool_decide (wd_project_index w = Z.of_nat pindex)) || wd_disk_only w
              then out else collect_doc_cc_warnings s status out
  | None => out
  end.

Definition diag_collect_cc_missing (ws : workspace_snapshot) (pindex : nat) (out : diag_set)
  : diag_set :=
  if bool_decide (ws_cc_status ws = CC_STATUS_OK) then out
  else foldl (collect_ws_doc (ws_cc_status ws) pindex) out (ws_docs ws).

(** ** Specification *)

(** The diagnostics a set holds for a URI. *)
Fixpoint diag_items (s : diag_set) (uri : string) : list Diagnostic :=
  match s with
  | [] => []
  | (u, items) :: s' => if bool_decide (u = uri) then items else diag_items s' uri
  end.

Definition uris (s : diag_set) : list string := s.*1.

(** The markers a client shows, URI by URI. *)
Definition markers : Set := string -> list Diagnostic.
Definition show (m : markers) (p : publication) : markers :=
  fun u => if bool_decide (u = p.1) then p.2 else m u.

(** The notifications that are due, and those the library can write. *)
Definition due (current previous : option diag_set) : list publication :=
  default [] current ++
  ((fun u => (u, [])) <$> filter (fun u => diag_set_has current u = false) (fst <$> default [] previous)).
Definition writable `{Writer} (p : publication) : bool :=
  if yyjson_mut_write (publication_json p) is Some _ then true else false.

(** The warnings one document gets. *)
Definition doc_warnings (status : Z) (s : doc_snapshot) : list Diagnostic :=
  if ends_with ".tji" (snap_uri s)
  then [warning (mkRange (mkPos 0 0) (mkPos 0 INT_MAX)) (standalone_message status)]
  else (fun t => warning (mkRange (ts_start t) (ts_end t)) (disabled_message status)) <$>
         filter (fun t => ts_kind t = KW_INCLUDE) (snap_tok_spans s).

(** ** Facts *)

Lemma diag_items_add s uri d u :
  diag_items (diag_set_add s uri d) u =
    if bool_decide (u = uri) then diag_items s uri ++ [d] else diag_items s u.
Proof.
  induction s as [|[v items] s IH]; cbn.
  - repeat case_bool_decide; congruence.
  - destruct (bool_decide_reflect (v = uri)) as [->|Hv]; cbn.
    + repeat case_bool_decide; congruence.
    + rewrite IH. repeat case_bool_decide; congruence.
Qed.

Lemma uris_add s uri d :
  uris (diag_set_add s uri d) = if bool_decide (uri ∈ uris s) then uris s else uris s ++ [uri].
Proof.
  induction s as [|[v items] s IH]; cbn.
  - done.
  - destruct (bool_decide_reflect (v = uri)) as [->|Hv]; cbn.
    + rewrite bool_decide_eq_true_2 by set_solver. done.
    + fold (uris (diag_set_add s uri d)). rewrite IH. fold (uris s).
      repeat case_bool_decide; set_solver.
Qed.

Lemma uris_add_nodup s uri d : NoDup (uris s) -> NoDup (uris (diag_set_add s uri d)).
Proof.
  intros Hn. rewrite uris_add. case_bool_decide; [done|]. apply NoDup_app. split_and!; [done| |apply NoDup_singleton].
  intros x Hx ->%list_elem_of_singleton. done.
Qed.

Lemma warn_includes_items spans uri status : forall out u,
  diag_items (warn_includes spans uri status out) u =
    diag_items out u ++ (if bool_decide (u = uri) then
      (fun t => warning (mkRange (ts_start t) (ts_end t)) (disabled_message status)) <$>
        filter (fun t => ts_kind t = KW_INCLUDE) spans else []).
Proof.
  induction spans as [|t spans IH]; intros out u; cbn [warn_includes].
  - rewrite filter_nil. case_bool_decide; by rewrite app_nil_r.
  - rewrite IH, filter_cons. destruct (bool_decide_reflect (ts_kind t = KW_INCLUDE)) as [Hk|Hk].
    + rewrite decide_True by done. unfold add_warning. rewrite diag_items_add.
      case_bool_decide as Hu; [|done]. subst u. cbn. by rewrite <- app_assoc.
    + by rewrite decide_False.
Qed.

Lemma collect_doc_items s status out u :
  diag_items (collect_doc_cc_warnings s status out) u =
    diag_items out u ++ (if bool_decide (u = snap_uri s) then doc_warnings status s else []).
Proof.
  unfold collect_doc_cc_warnings, doc_warnings. destruct (ends_with _ _).
  - unfold add_warning. rewrite diag_items_add. case_bool_decide; [by subst|by rewrite app_nil_r].
  - apply warn_includes_items.
Qed.

Lemma collect_nodup status pindex docs : forall out, NoDup (uris out) ->
  NoDup (uris (foldl (collect_ws_doc status pindex) out docs)).
Proof.
  assert (Hw : forall spans uri out, NoDup (uris out) -> NoDup (uris (warn_includes spans uri status out))).
  { induction spans as [|t spans IH]; intros uri out Hn; [done|]. cbn. apply IH.
    case_bool_decide; [by apply uris_add_nodup|done]. }
  induction docs as [|w docs IH]; intros out Hn; [done|]. cbn. apply IH. unfold collect_ws_doc.
  destruct (wd_snap w) as [s|]; [|done]. destruct (_ || _); [done|].
  unfold collect_doc_cc_warnings. destruct (ends_with _ _); [by apply uris_add_nodup|by apply Hw].
Qed.

(** Showing the notifications among these that can be written. *)
Lemma show_written `{Writer} (ps : list publication) : forall m u, NoDup ps.*1 ->
  foldl show m (filter (fun p => writable p = true) ps) u =
    if bool_decide (u ∈ ps.*1) && writable (u, diag_items ps u) then diag_items ps u else m u.
Proof.
  induction ps as [|[v items] ps IH]; intros m u Hn; [done|]. cbn in Hn.
  apply NoDup_cons in Hn as [Hv Hn]. rewrite filter_cons. cbn [diag_items].
  assert (Hin : u ∈ ((v, items) :: ps).*1 <-> u = v \/ u ∈ ps.*1) by (cbn; by rewrite elem_of_cons).
  destruct (bool_decide_reflect (v = u)) as [->|Hvu].
  - rewrite (bool_decide_eq_true_2 (u ∈ ((u, items) :: ps).*1)) by tauto. cbn [andb].
    case_decide as Hw; cbn [foldl]; rewrite IH by done; rewrite (bool_decide_eq_false_2 (u ∈ ps.*1)) by done; cbn [andb].
    + unfold show. cbn. rewrite (bool_decide_eq_true_2 (u = u)) by done. by rewrite Hw.
    + by rewrite (not_true_is_false _ Hw).
  - replace (bool_decide (u ∈ ((v, items) :: ps).*1)) with (bool_decide (u ∈ ps.*1))
      by (apply bool_decide_ext; rewrite Hin; naive_solver).
    case_decide as Hw; cbn [foldl]; rewrite IH by done; [|done]. unfold show. cbn.
    by rewrite (bool_decide_eq_false_2 (u = v)) by congruence.
Qed.

Lemma diag_items_not_in s u : u ∉ uris s -> diag_items s u = [].
Proof.
  induction s as [|[v items] s IH]; [done|]. cbn. intros Hu.
  rewrite bool_decide_eq_false_2 by set_solver. apply IH. set_solver.
Qed.

Lemma diag_set_has_iff s u : diag_set_has (Some s) u = true <-> u ∈ uris s.
Proof.
  cbn. induction s as [|[v items] s IH]; cbn; [by split; [|intros ?%elem_of_nil]|].
  rewrite orb_true_iff, IH, elem_of_cons. rewrite bool_decide_eq_true. naive_solver.
Qed.

Lemma publish_written `{Writer} current previous :
  diag_set_publish current previous = filter (fun p => writable p = true) (due current previous).
Proof.
  assert (Hone : forall u ds, publish_diagnostics_list u ds = filter (fun p => writable p = true) [(u, ds)]).
  { intros u ds. unfold publish_diagnostics_list, writable. rewrite filter_cons, filter_nil.
    destruct (yyjson_mut_write _); [by rewrite decide_True|by rewrite decide_False]. }
  unfold diag_set_publish, due. rewrite filter_app. f_equal.
  - induction (default [] current) as [|[u ds] l IH]; [done|]. rewrite bind_cons, IH, Hone, <- filter_app. done.
  - induction (filter _ _) as [|u l IH]; [done|]. rewrite bind_cons, IH. unfold publish_diagnostics.
    rewrite Hone, <- filter_app. done.
Qed.

Lemma due_uris current previous :
  NoDup (uris current) -> NoDup (uris previous) ->
  NoDup (due (Some current) (Some previous)).*1 /\
  (forall u, u ∈ (due (Some current) (Some previous)).*1 <->
             u ∈ uris current \/ u ∈ uris previous) /\
  (forall u, diag_items (due (Some current) (Some previous)) u = diag_items current u).
Proof.
  intros Hc Hp. unfold due. cbn [default from_option id].
  set (gone := filter (fun u => diag_set_has (Some current) u = false) (previous.*1)).
  assert (Hg : forall u, u ∈ gone <-> (u ∉ uris current) /\ u ∈ uris previous).
  { intros u. unfold gone. rewrite list_elem_of_filter. fold (uris previous).
    by rewrite <- not_true_iff_false, diag_set_has_iff. }
  assert (He : forall l : list string, fst <$> ((fun u => (u, @nil Diagnostic)) <$> l) = l).
  { intros l. induction l as [|u l IH]; [done|]. exact (f_equal (cons u) IH). }
  rewrite fmap_app, He. fold (uris current). split_and!.
  - apply NoDup_app. split_and!; [done| |by apply NoDup_filter]. intros u Hu Hgu. by apply Hg in Hgu as [].
  - intros u. rewrite elem_of_app, Hg. destruct (decide (u ∈ uris current)); naive_solver.
  - intros u. clear Hp Hc Hg. generalize gone. intros g. clear gone.
    assert (Hempty : diag_items ((fun u => (u, @nil Diagnostic)) <$> g) u = []).
    { clear. induction g as [|v g IH]; [done|]. cbn. by case_bool_decide. }
    induction current as [|[v items] cur IH]; [exact Hempty|]. cbn.
    case_bool_decide; [done|exact IH].
Qed.

(** ** Properties *)

(** Publishing brings the client up to date: whatever the client shows, after
    the notifications of [diag_set_publish] it shows exactly the current set on
    the URIs of both sets (so what went away is cleared), except that a URI
    whose notification the JSON library cannot write keeps its old markers; no
    URI is notified twice, and no other URI is notified. *)
Theorem diag_publish_updates_client `{Writer} current previous (m : markers) :
  NoDup (uris current) -> NoDup (uris previous) ->
  let ps := diag_set_publish (Some current) (Some previous) in
  NoDup ps.*1 /\
  (forall u, u ∈ uris current \/ u ∈ uris previous ->
     foldl show m ps u = if writable (u, diag_items current u) then diag_items current u else m u) /\
  (forall u, u ∉ uris current -> u ∉ uris previous -> foldl show m ps u = m u).
Proof.
  intros Hc Hp ps. destruct (due_uris current previous Hc Hp) as (Hn & Hin & Hi).
  unfold ps. rewrite publish_written. split_and!.
  - eapply sublist_NoDup; [exact Hn|]. apply fmap_sublist, sublist_filter.
  - intros u Hu%Hin. rewrite show_written, Hi by done. by rewrite bool_decide_eq_true_2.
  - intros u H1 H2. rewrite show_written by done. rewrite bool_decide_eq_false_2; [done|].
    rewrite Hin. tauto.
Qed.

Definition sample_diag (msg : string) : Diagnostic := warning (mkRange (mkPos 0 0) (mkPos 0 1)) msg.

Lemma diag_publish_updates_client_witness :
  let current := diag_set_add (diag_set_add diag_set_new "a" (sample_diag "1")) "a" (sample_diag "2") in
  let previous := diag_set_add diag_set_new "b" (sample_diag "3") in
  length (diag_set_publish (H := plain_writer) (Some current) (Some previous)) = 2%nat /\
  foldl show (fun _ => [sample_diag "3"]) (diag_set_publish (H := plain_writer) (Some current) (Some previous)) "b"%string = [].
Proof.
  intros current previous. split; [vm_compute; reflexivity|].
  destruct (diag_publish_updates_client (H := plain_writer) current previous (fun _ => [sample_diag "3"])) as (_ & Hb & _).
  - by apply uris_add_nodup, uris_add_nodup, NoDup_nil_2.
  - by apply uris_add_nodup, NoDup_nil_2.
  - rewrite (Hb "b"%string); [vm_compute; reflexivity|]. right. vm_compute. left.
Defined.

(** The degraded-mode warnings are exactly the documented ones: none while
    [compile_commands.json] is usable; otherwise every document of the project
    that the editor manages gets one whole-file warning when it is a [.tji],
    and one warning per [include] token, on that token, when it is not; the set
    keeps what other sources had put in. *)
Theorem cc_warnings_exact ws pindex out :
  NoDup (uris out) ->
  let out' := diag_collect_cc_missing ws pindex out in
  NoDup (uris out') /\
  (ws_cc_status ws = CC_STATUS_OK -> out' = out) /\
  (ws_cc_status ws ≠ CC_STATUS_OK -> forall u,
     diag_items out' u = diag_items out u ++
       concat ((fun w => match wd_snap w with
                | Some s => if bool_decide (wd_project_index w = Z.of_nat pindex /\
                                            wd_disk_only w = false /\ snap_uri s = u)
                            then doc_warnings (ws_cc_status ws) s else []
                | None => []
                end) <$> ws_docs ws)).
Proof.
  intros Hn out'. unfold out', diag_collect_cc_missing. case_bool_decide as Hs.
  - split_and!; [done|done|by intros []].
  - split_and!; [by apply collect_nodup|done|]. intros _ u. clear Hn out'.
    revert out. induction (ws_docs ws) as [|w docs IH]; intros out; cbn [foldl fmap list_fmap concat].
    + by rewrite app_nil_r.
    + rewrite IH, app_assoc. f_equal. unfold collect_ws_doc.
      destruct (wd_snap w) as [s|]; [|by rewrite app_nil_r].
      destruct (bool_decide_reflect (wd_project_index w = Z.of_nat pindex)) as [Hp|Hp]; cbn [negb orb].
      * destruct (wd_disk_only w) eqn:Ed.
        -- rewrite bool_decide_eq_false_2 by naive_solver. by rewrite app_nil_r.
        -- rewrite collect_doc_items. f_equal.
           repeat case_bool_decide; naive_solver.
      * rewrite bool_decide_eq_false_2 by naive_solver. by rewrite app_nil_r.
Qed.

Lemma cc_warnings_exact_witness :
  let tji := mkDocSnapshot 1 "file:///w/b.tji" "" tj_node_new [] [] 0 in
  let ws := mkWs [mkWsDoc (Some tji) empty_prefix_set 0 false; mkWsDoc (Some tji) empty_prefix_set 0 true]
              [] CC_STATUS_MISSING in
  diag_items (diag_collect_cc_missing ws 0 diag_set_new) "file:///w/b.tji"
    = [warning (mkRange (mkPos 0 0) (mkPos 0 INT_MAX)) (standalone_message CC_STATUS_MISSING)] /\
  NoDup (uris (diag_collect_cc_missing ws 0 diag_set_new)).
Proof.
  intros tji ws. split; [vm_compute; reflexivity|].
  apply (cc_warnings_exact ws 0 diag_set_new). apply NoDup_nil_2.
Defined.
