(* ===== verification/DiagWorker.v ===== *)
(** * [diag_worker.c]: background diagnostics workers and their registry.

    One worker thread per project runs TaskJuggler against successive snapshots.
    The worker is a state machine whose transitions are the critical sections
    and the run in between; the registry is the coordinator's list of workers. *)

From S2P Require Import Prelude Syntax MutJson Store Assembly Revalidate Diagnostics.

Inductive tj3_mode : Set := TJ3_FULL | TJ3_SYNTAX_ONLY.

#[global] Instance tj3_mode_eq_dec : EqDecision tj3_mode.
Proof. solve_decision. Defined.

(** ** One worker *)

(** [w_running] is the snapshot [run_once] holds between two visits to the
    lock; [w_exited] tells that the thread returned. *)
Record diag_worker : Set := mkWorker {
  w_pending : option workspace_snapshot;
  w_stop : bool;
  w_clear_on_stop : bool;
  w_last_published : option diag_set;
  w_running : option workspace_snapshot;
  w_exited : bool
}.

(** [diag_worker_spawn]. *)
Definition diag_worker_spawn : diag_worker := mkWorker None false false None None false.

Section Worker.
Context `{Writer}.
Variables (project_id : string) (mode : tj3_mode).
(** [tj3_collect_project]: TaskJuggler's own diagnostics, appended to a set. *)
Variable tj3_collect_project : workspace_snapshot -> nat -> tj3_mode -> diag_set -> diag_set.

(** The set [run_once] builds. *)
Definition collect (ws : workspace_snapshot) : diag_set :=
  match list_find (fun p => wp_id p = Some project_id) (ws_projects ws) with
  | Some (i, _) => tj3_collect_project ws i mode (diag_collect_cc_missing ws i diag_set_new)
  | None => diag_set_new
  end.

(** The critical sections of the coordinator and of the thread. *)
Definition diag_worker_request (ws : workspace_snapshot) (w : diag_worker) : diag_worker :=
  mkWorker (Some ws) (w_stop w) (w_clear_on_stop w) (w_last_published w) (w_running w) (w_exited w).
Definition diag_worker_retire (clear : bool) (w : diag_worker) : diag_worker :=
  mkWorker (w_pending w) true clear (w_last_published w) (w_running w) (w_exited w).
Definition take_pending (ws : workspace_snapshot) (w : diag_worker) : diag_worker :=
  mkWorker None (w_stop w) (w_clear_on_stop w) (w_last_published w) (Some ws) (w_exited w).
(** [run_once], up to its publication. *)
Definition run_once (ws : workspace_snapshot) (w : diag_worker) : diag_worker * list publication :=
  let set := collect ws in
  (mkWorker (w_pending w) (w_stop w) (w_clear_on_stop w) (Some set) None (w_exited w),
   diag_set_publish (Some set) (w_last_published w)).
Definition clear_published (prev : option diag_set) : list publication :=
  match prev with
  | None => []
  | Some prev => diag_set_publish (Some diag_set_new) (Some prev)
  end.
(** The end of [diag_worker_main]. *)
Definition exit_thread (w : diag_worker) : diag_worker * list publication :=
  (mkWorker None true (w_clear_on_stop w) None None true,
   if w_clear_on_stop w then clear_published (w_last_published w) else []).

(** A worker, the markers its client shows, and the snapshots it was asked to
    validate, oldest first. *)
Definition worker_state : Set := (diag_worker * markers * list workspace_snapshot)%type.

Inductive worker_step : worker_state -> worker_state -> Prop :=
  | do_request w m rs ws :
      w_stop w = false -> worker_step (w, m, rs) (diag_worker_request ws w, m, rs ++ [ws])
  | do_retire w m rs clear :
      w_stop w = false -> worker_step (w, m, rs) (diag_worker_retire clear w, m, rs)
  | do_take w m rs ws :
      w_exited w = false -> w_running w = None -> w_stop w = false -> w_pending w = Some ws ->
      worker_step (w, m, rs) (take_pending ws w, m, rs)
  | do_run w m rs ws w' ps :
      w_running w = Some ws -> run_once ws w = (w', ps) ->
      worker_step (w, m, rs) (w', foldl show m ps, rs)
  | do_exit w m rs w' ps :
      w_exited w = false -> w_running w = None -> w_stop w = true -> exit_thread w = (w', ps) ->
      worker_step (w, m, rs) (w', foldl show m ps, rs).

Definition no_markers : markers := fun _ => [].

Hypothesis tj3_nodup : forall ws i md out, NoDup (uris out) -> NoDup (uris (tj3_collect_project ws i md out)).

Lemma collect_uris_nodup ws : NoDup (uris (collect ws)).
Proof.
  unfold collect. destruct (list_find _ _) as [[i p]|]; [|apply NoDup_nil_2].
  apply tj3_nodup. unfold diag_collect_cc_missing. case_bool_decide; [apply NoDup_nil_2|].
  apply collect_nodup, NoDup_nil_2.
Qed.

(** The library can write whatever is to be announced for the URI about these
    snapshots. *)
Definition deliverable (u : string) (rs : list workspace_snapshot) : Prop :=
  writable (u, []) = true /\ forall ws, ws ∈ rs -> writable (u, diag_items (collect ws) u) = true.

Lemma deliverable_snoc u rs ws : deliverable u (rs ++ [ws]) -> deliverable u rs.
Proof. intros [He Hw]. split; [done|]. intros ws' Hin. apply Hw, elem_of_app. by left. Qed.

(** A marker shown was due for one of these snapshots. *)
Definition was_due (u : string) (m : markers) (rs : list workspace_snapshot) : Prop :=
  m u = [] \/ exists ws, ws ∈ rs /\ m u = diag_items (collect ws) u.

(** What holds at every moment: the snapshots at hand were requested; the set
    published last is that of one of them; and the markers. *)
Definition worker_inv (st : worker_state) : Prop :=
  let '(w, m, rs) := st in
  (forall s, w_last_published w = Some s -> exists ws, ws ∈ rs /\ s = collect ws) /\
  (forall ws, w_pending w = Some ws \/ w_running w = Some ws -> ws ∈ rs) /\
  (w_exited w = true -> w_stop w = true /\ w_pending w = None /\ w_running w = None /\
     w_last_published w = None) /\
  (w_exited w = false -> forall u, deliverable u rs -> m u = diag_items (default [] (w_last_published w)) u) /\
  (w_exited w = true -> w_clear_on_stop w = true -> forall u, deliverable u rs -> m u = []) /\
  (w_stop w = false ->
     match w_pending w, w_running w with
     | Some ws, _ => last rs = Some ws
     | None, Some ws => last rs = Some ws
     | None, None => w_last_published w = collect <$> last rs
     end) /\
  (forall u, was_due u m rs).

(** Publishing moves the client from the last set to the new one, or, when the
    notification cannot be written, leaves it where it is. *)
Lemma publish_shows m cur prev u :
  NoDup (uris cur) -> (forall s, prev = Some s -> NoDup (uris s)) ->
  let m' := foldl show m (diag_set_publish (Some cur) prev) in
  (m' u = diag_items cur u \/ m' u = m u) /\
  (writable (u, diag_items cur u) = true -> m u = diag_items (default [] prev) u -> m' u = diag_items cur u).
Proof.
  intros Hc Hp m'. assert (Hp' : NoDup (uris (default [] prev))).
  { destruct prev as [s|]; [by apply Hp|apply NoDup_nil_2]. }
  subst m'. replace (diag_set_publish (Some cur) prev) with (diag_set_publish (Some cur) (Some (default [] prev)))
    by by destruct prev.
  rewrite publish_written. destruct (due_uris cur (default [] prev) Hc Hp') as (Hn & Hin & Hi).
  rewrite show_written, Hi by done. case_bool_decide as Hu; cbn [andb].
  - destruct (writable _); [by split; [left|]|]. by split; [right|].
  - split; [by right|]. intros _ ->. rewrite Hin in Hu. by rewrite !diag_items_not_in by tauto.
Qed.

Lemma was_due_snoc u m rs ws : was_due u m rs -> was_due u m (rs ++ [ws]).
Proof. intros [?|(ws' & ? & ?)]; [by left|right]. exists ws'. split; [apply elem_of_app; by left|done]. Qed.

Lemma was_due_same u (m m' : markers) rs : m' u = m u -> was_due u m rs -> was_due u m' rs.
Proof. unfold was_due. by intros ->. Qed.

Lemma inv_request w m rs ws : worker_inv (w, m, rs) -> w_stop w = false -> worker_inv (diag_worker_request ws w, m, rs ++ [ws]).
Proof.
  intros (H1 & Hr & H2 & H3 & H4 & H5 & H6) Hst. split_and!; cbn; try done.
  - intros s Hs. destruct (H1 s Hs) as (ws' & ? & ->). exists ws'. split; [apply elem_of_app; by left|done].
  - intros ws' [[= <-]|Hw]; apply elem_of_app; [right; by left|left]. apply Hr. by right.
  - intros He. destruct (H2 He). congruence.
  - intros He u Hu%deliverable_snoc. by apply H3.
  - intros He Hc u Hu%deliverable_snoc. by apply H4.
  - by rewrite last_snoc.
  - intros u. by apply was_due_snoc.
Qed.

Lemma inv_run w m rs ws : worker_inv (w, m, rs) -> w_running w = Some ws ->
  worker_inv ((run_once ws w).1, foldl show m (run_once ws w).2, rs).
Proof.
  intros (H1 & Hr & H2 & H3 & H4 & H5 & H6) Hrun. assert (Hin : ws ∈ rs) by (apply Hr; by right).
  assert (He : w_exited w = false).
  { destruct (w_exited w) eqn:E; [|done]. destruct (H2 eq_refl) as (_ & _ & ? & _). congruence. }
  assert (Hl : forall s, w_last_published w = Some s -> NoDup (uris s)).
  { intros s Hs. destruct (H1 s Hs) as (ws' & _ & ->). apply collect_uris_nodup. }
  pose proof (fun u => publish_shows m (collect ws) (w_last_published w) u (collect_uris_nodup ws) Hl) as Hp.
  split_and!; cbn; try congruence.
  - intros s [= <-]. by exists ws.
  - intros ws' [Hw|]; [apply Hr; by left|done].
  - intros _ u Hu. apply (Hp u); [by apply Hu|by apply H3].
  - intros Hst. specialize (H5 Hst). rewrite Hrun in H5. destruct (w_pending w); [done|]. by rewrite H5.
  - intros u. destruct (Hp u) as [[E|E] _]; [right; by exists ws|]. by eapply was_due_same, H6.
Qed.

Lemma inv_exit w m rs : worker_inv (w, m, rs) -> w_exited w = false ->
  worker_inv ((exit_thread w).1, foldl show m (exit_thread w).2, rs).
Proof.
  intros (H1 & Hr & H2 & H3 & H4 & H5 & H6) He. unfold exit_thread.
  assert (Hl : forall s, w_last_published w = Some s -> NoDup (uris s)).
  { intros s Hs. destruct (H1 s Hs) as (ws' & _ & ->). apply collect_uris_nodup. }
  assert (Hp : w_clear_on_stop w = true -> forall u, (foldl show m (clear_published (w_last_published w)) u = [] \/
      foldl show m (clear_published (w_last_published w)) u = m u) /\
      (deliverable u rs -> foldl show m (clear_published (w_last_published w)) u = [])).
  { intros _ u. unfold clear_published. destruct (w_last_published w) as [prev|] eqn:El.
    - destruct (publish_shows m diag_set_new (Some prev) u) as [Ha Hb]; [apply NoDup_nil_2|intros s [= <-]; by apply Hl|].
      split; [done|]. intros Hu. apply Hb; [apply Hu|by apply H3].
    - split; [by right|]. intros Hu. by apply (H3 He u Hu). }
  split_and!; cbn; try done.
  - by intros ws [?|?].
  - intros _ Hc u Hu. rewrite Hc. by apply Hp.
  - intros u. destruct (w_clear_on_stop w); [|done]. destruct (Hp eq_refl u) as [[E|E] _]; [by left|].
    by eapply was_due_same, H6.
Qed.

Lemma worker_step_inv st st' : worker_inv st -> worker_step st st' -> worker_inv st'.
Proof.
  intros Hinv Hs. destruct Hs as [w m rs ws Hst|w m rs clear Hst|w m rs ws He Hr Hst Hp
    |w m rs ws w' ps Hr Hrun|w m rs w' ps He Hr Hst Hex].
  - by apply inv_request.
  - destruct Hinv as (H1 & Hreq & H2 & H3 & H4 & H5 & H6). split_and!; cbn; try done;
      intros He; destruct (H2 He); congruence.
  - destruct Hinv as (H1 & Hreq & H2 & H3 & H4 & H5 & H6). split_and!; cbn; try done.
    + intros ws' [|[= <-]]; [done|]. apply Hreq. by left.
    + congruence.
    + specialize (H5 Hst). by rewrite Hp in H5.
  - pose proof (inv_run w m rs ws Hinv Hr) as Hi. by rewrite Hrun in Hi.
  - pose proof (inv_exit w m rs Hinv He) as Hi. by rewrite Hex in Hi.
Qed.

Lemma worker_run_inv st :
  rtc worker_step (diag_worker_spawn, no_markers, []) st -> worker_inv st.
Proof.
  intros Hr. remember (diag_worker_spawn, no_markers, []) as s0 eqn:E.
  assert (H0 : worker_inv s0).
  { subst s0. split_and!; cbn; try done; [by intros ws [?|?]|by left]. }
  clear E.
  induction Hr as [|a b c Hab _ IH]; [done|]. by eapply IH, worker_step_inv.
Qed.
End Worker.

(** ** The registry *)

(** An entry of [g_workers]; [rw_seen] is the coordinator's mark. *)
Record registered : Set := mkRegistered {
  rw_project_id : string; rw_mode : tj3_mode; rw_seen : bool
}.

(** What the registry does to threads, in order. *)
Inductive registry_action : Set :=
  | Spawn (id : string) (mode : tj3_mode)
  | Retire (id : string) (mode : tj3_mode)
  | Request (id : string).

Definition set_seen (b : bool) (w : registered) : registered :=
  mkRegistered (rw_project_id w) (rw_mode w) b.

(** [registry_find], as an index. *)
Definition registry_find (ws : list registered) (id : string) : option nat :=
  fst <$> list_find (fun w => rw_project_id w = id) ws.

(** [registry_remove_at]: the last entry moves into the hole. *)
Definition registry_remove_at (i : nat) (ws : list registered) : list registered :=
  match last ws with
  | Some l => take (length ws - 1) (<[i := l]> ws)
  | None => ws
  end.

Definition registry_state : Set := (list registered * list registry_action)%type.

(** [acquire_project_worker], then the mark and the request; [spawns] tells
    whether [pthread_create] succeeds. *)
Definition retire_flipped (st : registry_state) (id : string) (mode : tj3_mode) : registry_state :=
  let '(ws, acts) := st in
  match registry_find ws id ≫= fun i => (ws !! i) with
  | Some w =>
      if bool_decide (rw_mode w ≠ mode)
      then (match registry_find ws id with Some i => registry_remove_at i ws | None => ws end,
            acts ++ [Retire id (rw_mode w)])
      else st
  | None => st
  end.

Definition update_project (spawns : string -> bool) (st : registry_state)
    (project : option string * tj3_mode) : registry_state :=
  match project with
  | (None, _) => st
  | (Some id, mode) =>
      let '(ws, acts) := retire_flipped st id mode in
      match registry_find ws id with
      | Some i => (alter (set_seen true) i ws, acts ++ [Request id])
      | None =>
          if spawns id
          then (ws ++ [mkRegistered id mode true], acts ++ [Spawn id mode; Request id])
          else (ws, acts)
      end
  end.

(** The sweep: [i] stays where it is after a removal.  Every round shortens
    the list or the part of it that is left, so the length is enough fuel. *)
Fixpoint sweep (fuel : nat) (i : nat) (st : registry_state) : registry_state :=
  match fuel with
  | O => st
  | S fuel' =>
      let '(ws, acts) := st in
      match ws !! i with
      | None => st
      | Some w =>
          if rw_seen w then sweep fuel' (S i) st
          else sweep fuel' i (registry_remove_at i ws, acts ++ [Retire (rw_project_id w) (rw_mode w)])
      end
  end.

Definition project_mode (p : ws_project) : option string * tj3_mode :=
  (wp_id p, if wp_from_compile_commands p then TJ3_FULL else TJ3_SYNTAX_ONLY).

Definition diag_registry_update (spawns : string -> bool) (ws : workspace_snapshot)
    (workers : list registered) : registry_state :=
  let st := foldl (update_project spawns) (set_seen false <$> workers, [])
              (project_mode <$> ws_projects ws) in
  sweep (length st.1) 0 st.

(** The end of the server: every worker is retired without clearing its
    markers and joined, and the registry is emptied.  The second component lists
    the workers joined, in order. *)
Definition diag_registry_shutdown (workers : list registered) : list registered * list string :=
  ([], rw_project_id <$> workers).

(** ** Facts *)

Definition ids (ws : list registered) : list string := rw_project_id <$> ws.

Lemma registry_find_Some ws id i :
  registry_find ws id = Some i ->
  exists w, ws !! i = Some w /\ rw_project_id w = id.
Proof.
  unfold registry_find. intros Hf. apply fmap_Some in Hf as ([j w] & Hw & ->).
  apply list_find_Some in Hw as (Hj & Hid & _). eauto.
Qed.

Lemma registry_find_None ws id : registry_find ws id = None <-> id ∉ ids ws.
Proof.
  unfold registry_find, ids. rewrite fmap_None, list_find_None, Forall_forall, list_elem_of_fmap.
  split.
  - intros Hn (w & -> & Hw). by apply (Hn w).
  - intros Hn w Hw <-. apply Hn. eauto.
Qed.

(** Removal keeps the other entries. *)
Lemma remove_at_perm ws i w : ws !! i = Some w -> ws ≡ₚ w :: registry_remove_at i ws.
Proof.
  intros Hi. destruct ws as [|l ws' _] using rev_ind; [done|].
  unfold registry_remove_at. rewrite last_snoc, length_app. cbn.
  replace (length ws' + 1 - 1)%nat with (length ws') by lia.
  destruct (decide (i < length ws')%nat) as [Hlt|Hge].
  - rewrite lookup_app_l in Hi by done. rewrite insert_app_l by done.
    rewrite take_app_length' by by rewrite length_insert.
    transitivity ((take i ws' ++ w :: drop (S i) ws') ++ [l]).
    { by rewrite (take_drop_middle ws' i w Hi). }
    rewrite insert_take_drop by done. rewrite <- app_assoc. cbn.
    rewrite <- (Permutation_middle (take i ws') _ w). constructor.
    apply Permutation_app_head. symmetry. apply Permutation_cons_append.
  - rewrite lookup_app_r in Hi by lia.
    destruct (i - length ws')%nat as [|k] eqn:Ek; [|by destruct k].
    injection Hi as ->. replace i with (length ws') by lia.
    rewrite insert_app_r_alt by done. rewrite Nat.sub_diag. cbn.
    rewrite take_app_length. rewrite Permutation_app_comm. done.
Qed.

(** The projects with an id, as worker keys. *)
Definition keyed (ps : list (option string * tj3_mode)) : list (string * tj3_mode) :=
  omap (fun p => (fun id => (id, p.2)) <$> p.1) ps.

Definition seen_worker (k : string * tj3_mode) : registered := mkRegistered k.1 k.2 true.

(** Registry entries no project of [ks] has claimed. *)
Definition unclaimed (ks : list (string * tj3_mode)) (ws : list registered) : list registered :=
  filter (fun w => rw_project_id w ∉ fst <$> ks) ws.

Definition is_request (a : registry_action) : option string :=
  match a with Request id => Some id | _ => None end.
Definition key (w : registered) : string * tj3_mode := (rw_project_id w, rw_mode w).

Lemma sweep_spec fuel : forall i ws acts,
  (length ws - i <= fuel)%nat -> Forall (fun w => rw_seen w = true) (take i ws) ->
  let st := sweep fuel i (ws, acts) in
  st.1 ≡ₚ filter (fun w => rw_seen w = true) ws /\
  exists rs, st.2 = acts ++ rs /\
    rs ≡ₚ (fun w => Retire (rw_project_id w) (rw_mode w)) <$> filter (fun w => rw_seen w = false) ws.
Proof.
  assert (Hdone : forall i ws acts, (length ws <= i)%nat -> Forall (fun w => rw_seen w = true) (take i ws) ->
    ws ≡ₚ filter (fun w => rw_seen w = true) ws /\
    exists rs, acts = acts ++ rs /\ rs ≡ₚ (fun w => Retire (rw_project_id w) (rw_mode w)) <$>
      filter (fun w => rw_seen w = false) ws).
  { intros i ws acts Hl Hs. rewrite take_ge in Hs by done. rewrite Forall_forall in Hs. split.
    - by rewrite list_filter_all.
    - exists []. rewrite app_nil_r. split; [done|]. rewrite list_filter_none; [done|].
      intros w Hw. rewrite (Hs w Hw). done. }
  induction fuel as [|fuel IH]; intros i ws acts Hf Hs; [apply (Hdone i); [lia|done]|]. cbn [sweep].
  destruct (ws !! i) as [w|] eqn:Hw; [|apply (Hdone i); [by apply lookup_ge_None in Hw|done]].
  assert (Hi := lookup_lt_Some _ _ _ Hw). destruct (rw_seen w) eqn:E.
  - apply IH; [lia|]. rewrite (take_S_r _ _ _ Hw). apply Forall_app. by repeat constructor.
  - pose proof (remove_at_perm ws i w Hw) as Hp.
    assert (Hl : length ws = S (length (registry_remove_at i ws))) by (by rewrite Hp at 1).
    destruct (IH i (registry_remove_at i ws) (acts ++ [Retire (rw_project_id w) (rw_mode w)]))
      as (H1 & rs & H2 & H3).
    + lia.
    + replace (take i (registry_remove_at i ws)) with (take i ws); [done|].
      unfold registry_remove_at. destruct (last ws); [|done].
      rewrite take_take, Nat.min_l by lia. by rewrite take_insert_ge.
    + generalize dependent (registry_remove_at i ws). intros rest Hp _ H1 H2 H3. split.
      * rewrite H1, Hp. rewrite filter_cons_False by congruence. done.
      * exists (Retire (rw_project_id w) (rw_mode w) :: rs). split; [by rewrite H2, <- app_assoc|].
        rewrite Hp, filter_cons_True by done. cbn. by constructor.
Qed.

(** With distinct ids, an entry found is split off. *)
Lemma unclaimed_snoc ks id mode ws :
  unclaimed (ks ++ [(id, mode)]) ws = filter (fun w => rw_project_id w ≠ id) (unclaimed ks ws).
Proof.
  unfold unclaimed. rewrite list_filter_filter. apply list_filter_iff. intros w.
  rewrite fmap_app. set_solver.
Qed.

Lemma split_by_id ws i w :
  NoDup (ids ws) -> ws !! i = Some w ->
  filter (fun x => rw_project_id x ≠ rw_project_id w) ws ≡ₚ registry_remove_at i ws.
Proof.
  intros Hn Hw. pose proof (remove_at_perm ws i w Hw) as Hp.
  generalize dependent (registry_remove_at i ws). intros rest Hp.
  rewrite Hp, filter_cons_False by (intros Hx; by apply Hx).
  rewrite list_filter_all; [done|]. intros x Hx He.
  assert (Hn' : NoDup (ids (w :: rest))) by (unfold ids; by rewrite <- Hp).
  cbn in Hn'. apply NoDup_cons in Hn' as [Hnin _]. apply Hnin, list_elem_of_fmap. eauto.
Qed.

(** The mode the registry runs a project in. *)
Definition mode_of (ws : list registered) (id : string) : option tj3_mode :=
  registry_find ws id ≫= fun i => rw_mode <$> ws !! i.

Lemma mode_of_Some ws id md :
  NoDup (ids ws) -> mode_of ws id = Some md <-> (id, md) ∈ key <$> ws.
Proof.
  intros Hn. unfold mode_of. rewrite list_elem_of_fmap. split.
  - destruct (registry_find ws id) as [i|] eqn:E; [|done].
    apply registry_find_Some in E as (w & Hw & <-). cbn. rewrite Hw. intros [= <-].
    exists w. split; [done|]. by eapply list_elem_of_lookup_2.
  - intros (w & [= -> ->] & Hw). destruct (registry_find ws (rw_project_id w)) as [i|] eqn:E.
    + apply registry_find_Some in E as (w' & Hw' & He). cbn. rewrite Hw'. cbn. f_equal.
      apply list_elem_of_lookup in Hw as [j Hj].
      assert (i = j) as ->; [|congruence].
      apply (NoDup_lookup (ids ws) i j (rw_project_id w)); [done| |]; unfold ids;
        rewrite list_lookup_fmap; [rewrite Hw'; cbn; by rewrite He|by rewrite Hj].
    + apply registry_find_None in E. destruct E. apply list_elem_of_fmap. eauto.
Qed.

Definition project_actions (ws : list registered) (id : string) (mode : tj3_mode) : list registry_action :=
  match mode_of ws id with
  | Some md => if bool_decide (md ≠ mode) then [Retire id md; Spawn id mode; Request id] else [Request id]
  | None => [Spawn id mode; Request id]
  end.

(** One project: its worker is seen afterwards, in the right mode, and the
    other entries are as before. *)
Lemma update_project_shape ws acts id mode :
  NoDup (ids ws) ->
  let st := update_project (fun _ => true) (ws, acts) (Some id, mode) in
  st.1 ≡ₚ seen_worker (id, mode) :: filter (fun w => rw_project_id w ≠ id) ws /\
  st.2 = acts ++ project_actions ws id mode.
Proof.
  intros Hn. unfold update_project, retire_flipped, project_actions, mode_of.
  destruct (registry_find ws id) as [i|] eqn:E; cbn [mbind option_bind].
  - pose proof E as (w & Hw & <-)%registry_find_Some. rewrite Hw. cbn [fmap option_fmap option_map].
    pose proof (split_by_id ws i w Hn Hw) as Hs.
    case_bool_decide as Hm.
    + destruct (registry_find (registry_remove_at i ws) (rw_project_id w)) as [k|] eqn:Ek.
      { apply registry_find_Some in Ek as (w' & Hw' & He). apply list_elem_of_lookup_2 in Hw'.
        rewrite <- Hs in Hw'. apply list_elem_of_filter in Hw' as [[] _]. done. }
      split; cbn; [|by rewrite <- app_assoc]. rewrite Hs. symmetry. apply Permutation_cons_append.
    + rewrite E. split; [|done]. cbn. rewrite Hs.
      assert (Hal : alter (set_seen true) i ws ≡ₚ set_seen true w :: registry_remove_at i ws).
      { assert (Hw' : alter (set_seen true) i ws !! i = Some (set_seen true w))
          by by rewrite list_lookup_alter_eq, Hw.
        assert (Hrest : forall l : list registered, forall x, l !! i = Some x -> l ≡ₚ x :: take i l ++ drop (S i) l).
        { intros l x Hx. rewrite <- (take_drop_middle l i x Hx) at 1. symmetry. apply Permutation_middle. }
        rewrite (Hrest _ _ Hw'). constructor.
        replace (take i (alter (set_seen true) i ws)) with (take i ws) by (by rewrite take_alter_ge).
        replace (drop (S i) (alter (set_seen true) i ws)) with (drop (S i) ws) by (by rewrite drop_alter_lt by lia).
        apply (Permutation_cons_inv (a := w)). rewrite <- (Hrest ws w Hw). by apply remove_at_perm. }
      rewrite Hal. assert (rw_mode w = mode) as <- by (by destruct (decide (rw_mode w = mode))). by destruct w.
  - apply registry_find_None in E as Hnin. rewrite E. cbn. split; [|done].
    rewrite list_filter_all; [symmetry; apply Permutation_cons_append|].
    intros w Hw <-. apply Hnin, list_elem_of_fmap. eauto.
Qed.

Section Registry.
Variable old : list registered.
Hypothesis old_nodup : NoDup (ids old).
Abbreviation start := (set_seen false <$> old).

Lemma start_ids : ids start = ids old.
Proof. unfold ids. rewrite <- list_fmap_compose. done. Qed.

Lemma start_keys : key <$> start = key <$> old.
Proof. rewrite <- list_fmap_compose. done. Qed.

(** After the projects [ks]: their workers are seen, the rest of the old ones
    unseen. *)
Definition registry_inv (ks : list (string * tj3_mode)) (st : registry_state) : Prop :=
  st.1 ≡ₚ (seen_worker <$> ks) ++ unclaimed ks start /\
  omap is_request st.2 = fst <$> ks /\
  (forall id md, Retire id md ∈ st.2 <->
     exists mode, (id, mode) ∈ ks /\ mode_of old id = Some md /\ md ≠ mode) /\
  (forall id md, Spawn id md ∈ st.2 <-> (id, md) ∈ ks /\ mode_of old id ≠ Some md).

Lemma registry_inv_nodup ks st :
  NoDup (fst <$> ks) -> registry_inv ks st -> NoDup (ids st.1).
Proof.
  intros Hn (Hp & _). unfold ids. rewrite Hp, fmap_app, <- list_fmap_compose.
  replace ((rw_project_id ∘ seen_worker) <$> ks) with (fst <$> ks) by (apply list_fmap_ext; by intros ? []).
  apply NoDup_app. split_and!; [done| |].
  - intros id Hid (w & -> & Hw)%list_elem_of_fmap. by apply list_elem_of_filter in Hw as [? _].
  - assert (Hs : NoDup (ids start)) by by rewrite start_ids.
    unfold unclaimed, ids in *. clear Hp Hn. induction start as [|w ws IH]; [by apply NoDup_nil_2|].
    apply NoDup_cons in Hs as [Hw Hs]. rewrite filter_cons. case_decide; [|by apply IH].
    apply NoDup_cons. split; [|by apply IH]. intros (x & Hx & Hin)%list_elem_of_fmap.
    apply Hw. rewrite Hx. apply list_elem_of_fmap. exists x. split; [done|].
    by apply list_elem_of_filter in Hin as [_ ?].
Qed.

Lemma registry_inv_mode ks st id :
  NoDup (fst <$> ks) -> registry_inv ks st -> id ∉ fst <$> ks ->
  mode_of st.1 id = mode_of old id.
Proof.
  intros Hn Hinv Hid. pose proof (registry_inv_nodup ks st Hn Hinv) as Hs.
  destruct Hinv as (Hp & _). apply option_eq. intros md.
  rewrite !mode_of_Some by done. rewrite Hp, fmap_app, elem_of_app, <- start_keys.
  rewrite !list_elem_of_fmap. split.
  - intros [(w & Hw & Hin)|(w & -> & Hin)].
    + apply list_elem_of_fmap in Hin as ([id' md'] & -> & Hin). injection Hw as -> ->.
      destruct Hid. apply list_elem_of_fmap. by exists (id', md').
    + apply list_elem_of_filter in Hin as [_ Hin]. eauto.
  - intros (w & Hw & Hin). right. exists w. split; [done|]. apply list_elem_of_filter.
    split; [|done]. injection Hw as -> _. done.
Qed.

Lemma registry_step ks st id mode :
  NoDup (fst <$> (ks ++ [(id, mode)])) -> registry_inv ks st ->
  registry_inv (ks ++ [(id, mode)]) (update_project (fun _ => true) st (Some id, mode)).
Proof.
  intros Hn Hinv. rewrite fmap_app in Hn. apply NoDup_app in Hn as (Hnk & Hid & _).
  assert (Hidn : id ∉ fst <$> ks) by (intros Hx; apply (Hid _ Hx); left).
  pose proof (registry_inv_nodup ks st Hnk Hinv) as Hs.
  pose proof (registry_inv_mode ks st id Hnk Hinv Hidn) as Hm.
  destruct Hinv as (Hp & Hreq & Hret & Hsp). destruct st as [ws acts]. cbn [fst snd] in *.
  destruct (update_project_shape ws acts id mode Hs) as [P1 A1].
  unfold registry_inv. rewrite P1, A1.
  assert (Hmd : forall md, (id, md) ∈ ks -> False).
  { intros md Hx. apply Hidn, list_elem_of_fmap. by exists (id, md). }
  split_and!.
  - rewrite Hp, filter_app, unclaimed_snoc, fmap_app.
    rewrite (list_filter_all _ (seen_worker <$> ks)).
    { rewrite <- app_assoc. cbn. apply Permutation_middle. }
    intros w (k & -> & Hk)%list_elem_of_fmap He. apply (Hmd k.2). rewrite <- He. by destruct k.
  - rewrite omap_app, fmap_app, Hreq. f_equal. unfold project_actions. repeat case_match; done.
  - intros i md. rewrite elem_of_app, Hret. unfold project_actions. rewrite Hm.
    setoid_rewrite elem_of_app. setoid_rewrite list_elem_of_singleton. split.
    + intros [(m & Hk & Hmo & Hne)|Ha]; [eauto|].
      destruct (mode_of old id) as [md0|] eqn:E; [case_bool_decide|]; set_unfold; naive_solver.
    + intros (m & [Hk|[= -> ->]] & Hmo & Hne); [left; eauto|right]. rewrite Hmo.
      rewrite bool_decide_eq_true_2 by done. left.
  - intros i md. rewrite elem_of_app, Hsp, elem_of_app, list_elem_of_singleton.
    unfold project_actions. rewrite Hm. split.
    + intros [[Hk Hne]|Ha]; [auto|].
      destruct (mode_of old id) as [md0|] eqn:E; [case_bool_decide|]; set_unfold; naive_solver.
    + intros [[Hk|[= -> ->]] Hne]; [auto|right].
      destruct (mode_of old id) as [md0|] eqn:E; [case_bool_decide as Hb|]; set_unfold; naive_solver.
Qed.

Lemma registry_fold ps : forall ks st,
  NoDup (fst <$> (ks ++ keyed ps)) -> registry_inv ks st ->
  registry_inv (ks ++ keyed ps) (foldl (update_project (fun _ => true)) st ps).
Proof.
  induction ps as [|[[id|] mode] ps IH]; intros ks st Hn Hi.
  - cbn in *. by rewrite app_nil_r.
  - change (keyed ((Some id, mode) :: ps)) with ([(id, mode)] ++ keyed ps) in *. cbn [foldl].
    rewrite app_assoc in *. apply IH; [done|]. apply registry_step; [|done].
    rewrite fmap_app in Hn. by apply NoDup_app in Hn as (? & _ & _).
  - cbn [foldl update_project]. by apply IH.
Qed.
End Registry.

(** ** Properties *)

(** The steps a thread told to stop has left. *)
Definition steps_left (w : diag_worker) : nat :=
  (if w_running w is Some _ then 1 else 0) + (if w_exited w then 0 else 1).

Lemma stopped_step `{Writer} project_id mode tj3 a b : worker_step project_id mode tj3 a b -> w_stop a.1.1 = true ->
  w_stop b.1.1 = true /\ w_clear_on_stop b.1.1 = w_clear_on_stop a.1.1 /\ (steps_left b.1.1 < steps_left a.1.1)%nat.
Proof.
  destruct 1 as [w m rs ws Hst|w m rs clear Hst|w m rs ws He Hr Hst Hp|w m rs ws w' ps Hr Hrun|w m rs w' ps He Hr Hst Hex];
    cbn [fst]; intros Hs; try congruence; unfold steps_left.
  - injection Hrun as <- <-. cbn. rewrite Hr. split_and!; [done..|destruct (w_exited w); lia].
  - injection Hex as <- <-. cbn. rewrite Hr, He. split_and!; (done || lia).
Qed.

Lemma stopped_run `{Writer} project_id mode tj3 a b : rtc (worker_step project_id mode tj3) a b -> w_stop a.1.1 = true ->
  w_stop b.1.1 = true /\ w_clear_on_stop b.1.1 = w_clear_on_stop a.1.1.
Proof.
  induction 1 as [a|a b c Hab _ IH]; [done|]. intros Ha.
  apply stopped_step in Hab as (Hb & Hc & _); [|done]. destruct (IH Hb) as [H1 H2]. by rewrite H2.
Qed.

Lemma stopped_acc `{Writer} project_id mode tj3 a : w_stop a.1.1 = true ->
  Acc (fun b a => worker_step project_id mode tj3 a b) a.
Proof.
  remember (steps_left a.1.1) as n eqn:E. revert a E. induction (lt_wf n) as [n _ IH]. intros a -> Ha.
  constructor. intros b Hb. destruct (stopped_step _ _ _ _ _ Hb Ha) as (Hs & _ & Hlt). by eapply IH.
Qed.

(** A retired worker can be joined.  Wherever its thread was when it was told
    to stop, it takes finitely many more steps (the run it is in, and the exit),
    and it is not stuck before it has exited, so [pthread_join] returns; told
    to clear, it leaves no marker behind at a URI whose notifications the JSON
    library can write. *)
Theorem retired_worker_exits `{Writer} project_id mode tj3 w m rs clear :
  (forall ws i md out, NoDup (uris out) -> NoDup (uris (tj3 ws i md out))) ->
  rtc (worker_step project_id mode tj3) (diag_worker_spawn, no_markers, []) (w, m, rs) -> w_stop w = false ->
  let stopped := (diag_worker_retire clear w, m, rs) in
  Acc (fun b a => worker_step project_id mode tj3 a b) stopped /\
  forall w' m' rs', rtc (worker_step project_id mode tj3) stopped (w', m', rs') ->
    (w_exited w' = true \/ exists st, worker_step project_id mode tj3 (w', m', rs') st) /\
    (w_exited w' = true -> clear = true -> forall u, deliverable project_id mode tj3 u rs' -> m' u = []).
Proof.
  intros Htj Hr Hst stopped. split; [by apply stopped_acc|]. intros w' m' rs' Hs.
  destruct (stopped_run _ _ _ _ _ Hs) as [Hst' Hc]; [done|]. cbn in Hst', Hc.
  assert (Hreach : rtc (worker_step project_id mode tj3) (diag_worker_spawn, no_markers, []) (w', m', rs')).
  { etrans; [eapply rtc_r; [exact Hr|by constructor]|exact Hs]. }
  destruct (worker_run_inv project_id mode tj3 Htj _ Hreach) as (_ & _ & _ & _ & H4 & _).
  split; [|intros He ->; by apply H4]. destruct (w_exited w') eqn:He; [by left|right].
  destruct (w_running w') as [ws|] eqn:Hrun; eexists; [by eapply do_run|by eapply do_exit].
Qed.

(** A worker ends up showing the latest snapshot, whatever requests it
    coalesced: for any interleaving of the coordinator and the thread, at every
    URI whose notifications the JSON library can write, the client's markers are
    at every moment exactly the set the worker published last; when it is idle,
    that is the set of the snapshot requested last, even if snapshots in between
    were never run; and after it was retired with clearing no marker is left.
    At the other URIs the markers shown are those of some snapshot requested. *)
Theorem diag_worker_converges `{Writer} project_id mode tj3 w m rs :
  (forall ws i md out, NoDup (uris out) -> NoDup (uris (tj3 ws i md out))) ->
  rtc (worker_step project_id mode tj3) (diag_worker_spawn, no_markers, []) (w, m, rs) ->
  (forall u, was_due project_id mode tj3 u m rs) /\
  forall u, deliverable project_id mode tj3 u rs ->
    (w_exited w = false -> m u = diag_items (default [] (w_last_published w)) u) /\
    (w_stop w = false -> w_pending w = None -> w_running w = None ->
       m u = match last rs with
             | Some ws => diag_items (collect project_id mode tj3 ws) u
             | None => []
             end) /\
    (w_exited w = true -> w_clear_on_stop w = true -> m u = []).
Proof.
  intros Htj Hr. destruct (worker_run_inv project_id mode tj3 Htj _ Hr) as (H1 & _ & H2 & H3 & H4 & H5 & H6).
  split; [done|]. intros u Hu. split_and!; [intros He; by apply H3| |intros He Hc; by apply H4].
  intros Hst Hp Hrun. specialize (H5 Hst). rewrite Hp, Hrun in H5.
  rewrite H3, H5; [by destruct (last rs)| |done]. destruct (w_exited w) eqn:E; [|done].
  destruct (H2 eq_refl). congruence.
Qed.

Lemma diag_worker_converges_witness :
  let tji := mkDocSnapshot 1 "file:///w/b.tji" "" tj_node_new [] [] 0 in
  let ws status := mkWs [mkWsDoc (Some tji) empty_prefix_set 0 false]
                     [mkWsProject (Some "p"%string) ProjectTree.empty_project_root false] status in
  let tj3 (_ : workspace_snapshot) (_ : nat) (_ : tj3_mode) (out : diag_set) := out in
  exists w m, rtc (worker_step (H := plain_writer) "p" TJ3_SYNTAX_ONLY tj3) (diag_worker_spawn, no_markers, [])
      (w, m, [ws CC_STATUS_MISSING; ws CC_STATUS_OK]) /\
    w_running w = None /\ m "file:///w/b.tji"%string = [].
Proof.
  intros tji ws tj3. pose (HW := plain_writer).
  set (w1 := diag_worker_request (ws CC_STATUS_MISSING) diag_worker_spawn).
  set (w2 := diag_worker_request (ws CC_STATUS_OK) w1).
  set (w3 := take_pending (ws CC_STATUS_OK) w2).
  set (r := run_once "p" TJ3_SYNTAX_ONLY tj3 (ws CC_STATUS_OK) w3).
  assert (Hrun : rtc (worker_step "p" TJ3_SYNTAX_ONLY tj3) (diag_worker_spawn, no_markers, [])
      (r.1, foldl show no_markers r.2, [ws CC_STATUS_MISSING; ws CC_STATUS_OK])).
  { apply rtc_l with (w1, no_markers, [ws CC_STATUS_MISSING]); [by apply do_request|].
    apply rtc_l with (w2, no_markers, [ws CC_STATUS_MISSING; ws CC_STATUS_OK]); [by apply do_request|].
    apply rtc_l with (w3, no_markers, [ws CC_STATUS_MISSING; ws CC_STATUS_OK]); [by apply do_take|].
    apply rtc_l with (r.1, foldl show no_markers r.2, [ws CC_STATUS_MISSING; ws CC_STATUS_OK]);
      [by eapply do_run|apply rtc_refl]. }
  exists r.1, (foldl show no_markers r.2). split_and!; [exact Hrun|reflexivity|].
  destruct (diag_worker_converges "p" TJ3_SYNTAX_ONLY tj3 _ _ _ (fun _ _ _ _ H => H) Hrun) as [_ Hm].
  refine (proj1 (proj2 (Hm "file:///w/b.tji"%string _)) eq_refl eq_refl eq_refl).
  split; [vm_compute; reflexivity|]. intros ws' [->|[->|[]%elem_of_nil]%elem_of_cons]%elem_of_cons; vm_compute; reflexivity.
Defined.


(** The update in two parts: what the pass over the projects did ([acts1]), and
    the workers the sweep retired ([rs]). *)
Lemma registry_outcome ws workers :
  NoDup (ids workers) -> NoDup (fst <$> keyed (project_mode <$> ws_projects ws)) ->
  let projects := keyed (project_mode <$> ws_projects ws) in
  let st := diag_registry_update (fun _ => true) ws workers in
  st.1 ≡ₚ seen_worker <$> projects /\ NoDup (ids st.1) /\
  exists ws1 acts1 rs, registry_inv workers projects (ws1, acts1) /\ st.2 = acts1 ++ rs /\
    rs ≡ₚ (fun w => Retire (rw_project_id w) (rw_mode w)) <$> unclaimed projects (set_seen false <$> workers).
Proof.
  intros Hn Hp projects st.
  pose proof (registry_fold workers Hn (project_mode <$> ws_projects ws) [] (set_seen false <$> workers, []))
    as Hinv. cbn [app] in Hinv. fold projects in Hinv.
  assert (H0 : registry_inv workers [] (set_seen false <$> workers, [])).
  { split_and!; cbn.
    - unfold unclaimed. rewrite list_filter_all; [done|]. intros w _ Hw. by apply elem_of_nil in Hw.
    - done.
    - intros id md. split; [by intros ?%elem_of_nil|by intros (? & ?%elem_of_nil & _)].
    - intros id md. split; [by intros ?%elem_of_nil|by intros [?%elem_of_nil _]]. }
  specialize (Hinv Hp H0). unfold st, diag_registry_update.
  set (st1 := foldl _ _ _) in *. destruct st1 as [ws1 acts1].
  destruct (sweep_spec (length ws1) 0 ws1 acts1) as (Hsw & rs & Hacts & Hrs); [lia|constructor|].
  pose proof Hinv as (Hperm & _). cbn [fst snd] in *.
  assert (Hunc : forall w, w ∈ unclaimed projects (set_seen false <$> workers) -> rw_seen w = false).
  { intros w [_ (w0 & -> & _)%list_elem_of_fmap]%list_elem_of_filter. done. }
  assert (Hkept : (sweep (length ws1) 0 (ws1, acts1)).1 ≡ₚ seen_worker <$> projects).
  { rewrite Hsw, Hperm, filter_app, list_filter_all.
    - rewrite (list_filter_none _ (unclaimed _ _)); [by rewrite app_nil_r|]. intros w Hw%Hunc. congruence.
    - by intros w (k & -> & _)%list_elem_of_fmap. }
  split_and!; [done| |exists ws1, acts1, rs; split_and!; [done|done|]].
  - assert (Hi : ids (seen_worker <$> projects) = fst <$> projects).
    { unfold ids. rewrite <- list_fmap_compose. apply list_fmap_ext. by intros _ [] _. }
    unfold ids in *. by rewrite Hkept, Hi.
  - rewrite Hrs, Hperm, filter_app, list_filter_none.
    + by rewrite list_filter_all by exact Hunc.
    + by intros w (k & -> & _)%list_elem_of_fmap.
Qed.

(** After every snapshot the registry matches the projects: with distinct
    project ids there is exactly one worker per project, in the mode its kind
    calls for; every project's worker is asked to validate the new snapshot
    exactly once; exactly the workers whose project vanished or changed its mode
    are retired, and exactly the projects without a fitting worker get a new
    one, so the others keep theirs.  (Thread creation is taken to succeed.) *)
Theorem registry_update_correct ws workers :
  NoDup (ids workers) -> NoDup (fst <$> keyed (project_mode <$> ws_projects ws)) ->
  let projects := keyed (project_mode <$> ws_projects ws) in
  let st := diag_registry_update (fun _ => true) ws workers in
  key <$> st.1 ≡ₚ projects /\ NoDup (ids st.1) /\
  omap is_request st.2 = fst <$> projects /\
  (forall id md, Retire id md ∈ st.2 <-> (id, md) ∈ key <$> workers /\ (id, md) ∉ projects) /\
  (forall id md, Spawn id md ∈ st.2 <-> (id, md) ∈ projects /\ (id, md) ∉ key <$> workers).
Proof.
  intros Hn Hp projects st. destruct (registry_outcome ws workers Hn Hp) as (Hkept & Hnd & ws1 & acts1 & rs & Hinv & Hacts & Hgone).
  fold projects st in Hkept, Hnd, Hinv, Hacts, Hgone. destruct Hinv as (_ & Hreq & Hret & Hspawn). cbn [fst snd] in *.
  assert (Hkeys : key <$> (seen_worker <$> projects) = projects).
  { rewrite <- list_fmap_compose. rewrite <- (list_fmap_id projects) at 2. apply list_fmap_ext. by intros _ [] _. }
  assert (Hmember : forall id md, (id, md) ∈ projects -> id ∈ fst <$> projects).
  { intros id md Hx. apply list_elem_of_fmap. by exists (id, md). }
  split_and!.
  - by rewrite Hkept, Hkeys.
  - done.
  - rewrite Hacts, omap_app, Hreq. replace (omap is_request rs) with (@nil string); [by rewrite app_nil_r|].
    symmetry. apply omap_none. intros x Hx. rewrite Hgone in Hx.
    by apply list_elem_of_fmap in Hx as (w & -> & _).
  - intros id md. rewrite Hacts, elem_of_app, Hret, Hgone, list_elem_of_fmap.
    rewrite <- (mode_of_Some workers id md Hn). split.
    + intros [(m & Hk & Hm & Hne)|(w & [= -> ->] & Hw)].
      * split; [done|]. intros Hk'. apply Hne.
        apply list_elem_of_lookup in Hk as [i Hi]. apply list_elem_of_lookup in Hk' as [j Hj].
        assert (i = j) as ->; [|congruence].
        apply (NoDup_lookup (fst <$> projects) i j id); [done|..]; rewrite list_lookup_fmap;
          [by rewrite Hi|by rewrite Hj].
      * apply list_elem_of_filter in Hw as [Hnot Hw]. split.
        -- apply mode_of_Some; [done|]. apply list_elem_of_fmap in Hw as (w0 & -> & Hw0).
           apply list_elem_of_fmap. by exists w0.
        -- intros Hk. by eapply Hnot, Hmember.
    + intros [Hm Hnot]. destruct (decide (id ∈ fst <$> projects)) as [Hin|Hin].
      * left. apply list_elem_of_fmap in Hin as ([id' m] & -> & Hk). exists m.
        split_and!; [done..|]. intros <-. done.
      * right. apply mode_of_Some, list_elem_of_fmap in Hm as (w & [= -> ->] & Hw); [|done].
        exists (set_seen false w). split; [done|]. apply list_elem_of_filter. split; [done|].
        apply list_elem_of_fmap. eauto.
  - intros id md. rewrite Hacts, elem_of_app, Hspawn, <- (mode_of_Some workers id md Hn).
    split; [|by left]. intros [?|Hx]; [done|]. rewrite Hgone in Hx.
    by apply list_elem_of_fmap in Hx as (w & ? & _).
Qed.

Lemma registry_update_correct_witness :
  let p i cc := mkWsProject (Some i) ProjectTree.empty_project_root cc in
  let ws := mkWs [] [p "a" true; p "b" true]%string 0 in
  let workers := [mkRegistered "c" TJ3_FULL true; mkRegistered "b" TJ3_SYNTAX_ONLY true;
                  mkRegistered "a" TJ3_FULL false]%string in
  snd (diag_registry_update (fun _ => true) ws workers)
    = [Request "a"; Retire "b" TJ3_SYNTAX_ONLY; Spawn "b" TJ3_FULL; Request "b";
       Retire "c" TJ3_FULL]%string /\
  NoDup (ids (fst (diag_registry_update (fun _ => true) ws workers))).
Proof.
  intros p ws workers. split; [vm_compute; reflexivity|].
  refine (proj1 (proj2 (registry_update_correct ws workers _ _))).
  - apply (bool_decide_unpack _). vm_compute. exact I.
  - apply (bool_decide_unpack _). vm_compute. exact I.
Defined.

Lemma retired_worker_exits_witness :
  let tj3 (_ : workspace_snapshot) (_ : nat) (_ : tj3_mode) (out : diag_set) := out in
  forall w' m' rs', rtc (worker_step (H := plain_writer) "p" TJ3_FULL tj3) (diag_worker_retire true diag_worker_spawn, no_markers, [])
    (w', m', rs') -> w_exited w' = true -> forall u, deliverable (H := plain_writer) "p" TJ3_FULL tj3 u rs' -> m' u = [].
Proof.
  intros tj3 w' m' rs' Hs He.
  refine (proj2 (proj2 (retired_worker_exits (H := plain_writer) "p" TJ3_FULL tj3 diag_worker_spawn no_markers [] true _ _ _) w' m' rs' Hs) He _);
    [done|apply rtc_refl|done|done].
Defined.
