(* ===== verification/QueryContext.v ===== *)
(** * [server.c] and [query_context.c]: the view a query gets.

    [build_query_context_locked] pins the published snapshot for one query; it
    runs on the coordinator, between notifications. *)

From S2P Require Import Prelude PathUri Syntax ProjectTree Store Workspace Assembly Rpc Revalidate Lifecycle.

Section QueryContext.
Context `{Env} `{Yyjson}.

(** [request_primary_uri]: the flat form, then the nested one. *)
Definition request_primary_uri (params : option yyjson_val) : option string :=
  match params with
  | None => None
  | Some p =>
      match yyjson_obj_get p "textDocument" ≫= (fun td => json_str (Some td) "uri") with
      | Some uri => Some uri
      | None =>
          yyjson_obj_get p "textDocumentPosition" ≫= (fun tdp =>
          yyjson_obj_get tdp "textDocument" ≫= (fun td => json_str (Some td) "uri"))
      end
  end.

Record query_context : Set := mkQueryContext {
  qc_ws : option workspace_snapshot;
  qc_prev_snap : option doc_snapshot;
  qc_docs : list (query_doc * bool);      (** with [is_primary] *)
  qc_primary_idx : option nat;
  qc_project : option nat                 (** its [root] and [id] *)
}.

(** [make_query_doc]. *)
Definition make_query_doc (w : ws_doc) (s : doc_snapshot) : query_doc :=
  mkQueryDoc (snap_uri s) (Some (wd_prefixes w)) s.

Definition is_primary (primary_canon : option string) (s : doc_snapshot) : bool :=
  bool_decide (primary_canon = Some (snap_uri s)).

(** [s && s->uri && strcmp (s->uri, primary_canon) == 0]. *)
Definition entry_is_primary (primary_canon : option string) (w : ws_doc) : bool :=
  match wd_snap w with Some s => is_primary primary_canon s | None => false end.

(** The loop that finds the primary's project: the first entry with its URI. *)
Definition primary_project (primary_canon : option string) (docs : list ws_doc) : Z :=
  match list_find (fun w => entry_is_primary primary_canon w = true) docs with
  | Some (_, w) => wd_project_index w
  | None => (-1)%Z
  end.

(** Whether the second loop takes an entry. *)
Definition takes_entry (primary_canon : option string) (want_all_docs : bool) (primary_proj : Z)
    (w : ws_doc) : bool :=
  match wd_snap w with
  | None => false
  | Some s =>
      if negb (is_primary primary_canon s) && negb want_all_docs
      then negb ((primary_proj <? 0)%Z || negb (wd_project_index w =? primary_proj)%Z)
      else true
  end.

(** The second loop: the entries taken, and the index of the last primary. *)
Fixpoint collect_docs (primary_canon : option string) (want_all_docs : bool) (primary_proj : Z)
    (docs : list ws_doc) (n : nat) (primary_idx : option nat)
  : list (query_doc * bool) * option nat :=
  match docs with
  | [] => ([], primary_idx)
  | w :: docs' =>
      match wd_snap w with
      | Some s =>
          if takes_entry primary_canon want_all_docs primary_proj w then
            let b := is_primary primary_canon s in
            let '(rest, idx) := collect_docs primary_canon want_all_docs primary_proj docs' (S n)
                                  (if b then Some n else primary_idx) in
            ((make_query_doc w s, b) :: rest, idx)
          else collect_docs primary_canon want_all_docs primary_proj docs' n primary_idx
      | None => collect_docs primary_canon want_all_docs primary_proj docs' n primary_idx
      end
  end.

Definition build_query_context_locked (st : server) (primary_uri : option string)
    (want_all_docs : bool) : query_context :=
  let primary_doc := (primary_uri ≫= (fun u => doc_find (sv_docs st) u)) ≫= (fun i => sv_docs st !! i) in
  let prev_snap := primary_doc ≫= d_prev_snap in
  let primary_canon := primary_doc ≫= d_uri in
  match g_ws st with
  | None => mkQueryContext None prev_snap [] None None
  | Some ws =>
      let primary_proj := primary_project primary_canon (ws_docs ws) in
      let '(docs, idx) := collect_docs primary_canon want_all_docs primary_proj (ws_docs ws) 0 None in
      mkQueryContext (Some ws) prev_snap docs idx
        (if (0 <=? primary_proj)%Z && (primary_proj <? Z.of_nat (length (ws_projects ws)))%Z
         then Some (Z.to_nat primary_proj) else None)
  end.

(** [query_context_primary]. *)
Definition query_context_primary (qc : query_context) : option query_doc :=
  match qc_primary_idx qc with
  | Some i => fst <$> qc_docs qc !! i
  | None => None
  end.

(** [qc->project_root]. *)
Definition project_root (qc : query_context) : option ProjectNode :=
  qc_ws qc ≫= fun ws => qc_project qc ≫= fun k => wp_root <$> ws_projects ws !! k.

(** ** Facts *)

Lemma collect_docs_spec canon all proj docs : forall n idx,
  let '(l, r) := collect_docs canon all proj docs n idx in
  (forall qd b, (qd, b) ∈ l <-> exists w s, w ∈ docs /\ wd_snap w = Some s /\
     takes_entry canon all proj w = true /\ qd = make_query_doc w s /\ b = is_primary canon s) /\
  ((r = idx /\ forall w, w ∈ docs -> entry_is_primary canon w = false) \/
   exists k qd, r = Some (n + k)%nat /\ l !! k = Some (qd, true)).
Proof.
  induction docs as [|w docs IH]; intros n idx; cbn [collect_docs].
  - split; [|left; split; [done|by intros w ?%elem_of_nil]]. intros qd b.
    split; [by intros ?%elem_of_nil|by intros (? & ? & ?%elem_of_nil & _)].
  - assert (Hskip : takes_entry canon all proj w = false ->
      let '(l, r) := collect_docs canon all proj docs n idx in
      (forall qd b, (qd, b) ∈ l <-> exists w0 s, w0 ∈ w :: docs /\ wd_snap w0 = Some s /\
         takes_entry canon all proj w0 = true /\ qd = make_query_doc w0 s /\ b = is_primary canon s) /\
      ((r = idx /\ forall w0, w0 ∈ w :: docs -> entry_is_primary canon w0 = false) \/
       exists k qd, r = Some (n + k)%nat /\ l !! k = Some (qd, true))).
    { intros Hw. specialize (IH n idx). destruct (collect_docs canon all proj docs n idx) as [l r].
      destruct IH as [Hl Hr]. split.
      - intros qd b. rewrite Hl. split.
        + intros (w0 & s0 & Hin & Ht). exists w0, s0. split; [by apply elem_of_cons; right|done].
        + intros (w0 & s0 & [->|Hin]%elem_of_cons & Hs0 & Ht & Hr').
          * by rewrite Hw in Ht.
          * by exists w0, s0.
      - destruct Hr as [[-> Hp]|?]; [left|by right]. split; [done|].
        intros w0 [->|?]%elem_of_cons; [|by apply Hp]. unfold takes_entry, entry_is_primary in *.
        destruct (wd_snap w); [|done]. destruct (is_primary canon d); [|done]. by cbn in Hw. }
    destruct (wd_snap w) as [s|] eqn:Es; [|apply Hskip; unfold takes_entry; by rewrite Es].
    destruct (takes_entry canon all proj w) eqn:Et; [|by apply Hskip]. clear Hskip.
    specialize (IH (S n) (if is_primary canon s then Some n else idx)).
    destruct (collect_docs canon all proj docs (S n) _) as [l r]. destruct IH as [Hl Hr]. split.
    + intros qd b. rewrite elem_of_cons, Hl. setoid_rewrite elem_of_cons. split.
      * intros [[= -> ->]|(w0 & s0 & ? & ?)]; [exists w, s; auto|exists w0, s0; tauto].
      * intros (w0 & s0 & [->|Hin] & Hs0 & ? & -> & ->).
        -- left. congruence.
        -- right. eauto 10.
    + destruct Hr as [[-> Hp]|(k & qd & -> & Hk)].
      * destruct (is_primary canon s) eqn:Eb.
        -- right. exists 0, (make_query_doc w s). split; [f_equal; lia|done].
        -- left. split; [done|]. intros w0 [->|?]%elem_of_cons; [|by apply Hp].
           unfold entry_is_primary. by rewrite Es.
      * right. exists (S k), qd. split; [f_equal; lia|done].
Qed.

Lemma elem_of_ws_view idx docs w : forall i,
  w ∈ ws_view idx i docs <->
  exists j d, docs !! j = Some d /\ is_parsed d = true /\ w = ws_doc_of d (idx (i + j)%nat).
Proof.
  induction docs as [|d docs IH]; intros i; cbn [ws_view].
  - split; [by intros ?%elem_of_nil|by intros (j & d & Hd & _)].
  - assert (Htl : w ∈ ws_view idx (S i) docs <->
      exists j d0, (d :: docs) !! S j = Some d0 /\ is_parsed d0 = true /\ w = ws_doc_of d0 (idx (i + S j)%nat)).
    { rewrite IH. by setoid_rewrite Nat.add_succ_r. }
    destruct (is_parsed d) eqn:Ep; [rewrite elem_of_cons|]; rewrite Htl; split.
    + intros [->|(j & d0 & Hd)]; [exists 0, d; by rewrite Nat.add_0_r|by exists (S j), d0].
    + intros ([|j] & d0 & Hd & Hp & ->); [|right; eauto].
      injection Hd as <-. rewrite Nat.add_0_r. by left.
    + intros (j & d0 & Hd). by exists (S j), d0.
    + intros ([|j] & d0 & Hd & Hp & ->); [|eauto]. injection Hd as <-. congruence.
Qed.

(** The snapshot's entries for a URI are its document's. *)
Lemma entry_is_primary_view idx docs i d w :
  store_ok docs -> docs !! i = Some d -> is_Some (d_uri d) -> d_in_use d = true ->
  w ∈ ws_view idx 0 docs ->
  entry_is_primary (d_uri d) w = true <-> is_parsed d = true /\ w = ws_doc_of d (idx i).
Proof.
  intros (_ & Hok & Hu) Hd [u Hu'] Hin Hw.
  apply (elem_of_ws_view idx docs w 0) in Hw as (j & e & He & Hp & ->). cbn [Nat.add].
  unfold is_parsed in Hp. apply andb_prop in Hp as [He1 He2%bool_decide_eq_true].
  destruct He2 as [s Hs]. unfold entry_is_primary, is_primary. cbn. rewrite Hs.
  rewrite Forall_lookup in Hok. destruct (Hok _ _ He) as (_ & He3 & He4 & _).
  destruct (He3 He1) as [[ue Hue] _]. destruct (He4 s Hs) as [-> _]. rewrite Hue, Hu'. cbn.
  rewrite bool_decide_eq_true. split.
  - intros [= <-]. assert (i = j) as <- by (eapply (Hu i j d e u); by try split).
    replace d with e in * by congruence. split; [|done].
    unfold is_parsed. rewrite He1, Hs. done.
  - intros [_ [= Hs' _]]. rewrite Hs in Hs'. symmetry in Hs'.
    destruct (Hok _ _ Hd) as (_ & _ & Hd4 & _). destruct (Hd4 s Hs') as [Hx _].
    destruct (He4 s Hs) as [Hy _]. rewrite Hue in Hy. rewrite Hu' in Hx. cbn in *. congruence.
Qed.
(** The first entry for the primary decides the project. *)
Lemma primary_project_view idx docs i d :
  store_ok docs -> docs !! i = Some d -> d_in_use d = true -> is_Some (d_uri d) -> is_parsed d = true ->
  primary_project (d_uri d) (ws_view idx 0 docs) = idx i.
Proof.
  intros Hok Hd Hiu Hu Hp. unfold primary_project.
  destruct (list_find _ _) as [[k w]|] eqn:E.
  - apply list_find_Some in E as (Hw%list_elem_of_lookup_2 & He & _).
    apply (entry_is_primary_view idx docs i d w Hok Hd Hu Hiu Hw) in He as [_ ->]. done.
  - apply list_find_None in E. rewrite Forall_forall in E.
    assert (Hin : ws_doc_of d (idx i) ∈ ws_view idx 0 docs).
    { apply elem_of_ws_view. by exists i, d. }
    destruct (E _ Hin). by apply (entry_is_primary_view idx docs i d _ Hok Hd Hu Hiu Hin).
Qed.

(** Nothing is primary: no project and no siblings. *)
Lemma collect_docs_none canon all docs qd :
  (forall w, w ∈ docs -> entry_is_primary canon w = false) ->
  primary_project canon docs = (-1)%Z /\
  (qd ∈ (collect_docs canon all (-1) docs 0 None).1.*1 <->
     all = true /\ exists w s, w ∈ docs /\ wd_snap w = Some s /\ qd = make_query_doc w s) /\
  (collect_docs canon all (-1) docs 0 None).2 = None.
Proof.
  intros Hn. split.
  { unfold primary_project. destruct (list_find _ _) as [[k w]|] eqn:E; [|done].
    apply list_find_Some in E as (Hw%list_elem_of_lookup_2 & He & _). by rewrite (Hn w Hw) in He. }
  assert (Hx : forall w s, w ∈ docs -> wd_snap w = Some s ->
            is_primary canon s = false /\ takes_entry canon all (-1) w = all).
  { intros w s Hw Hs. specialize (Hn w Hw). unfold entry_is_primary, takes_entry in *.
    rewrite Hs in *. rewrite Hn. split; [done|]. by destruct all. }
  pose proof (collect_docs_spec canon all (-1) docs 0 None) as Hc.
  destruct (collect_docs canon all (-1) docs 0 None) as [l r]. cbn. destruct Hc as [Hl Hr]. split.
  - rewrite list_elem_of_fmap. split.
    + intros ([qd' b] & -> & (w & s & Hw & Hs & Ht & -> & _)%Hl). cbn.
      destruct (Hx w s Hw Hs) as [_ <-]. split; [done|]. by exists w, s.
    + intros [-> (w & s & Hw & Hs & ->)]. exists (make_query_doc w s, false). split; [done|].
      apply Hl. destruct (Hx w s Hw Hs). exists w, s. by split_and!.
  - destruct Hr as [[-> _]|(k & qd' & -> & Hk)]; [done|].
    apply list_elem_of_lookup_2, Hl in Hk as (w & s & Hw & Hs & _ & _ & Hb).
    by destruct (Hx w s Hw Hs) as [Hb' _]; rewrite Hb' in Hb.
Qed.
End QueryContext.

(** ** Properties *)

(** Where the published snapshot has a parsed document, and its project. *)
Lemma document_in_view `{Env} st ws uri i d s :
  server_ok st -> published st -> g_ws st = Some ws ->
  doc_find (sv_docs st) uri = Some i -> sv_docs st !! i = Some d -> d_snap d = Some s ->
  exists idx k p projs status, ws = mkWs (ws_view idx 0 (sv_docs st)) projs status /\ projs !! k = Some p /\
    idx i = Z.of_nat k /\ ws_doc_of d (Z.of_nat k) ∈ ws_view idx 0 (sv_docs st) /\
    primary_project (d_uri d) (ws_view idx 0 (sv_docs st)) = Z.of_nat k /\
    forall w, w ∈ ws_view idx 0 (sv_docs st) -> entry_is_primary (d_uri d) w = true <-> w = ws_doc_of d (Z.of_nat k).
Proof.
  intros [Hok _] Hpub Hws Hf Hd Hs. destruct Hpub as [[Hg _]|(E & status & Hg)]; [congruence|].
  assert (Hl : length (sv_docs st) = MAX_DOCS) by apply Hok.
  destruct (@build_form E (sv_docs st) status Hl) as (vs & Hvs & Hb).
  rewrite Hws in Hg. injection Hg as Hg. rewrite Hb in Hg. clear Hb.
  assert (Hh : d_in_use d = true /\ is_Some (d_uri d)).
  { apply doc_find_Some in Hf as [(d' & Hd' & Hh)|(d' & Hd' & Hh)]; replace d' with d in Hh by congruence;
      destruct Hh as [? ->]; eauto. }
  destruct Hh as [Hiu Hu].
  assert (Hp : is_parsed d = true) by (unfold is_parsed; by rewrite Hiu, Hs).
  destruct (@member_found E (sv_docs st) vs i Hl Hvs) as (k & Hk & Hlt & _); [by exists d|].
  revert Hg Hk Hlt. generalize (member_index vs (orphans_upto (sv_docs st) vs MAX_DOCS)). intros idx Hg Hk Hlt.
  set (projs := zip_with _ _ _ ++ _) in *. clearbody projs. apply lookup_lt_is_Some_2 in Hlt as [p Hpr].
  exists idx, k, p, projs, status. split_and!; [done|done|done| | |].
  - rewrite <- Hk. apply elem_of_ws_view. by exists i, d.
  - by rewrite (primary_project_view idx _ i d Hok Hd Hiu Hu Hp).
  - intros w Hw. rewrite (entry_is_primary_view idx _ i d w Hok Hd Hu Hiu Hw), Hk. tauto.
Qed.

(** A query about a tracked, parsed document is answered from that
    document: whatever spelling of its URI the request uses, the primary is the
    current parse, the delta base is the parse before it, the project tree is
    the one of the project the document belongs to, and the documents in view
    are exactly that project's (all of them for a workspace query). *)
Theorem query_sees_document `{Env} st ws uri i d s all :
  server_ok st -> published st -> g_ws st = Some ws ->
  doc_find (sv_docs st) uri = Some i -> sv_docs st !! i = Some d -> d_snap d = Some s ->
  let qc := build_query_context_locked st (Some uri) all in
  query_context_primary qc = Some (mkQueryDoc (snap_uri s) (Some (d_prefixes d)) s) /\
  qc_prev_snap qc = d_prev_snap d /\
  exists k p, ws_doc_of d (Z.of_nat k) ∈ ws_docs ws /\ ws_projects ws !! k = Some p /\
    project_root qc = Some (wp_root p) /\
    forall qd, qd ∈ (qc_docs qc).*1 <-> exists w s', w ∈ ws_docs ws /\ wd_snap w = Some s' /\
      (all = true \/ wd_project_index w = Z.of_nat k) /\ qd = make_query_doc w s'.
Proof.
  intros Hsv Hpub Hws Hf Hd Hs qc.
  destruct (document_in_view st ws uri i d s Hsv Hpub Hws Hf Hd Hs) as (idx & k & p & projs & status & -> & Hpr & Hk & Hin & Hpp & Hprim).
  unfold qc, build_query_context_locked. cbn [mbind option_bind]. rewrite Hf. cbn [mbind option_bind].
  rewrite Hd. cbn [mbind option_bind]. rewrite Hws. cbn [ws_docs ws_projects]. rewrite Hpp.
  pose proof (collect_docs_spec (d_uri d) all (Z.of_nat k) (ws_view idx 0 (sv_docs st)) 0 None) as Hc.
  destruct (collect_docs _ _ _ _ _ _) as [l r]. destruct Hc as [Hc Hr].
  apply lookup_lt_Some in Hpr as Hlt.
  split_and!.
  - unfold query_context_primary. cbn [qc_primary_idx qc_docs].
    destruct Hr as [[-> Hn]|(m & qd & -> & Hm)].
    + specialize (Hn _ Hin). destruct (Hprim _ Hin) as [_ Hx]. rewrite Hx in Hn; done.
    + cbn [Nat.add]. rewrite Hm. cbn. apply list_elem_of_lookup_2, Hc in Hm as (w & s' & Hw & Hs' & _ & -> & Hb).
      assert (w = ws_doc_of d (Z.of_nat k)) as ->.
      { apply Hprim; [done|]. unfold entry_is_primary. by rewrite Hs'. }
      cbn in Hs'. rewrite Hs in Hs'. injection Hs' as <-. done.
  - done.
  - exists k, p. split_and!; [done..| |].
    + unfold project_root. cbn [qc_ws qc_project mbind option_bind ws_projects].
      destruct (Z.leb_spec 0 (Z.of_nat k)); [|lia].
      destruct (Z.ltb_spec (Z.of_nat k) (Z.of_nat (length projs))); [|lia].
      cbn. by rewrite Nat2Z.id, Hpr.
    + intros qd. cbn [qc_docs]. rewrite list_elem_of_fmap. split.
      * intros ([qd' b] & -> & (w & s' & Hw & Hs' & Ht & -> & _)%Hc). exists w, s'.
        split_and!; [done..| |done]. unfold takes_entry in Ht. rewrite Hs' in Ht.
        destruct (is_primary (d_uri d) s') eqn:Eb.
        -- right. assert (w = ws_doc_of d (Z.of_nat k)) as ->; [|done].
           apply Hprim; [done|]. unfold entry_is_primary. by rewrite Hs'.
        -- destruct all; [by left|right]. cbn in Ht.
           destruct (Z.of_nat k <? 0)%Z, (Z.eqb_spec (wd_project_index w) (Z.of_nat k)); done.
      * intros (w & s' & Hw & Hs' & Hor & ->).
        exists (make_query_doc w s', is_primary (d_uri d) s'). split; [done|]. apply Hc. exists w, s'.
        split_and!; [done..| |done|done]. unfold takes_entry. rewrite Hs'.
        destruct (negb _ && negb all) eqn:En; [|done]. apply andb_prop in En as [_ En].
        destruct Hor as [->| ->]; [done|]. rewrite Z.eqb_refl.
        by destruct (Z.ltb_spec (Z.of_nat k) 0); [lia|].
Qed.

Lemma session_published : published session.
Proof. right. exists cyclic_env, CC_STATUS_OK. by vm_compute. Qed.

Definition session_ws : workspace_snapshot := default (ws_alloc 0) (g_ws session).
Definition session_doc (i : nat) : Document := default blank (sv_docs session !! i).
Definition session_snap (i : nat) : doc_snapshot :=
  default (mkDocSnapshot 0 EmptyString EmptyString tj_node_new [] [] 0) (d_snap (session_doc i)).

Lemma query_sees_document_witness :
  let qc := build_query_context_locked (H := cyclic_env) session (Some "file:///w/b.tji"%string) false in
  query_context_primary qc
    = Some (mkQueryDoc (snap_uri (session_snap 1)) (Some (d_prefixes (session_doc 1))) (session_snap 1)) /\
  length (qc_docs qc) = 2%nat.
Proof.
  split; [|by vm_compute].
  apply (query_sees_document (H := cyclic_env) session session_ws "file:///w/b.tji" 1 (session_doc 1) (session_snap 1)).
  - apply session_ok.
  - apply session_published.
  - by vm_compute.
  - by vm_compute.
  - by vm_compute.
  - by vm_compute.
Defined.
