(* ===== verification/JobQueue.v ===== *)
(** * [job_queue.c]: the FIFO of pending messages.

    The queue is the intrusive linked list of the code: cells in a heap,
    threaded by their [next] fields between a head and a tail pointer.  Every
    operation runs under the queue's mutex, so it is one step; [job_queue_pop]
    answers [Wait] where it would sleep on the condition variable.  The
    refinement theorem relates the list to the abstract queue the scheduler is
    proved against. *)

From S2P Require Import Prelude Syntax Store Assembly Rpc Revalidate QueryContext.

(** ** Jobs *)

(** [Job], without its link.  [job_no] is the identity of the allocation: the
    place of the message among all those received. *)
Record Job `{Yyjson} : Type := mkJob {
  job_no : nat;
  request_doc : yyjson_val;
  is_notification : bool;
  is_cancelled : bool;
  has_id : bool;
  job_id : Z;
  context : option query_context
}.

Section Job.
Context `{Yyjson}.

Definition set_cancelled (j : Job) : Job :=
  mkJob _ (job_no j) (request_doc j) (is_notification j) true (has_id j) (job_id j) (context j).

Definition set_context (c : query_context) (j : Job) : Job :=
  mkJob _ (job_no j) (request_doc j) (is_notification j) (is_cancelled j) (has_id j) (job_id j) (Some c).

(** The test of [job_queue_mark_cancelled_by_id]. *)
Definition cancel_matches (id : Z) (j : Job) : bool :=
  negb (is_notification j) && has_id j && (job_id j =? id)%Z.

Definition mark_job (id : Z) (j : Job) : Job := if cancel_matches id j then set_cancelled j else j.
End Job.

(** ** The linked queue *)

Record cell `{Yyjson} : Type := mkCell { cell_job : Job; cell_next : option nat }.

Record JobQueue : Set := mkQueue { q_head : option nat; q_tail : option nat; q_closed : bool }.

Inductive pop_result (A : Type) : Type := Wait | Drained | Popped (job : A).
Arguments Wait {A}. Arguments Drained {A}. Arguments Popped {A} job.

Section JobQueue.
Context `{Yyjson}.

Abbreviation heap := (gmap nat cell).

Definition set_next (n : option nat) (c : cell) : cell := mkCell _ (cell_job c) n.
Definition set_job (f : Job -> Job) (c : cell) : cell := mkCell _ (f (cell_job c)) (cell_next c).

Definition job_queue_create : JobQueue := mkQueue None None false.

Definition job_queue_push (q : JobQueue) (h : heap) (job : nat) : JobQueue * heap :=
  let h := alter (set_next None) job h in
  match q_tail q with
  | Some t => (mkQueue (q_head q) (Some job) (q_closed q), alter (set_next (Some job)) t h)
  | None => (mkQueue (Some job) (Some job) (q_closed q), h)
  end.

Definition job_queue_pop (q : JobQueue) (h : heap) : pop_result nat * JobQueue :=
  match q_head q with
  | None => (if q_closed q then Drained else Wait, q)
  | Some job =>
      let head := h !! job ≫= cell_next in
      (Popped job, mkQueue head (match head with None => None | Some _ => q_tail q end) (q_closed q))
  end.

Definition job_queue_close (q : JobQueue) : JobQueue := mkQueue (q_head q) (q_tail q) true.

(** The loop over the list; the fuel is the number of cells. *)
Fixpoint mark_loop (fuel : nat) (id : Z) (j : option nat) (h : heap) : heap :=
  match fuel, j with
  | S fuel', Some p => mark_loop fuel' id (h !! p ≫= cell_next) (alter (set_job (mark_job id)) p h)
  | _, _ => h
  end.

Definition job_queue_mark_cancelled_by_id (q : JobQueue) (h : heap) (id : Z) : heap :=
  mark_loop (size h) id (q_head q) h.

(** ** The abstract queue *)

Record queue : Type := mkFifo { fifo : list Job; fifo_closed : bool }.

Definition fifo_empty : queue := mkFifo [] false.
Definition fifo_push (j : Job) (q : queue) : queue := mkFifo (fifo q ++ [j]) (fifo_closed q).
Definition fifo_pop (q : queue) : pop_result Job * queue :=
  match fifo q with
  | [] => (if fifo_closed q then Drained else Wait, q)
  | j :: js => (Popped j, mkFifo js (fifo_closed q))
  end.
Definition fifo_close (q : queue) : queue := mkFifo (fifo q) true.
Definition fifo_mark (id : Z) (q : queue) : queue := mkFifo (mark_job id <$> fifo q) (fifo_closed q).

(** ** Representation *)

(** The cells [ps] are linked from [start], the last one ending the list. *)
Fixpoint linked (h : heap) (start : option nat) (ps : list nat) (js : list Job) : Prop :=
  match ps, js with
  | [], [] => start = None
  | p :: ps', j :: js' => start = Some p /\ exists n, h !! p = Some (mkCell _ j n) /\ linked h n ps' js'
  | _, _ => False
  end.

(** The linked queue holds the jobs of the abstract one. *)
Definition represents (q : JobQueue) (h : heap) (ps : list nat) (a : queue) : Prop :=
  NoDup ps /\ linked h (q_head q) ps (fifo a) /\ q_tail q = last ps /\ q_closed q = fifo_closed a.

(** The heap outside [ps] is left alone. *)
Definition framed (h h' : heap) (ps : list nat) : Prop := forall p, p ∉ ps -> h' !! p = h !! p.

Lemma linked_ext h h' start ps js :
  (forall p, p ∈ ps -> h' !! p = h !! p) -> linked h start ps js -> linked h' start ps js.
Proof.
  revert start js. induction ps as [|p ps IH]; intros start [|j js] Hf; cbn; try done.
  intros [-> (n & Hp & Hl)]. split; [done|]. exists n. split; [by rewrite Hf by left|].
  apply IH; [|done]. intros p' Hp'. apply Hf. by right.
Qed.

Lemma linked_dom h start ps js p : linked h start ps js -> p ∈ ps -> is_Some (h !! p).
Proof.
  revert start js. induction ps as [|p0 ps IH]; intros start [|j js]; cbn; try done.
  - by intros _ ?%elem_of_nil.
  - intros [-> (n & Hp & Hl)] [->|Hin]%elem_of_cons; [by rewrite Hp|by eapply IH].
Qed.

Lemma linked_snoc h start ps js p j :
  NoDup ps -> p ∉ ps -> ps ≠ [] -> linked h start ps js -> h !! p = Some (mkCell _ j None) ->
  linked (match last ps with Some t => alter (set_next (Some p)) t h | None => h end)
    start (ps ++ [p]) (js ++ [j]).
Proof.
  revert start js. induction ps as [|p0 ps IH]; intros start [|j0 js] Hnd Hn Hne; cbn; try done.
  intros [-> (n & Hp0 & Hl)] Hp. apply NoDup_cons in Hnd as [Hn0 Hnd].
  apply not_elem_of_cons in Hn as [Hpp0 Hn]. split; [done|]. destruct ps as [|p1 ps].
  - destruct js; [|done]. cbn in Hl. subst n. exists (Some p). cbn. split.
    + by rewrite lookup_alter_eq, Hp0.
    + split; [done|]. exists None. split; [|done]. by rewrite lookup_alter_ne.
  - exists n. specialize (IH n js Hnd Hn). change (last (p0 :: p1 :: ps)) with (last (p1 :: ps)).
    assert (Hneq : p1 :: ps ≠ []) by done. specialize (IH Hneq Hl Hp).
    destruct (last (p1 :: ps)) as [t|] eqn:Et; [|by apply last_None in Et].
    split; [|exact IH]. rewrite lookup_alter_ne; [done|].
    intros <-. apply Hn0. apply last_Some in Et as [l' ->]. set_solver.
Qed.

Lemma mark_loop_linked id h start ps js fuel :
  NoDup ps -> linked h start ps js -> (length ps <= fuel)%nat ->
  linked (mark_loop fuel id start h) start ps (mark_job id <$> js) /\
  framed h (mark_loop fuel id start h) ps.
Proof.
  revert h start js fuel. induction ps as [|p ps IH]; intros h start [|j js] fuel Hnd; cbn; try done.
  - intros -> _. by destruct fuel.
  - intros [-> (n & Hp & Hl)] Hf. apply NoDup_cons in Hnd as [Hn Hnd].
    destruct fuel as [|fuel]; [cbn in Hf; lia|]. cbn [mark_loop]. rewrite Hp. cbn [mbind option_bind cell_next].
    assert (Hl' : linked (alter (set_job (mark_job id)) p h) n ps js).
    { eapply linked_ext; [|exact Hl]. intros p' Hp'. rewrite lookup_alter_ne; [done|]. by intros ->. }
    destruct (IH _ _ _ fuel Hnd Hl' ltac:(cbn in Hf; lia)) as [H1 H2]. split.
    + split; [done|]. exists n. split; [|exact H1].
      rewrite H2 by done. by rewrite lookup_alter_eq, Hp.
    + intros p' [Hne Hp']%not_elem_of_cons. rewrite H2 by done. by rewrite lookup_alter_ne.
Qed.

Lemma linked_length h start ps js : NoDup ps -> linked h start ps js -> (length ps <= size h)%nat.
Proof.
  intros Hnd Hl. rewrite <- size_dom, <- (size_list_to_set (C := gset nat)) by done.
  apply subseteq_size. intros p Hp%elem_of_list_to_set. apply elem_of_dom. by eapply linked_dom.
Qed.
End JobQueue.

(** ** Properties *)

(** C40: The linked list is the queue the scheduler assumes.  From a list that
    holds the jobs of an abstract FIFO: pushing a fresh cell appends its job;
    popping yields the first job and leaves the rest, sleeps exactly when the
    queue is empty and open, and reports the end exactly when it is empty and
    closed; closing only closes; and marking an id cancels exactly the queued
    requests that carry it, in place.  Cells outside the list never change. *)
Theorem job_queue_refines `{Yyjson} q h ps a :
  represents q h ps a ->
  (forall p j n, p ∉ ps -> h !! p = Some (mkCell _ j n) ->
     let (q', h') := job_queue_push q h p in
     represents q' h' (ps ++ [p]) (fifo_push j a) /\ framed h h' (ps ++ [p])) /\
  (let (r, q') := job_queue_pop q h in
   match r with
   | Wait => fifo_pop a = (Wait, a) /\ q' = q
   | Drained => fifo_pop a = (Drained, a) /\ q' = q
   | Popped p => exists j n ps' a', h !! p = Some (mkCell _ j n) /\ ps = p :: ps' /\
       fifo_pop a = (Popped j, a') /\ represents q' h ps' a'
   end) /\
  represents (job_queue_close q) h ps (fifo_close a) /\
  (forall id, represents q (job_queue_mark_cancelled_by_id q h id) ps (fifo_mark id a) /\
     framed h (job_queue_mark_cancelled_by_id q h id) ps).
Proof.
  destruct a as [js cl]. intros (Hnd & Hl & Ht & Hc). cbn in *. split_and!.
  - intros p j n Hp Hh. unfold job_queue_push. rewrite Ht.
    assert (Hl1 : linked (alter (set_next None) p h) (q_head q) ps js).
    { eapply linked_ext; [|exact Hl]. intros p' Hp'. rewrite lookup_alter_ne; [done|]. by intros ->. }
    assert (Hnd' : NoDup (ps ++ [p])).
    { apply NoDup_app. split_and!; [done| |apply NoDup_singleton]. by intros x Hx ->%list_elem_of_singleton. }
    destruct (last ps) as [t|] eqn:El.
    + split.
      * unfold represents. cbn. split_and!; [done| |by rewrite last_snoc|done].
        pose proof (linked_snoc (alter (set_next None) p h) (q_head q) ps js p j Hnd Hp) as Hs. rewrite El in Hs.
        apply Hs; [by intros ->|done|]. by rewrite lookup_alter_eq, Hh.
      * apply last_Some in El as [l' ->].
        intros p' Hp'. assert (t ≠ p' /\ p ≠ p') as [? ?] by (split; intros ->; set_solver).
        by rewrite !lookup_alter_ne.
    + apply last_None in El as ->. destruct js; [|done]. split.
      * split; [done|]. split; [|done]. cbn. split; [done|].
        exists None. split; [by rewrite lookup_alter_eq, Hh|done].
      * intros p' Hp'. rewrite lookup_alter_ne; [done|]. intros ->. set_solver.
  - unfold job_queue_pop, fifo_pop. cbn. destruct ps as [|p ps], js as [|j js]; try done.
    + cbn in Hl. rewrite Hl, Hc. by destruct cl.
    + destruct Hl as [-> (n & Hh & Hl)]. exists j, n, ps, (mkFifo js cl). split_and!; [done..|].
      rewrite Hh. cbn. apply NoDup_cons in Hnd as [_ Hnd]. unfold represents. cbn.
      split_and!; [done|done| |done]. destruct ps as [|p1 ps], js as [|j1 js]; try done.
      * cbn in Hl. by subst n.
      * destruct Hl as [-> _]. by rewrite Ht.
  - unfold represents. by cbn.
  - intros id. destruct (mark_loop_linked id h (q_head q) ps js (size h) Hnd Hl) as [H1 H2].
    { by eapply linked_length. }
    by split.
Qed.

(** Two queued requests and a third cell to push. *)
Definition sample_job (n : nat) (id : Z) : Job := mkJob sample_yyjson n (JObj []) false false true id None.
Definition sample_heap : gmap nat cell :=
  {[1%nat := mkCell _ (sample_job 1 7) (Some 2%nat); 2%nat := mkCell _ (sample_job 2 8) None;
    3%nat := mkCell _ (sample_job 3 9) (Some 1%nat)]}.
Definition sample_queue : JobQueue := mkQueue (Some 1%nat) (Some 2%nat) false.
Definition sample_fifo : queue := mkFifo [sample_job 1 7; sample_job 2 8] false.

Lemma sample_represents : represents sample_queue sample_heap [1; 2]%nat sample_fifo.
Proof.
  split; [|split; [|done]].
  - apply NoDup_cons. split; [by intros ?%list_elem_of_singleton|apply NoDup_singleton].
  - split; [done|]. exists (Some 2%nat). split; [done|]. split; [done|]. by exists None.
Qed.

Lemma job_queue_refines_witness :
  let (q', h') := job_queue_push sample_queue sample_heap 3 in
  represents q' h' [1; 2; 3]%nat (fifo_push (sample_job 3 9) sample_fifo) /\
  represents sample_queue (job_queue_mark_cancelled_by_id sample_queue sample_heap 8) [1; 2]%nat
    (mkFifo [sample_job 1 7; set_cancelled (sample_job 2 8)] false).
Proof.
  destruct (job_queue_refines sample_queue sample_heap [1; 2]%nat sample_fifo sample_represents)
    as (Hpush & _ & _ & Hmark).
  specialize (Hpush 3%nat (sample_job 3 9) (Some 1%nat) ltac:(set_solver) eq_refl).
  destruct (job_queue_push sample_queue sample_heap 3) as [q' h'] eqn:E.
  split; [exact (proj1 Hpush)|]. exact (proj1 (Hmark 8%Z)).
Defined.
