(* ===== verification/Server.v ===== *)
(** * [server.c] and [threadpool.c]: dispatching messages.

    One reader thread classifies the incoming messages and queues them; one
    coordinator takes them in arrival order, runs the notifications and the
    lifecycle requests itself and pins a query context for the rest; four
    workers answer the queries.  The threads are a step relation: each operation
    on a queue (under its mutex) and each section under [docs_mutex] is one
    step.  The query handlers are an interface: what they compute from the
    pinned context, which is all the scheduler needs to know about them. *)

From S2P Require Import Prelude Syntax Store Workspace Assembly Rpc TextSync Revalidate Lifecycle QueryContext JobQueue.

(** ** Tactics *)

(** The jobs of both states, as the same multiset. *)
Ltac same_jobs := repeat (rewrite fmap_app || rewrite fmap_cons); cbn; solve_Permutation.

Ltac each_job :=
  repeat match goal with
         | H : Forall _ (_ ++ _) |- _ => apply Forall_app in H as [? ?]
         | H : Forall _ (_ :: _) |- _ => apply Forall_cons in H as [? ?]
         | |- Forall _ (_ ++ _) => apply Forall_app; split
         | |- Forall _ (_ :: _) => apply Forall_cons; split
         end; try done.

(** Membership in a state's jobs, as a disjunction. *)
Ltac in_jobs :=
  repeat (rewrite elem_of_app in * || rewrite elem_of_cons in *); tauto.

(** ** The method table *)

Inductive inline_method : Set := Initialize | Shutdown.

Inductive query_method : Set :=
  | DocumentSymbol | FoldingRange | CodeLens | Hover | SignatureHelp | References
  | DocumentHighlight | GotoDefinition | Completion | SemanticTokensFull
  | SemanticTokensFullDelta | WorkspaceSymbol.

(** [method_kind] with the handler of the row. *)
Inductive method_kind : Set :=
  | METHOD_NOTIFICATION (notify : notification)
  | METHOD_INLINE (query : inline_method)
  | METHOD_QUERY (query : query_method).

Record method_entry : Set := mkEntry { me_method : string; me_kind : method_kind; want_all_docs : bool }.

Definition methods : list method_entry :=
  [ mkEntry "initialized" (METHOD_NOTIFICATION Initialized) false;
    mkEntry "textDocument/didOpen" (METHOD_NOTIFICATION DidOpen) false;
    mkEntry "textDocument/didChange" (METHOD_NOTIFICATION DidChange) false;
    mkEntry "textDocument/didClose" (METHOD_NOTIFICATION DidClose) false;
    mkEntry "workspace/didChangeWatchedFiles" (METHOD_NOTIFICATION DidChangeWatchedFiles) false;
    mkEntry "workspace/didRenameFiles" (METHOD_NOTIFICATION DidRenameFiles) false;
    mkEntry "initialize" (METHOD_INLINE Initialize) false;
    mkEntry "shutdown" (METHOD_INLINE Shutdown) false;
    mkEntry "textDocument/documentSymbol" (METHOD_QUERY DocumentSymbol) false;
    mkEntry "textDocument/foldingRange" (METHOD_QUERY FoldingRange) false;
    mkEntry "textDocument/codeLens" (METHOD_QUERY CodeLens) false;
    mkEntry "textDocument/hover" (METHOD_QUERY Hover) false;
    mkEntry "textDocument/signatureHelp" (METHOD_QUERY SignatureHelp) false;
    mkEntry "textDocument/references" (METHOD_QUERY References) false;
    mkEntry "textDocument/documentHighlight" (METHOD_QUERY DocumentHighlight) false;
    mkEntry "textDocument/definition" (METHOD_QUERY GotoDefinition) false;
    mkEntry "textDocument/completion" (METHOD_QUERY Completion) false;
    mkEntry "textDocument/semanticTokens/full" (METHOD_QUERY SemanticTokensFull) false;
    mkEntry "textDocument/semanticTokens/full/delta" (METHOD_QUERY SemanticTokensFullDelta) false;
    mkEntry "workspace/symbol" (METHOD_QUERY WorkspaceSymbol) true ]%string.

Definition method_lookup (m : string) : option method_entry :=
  snd <$> list_find (fun e => me_method e = m) methods.

(** ** The handlers' interface *)

(** A query handler answers with [make_response] of a result computed from the
    request's parameters and the pinned context alone; the two inline requests
    answer constants.  [response_text] is [yyjson_mut_write] on a response: the
    text, or NULL when the library cannot write one (a string that is not
    UTF-8). *)
Class QueryHandlers `{Yyjson} := mkHandlers {
  result : Type;
  json_null : result;
  capabilities : result;
  query_result : query_method -> option yyjson_val -> query_context -> option query_doc -> result;
  response_text : response result -> option string
}.

Section Dispatch.
Context `{Yyjson} `{!QueryHandlers} `{LW : Lawful}.

Abbreviation reply := (response result).

Definition job_method (root : yyjson_val) : string := default EmptyString (json_str (Some root) "method").
Definition job_params (root : yyjson_val) : option yyjson_val := yyjson_obj_get root "params".
Definition id_item (root : yyjson_val) : option yyjson_val := yyjson_obj_get root "id".

Definition server_dispatch_notification `{Env} `{!CcEnv} (job : Job) (s : server) : server :=
  match method_lookup (job_method (request_doc job)) with
  | Some entry =>
      match me_kind entry with
      | METHOD_NOTIFICATION n => notify n (job_params (request_doc job)) s
      | _ => s
      end
  | None => s
  end.

(** What the client is sent: nothing for a response without a text. *)
Definition send_response (r : reply) : list string :=
  match response_text r with Some text => [text] | None => [] end.

Definition server_dispatch_cancelled (job : Job) : option reply :=
  match id_item (request_doc job) with
  | None => None
  | Some id => Some (make_error_response (Some id) (-32800) "Request cancelled")
  end.

(** The two inline handlers: their effect and their answer. *)
Definition inline_effect (m : inline_method) (params : option yyjson_val) (s : server) : server :=
  match m with Initialize => handle_initialize params s | Shutdown => s end.
Definition inline_result (m : inline_method) : result :=
  match m with Initialize => capabilities | Shutdown => json_null end.

(** [server_coordinate_query]: the inline answer, or the context to attach. *)
Definition server_coordinate_query `{Env} (job : Job) (s : server)
  : server * (reply + query_context) :=
  let root := request_doc job in
  let entry := method_lookup (job_method root) in
  match me_kind <$> entry with
  | Some (METHOD_INLINE m) =>
      (inline_effect m (job_params root) s, inl (make_response (id_item root) (inline_result m)))
  | _ => (s, inr (build_query_context_locked s (request_primary_uri (job_params root))
                    (default false (want_all_docs <$> entry))))
  end.

(** A query handler would get a NULL context for a job without one; the
    coordinator attaches one to every job it hands over ([reachable_inv]), so
    the case is left unanswered here. *)
Definition server_run_query (job : Job) : option reply :=
  let root := request_doc job in
  match me_kind <$> method_lookup (job_method root), context job with
  | Some (METHOD_QUERY q), Some qc =>
      Some (make_response (id_item root) (query_result q (job_params root) qc (query_context_primary qc)))
  | Some (METHOD_QUERY q), None => None
  | _, _ =>
      match id_item root with
      | Some id => Some (make_response (Some id) json_null)
      | None => None
      end
  end.

(** The job [server_process] builds from a message. *)
Definition make_job (n : nat) (root : yyjson_val) : Job :=
  let id := id_item root ≫= get_int in
  mkJob _ n root
    (match me_kind <$> method_lookup (job_method root) with
     | Some (METHOD_NOTIFICATION _) => true
     | _ => false
     end)
    false (bool_decide (is_Some id)) (default 0%Z id) None.

(** ** The threads *)

Definition NUM_QUERY_WORKERS : nat := 4.

(** [main]'s loop: between messages, between the two marks of
    [threadpool_cancel_by_id], or in [threadpool_stop]. *)
Inductive reader_state : Set := Reading | Cancelling (id : Z) | Stopping.

(** The coordinator: about to pop, holding a popped job, about to push a query
    whose context it has attached, or returned. *)
Inductive coordinator_state : Type :=
  | Coord_idle | Coord_popped (job : Job) | Coord_handoff (job : Job) | Coord_exited.

Inductive worker_state : Type := Worker_idle | Worker_popped (job : Job) | Worker_exited.

(** The shared state.  [pl_processed] and [pl_freed] are history: the jobs the
    coordinator has dispatched, in order, and the jobs freed so far. *)
Record pool : Type := mkPool {
  pl_server : server;
  pl_reader : reader_state;
  pl_coordinator : coordinator_state;
  pl_workers : list worker_state;
  work_queue : queue;
  request_queue : queue;
  pl_received : nat;
  pl_sent : list string;
  pl_processed : list Job;
  pl_freed : list Job
}.

(** [server_init] and [threadpool_start]. *)
Definition threadpool_start : pool :=
  mkPool server_init Reading Coord_idle (replicate NUM_QUERY_WORKERS Worker_idle)
    fifo_empty fifo_empty 0 [] [] [].

Definition with_work (q : queue) (p : pool) : pool :=
  mkPool (pl_server p) (pl_reader p) (pl_coordinator p) (pl_workers p) q (request_queue p)
    (pl_received p) (pl_sent p) (pl_processed p) (pl_freed p).
Definition with_request (q : queue) (p : pool) : pool :=
  mkPool (pl_server p) (pl_reader p) (pl_coordinator p) (pl_workers p) (work_queue p) q
    (pl_received p) (pl_sent p) (pl_processed p) (pl_freed p).
Definition with_reader (r : reader_state) (p : pool) : pool :=
  mkPool (pl_server p) r (pl_coordinator p) (pl_workers p) (work_queue p) (request_queue p)
    (pl_received p) (pl_sent p) (pl_processed p) (pl_freed p).
Definition with_coordinator (c : coordinator_state) (p : pool) : pool :=
  mkPool (pl_server p) (pl_reader p) c (pl_workers p) (work_queue p) (request_queue p)
    (pl_received p) (pl_sent p) (pl_processed p) (pl_freed p).
Definition with_worker (i : nat) (w : worker_state) (p : pool) : pool :=
  mkPool (pl_server p) (pl_reader p) (pl_coordinator p) (<[i := w]> (pl_workers p))
    (work_queue p) (request_queue p) (pl_received p) (pl_sent p) (pl_processed p) (pl_freed p).

(** What is sent for a job: nothing when it has no response. *)
Definition messages_of (r : option reply) : list string := from_option send_response [] r.

(** [send_response], when there is one, then [job_free]. *)
Definition answer (r : option reply) (job : Job) (p : pool) : pool :=
  mkPool (pl_server p) (pl_reader p) (pl_coordinator p) (pl_workers p) (work_queue p) (request_queue p)
    (pl_received p) (pl_sent p ++ messages_of r) (pl_processed p) (pl_freed p ++ [job]).

(** A job's turn on the coordinator is over: its effect on the documents. *)
Definition dispatched (job : Job) (s : server) (p : pool) : pool :=
  mkPool s (pl_reader p) (pl_coordinator p) (pl_workers p) (work_queue p) (request_queue p)
    (pl_received p) (pl_sent p) (pl_processed p ++ [job]) (pl_freed p).

(** [threadpool_enqueue_job]. *)
Definition threadpool_enqueue_job (root : yyjson_val) (p : pool) : pool :=
  mkPool (pl_server p) (pl_reader p) (pl_coordinator p) (pl_workers p)
    (fifo_push (make_job (pl_received p) root) (work_queue p)) (request_queue p)
    (S (pl_received p)) (pl_sent p) (pl_processed p) (pl_freed p).

(** [threadpool_stop], up to the joins. *)
Definition threadpool_stop (p : pool) : pool :=
  with_reader Stopping (with_work (fifo_close (work_queue p)) p).

(** [server_process]: [None] is a message that is not JSON. *)
Definition server_process (root : option yyjson_val) (p : pool) : pool :=
  match root with
  | None => p
  | Some root =>
      let m := job_method root in
      if bool_decide (m = "exit"%string) then threadpool_stop p
      else if bool_decide (m = "$/cancelRequest"%string) then
        match job_params root ≫= (fun ps => yyjson_obj_get ps "id" ≫= get_int) with
        | Some id => with_reader (Cancelling id) (with_work (fifo_mark id (work_queue p)) p)
        | None => p
        end
      else threadpool_enqueue_job root p
  end.

(** The second half of [threadpool_cancel_by_id]. *)
Definition finish_cancel (id : Z) (p : pool) : pool :=
  with_reader Reading (with_request (fifo_mark id (request_queue p)) p).

(** One step of [coordinator]; [None] while it waits and after it returned. *)
Definition coordinator_step `{Env} `{!CcEnv} (p : pool) : option pool :=
  match pl_coordinator p with
  | Coord_idle =>
      match fifo_pop (work_queue p) with
      | (Popped job, q) => Some (with_coordinator (Coord_popped job) (with_work q p))
      | (Drained, _) =>
          Some (with_coordinator Coord_exited (with_request (fifo_close (request_queue p)) p))
      | (Wait, _) => None
      end
  | Coord_popped job =>
      if is_notification job then
        Some (answer None job (dispatched job (server_dispatch_notification job (pl_server p))
               (with_coordinator Coord_idle p)))
      else if is_cancelled job then
        Some (answer (server_dispatch_cancelled job) job (dispatched job (pl_server p)
               (with_coordinator Coord_idle p)))
      else
        match server_coordinate_query job (pl_server p) with
        | (s', inl r) => Some (answer (Some r) job (dispatched job s' (with_coordinator Coord_idle p)))
        | (s', inr qc) => Some (dispatched job s' (with_coordinator (Coord_handoff (set_context qc job)) p))
        end
  | Coord_handoff job =>
      Some (with_coordinator Coord_idle (with_request (fifo_push job (request_queue p)) p))
  | Coord_exited => None
  end.

(** One step of the [i]-th [query_worker]. *)
Definition query_worker_step (i : nat) (p : pool) : option pool :=
  match pl_workers p !! i with
  | Some Worker_idle =>
      match fifo_pop (request_queue p) with
      | (Popped job, q) => Some (with_worker i (Worker_popped job) (with_request q p))
      | (Drained, _) => Some (with_worker i Worker_exited p)
      | (Wait, _) => None
      end
  | Some (Worker_popped job) =>
      Some (answer (if is_cancelled job then server_dispatch_cancelled job else server_run_query job) job
             (with_worker i Worker_idle p))
  | _ => None
  end.

(** A step of the pool's own threads, under whatever files and parser there
    are by then. *)
Inductive thread_step (p : pool) : pool -> Prop :=
  | step_coordinator (E : Env) (C : CcEnv) p' : lawful E -> coordinator_step p = Some p' -> thread_step p p'
  | step_worker i p' : query_worker_step i p = Some p' -> thread_step p p'.

Inductive pool_step (p : pool) : pool -> Prop :=
  | step_message root : pl_reader p = Reading -> pool_step p (server_process root p)
  | step_finish_cancel id : pl_reader p = Cancelling id -> pool_step p (finish_cancel id p)
  | step_eof : pl_reader p = Reading -> pool_step p (threadpool_stop p)
  | step_thread p' : thread_step p p' -> pool_step p p'.

Definition reachable (p : pool) : Prop := rtc pool_step threadpool_start p.

(** ** History *)

(** What a job's turn on the coordinator does to the documents. *)
Definition effect `{Env} `{!CcEnv} (job : Job) (s : server) : server :=
  if is_notification job then server_dispatch_notification job s
  else if is_cancelled job then s else (server_coordinate_query job s).1.

(** Running jobs one after the other from startup, whatever the files and the
    parser are at each of them. *)
Inductive runs : list Job -> server -> Prop :=
  | runs_nil : runs [] server_init
  | runs_snoc (E : Env) (C : CcEnv) l job s : lawful E -> runs l s -> runs (l ++ [job]) (effect job s).

Definition is_inline (job : Job) : Prop :=
  exists m, me_kind <$> method_lookup (job_method (request_doc job)) = Some (METHOD_INLINE m).

(** The response to a job by the time it is freed. *)
Definition reply_of (job : Job) : option reply :=
  if is_notification job then None
  else if is_cancelled job then server_dispatch_cancelled job
  else
    let root := request_doc job in
    match me_kind <$> method_lookup (job_method root) with
    | Some (METHOD_INLINE m) => Some (make_response (id_item root) (inline_result m))
    | _ => server_run_query job
    end.

(** What the client is sent about it. *)
Definition sent_for (job : Job) : list string := messages_of (reply_of job).

(** ** Where the jobs are *)

Definition popped_jobs (c : coordinator_state) : list Job :=
  match c with Coord_popped j => [j] | _ => [] end.
Definition handoff_jobs (c : coordinator_state) : list Job :=
  match c with Coord_handoff j => [j] | _ => [] end.
Definition worker_jobs (w : worker_state) : list Job :=
  match w with Worker_popped j => [j] | _ => [] end.

(** Jobs that have been handed, or are being handed, to the workers. *)
Definition handed (p : pool) : list Job :=
  handoff_jobs (pl_coordinator p) ++ fifo (request_queue p) ++ (pl_workers p ≫= worker_jobs).

(** Jobs the coordinator has not dispatched yet. *)
Definition waiting (p : pool) : list Job := popped_jobs (pl_coordinator p) ++ fifo (work_queue p).

Definition all_jobs (p : pool) : list Job := waiting p ++ handed p ++ pl_freed p.

(** The fields [server_process] computed from the message never change. *)
Definition genuine (j : Job) : Prop :=
  let j0 := make_job (job_no j) (request_doc j) in
  is_notification j = is_notification j0 /\ has_id j = has_id j0 /\ job_id j = job_id j0.

(** The context of a query is the one the documents gave after exactly the
    messages received before it. *)
Definition pinned (ps : list Job) (j : Job) : Prop :=
  is_notification j = false /\ ~ is_inline j /\ (job_no j < length ps)%nat /\
  exists (E : Env) s, runs (take (job_no j) ps) s /\
    context j = Some (build_query_context_locked s (request_primary_uri (job_params (request_doc j)))
      (default false (want_all_docs <$> method_lookup (job_method (request_doc j))))).

Definition settled (ps : list Job) (j : Job) : Prop :=
  is_notification j = true \/ is_cancelled j = true \/ is_inline j \/ pinned ps j.

Record pool_ok (p : pool) : Prop := mkPoolOk {
  ok_order : job_no <$> pl_processed p ++ waiting p = seq 0 (pl_received p);
  ok_once : job_no <$> all_jobs p ≡ₚ seq 0 (pl_received p);
  ok_run : runs (pl_processed p) (pl_server p);
  ok_sent : pl_sent p = pl_freed p ≫= sent_for;
  ok_genuine : Forall genuine (all_jobs p);
  ok_pinned : Forall (pinned (pl_processed p)) (handed p);
  ok_settled : Forall (settled (pl_processed p)) (pl_freed p)
}.

(** The order of the shutdown. *)
Record shutdown_ok (p : pool) : Prop := mkShutdownOk {
  ok_reader : pl_reader p = Stopping <-> fifo_closed (work_queue p) = true;
  ok_coordinator : pl_coordinator p = Coord_exited <-> fifo_closed (request_queue p) = true;
  ok_drained : pl_coordinator p = Coord_exited -> fifo_closed (work_queue p) = true /\ fifo (work_queue p) = [];
  ok_workers : Worker_exited ∈ pl_workers p -> fifo_closed (request_queue p) = true /\ fifo (request_queue p) = [];
  ok_count : length (pl_workers p) = NUM_QUERY_WORKERS
}.

(** ** Facts *)

Lemma mark_job_fields id j :
  job_no (mark_job id j) = job_no j /\ request_doc (mark_job id j) = request_doc j /\
  is_notification (mark_job id j) = is_notification j /\ has_id (mark_job id j) = has_id j /\
  job_id (mark_job id j) = job_id j /\ context (mark_job id j) = context j.
Proof. unfold mark_job. by destruct (cancel_matches id j). Qed.

Lemma mark_job_nos id (js : list Job) : job_no <$> (mark_job id <$> js) = job_no <$> js.
Proof. rewrite <- list_fmap_compose. apply list_fmap_ext. intros ? j _. apply mark_job_fields. Qed.

Lemma genuine_mark id j : genuine j -> genuine (mark_job id j).
Proof. unfold genuine. destruct (mark_job_fields id j) as (-> & -> & -> & -> & -> & _). done. Qed.

Lemma pinned_mark ps id j : pinned ps j -> pinned ps (mark_job id j).
Proof.
  unfold pinned, is_inline. destruct (mark_job_fields id j) as (-> & -> & -> & _ & _ & ->). done.
Qed.

Lemma pinned_snoc ps x j : pinned ps j -> pinned (ps ++ [x]) j.
Proof.
  intros (Hn & Hi & Hl & E & s & Hr & Hc). split_and!; [done..|rewrite length_app; cbn; lia|].
  exists E, s. split; [|done]. by rewrite take_app_le by lia.
Qed.

Lemma settled_snoc ps x j : settled ps j -> settled (ps ++ [x]) j.
Proof. unfold settled. intros [|[|[|?%(pinned_snoc _ x)]]]; tauto. Qed.

(** Replacing one worker's state. *)
Lemma worker_update ws i w w' :
  ws !! i = Some w ->
  exists rest, (ws ≫= worker_jobs) ≡ₚ worker_jobs w ++ rest /\
               (<[i := w']> ws ≫= worker_jobs) ≡ₚ worker_jobs w' ++ rest.
Proof.
  intros Hw. exists ((take i ws ++ drop (S i) ws) ≫= worker_jobs).
  apply take_drop_middle in Hw as Hs. assert (Hlt : (i < length ws)%nat) by by eapply lookup_lt_Some.
  split.
  - rewrite <- Hs at 1. rewrite !bind_app, bind_cons. solve_Permutation.
  - rewrite insert_take_drop by done. rewrite !bind_app, bind_cons. solve_Permutation.
Qed.

(** ** Each step keeps the history consistent *)

(** Both halves of a cancellation rewrite one queue in place. *)
Lemma ok_mark_work id r p :
  pool_ok p -> pool_ok (with_reader r (with_work (fifo_mark id (work_queue p)) p)).
Proof.
  intros [O1 O2 O3 O4 O5 O6 O7]. unfold all_jobs, waiting, handed in *.
  constructor; cbn in *; try done; unfold all_jobs, waiting, handed; cbn.
  - by rewrite !fmap_app, mark_job_nos, <- !fmap_app.
  - by rewrite !fmap_app, mark_job_nos, <- !fmap_app.
  - rewrite !Forall_app in *. destruct O5 as [[Hp Hw] Hr]. split_and!; try tauto.
    apply Forall_fmap. eapply Forall_impl; [exact Hw|]. intros j. apply genuine_mark.
Qed.

Lemma ok_mark_request id p : pool_ok p -> pool_ok (finish_cancel id p).
Proof.
  intros [O1 O2 O3 O4 O5 O6 O7]. unfold all_jobs, waiting, handed in *.
  constructor; cbn in *; try done; unfold all_jobs, waiting, handed; cbn.
  - by rewrite !fmap_app, mark_job_nos, <- !fmap_app.
  - rewrite !Forall_app in *. destruct O5 as [Hw [[Hh [Hr Hk]] Hf]]. split_and!; try tauto.
    apply Forall_fmap. eapply Forall_impl; [exact Hr|]. intros j. apply genuine_mark.
  - rewrite !Forall_app in *. destruct O6 as [Hh [Hr Hk]]. split_and!; try tauto.
    apply Forall_fmap. eapply Forall_impl; [exact Hr|]. intros j. apply pinned_mark.
Qed.

Lemma ok_stop p : pool_ok p -> pool_ok (threadpool_stop p).
Proof. intros []. by constructor. Qed.

Lemma ok_enqueue root p : pool_ok p -> pool_ok (threadpool_enqueue_job root p).
Proof.
  intros [O1 O2 O3 O4 O5 O6 O7]. unfold all_jobs, waiting, handed in *.
  constructor; cbn -[seq] in *; try done; unfold all_jobs, waiting, handed; cbn -[seq].
  - rewrite seq_S, <- O1, !fmap_app. cbn. by rewrite <- !(assoc_L (++)).
  - rewrite seq_S, <- O2. same_jobs.
  - each_job.
Qed.

Lemma ok_pop job q p :
  pool_ok p -> pl_coordinator p = Coord_idle -> fifo_pop (work_queue p) = (Popped job, q) ->
  pool_ok (with_coordinator (Coord_popped job) (with_work q p)).
Proof.
  intros [O1 O2 O3 O4 O5 O6 O7] Hc Hq. unfold fifo_pop in Hq.
  destruct (fifo (work_queue p)) as [|j js] eqn:Ej; [by destruct (fifo_closed _)|]. injection Hq as <- <-.
  unfold all_jobs, waiting, handed in *. rewrite Hc, Ej in *.
  by constructor; cbn in *.
Qed.

Lemma ok_exit p :
  pool_ok p -> pl_coordinator p = Coord_idle ->
  pool_ok (with_coordinator Coord_exited (with_request (fifo_close (request_queue p)) p)).
Proof.
  intros [O1 O2 O3 O4 O5 O6 O7] Hc. unfold all_jobs, waiting, handed in *. rewrite Hc in *. by constructor.
Qed.

(** The number of the popped job is the number of jobs dispatched. *)
Lemma popped_number p job :
  pool_ok p -> pl_coordinator p = Coord_popped job -> job_no job = length (pl_processed p).
Proof.
  intros [O1 _ _ _ _ _ _] Hc. unfold waiting in O1. rewrite Hc in O1. cbn in O1.
  assert (Hl : (job_no <$> pl_processed p ++ job :: fifo (work_queue p)) !! length (pl_processed p)
            = Some (job_no job)).
  { by rewrite list_lookup_fmap, list_lookup_middle by done. }
  rewrite O1 in Hl. by apply lookup_seq in Hl as [-> _].
Qed.

(** The coordinator finishes a job itself. *)
Lemma ok_dispatch (E : Env) (C : CcEnv) job r s' p :
  lawful E -> pool_ok p -> pl_coordinator p = Coord_popped job ->
  s' = effect job (pl_server p) -> r = reply_of job ->
  is_notification job = true \/ is_cancelled job = true \/ is_inline job ->
  pool_ok (answer r job (dispatched job s' (with_coordinator Coord_idle p))).
Proof.
  intros HE [O1 O2 O3 O4 O5 O6 O7] Hc -> -> Hs. unfold all_jobs, waiting, handed in *. rewrite Hc in *.
  constructor; cbn in *; try done; unfold all_jobs, waiting, handed; cbn.
  - by rewrite <- (assoc_L (++)).
  - rewrite <- O2. same_jobs.
  - by apply runs_snoc.
  - rewrite bind_app, O4. cbn. by rewrite app_nil_r.
  - each_job.
  - eapply Forall_impl; [exact O6|]. intros j. apply pinned_snoc.
  - apply Forall_app. split; [|apply Forall_singleton; unfold settled; tauto].
    eapply Forall_impl; [exact O7|]. intros j. apply settled_snoc.
Qed.

(** The coordinator pins a context. *)
Lemma ok_pin (E : Env) (C : CcEnv) job qc s' p :
  lawful E -> pool_ok p -> pl_coordinator p = Coord_popped job ->
  is_notification job = false -> is_cancelled job = false ->
  server_coordinate_query job (pl_server p) = (s', inr qc) ->
  pool_ok (dispatched job s' (with_coordinator (Coord_handoff (set_context qc job)) p)).
Proof.
  intros HE Hok Hc Hn Hx Hq. apply popped_number in Hc as Hno; [|done].
  assert (He : s' = effect job (pl_server p)) by (unfold effect; by rewrite Hn, Hx, Hq).
  unfold server_coordinate_query in Hq.
  assert (Hi : ~ is_inline job) by (intros [m Hm]; by rewrite Hm in Hq).
  assert (Hqc : s' = pl_server p /\ qc = build_query_context_locked (pl_server p)
    (request_primary_uri (job_params (request_doc job)))
    (default false (want_all_docs <$> method_lookup (job_method (request_doc job))))).
  { destruct (me_kind <$> method_lookup (job_method (request_doc job))) as [[]|] eqn:Em; by injection Hq. }
  destruct Hqc as [Hs ->]. destruct Hok as [O1 O2 O3 O4 O5 O6 O7].
  unfold all_jobs, waiting, handed in *. rewrite Hc in *.
  constructor; cbn in *; try done; unfold all_jobs, waiting, handed; cbn.
  - by rewrite <- (assoc_L (++)).
  - rewrite <- O2. same_jobs.
  - rewrite He. by apply runs_snoc.
  - each_job.
  - apply Forall_cons. split.
    + split_and!; [done|exact Hi|cbn; rewrite length_app; cbn; lia|]. exists E, (pl_server p).
      cbn [job_no set_context]. rewrite Hno, take_app_length. done.
    + eapply Forall_impl; [exact O6|]. intros j. apply pinned_snoc.
  - eapply Forall_impl; [exact O7|]. intros j. apply settled_snoc.
Qed.

Lemma ok_push job p :
  pool_ok p -> pl_coordinator p = Coord_handoff job ->
  pool_ok (with_coordinator Coord_idle (with_request (fifo_push job (request_queue p)) p)).
Proof.
  intros [O1 O2 O3 O4 O5 O6 O7] Hc. unfold all_jobs, waiting, handed in *. rewrite Hc in *.
  constructor; cbn in *; try done; unfold all_jobs, waiting, handed; cbn.
  - rewrite <- O2. same_jobs.
  - each_job.
  - each_job.
Qed.

Lemma ok_worker_pop i job q p :
  pool_ok p -> pl_workers p !! i = Some Worker_idle -> fifo_pop (request_queue p) = (Popped job, q) ->
  pool_ok (with_worker i (Worker_popped job) (with_request q p)).
Proof.
  intros [O1 O2 O3 O4 O5 O6 O7] Hw Hq. unfold fifo_pop in Hq.
  destruct (fifo (request_queue p)) as [|j js] eqn:Ej; [by destruct (fifo_closed _)|]. injection Hq as <- <-.
  destruct (worker_update _ _ _ (Worker_popped j) Hw) as (rest & H1 & H2). cbn in H1.
  unfold all_jobs, waiting, handed in *. rewrite Ej, H1 in *.
  constructor; cbn in *; try done; unfold all_jobs, waiting, handed; cbn; rewrite H2; cbn.
  - rewrite <- O2. same_jobs.
  - each_job.
  - each_job.
Qed.

Lemma ok_worker_exit i p :
  pool_ok p -> pl_workers p !! i = Some Worker_idle -> pool_ok (with_worker i Worker_exited p).
Proof.
  intros [O1 O2 O3 O4 O5 O6 O7] Hw.
  destruct (worker_update _ _ _ Worker_exited Hw) as (rest & H1 & H2). cbn in H1.
  unfold all_jobs, waiting, handed in *. rewrite H1 in *.
  constructor; cbn in *; try done; unfold all_jobs, waiting, handed; cbn; by rewrite H2.
Qed.

Lemma ok_worker_finish i job p :
  pool_ok p -> pl_workers p !! i = Some (Worker_popped job) ->
  pool_ok (answer (if is_cancelled job then server_dispatch_cancelled job else server_run_query job) job
             (with_worker i Worker_idle p)).
Proof.
  intros [O1 O2 O3 O4 O5 O6 O7] Hw.
  destruct (worker_update _ _ _ Worker_idle Hw) as (rest & H1 & H2). cbn in H1, H2.
  unfold all_jobs, waiting, handed in *. rewrite H1 in *.
  assert (Hp : pinned (pl_processed p) job) by each_job.
  assert (Hr : (if is_cancelled job then server_dispatch_cancelled job else server_run_query job)
               = reply_of job).
  { unfold reply_of. destruct Hp as (-> & Hi & _). destruct (is_cancelled job); [done|].
    destruct (me_kind <$> method_lookup (job_method (request_doc job))) as [[]|] eqn:Em; try done.
    destruct Hi. by eexists. }
  rewrite Hr.
  constructor; cbn in *; try done; unfold all_jobs, waiting, handed; cbn; rewrite ?H2; cbn.
  - rewrite <- O2. same_jobs.
  - rewrite bind_app, O4. cbn. by rewrite app_nil_r.
  - each_job.
  - each_job.
  - each_job. unfold settled. tauto.
Qed.

Lemma ok_thread_step p p' : pool_ok p -> thread_step p p' -> pool_ok p'.
Proof.
  intros Hok [E C p2 HE Hs|i p2 Hs].
  - unfold coordinator_step in Hs. destruct (pl_coordinator p) as [|job|job|] eqn:Ec.
    + destruct (fifo_pop (work_queue p)) as [[| |job] q] eqn:Eq; try done; injection Hs as <-.
      * by apply ok_exit.
      * by eapply ok_pop.
    + destruct (is_notification job) eqn:En; [|destruct (is_cancelled job) eqn:Ex;
        [|destruct (server_coordinate_query job (pl_server p)) as [s' [r|qc]] eqn:Eq]];
        injection Hs as <-.
      * apply (ok_dispatch E C); [done|done|exact Ec| | |auto].
        -- unfold effect. by rewrite En.
        -- unfold reply_of. by rewrite En.
      * apply (ok_dispatch E C); [done|done|exact Ec| | |auto].
        -- unfold effect. by rewrite En, Ex.
        -- unfold reply_of. by rewrite En, Ex.
      * assert (Hi : exists m, me_kind <$> method_lookup (job_method (request_doc job))
                       = Some (METHOD_INLINE m) /\
                     r = make_response (id_item (request_doc job)) (inline_result m)).
        { unfold server_coordinate_query in Eq.
          destruct (me_kind <$> _) as [[|m|]|]; try discriminate. injection Eq as _ <-. by exists m. }
        destruct Hi as (m & Hm & ->). apply (ok_dispatch E C); [done|done|exact Ec| | |].
        -- unfold effect. by rewrite En, Ex, Eq.
        -- unfold reply_of. by rewrite En, Ex, Hm.
        -- right. right. by exists m.
      * by apply (ok_pin E C job qc).
    + injection Hs as <-. by apply ok_push.
    + done.
  - unfold query_worker_step in Hs. destruct (pl_workers p !! i) as [[|job|]|] eqn:Ew; try done.
    + destruct (fifo_pop (request_queue p)) as [[| |job] q] eqn:Eq; try done; injection Hs as <-.
      * by apply ok_worker_exit.
      * by apply ok_worker_pop.
    + injection Hs as <-. by apply ok_worker_finish.
Qed.

Lemma ok_pool_step p p' : pool_ok p -> pool_step p p' -> pool_ok p'.
Proof.
  intros Hok [root Hr|id Hr|Hr|p2 Hs].
  - destruct root as [root|]; [|done]. cbn. case_bool_decide; [by apply ok_stop|].
    case_bool_decide; [|by apply ok_enqueue]. destruct (job_params root ≫= _); [by apply ok_mark_work|done].
  - by apply ok_mark_request.
  - by apply ok_stop.
  - by eapply ok_thread_step.
Qed.

Lemma ok_start : pool_ok threadpool_start.
Proof. by constructor; try constructor. Qed.

Lemma reachable_inv p : reachable p -> pool_ok p.
Proof.
  unfold reachable. intros Hr. remember threadpool_start as p0 eqn:E0.
  assert (H1 : pool_ok p0) by (subst; apply ok_start). clear E0.
  induction Hr as [|a b c Hab _ IH]; [done|]. apply IH. by eapply ok_pool_step.
Qed.

(** ** The shutdown *)

Lemma shutdown_start : shutdown_ok threadpool_start.
Proof.
  constructor; cbn; try done.
  rewrite !elem_of_cons. intros [|[|[|[|[]%elem_of_nil]]]]; done.
Qed.

Lemma shutdown_message root p :
  shutdown_ok p -> pl_reader p = Reading -> shutdown_ok (server_process root p).
Proof.
  intros [S1 S2 S3 S4 S5] Hr. destruct root as [root|]; [|done]. cbn.
  assert (Hopen : fifo_closed (work_queue p) = false).
  { apply not_true_is_false. intros Hc. apply S1 in Hc. congruence. }
  assert (Hc : pl_coordinator p ≠ Coord_exited) by (intros Hx; destruct (S3 Hx); congruence).
  case_bool_decide; [constructor; cbn; try tauto; by intros ?%Hc|].
  case_bool_decide.
  - destruct (job_params root ≫= _); [|done]. constructor; cbn; try tauto.
    rewrite Hopen. split; congruence.
  - constructor; cbn; try tauto.
Qed.

Lemma shutdown_thread p p' : shutdown_ok p -> thread_step p p' -> shutdown_ok p'.
Proof.
  intros [S1 S2 S3 S4 S5] [E C p2 HE Hs|i p2 Hs].
  - unfold coordinator_step in Hs. destruct (pl_coordinator p) as [|job|job|] eqn:Ec.
    + unfold fifo_pop in Hs. destruct (fifo (work_queue p)) as [|job js] eqn:Ej.
      * destruct (fifo_closed (work_queue p)) eqn:Ecl; [|done]. injection Hs as <-.
        constructor; cbn; tauto.
      * injection Hs as <-. constructor; cbn; try done. by rewrite <- S2.
    + assert (Hg : forall c p3, p3 = with_coordinator c p -> c ≠ Coord_exited -> shutdown_ok p3).
      { intros c p3 -> Hc. constructor; cbn; try done. split; [done|]. intros Hx. by apply S2 in Hx. }
      assert (Hd : forall s p3, shutdown_ok p3 -> shutdown_ok (dispatched job s p3))
        by (intros s p3 []; by constructor).
      assert (Ha : forall r p3, shutdown_ok p3 -> shutdown_ok (answer r job p3))
        by (intros r p3 []; by constructor).
      destruct (is_notification job); [|destruct (is_cancelled job);
        [|destruct (server_coordinate_query job (pl_server p)) as [s' [r|qc]]]];
        injection Hs as <-; try apply Ha; apply Hd; by eapply Hg.
    + injection Hs as <-. constructor; cbn; try done.
      * split; [done|]. intros Hx. by apply S2 in Hx.
      * intros Hx. by destruct (S4 Hx) as [?%S2 _].
    + done.
  - assert (Hg : forall w q p3, p3 = with_worker i w (with_request q p) ->
        fifo_closed q = fifo_closed (request_queue p) ->
        (fifo (request_queue p) = [] -> fifo q = []) ->
        (w = Worker_exited -> fifo_closed q = true /\ fifo q = []) -> shutdown_ok p3).
    { intros w q p3 -> Hq Hf Hw. constructor; cbn; rewrite ?Hq; try done; [|by rewrite length_insert].
      intros Hx. apply list_elem_of_lookup in Hx as [k Hk].
      apply list_lookup_insert_Some in Hk as [(_ & -> & _)|[_ Hk]].
      - rewrite <- Hq. by apply Hw.
      - apply list_elem_of_lookup_2, S4 in Hk as [? ?]. auto. }
    unfold query_worker_step in Hs. destruct (pl_workers p !! i) as [[|job|]|] eqn:Ew; try done.
    + unfold fifo_pop in Hs. destruct (fifo (request_queue p)) as [|job js] eqn:Ej.
      * destruct (fifo_closed (request_queue p)) eqn:Ecl; [|done]. injection Hs as <-.
        apply (Hg Worker_exited (request_queue p)); [by destruct p|done|by rewrite Ej|done].
      * injection Hs as <-. apply (Hg (Worker_popped job) (mkFifo js (fifo_closed (request_queue p)))); done.
    + injection Hs as <-.
      assert (Ha : forall r p3, shutdown_ok p3 -> shutdown_ok (answer r job p3)) by (intros r p3 []; by constructor).
      apply Ha. apply (Hg Worker_idle (request_queue p)); [by destruct p|done|done|done].
Qed.

Lemma shutdown_pool_step p p' : shutdown_ok p -> pool_step p p' -> shutdown_ok p'.
Proof.
  intros Hok [root Hr|id Hr|Hr|p2 Hs].
  - by apply shutdown_message.
  - destruct Hok as [S1 S2 S3 S4 S5]. constructor; cbn; try done.
    + rewrite <- S1, Hr. done.
    + intros Hx. destruct (S4 Hx) as [? ->]. done.
  - destruct Hok as [S1 S2 S3 S4 S5]. constructor; cbn; tauto.
  - by eapply shutdown_thread.
Qed.

Lemma reachable_shutdown p : reachable p -> shutdown_ok p.
Proof.
  unfold reachable. intros Hr. remember threadpool_start as p0 eqn:E0.
  assert (H1 : shutdown_ok p0) by (subst; apply shutdown_start). clear E0.
  induction Hr as [|a b c Hab _ IH]; [done|]. apply IH. by eapply shutdown_pool_step.
Qed.

(** The work left for the pool's threads. *)
Definition coordinator_work (c : coordinator_state) : nat :=
  match c with Coord_idle => 1 | Coord_popped _ => 5 | Coord_handoff _ => 4 | Coord_exited => 0 end.
Definition worker_work (w : worker_state) : nat :=
  match w with Worker_idle => 1 | Worker_popped _ => 2 | Worker_exited => 0 end.
Definition pool_work (p : pool) : nat :=
  (5 * length (fifo (work_queue p)) + coordinator_work (pl_coordinator p)
   + 2 * length (fifo (request_queue p)) + sum_list (worker_work <$> pl_workers p))%nat.

Lemma worker_work_update ws i w w' :
  ws !! i = Some w ->
  (sum_list (worker_work <$> <[i := w']> ws) + worker_work w =
   sum_list (worker_work <$> ws) + worker_work w')%nat.
Proof.
  revert i. induction ws as [|w0 ws IH]; intros [|i] Hw; try done; csimpl.
  - injection Hw as ->. lia.
  - specialize (IH i Hw). lia.
Qed.

(** Every step of the pool's threads uses some of it up. *)
Lemma thread_step_work p p' : thread_step p p' -> (pool_work p' < pool_work p)%nat.
Proof.
  unfold pool_work. intros [E C p2 HE Hs|i p2 Hs].
  - unfold coordinator_step in Hs. destruct (pl_coordinator p) as [|job|job|] eqn:Ec.
    + unfold fifo_pop in Hs. destruct (fifo (work_queue p)) as [|job js] eqn:Ej.
      * destruct (fifo_closed (work_queue p)); [|done]. injection Hs as <-. cbn. rewrite Ej. cbn. lia.
      * injection Hs as <-. cbn. lia.
    + destruct (is_notification job); [|destruct (is_cancelled job);
        [|destruct (server_coordinate_query job (pl_server p)) as [s' [r|qc]]]];
        injection Hs as <-; cbn; lia.
    + injection Hs as <-. cbn. rewrite length_app. cbn. lia.
    + done.
  - unfold query_worker_step in Hs. destruct (pl_workers p !! i) as [[|job|]|] eqn:Ew; try done.
    + unfold fifo_pop in Hs. destruct (fifo (request_queue p)) as [|job js] eqn:Ej.
      * destruct (fifo_closed (request_queue p)); [|done]. injection Hs as <-. cbn. rewrite Ej.
        pose proof (worker_work_update _ _ _ Worker_exited Ew). cbn in *. lia.
      * injection Hs as <-. cbn. pose proof (worker_work_update _ _ _ (Worker_popped job) Ew). cbn in *. lia.
    + injection Hs as <-. cbn. pose proof (worker_work_update _ _ _ Worker_idle Ew). cbn in *. lia.
Qed.

(** All threads have returned: what [threadpool_stop] joins on. *)
Definition all_joined (p : pool) : Prop :=
  pl_coordinator p = Coord_exited /\ Forall (eq Worker_exited) (pl_workers p).

(** As long as a thread is left, one can run. *)
Lemma thread_progress `{Env} `{!CcEnv} `{!LawfulEnv _} p :
  shutdown_ok p -> pl_reader p = Stopping -> all_joined p \/ exists p', thread_step p p'.
Proof.
  intros [S1 S2 S3 S4 S5] Hr. assert (Hw : fifo_closed (work_queue p) = true) by by apply S1.
  assert (Hc : pl_coordinator p = Coord_exited \/ is_Some (coordinator_step p)).
  { unfold coordinator_step, fifo_pop. rewrite Hw. destruct (pl_coordinator p) as [|job|job|]; eauto.
    - destruct (fifo (work_queue p)); eauto.
    - destruct (is_notification job); [eauto|]. destruct (is_cancelled job); [eauto|].
      destruct (server_coordinate_query job (pl_server p)) as [? []]; eauto. }
  destruct Hc as [Hc|[p' Hp']]; [|right; exists p'; by eapply step_coordinator].
  destruct (decide (Forall (fun w => worker_work w = 0%nat) (pl_workers p))) as [Hf|Hf].
  - left. split; [done|]. eapply Forall_impl; [exact Hf|]. by intros [].
  - right. apply not_Forall_Exists in Hf; [|intros w; apply _]. apply Exists_exists in Hf as (w & Hin & Hne).
    apply list_elem_of_lookup in Hin as [i Hi].
    assert (Hs : is_Some (query_worker_step i p)).
    { unfold query_worker_step, fifo_pop. rewrite Hi. destruct w as [|job|]; [|eauto|by destruct Hne].
      apply S2 in Hc. rewrite Hc. destruct (fifo (request_queue p)); eauto. }
    destruct Hs as [p' Hp']. exists p'. by eapply step_worker.
Qed.

Lemma thread_keeps p p' :
  thread_step p p' -> pl_reader p' = pl_reader p /\ pl_received p' = pl_received p.
Proof.
  intros [E C p2 HE Hs|i p2 Hs].
  - unfold coordinator_step in Hs. destruct (pl_coordinator p) as [|job|job|].
    + destruct (fifo_pop (work_queue p)) as [[] ?]; try done; by injection Hs as <-.
    + destruct (is_notification job); [|destruct (is_cancelled job);
        [|destruct (server_coordinate_query job (pl_server p)) as [s' [r|qc]]]]; by injection Hs as <-.
    + by injection Hs as <-.
    + done.
  - unfold query_worker_step in Hs. destruct (pl_workers p !! i) as [[|job|]|]; try done.
    + destruct (fifo_pop (request_queue p)) as [[] ?]; try done; by injection Hs as <-.
    + by injection Hs as <-.
Qed.

(** ** Consequences *)

Lemma runs_reachable l s : runs l s -> rtc server_step server_init s.
Proof.
  induction 1 as [|E C l job s HE _ IH]; [done|]. etransitivity; [exact IH|].
  unfold effect, server_dispatch_notification, server_coordinate_query.
  destruct (is_notification job).
  - destruct (method_lookup _) as [entry|]; [|done]. destruct (me_kind entry) as [n| |]; try done.
    apply rtc_once. by apply (step_notify s E C).
  - destruct (is_cancelled job); [done|].
    destruct (me_kind <$> _) as [[|m|]|]; try done. destruct m; [|done].
    apply rtc_once, step_initialize.
Qed.

Definition response_id (r : reply) : mut_id :=
  match r with Response id _ => id | Error_response id _ _ => id end.

Lemma settled_reply ps j id :
  settled ps j -> is_notification j = false -> id_item (request_doc j) = Some id ->
  exists r, reply_of j = Some r /\ response_id r = copy_id (Some id).
Proof.
  intros Hs Hn Hid. unfold reply_of, server_dispatch_cancelled, server_run_query. rewrite Hn, Hid.
  destruct (is_cancelled j) eqn:Ex; [by eexists|].
  destruct (me_kind <$> method_lookup _) as [[n|m|q]|] eqn:Em; try by eexists.
  destruct Hs as [?|[?|[[m Hm]|(_ & _ & _ & E & s & _ & ->)]]]; [congruence..|by eexists].
Qed.

(** A request marked as cancelled stays marked wherever it goes. *)
Definition marked (j : Job) (p : pool) : Prop :=
  exists j', j' ∈ all_jobs p /\ job_no j' = job_no j /\ request_doc j' = request_doc j /\
    is_notification j' = is_notification j /\ is_cancelled j' = true.

Definition same_job (j j' : Job) : Prop :=
  job_no j' = job_no j /\ request_doc j' = request_doc j /\ is_notification j' = is_notification j /\
  (is_cancelled j = true -> is_cancelled j' = true).

(** No step loses a job or its mark. *)
(** Every job of the one state is in the other, as the same request. *)
Definition jobs_remain (p p' : pool) : Prop := forall j, j ∈ all_jobs p -> exists j', j' ∈ all_jobs p' /\ same_job j j'.

Lemma remain_subset p p' : (forall j, j ∈ all_jobs p -> j ∈ all_jobs p') -> jobs_remain p p'.
Proof. intros Hq j Hj. exists j. split; [by apply Hq|done]. Qed.

Lemma same_marked id j : same_job j (mark_job id j).
Proof.
  destruct (mark_job_fields id j) as (? & ? & ? & _). split_and!; try done.
  unfold mark_job. by destruct (cancel_matches id j).
Qed.

Lemma jobs_kept_message root p : jobs_remain p (server_process root p).
Proof.
  destruct root as [root|]; [|by apply remain_subset]. cbn. case_bool_decide; [by apply remain_subset|]. case_bool_decide.
  - destruct (job_params root ≫= _) as [id|]; [|by apply remain_subset].
    intros j Hj. unfold all_jobs, waiting in *. cbn. rewrite !elem_of_app in Hj. destruct Hj as [[Hj|Hj]|Hj].
    + exists j. split; [|done]. rewrite !elem_of_app. tauto.
    + exists (mark_job id j). split; [|apply same_marked]. rewrite !elem_of_app. left. right.
      apply list_elem_of_fmap. eauto.
    + exists j. split; [|done]. rewrite !elem_of_app in *. tauto.
  - apply remain_subset. unfold all_jobs, waiting. cbn. intros j. rewrite !elem_of_app. tauto.
Qed.

Lemma jobs_kept_cancel id p : jobs_remain p (finish_cancel id p).
Proof.
  intros j Hj. unfold all_jobs, handed in *. cbn. rewrite !elem_of_app in Hj.
  destruct Hj as [Hj|[[Hj|[Hj|Hj]]|Hj]];
    [exists j|exists j|exists (mark_job id j)|exists j|exists j]; (split; [|first [done|apply same_marked]]);
    rewrite !elem_of_app; try tauto.
  right. left. right. left. apply list_elem_of_fmap. eauto.
Qed.

Lemma jobs_kept_coordinator (E : Env) (C : CcEnv) p p' : coordinator_step p = Some p' -> jobs_remain p p'.
Proof.
  intros Hs. unfold coordinator_step in Hs. destruct (pl_coordinator p) as [|job|job|] eqn:Ec.
  - unfold fifo_pop in Hs. destruct (fifo (work_queue p)) as [|j0 js] eqn:Ej.
    + destruct (fifo_closed (work_queue p)); [|done]. injection Hs as <-. apply remain_subset.
      unfold all_jobs, waiting, handed. cbn. by rewrite Ec.
    + injection Hs as <-. apply remain_subset. unfold all_jobs, waiting, handed. cbn. by rewrite Ec, Ej.
  - assert (Hf : forall r s, jobs_remain p (answer r job (dispatched job s (with_coordinator Coord_idle p)))).
    { intros r s. apply remain_subset. unfold all_jobs, waiting, handed. cbn. rewrite Ec. cbn. intros j. in_jobs. }
    destruct (is_notification job); [|destruct (is_cancelled job);
      [|destruct (server_coordinate_query job (pl_server p)) as [s' [r|qc]]]];
      injection Hs as <-; try apply Hf.
    intros j. unfold all_jobs, waiting, handed. cbn. rewrite Ec. cbn. intros [->|Hj]%elem_of_cons.
    + exists (set_context qc job). split; [|done]. in_jobs.
    + exists j. split; [|done]. in_jobs.
  - injection Hs as <-. apply remain_subset. unfold all_jobs, waiting, handed. cbn. rewrite Ec. cbn. intros j. in_jobs.
  - done.
Qed.

Lemma jobs_kept_worker i p p' : query_worker_step i p = Some p' -> jobs_remain p p'.
Proof.
  intros Hs. unfold query_worker_step in Hs. destruct (pl_workers p !! i) as [w|] eqn:Ew; [|done].
  assert (Hu : forall w' q r, (forall j, j ∈ fifo (request_queue p) \/ j ∈ worker_jobs w ->
            j ∈ fifo q \/ j ∈ worker_jobs w' \/ j ∈ r) -> forall j, j ∈ all_jobs p ->
            j ∈ waiting p ++ (handoff_jobs (pl_coordinator p) ++ fifo q ++
                               (<[i := w']> (pl_workers p) ≫= worker_jobs)) ++ pl_freed p ++ r).
  { intros w' q r Hq j. destruct (worker_update _ _ _ w' Ew) as (rest & H1 & H2).
    unfold all_jobs, handed. rewrite H1, H2, !elem_of_app. specialize (Hq j). tauto. }
  destruct w as [|job|]; [unfold fifo_pop in Hs; destruct (fifo (request_queue p)) as [|j0 js] eqn:Ej|..]; try done.
  - destruct (fifo_closed (request_queue p)); [|done]. injection Hs as <-. apply remain_subset. intros j Hj.
    apply (Hu Worker_exited (request_queue p) []) in Hj; [by rewrite app_nil_r in Hj|].
    rewrite Ej. cbn. tauto.
  - injection Hs as <-. apply remain_subset. intros j Hj.
    apply (Hu (Worker_popped j0) (mkFifo js (fifo_closed (request_queue p))) []) in Hj; [by rewrite app_nil_r in Hj|].
    cbn. intros j'. rewrite elem_of_cons, list_elem_of_singleton. tauto.
  - injection Hs as <-. apply remain_subset. intros j Hj.
    apply (Hu Worker_idle (request_queue p) [job]) in Hj; [done|]. cbn. tauto.
Qed.

Lemma jobs_kept p p' : pool_step p p' -> jobs_remain p p'.
Proof.
  intros [root Hr|id Hr|Hr|p2 [E C p3 HE Hs|i p3 Hs]].
  - apply jobs_kept_message.
  - apply jobs_kept_cancel.
  - by apply remain_subset.
  - by eapply jobs_kept_coordinator.
  - by eapply jobs_kept_worker.
Qed.

Lemma jobs_kept_star p p' j :
  rtc pool_step p p' -> j ∈ all_jobs p -> exists j', j' ∈ all_jobs p' /\ same_job j j'.
Proof.
  intros Hr. revert j. induction Hr as [|a b c Hab _ IH]; intros j Hj; [by exists j|].
  destruct (jobs_kept _ _ Hab j Hj) as (j1 & H1 & E1). destruct (IH j1 H1) as (j2 & H2 & E2).
  exists j2. split; [done|]. destruct E1 as (? & ? & ? & ?), E2 as (? & ? & ? & ?).
  split_and!; [congruence..|auto].
Qed.

Lemma job_unique p j j' :
  pool_ok p -> j ∈ all_jobs p -> j' ∈ all_jobs p -> job_no j = job_no j' -> j = j'.
Proof.
  intros Hok Hj Hj' He. pose proof (ok_once p Hok) as Ho.
  assert (Hnd : NoDup (job_no <$> all_jobs p)) by (rewrite Ho; apply NoDup_seq).
  apply list_elem_of_lookup in Hj as [m Hm]. apply list_elem_of_lookup in Hj' as [n Hn].
  assert (m = n) as <-; [|congruence].
  apply (NoDup_lookup _ _ _ (job_no j) Hnd); rewrite list_lookup_fmap; [by rewrite Hm|by rewrite Hn, He].
Qed.
End Dispatch.

(** ** Properties *)

(** Messages take effect in the order they arrive.  In every state the
    threads can reach, the jobs dispatched by the coordinator followed by those
    still waiting are the messages received, in order; and the documents are
    what the dispatched ones give when run one after the other from startup,
    so they are in a state the lifecycle handlers can reach. *)
Theorem messages_in_order `{QueryHandlers} p :
  reachable p ->
  job_no <$> pl_processed p ++ waiting p = seq 0 (pl_received p) /\
  runs (pl_processed p) (pl_server p) /\ rtc server_step server_init (pl_server p).
Proof.
  intros Hok%reachable_inv. split_and!; [apply Hok|apply Hok|]. eapply runs_reachable, Hok.
Qed.

(** C13: Every message is in exactly one place, and every request gets exactly
    one response: the messages received are, each once, waiting, handed to the
    workers or done; the client has been sent exactly the texts of the responses
    to those done, in the order they finished; and each of them that has an id
    has a response, carrying that id.  A response the JSON library cannot write
    has no text and is the only one that is not sent. *)
Theorem requests_answered_once `{QueryHandlers} p :
  reachable p ->
  job_no <$> waiting p ++ handed p ++ pl_freed p ≡ₚ seq 0 (pl_received p) /\
  pl_sent p = pl_freed p ≫= sent_for /\
  forall j id, j ∈ pl_freed p -> is_notification j = false -> id_item (request_doc j) = Some id ->
    exists r, reply_of j = Some r /\ response_id r = copy_id (Some id) /\
      sent_for j = match response_text r with Some text => [text] | None => [] end.
Proof.
  intros Hok%reachable_inv. split_and!; [apply Hok|apply Hok|]. intros j id Hj.
  pose proof (ok_settled p Hok) as Hs. rewrite Forall_forall in Hs. intros Hn Hid.
  destruct (settled_reply _ _ _ (Hs j Hj) Hn Hid) as (r & Hr & Hi). exists r. split_and!; [done..|].
  unfold sent_for. by rewrite Hr.
Qed.

(** A completed query that was not cancelled went through its handler with the
    context it was pinned. *)
Lemma completed_query_pinned `{QueryHandlers} `{LW : Lawful} p j q :
  reachable p -> j ∈ pl_freed p -> is_cancelled j = false ->
  me_kind <$> method_lookup (job_method (request_doc j)) = Some (METHOD_QUERY q) ->
  is_notification j = false /\ pinned (pl_processed p) j.
Proof.
  intros Hok%reachable_inv Hj Hx Hm.
  pose proof (ok_settled p Hok) as Hs. rewrite Forall_forall in Hs. specialize (Hs j Hj).
  assert (Hg : genuine j).
  { pose proof (ok_genuine p Hok) as Hg. rewrite Forall_forall in Hg. apply Hg. unfold all_jobs. in_jobs. }
  assert (Hp : pinned (pl_processed p) j); [|split; [apply Hp|exact Hp]].
  destruct Hs as [Hn|[?|[[m Hi]|?]]]; [|congruence|congruence|done].
  destruct Hg as [Hg _]. unfold make_job in Hg. cbn [is_notification] in Hg.
  rewrite Hm in Hg. congruence.
Qed.

(** C2: A query is answered from the documents as its predecessors left them:
    whatever was edited while it waited for a worker, the reply of a completed
    query is computed from the context that the messages received before it,
    and no others, give. *)
Theorem query_answered_from_arrival `{QueryHandlers} p j q :
  reachable p -> j ∈ pl_freed p -> is_cancelled j = false ->
  me_kind <$> method_lookup (job_method (request_doc j)) = Some (METHOD_QUERY q) ->
  exists (E : Env) s,
    let params := job_params (request_doc j) in
    let qc := build_query_context_locked s (request_primary_uri params)
                (default false (want_all_docs <$> method_lookup (job_method (request_doc j)))) in
    runs (take (job_no j) (pl_processed p)) s /\
    job_no <$> take (job_no j) (pl_processed p) = seq 0 (job_no j) /\
    reply_of j = Some (make_response (id_item (request_doc j))
                         (query_result q params qc (query_context_primary qc))).
Proof.
  intros Hr0 Hj Hx Hm. destruct (completed_query_pinned p j q Hr0 Hj Hx Hm) as [_ Hp].
  pose proof (reachable_inv p Hr0) as Hok.
  destruct Hp as (Hn & _ & Hl & E & s & Hr & Hc). exists E, s. cbv zeta. split_and!; [exact Hr| |].
  - rewrite <- (take_app_le (pl_processed p) (waiting p)) by lia.
    rewrite fmap_take, (ok_order p Hok), take_seq. f_equal.
    pose proof (f_equal length (ok_order p Hok)) as Hlen. rewrite length_fmap, length_app, length_seq in Hlen. lia.
  - unfold reply_of, server_run_query. by rewrite Hn, Hx, Hm, Hc.
Qed.

(** C26: A cancelled request is refused.  When a cancellation finds a request
    in the queue it is marking, whatever happens next, the only reply the
    request can ever get is the error -32800 with its own id: its handler is
    never run. *)
Theorem cancelled_request_refused `{QueryHandlers} p p1 p2 id j j' :
  reachable p ->
  (pl_reader p = Cancelling id /\ p1 = finish_cancel id p /\ j ∈ fifo (request_queue p)) \/
  (exists root, pl_reader p = Reading /\ p1 = server_process (Some root) p /\ j ∈ fifo (work_queue p) /\
     job_method root = "$/cancelRequest"%string /\
     job_params root ≫= (fun ps => yyjson_obj_get ps "id" ≫= get_int) = Some id) ->
  cancel_matches id j = true ->
  rtc pool_step p1 p2 -> j' ∈ pl_freed p2 -> job_no j' = job_no j ->
  exists v, id_item (request_doc j) = Some v /\
    reply_of j' = Some (make_error_response (Some v) (-32800) "Request cancelled").
Proof.
  intros Hr Hstep Hcm H12 Hj' He. pose proof (reachable_inv p Hr) as Hok.
  assert (Hin : mark_job id j ∈ all_jobs p1 /\ pool_step p p1 /\ j ∈ all_jobs p).
  { destruct Hstep as [(Hrd & -> & Hj)|(root & Hrd & -> & Hj & Hm & Hid)]; split_and!.
    - unfold all_jobs, handed. cbn. assert (mark_job id j ∈ mark_job id <$> fifo (request_queue p))
        by (apply list_elem_of_fmap; eauto). in_jobs.
    - by apply step_finish_cancel.
    - unfold all_jobs, handed. in_jobs.
    - unfold server_process. cbv zeta. rewrite Hm, bool_decide_eq_false_2, bool_decide_eq_true_2, Hid by done.
      unfold all_jobs, waiting. cbn.
      assert (mark_job id j ∈ mark_job id <$> fifo (work_queue p))
        by (apply list_elem_of_fmap; eauto). in_jobs.
    - by apply step_message.
    - unfold all_jobs, waiting. in_jobs. }
  destruct Hin as (Hin & Hs & Hj). pose proof (ok_pool_step _ _ Hok Hs) as Hok1.
  destruct (jobs_kept_star _ _ _ H12 Hin) as (j2 & Hj2 & Hn2 & Hd2 & Hnot2 & Hc2).
  assert (Hok2 : pool_ok p2).
  { clear - Hok1 H12. induction H12 as [|a b c Hab _ IH]; [done|]. by eapply IH, ok_pool_step. }
  destruct (mark_job_fields id j) as (M1 & M2 & M3 & _).
  assert (j' = j2) as ->.
  { apply (job_unique p2); [done| |done|congruence]. unfold all_jobs. in_jobs. }
  pose proof (ok_genuine p Hok) as Hg. rewrite Forall_forall in Hg.
  destruct (Hg j Hj) as (_ & Hhid & _). unfold cancel_matches in Hcm.
  apply andb_prop in Hcm as [[Hnn Hh]%andb_prop Hid].
  apply negb_true_iff in Hnn. rewrite Hh in Hhid. cbn in Hhid. symmetry in Hhid.
  apply bool_decide_eq_true in Hhid as [z Hz].
  destruct (id_item (request_doc j)) as [v|] eqn:Ev; [|done]. exists v. split; [done|].
  assert (Hcj : is_cancelled (mark_job id j) = true).
  { unfold mark_job, cancel_matches. by rewrite Hnn, Hh, Hid. }
  unfold reply_of, server_dispatch_cancelled. rewrite Hnot2, M3, Hnn, (Hc2 Hcj), Hd2, M2, Ev. done.
Qed.

(** C25: Shutdown drains the pool.  Once the work queue is closed, the threads
    cannot run forever and are never stuck before they have all returned, so
    every way of running them ends with all of them joined; and by then every
    message received has been dispatched, and the client has been sent what
    their responses give. *)
Theorem pool_drains `{QueryHandlers} p :
  reachable p -> pl_reader p = Stopping ->
  Acc (fun a b => thread_step b a) p /\
  (exists p', rtc thread_step p p' /\ all_joined p') /\
  forall p', rtc thread_step p p' ->
    (all_joined p' \/ exists p'', thread_step p' p'') /\
    (all_joined p' -> job_no <$> pl_freed p' ≡ₚ seq 0 (pl_received p) /\
       pl_sent p' = pl_freed p' ≫= sent_for).
Proof.
  intros Hr Hst. pose proof (reachable_inv p Hr) as Hok. pose proof (reachable_shutdown p Hr) as Hsh.
  assert (Hkeep : forall p', rtc thread_step p p' ->
            pool_ok p' /\ shutdown_ok p' /\ pl_reader p' = Stopping /\ pl_received p' = pl_received p).
  { intros p' Hs. clear Hr. induction Hs as [|a b c Hab _ IH]; [done|].
    destruct (thread_keeps _ _ Hab) as [Hx1 Hx2]. rewrite <- Hx2. apply IH; [congruence| |].
    - by eapply ok_thread_step.
    - by eapply shutdown_thread. }
  assert (Hprog : forall p', rtc thread_step p p' -> all_joined p' \/ exists p'', thread_step p' p'').
  { intros p' (_ & ? & ? & _)%Hkeep.
    by apply (thread_progress (H1 := sample_env) (H2 := mkCcEnv _ (fun _ => None) (fun _ => None))). }
  assert (Hacc : forall n p', (pool_work p' <= n)%nat -> Acc (fun a b => thread_step b a) p').
  { induction n as [|n IH]; intros p' Hn; constructor; intros p'' Hs%thread_step_work; [lia|]. apply IH. lia. }
  split; [by eapply Hacc|]. split.
  - assert (Hex : forall n p', (pool_work p' <= n)%nat -> rtc thread_step p p' ->
              exists p'', rtc thread_step p p'' /\ all_joined p'').
    { induction n as [|n IH]; intros p' Hn Hs; destruct (Hprog p' Hs) as [|[p'' Hs']]; eauto.
      - apply thread_step_work in Hs'. lia.
      - apply (IH p''); [apply thread_step_work in Hs'; lia|]. by eapply rtc_r. }
    by eapply (Hex _ p).
  - intros p' Hs. split; [by apply Hprog|]. intros [Hc Hw].
    destruct (Hkeep p' Hs) as (Hok' & Hsh' & _ & Hrc). split; [|apply Hok'].
    rewrite <- Hrc, <- (ok_once p' Hok'). unfold all_jobs, waiting, handed. rewrite Hc. cbn.
    destruct (ok_drained p' Hsh' Hc) as [_ ->].
    assert (Hx : Worker_exited ∈ pl_workers p').
    { pose proof (ok_count p' Hsh') as Hn. destruct (pl_workers p') as [|w ws]; [done|].
      apply Forall_cons in Hw as [<- _]. by left. }
    destruct (ok_workers p' Hsh' Hx) as [_ ->]. cbn.
    assert (Hb : (pl_workers p' ≫= worker_jobs) = []).
    { clear -Hw. induction Hw as [|w ws <- _ IH]; [done|]. by rewrite bind_cons, IH. }
    by rewrite Hb.
Qed.

(** ** A session *)

(** The results of the handlers, for examples: the method, and the text of the
    primary document. *)
Inductive sample_result : Set :=
  | R_null | R_capabilities | R_query (q : query_method) (text : option string).

#[global] Instance sample_handlers : @QueryHandlers sample_yyjson :=
  mkHandlers sample_yyjson sample_result R_null R_capabilities
    (fun q _ _ d => R_query q ((fun d => snap_text (qd_snap d)) <$> d))
    (fun r => match r with
              | Response _ (R_query _ (Some text)) => if ascii_text text then Some text else None
              | Response _ _ => Some EmptyString
              | Error_response _ _ message => Some message
              end).

(** A schedule: which thread moves next. *)
Inductive action : Set := Act_message (root : sample_json) | Act_cancel | Act_coordinator | Act_worker (i : nat).

Section Schedule.
Context {QH : @QueryHandlers sample_yyjson} (E : Env).

Definition act (a : action) (p : pool) : option pool :=
  match a with
  | Act_message root =>
      match pl_reader p with Reading => Some (server_process (Some root) p) | _ => None end
  | Act_cancel => match pl_reader p with Cancelling id => Some (finish_cancel id p) | _ => None end
  | Act_coordinator => coordinator_step (H1 := E) (H2 := sample_cc) p
  | Act_worker i => query_worker_step i p
  end.

Fixpoint run_schedule (l : list action) (p : pool) : option pool :=
  match l with
  | [] => Some p
  | a :: l' => act a p ≫= run_schedule l'
  end.

Lemma run_schedule_steps `{LW : Lawful} l p p' : lawful E -> run_schedule l p = Some p' -> rtc pool_step p p'.
Proof.
  intros HE. revert p. induction l as [|a l IH]; intros p; cbn [run_schedule]; [by intros [= ->]|].
  assert (Hact : forall p1, act a p = Some p1 -> pool_step p p1).
  { clear IH. intros p1 Ea. destruct a as [root| | |i]; unfold act in Ea.
    - destruct (pl_reader p) eqn:Er; [|done..]. assert (server_process (Some root) p = p1) as <- by congruence.
      by apply step_message.
    - destruct (pl_reader p) eqn:Er; [done| |done]. assert (finish_cancel id p = p1) as <- by congruence.
      by apply step_finish_cancel.
    - by eapply step_thread, step_coordinator.
    - by eapply step_thread, step_worker. }
  destruct (act a p) as [p1|]; [|done]. intros H%IH. eapply rtc_l; [by apply Hact|exact H].
Qed.

Definition run_from_start (l : list action) : pool := default threadpool_start (run_schedule l threadpool_start).

Lemma run_from_start_reachable `{LW : Lawful} l : lawful E -> reachable (run_from_start l).
Proof.
  intros HE. unfold run_from_start. destruct (run_schedule l threadpool_start) eqn:Er; [|apply rtc_refl].
  by eapply run_schedule_steps in Er.
Qed.
End Schedule.

Definition message (m : string) (id : option Z) (params : sample_json) : sample_json :=
  JObj (("method"%string, JStr m) :: ("params"%string, params) ::
        match id with Some z => [("id"%string, JNum z)] | None => [] end).

(** A document is opened, a hover and two references are requested, the document
    is edited, and the second reference request is cancelled; the hover is
    answered after the edit, by the second worker. *)
Definition hover_params : sample_json := JObj [("textDocument"%string, text_document "file:///w/b.tji" [])].
Definition incoming : list action :=
  Act_message <$>
    [ message "initialize" (Some 1%Z) root_params;
      message "initialized" None (JObj []);
      message "textDocument/didOpen" None (open_params "file:///w/b.tji" "ab");
      message "textDocument/hover" (Some 2%Z) hover_params;
      message "textDocument/didChange" None (change_params "file:///w/b.tji" [json_change 0 1 0 2 "xy"]);
      message "textDocument/references" (Some 3%Z) hover_params;
      message "$/cancelRequest" None (JObj [("id"%string, JNum 3)]) ]%string.

(** Everything up to the coordinator's pop of the cancelled request. *)
Definition before_cancel : list action :=
  take 6 incoming ++ replicate 11 Act_coordinator.
Definition whole_session : list action :=
  before_cancel ++ drop 6 incoming ++ [Act_cancel; Act_worker 1; Act_worker 1] ++
  replicate 2 Act_coordinator ++ [Act_message (message "exit" None (JObj []))].

Example session_replies :
  omap reply_of (pl_freed (run_from_start cyclic_env whole_session)) =
    [Response (Id_uint 1) R_capabilities; Response (Id_uint 2) (R_query Hover (Some "ab"%string));
     Error_response (Id_uint 3) (-32800) "Request cancelled"%string] /\
  pl_sent (run_from_start cyclic_env whole_session) = [""; "ab"; "Request cancelled"]%string.
Proof. split; vm_compute; reflexivity. Qed.

Definition mid_session : pool := run_from_start cyclic_env whole_session.

Lemma messages_in_order_witness :
  rtc (server_step (H := sample_yyjson)) server_init (pl_server mid_session) /\
  job_no <$> pl_processed mid_session = [0; 1; 2; 3; 4; 5]%nat.
Proof.
  split; [|by vm_compute].
  exact (proj2 (proj2 (messages_in_order mid_session (run_from_start_reachable cyclic_env _ I)))).
Defined.

Lemma requests_answered_once_witness :
  job_no <$> waiting mid_session ++ handed mid_session ++ pl_freed mid_session ≡ₚ seq 0 6 /\
  length (pl_sent mid_session) = 3%nat.
Proof.
  split; [|by vm_compute].
  exact (proj1 (requests_answered_once mid_session (run_from_start_reachable cyclic_env _ I))).
Defined.

(** The hover request, as it was when it was freed. *)
Definition hover_job : Job :=
  default (make_job 0 (JObj [])) (List.find (fun j => job_no j =? 3)%nat (pl_freed mid_session)).

Lemma query_answered_from_arrival_witness :
  job_no <$> take 3 (pl_processed mid_session) = [0; 1; 2]%nat /\
  exists E s qc, runs (take 3 (pl_processed mid_session)) s /\
    qc = @build_query_context_locked E s (Some "file:///w/b.tji"%string) false /\
    reply_of hover_job = Some (make_response (Some (JNum 2))
      (query_result Hover (Some hover_params) qc (query_context_primary qc))).
Proof.
  split; [by vm_compute|].
  destruct (query_answered_from_arrival mid_session hover_job Hover) as (E & s & Hr & _ & Hq).
  - by apply run_from_start_reachable.
  - apply (list_elem_of_lookup_2 _ 4). by vm_compute.
  - by vm_compute.
  - by vm_compute.
  - exists E, s, (@build_query_context_locked E s (Some "file:///w/b.tji"%string) false).
    split; [exact Hr|]. split; [done|]. exact Hq.
Defined.

Lemma cancelled_request_refused_witness :
  exists j j', j ∈ fifo (work_queue (run_from_start cyclic_env before_cancel)) /\ j' ∈ pl_freed mid_session /\
    job_no j = 5%nat /\ job_no j' = 5%nat /\
    reply_of j' = Some (make_error_response (Some (JNum 3)) (-32800) "Request cancelled").
Proof.
  set (j := make_job (H := sample_yyjson) 5 (message "textDocument/references" (Some 3%Z) hover_params)).
  exists j, (set_cancelled j).
  assert (Hj : j ∈ fifo (work_queue (run_from_start cyclic_env before_cancel))) by (apply (list_elem_of_lookup_2 _ 0); by vm_compute).
  assert (Hj' : set_cancelled j ∈ pl_freed mid_session)
    by (apply (list_elem_of_lookup_2 _ 5); by vm_compute).
  split; [exact Hj|]. split; [exact Hj'|]. split; [done|]. split; [done|].
  set (root := message "$/cancelRequest" None (JObj [("id"%string, JNum 3)]) : @yyjson_val sample_yyjson).
  destruct (cancelled_request_refused (run_from_start cyclic_env before_cancel)
    (server_process (Some root) (run_from_start cyclic_env before_cancel)) mid_session 3 j (set_cancelled j))
    as (v & Hv & Hr).
  - by apply run_from_start_reachable.
  - right. exists root. split; [by vm_compute|]. split; [done|]. split; [exact Hj|]. by vm_compute.
  - by vm_compute.
  - apply (run_schedule_steps cyclic_env ([Act_cancel; Act_worker 1; Act_worker 1] ++
      replicate 2 Act_coordinator ++ [Act_message (message "exit" None (JObj []))])); [exact I|]. by vm_compute.
  - exact Hj'.
  - done.
  - rewrite Hr. vm_compute in Hv. by injection Hv as <-.
Defined.

Lemma pool_drains_witness :
  pl_reader mid_session = Stopping /\ exists p', rtc thread_step mid_session p' /\ all_joined p'.
Proof.
  assert (Hs : pl_reader mid_session = Stopping) by by vm_compute.
  split; [exact Hs|].
  exact (proj1 (proj2 (pool_drains mid_session (run_from_start_reachable cyclic_env _ I) Hs))).
Defined.
