(* ===== verification/CodeLens.v ===== *)
(** * [code_lens.c]: the inferred other end of a task.

    For a [length] or [duration] of a task with a fixed start or end, the lens
    shows the date at the other end.  The working-day walk is a pair of loops
    over calendar days, given fuel that the first theorem shows to be enough. *)

From S2P Require Import Prelude Tokens Syntax CText Dates.
Local Open Scope Z_scope.

Definition WORKING_DAYS_PER_WEEK : Z := 5.
Definition WORKING_DAYS_PER_MONTH : Z := 22.
Definition WORKING_DAYS_PER_YEAR : Z := 260.

(** ** Reading a duration *)

(** The canonical unit characters. *)
Inductive unit_char : Set := U_i | U_h | U_d | U_w | U_m | U_y.

#[global] Instance unit_char_eq_dec : EqDecision unit_char.
Proof. solve_decision. Defined.

Definition canon_unit (s : string) : option unit_char :=
  if bool_decide (s = "min"%string) then Some U_i
  else if bool_decide (s = "h"%string) then Some U_h
  else if bool_decide (s = "d"%string) then Some U_d
  else if bool_decide (s = "w"%string) then Some U_w
  else if bool_decide (s = "m"%string) then Some U_m
  else if bool_decide (s = "y"%string) then Some U_y
  else None.

(** The digit loop of [parse_compact_duration]. *)
Fixpoint read_value (value : Z) (cs : list ascii) : Z * list ascii :=
  match cs with
  | c :: cs' => if is_digit c then read_value (int32 (value * 10 + digit_val c)) cs' else (value, cs)
  | [] => (value, [])
  end.

Definition parse_compact_duration (text : option string) : option (Z * unit_char) :=
  match list_ascii_of_string <$> text with
  | None | Some [] => None
  | Some cs =>
      let '(sign, p) := match cs with
                        | "+"%char :: r => (1, r)
                        | "-"%char :: r => (-1, r)
                        | _ => (1, cs)
                        end in
      match p with
      | c :: _ =>
          if is_digit c then
            let '(value, rest) := read_value 0 p in
            match canon_unit (string_of_list_ascii rest) with
            | Some u => Some (int32 (sign * value), u)
            | None => None
            end
          else None
      | [] => None
      end
  end.

Definition parse_dur_val_at (spans : list TokenSpan) (start_idx : nat) : option (Z * unit_char) :=
  match spans !! start_idx with
  | None => None
  | Some t =>
      if bool_decide (ts_kind t = TK_DURATION) then parse_compact_duration (ts_text t)
      else if bool_decide (ts_kind t = TK_INTEGER \/ ts_kind t = TK_FLOAT) then
        match spans !! S start_idx with
        | None => None
        | Some u =>
            if bool_decide (ts_kind u = TK_IDENT) then
              match ts_text u ≫= canon_unit, ts_text t with
              | Some unit, Some text => Some (int32 (strtol (list_ascii_of_string text)), unit)
              | _, _ => None
              end
            else None
        end
      else None
  end.

(** ** Days *)

Definition duration_to_calendar_days (value : Z) (u : unit_char) : Z :=
  match u with
  | U_i => 0 | U_h => 0 | U_d => value
  | U_w => value * 7 | U_m => value * 30 | U_y => value * 365
  end.

Definition length_to_working_days (value : Z) (u : unit_char) : Z :=
  match u with
  | U_i | U_h => if value >? 0 then 1 else if value <? 0 then -1 else 0
  | U_d => value
  | U_w => value * WORKING_DAYS_PER_WEEK
  | U_m => value * WORKING_DAYS_PER_MONTH
  | U_y => value * WORKING_DAYS_PER_YEAR
  end.

Definition step_day (t direction : Z) : Z := t + direction * SECONDS_PER_DAY.

Definition is_weekend (t : Z) : bool :=
  let w := tm_wday (gmtime_r t) in (w =? 0) || (w =? 6).

(** [while (is_weekend (cur)) cur = step_day (cur, direction)]. *)
Fixpoint snap_to_workday (fuel : nat) (cur direction : Z) : option Z :=
  match fuel with
  | O => None
  | S fuel' => if is_weekend cur then snap_to_workday fuel' (step_day cur direction) direction else Some cur
  end.

(** [while (remaining > 0)]. *)
Fixpoint walk_loop (fuel : nat) (cur remaining direction : Z) : option Z :=
  match fuel with
  | O => None
  | S fuel' =>
      if remaining >? 0 then
        let cur := step_day cur direction in
        walk_loop fuel' cur (if is_weekend cur then remaining else remaining - 1) direction
      else Some cur
  end.

(** The loops with given fuel; [None] if it runs out. *)
Definition walk_working_days_fuel (fuel : nat) (base days direction : Z) : option Z :=
  if days <=? 0 then Some base
  else snap_to_workday 3 base direction ≫= fun cur => walk_loop fuel cur (days - 1) direction.

(** A week holds five working days, so seven rounds per day are enough. *)
Definition walk_fuel (days : Z) : nat := S (Z.to_nat (7 * days)).

Definition walk_working_days_inclusive (base days direction : Z) : Z :=
  default base (walk_working_days_fuel (walk_fuel days) base days direction).

Definition walk_calendar_days_inclusive (base days direction : Z) : Z :=
  if days <=? 0 then base else base + direction * (days - 1) * SECONDS_PER_DAY.

(** ** The lenses *)

(** UTF-8 of the two arrows. *)
Definition bytes (l : list nat) : list ascii := ascii_of_nat <$> l.
Definition ARROW_ENDS : list ascii := bytes [226; 134; 146]%nat ++ list_ascii_of_string " ends ".
Definition ARROW_STARTS : list ascii := bytes [226; 134; 144]%nat ++ list_ascii_of_string " starts ".

Definition inferred_date (owner : tj_node) (kind : token_kind) (value : Z) (u : unit_char) : Z :=
  let '(base, direction) :=
    if tn_has_start owner then (tn_start_date owner, 1) else (tn_end_date owner, -1) in
  if bool_decide (kind = KW_DURATION)
  then walk_calendar_days_inclusive base (Z.abs (duration_to_calendar_days value u)) direction
  else walk_working_days_inclusive base (Z.abs (length_to_working_days value u)) direction.

Definition format_inferred_date_title (owner : tj_node) (kind : token_kind) (value : Z) (u : unit_char)
  : list ascii :=
  (if tn_has_start owner then ARROW_ENDS else ARROW_STARTS)
    ++ format_date (inferred_date owner kind value u).

(** A lens: its range and its title; the command is empty. *)
Record code_lens : Set := mkLens { lens_range : LspRange; lens_title : list ascii }.

(** One round of the scan. *)
Definition lens_at (root : tj_node) (spans : list TokenSpan) (owners : list (option node_path)) (i : nat)
  : option code_lens :=
  t ← spans !! i;
  if bool_decide (ts_kind t = KW_LENGTH \/ ts_kind t = KW_DURATION) then
    owner ← mjoin (owners !! i) ≫= node_at root;
    if bool_decide (tn_keyword owner = KW_TASK) && (tn_has_start owner || tn_has_end owner) then
      '(value, u) ← parse_dur_val_at spans (S i);
      if value =? 0 then None
      else Some (mkLens (mkRange (ts_start t) (ts_end t))
                   (format_inferred_date_title owner (ts_kind t) value u))
    else None
  else None.

Definition build_code_lens_json (root : tj_node) (spans : list TokenSpan)
    (owners : list (option node_path)) : list code_lens :=
  omap (lens_at root spans owners) (seq 0 (length spans)).

(** [handle_code_lens]: [None] is the JSON [null]. *)
Definition handle_code_lens (d : option query_doc) : option (list code_lens) :=
  match d with
  | None => None
  | Some q => Some (build_code_lens_json (qd_root q) (qd_tok_spans q) (qd_tok_owners q))
  end.

(** ** Counting working days *)

(** Day number of a time, and whether that day is a working day. *)
Definition day_of (t : Z) : Z := t / SECONDS_PER_DAY.
Definition workday (n : Z) : bool := negb (((n + 4) mod 7 =? 0) || ((n + 4) mod 7 =? 6)).

(** Working days among [n], [n + dir], .., [n + k * dir]. *)
Fixpoint workdays (k : nat) (n dir : Z) : Z :=
  (if workday n then 1 else 0) +
  match k with O => 0 | S k' => workdays k' (n + dir) dir end.

Definition is_direction (dir : Z) : Prop := dir = 1 \/ dir = -1.

Lemma is_weekend_day t : is_weekend t = negb (workday (day_of t)).
Proof. unfold is_weekend, workday, day_of, gmtime_r. cbn [tm_wday]. by rewrite negb_involutive. Qed.

Lemma day_of_steps t dir k : day_of (t + dir * k * SECONDS_PER_DAY) = day_of t + dir * k.
Proof. unfold day_of. rewrite Z.div_add by done. lia. Qed.

Lemma day_of_step t dir : day_of (step_day t dir) = day_of t + dir.
Proof. unfold step_day. pose proof (day_of_steps t dir 1) as H. by rewrite !Z.mul_1_r in H. Qed.

(** From any day, one of the next few is a working day. *)
Lemma next_workday n dir : is_direction dir ->
  exists j, (j < 3)%nat /\ workday (n + dir * Z.of_nat j) = true /\
    forall i, (i < j)%nat -> workday (n + dir * Z.of_nat i) = false.
Proof.
  intros Hd. assert (Hs : workday n = true \/ workday (n + dir) = true \/ workday (n + dir + dir) = true).
  { unfold workday. destruct Hd as [-> | ->];
      destruct (Z.eqb_spec ((n + 4) mod 7) 0), (Z.eqb_spec ((n + 4) mod 7) 6); cbn; auto; right;
      rewrite !negb_true_iff, !orb_false_iff, !Z.eqb_neq; div_lia. }
  assert (H0 : n + dir * Z.of_nat 0 = n) by lia.
  assert (H1 : n + dir * Z.of_nat 1 = n + dir) by lia.
  assert (H2 : n + dir * Z.of_nat 2 = n + dir + dir) by lia.
  destruct (workday n) eqn:E0; [exists 0%nat; rewrite H0; repeat split; [lia|done|lia]|].
  destruct (workday (n + dir)) eqn:E1.
  { exists 1%nat. rewrite H1. repeat split; [lia|done|]. intros [|i] ?; [by rewrite H0|lia]. }
  destruct Hs as [?|[?|E2]]; [congruence..|]. exists 2%nat. rewrite H2. repeat split; [lia|done|].
  intros [|[|i]] ?; [by rewrite H0|by rewrite H1|lia].
Qed.

Lemma workdays_nonneg k : forall n dir, 0 <= workdays k n dir.
Proof.
  induction k as [|k IH]; intros n dir; cbn [workdays]; destruct (workday n); try lia;
    specialize (IH (n + dir) dir); lia.
Qed.

Lemma workdays_snoc k : forall n dir,
  workdays (S k) n dir = workdays k n dir + (if workday (n + dir * Z.of_nat (S k)) then 1 else 0).
Proof.
  induction k as [|k IH]; intros n dir.
  - cbn [workdays]. replace (n + dir * Z.of_nat 1) with (n + dir) by lia. lia.
  - change (workdays (S (S k)) n dir) with ((if workday n then 1 else 0) + workdays (S k) (n + dir) dir).
    rewrite IH. cbn [workdays].
    replace (n + dir + dir * Z.of_nat (S k)) with (n + dir * Z.of_nat (S (S k))) by lia. lia.
Qed.

(** Counting from the other end. *)
Lemma workdays_reverse k : forall n dir,
  workdays k (n + dir * Z.of_nat k) (- dir) = workdays k n dir.
Proof.
  induction k as [|k IH]; intros n dir.
  - cbn. by replace (n + dir * Z.of_nat 0) with n by lia.
  - rewrite (workdays_snoc k n dir). rewrite <- (IH n dir). cbn [workdays].
    replace (n + dir * Z.of_nat (S k) + - dir) with (n + dir * Z.of_nat k) by lia. lia.
Qed.

Lemma workdays_mono k1 k2 n dir : (k1 <= k2)%nat -> workdays k1 n dir <= workdays k2 n dir.
Proof.
  induction 1 as [|k2 _ IH]; [lia|]. rewrite workdays_snoc. destruct (workday _); lia.
Qed.

(** A count that ends on a working day determines how far it went. *)
Lemma workdays_unique k1 k2 n dir :
  workdays k1 n dir = workdays k2 n dir ->
  workday (n + dir * Z.of_nat k1) = true -> workday (n + dir * Z.of_nat k2) = true -> k1 = k2.
Proof.
  intros He H1 H2. destruct (Nat.lt_trichotomy k1 k2) as [Hlt|[?|Hlt]]; [|done|].
  - destruct k2 as [|k2]; [lia|]. rewrite workdays_snoc, H2 in He.
    pose proof (workdays_mono k1 k2 n dir ltac:(lia)). lia.
  - destruct k1 as [|k1]; [lia|]. rewrite workdays_snoc, H1 in He.
    pose proof (workdays_mono k2 k1 n dir ltac:(lia)). lia.
Qed.

(** Days off at the front count for nothing. *)
Lemma workdays_skip j k : forall n dir,
  (forall i, (i < j)%nat -> workday (n + dir * Z.of_nat i) = false) ->
  workdays (j + k) n dir = workdays k (n + dir * Z.of_nat j) dir.
Proof.
  induction j as [|j IH]; intros n dir Hn.
  { replace (n + dir * Z.of_nat 0) with n by lia. done. }
  pose proof (Hn 0%nat ltac:(lia)) as H0. replace (n + dir * Z.of_nat 0) with n in H0 by lia.
  cbn [Nat.add workdays]. rewrite H0, IH.
  { replace (n + dir + dir * Z.of_nat j) with (n + dir * Z.of_nat (S j)) by lia. lia. }
  intros i Hi. replace (n + dir + dir * Z.of_nat i) with (n + dir * Z.of_nat (S i)) by lia. apply Hn. lia.
Qed.

(** ** The loops *)

(** [t] after [k] calendar days in direction [dir]. *)
Definition days_later (t dir : Z) (k : nat) : Z := t + dir * Z.of_nat k * SECONDS_PER_DAY.

Lemma day_of_later t dir k : day_of (days_later t dir k) = day_of t + dir * Z.of_nat k.
Proof. apply day_of_steps. Qed.

Lemma days_later_0 t dir : days_later t dir 0 = t.
Proof. unfold days_later. lia. Qed.

Lemma days_later_step t dir k : days_later (step_day t dir) dir k = days_later t dir (S k).
Proof. unfold days_later, step_day. lia. Qed.

Lemma days_later_add t dir j k : days_later (days_later t dir j) dir k = days_later t dir (j + k).
Proof. unfold days_later. lia. Qed.

(** Shifting a run of days off by one. *)
Lemma off_shift t dir j :
  (forall i, (i < S j)%nat -> workday (day_of (days_later t dir i)) = false) ->
  forall i, (i < j)%nat -> workday (day_of (days_later (step_day t dir) dir i)) = false.
Proof. intros H i Hi. rewrite days_later_step. apply H. lia. Qed.

Lemma snap_skip dir j : forall fuel t, (j < fuel)%nat ->
  workday (day_of (days_later t dir j)) = true ->
  (forall i, (i < j)%nat -> workday (day_of (days_later t dir i)) = false) ->
  snap_to_workday fuel t dir = Some (days_later t dir j).
Proof.
  induction j as [|j IH]; intros [|fuel] t Hf Hw Hn; try lia; cbn [snap_to_workday]; rewrite is_weekend_day.
  - rewrite days_later_0 in *. by rewrite Hw.
  - pose proof (Hn 0%nat ltac:(lia)) as H0. rewrite days_later_0 in H0. rewrite H0. cbn [negb].
    rewrite <- days_later_step in *. apply IH; [lia|done|]. by apply off_shift.
Qed.

(** The next working day costs one unit of what remains. *)
Lemma walk_skip dir j : forall fuel t r, 0 < r ->
  workday (day_of (days_later t dir (S j))) = true ->
  (forall i, (i < j)%nat -> workday (day_of (days_later t dir (S i))) = false) ->
  walk_loop (S j + fuel) t r dir = walk_loop fuel (days_later t dir (S j)) (r - 1) dir.
Proof.
  induction j as [|j IH]; intros fuel t r Hr Hw Hn; cbn [Nat.add walk_loop];
    rewrite (proj2 (Z.gtb_lt r 0)) by done; rewrite is_weekend_day; rewrite <- days_later_step in Hw.
  - rewrite days_later_0 in Hw. rewrite Hw. cbn [negb]. by rewrite <- days_later_step, days_later_0.
  - pose proof (Hn 0%nat ltac:(lia)) as H0. rewrite <- days_later_step, days_later_0 in H0. rewrite H0.
    cbn [negb]. rewrite <- days_later_step. apply (IH fuel (step_day t dir) r Hr Hw).
    intros i Hi. rewrite days_later_step. apply Hn. lia.
Qed.

Lemma walk_loop_spec dir r : is_direction dir -> forall fuel t, (3 * r < fuel)%nat ->
  workday (day_of t) = true ->
  exists k, walk_loop fuel t (Z.of_nat r) dir = Some (days_later t dir k) /\
    workday (day_of (days_later t dir k)) = true /\ workdays k (day_of t) dir = Z.of_nat r + 1.
Proof.
  intros Hd. induction r as [|r IH]; intros fuel t Hf Hw.
  { exists 0%nat. rewrite days_later_0. destruct fuel; [lia|]. cbn. by rewrite Hw. }
  destruct (next_workday (day_of (step_day t dir)) dir Hd) as (j & Hj & Hwj & Hnj).
  rewrite <- day_of_later in Hwj. rewrite days_later_step in Hwj.
  replace fuel with (S j + (fuel - S j))%nat by lia.
  rewrite walk_skip; [|lia|done|].
  2: { intros i Hi. rewrite <- days_later_step, day_of_later. by apply Hnj. }
  replace (Z.of_nat (S r) - 1) with (Z.of_nat r) by lia.
  destruct (IH (fuel - S j)%nat (days_later t dir (S j)) ltac:(lia) Hwj) as (k & -> & Hwk & Hc).
  rewrite days_later_add in Hwk |- *. exists (S j + k)%nat. split_and!; [done..|].
  cbn [Nat.add workdays]. rewrite Hw. rewrite day_of_step in Hnj. rewrite workdays_skip by done.
  replace (day_of t + dir + dir * Z.of_nat j) with (day_of (days_later t dir (S j)))
    by (rewrite day_of_later; lia). lia.
Qed.

(** The result of [walk_working_days_inclusive], for any base. *)
Lemma walk_working_days_spec base days dir : is_direction dir -> 0 < days ->
  exists k, walk_working_days_fuel (walk_fuel days) base days dir = Some (days_later base dir k) /\
    workday (day_of (days_later base dir k)) = true /\ workdays k (day_of base) dir = days.
Proof.
  intros Hd Hdays. unfold walk_working_days_fuel. rewrite (proj2 (Z.leb_gt days 0)) by done.
  destruct (next_workday (day_of base) dir Hd) as (j & Hj & Hw & Hn).
  rewrite (snap_skip dir j); [|lia|by rewrite day_of_later|intros i Hi; rewrite day_of_later; auto].
  cbn [mbind option_bind]. rewrite <- day_of_later in Hw.
  replace (days - 1) with (Z.of_nat (Z.to_nat (days - 1))) by lia.
  destruct (walk_loop_spec dir (Z.to_nat (days - 1)) Hd (walk_fuel days) (days_later base dir j))
    as (k & -> & Hwk & Hc); [unfold walk_fuel; lia|done|].
  rewrite days_later_add in *. exists (j + k)%nat. split_and!; [done..|].
  rewrite workdays_skip by done. rewrite <- day_of_later. lia.
Qed.

Lemma length_days_nonzero value u : value <> 0 -> 0 < Z.abs (length_to_working_days value u).
Proof.
  intros Hv. destruct u; cbn; unfold WORKING_DAYS_PER_WEEK, WORKING_DAYS_PER_MONTH, WORKING_DAYS_PER_YEAR;
    repeat case_match; lia.
Qed.

Lemma is_direction_opp dir : is_direction dir -> is_direction (- dir).
Proof. intros [-> | ->]; [by right|by left]. Qed.

(** C35: The date a lens shows for a task with a fixed start (or end) lies a
    whole number of days after it (before it).  For [duration] it is the day
    that makes the given number of calendar days, both ends included.  For
    [length] it is a Monday-to-Friday day, and the working days from the fixed
    end to it, both included, are exactly the given number; the loops that
    search for it end after at most seven rounds per working day. *)
Theorem inferred_date_correct owner kind value u :
  value <> 0 ->
  let '(base, dir) :=
    if tn_has_start owner then (tn_start_date owner, 1) else (tn_end_date owner, -1) in
  let days := Z.abs (if bool_decide (kind = KW_DURATION) then duration_to_calendar_days value u
                     else length_to_working_days value u) in
  exists k, inferred_date owner kind value u = days_later base dir k /\
    if bool_decide (kind = KW_DURATION) then Z.of_nat k = Z.max 0 (days - 1)
    else walk_working_days_fuel (walk_fuel days) base days dir = Some (days_later base dir k) /\
         is_weekend (inferred_date owner kind value u) = false /\ workdays k (day_of base) dir = days.
Proof.
  intros Hv. unfold inferred_date.
  assert (Hd : is_direction (if tn_has_start owner then 1 else -1)) by (case_match; [by left|by right]).
  destruct (tn_has_start owner); [generalize (tn_start_date owner)|generalize (tn_end_date owner)]; intros base;
  (case_bool_decide;
   [ exists (Z.to_nat (Z.max 0 (Z.abs (duration_to_calendar_days value u) - 1)));
     unfold walk_calendar_days_inclusive, days_later, SECONDS_PER_DAY; split; [case_match; lia|lia]
   | destruct (walk_working_days_spec base _ _ Hd (length_days_nonzero value u Hv)) as (k & Hk & Hw & Hc);
     exists k; unfold walk_working_days_inclusive; rewrite Hk, is_weekend_day; cbn [default from_option id]; by rewrite Hw ]).
Qed.

(** Walking back undoes walking forth: from the inferred end of a task
    that starts on a working day, the same length in the other direction gives
    the start again, so the lenses of the two ways to write a task agree. *)
Theorem walk_back_and_forth base days dir :
  is_direction dir -> 0 < days -> is_weekend base = false ->
  walk_working_days_inclusive (walk_working_days_inclusive base days dir) days (- dir) = base.
Proof.
  intros Hd Hdays Hw. rewrite is_weekend_day, negb_false_iff in Hw. unfold walk_working_days_inclusive.
  destruct (walk_working_days_spec base days dir Hd Hdays) as (k & -> & Hwk & Hc). cbn [default from_option id].
  destruct (walk_working_days_spec (days_later base dir k) days (- dir) (is_direction_opp _ Hd) Hdays)
    as (k' & -> & Hwk' & Hc'). cbn [default from_option id].
  rewrite day_of_later in *. rewrite day_of_later in Hwk'.
  assert (k' = k) as ->; [|unfold days_later; lia].
  apply (workdays_unique k' k (day_of base + dir * Z.of_nat k) (- dir)); [|done|].
  - rewrite Hc'. by rewrite workdays_reverse.
  - by replace (day_of base + dir * Z.of_nat k + - dir * Z.of_nat k) with (day_of base) by lia.
Qed.

(** 2024-01-05 is a Friday. *)
Lemma walk_back_and_forth_witness :
  walk_working_days_inclusive 1704412800 5 1 = 1704931200 /\
  walk_working_days_inclusive 1704931200 5 (-1) = 1704412800.
Proof.
  split; [by vm_compute|].
  apply (walk_back_and_forth 1704412800 5 1); [by left|lia|by vm_compute].
Defined.

(** A task that starts on Friday 2024-01-05 and takes five working days ends
    on Thursday 2024-01-11, six calendar days later. *)
Lemma inferred_date_correct_witness :
  let owner := TjNode KW_TASK None None zero_range zero_range 1704412800 0 true false [] [] in
  5 <> 0 /\ format_inferred_date_title owner KW_LENGTH 5 U_d
            = ARROW_ENDS ++ list_ascii_of_string "2024-01-11" /\
  exists k, inferred_date owner KW_LENGTH 5 U_d = days_later 1704412800 1 k /\
    workdays k (day_of 1704412800) 1 = 5.
Proof.
  split; [done|]. split; [by vm_compute|].
  destruct (inferred_date_correct (TjNode KW_TASK None None zero_range zero_range 1704412800 0 true false [] [])
              KW_LENGTH 5 U_d ltac:(done)) as (k & Hk & _ & _ & Hc).
  exists k. by split.
Defined.
