(* ===== verification/Lexer.v ===== *)
(** * The [yylex] wrapper of [lexer.l]: statement terminators and open bodies.

    [raw_yylex] is the scanner flex generates from the rules of lexer.l; here
    it is a stream of tokens, each with the flag "a line break was skipped
    before it".  The wrapper inserts [TK_EOL] and closes the bodies left open
    at the end of the file, with a one-token buffer and a 256-entry brace
    stack.  [terminated] is what it is meant to compute, without either. *)

From S2P Require Import Prelude Tokens Syntax.

(** ** Tokens on the value stack *)

Record Token : Set := mkTok {
  tok_kind : token_kind; tok_start : LspPos; tok_end : LspPos; tok_text : option string }.

(** Tokens that may end and tokens that may begin a statement. *)
Definition tok_can_end_stmt (k : token_kind) : bool :=
  match k with
  | TK_COMMA | TK_DOT | TK_COLON | TK_PLUS | TK_MINUS | TK_BANG
  | TK_LBRACE | TK_LBRACKET | TK_DOLLAR | TK_EOL | TK_EOF => false
  | _ => true
  end.

Definition tok_can_begin_stmt (k : token_kind) : bool :=
  match k with
  | TK_COMMA | TK_DOT | TK_COLON | TK_PLUS | TK_MINUS | TK_BANG
  | TK_LBRACE | TK_RBRACE | TK_LBRACKET | TK_RBRACKET | TK_PERCENT
  | TK_INTEGER | TK_FLOAT | TK_DATE | TK_DURATION | TK_STR | TK_MULTI_LINE_STR
  | TK_ERROR | TK_EOL | TK_EOF => false
  | _ => true
  end.

(** ** The scanner behind the wrapper *)

(** What is left to scan: tokens with their line-break flag, the flag of the
    end of input, and the position there. *)
Record raw_scanner : Set := mkRaw {
  raw_tokens : list (bool * Token); raw_eof_newline : bool; raw_eof : LspPos }.

Definition eof_token (p : LspPos) : Token := mkTok TK_EOF p p None.

(** One call, with [g_pending_newline] reset before and sampled after.  At the
    end of input flex keeps returning 0; the value then left in [yylval] is
    never read. *)
Definition raw_yylex (r : raw_scanner) : bool * Token * raw_scanner :=
  match raw_tokens r with
  | (nl, t) :: ts => (nl, t, mkRaw ts (raw_eof_newline r) (raw_eof r))
  | [] => (raw_eof_newline r, eof_token (raw_eof r), mkRaw [] false (raw_eof r))
  end.

(** ** The wrapper *)

Definition EOL_BRACE_MAX : nat := 256.

Record eol_state : Set := mkEol {
  g_prev_can_end : bool;
  g_prev_kind : token_kind;
  g_buffered : option Token;           (* [g_have_buffered] and the two [g_buffered_*] *)
  g_brace_is_macro : list bool;
  g_brace_depth : nat
}.

(** The array keeps its contents. *)
Definition reset_eol_state (st : eol_state) : eol_state :=
  mkEol false TK_EOF None (g_brace_is_macro st) 0.

Definition eol_token : Token := mkTok TK_EOL zero_pos zero_pos None.
Definition synthetic_rbrace (p : LspPos) : Token := mkTok TK_RBRACE p p (Some "}"%string).

(** The token to hand over next: the buffered one, or the scanner's, or a
    closing brace for a body still open at the end. *)
Definition next_token (st : eol_state) (r : raw_scanner) : bool * Token * raw_scanner :=
  match g_buffered st with
  | Some t => (false, t, r)
  | None =>
      let '(nl, t, r') := raw_yylex r in
      if bool_decide (tok_kind t = TK_EOF) && (0 <? g_brace_depth st)%nat
      then (nl, synthetic_rbrace (raw_eof r), r')
      else (nl, t, r')
  end.

Definition macro_close (st : eol_state) (k : token_kind) : bool :=
  bool_decide (k = TK_RBRACE) && (0 <? g_brace_depth st)%nat && (g_brace_depth st <=? EOL_BRACE_MAX)%nat
  && default false (g_brace_is_macro st !! Nat.pred (g_brace_depth st)).

Definition body_close (st : eol_state) (k : token_kind) : bool :=
  bool_decide (k = TK_RBRACE) && negb (macro_close st k).

(** Brace nesting and the previous token, for a token handed over. *)
Definition track_token (st : eol_state) (k : token_kind) : eol_state :=
  let '(arr, depth) :=
    if bool_decide (k = TK_LBRACE) then
      (if (g_brace_depth st <? EOL_BRACE_MAX)%nat
       then <[g_brace_depth st := bool_decide (g_prev_kind st = TK_DOLLAR)]> (g_brace_is_macro st)
       else g_brace_is_macro st,
       S (g_brace_depth st))
    else if bool_decide (k = TK_RBRACE) && (0 <? g_brace_depth st)%nat
    then (g_brace_is_macro st, Nat.pred (g_brace_depth st))
    else (g_brace_is_macro st, g_brace_depth st) in
  mkEol (tok_can_end_stmt k) k None arr depth.

Definition yylex (st : eol_state) (r : raw_scanner) : Token * eol_state * raw_scanner :=
  let '(newline_before, t, r') := next_token st r in
  let k := tok_kind t in
  if g_prev_can_end st &&
     ((newline_before && tok_can_begin_stmt k) || body_close st k || bool_decide (k = TK_EOF))
  then (eol_token, mkEol false (g_prev_kind st) (Some t) (g_brace_is_macro st) (g_brace_depth st), r')
  else (t, track_token st k, r').

(** The calls of the parser, until it receives the end of input. *)
Fixpoint yylex_tokens (fuel : nat) (st : eol_state) (r : raw_scanner) : option (list Token) :=
  match fuel with
  | O => None
  | S fuel' =>
      let '(t, st', r') := yylex st r in
      if bool_decide (tok_kind t = TK_EOF) then Some [t]
      else cons t <$> yylex_tokens fuel' st' r'
  end.

(** Each token costs at most two calls, and each brace may need another to
    close it. *)
Definition yylex_fuel (toks : list (bool * Token)) : nat := 4 * length toks + 2.

(** ** What it computes *)

(** Braces open so far, innermost first: whether each opened a [${..}].  The
    wrapper takes braces deeper than its array to be bodies. *)
Definition open_brace (prev_kind : token_kind) (stack : list bool) : list bool :=
  (if (length stack <? EOL_BRACE_MAX)%nat then bool_decide (prev_kind = TK_DOLLAR) else false) :: stack.

Definition braces_after (prev_kind : token_kind) (stack : list bool) (k : token_kind) : list bool :=
  if bool_decide (k = TK_LBRACE) then open_brace prev_kind stack
  else if bool_decide (k = TK_RBRACE) then tail stack else stack.

(** [}] closes a statement body, or nothing. *)
Definition closes_body (stack : list bool) (k : token_kind) : bool :=
  bool_decide (k = TK_RBRACE) && negb (default false (head stack)).

Definition eol_if (b : bool) : list Token := if b then [eol_token] else [].

Fixpoint closed_off (can_end : bool) (stack : list bool) (p : LspPos) : list Token :=
  match stack with
  | macro :: stack' =>
      eol_if (can_end && negb macro) ++ synthetic_rbrace p :: closed_off true stack' p
  | [] => eol_if can_end ++ [eof_token p]
  end.

Fixpoint terminated (can_end : bool) (prev_kind : token_kind) (stack : list bool)
    (toks : list (bool * Token)) (p : LspPos) : list Token :=
  match toks with
  | (nl, t) :: toks' =>
      let k := tok_kind t in
      eol_if (can_end && ((nl && tok_can_begin_stmt k) || closes_body stack k))
        ++ t :: terminated (tok_can_end_stmt k) k (braces_after prev_kind stack k) toks' p
  | [] => closed_off can_end stack p
  end.

(** Braces still open at the end, given [depth] open ones now. *)
Fixpoint unclosed (depth : nat) (toks : list (bool * Token)) : nat :=
  match toks with
  | (_, t) :: toks' =>
      unclosed (if bool_decide (tok_kind t = TK_LBRACE) then S depth
                else if bool_decide (tok_kind t = TK_RBRACE) then Nat.pred depth else depth) toks'
  | [] => depth
  end.

(** ** The brace stack *)

(** The array holds the lower [EOL_BRACE_MAX] entries of the stack; the
    entries above are bodies. *)
Definition stack_rep (st : eol_state) (stack : list bool) : Prop :=
  g_brace_depth st = length stack /\ length (g_brace_is_macro st) = EOL_BRACE_MAX /\
  forall i b, reverse stack !! i = Some b ->
    if (i <? EOL_BRACE_MAX)%nat then g_brace_is_macro st !! i = Some b else b = false.

Lemma reverse_lookup_top (b : bool) stack : reverse (b :: stack) !! length stack = Some b.
Proof. rewrite reverse_cons, lookup_app_r by (by rewrite length_reverse). by rewrite length_reverse, Nat.sub_diag. Qed.

Lemma reverse_lookup_below (b : bool) stack i :
  i < length stack -> reverse (b :: stack) !! i = reverse stack !! i.
Proof. intros. rewrite reverse_cons, lookup_app_l; [done|]. by rewrite length_reverse. Qed.

Lemma reverse_lookup_bound (stack : list bool) i b : reverse stack !! i = Some b -> i < length stack.
Proof. intros H%lookup_lt_Some. by rewrite length_reverse in H. Qed.

Lemma macro_close_rep st stack k : stack_rep st stack ->
  macro_close st k = bool_decide (k = TK_RBRACE) && default false (head stack).
Proof.
  intros (Hd & _ & Ha). unfold macro_close. destruct (bool_decide (k = TK_RBRACE)); [|done]. rewrite Hd.
  destruct stack as [|b stack]; [done|]. cbn [length head default from_option id Nat.pred].
  change (0 <? S (length stack))%nat with true.
  specialize (Ha _ _ (reverse_lookup_top b stack)). cbn [andb]. revert Ha.
  destruct (Nat.ltb_spec (length stack) EOL_BRACE_MAX) as [Hlt|Hge]; intros Ha.
  - rewrite Ha, (proj2 (Nat.leb_le (S (length stack)) EOL_BRACE_MAX)) by lia. done.
  - rewrite (proj2 (Nat.leb_gt (S (length stack)) EOL_BRACE_MAX)) by lia. by rewrite Ha.
Qed.

Lemma body_close_rep st stack k : stack_rep st stack -> body_close st k = closes_body stack k.
Proof.
  intros H. unfold body_close, closes_body. rewrite (macro_close_rep st stack k H).
  by destruct (bool_decide _).
Qed.

Lemma open_brace_rep st stack arr' :
  stack_rep st stack -> g_brace_is_macro st = arr' ->
  forall i b, reverse (open_brace (g_prev_kind st) stack) !! i = Some b ->
  if (i <? EOL_BRACE_MAX)%nat
  then (if (length stack <? EOL_BRACE_MAX)%nat
        then <[length stack := bool_decide (g_prev_kind st = TK_DOLLAR)]> arr' else arr') !! i = Some b
  else b = false.
Proof.
  intros (_ & Hl & Ha) <- i b Hi. unfold open_brace in Hi.
  pose proof (reverse_lookup_bound _ _ _ Hi) as Hb. cbn in Hb.
  destruct (decide (i = length stack)) as [->|Hne].
  - rewrite reverse_lookup_top in Hi. injection Hi as <-.
    destruct (length stack <? EOL_BRACE_MAX)%nat eqn:E; [|done].
    apply Nat.ltb_lt in E. apply list_lookup_insert_eq. lia.
  - rewrite reverse_lookup_below in Hi by lia. specialize (Ha i b Hi).
    destruct (i <? EOL_BRACE_MAX)%nat; [|done].
    destruct (length stack <? EOL_BRACE_MAX)%nat; [by rewrite list_lookup_insert_ne|done].
Qed.

Lemma track_token_rep st stack k : stack_rep st stack ->
  stack_rep (track_token st k) (braces_after (g_prev_kind st) stack k).
Proof.
  intros H. pose proof H as (Hd & Hl & Ha). unfold track_token, braces_after. rewrite Hd.
  case_bool_decide as Ek; cbn [g_brace_depth g_brace_is_macro].
  - split_and!; [done|cbn; case_match; [by rewrite length_insert|done]|]. by apply open_brace_rep.
  - case_bool_decide; cbn [andb]; [|done].
    destruct stack as [|b stack]; cbn [length Nat.ltb Nat.leb Nat.pred tail]; [done|].
    split_and!; [done..|]. intros i c Hi. apply Ha.
    rewrite reverse_lookup_below; [done|]. by apply reverse_lookup_bound in Hi.
Qed.

Lemma track_token_fields st k :
  g_buffered (track_token st k) = None /\ g_prev_can_end (track_token st k) = tok_can_end_stmt k /\
  g_prev_kind (track_token st k) = k.
Proof. unfold track_token. by repeat case_match. Qed.

(** ** One token *)

(** A token reaches the parser with the terminator it needs in front. *)
Lemma handover st stack r nl t r' fuel : stack_rep st stack -> g_buffered st = None ->
  next_token st r = (nl, t, r') ->
  let k := tok_kind t in
  let e := eol_if (g_prev_can_end st &&
             ((nl && tok_can_begin_stmt k) || closes_body stack k || bool_decide (k = TK_EOF))) in
  yylex_tokens (length e + S fuel) st r =
    if bool_decide (k = TK_EOF) then Some (e ++ [t])
    else (fun l => e ++ t :: l) <$> yylex_tokens fuel (track_token st k) r'.
Proof.
  intros Hrep Hbuf Hnext k e. subst e.
  assert (Hy : yylex st r =
    if g_prev_can_end st && ((nl && tok_can_begin_stmt k) || closes_body stack k || bool_decide (k = TK_EOF))
    then (eol_token, mkEol false (g_prev_kind st) (Some t) (g_brace_is_macro st) (g_brace_depth st), r')
    else (t, track_token st k, r')).
  { unfold yylex. rewrite Hnext, (body_close_rep st stack _ Hrep). done. }
  destruct (_ && _); cbn [eol_if length Nat.add app yylex_tokens]; rewrite Hy; [|done].
  cbn [tok_kind eol_token]. rewrite bool_decide_eq_false_2 by done.
  unfold yylex at 1. cbn [next_token g_buffered g_prev_can_end andb]. fold k.
  unfold track_token at 1. cbn [g_prev_kind g_brace_is_macro g_brace_depth]. fold (track_token st k).
  case_bool_decide; [done|]. by destruct (yylex_tokens fuel _ r').
Qed.

Lemma closed_off_run stack : forall fuel st nl p, stack_rep st stack -> g_buffered st = None ->
  length (closed_off (g_prev_can_end st) stack p) <= fuel ->
  yylex_tokens fuel st (mkRaw [] nl p) = Some (closed_off (g_prev_can_end st) stack p).
Proof.
  induction stack as [|macro stack IH]; intros fuel st nl p Hrep Hbuf Hf; pose proof Hrep as (Hd & _).
  - assert (Hn : next_token st (mkRaw [] nl p) = (nl, eof_token p, mkRaw [] false p)).
    { unfold next_token. rewrite Hbuf, Hd. done. }
    pose proof (fun fuel => handover _ _ _ _ _ _ fuel Hrep Hbuf Hn) as Hh. cbn zeta in Hh. revert Hf Hh.
    cbn [tok_kind eof_token closed_off tok_can_begin_stmt]. unfold closes_body. cbn [bool_decide].
    rewrite andb_false_r, !(bool_decide_eq_false_2 (TK_EOF = TK_RBRACE)), bool_decide_eq_true_2 by done.
    rewrite orb_true_r, andb_true_r, length_app. cbn [length]. intros Hf Hh.
    replace fuel with (length (eol_if (g_prev_can_end st)) + S (fuel - 1 - length (eol_if (g_prev_can_end st))))
      by lia. apply Hh.
  - assert (Hn : next_token st (mkRaw [] nl p) = (nl, synthetic_rbrace p, mkRaw [] false p)).
    { unfold next_token. rewrite Hbuf, Hd. done. }
    pose proof (fun fuel => handover _ _ _ _ _ _ fuel Hrep Hbuf Hn) as Hh. cbn zeta in Hh. revert Hf Hh.
    cbn [tok_kind synthetic_rbrace closed_off tok_can_begin_stmt]. unfold closes_body.
    rewrite bool_decide_eq_true_2, bool_decide_eq_false_2 by done.
    rewrite andb_false_r, orb_false_l, orb_false_r, length_app. cbn [length andb head default from_option id].
    intros Hf Hh.
    set (e := eol_if (g_prev_can_end st && negb macro)) in *.
    replace fuel with (length e + S (fuel - 1 - length e)) by lia. rewrite Hh.
    pose proof (track_token_rep st _ TK_RBRACE Hrep) as Ht.
    change (braces_after (g_prev_kind st) (macro :: stack) TK_RBRACE) with stack in Ht.
    destruct (track_token_fields st TK_RBRACE) as (Hb & He & _).
    rewrite (IH _ (track_token st TK_RBRACE) false p Ht Hb); rewrite He; cbn [tok_can_end_stmt]; [done|lia].
Qed.

Lemma terminated_run toks : forall fuel st stack nl p, stack_rep st stack -> g_buffered st = None ->
  Forall (fun x => tok_kind x.2 <> TK_EOF) toks ->
  length (terminated (g_prev_can_end st) (g_prev_kind st) stack toks p) <= fuel ->
  yylex_tokens fuel st (mkRaw toks nl p) =
    Some (terminated (g_prev_can_end st) (g_prev_kind st) stack toks p).
Proof.
  induction toks as [|[nl t] toks IH]; intros fuel st stack nlE p Hrep Hbuf Hk Hf.
  { by apply closed_off_run. }
  apply Forall_cons in Hk as [Hk Hks]. cbn [snd] in Hk.
  assert (Hn : next_token st (mkRaw ((nl, t) :: toks) nlE p) = (nl, t, mkRaw toks nlE p)).
  { unfold next_token. rewrite Hbuf. cbn [raw_yylex raw_tokens raw_eof_newline raw_eof].
    by rewrite bool_decide_eq_false_2. }
  pose proof (fun fuel => handover _ _ _ _ _ _ fuel Hrep Hbuf Hn) as Hh. cbn zeta in Hh.
  rewrite (bool_decide_eq_false_2 _ Hk) in Hh. cbn [terminated] in Hf |- *. revert Hf Hh.
  rewrite orb_false_r, length_app. cbn [length].
  set (e := eol_if (g_prev_can_end st && _)). intros Hf Hh.
  replace fuel with (length e + S (fuel - 1 - length e)) by lia. rewrite Hh.
  destruct (track_token_fields st (tok_kind t)) as (Hb & He & Hkind).
  pose proof (track_token_rep _ _ (tok_kind t) Hrep) as Ht.
  rewrite (IH _ (track_token st (tok_kind t)) _ nlE p Ht Hb Hks); rewrite He, Hkind; [done|lia].
Qed.

(** ** Length and content *)

Lemma length_eol_if b : length (eol_if b) <= 1.
Proof. by destruct b; cbn; lia. Qed.

Lemma length_closed_off e stack p : length (closed_off e stack p) <= 2 * length stack + 2.
Proof.
  revert e. induction stack as [|m stack IH]; intros e; cbn [closed_off]; rewrite length_app; cbn [length].
  - pose proof (length_eol_if e). lia.
  - pose proof (length_eol_if (e && negb m)). specialize (IH true). lia.
Qed.

Lemma length_braces_after pk stack k : length (braces_after pk stack k) =
  if bool_decide (k = TK_LBRACE) then S (length stack)
  else if bool_decide (k = TK_RBRACE) then Nat.pred (length stack) else length stack.
Proof. unfold braces_after. repeat case_match; [done| |done]. by destruct stack. Qed.

Lemma length_terminated toks : forall e pk stack p,
  length (terminated e pk stack toks p) <= 4 * length toks + 2 * length stack + 2.
Proof.
  induction toks as [|[nl t] toks IH]; intros e pk stack p; cbn [terminated].
  { cbn. pose proof (length_closed_off e stack p). lia. }
  rewrite length_app. cbn [length].
  specialize (IH (tok_can_end_stmt (tok_kind t)) (tok_kind t) (braces_after pk stack (tok_kind t)) p).
  rewrite length_braces_after in IH.
  match goal with |- context [length (eol_if ?b)] => pose proof (length_eol_if b) end.
  repeat case_match; lia.
Qed.

Lemma filter_eol_if b l : filter (fun t => tok_kind t <> TK_EOL) (eol_if b ++ l)
  = filter (fun t => tok_kind t <> TK_EOL) l.
Proof. destruct b; [|done]. cbn [eol_if app]. by rewrite filter_cons_False by (intros H; by apply H). Qed.

Lemma filter_closed_off e stack p : filter (fun t => tok_kind t <> TK_EOL) (closed_off e stack p)
  = replicate (length stack) (synthetic_rbrace p) ++ [eof_token p].
Proof.
  revert e. induction stack as [|m stack IH]; intros e; cbn [closed_off]; rewrite filter_eol_if; [done|].
  rewrite filter_cons_True by done. cbn. by rewrite IH.
Qed.

Lemma filter_terminated toks : forall e pk stack p, Forall (fun x => tok_kind x.2 <> TK_EOL) toks ->
  filter (fun t => tok_kind t <> TK_EOL) (terminated e pk stack toks p)
  = toks.*2 ++ replicate (unclosed (length stack) toks) (synthetic_rbrace p) ++ [eof_token p].
Proof.
  induction toks as [|[nl t] toks IH]; intros e pk stack p Hk; cbn [terminated unclosed].
  { by rewrite filter_closed_off. }
  apply Forall_cons in Hk as [Hk Hks]. rewrite filter_eol_if, filter_cons_True by done.
  rewrite IH by done. by rewrite length_braces_after.
Qed.

(** No terminator after a token that cannot end a statement, and none in front
    of a token that is neither a start of one, nor [}], nor the end. *)
Fixpoint eols_placed (can_end : bool) (l : list Token) : Prop :=
  match l with
  | [] => True
  | t :: l' =>
      (tok_kind t = TK_EOL -> can_end = true /\
         exists u, head l' = Some u /\
           (tok_can_begin_stmt (tok_kind u) = true \/ tok_kind u = TK_RBRACE \/ tok_kind u = TK_EOF)) /\
      eols_placed (tok_can_end_stmt (tok_kind t)) l'
  end.

Lemma eols_placed_step e b t l : tok_kind t <> TK_EOL ->
  (b = true -> e = true) ->
  (b = true -> tok_can_begin_stmt (tok_kind t) = true \/ tok_kind t = TK_RBRACE \/ tok_kind t = TK_EOF) ->
  eols_placed (tok_can_end_stmt (tok_kind t)) l -> eols_placed e (eol_if b ++ t :: l).
Proof.
  intros Ht Hb Hk Hl. destruct b; cbn; [|by split].
  split; [|by split]. intros _. split; [by apply Hb|]. exists t. split; [done|by apply Hk].
Qed.

Lemma eols_placed_closed_off e stack p : eols_placed e (closed_off e stack p).
Proof.
  revert e. induction stack as [|m stack IH]; intros e; cbn [closed_off].
  - apply eols_placed_step; [done..|by right; right|done].
  - apply eols_placed_step; [done|by destruct e|by right; left|apply IH].
Qed.

Lemma eols_placed_terminated toks : forall e pk stack p, Forall (fun x => tok_kind x.2 <> TK_EOL) toks ->
  eols_placed e (terminated e pk stack toks p).
Proof.
  induction toks as [|[nl t] toks IH]; intros e pk stack p Hk; cbn [terminated].
  { apply eols_placed_closed_off. }
  apply Forall_cons in Hk as [Hk Hks].
  apply eols_placed_step; [done|by destruct e| |by apply IH].
  intros [_ [[_ ?]%andb_true_iff|Hc]%orb_true_iff]%andb_true_iff; [by left|right; left].
  unfold closes_body in Hc. by apply andb_true_iff in Hc as [?%bool_decide_eq_true _].
Qed.

(** ** Properties *)

(** The state of a fresh parse. *)
Definition fresh (st : eol_state) : Prop := length (g_brace_is_macro st) = EOL_BRACE_MAX.

Lemma reset_rep st : fresh st -> stack_rep (reset_eol_state st) [].
Proof. intros H. by split_and!; [done|done|intros i b ?]. Qed.

(** C29: For every input the parser gets its end-of-input token after at most
    [4 n + 2] calls of [yylex] on [n] scanned tokens, and what it gets in all
    is the reference stream [terminated]: the buffer and the fixed brace array
    of the wrapper compute the same as an unbounded brace stack. *)
Theorem yylex_stream_correct st toks nl p :
  fresh st -> Forall (fun x => tok_kind x.2 <> TK_EOF) toks ->
  yylex_tokens (yylex_fuel toks) (reset_eol_state st) (mkRaw toks nl p) =
    Some (terminated false TK_EOF [] toks p).
Proof.
  intros Hf Hk. apply (terminated_run toks _ _ [] nl p (reset_rep st Hf)); [done|done|].
  pose proof (length_terminated toks false TK_EOF [] p). unfold yylex_fuel. cbn [length] in *.
  cbn [reset_eol_state g_prev_can_end g_prev_kind]. lia.
Qed.

(** The wrapper only adds tokens.  Without the terminators the parser sees
    the scanned tokens in order, then one [}] at the end of the file for every
    brace left open, then the end of input; and a terminator stands only
    between a token that can end a statement and one that begins a statement,
    closes a body or ends the input, so never two in a row. *)
Theorem yylex_only_adds st toks nl p :
  fresh st -> Forall (fun x => tok_kind x.2 <> TK_EOF /\ tok_kind x.2 <> TK_EOL) toks ->
  exists out, yylex_tokens (yylex_fuel toks) (reset_eol_state st) (mkRaw toks nl p) = Some out /\
    filter (fun t => tok_kind t <> TK_EOL) out
      = toks.*2 ++ replicate (unclosed 0 toks) (synthetic_rbrace p) ++ [eof_token p] /\
    eols_placed false out.
Proof.
  intros Hf Hk. exists (terminated false TK_EOF [] toks p).
  assert (Hk' : Forall (fun x => tok_kind x.2 <> TK_EOL) toks)
    by (eapply Forall_impl; [exact Hk|by intros ? []]).
  assert (Hk'' : Forall (fun x => tok_kind x.2 <> TK_EOF) toks)
    by (eapply Forall_impl; [exact Hk|by intros ? []]).
  split_and!; [|by apply (filter_terminated toks false TK_EOF [] p)|by apply eols_placed_terminated].
  apply (terminated_run toks _ _ [] nl p (reset_rep st Hf)); [done|done|].
  pose proof (length_terminated toks false TK_EOF [] p). unfold yylex_fuel. cbn [length] in *.
  cbn [reset_eol_state g_prev_can_end g_prev_kind]. lia.
Qed.

(** A file being edited: [task t { start 2024-01-01 <newline> note ${m}]. *)
Definition edited_file : list (bool * Token) :=
  (fun x => (x.1, mkTok x.2 zero_pos zero_pos None)) <$>
  [ (false, KW_TASK); (false, TK_IDENT); (false, TK_LBRACE); (true, KW_START); (false, TK_DATE);
    (true, KW_NOTE); (false, TK_DOLLAR); (false, TK_LBRACE); (false, TK_IDENT); (false, TK_RBRACE) ].

Definition initial_eol_state : eol_state := mkEol false TK_EOF None (replicate EOL_BRACE_MAX false) 0.

Lemma yylex_stream_correct_witness :
  tok_kind <$> terminated false TK_EOF [] edited_file zero_pos =
    [ KW_TASK; TK_IDENT; TK_LBRACE; KW_START; TK_DATE; TK_EOL; KW_NOTE; TK_DOLLAR; TK_LBRACE; TK_IDENT;
      TK_RBRACE; TK_EOL; TK_RBRACE; TK_EOL; TK_EOF ] /\
  yylex_tokens (yylex_fuel edited_file) (reset_eol_state initial_eol_state) (mkRaw edited_file true zero_pos)
    = Some (terminated false TK_EOF [] edited_file zero_pos).
Proof.
  split; [by vm_compute|].
  apply (yylex_stream_correct initial_eol_state edited_file true zero_pos); [by vm_compute|].
  repeat constructor; by vm_compute.
Defined.

Lemma yylex_only_adds_witness :
  unclosed 0 edited_file = 1 /\
  exists out, yylex_tokens (yylex_fuel edited_file) (reset_eol_state initial_eol_state)
                (mkRaw edited_file true zero_pos) = Some out /\ eols_placed false out.
Proof.
  split; [by vm_compute|].
  destruct (yylex_only_adds initial_eol_state edited_file true zero_pos) as (out & Ho & _ & He).
  - by vm_compute.
  - repeat constructor; by vm_compute.
  - exists out. by split.
Defined.
