(* ===== verification/Signature.v ===== *)
(** * [signature.c]: the active statement and its signature.

    [active_context] finds the keyword whose arguments are being typed, from
    the keyword stack of TokenQuery; the table gives its signature. *)

From S2P Require Import Prelude Tokens Syntax CText TokenQuery Rpc.
Local Open Scope Z_scope.

(** ** The active statement *)

Record ActiveContext : Set := mkActive { ac_keyword : option string; ac_arg_count : Z }.

Definition active_context (tokens : list TokenSpan) (cursor : LspPos) : ActiveContext :=
  match entry_at_depth (scan_kw_stack tokens cursor KW_SIG_END true 512) with
  | Some e => mkActive (Some (kw e)) (kw_argc e)
  | None => mkActive None 0
  end.

(** ** Signatures *)

Record SigDef : Set := mkSig { sig_label : string; sig_doc : string; sig_params : list string }.

Definition SIG (label doc : string) (params : list string) : SigDef :=
  mkSig (lit label) (lit doc) params.

(** The cases of [build_signature_help_json], in order. *)
Definition signatures_to_efficiency : list (string * SigDef) := (
  [
    ("project", SIG "project [<id>] <name> [<version>] <start> <end|+duration>"
       "Project header. Required exactly once per file."
       ["[<id>]"; "<name>"; "[<version>]"; "<start>"; "<end|+duration>"]);
    ("task", SIG "task [<id>] <name>"
       "Work package, summary task, or milestone."
       ["[<id>]"; "<name>"]);
    ("resource", SIG "resource [<id>] <name>"
       "Resource (person, team, or equipment)."
       ["[<id>]"; "<name>"]);
    ("account", SIG "account [<id>] <name>"
       "Cost/revenue account."
       ["[<id>]"; "<name>"]);
    ("shift", SIG "shift [<id>] <name>"
       "Named working-hours shift."
       ["[<id>]"; "<name>"]);
    ("macro", SIG "macro <ID> <MACRO>"
       "Reusable text macro. Body is enclosed in `[ ]`. Use `${1}`, `${2}`, ... for arguments."
       ["<ID>"; "<MACRO>"]);
    ("include", SIG "include <filename> [{ <attributes> }]"
       "Include another TaskJuggler file."
       ["<filename>"]);
    ("flags", SIG "flags <ID> [, <ID>...]"
       "Declare flag identifiers."
       ["<ID> [, <ID>...]"]);
    ("supplement", SIG "supplement (account|resource|task) <id> [{ <attributes> }]"
       "Add attributes to a previously-defined account, resource, or task."
       ["account|resource|task"; "<id>"]);
    ("scenario", SIG "scenario <id> <name> [{ <attributes> }]"
       "Alternative scheduling scenario."
       ["<id>"; "<name>"]);
    ("effort", SIG "effort <value> (min|h|d|w|m|y)"
       "Work required (e.g. `effort 5 d`, `effort 8 h`). Distributed across allocated resources."
       ["<value>"; "min|h|d|w|m|y"]);
    ("duration", SIG "duration <value> (min|h|d|w|m|y)"
       "Elapsed (wall-clock) duration, ignoring resource availability."
       ["<value>"; "min|h|d|w|m|y"]);
    ("length", SIG "length <value> (min|h|d|w|m|y)"
       "Duration in working time."
       ["<value>"; "min|h|d|w|m|y"]);
    ("milestone", SIG "milestone"
       "Mark as a zero-duration milestone."
       []);
    ("scheduled", SIG "scheduled"
       "Task has fixed, pre-computed dates. Requires manual bookings."
       []);
    ("depends", SIG "depends <id> [{ <attributes> }] [, <id> [{ <attributes> }]...]"
       "Finish-to-start dependency. Use `!` prefix for relative paths, `!!` to go up a level."
       ["<id> [, <id>...]"]);
    ("precedes", SIG "precedes <id> [{ <attributes> }] [, <id> [{ <attributes> }]...]"
       "Reverse dependency: listed tasks cannot start before this one finishes."
       ["<id> [, <id>...]"]);
    ("allocate", SIG "allocate <resource> [{ <attributes> }] [, <resource> [{ <attributes> }]...]"
       "Assign resources to this task."
       ["<resource> [, <resource>...]"]);
    ("start", SIG "start <date>"
       "Hard constraint on start date (`YYYY-MM-DD[-HH:MM]`). Task will not start earlier."
       ["<date>"]);
    ("end", SIG "end <date>"
       "Hard constraint on end date (`YYYY-MM-DD[-HH:MM]`). Task will not end later."
       ["<date>"]);
    ("maxstart", SIG "maxstart <date>"
       "Maximum desired start date. Reported as error if violated after scheduling."
       ["<date>"]);
    ("minstart", SIG "minstart <date>"
       "Minimum desired start date. Reported as error if violated after scheduling."
       ["<date>"]);
    ("maxend", SIG "maxend <date>"
       "Maximum desired end date. Reported as error if violated after scheduling."
       ["<date>"]);
    ("minend", SIG "minend <date>"
       "Minimum desired end date. Reported as error if violated after scheduling."
       ["<date>"]);
    ("priority", SIG "priority <value>"
       "Scheduling priority 1-1000 (default 500). Higher value wins contested resources."
       ["<value>"]);
    ("complete", SIG "complete <percent>"
       "Completion percentage (0-100) for progress tracking."
       ["<percent>"]);
    ("note", SIG "note <STRING>"
       "Attach a note or description to the task."
       ["<STRING>"]);
    ("responsible", SIG "responsible <resource> [, <resource>...]"
       "Resource(s) accountable for this task (informational only, not used in scheduling)."
       ["<resource> [, <resource>...]"]);
    ("booking", SIG "booking <resource> <interval> [, <interval>...] [{ <attributes> }]"
       "Record actual work already performed on this task."
       ["<resource>"; "<interval> [, <interval>...]"]);
    ("rate", SIG "rate (<INTEGER>|<FLOAT>)"
       "Daily cost rate in the project currency."
       ["<INTEGER>|<FLOAT>"]);
    ("efficiency", SIG "efficiency (<INTEGER>|<FLOAT>)"
       "Work output multiplier (default 1.0; >1.0 above average, <1.0 reduced)."
       ["<INTEGER>|<FLOAT>"])
  ])%string.

Definition signatures_from_vacation : list (string * SigDef) := (
  [
    ("vacation", SIG "vacation <name> <interval> [, <interval>...]"
       "Define a vacation / unavailability period."
       ["<name>"; "<interval> [, <interval>...]"]);
    ("leaves", SIG "leaves (project|annual|special|sick|unpaid|holiday|unemployed) [<name>] <interval> [, ...]"
       "Leave block by type. Name is optional."
       ["project|annual|special|sick|unpaid|holiday|unemployed"; "[<name>]"; "<interval>"]);
    ("now", SIG "now <date>"
       "Reference date for reports and progress calculations (default: system clock)."
       ["<date>"]);
    ("currency", SIG "currency <symbol>"
       "Currency unit for all monetary values (e.g. `~USD~`, `~EUR~`)."
       ["<symbol>"]);
    ("timeformat", SIG "timeformat <format>"
       "Date/time format string using `%` specifiers (e.g. `~%Y-%m-%d~`)."
       ["<format>"]);
    ("timezone", SIG "timezone <zone>"
       "IANA timezone for all date calculations (e.g. `~Europe/Berlin~`, `~America/New_York~`)."
       ["<zone>"]);
    ("workinghours", SIG "workinghours <weekday> [- <weekday>] [, ...] (off | <HH:MM> - <HH:MM> [, <HH:MM> - <HH:MM>...])"
       "Working hours. Days: `mon`, `tue`, `wed`, `thu`, `fri`, `sat`, `sun`, ranges like `mon-fri`, or `off`."
       ["<weekday> [- <weekday>]"; "off | <HH:MM> - <HH:MM>"]);
    ("timingresolution", SIG "timingresolution <INTEGER> min"
       "Scheduling granularity in minutes (valid: 5-60, default 60). The `min` unit suffix is required."
       ["<INTEGER>"])
  ])%string.

Definition signature_table : list (string * SigDef) := signatures_to_efficiency ++ signatures_from_vacation.

(** A SignatureHelp answer has one signature, active; [activeParameter] is null
    without parameters. *)
Record signature_help : Set := mkSigHelp {
  sh_label : string; sh_doc : string; sh_params : list string; sh_active : option Z }.

(** [make_sig_json]. *)
Definition make_sig_json (def : SigDef) (active_param : Z) : signature_help :=
  let nparams := Z.of_nat (length (sig_params def)) in
  let clamped := if nparams =? 0 then 0
                 else if active_param <? nparams then active_param else nparams - 1 in
  mkSigHelp (sig_label def) (sig_doc def) (sig_params def)
    (if nparams >? 0 then Some clamped else None).

(** The first matching [strcmp]. *)
Fixpoint table_lookup {A} (table : list (string * A)) (k : string) : option A :=
  match table with
  | [] => None
  | (k', v) :: table' => if bool_decide (k = k') then Some v else table_lookup table' k
  end.

Definition build_signature_help_json (k : option string) (active_param : Z) : option signature_help :=
  k ≫= fun k => (fun d => make_sig_json d active_param) <$> table_lookup signature_table k.

(** [None] is the JSON [null]. *)
Definition handle_signature_help `{Yyjson} (params : option yyjson_val) (d : option query_doc)
  : option signature_help :=
  match request_position params, d with
  | Some pos, Some d =>
      let ac := active_context (qd_tok_spans d) pos in
      match ac_keyword ac with
      | None => None
      | Some k => build_signature_help_json (Some k) (ac_arg_count ac)
      end
  | _, _ => None
  end.

(** ** The table and the scanner agree *)

Lemma table_lookup_find {A} (table : list (string * A)) k v :
  table_lookup table k = Some v -> (k, v) ∈ table.
Proof.
  induction table as [|[k' v'] table IH]; cbn; [done|].
  case_bool_decide as E; [intros [= ->]; subst; left|intros; right; auto].
Qed.

(** The lexeme of a keyword kind. *)
Definition lexeme_of (k : token_kind) : option string :=
  fst <$> List.find (fun e => bool_decide (e.2 = k)) lexer_keywords.

Lemma lexeme_of_keyword k lex : lexeme_of k = Some lex -> (lex, k) ∈ lexer_keywords.
Proof.
  unfold lexeme_of. destruct (List.find _ _) as [[l k']|] eqn:E; [|done]. intros [= <-].
  apply List.find_some in E as [Hin Hk%bool_decide_eq_true]. cbn in Hk. subst. by apply list_elem_of_In.
Qed.

(** What the scanner calls a keyword below a sentinel is in a table. *)
Definition covers (kind_max : token_kind) (keys : list string) (k : token_kind) : bool :=
  implb (below kind_max k && lexed_kind k)
    (match lexeme_of k with Some lex => bool_decide (lex ∈ keys) | None => false end).

Lemma covered_entry kind_max keys tokens e : forallb (covers kind_max keys) all_kinds = true ->
  Forall lexeme_ok tokens -> entry_from kind_max tokens e -> kw e ∈ keys.
Proof.
  intros Hc Hl [_ (t & Hin & _ & Htext & _ & Hb)]. rewrite Forall_forall in Hl.
  destruct (Hl t Hin) as [Hlex Hkw]. pose proof (forall_kinds _ Hc (ts_kind t)) as Hk.
  unfold covers in Hk. rewrite Hb, Hlex in Hk. cbn [andb implb] in Hk.
  destruct (lexeme_of (ts_kind t)) as [lex|] eqn:E; [|done]. apply bool_decide_eq_true in Hk.
  specialize (Hkw lex (lexeme_of_keyword _ _ E)). rewrite Htext in Hkw. by injection Hkw as ->.
Qed.

Lemma table_covered {A} (table : list (string * A)) k : k ∈ table.*1 -> is_Some (table_lookup table k).
Proof.
  induction table as [|[k' v] table IH]; cbn; [by intros ?%elem_of_nil|].
  intros [->|Hin]%elem_of_cons; [rewrite bool_decide_eq_true_2 by done; eauto|].
  case_bool_decide; eauto.
Qed.

Lemma signatures_cover : forallb (covers KW_SIG_END signature_table.*1) all_kinds = true.
Proof. vm_compute. reflexivity. Qed.

(** A label starts with its keyword. *)
Lemma signature_labels : Forall (fun e => String.prefix e.1 (sig_label e.2) = true) signature_table.
Proof. apply (bool_decide_unpack _). vm_compute. exact I. Qed.

(** Signature help answers exactly where there is an active statement: for
    tokens as the scanner records them the request returns null only
    without a position, a document or an active keyword, since every kind below
    [KW_SIG_END] has its entry in the table.  The label is that keyword's, and
    the active parameter is the argument being typed, clamped to the last one,
    and null without parameters; so it is always a valid index. *)
Theorem signature_help_total `{Yyjson} params d pos :
  request_position params = Some pos -> Forall lexeme_ok (qd_tok_spans d) ->
  let ac := active_context (qd_tok_spans d) pos in
  match handle_signature_help params (Some d) with
  | None => ac_keyword ac = None
  | Some sh => exists k, ac_keyword ac = Some k /\ String.prefix k (sh_label sh) = true /\
      match sh_active sh with
      | None => sh_params sh = []
      | Some a => a = Z.min (ac_arg_count ac) (Z.of_nat (length (sh_params sh)) - 1) /\
                  0 <= a < Z.of_nat (length (sh_params sh))
      end
  end.
Proof.
  intros Hp Hl. cbn zeta. unfold handle_signature_help. rewrite Hp. unfold active_context.
  destruct (entry_at_depth _) as [e|] eqn:E; cbn [ac_keyword ac_arg_count]; [|done].
  apply entry_at_depth_from in E. pose proof E as [Hargc _].
  destruct (table_covered signature_table (kw e)) as [def Hd].
  { by apply (covered_entry KW_SIG_END _ (qd_tok_spans d)); [apply signatures_cover|..]. }
  cbn [build_signature_help_json mbind option_bind]. rewrite Hd. cbn [fmap option_fmap option_map].
  exists (kw e). split; [done|]. apply table_lookup_find in Hd.
  pose proof signature_labels as Hlab. rewrite Forall_forall in Hlab. specialize (Hlab _ Hd).
  split; [exact Hlab|]. unfold make_sig_json. cbn [sh_active sh_params].
  destruct (sig_params def) as [|p ps] eqn:Ep; [done|].
  rewrite (proj2 (Z.gtb_lt (Z.of_nat (length (p :: ps))) 0)) by (cbn [length]; lia).
  rewrite (proj2 (Z.eqb_neq (Z.of_nat (length (p :: ps))) 0)) by (cbn [length]; lia).
  destruct (Z.ltb_spec (kw_argc e) (Z.of_nat (length (p :: ps)))); cbn [length] in *; lia.
Qed.

(** [booking dev 2024-01-01 |]: the second of two parameters, and the cursor
    past the last one. *)
Definition booking_tokens : list TokenSpan :=
  [ mkSpan KW_BOOKING (mkPos 0 0) (mkPos 0 7) (Some "booking"%string);
    mkSpan TK_IDENT (mkPos 0 8) (mkPos 0 11) (Some "dev"%string);
    mkSpan TK_DATE (mkPos 0 12) (mkPos 0 22) (Some "2024-01-01"%string) ].

Definition booking_doc : query_doc :=
  mkQueryDoc EmptyString None
    (mkDocSnapshot 1 EmptyString EmptyString tj_node_new booking_tokens [None; None; None] 3).

Definition position_params (l c : Z) : sample_json :=
  JObj [("position"%string, JObj [("line"%string, JNum l); ("character"%string, JNum c)])].

Lemma lexeme_ok_dec_all tokens :
  forallb (fun t => lexed_kind (ts_kind t) &&
                    match lexeme_of (ts_kind t) with
                    | Some lex => bool_decide (ts_text t = Some lex)
                    | None => true end) tokens = true -> Forall lexeme_ok tokens.
Proof.
  intros Hf. apply Forall_forall. intros t Hin. rewrite forallb_forall in Hf.
  specialize (Hf t (proj1 (list_elem_of_In _ _) Hin)). apply andb_true_iff in Hf as [Hk Hf].
  split; [done|]. intros lex Hlex.
  destruct (lexeme_of (ts_kind t)) as [lex'|] eqn:E.
  - apply bool_decide_eq_true in Hf. rewrite Hf. apply lexeme_of_keyword in E.
    apply list_elem_of_lookup in Hlex as [i Hi]. apply list_elem_of_lookup in E as [j Hj].
    assert (i = j) as ->.
    { apply (NoDup_lookup lexer_keywords.*2 _ _ (ts_kind t) lexer_keywords_kinds_nodup);
        rewrite list_lookup_fmap; [by rewrite Hi|by rewrite Hj]. }
    rewrite Hi in Hj. by injection Hj as ->.
  - unfold lexeme_of in E. destruct (List.find _ _) eqn:Ef; [done|].
    apply list_elem_of_In in Hlex. pose proof (List.find_none _ _ Ef _ Hlex) as Hn.
    cbn in Hn. by rewrite bool_decide_eq_true_2 in Hn.
Qed.

Lemma signature_help_total_witness :
  sh_active <$> handle_signature_help (Some (position_params 0 12)) (Some booking_doc) = Some (Some 1) /\
  sh_active <$> handle_signature_help (Some (position_params 0 23)) (Some booking_doc) = Some (Some 1) /\
  match handle_signature_help (Some (position_params 0 23)) (Some booking_doc) with
  | None => False
  | Some sh => exists k, ac_keyword (active_context booking_tokens (mkPos 0 23)) = Some k
  end.
Proof.
  split; [by vm_compute|]. split; [by vm_compute|].
  pose proof (signature_help_total (Some (position_params 0 23)) booking_doc (mkPos 0 23) eq_refl
                (lexeme_ok_dec_all booking_tokens ltac:(by vm_compute))) as Hw.
  destruct (handle_signature_help _ _) as [sh|] eqn:E; [|vm_compute in E; discriminate].
  destruct Hw as (k & Hk & _). by exists k.
Defined.
