(* ===== verification/Hover.v ===== *)
(** * [hover.c]: keyword documentation and the hover request.

    The documentation table is searched with [bsearch]; a dependency under the
    cursor takes precedence over the keyword it belongs to.  The lookups the
    request builds on are in TokenQuery and References. *)

From S2P Require Import Prelude Tokens Syntax CText TokenQuery ProjectTree References Rpc Signature.
From stdpp Require Import sorting.
Local Open Scope Z_scope.

(** ** The table *)

Definition keyword_docs_to_resource : list (string * string) := (
  [
    ("account", "**`account`** *(declaration)*\\Defines a cost/revenue account used for project accounting.\\**Syntax:** `account <id> ~<name>~ { … }`");
    ("allocate", "**`allocate`** *(task attribute)*\\Assigns one or more resources to the task for scheduling purposes.\\**Syntax:** `allocate <resource-id> [{ … }] [, …]`\\**Example:** `allocate alice, bob`");
    ("booking", "**`booking`** *(task attribute)*\\Records actual work already performed on a task by a resource on a specific date, used for progress tracking.\\**Syntax:** `booking <resource-id> <date> <duration> { … }`");
    ("complete", "**`complete`** *(task attribute)*\\The percentage of the task that is already done (0–100). Used in progress tracking and reports.\\**Syntax:** `complete <0–100>`");
    ("currency", "**`currency`** *(project attribute)*\\Sets the currency symbol displayed in cost/revenue reports.\\**Syntax:** `currency ~<symbol>~`\\**Example:** `currency ~EUR~`");
    ("depends", "**`depends`** *(task attribute)*\\Specifies finish-to-start dependencies on other tasks. The current task cannot start until all listed tasks have finished.\\**Syntax:** `depends <task-id> [{ gap <duration> }] [, …]`\\**Example:** `depends !design, !prototype`");
    ("duration", "**`duration`** *(task attribute)*\\The elapsed (wall-clock) duration of the task, regardless of resource availability or working hours.\\**Syntax:** `duration <value><unit>`\\**Units:** `min`, `h`, `d`, `w`, `m`");
    ("efficiency", "**`efficiency`** *(resource attribute)*\\A multiplier (default 1.0) applied to the resource’s work output. `efficiency 0.5` means the resource works at half speed.\\**Syntax:** `efficiency <number>`");
    ("effort", "**`effort`** *(task attribute)*\\The amount of work required to complete the task, expressed in time units. The scheduler distributes this across allocated resources.\\**Syntax:** `effort <value><unit>`\\**Units:** `min`, `h`, `d` (days), `w` (weeks), `m` (months)\\**Example:** `effort 5d`");
    ("end", "**`end`** *(task / project attribute)*\\Pins the end date of a task or defines the project end date.\\**Syntax:** `end <YYYY-MM-DD[-HH:MM]>`");
    ("flags", "**`flags`** *(declaration)*\\Declares one or more flag identifiers that can later be set on tasks, resources, or accounts and used in reports.\\**Syntax:** `flags <id> [, <id> …]`");
    ("include", "**`include`** *(directive)*\\Includes another TaskJuggler file at this point in the project.\\**Syntax:** `include ~<filename>~`");
    ("leaves", "**`leaves`** *(resource / project attribute)*\\Defines a leave block (holiday, sick leave, etc.) similar to `vacation` but with a typed category.\\**Syntax:** `leaves <type> <date> [+<duration>]`\\**Types:** `annual`, `sick`, `special`, `unpaid`");
    ("length", "**`length`** *(task attribute)*\\The duration of the task measured in working days/hours, as opposed to calendar time (`duration`).\\**Syntax:** `length <value><unit>`");
    ("macro", "**`macro`** *(declaration)*\\Defines a reusable text macro. The body is enclosed in `[ … ]` and may contain `${1}`, `${2}`, … placeholders for arguments.\\**Syntax:** `macro <id> [ <body> ]`");
    ("maxend", "**`maxend`** *(task attribute)*\\Sets a latest-allowed end date.\\**Syntax:** `maxend <YYYY-MM-DD>`");
    ("maxstart", "**`maxstart`** *(task attribute)*\\Sets a latest-allowed start date. The scheduler reports an error if the task would start later than this date.\\**Syntax:** `maxstart <YYYY-MM-DD>`");
    ("milestone", "**`milestone`** *(task attribute)*\\Marks the task as a milestone (zero duration). A milestone represents a point-in-time event rather than a work package.\\**Syntax:** `milestone`");
    ("minend", "**`minend`** *(task attribute)*\\Sets an earliest-allowed end date.\\**Syntax:** `minend <YYYY-MM-DD>`");
    ("minstart", "**`minstart`** *(task attribute)*\\Sets an earliest-allowed start date.\\**Syntax:** `minstart <YYYY-MM-DD>`");
    ("note", "**`note`** *(task / resource attribute)*\\Attaches a free-text note to the task or resource.\\**Syntax:** `note ~<text>~`");
    ("now", "**`now`** *(project attribute)*\\Sets the reference date used as “today” in reports and progress calculations. Defaults to the current date.\\**Syntax:** `now <YYYY-MM-DD>`");
    ("precedes", "**`precedes`** *(task attribute)*\\The reverse of `depends`: lists tasks that must not start before this task finishes.\\**Syntax:** `precedes <task-id> [, …]`");
    ("priority", "**`priority`** *(task attribute)*\\Sets the scheduling priority. Higher values (0–1000, default 500) cause the task to be scheduled before lower-priority tasks when resources are contested.\\**Syntax:** `priority <0–1000>`");
    ("project", "**`project`** *(declaration)*\\Defines the project header. Required exactly once per TJP file.\\**Syntax:** `project <id> ~<name>~ <start> <end|duration> { … }`\\**Example:**\```\project acso ~Accounting Software~ 2024-01-01 +6m { }\```");
    ("rate", "**`rate`** *(resource attribute)*\\The daily cost rate of the resource in the project currency, used for cost calculations.\\**Syntax:** `rate <number>`");
    ("resource", "**`resource`** *(declaration)*\\Defines a resource (person, team, or piece of equipment) that can be allocated to tasks.\\**Syntax:** `resource <id> ~<name>~ { … }`\\**Common body attributes:** `rate`, `workinghours`, `vacation`, `leaves`, `efficiency`, `limits`")
  ])%string.

Definition keyword_docs_from_responsible : list (string * string) := (
  [
    ("responsible", "**`responsible`** *(task attribute)*\\Names the resource(s) accountable for completing the task. Informational only; does not affect scheduling.\\**Syntax:** `responsible <resource-id> [, …]`");
    ("scenario", "**`scenario`** *(project attribute)*\\Defines a scheduling scenario for what-if analysis. The default scenario is always `plan`.\\**Syntax:** `scenario <id> ~<name>~ { … }`");
    ("scheduled", "**`scheduled`** *(task attribute)*\\Marks a task as having fixed, pre-computed start and end dates that the scheduler should not change.\\**Syntax:** `scheduled`");
    ("shift", "**`shift`** *(declaration)*\\Defines a named set of working hours that can be assigned to resources or tasks.\\**Syntax:** `shift <id> ~<name>~ { workinghours … }`");
    ("start", "**`start`** *(task / project attribute)*\\Pins the start date of a task or defines the project start date.\\**Syntax:** `start <YYYY-MM-DD[-HH:MM]>`");
    ("supplement", "**`supplement`** *(declaration)*\\Adds attributes to a previously-defined task or resource without redefining it. Useful when splitting definitions across included files.\\**Syntax:** `supplement task|resource <id> { … }`");
    ("task", "**`task`** *(declaration)*\\Defines a work package, summary task, or milestone. Tasks may be nested to form a work-breakdown structure.\\**Syntax:** `task <id> ~<name>~ { … }`\\**Common body attributes:** `effort`, `duration`, `depends`, `allocate`, `milestone`, `start`, `end`, `priority`, `complete`");
    ("timeformat", "**`timeformat`** *(project attribute)*\\Sets the `strftime`-style format string used when displaying dates.\\**Syntax:** `timeformat ~<format>~`\\**Example:** `timeformat ~%Y-%m-%d~`");
    ("timezone", "**`timezone`** *(project attribute)*\\Sets the timezone for all date calculations. Uses IANA tz database names.\\**Syntax:** `timezone ~<tz>~`\\**Example:** `timezone ~America/New_York~`");
    ("timingresolution", "**`timingresolution`** *(project attribute)*\\Sets the scheduling granularity in minutes (default 60). Smaller values give finer-grained schedules at the cost of longer computation.\\**Syntax:** `timingresolution <minutes>`");
    ("vacation", "**`vacation`** *(resource / project attribute)*\\Defines a vacation period during which the resource is unavailable (or a project-wide holiday).\\**Syntax:** `vacation ~<name>~ <date> [+<duration> | - <date>]`");
    ("workinghours", "**`workinghours`** *(project / resource / shift attribute)*\\Defines which hours of the day and days of the week are working time.\\**Syntax:** `workinghours <days> <HH:MM> - <HH:MM> [, …]`\\**Days:** `mon`, `tue`, `wed`, `thu`, `fri`, `sat`, `sun`, ranges like `mon-fri`, or `off`\\**Example:** `workinghours mon-fri 9:00 - 17:00`")
  ])%string.

Definition keyword_doc_table : list (string * string) := keyword_docs_to_resource ++ keyword_docs_from_responsible.

(** [strcmp] on strings without NUL bytes: the bytes compared as unsigned
    numbers. *)
Definition keyword_doc_cmp (key : string) (elem : string * string) : comparison :=
  String.compare key elem.1.

(** [bsearch] of the C library: the half-open interval [l, u) of candidates is
    cut at its middle. *)
Section Bsearch.
Context {K V : Type} (cmp : K -> V -> comparison).

Fixpoint bsearch_loop (fuel : nat) (key : K) (table : list V) (l u : Z) : option V :=
  match fuel with
  | O => None
  | S fuel' =>
      if l <? u then
        let idx := (l + u) / 2 in
        match table !! Z.to_nat idx with
        | None => None
        | Some elem =>
            match cmp key elem with
            | Lt => bsearch_loop fuel' key table l idx
            | Gt => bsearch_loop fuel' key table (idx + 1) u
            | Eq => Some elem
            end
        end
      else None
  end.

Definition bsearch (key : K) (table : list V) : option V :=
  bsearch_loop (S (length table)) key table 0 (Z.of_nat (length table)).
End Bsearch.

Definition keyword_docs (k : option string) : option string :=
  k ≫= fun k => (fun e => lit e.2) <$> bsearch keyword_doc_cmp k keyword_doc_table.

(** ** The request *)

(** The Markdown and its range; [None] is the JSON [null].  The memo of the
    project tree is threaded. *)
Definition handle_hover `{Yyjson} (params : option yyjson_val) (project_root : option ProjectNode) (m : memo)
    (d : option query_doc) : option (string * LspRange) * memo :=
  match request_position params, d with
  | Some pos, Some d =>
      match try_dependency_hover project_root m d pos with
      | (Some h, m') => (Some h, m')
      | (None, m') =>
          match active_keyword_at (qd_tok_spans d) pos with
          | None => (None, m')
          | Some (k, r) => ((fun docs => (docs, r)) <$> keyword_docs (Some k), m')
          end
      end
  | _, _ => (None, m)
  end.

(** ** Binary search *)

Section BsearchSpec.
Context {K V : Type} (cmp : K -> V -> comparison) (key : K) (table : list V).

(** What [bsearch] requires: the entries before which the key sorts come last,
    those after which it sorts come first. *)
Hypothesis less_up : forall i j a b, (i <= j)%nat -> table !! i = Some a -> table !! j = Some b ->
  cmp key a = Lt -> cmp key b = Lt.
Hypothesis greater_down : forall i j a b, (i <= j)%nat -> table !! i = Some a -> table !! j = Some b ->
  cmp key b = Gt -> cmp key a = Gt.

Lemma bsearch_loop_spec fuel : forall l u, 0 <= l -> u <= Z.of_nat (length table) -> u - l < Z.of_nat fuel ->
  (forall i e, table !! i = Some e -> Z.of_nat i < l -> cmp key e = Gt) ->
  (forall i e, table !! i = Some e -> u <= Z.of_nat i -> cmp key e = Lt) ->
  match bsearch_loop cmp fuel key table l u with
  | Some e => e ∈ table /\ cmp key e = Eq
  | None => forall e, e ∈ table -> cmp key e <> Eq
  end.
Proof.
  induction fuel as [|fuel IH]; intros l u Hl Hu Hf Hbelow Habove; cbn [bsearch_loop].
  { intros e [i Hi]%list_elem_of_lookup He. pose proof (Hbelow i e Hi). pose proof (Habove i e Hi).
    destruct (Z.lt_ge_cases (Z.of_nat i) l); [by rewrite H in He|]. by rewrite H0 in He by lia. }
  destruct (Z.ltb_spec l u) as [Hlu|Hlu].
  2: { intros e [i Hi]%list_elem_of_lookup He. pose proof (Hbelow i e Hi). pose proof (Habove i e Hi).
       destruct (Z.lt_ge_cases (Z.of_nat i) l); [by rewrite H in He|]. by rewrite H0 in He by lia. }
  assert (Hidx : l <= (l + u) / 2 < u) by (Z.to_euclidean_division_equations; lia).
  set (idx := (l + u) / 2) in *.
  destruct (table !! Z.to_nat idx) as [elem|] eqn:E; [|apply lookup_ge_None in E; lia].
  destruct (cmp key elem) eqn:Ec.
  - split; [|done]. by apply list_elem_of_lookup_2 in E.
  - apply IH; [lia..|done|]. intros i e Hi Hge. apply (less_up (Z.to_nat idx) i elem); [lia|done..].
  - apply IH; [lia..| |done]. intros i e Hi Hlt. apply (greater_down i (Z.to_nat idx) e elem); [lia|done..].
Qed.

Lemma bsearch_spec : match bsearch cmp key table with
  | Some e => e ∈ table /\ cmp key e = Eq
  | None => forall e, e ∈ table -> cmp key e <> Eq
  end.
Proof.
  apply bsearch_loop_spec; [lia..| |].
  - intros. lia.
  - intros i e Hi%lookup_lt_Some ?. lia.
Qed.
End BsearchSpec.

(** ** The documentation table is sorted *)

Definition str_lt (a b : string) : Prop := String.compare a b = Lt.

#[global] Instance str_lt_dec a b : Decision (str_lt a b).
Proof. unfold str_lt. solve_decision. Defined.

Lemma str_lt_le a b : str_lt a b -> String.le a b.
Proof. unfold str_lt, String.le, String.leb. by intros ->. Qed.

Lemma str_compare_refl a : String.compare a a = Eq.
Proof. pose proof (String.compare_antisym a a). by destruct (String.compare a a). Qed.

Lemma str_lt_irrefl a : ~ str_lt a a.
Proof. unfold str_lt. by rewrite str_compare_refl. Qed.

Lemma str_lt_gt a b : String.compare a b = Gt <-> str_lt b a.
Proof.
  unfold str_lt. rewrite (String.compare_antisym b a). destruct (String.compare a b); cbn; split; congruence.
Qed.

#[global] Instance str_lt_trans : Transitive str_lt.
Proof.
  intros a b c Hab Hbc. pose proof (transitivity (str_lt_le _ _ Hab) (str_lt_le _ _ Hbc)) as Hac.
  unfold str_lt, String.le, String.leb in *. destruct (String.compare a c) eqn:E; [|done|done].
  apply String.compare_eq_iff in E. subst c. apply str_lt_gt in Hbc. congruence.
Qed.

Lemma StronglySorted_lookup {A} (R : A -> A -> Prop) (l : list A) i j a b :
  StronglySorted R l -> (i < j)%nat -> l !! i = Some a -> l !! j = Some b -> R a b.
Proof.
  intros Hs. revert i j. induction Hs as [|x l _ IH Hx]; intros [|i] [|j] Hij Ha Hb; cbn in *; try done; try lia.
  - injection Ha as ->. rewrite Forall_lookup in Hx. by apply (Hx j).
  - apply (IH i j); [lia|done..].
Qed.

Lemma table_sorted : StronglySorted str_lt keyword_doc_table.*1.
Proof.
  apply Sorted_StronglySorted; [apply _|]. apply (bool_decide_unpack _). vm_compute. exact I.
Qed.

Lemma table_ascends i j a b : (i < j)%nat -> keyword_doc_table !! i = Some a ->
  keyword_doc_table !! j = Some b -> str_lt a.1 b.1.
Proof.
  intros Hij Ha Hb.
  apply (StronglySorted_lookup str_lt (keyword_doc_table.*1) i j); [apply table_sorted|done| |];
    rewrite list_lookup_fmap; [by rewrite Ha|by rewrite Hb].
Qed.

Lemma keyword_doc_search k :
  match bsearch keyword_doc_cmp k keyword_doc_table with
  | Some e => e ∈ keyword_doc_table /\ e.1 = k
  | None => k ∉ keyword_doc_table.*1
  end.
Proof.
  assert (Hs : match bsearch keyword_doc_cmp k keyword_doc_table with
    | Some e => e ∈ keyword_doc_table /\ keyword_doc_cmp k e = Eq
    | None => forall e, e ∈ keyword_doc_table -> keyword_doc_cmp k e <> Eq
    end).
  { apply bsearch_spec; intros i j a b Hij Ha Hb Hc; unfold keyword_doc_cmp in *;
      (destruct (decide (i = j)) as [->|Hne]; [by simplify_eq|]);
      pose proof (table_ascends i j a b ltac:(lia) Ha Hb) as Hab.
    - by apply (str_lt_trans k a.1 b.1).
    - apply str_lt_gt in Hc. apply str_lt_gt. by apply (str_lt_trans a.1 b.1 k). }
  destruct (bsearch _ _ _) as [e|].
  - destruct Hs as [He Hc]. split; [done|]. by apply String.compare_eq_iff in Hc.
  - intros [e [-> He]]%list_elem_of_fmap. apply (Hs e He). apply str_compare_refl.
Qed.

Lemma keyword_docs_nodup : NoDup keyword_doc_table.*1.
Proof. apply (bool_decide_unpack _). vm_compute. exact I. Qed.

Lemma table_lookup_in {A} (table : list (string * A)) k v : NoDup table.*1 -> (k, v) ∈ table ->
  table_lookup table k = Some v.
Proof.
  induction table as [|[k' v'] table IH]; cbn; [by intros _ ?%elem_of_nil|].
  intros [Hn Hd]%NoDup_cons [[= -> ->]|Hin]%elem_of_cons; [by rewrite bool_decide_eq_true_2|].
  rewrite bool_decide_eq_false_2; [by apply IH|]. intros ->. apply Hn.
  apply list_elem_of_fmap. by exists (k', v).
Qed.

Lemma documentation_covers : forallb (covers KW_DOCS_END keyword_doc_table.*1) all_kinds = true.
Proof. vm_compute. reflexivity. Qed.

(** The binary search of the hover table answers like a linear search, for
    every keyword: the table is strictly sorted by [strcmp]. *)
Theorem keyword_docs_correct k :
  keyword_docs (Some k) = lit <$> table_lookup keyword_doc_table k.
Proof.
  unfold keyword_docs. cbn [mbind option_bind]. pose proof (keyword_doc_search k) as Hs.
  destruct (bsearch _ _ _) as [[k' docs]|].
  - destruct Hs as [Hin Hk]. cbn in Hk. subst k'. by rewrite (table_lookup_in _ _ _ keyword_docs_nodup Hin).
  - destruct (table_lookup keyword_doc_table k) as [v|] eqn:E; [|done].
    apply table_lookup_find in E. destruct Hs. apply list_elem_of_fmap. by exists (k, v).
Qed.

Lemma active_keyword_from tokens pos k r : active_keyword_at tokens pos = Some (k, r) ->
  exists e, entry_from KW_DOCS_END tokens e /\ kw e = k /\ kw_range e = r.
Proof.
  unfold active_keyword_at. destruct (entry_at_depth _) as [e|] eqn:E; [|done]. intros [= <- <-].
  exists e. split; [|done]. by apply (entry_at_depth_from _ _ _ _ _ _ E).
Qed.

Lemma docs_mention_keyword : Forall (fun e =>
  String.prefix ("**`" +:+ e.1 +:+ "`**")%string (lit e.2) = true) keyword_doc_table.
Proof. apply (bool_decide_unpack _). vm_compute. exact I. Qed.

(** The answer of the hover request: the declaration a dependency under
    the cursor resolves to, or else the documentation of the active keyword,
    which starts with that keyword and comes with the range of a keyword token
    of the document.  For tokens as the scanner records them it is null
    only if there is neither, since every kind below [KW_DOCS_END] is
    documented. *)
Theorem hover_total `{Yyjson} params project_root m d pos :
  request_position params = Some pos -> Forall lexeme_ok (qd_tok_spans d) ->
  match (handle_hover params project_root m (Some d)).1, (try_dependency_hover project_root m d pos).1 with
  | a, Some h => a = Some h
  | Some (text, r), None => exists k t, active_keyword_at (qd_tok_spans d) pos = Some (k, r) /\
      String.prefix ("**`" +:+ k +:+ "`**")%string text = true /\
      t ∈ qd_tok_spans d /\ ts_text t = Some k /\ r = mkRange (ts_start t) (ts_end t)
  | None, None => active_keyword_at (qd_tok_spans d) pos = None
  end.
Proof.
  intros Hp Hl. unfold handle_hover. rewrite Hp.
  destruct (try_dependency_hover project_root m d pos) as [[h|] m']; cbn [fst]; [by destruct h|].
  destruct (active_keyword_at (qd_tok_spans d) pos) as [[k r]|] eqn:E; [|done]. cbn [fst].
  destruct (active_keyword_from _ _ _ _ E) as (e & He & <- & Hr).
  rewrite keyword_docs_correct.
  destruct (table_covered keyword_doc_table (kw e)) as [docs Hd].
  { by apply (covered_entry KW_DOCS_END _ (qd_tok_spans d)); [apply documentation_covers|..]. }
  rewrite Hd. cbn [fmap option_fmap option_map].
  destruct He as [_ (t & Hin & _ & Htext & Hrange & _)]. exists (kw e), t.
  split_and!; [done| |done|done|congruence].
  apply table_lookup_find in Hd. pose proof docs_mention_keyword as Hm. rewrite Forall_forall in Hm.
  by apply (Hm _ Hd).
Qed.

(** The cursor on the argument of [booking]. *)
Lemma hover_total_witness :
  (handle_hover (Some (position_params 0 9)) None ∅ (Some booking_doc)).1
    = Some (default EmptyString (keyword_docs (Some "booking"%string)), mkRange (mkPos 0 0) (mkPos 0 7)) /\
  match (handle_hover (Some (position_params 0 9)) None ∅ (Some booking_doc)).1 with
  | Some (text, r) => exists k t, active_keyword_at booking_tokens (mkPos 0 9) = Some (k, r) /\
      t ∈ booking_tokens /\ ts_text t = Some k
  | None => False
  end.
Proof.
  split; [by vm_compute|].
  pose proof (hover_total (Some (position_params 0 9)) None ∅ booking_doc (mkPos 0 9) eq_refl
                (lexeme_ok_dec_all booking_tokens ltac:(by vm_compute))) as Hw.
  destruct (handle_hover _ _ _ _) as [[[text r]|] m'] eqn:E; [|vm_compute in E; discriminate].
  cbn [fst try_dependency_hover] in *. destruct Hw as (k & t & Hk & _ & Ht & Htext & _).
  exists k, t. by split_and!.
Defined.
