(* ===== verification/Completion.v ===== *)
(** * [completion.c]: what is offered at a cursor.

    Either identifiers (inside the arguments of a keyword that takes them) or
    keywords (at the start of a statement), or nothing.  [None] is the JSON
    [null] throughout. *)

From S2P Require Import Prelude Tokens Syntax CText TokenQuery ProjectTree Store Rpc Signature.
Local Open Scope Z_scope.

Definition CIK_FUNCTION : Z := 3.
Definition CIK_VARIABLE : Z := 6.
Definition CIK_CLASS : Z := 7.
Definition CIK_KEYWORD : Z := 14.
Definition CIK_REFERENCE : Z := 18.

(** ** Text *)


(** A pointer into the text: what lies before it, nearest first, and what
    lies from it on. *)
Definition text_pos : Type := list ascii * list ascii.

Fixpoint find_line_start (before p : list ascii) (line target_line : Z) : text_pos :=
  match p with
  | [] => (before, [])
  | c :: p' =>
      if line <? target_line
      then find_line_start (c :: before) p' (if bool_decide (c = newline) then line + 1 else line) target_line
      else (before, p)
  end.

(** The [for] loop of [cursor_in_dquote]. *)
Fixpoint dquote_scan (p : list ascii) (in_string : bool) (col cursor_col : Z) : bool :=
  match p with
  | [] => in_string
  | c :: p' =>
      if bool_decide (c = newline) || negb (col <? cursor_col) then in_string
      else if in_string then
        match p' with
        | c2 :: p'' =>
            if bool_decide (c = backslash) && negb (bool_decide (c2 = newline))
            then dquote_scan p'' in_string (col + 2) cursor_col
            else dquote_scan p' (negb (bool_decide (c = dquote))) (col + 1) cursor_col
        | [] => negb (bool_decide (c = dquote))
        end
      else dquote_scan p' (bool_decide (c = dquote)) (col + 1) cursor_col
  end.

Definition cursor_in_dquote (text : list ascii) (cursor : LspPos) (tokens : list TokenSpan) : bool :=
  match tok_span_at tokens cursor with
  | Some ts => if bool_decide (ts_kind ts = TK_STR) then true
               else dquote_scan (find_line_start [] text 0 (line cursor)).2 false 0 (character cursor)
  | None => dquote_scan (find_line_start [] text 0 (line cursor)).2 false 0 (character cursor)
  end.

(** The column walk of [cursor_in_scissors]. *)
Fixpoint advance_cols (before p : list ascii) (col cursor_col : Z) : text_pos :=
  match p with
  | [] => (before, [])
  | c :: p' =>
      if bool_decide (c = newline) || negb (col <? cursor_col) then (before, p)
      else advance_cols (c :: before) p' (col + 1) cursor_col
  end.

(** The backward scan; the arguments are [p[0], p[-1], ...]. *)
Fixpoint scissors_back (before : list ascii) : bool :=
  match before with
  | c0 :: ((c1 :: c2 :: c3 :: _) as rest) =>
      if bool_decide ([c3; c2; c1; c0] = ["-"; ">"; "8"; "-"]%char) then false
      else if bool_decide ([c3; c2; c1; c0] = ["-"; "8"; "<"; "-"]%char) then true
      else scissors_back rest
  | _ => false
  end.

Definition cursor_in_scissors (text : list ascii) (cursor : LspPos) (tokens : list TokenSpan) : bool :=
  match tok_span_at tokens cursor with
  | Some ts => bool_decide (ts_kind ts = TK_MULTI_LINE_STR)
  | None =>
      let '(before, p) := find_line_start [] text 0 (line cursor) in
      scissors_back (advance_cols before p 0 (character cursor)).1
  end.

(** ** Token context *)

Definition is_comment (k : token_kind) : bool :=
  bool_decide (k = TK_LINE_COMMENT) || bool_decide (k = TK_BLOCK_COMMENT).

Fixpoint line_first_word (tokens : list TokenSpan) (cursor : LspPos) : option string :=
  match tokens with
  | [] => None
  | t :: tokens' =>
      if bool_decide (ts_kind t = TK_EOF) then None
      else if is_comment (ts_kind t) then line_first_word tokens' cursor
      else if line (ts_start t) <? line cursor then line_first_word tokens' cursor
      else if line (ts_start t) >? line cursor then None
      else if bool_decide (ts_kind t = TK_IDENT) then ts_text t else None
  end.

Fixpoint at_statement_start (tokens : list TokenSpan) (cursor : LspPos) : bool :=
  match tokens with
  | [] => true
  | t :: tokens' =>
      if bool_decide (ts_kind t = TK_EOF) then true
      else if is_comment (ts_kind t) then at_statement_start tokens' cursor
      else if line (ts_start t) >? line cursor then true
      else if (line (ts_start t) =? line cursor) && (character (ts_start t) <? character cursor) then false
      else at_statement_start tokens' cursor
  end.

Definition partial_word (tokens : list TokenSpan) (cursor : LspPos) : string :=
  match tok_span_at tokens cursor with
  | Some span => if bool_decide (ts_kind span = TK_IDENT) then default EmptyString (ts_text span)
                 else EmptyString
  | None => EmptyString
  end.

(** Outermost first; the synthetic root is the first entry. *)
Definition block_stack (root : tj_node) (tokens : list TokenSpan)
    (owners : list (option node_path)) (cursor : LspPos) : list token_kind :=
  match tj_node_at root tokens owners cursor with
  | None => []
  | Some p => reverse ((fun e => tn_keyword e.2) <$> parent_chain root p)
  end.

(** ** Keyword tables *)

Abbreviation KwEntry := (string * string)%type.

Definition TOPLEVEL_KWS : list KwEntry := (
  [ ("project", "Project header (required once per file)");
    ("task", "Work package, summary task, or milestone");
    ("resource", "Person, team, or equipment");
    ("account", "Cost/revenue account");
    ("shift", "Named working-hours shift");
    ("scenario", "Alternative scheduling scenario");
    ("macro", "Reusable text macro");
    ("include", "Include another .tjp/.tji file");
    ("flags", "Declare flag identifiers");
    ("supplement", "Add attributes to an existing declaration");
    ("rate", "Default daily cost rate for all resources");
    ("leaves", "Global leave block");
    ("vacation", "Global vacation / unavailability period");
    ("now", "Reference date for reports");
    ("currency", "Currency symbol");
    ("timeformat", "Date/time display format string");
    ("timezone", "IANA timezone identifier");
    ("workinghours", "Working hours definition");
    ("timingresolution", "Scheduling granularity in minutes");
    ("balance", "Profit/loss account pair");
    ("extend", "Add custom attributes to a built-in type");
    ("navigator", "Navigation bar for HTML reports");
    ("taskreport", "Task-based report definition");
    ("textreport", "HTML/text report definition");
    ("resourcereport", "Resource-based report definition") ])%string.

Definition TASK_KWS : list KwEntry := (
  [ ("task", "Sub-task");
    ("effort", "Work required, e.g. `effort 5d`");
    ("duration", "Elapsed wall-clock duration");
    ("length", "Duration in working time");
    ("milestone", "Mark as a zero-duration milestone");
    ("scheduled", "Task has fixed pre-computed dates");
    ("depends", "Finish-to-start dependency on task id(s)");
    ("precedes", "Reverse dependency: listed tasks start after this one");
    ("allocate", "Assign resource(s) to this task");
    ("start", "Hard start date constraint (YYYY-MM-DD)");
    ("end", "Hard end date constraint (YYYY-MM-DD)");
    ("maxstart", "Maximum desired start date");
    ("minstart", "Minimum desired start date");
    ("maxend", "Maximum desired end date");
    ("minend", "Minimum desired end date");
    ("priority", "Scheduling priority 1-1000 (default 500)");
    ("complete", "Completion percentage 0-100");
    ("note", "Attach a text note");
    ("responsible", "Resource(s) accountable for this task");
    ("booking", "Record actual work performed");
    ("charge", "Charge amount to an account");
    ("chargeset", "Account to book labor costs to");
    ("purge", "Remove an inherited attribute value");
    ("journalentry", "Status / journal entry");
    ("flags", "Assign flags to this task");
    ("supplement", "Add attributes to an existing task");
    ("limits", "Effort or allocation limits (dailymax, weeklymax, ...)");
    ("statusnote", "Status note for dashboards") ])%string.

Definition RESOURCE_KWS : list KwEntry := (
  [ ("resource", "Sub-resource");
    ("rate", "Daily cost rate");
    ("efficiency", "Work output multiplier (default 1.0)");
    ("vacation", "Vacation / unavailability period");
    ("leaves", "Leave block by type");
    ("workinghours", "Working hours override for this resource");
    ("limits", "Working limits (dailymax, weeklymax, ...)");
    ("flags", "Assign flags");
    ("managers", "Manager resource(s)");
    ("booking", "Record actual work performed");
    ("journalentry", "Journal entry");
    ("supplement", "Add attributes to an existing resource");
    ("shift", "Apply a working-hours shift") ])%string.

Definition PROJECT_KWS : list KwEntry := (
  [ ("scenario", "Define a scheduling scenario");
    ("extend", "Add custom attributes to a built-in type");
    ("timezone", "IANA timezone identifier");
    ("timeformat", "Date/time display format string");
    ("now", "Reference date for reports");
    ("currency", "Currency symbol");
    ("workinghours", "Default working hours");
    ("timingresolution", "Scheduling granularity in minutes");
    ("dailyworkinghours", "Hours per working day");
    ("weeklyworkinghours", "Hours per working week");
    ("balance", "Profit/loss account pair");
    ("outputdir", "Output directory for generated reports") ])%string.

Definition ACCOUNT_KWS : list KwEntry := (
  [ ("account", "Sub-account");
    ("credit", "Credit transaction");
    ("debit", "Debit transaction") ])%string.

(** Blocks that are looked through. *)
Definition transparent (kw : token_kind) : bool :=
  bool_decide (kw ∈ [KW_LIMITS; KW_JOURNALENTRY; KW_SUPPLEMENT; KW_EXTEND; KW_SCENARIO; KW_NAVIGATOR;
                     KW_TASKREPORT; KW_TEXTREPORT; KW_RESOURCEREPORT; KW_SHIFT]).

(** The loop from the innermost entry. *)
Fixpoint kws_from (rstack : list token_kind) : list KwEntry :=
  match rstack with
  | [] => TOPLEVEL_KWS
  | kw :: rstack' =>
      if bool_decide (kw = KW_TASK) then TASK_KWS
      else if bool_decide (kw = KW_RESOURCE) then RESOURCE_KWS
      else if bool_decide (kw = KW_PROJECT) then PROJECT_KWS
      else if bool_decide (kw = KW_ACCOUNT) then ACCOUNT_KWS
      else if transparent kw then kws_from rstack' else TOPLEVEL_KWS
  end.

Definition kws_for_stack (stack : list token_kind) : list KwEntry := kws_from (reverse stack).

(** ** Identifiers *)

Record IdEntry : Set := mkId { ie_id : string; ie_name : string }.

#[global] Instance IdEntry_eq_dec : EqDecision IdEntry.
Proof. solve_decision. Defined.

(** One round of the loop of [collect_ids], with the recursive calls. *)
Fixpoint collect_node (kind : token_kind) (prefix : string) (sym : tj_node) : list IdEntry :=
  match (if bool_decide (tn_keyword sym = kind) then nonempty_id sym else None) with
  | Some id =>
      let qualified_id := match prefix with
                          | EmptyString => id
                          | _ => (prefix +:+ "." +:+ id)%string
                          end in
      mkId qualified_id (default EmptyString (tn_name sym))
        :: flat_map (collect_node kind qualified_id) (tn_children sym)
  | None => flat_map (collect_node kind prefix) (tn_children sym)
  end.

Definition collect_ids (kind : token_kind) (prefix : string) (syms : list tj_node) : list IdEntry :=
  flat_map (collect_node kind prefix) syms.

(** Outermost first. *)
Definition current_task_scope (root : tj_node) (tokens : list TokenSpan)
    (owners : list (option node_path)) (cursor : LspPos) : list string :=
  match tj_node_at root tokens owners cursor with
  | None => []
  | Some p => reverse (chain_ids KW_TASK (parent_chain root p))
  end.

(** The index of the last non-comment token before the cursor, or -1. *)
Fixpoint last_before (cursor : LspPos) (i : Z) (tokens : list TokenSpan) (last : Z) : Z :=
  match tokens with
  | [] => last
  | t :: tokens' =>
      if bool_decide (ts_kind t = TK_EOF) then last
      else if pos_cmp cursor (ts_start t) <? 0 then last
      else last_before cursor (i + 1) tokens' (if is_comment (ts_kind t) then last else i)
  end.

(** The backward loop: the count and the earliest bang's position. *)
Fixpoint bangs_back (rtokens : list TokenSpan) (count : Z) (first : LspPos) : Z * LspPos :=
  match rtokens with
  | [] => (count, first)
  | t :: rest =>
      if is_comment (ts_kind t) then bangs_back rest count first
      else if negb (bool_decide (ts_kind t = TK_BANG)) then (count, first)
      else bangs_back rest (count + 1) (ts_start t)
  end.

Definition count_leading_bangs (tokens : list TokenSpan) (cursor : LspPos) : Z * LspPos :=
  let last := last_before cursor 0 tokens (-1) in
  let last :=
    if last >=? 0 then
      match tokens !! Z.to_nat last with
      | Some t => if bool_decide (ts_kind t = TK_IDENT) then last - 1 else last
      | None => last
      end
    else last in
  bangs_back (reverse (take (Z.to_nat (last + 1)) tokens)) 0 zero_pos.

(** ** Items *)

Definition completion_kind_for (keyword : token_kind) : Z :=
  match keyword with
  | KW_TASK => CIK_FUNCTION
  | KW_RESOURCE => CIK_CLASS
  | KW_ACCOUNT => CIK_VARIABLE
  | _ => CIK_REFERENCE
  end.

Definition decl_keywords : list string :=
  ["project"; "task"; "resource"; "account"; "shift"; "scenario"; "macro"; "include"; "supplement"]%string.

Definition is_decl_keyword (fw : option string) : bool :=
  match fw with Some w => bool_decide (w ∈ decl_keywords) | None => false end.

(** [None] is 0. *)
Definition id_kind_for_keyword (keyword : option string) : option token_kind :=
  match keyword with
  | None => None
  | Some k =>
      if bool_decide (k ∈ ["depends"; "precedes"]%string) then Some KW_TASK
      else if bool_decide (k ∈ ["allocate"; "responsible"; "managers"]%string) then Some KW_RESOURCE
      else if bool_decide (k ∈ ["chargeset"; "balance"]%string) then Some KW_ACCOUNT
      else None
  end.

Record item : Set := mkItem {
  ci_label : string; ci_kind : Z; ci_detail : string; ci_sort : string;
  ci_edit : option (LspRange * string)
}.

Definition collect_all_ids (symbols : list tj_node) (extra_pools : list (list tj_node))
    (id_kind : token_kind) : list IdEntry :=
  collect_ids id_kind EmptyString symbols ++ flat_map (collect_ids id_kind EmptyString) extra_pools.

(** The label buffer. *)
Definition LABELED_SIZE : nat := 1024.

Definition emit_id_item (e : IdEntry) (id_kind : token_kind) (bang_prefix : string)
    (first_bang_pos cursor : LspPos) : item :=
  let '(label, edit) :=
    match bang_prefix with
    | EmptyString => (ie_id e, None)
    | _ =>
        if (LABELED_SIZE <? String.length bang_prefix + String.length (ie_id e) + 1)%nat
        then (ie_id e, None)
        else let labeled := (bang_prefix +:+ ie_id e)%string in
             (labeled, Some (mkRange first_bang_pos cursor, labeled))
    end in
  mkItem label (completion_kind_for id_kind) (ie_name e) "0"%string edit.

(** [memset (bang_prefix, '!', n)].  The code's buffer has room for 63 of them
    and is not checked; the properties stay below. *)
Fixpoint bangs (n : nat) : string :=
  match n with O => EmptyString | S n' => String "!"%char (bangs n') end.

(** The candidates of a dependency, the bang prefix, and [isIncomplete]. *)
Definition dep_candidates (root : tj_node) (tokens : list TokenSpan)
    (owners : list (option node_path)) (cursor : LspPos) (symbols : list tj_node)
    (extra_pools : list (list tj_node)) (id_kind : token_kind) (bang_count : Z) : list IdEntry :=
  if bang_count =? 0 then collect_all_ids symbols extra_pools id_kind
  else
    let scope := current_task_scope root tokens owners cursor in
    let scope_n := Z.of_nat (length scope) in
    if bang_count <=? scope_n then
      match tj_node_find_path symbols (take (Z.to_nat (scope_n - bang_count)) scope) with
      | Some ch => collect_ids id_kind EmptyString ch
      | None => []
      end
    else [].

Definition build_dep_completions (root : tj_node) (tokens : list TokenSpan)
    (owners : list (option node_path)) (cursor : LspPos) (symbols : list tj_node)
    (extra_pools : list (list tj_node)) (id_kind : token_kind) : list item * bool :=
  let '(bang_count, first_bang_pos) := count_leading_bangs tokens cursor in
  ((fun e => emit_id_item e id_kind (bangs (Z.to_nat bang_count)) first_bang_pos cursor)
     <$> dep_candidates root tokens owners cursor symbols extra_pools id_kind bang_count,
   bang_count >? 0).

Definition build_id_completions (root : tj_node) (tokens : list TokenSpan)
    (owners : list (option node_path)) (cursor : LspPos) (symbols : list tj_node)
    (extra_pools : list (list tj_node)) (id_kind : token_kind) : list item * bool :=
  if bool_decide (id_kind = KW_TASK)
  then build_dep_completions root tokens owners cursor symbols extra_pools id_kind
  else ((fun e => emit_id_item e id_kind EmptyString zero_pos zero_pos)
          <$> collect_all_ids symbols extra_pools id_kind, false).

Definition kw_item (e : KwEntry) : item := mkItem e.1 CIK_KEYWORD e.2 "1"%string None.

Definition build_keyword_completions (tokens : list TokenSpan) (cursor : LspPos) (partial : string)
    (stack : list token_kind) : list item :=
  if negb (bool_decide (partial = EmptyString)) || at_statement_start tokens cursor then
    kw_item <$> filter (fun e => bool_decide (partial = EmptyString)
                                 || istarts (list_ascii_of_string e.1) (list_ascii_of_string partial) = true)
                  (kws_for_stack stack)
  else [].

(** ** The request *)

(** The items gathered before [done:]. *)
Definition completion_items (root : tj_node) (tokens : list TokenSpan)
    (owners : list (option node_path)) (cursor : LspPos) (symbols : list tj_node)
    (extra_pools : list (list tj_node)) : list item * bool :=
  let partial := partial_word tokens cursor in
  let first_word := line_first_word tokens cursor in
  if is_decl_keyword first_word then ([], false)
  else
    let keywords := (build_keyword_completions tokens cursor partial
                       (block_stack root tokens owners cursor), false) in
    if match first_word with
       | None => true
       | Some w => bool_decide (partial = EmptyString) || negb (bool_decide (w = partial))
       end
    then match id_kind_for_keyword (ac_keyword (active_context tokens cursor)) with
         | Some id_kind => build_id_completions root tokens owners cursor symbols extra_pools id_kind
         | None => keywords
         end
    else keywords.

(** [isIncomplete] and the items. *)
Definition build_completions_json (root : tj_node) (tokens : list TokenSpan)
    (owners : list (option node_path)) (cursor : LspPos) (symbols : list tj_node)
    (extra_pools : list (list tj_node)) (text : list ascii) : option (bool * list item) :=
  if cursor_in_dquote text cursor tokens || cursor_in_scissors text cursor tokens then None
  else
    let '(items, is_incomplete) := completion_items root tokens owners cursor symbols extra_pools in
    match items with
    | [] => None
    | _ => Some (is_incomplete, items)
    end.

(** The top-level declarations of the non-primary documents of the query, the
    first [MAX_DOCS]. *)
Definition collect_sibling_pools (docs : list (query_doc * bool)) : list (list tj_node) :=
  take MAX_DOCS (omap (fun d => if d.2 : bool then None else Some (doc_symbol_pool (Some d.1))) docs).

Definition handle_completion `{Yyjson} (params : option yyjson_val) (docs : list (query_doc * bool))
    (d : option query_doc) : option (bool * list item) :=
  match request_position params, d with
  | Some pos, Some d =>
      build_completions_json (qd_root d) (qd_tok_spans d) (qd_tok_owners d) pos
        (doc_symbol_pool (Some d)) (collect_sibling_pools docs)
        (list_ascii_of_string (snap_text (qd_snap d)))
  | _, _ => None
  end.

(** ** Collected identifiers *)

Lemma join_dots_snoc pre id : Forall (fun s => s <> EmptyString) pre ->
  join_dots (pre ++ [id]) = match join_dots pre with
                            | EmptyString => id
                            | _ => (join_dots pre +:+ "." +:+ id)%string
                            end.
Proof.
  induction 1 as [|s pre Hs Hpre IH]; [done|]. destruct pre as [|s2 pre].
  { cbn. by destruct s. }
  change ((s :: s2 :: pre) ++ [id]) with (s :: ((s2 :: pre) ++ [id])).
  assert (Hne : join_dots (s2 :: pre) <> EmptyString).
  { apply Forall_cons in Hpre as [Hs2 _]. destruct pre; cbn; [done|]. by destruct s2. }
  assert (Hj : join_dots (s :: ((s2 :: pre) ++ [id])) = (s +:+ "." +:+ join_dots ((s2 :: pre) ++ [id]))%string).
  { destruct ((s2 :: pre) ++ [id]) eqn:E; [by destruct pre|done]. }
  rewrite Hj, IH. change (join_dots (s :: s2 :: pre)) with (s +:+ "." +:+ join_dots (s2 :: pre))%string.
  destruct (join_dots (s2 :: pre)) as [|c r]; [done|]. destruct s as [|x s]; [done|].
  transitivity ((String x s +:+ "." +:+ String c r) +:+ "." +:+ id)%string; [by rewrite !str_app_assoc|done].
Qed.

(** The ids of kind [kind] on the way from [n] to its descendant at [p]. *)
Definition ids_on_path (kind : token_kind) (n : tj_node) (p : node_path) : list string :=
  chain_ids kind (root_chain n [] p).

Lemma chain_ids_here kind n here here' p :
  chain_ids kind (root_chain n here p) = chain_ids kind (root_chain n here' p).
Proof.
  revert n here here'. induction p as [|i p IH]; intros n here here'; cbn [root_chain];
    rewrite (chain_ids_cons _ (here, n)), (chain_ids_cons _ (here', n)); f_equal.
  destruct (tn_children n !! i); [apply IH|done].
Qed.

Lemma ids_on_path_cons kind n i p c : tn_children n !! i = Some c ->
  ids_on_path kind n (i :: p) = ids_on_path kind n [] ++ ids_on_path kind c p.
Proof.
  intros Hc. unfold ids_on_path. cbn [root_chain]. rewrite Hc, chain_ids_cons. f_equal. apply chain_ids_here.
Qed.

Lemma ids_on_path_nil kind n : ids_on_path kind n [] =
  match (if bool_decide (tn_keyword n = kind) then nonempty_id n else None) with
  | Some id => [id]
  | None => []
  end.
Proof. unfold ids_on_path, chain_ids. cbn. by case_match. Qed.

(** A node that has an id of its own. *)
Definition identified (kind : token_kind) (n : tj_node) : Prop :=
  tn_keyword n = kind /\ is_Some (nonempty_id n).

Definition entry_for (kind : token_kind) (pre : list string) (n : tj_node) (p : node_path) (e : IdEntry) : Prop :=
  exists m, node_at n p = Some m /\ identified kind m /\
    e = mkId (join_dots (pre ++ ids_on_path kind n p)) (default EmptyString (tn_name m)).

Lemma entry_for_child kind pre n i p c e : tn_children n !! i = Some c ->
  entry_for kind pre n (i :: p) e <-> entry_for kind (pre ++ ids_on_path kind n []) c p e.
Proof.
  intros Hc. unfold entry_for. cbn [node_at]. rewrite Hc. cbn [mbind option_bind].
  by rewrite (ids_on_path_cons _ _ _ _ _ Hc), app_assoc.
Qed.

Lemma in_children kind pre (n : tj_node) e :
  Forall (fun c => forall pre, Forall (fun s => s <> EmptyString) pre ->
    e ∈ collect_node kind (join_dots pre) c <-> exists p, entry_for kind pre c p e) (tn_children n) ->
  Forall (fun s => s <> EmptyString) (pre ++ ids_on_path kind n []) ->
  e ∈ flat_map (collect_node kind (join_dots (pre ++ ids_on_path kind n []))) (tn_children n) <->
  exists i p, entry_for kind pre n (i :: p) e.
Proof.
  intros IH Hne. rewrite list_elem_of_In, in_flat_map. rewrite Forall_lookup in IH. split.
  - intros (c & Hc & He). apply list_elem_of_In in Hc, He. apply list_elem_of_lookup in Hc as [i Hi].
    apply (IH i c Hi _ Hne) in He as [p Hp]. exists i, p. by apply (entry_for_child _ _ _ _ _ c).
  - intros (i & p & He). assert (Hc : exists c, tn_children n !! i = Some c).
    { destruct He as (m & Hm & _). cbn in Hm. destruct (tn_children n !! i); [eauto|done]. }
    destruct Hc as [c Hc]. exists c. split; [apply list_elem_of_In; by eapply list_elem_of_lookup_2|].
    apply list_elem_of_In, (IH i c Hc _ Hne). exists p. by apply (entry_for_child _ _ _ i _ c).
Qed.

Lemma nonempty_id_ne n id : nonempty_id n = Some id -> id <> EmptyString.
Proof. unfold nonempty_id. destruct (tn_id n) as [[|c s]|]; congruence. Qed.

Lemma collect_node_spec kind e n : forall pre, Forall (fun s => s <> EmptyString) pre ->
  e ∈ collect_node kind (join_dots pre) n <-> exists p, entry_for kind pre n p e.
Proof.
  induction n as [n IH] using tj_node_rect_children. intros pre Hpre.
  assert (Hsplit : (exists p, entry_for kind pre n p e) <->
    entry_for kind pre n [] e \/ exists i p, entry_for kind pre n (i :: p) e).
  { split; [intros [[|i p] H]; eauto|intros [H|(i & p & H)]; eauto]. }
  rewrite Hsplit. pose proof (in_children kind pre n e IH) as Hch. rewrite ids_on_path_nil in Hch.
  assert (Hself : entry_for kind pre n [] e <->
    exists id, (if bool_decide (tn_keyword n = kind) then nonempty_id n else None) = Some id /\
      e = mkId (join_dots (pre ++ [id])) (default EmptyString (tn_name n))).
  { unfold entry_for, identified. cbn [node_at]. rewrite ids_on_path_nil. split.
    - intros (m & [= <-] & [Hk [id Hid]] & ->). rewrite bool_decide_eq_true_2 by done. rewrite Hid. eauto.
    - intros (id & Hid & ->). exists n. rewrite Hid. case_bool_decide; [|done]. eauto 6. }
  rewrite Hself. destruct n as [kw tid name r sr sd ed hs he deps cs]. cbn [collect_node tn_children tn_name] in *.
  destruct (if bool_decide _ then _ else _) as [id|] eqn:E.
  - assert (Hid : id <> EmptyString).
    { case_bool_decide; [|done]. by apply (nonempty_id_ne _ _ E). }
    rewrite <- Hch by (apply Forall_app; by repeat constructor).
    rewrite elem_of_cons, (join_dots_snoc pre id Hpre).
    match goal with |- ?a \/ ?b <-> ?c \/ ?b => enough (a <-> c) as -> by done end.
    split; [intros ->; eexists; split; [reflexivity|]|intros (? & [= <-] & ->)]; by rewrite join_dots_snoc.
  - rewrite app_nil_r in Hch. rewrite Hch by done. split; [by right|intros [(? & ? & _)|?]; [done|done]].
Qed.

Lemma collect_ids_spec kind root e : tn_id root = None ->
  e ∈ collect_ids kind EmptyString (tn_children root) <->
  exists p, entry_for kind [] root p e.
Proof.
  intros Hr. assert (Hnil : ids_on_path kind root [] = []).
  { rewrite ids_on_path_nil. unfold nonempty_id. rewrite Hr. by case_bool_decide. }
  pose proof (in_children kind [] root e) as Hch. rewrite Hnil in Hch. cbn [app join_dots] in Hch.
  unfold collect_ids. rewrite Hch; [|by apply Forall_forall; intros; apply collect_node_spec|done].
  split; [intros (i & p & H); eauto|intros [[|i p] H]; [|eauto]].
  destruct H as (m & [= <-] & [_ [id Hid]] & _). unfold nonempty_id in Hid. by rewrite Hr in Hid.
Qed.

Lemma sym_qualified_id_path root p n : node_at root p = Some n -> is_Some (nonempty_id n) ->
  (length (ids_on_path (tn_keyword n) root p) <= CHAIN_CAP)%nat ->
  sym_qualified_id root p = join_dots (ids_on_path (tn_keyword n) root p).
Proof.
  intros Hn [id Hid] Hl. unfold sym_qualified_id. rewrite Hn.
  assert (Hsome : exists s, tn_id n = Some s).
  { unfold nonempty_id in Hid. destruct (tn_id n); [eauto|done]. }
  destruct Hsome as [s Hs]. rewrite Hs, collect_chain_ids. unfold parent_chain. rewrite chain_ids_reverse.
  fold (ids_on_path (tn_keyword n) root p). rewrite take_ge by (by rewrite length_reverse).
  destruct (reverse (ids_on_path (tn_keyword n) root p)) as [|x l] eqn:E; [|by rewrite <- E, reverse_involutive].
  exfalso. apply (f_equal reverse) in E. rewrite reverse_involutive in E.
  assert (Hin : id ∈ ids_on_path (tn_keyword n) root p); [|by rewrite E in Hin; apply elem_of_nil in Hin].
  clear -Hn Hid. revert root Hn. induction p as [|i p IH]; intros root Hn; cbn in Hn.
  - injection Hn as ->. rewrite ids_on_path_nil, bool_decide_eq_true_2, Hid by done. left.
  - destruct (tn_children root !! i) as [c|] eqn:E; [|done].
    rewrite (ids_on_path_cons _ _ _ _ _ E). apply elem_of_app. right. by apply IH.
Qed.

(** ** The scope of a relative reference *)

(** The project header holds no tasks or nested headers. *)
Definition plain_projects (root : tj_node) : Prop :=
  forall p n, node_at root p = Some n -> tn_keyword n = KW_PROJECT ->
    Forall (fun c => tn_keyword c <> KW_TASK /\ tn_keyword c <> KW_PROJECT) (tn_children n).

Lemma find_path_in_plain n seg path :
  Forall (fun c => tn_keyword c <> KW_TASK /\ tn_keyword c <> KW_PROJECT) (tn_children n) ->
  find_path_in n (seg :: path) = None.
Proof.
  destruct n as [k0 d0 n0 r0 s0 a0 b0 c0 e0 f0 cs]. cbn. induction 1 as [|c cs [Ht Hp] _ IH]; [done|].
  rewrite (bool_decide_eq_false_2 _ Ht). cbn [andb]. rewrite (bool_decide_eq_false_2 _ Hp). exact IH.
Qed.

Lemma find_path_in_task n seg path i c : plain_projects n -> tn_children n !! i = Some c ->
  tn_keyword c = KW_TASK -> tn_id c = Some seg ->
  (forall j m, tn_children n !! j = Some m -> tn_keyword m = KW_TASK -> tn_id m = Some seg -> j = i) ->
  find_path_in n (seg :: path) = find_path_in c path.
Proof.
  intros Hplain Hi Hk Hid Hu.
  assert (Hproj : forall j m, tn_children n !! j = Some m -> tn_keyword m = KW_PROJECT ->
    find_path_in m (seg :: path) = None).
  { intros j m Hj Hm. apply find_path_in_plain, (Hplain [j] m); [cbn; by rewrite Hj|done]. }
  clear Hplain. revert i Hi Hu Hproj. destruct n as [k0 d0 n0 r0 s0 a0 b0 c0 e0 f0 cs]. cbn [tn_children].
  cbn [find_path_in tn_children]. induction cs as [|x cs IH]; intros i Hi Hu Hproj; [done|].
  destruct i as [|i].
  - injection Hi as ->. by rewrite (bool_decide_eq_true_2 _ Hk), (bool_decide_eq_true_2 _ Hid).
  - replace (bool_decide (tn_keyword x = KW_TASK) && bool_decide (tn_id x = Some seg)) with false.
    2: { symmetry. apply not_true_iff_false.
         intros [?%bool_decide_eq_true ?%bool_decide_eq_true]%andb_true_iff.
         specialize (Hu 0%nat x eq_refl). naive_solver. }
    assert (Hrest : forall j m, cs !! j = Some m -> tn_keyword m = KW_TASK -> tn_id m = Some seg -> j = i).
    { intros j m Hj Hm Hs. specialize (Hu (S j) m Hj Hm Hs). lia. }
    specialize (IH i Hi Hrest (fun j m Hj => Hproj (S j) m Hj)).
    case_bool_decide as Ep; [|exact IH]. by rewrite (Hproj 0%nat x eq_refl Ep).
Qed.

Lemma plain_projects_child n i c : plain_projects n -> tn_children n !! i = Some c -> plain_projects c.
Proof. intros Hp Hi p m Hm. apply (Hp (i :: p) m). cbn. by rewrite Hi. Qed.

Lemma task_path_length cs p ids n : task_path cs p ids n -> length p = length ids.
Proof. induction 1; cbn; congruence. Qed.

(** The task after [j] steps of the way. *)
Lemma task_path_take cs p ids n j : task_path cs p ids n -> (1 <= j <= length ids)%nat ->
  exists a, task_path cs (take j p) (take j ids) a.
Proof.
  intros Hp. revert j. induction Hp as [cs i n id Hi Hk Hid Hg Hu|cs i n id p ids m Hi Hk Hid Hg Hu Hp IH];
    intros j Hj; (destruct j as [|j]; [lia|]); cbn [take length] in *.
  - rewrite !take_nil. exists n. by apply task_path_one.
  - destruct j as [|j]; [exists n; by apply task_path_one|].
    destruct (IH (S j) ltac:(lia)) as [a Ha]. exists a. by eapply task_path_step.
Qed.

Lemma find_path_in_path root p ids n : plain_projects root -> task_path (tn_children root) p ids n ->
  find_path_in root ids = Some (tn_children n).
Proof.
  intros Hplain Hp. remember (tn_children root) as cs eqn:Hcs. revert root Hcs Hplain.
  induction Hp as [cs i n id Hi Hk Hid Hg Hu|cs i n id p ids m Hi Hk Hid Hg Hu Hp IH];
    intros root -> Hplain; rewrite (find_path_in_task root id _ i n) by done.
  - by destruct n.
  - apply IH; [done|]. by apply (plain_projects_child root i).
Qed.

Lemma plain_projects_pool root : tn_keyword root = TK_EOF -> plain_projects root ->
  plain_projects (set_children tj_node_new (tn_children root)).
Proof. intros Hk Hp [|i p] m Hm; [cbn in Hm; by injection Hm as <-|]. by apply (Hp (i :: p) m). Qed.

(** [tj_node_find_path] on the document's top level. *)
Lemma scope_children root p ids n j a : tn_keyword root = TK_EOF -> plain_projects root ->
  task_path (tn_children root) p ids n -> (j <= length ids)%nat -> node_at root (take j p) = Some a ->
  tj_node_find_path (tn_children root) (take j ids) = Some (tn_children a).
Proof.
  intros Hk Hplain Hp Hj Ha. unfold tj_node_find_path. destruct j as [|j].
  { cbn in Ha |- *. by injection Ha as <-. }
  destruct (task_path_take _ _ _ _ (S j) Hp ltac:(lia)) as [a' Ha'].
  rewrite (find_path_in_path _ (take (S j) p) _ a'); [|by apply plain_projects_pool|done].
  destruct (task_path_node _ _ _ _ root eq_refl Ha') as [Hn _]. congruence.
Qed.

Lemma task_path_id cs p ids n : task_path cs p ids n -> tn_keyword n = KW_TASK /\ is_Some (nonempty_id n).
Proof.
  induction 1 as [cs i n id _ Hk Hid [Hne _] _|]; [|done]. split; [done|].
  unfold nonempty_id. rewrite Hid. by destruct id; eauto.
Qed.

Lemma ids_on_task_path root p ids n here : task_path (tn_children root) p ids n ->
  chain_ids KW_TASK (root_chain root here p) = ids_on_path KW_TASK root [] ++ ids.
Proof.
  intros Hp. rewrite (task_chain_ids _ _ _ _ here Hp root eq_refl). f_equal.
Qed.

(** Climbing [b] levels over nodes that are not the synthetic root. *)
Lemma climb_bangs_take root b : forall p, (b <= length p)%nat ->
  (forall j, (length p - b <= j < length p)%nat ->
     exists n, pnode_at root (take j p) = Some n /\ pn_keyword n <> TK_EOF) ->
  climb_bangs root b p = Some (take (length p - b) p).
Proof.
  induction b as [|b IH]; intros p Hb Hn; cbn [climb_bangs].
  { by rewrite Nat.sub_0_r, take_ge. }
  destruct p as [|x p _] using rev_ind; [cbn in Hb; lia|].
  rewrite length_app in *. cbn [length] in *.
  replace (parent_path (p ++ [x])) with (Some p).
  2: { unfold parent_path. rewrite removelast_last. by destruct p. }
  assert (Htake : forall j, (j <= length p)%nat -> take j (p ++ [x]) = take j p).
  { intros j Hj. by rewrite take_app_le. }
  destruct (Hn (length p) ltac:(lia)) as (n & Hpn & Hk). rewrite Htake, take_ge in Hpn by lia.
  rewrite Hpn, bool_decide_eq_false_2, IH by (done || lia ||
    (intros j Hj; destruct (Hn j ltac:(lia)) as (n' & Hn' & Hk'); rewrite Htake in Hn' by lia; by exists n')).
  rewrite Htake by lia. do 2 f_equal. lia.
Qed.

Lemma climb_bangs_root root b p : pn_keyword root = TK_EOF -> (0 < length p <= b)%nat ->
  (forall j, (0 < j < length p)%nat -> exists n, pnode_at root (take j p) = Some n) ->
  climb_bangs root b p = None.
Proof.
  intros Hr. revert b. induction p as [|x p IH] using rev_ind; intros b Hb Hn; [cbn in Hb; lia|].
  rewrite length_app in *. cbn [length] in *. destruct b as [|b]; [lia|]. cbn [climb_bangs].
  replace (parent_path (p ++ [x])) with (Some p).
  2: { unfold parent_path. rewrite removelast_last. by destruct p. }
  destruct p as [|y p]; [cbn [pnode_at]; by rewrite Hr, bool_decide_eq_true_2|].
  destruct (Hn (length (y :: p)) ltac:(cbn [length]; lia)) as [n Hpn].
  rewrite take_app_le, take_ge in Hpn by done. rewrite Hpn. case_bool_decide; [done|].
  apply IH; [cbn [length] in *; lia|]. intros j Hj. destruct (Hn j ltac:(lia)) as [n' Hn'].
  rewrite take_app_le in Hn' by lia. by exists n'.
Qed.

(** The copies of the tasks above a task, in the project tree. *)
Lemma copied_above proj uri root i rest k ids n j :
  copied_at proj uri root i k -> task_path (tn_children root) (i :: rest) ids n ->
  (1 <= j <= length ids)%nat ->
  exists a, node_at root (take j (i :: rest)) = Some a /\ tn_keyword a = KW_TASK /\
    pnode_at proj (take j (k :: rest)) = Some (project_node_from_tj uri a).
Proof.
  intros Hc Hp Hj. destruct (task_path_take _ _ _ _ j Hp Hj) as [a Ha]. exists a.
  destruct (task_path_node _ _ _ _ root eq_refl Ha) as [Hn Hk]. split_and!; [done..|].
  destruct j as [|j]; [lia|]. cbn [take] in Ha |- *. by apply (walk_copied _ _ _ _ _ _ _ _ Hc Ha).
Qed.

Lemma scope_ids root tokens owners cursor p ids n : tn_id root = None ->
  tj_node_at root tokens owners cursor = Some p -> task_path (tn_children root) p ids n ->
  current_task_scope root tokens owners cursor = ids.
Proof.
  intros Hr Hat Hp. unfold current_task_scope, parent_chain. rewrite Hat, chain_ids_reverse, reverse_involutive.
  rewrite (ids_on_task_path root p ids n [] Hp), ids_on_path_nil. unfold nonempty_id. rewrite Hr.
  by case_bool_decide.
Qed.

(** The identifiers offered are the qualified ids: for any symbol kind and
    a document whose nodes of that kind nest at most 64 deep, [collect_ids]
    yields an entry exactly for each node of the kind that has an id, under the
    same dotted id that hover and the reference requests compute for it. *)
Theorem collect_ids_qualified kind root e :
  tn_id root = None ->
  (forall p n, node_at root p = Some n -> (length (ids_on_path kind root p) <= CHAIN_CAP)%nat) ->
  e ∈ collect_ids kind EmptyString (tn_children root) <->
  exists p n, node_at root p = Some n /\ identified kind n /\
    e = mkId (sym_qualified_id root p) (default EmptyString (tn_name n)).
Proof.
  intros Hr Hd. rewrite (collect_ids_spec kind root e Hr).
  split; intros (p & n & Hn & Hid & ->); exists p, n; split_and!; try done; pose proof Hid as [Hk Hne];
    rewrite (sym_qualified_id_path root p n Hn Hne) by (rewrite Hk; by apply (Hd p n)); by rewrite Hk.
Qed.

(** The task [m] at [q] below a scope, and the entry that is offered for it: the
    ids of the tasks on the way down to it. *)
Definition task_below (a : tj_node) (q : node_path) (m : tj_node) (e : IdEntry) : Prop :=
  let forest := set_children tj_node_new (tn_children a) in
  node_at forest q = Some m /\ identified KW_TASK m /\
  e = mkId (join_dots (ids_on_path KW_TASK forest q)) (default EmptyString (tn_name m)).

Lemma task_path_below a q ids m : task_path (tn_children a) q ids m ->
  task_below a q m (mkId (join_dots ids) (default EmptyString (tn_name m))).
Proof.
  intros Hq. set (a' := set_children tj_node_new (tn_children a)). change (tn_children a) with (tn_children a') in Hq.
  split_and!; [by apply (task_path_node _ _ _ _ a' eq_refl Hq)|by apply (task_path_id _ _ _ _ Hq)|].
  fold a'. unfold ids_on_path. by rewrite (ids_on_task_path a' q ids m [] Hq).
Qed.

(** The identifiers collected below a scope. *)
Lemma collected_below a e : e ∈ collect_ids KW_TASK EmptyString (tn_children a) <-> exists q m, task_below a q m e.
Proof.
  set (a' := set_children tj_node_new (tn_children a)). change (tn_children a) with (tn_children a').
  rewrite (collect_ids_spec KW_TASK a') by done. unfold entry_for, task_below. fold a'. cbn [app]. naive_solver.
Qed.

(** What is looked up in the project tree after [b] bangs. *)
Lemma resolve_after_bangs proj p b ids : (1 <= b)%nat -> Forall good_id ids -> ids <> [] ->
  resolve_dep proj p (dep_on (Z.of_nat b) (join_dots ids)) =
  match climb_bangs proj b p with
  | Some a => pnode_at proj a ≫= fun n => app a <$> find_task (pn_children n) ids
  | None => None
  end.
Proof.
  intros Hb Hg Hne. unfold resolve_dep, split_dotted_path, dep_on. cbn [dep_path bang_count].
  rewrite (strtok_join ids Hg), Nat2Z.id. destruct ids; [done|].
  by rewrite (proj2 (Z.eqb_neq (Z.of_nat b) 0)) by lia.
Qed.

(** C24: What is offered after [b] bangs, and that it resolves.  In the body of a
    task whose enclosing tasks have the ids [ids] (well formed, unique among
    siblings), in a document without a prefix, exactly the tasks with an id below
    the scope reached by [b] levels up are offered, each with the ids on the way
    to it from there.  For a task reached from the scope through tasks whose ids
    are well formed and unique among their siblings, that text, written as a
    dependency of the task, resolves in the project tree to the copy of the task
    offered.  Only at the top level of the file, [b = length ids], it resolves to
    nothing, since resolution stops below the root that completion climbs to. *)
Theorem bang_completion_resolves proj uri root tokens owners cursor k i rest ids n b a extra :
  tn_id root = None -> tn_keyword root = TK_EOF -> plain_projects root -> pn_keyword proj = TK_EOF ->
  tj_node_at root tokens owners cursor = Some (i :: rest) ->
  task_path (tn_children root) (i :: rest) ids n -> copied_at proj uri root i k ->
  (1 <= b <= length ids)%nat ->
  node_at root (take (length ids - b) (i :: rest)) = Some a ->
  let cands := dep_candidates root tokens owners cursor (tn_children root) extra KW_TASK (Z.of_nat b) in
  (forall e, e ∈ cands <-> exists q m, task_below a q m e) /\
  forall q ids' m, task_path (tn_children a) q ids' m ->
    mkId (join_dots ids') (default EmptyString (tn_name m)) ∈ cands /\
    resolve_dep proj (k :: rest) (dep_on (Z.of_nat b) (join_dots ids'))
      = (if (b <? length ids)%nat then Some (take (length ids - b) (k :: rest) ++ q) else None) /\
    ((b < length ids)%nat ->
     pnode_at proj (take (length ids - b) (k :: rest) ++ q) = Some (project_node_from_tj uri m)).
Proof.
  intros Hr Hk Hplain Hproj Hat Hp Hc Hb Ha cands.
  pose proof (task_path_length _ _ _ _ Hp) as Hlen. cbn [length] in Hlen.
  assert (Habove : forall j, (1 <= j <= length ids)%nat ->
    exists x, pnode_at proj (take j (k :: rest)) = Some x /\ pn_keyword x <> TK_EOF).
  { intros j Hj. destruct (copied_above _ _ _ _ _ _ _ _ j Hc Hp Hj) as (x & _ & Hx & Hpx).
    exists (project_node_from_tj uri x). split; [done|]. destruct x. cbn in *. by rewrite Hx. }
  assert (Hcands : forall e, e ∈ cands <-> exists q m, task_below a q m e).
  { intros e. unfold cands, dep_candidates. rewrite (scope_ids _ _ _ _ _ _ _ Hr Hat Hp).
    rewrite (proj2 (Z.eqb_neq (Z.of_nat b) 0)), (proj2 (Z.leb_le _ _)) by lia.
    replace (Z.to_nat (Z.of_nat (length ids) - Z.of_nat b)) with (length ids - b)%nat by lia.
    rewrite (scope_children root (i :: rest) ids n _ a) by (done || lia). apply collected_below. }
  split; [done|]. intros q ids' m Hq. destruct (task_path_good _ _ _ _ Hq) as [Hg Hne].
  split; [apply Hcands; exists q, m; by apply task_path_below|].
  rewrite (resolve_after_bangs proj (k :: rest) b ids') by (done || lia).
  destruct (Nat.ltb_spec b (length ids)) as [Hlt|Hge].
  - rewrite climb_bangs_take; [|cbn [length]; lia|intros j Hj; apply Habove; cbn [length] in Hj; lia].
    cbn [length]. rewrite Hlen.
    destruct (copied_above _ _ _ _ _ _ _ _ (length ids - b) Hc Hp ltac:(lia)) as (a' & Ha' & _ & Hpa).
    rewrite Ha' in Ha. injection Ha as ->.
    destruct (walk_copy uri _ _ _ _ Hq (project_node_from_tj uri a) (children_of_copy uri a))
      as (_ & Hf & Hpm).
    rewrite Hpa. cbn [mbind option_bind]. rewrite Hf. split; [done|].
    intros _. rewrite pnode_at_app, Hpa. exact Hpm.
  - split; [|lia]. rewrite climb_bangs_root; [done|done|cbn [length]; lia|].
    intros j Hj. cbn [length] in Hj. destruct (Habove j ltac:(lia)) as (x & Hx & _). by exists x.
Qed.

(** ** Keyword completions *)

(** Keyword completion offers exactly the keywords of the innermost
    recognised block that start with the word being typed, ignoring case; with
    no word it offers all of them, and only at the start of a statement. *)
Theorem keyword_completions_correct tokens cursor partial stack label :
  label ∈ ci_label <$> build_keyword_completions tokens cursor partial stack <->
  label ∈ (kws_for_stack stack).*1 /\
  (partial = EmptyString -> at_statement_start tokens cursor = true) /\
  (tolower <$> list_ascii_of_string partial) `prefix_of` (tolower <$> list_ascii_of_string label).
Proof.
  unfold build_keyword_completions. destruct (decide (partial = EmptyString)) as [->|Hp].
  - rewrite !bool_decide_eq_true_2 by done. cbn [negb orb]. destruct (at_statement_start tokens cursor).
    + rewrite list_filter_all by done. rewrite <- list_fmap_compose.
      change (ci_label ∘ kw_item) with (fst : KwEntry -> string). split; [|naive_solver].
      intros H. split_and!; [done|done|apply prefix_nil].
    + cbn. split; [by intros ?%elem_of_nil|by intros (_ & ? & _); naive_solver].
  - rewrite bool_decide_eq_false_2 by done. cbn [negb orb].
    rewrite <- list_fmap_compose. change (ci_label ∘ kw_item) with (fst : KwEntry -> string).
    rewrite !list_elem_of_fmap. setoid_rewrite list_elem_of_filter. setoid_rewrite istarts_spec.
    naive_solver.
Qed.

(** ** Branches that are never taken *)

(** As the scanner has it: an identifier token is not a keyword. *)
Definition ident_ok (t : TokenSpan) : Prop :=
  ts_kind t = TK_IDENT -> forall s, ts_text t = Some s -> s ∉ lexer_keywords.*1.

Lemma line_first_word_from tokens cursor w : line_first_word tokens cursor = Some w ->
  exists t, t ∈ tokens /\ ts_kind t = TK_IDENT /\ ts_text t = Some w.
Proof.
  induction tokens as [|t tokens IH]; cbn; [done|].
  repeat case_match; try done; try (intros Hx; destruct (IH Hx) as (t' & ? & ?); exists t'; split; [by right|done]).
  intros Hw. exists t. split; [left|]. split; [|done].
  match goal with H : bool_decide (_ = TK_IDENT) = true |- _ => by apply bool_decide_eq_true in H end.
Qed.

Lemma decl_keywords_lexed : forallb (fun w => bool_decide (w ∈ lexer_keywords.*1)) decl_keywords = true.
Proof. vm_compute. reflexivity. Qed.

Lemma id_kinds_of_signatures : forallb (fun k =>
  bool_decide (id_kind_for_keyword (Some k) ∈ [None; Some KW_TASK; Some KW_RESOURCE]))
  signature_table.*1 = true.
Proof. vm_compute. reflexivity. Qed.

(** Two branches of completion are never taken, for tokens as the scanner
    records them.  The suppression while a declaration's id is typed never
    applies: the first word it looks at is an identifier token, which is not a
    keyword.  And account ids are never offered: [chargeset] and [balance] are
    above the sentinel of the signature scan, so the active keyword asks for
    tasks, for resources or for nothing. *)
Theorem completion_dead_branches tokens cursor :
  Forall lexeme_ok tokens -> Forall ident_ok tokens ->
  is_decl_keyword (line_first_word tokens cursor) = false /\
  id_kind_for_keyword (ac_keyword (active_context tokens cursor)) ∈ [None; Some KW_TASK; Some KW_RESOURCE].
Proof.
  intros Hl Hi. split.
  - destruct (line_first_word tokens cursor) as [w|] eqn:E; [|done].
    apply line_first_word_from in E as (t & Hin & Hk & Ht). cbn. apply bool_decide_eq_false. intros Hw.
    rewrite Forall_forall in Hi. apply (Hi t Hin Hk w Ht).
    pose proof decl_keywords_lexed as Hd. rewrite forallb_forall in Hd.
    apply (bool_decide_eq_true_1 _ (Hd w (proj1 (list_elem_of_In _ _) Hw))).
  - unfold active_context. destruct (entry_at_depth _) as [e|] eqn:E; cbn [ac_keyword]; [|left].
    apply entry_at_depth_from in E. pose proof id_kinds_of_signatures as Hs. rewrite forallb_forall in Hs.
    apply (bool_decide_eq_true_1 _ (Hs (kw e) (proj1 (list_elem_of_In _ _)
      (covered_entry KW_SIG_END _ tokens e signatures_cover Hl E)))).
Qed.

(** ** Examples *)

Lemma collect_ids_qualified_witness :
  collect_ids KW_TASK EmptyString (tn_children bridge_doc) = [mkId "a" "a"; mkId "a.y" "y"]%string /\
  exists p n, node_at bridge_doc p = Some n /\ identified KW_TASK n /\
    mkId "a.y" "y" = mkId (sym_qualified_id bridge_doc p) (default EmptyString (tn_name n)).
Proof.
  split; [by vm_compute|].
  refine (proj1 (collect_ids_qualified KW_TASK bridge_doc (mkId "a.y" "y") eq_refl _) _).
  - intros p n Hn. destruct p as [|[|[|i]] [|[|j] [|k p]]]; cbn in Hn; try done; vm_compute; lia.
  - replace (collect_ids KW_TASK EmptyString (tn_children bridge_doc))
      with [mkId "a" "a"; mkId "a.y" "y"]%string by (by vm_compute). right. left.
Defined.

(** [task p { task x; task y { depends !| } }]: the cursor in [y]. *)
Definition scoped_node (id : string) (l1 l2 : Z) (cs : list tj_node) : tj_node :=
  TjNode KW_TASK (Some id) None (mkRange (mkPos l1 0) (mkPos l2 0)) zero_range 0 0 false false [] cs.
Definition scoped_x : tj_node := scoped_node "x" 1 2 [].
Definition scoped_y : tj_node := scoped_node "y" 2 8 [].
Definition scoped_p : tj_node := scoped_node "p" 0 9 [scoped_x; scoped_y].
Definition scoped_doc : tj_node := set_children tj_node_new [scoped_p].

Definition scoped_tokens : list TokenSpan :=
  [ mkSpan KW_TASK (mkPos 2 0) (mkPos 2 4) (Some "task"%string);
    mkSpan KW_DEPENDS (mkPos 3 0) (mkPos 3 7) (Some "depends"%string);
    mkSpan TK_BANG (mkPos 3 8) (mkPos 3 9) None ].

Definition scoped_owners : list (option node_path) := [Some [0; 1]; Some [0; 1]; Some [0; 1]]%nat.

Definition scoped_project : ProjectNode :=
  pn_set_children empty_project_root (project_node_from_tj None <$> tn_children scoped_doc).

Lemma scoped_unique (id : string) (i : nat) (cs : list tj_node) :
  forallb (fun e => implb (bool_decide (tn_id e.2 = Some id)) (e.1 =? i)%nat) (imap pair cs) = true ->
  forall j m, cs !! j = Some m -> tn_keyword m = KW_TASK -> tn_id m = Some id -> j = i.
Proof.
  intros Hf j m Hj _ Hid. rewrite forallb_forall in Hf.
  assert (Hin : (j, m) ∈ imap pair cs) by (apply elem_of_lookup_imap; eauto).
  specialize (Hf _ (proj1 (list_elem_of_In _ _) Hin)). cbn in Hf.
  rewrite bool_decide_eq_true_2 in Hf by done. by apply Nat.eqb_eq in Hf.
Qed.

Lemma bang_completion_resolves_witness :
  map ie_id (dep_candidates scoped_doc scoped_tokens scoped_owners (mkPos 3 9) (tn_children scoped_doc) []
               KW_TASK 1) = ["x"; "y"]%string /\
  count_leading_bangs scoped_tokens (mkPos 3 9) = (1, mkPos 3 8) /\
  (forall e, e ∈ dep_candidates scoped_doc scoped_tokens scoped_owners (mkPos 3 9) (tn_children scoped_doc) [] KW_TASK 1 <->
     exists q m, task_below scoped_p q m e) /\
  resolve_dep scoped_project [0; 1]%nat (dep_on 1 "x") = Some [0; 0]%nat.
Proof.
  split; [by vm_compute|]. split; [by vm_compute|].
  destruct (bang_completion_resolves scoped_project None scoped_doc scoped_tokens scoped_owners (mkPos 3 9)
    0 0 [1]%nat ["p"; "y"]%string scoped_y 1 scoped_p [] eq_refl eq_refl) as [Hin Hres].
  - intros p n Hn Hk. exfalso. destruct p as [|[|i] [|[|[|j]] [|k p]]]; cbn in Hn; try done;
      injection Hn as <-; done.
  - done.
  - by vm_compute.
  - eapply task_path_step; [reflexivity..|by split|by apply scoped_unique|].
    eapply task_path_one; [reflexivity..|by split|by apply scoped_unique].
  - eexists _, "p"%string. split_and!; [reflexivity..|]. intros [|j] y Hy _; [done|]. done.
  - cbn. lia.
  - reflexivity.
  - split; [exact Hin|]. apply (Hres [0]%nat ["x"]%string scoped_x).
    eapply task_path_one; [reflexivity..|by split|by apply scoped_unique].
Defined.

(** An account is booked: [chargeset cost|] right after [depends]. *)
Lemma completion_dead_branches_witness :
  let tokens := [ mkSpan KW_DEPENDS (mkPos 0 0) (mkPos 0 7) (Some "depends"%string);
                  mkSpan KW_CHARGESET (mkPos 1 0) (mkPos 1 9) (Some "chargeset"%string);
                  mkSpan TK_IDENT (mkPos 1 10) (mkPos 1 14) (Some "cost"%string) ] in
  id_kind_for_keyword (ac_keyword (active_context tokens (mkPos 1 14))) = Some KW_TASK /\
  is_decl_keyword (line_first_word tokens (mkPos 1 14)) = false.
Proof.
  intros tokens. split; [by vm_compute|].
  apply (completion_dead_branches tokens (mkPos 1 14)).
  - apply lexeme_ok_dec_all. by vm_compute.
  - repeat constructor; intros Hk s Hs; cbn in Hk, Hs; try done. injection Hs as <-.
    apply (bool_decide_unpack _). by vm_compute.
Defined.
