(* ===== verification/Symbols.v ===== *)
(** * [document_symbol.c], [workspace_symbol.c] and [folding_range.c].

    The outline of a document is written as JSON text into a growing buffer;
    the workspace symbols are the declarations whose name matches a query; the
    folding ranges come from the declarations and from the brackets and
    comments among the tokens. *)

From S2P Require Import Prelude Tokens Syntax CText Json Store Rpc QueryContext.
Local Open Scope Z_scope.

(** ** The buffer *)

(** The bytes written and the capacity of the allocation. *)
Record Buf : Set := mkBuf { b_data : list ascii; b_cap : Z }.

Definition b_len (b : Buf) : Z := Z.of_nat (length (b_data b)).

(** [while (new_cap < need) new_cap *= 2]. *)
Fixpoint grow (fuel : nat) (new_cap need : Z) : option Z :=
  match fuel with
  | O => None
  | S fuel' => if new_cap <? need then grow fuel' (new_cap * 2) need else Some new_cap
  end.

(** The rounds the loop can need: one per bit of the size asked for. *)
Definition grow_fuel (need : Z) : nat := S (Z.to_nat (Z.log2_up need)).

(** Room for [n] more bytes. *)
Definition reserve (b : Buf) (n : Z) : Buf :=
  if b_len b + n >? b_cap b then
    let new_cap := if b_cap b =? 0 then 4096 else b_cap b * 2 in
    mkBuf (b_data b) (default new_cap (grow (grow_fuel (b_len b + n)) new_cap (b_len b + n)))
  else b.

Definition append (b : Buf) (s : list ascii) : Buf := mkBuf (b_data b ++ s) (b_cap b).

Definition buf_push (b : Buf) (s : list ascii) : Buf := append (reserve b (Z.of_nat (length s))) s.

(** At most ten digits. *)
Definition write_uint (v : Z) : list ascii := write_decimal 10 v.

Definition buf_push_uint (b : Buf) (v : Z) : Buf := append (reserve b 10) (write_uint v).

(** The loop of [buf_push_json_str]: [run] are the characters from the start of
    the run to the current one. *)
Fixpoint push_runs (b : Buf) (run p : list ascii) : Buf :=
  match p with
  | [] => match run with [] => b | _ => buf_push b run end
  | c :: p' =>
      if needs_escape c then
        let b := match run with [] => b | _ => buf_push b run end in
        push_runs (buf_push b (escape c)) [] p'
      else push_runs b (run ++ [c]) p'
  end.

Definition buf_push_json_str (b : Buf) (s : string) : Buf :=
  buf_push (push_runs (buf_push b [dquote]) [] (str s)) [dquote].

(** ** Document symbols *)

Definition SK_MODULE : Z := 2.
Definition SK_FUNCTION : Z := 12.
Definition SK_VARIABLE : Z := 13.
Definition SK_OBJECT : Z := 19.
Definition SK_EVENT : Z := 24.

Definition symbol_kind_for (keyword : token_kind) : Z :=
  match keyword with
  | KW_PROJECT => SK_MODULE
  | KW_RESOURCE => SK_OBJECT
  | KW_ACCOUNT => SK_VARIABLE
  | KW_SHIFT => SK_EVENT
  | _ => SK_FUNCTION
  end.

Definition push_lit (b : Buf) (s : string) : Buf := buf_push b (str (lit s)).
Arguments push_lit b s%_string_scope.

Definition write_range_buf (b : Buf) (r : LspRange) : Buf :=
  let b := push_lit b "{~start~:{~line~:" in
  let b := buf_push_uint b (line (rstart r)) in
  let b := push_lit b ",~character~:" in
  let b := buf_push_uint b (character (rstart r)) in
  let b := push_lit b "},~end~:{~line~:" in
  let b := buf_push_uint b (line (rend r)) in
  let b := push_lit b ",~character~:" in
  let b := buf_push_uint b (character (rend r)) in
  push_lit b "}}".

(** A comma before every element but the first. *)
Fixpoint write_list {A} (write : Buf -> A -> Buf) (first : bool) (b : Buf) (l : list A) : Buf :=
  match l with
  | [] => b
  | x :: l' => write_list write false (write (if first then b else buf_push b [","%char]) x) l'
  end.

Fixpoint write_node_buf (b : Buf) (sym : tj_node) : Buf :=
  let b := push_lit b "{~name~:" in
  let b := buf_push_json_str b (default EmptyString (tn_name sym)) in
  let b := push_lit b ",~detail~:" in
  let b := buf_push_json_str b (default EmptyString (tn_id sym)) in
  let b := push_lit b ",~kind~:" in
  let b := buf_push_uint b (symbol_kind_for (tn_keyword sym)) in
  let b := push_lit b ",~range~:" in
  let b := write_range_buf b (tn_range sym) in
  let b := push_lit b ",~selectionRange~:" in
  let b := write_range_buf b (tn_selection_range sym) in
  let b := match tn_children sym with
           | [] => b
           | _ =>
               let b := push_lit b ",~children~:[" in
               let b := (fix go (first : bool) (b : Buf) (l : list tj_node) : Buf :=
                           match l with
                           | [] => b
                           | c :: l' => go false (write_node_buf (if first then b else buf_push b [","%char]) c) l'
                           end) true b (tn_children sym) in
               buf_push b ["]"%char]
           end in
  buf_push b ["}"%char].

(** The buffer when [*out_len] is read, before the terminating NUL. *)
Definition document_symbols_buf (syms : list tj_node) : Buf :=
  let b := buf_push (mkBuf [] 0) ["["%char] in
  let b := write_list write_node_buf true b syms in
  buf_push b ["]"%char].

Definition build_document_symbols_json (syms : list tj_node) : list ascii :=
  b_data (document_symbols_buf syms).

Definition handle_document_symbol (d : option query_doc) : option (list ascii) :=
  (fun q => build_document_symbols_json (tn_children (qd_root q))) <$> d.

(** ** Workspace symbols *)

Record WorkspaceSymbol : Set := mkWSym {
  wsym_name : string; wsym_kind : Z; wsym_container : option string;
  wsym_uri : string; wsym_range : LspRange
}.

Definition emit_workspace_symbol (sym : tj_node) (name uri : string) (container : option string)
  : WorkspaceSymbol :=
  mkWSym name (symbol_kind_for (tn_keyword sym)) container uri (tn_selection_range sym).

Definition matches (query name : string) : bool :=
  bool_decide (query = EmptyString) || strcasestr (str name) (str query).

Fixpoint collect_symbol (query uri : string) (container : option string) (sym : tj_node)
  : list WorkspaceSymbol :=
  let name := default EmptyString (tn_name sym) in
  (if matches query name then [emit_workspace_symbol sym name uri container] else [])
    ++ flat_map (collect_symbol query uri (Some name)) (tn_children sym).

(** [collect_recursive] over siblings. *)
Definition collect_workspace_symbols (query : string) (syms : list tj_node) (uri : string)
  : list WorkspaceSymbol :=
  flat_map (collect_symbol query uri None) syms.

Definition handle_workspace_symbol `{Yyjson} (params : option yyjson_val) (docs : list (query_doc * bool))
  : list WorkspaceSymbol :=
  let query := default EmptyString (json_str params "query") in
  flat_map (fun d => collect_workspace_symbols query (doc_symbol_pool (Some d.1)) (qd_uri d.1)) docs.

(** ** Folding ranges *)

Definition MAX_BRACKET_DEPTH : nat := 256.

Inductive fold_kind : Set := Fold_region | Fold_comment.

Record FoldingRange : Set := mkFold { fr_start : Z; fr_end : Z; fr_kind : fold_kind }.

Fixpoint symbol_ranges (sym : tj_node) : list FoldingRange :=
  let r := tn_range sym in
  (if line (rend r) >? line (rstart r) then [mkFold (line (rstart r)) (line (rend r)) Fold_region] else [])
    ++ flat_map symbol_ranges (tn_children sym).

Definition emit_symbol_ranges (syms : list tj_node) : list FoldingRange := flat_map symbol_ranges syms.

(** The loop of [emit_token_ranges]; the stack has its top first. *)
Fixpoint emit_token_ranges_from (bracket_stack : list Z) (spans : list TokenSpan) : list FoldingRange :=
  match spans with
  | [] => []
  | s :: spans' =>
      match ts_kind s with
      | TK_LBRACKET =>
          emit_token_ranges_from
            (if (length bracket_stack <? MAX_BRACKET_DEPTH)%nat
             then line (ts_start s) :: bracket_stack else bracket_stack) spans'
      | TK_RBRACKET =>
          match bracket_stack with
          | start_line :: st =>
              (if line (ts_start s) >? start_line
               then [mkFold start_line (line (ts_start s)) Fold_region] else [])
                ++ emit_token_ranges_from st spans'
          | [] => emit_token_ranges_from [] spans'
          end
      | TK_BLOCK_COMMENT =>
          (if line (ts_end s) >? line (ts_start s)
           then [mkFold (line (ts_start s)) (line (ts_end s)) Fold_comment] else [])
            ++ emit_token_ranges_from bracket_stack spans'
      | _ => emit_token_ranges_from bracket_stack spans'
      end
  end.

Definition emit_token_ranges (spans : list TokenSpan) : list FoldingRange := emit_token_ranges_from [] spans.

Definition build_folding_ranges_json (spans : list TokenSpan) (symbols : list tj_node) : list FoldingRange :=
  emit_symbol_ranges symbols ++ emit_token_ranges spans.

Definition handle_folding_range (d : option query_doc) : option (list FoldingRange) :=
  (fun q => build_folding_ranges_json (qd_tok_spans q) (doc_symbol_pool (Some q))) <$> d.

(** ** Writing to the buffer *)

(** What is written fits the allocation. *)
Definition b_ok (b : Buf) : Prop := 0 <= b_cap b /\ b_len b <= b_cap b.

(** [f] appends [s] and stays inside the allocation. *)
Definition writes (f : Buf -> Buf) (s : list ascii) : Prop :=
  forall b, b_ok b -> b_ok (f b) /\ b_data (f b) = b_data b ++ s.

Lemma grow_spec fuel : forall c need, 0 < c -> need <= c * 2 ^ (Z.of_nat fuel - 1) -> (0 < fuel)%nat ->
  exists c', grow fuel c need = Some c' /\ need <= c' /\ c <= c'.
Proof.
  induction fuel as [|fuel IH]; intros c need Hc Hn Hf; [lia|]. cbn [grow].
  destruct (Z.ltb_spec c need) as [Hlt|Hge]; [|exists c; split; [done|lia]].
  destruct fuel as [|fuel]; [change (2 ^ (Z.of_nat 1 - 1)) with 1 in Hn; lia|].
  destruct (IH (c * 2) need) as (c' & Hg & ? & ?); [lia| |lia|exists c'; split; [done|lia]].
  replace (Z.of_nat (S (S fuel)) - 1) with (Z.succ (Z.of_nat (S fuel) - 1)) in Hn by lia.
  rewrite Z.pow_succ_r in Hn by lia. lia.
Qed.

(** The doubling loop ends with enough room, whatever is asked for. *)
Lemma reserve_spec b n : b_ok b -> 0 <= n ->
  b_data (reserve b n) = b_data b /\ b_len b + n <= b_cap (reserve b n).
Proof.
  intros [Hc Hl] Hn. unfold reserve. destruct (Z.gtb_spec (b_len b + n) (b_cap b)); [|done].
  set (need := b_len b + n) in *.
  set (c0 := if b_cap b =? 0 then 4096 else b_cap b * 2).
  assert (H0 : 0 < c0) by (unfold c0; destruct (Z.eqb_spec (b_cap b) 0); lia).
  destruct (grow_spec (grow_fuel need) c0 need H0) as (c' & -> & ? & ?); [|unfold grow_fuel; lia|by split].
  unfold grow_fuel. replace (Z.of_nat (S (Z.to_nat (Z.log2_up need))) - 1) with (Z.log2_up need)
    by (pose proof (Z.log2_up_nonneg need); lia).
  destruct (Z.le_gt_cases need 1).
  - pose proof (Z.pow_pos_nonneg 2 (Z.log2_up need) ltac:(lia) (Z.log2_up_nonneg need)). nia.
  - pose proof (Z.log2_up_spec need ltac:(lia)). nia.
Qed.

Lemma append_writes n (s : list ascii) : Z.of_nat (length s) <= n ->
  writes (fun b => append (reserve b n) s) s.
Proof.
  intros Hs b Hb. destruct (reserve_spec b n Hb ltac:(lia)) as [Hd Hc]. unfold append, b_ok, b_len in *.
  cbn [b_data b_cap]. rewrite Hd, length_app. split; [lia|done].
Qed.

Lemma buf_push_writes s : writes (fun b => buf_push b s) s.
Proof. apply append_writes. lia. Qed.

Lemma buf_push_uint_writes v : writes (fun b => buf_push_uint b v) (write_uint v).
Proof.
  apply append_writes. unfold write_uint. pose proof (length_write_decimal 10 v ltac:(lia)). lia.
Qed.

Lemma writes_seq f g s t : writes f s -> writes g t -> writes (fun b => g (f b)) (s ++ t).
Proof.
  intros Hf Hg b Hb. destruct (Hf b Hb) as [Hb1 H1]. destruct (Hg (f b) Hb1) as [Hb2 H2].
  split; [done|]. by rewrite H2, H1, app_assoc.
Qed.

Lemma writes_eq f s t : writes f s -> s = t -> writes f t.
Proof. by intros ? <-. Qed.

Lemma writes_nothing : writes (fun b => b) [].
Proof. intros b Hb. by rewrite app_nil_r. Qed.

Lemma run_writes (run : list ascii) : writes (fun b => match run with [] => b | _ => buf_push b run end) run.
Proof. destruct run; [apply writes_nothing|apply buf_push_writes]. Qed.

Lemma push_runs_writes p : forall run, writes (fun b => push_runs b run p) (run ++ escaped p).
Proof.
  induction p as [|c p IH]; intros run; cbn [push_runs].
  - unfold escaped. cbn. rewrite app_nil_r. apply run_writes.
  - unfold escaped. cbn [flat_map]. fold (escaped p). destruct (needs_escape c).
    + apply (writes_seq (fun b => match run with [] => b | _ => buf_push b run end)
               (fun b => push_runs (buf_push b (escape c)) [] p)); [apply run_writes|].
      apply (writes_seq (fun b => buf_push b (escape c)) (fun b => push_runs b [] p)); [apply buf_push_writes|apply (IH [])].
    + eapply writes_eq; [apply IH|]. by rewrite <- app_assoc.
Qed.

Lemma buf_push_json_str_writes s : writes (fun b => buf_push_json_str b s) (json_str_text (str s)).
Proof.
  eapply writes_eq.
  - apply (writes_seq (fun b => push_runs (buf_push b [dquote]) [] (str s)) (fun b => buf_push b [dquote]));
      [|apply buf_push_writes].
    apply (writes_seq (fun b => buf_push b [dquote]) (fun b => push_runs b [] (str s))); [apply buf_push_writes|apply push_runs_writes].
  - unfold json_str_text. cbn [app]. done.
Qed.

Lemma push_lit_writes s : writes (fun b => push_lit b s) (str (lit s)).
Proof. apply buf_push_writes. Qed.

(** ** The outline as JSON *)

Definition pos_json (p : LspPos) : json :=
  Json_obj [(str "line", Json_num (line p)); (str "character", Json_num (character p))].

Definition range_json (r : LspRange) : json :=
  Json_obj [(str "start", pos_json (rstart r)); (str "end", pos_json (rend r))].

(** The DocumentSymbol of a node. *)
Fixpoint symbol_json (sym : tj_node) : json :=
  Json_obj (
    [ (str "name", Json_str (str (default EmptyString (tn_name sym))));
      (str "detail", Json_str (str (default EmptyString (tn_id sym))));
      (str "kind", Json_num (symbol_kind_for (tn_keyword sym)));
      (str "range", range_json (tn_range sym));
      (str "selectionRange", range_json (tn_selection_range sym)) ] ++
    match tn_children sym with
    | [] => []
    | cs => [(str "children", Json_arr (map symbol_json cs))]
    end).

(** One more write. *)
Section Sequence.
Context (f : Buf -> Buf) (s : list ascii).
Hypothesis Hf : writes f s.

Lemma seq_lit t : writes (fun b => push_lit (f b) t) (s ++ str (lit t)).
Proof. apply (writes_seq f (fun b => push_lit b t) s _ Hf), buf_push_writes. Qed.
Lemma seq_push t : writes (fun b => buf_push (f b) t) (s ++ t).
Proof. apply (writes_seq f (fun b => buf_push b t) s _ Hf), buf_push_writes. Qed.
Lemma seq_uint v : writes (fun b => buf_push_uint (f b) v) (s ++ write_uint v).
Proof. apply (writes_seq f (fun b => buf_push_uint b v) s _ Hf), buf_push_uint_writes. Qed.
Lemma seq_str v : writes (fun b => buf_push_json_str (f b) v) (s ++ json_str_text (str v)).
Proof. apply (writes_seq f (fun b => buf_push_json_str b v) s _ Hf), buf_push_json_str_writes. Qed.
End Sequence.

(** Both sides of an equation of texts in the same form. *)
Ltac text_eq :=
  unfold write_uint, str; cbn -[write_decimal json_str_text];
  repeat (rewrite <- app_assoc; cbn -[write_decimal json_str_text]); reflexivity.

Lemma write_range_writes r : writes (fun b => write_range_buf b r) (json_text (range_json r)).
Proof.
  eapply writes_eq.
  - unfold write_range_buf. repeat first [eapply seq_lit | eapply seq_uint]. apply writes_nothing.
  - unfold range_json, pos_json. text_eq.
Qed.

Lemma commas_cons x l : commas (x :: l) = x ++ flat_map (fun y => ","%char :: y) l.
Proof.
  revert x. induction l as [|y l IH]; intros x; [cbn; by rewrite app_nil_r|].
  change (commas (x :: y :: l)) with (x ++ ","%char :: commas (y :: l)). by rewrite IH.
Qed.

Lemma write_list_writes {A} (write : Buf -> A -> Buf) (text : A -> list ascii) l :
  Forall (fun x => writes (fun b => write b x) (text x)) l ->
  writes (fun b => write_list write false b l) (flat_map (fun y => ","%char :: y) (map text l)).
Proof.
  induction 1 as [|x l Hx _ IH]; cbn [write_list map flat_map]; [apply writes_nothing|].
  change (","%char :: text x) with ([","%char] ++ text x).
  apply (writes_seq (fun b => write (buf_push b [","%char]) x) (fun b => write_list write false b l)); [|done].
  apply (writes_seq (fun b => buf_push b [","%char]) (fun b => write b x)); [apply buf_push_writes|done].
Qed.

Lemma write_list_first {A} (write : Buf -> A -> Buf) (text : A -> list ascii) l :
  Forall (fun x => writes (fun b => write b x) (text x)) l ->
  writes (fun b => write_list write true b l) (commas (map text l)).
Proof.
  destruct 1 as [|x l Hx Hl]; [apply writes_nothing|]. cbn [write_list map]. rewrite commas_cons.
  apply (writes_seq (fun b => write b x) (fun b => write_list write false b l)); [done|].
  by apply write_list_writes.
Qed.

(** The loop over the children is the one over the top level. *)
Lemma write_children l : forall first b,
  (fix go (first : bool) (b : Buf) (l : list tj_node) : Buf :=
     match l with
     | [] => b
     | c :: l' => go false (write_node_buf (if first then b else buf_push b [","%char]) c) l'
     end) first b l = write_list write_node_buf first b l.
Proof. induction l as [|c l IH]; intros first b; [done|]. apply IH. Qed.

(** What precedes the children. *)
Definition write_head (b : Buf) (sym : tj_node) : Buf :=
  let b := push_lit b "{~name~:" in
  let b := buf_push_json_str b (default EmptyString (tn_name sym)) in
  let b := push_lit b ",~detail~:" in
  let b := buf_push_json_str b (default EmptyString (tn_id sym)) in
  let b := push_lit b ",~kind~:" in
  let b := buf_push_uint b (symbol_kind_for (tn_keyword sym)) in
  let b := push_lit b ",~range~:" in
  let b := write_range_buf b (tn_range sym) in
  let b := push_lit b ",~selectionRange~:" in
  write_range_buf b (tn_selection_range sym).

Lemma write_node_buf_eq b sym : write_node_buf b sym =
  buf_push (match tn_children sym with
            | [] => write_head b sym
            | cs => buf_push (write_list write_node_buf true (push_lit (write_head b sym) ",~children~:[") cs)
                      ["]"%char]
            end) ["}"%char].
Proof.
  destruct sym as [k0 d0 n0 r0 s0 a0 b0 c0 e0 f0 cs]. cbn [tn_children]. destruct cs as [|c cs]; [done|].
  rewrite <- (write_children (c :: cs)). done.
Qed.

Definition head_text (sym : tj_node) : list ascii :=
  str (lit "{~name~:") ++ json_str_text (str (default EmptyString (tn_name sym))) ++
  str (lit ",~detail~:") ++ json_str_text (str (default EmptyString (tn_id sym))) ++
  str (lit ",~kind~:") ++ write_uint (symbol_kind_for (tn_keyword sym)) ++
  str (lit ",~range~:") ++ json_text (range_json (tn_range sym)) ++
  str (lit ",~selectionRange~:") ++ json_text (range_json (tn_selection_range sym)).

Lemma write_head_writes sym : writes (fun b => write_head b sym) (head_text sym).
Proof.
  unfold write_head. eapply writes_eq.
  - eapply (writes_seq (fun b => push_lit _ _) (fun b => write_range_buf b _)); [|apply write_range_writes].
    eapply seq_lit. eapply (writes_seq (fun b => push_lit _ _) (fun b => write_range_buf b _));
      [|apply write_range_writes].
    repeat first [eapply seq_lit | eapply seq_uint | eapply seq_str]. apply writes_nothing.
  - unfold head_text. by rewrite <- !app_assoc.
Qed.

Lemma symbol_text sym : json_text (symbol_json sym) =
  head_text sym ++ match tn_children sym with
                   | [] => []
                   | cs => str (lit ",~children~:[") ++ commas (map json_text (map symbol_json cs)) ++ ["]"%char]
                   end ++ ["}"%char].
Proof.
  destruct sym as [k0 d0 n0 r0 s0 a0 b0 c0 e0 f0 cs]. unfold head_text. cbn [symbol_json tn_children].
  destruct cs as [|c cs].
  - cbn [app tn_name tn_id tn_keyword tn_range tn_selection_range]. unfold write_uint, str.
    cbn -[write_decimal json_str_text range_json].
    repeat (rewrite <- app_assoc; cbn -[write_decimal json_str_text range_json]). reflexivity.
  - generalize (map symbol_json (c :: cs)). intros l. cbn [app tn_name tn_id tn_keyword tn_range tn_selection_range].
    unfold write_uint, str. cbn -[write_decimal json_str_text range_json].
    repeat (rewrite <- app_assoc; cbn -[write_decimal json_str_text range_json]). reflexivity.
Qed.

Lemma write_node_writes sym : writes (fun b => write_node_buf b sym) (json_text (symbol_json sym)).
Proof.
  induction sym as [sym IH] using tj_node_rect_children. rewrite symbol_text.
  intros b. rewrite write_node_buf_eq. revert b.
  change (writes (fun b => buf_push (match tn_children sym with
            | [] => write_head b sym
            | cs => buf_push (write_list write_node_buf true (push_lit (write_head b sym) ",~children~:[") cs)
                      ["]"%char]
            end) ["}"%char]) 
    (head_text sym ++ match tn_children sym with
                   | [] => []
                   | cs => str (lit ",~children~:[") ++ commas (map json_text (map symbol_json cs)) ++ ["]"%char]
                   end ++ ["}"%char])).
  rewrite app_assoc. apply seq_push. destruct (tn_children sym) as [|c cs].
  { rewrite app_nil_r. apply write_head_writes. }
  rewrite !app_assoc. apply seq_push.
  apply (writes_seq (fun b => push_lit (write_head b sym) ",~children~:[")
           (fun b => write_list write_node_buf true b (c :: cs))).
  - apply seq_lit, write_head_writes.
  - rewrite map_map. by apply write_list_first.
Qed.

Lemma document_symbols_writes syms : b_ok (document_symbols_buf syms) /\
  b_data (document_symbols_buf syms) = json_text (Json_arr (map symbol_json syms)).
Proof.
  assert (Hw : writes (fun b => buf_push (write_list write_node_buf true (buf_push b ["["%char]) syms) ["]"%char])
    ((["["%char] ++ commas (map (fun s => json_text (symbol_json s)) syms)) ++ ["]"%char])).
  { apply seq_push.
    apply (writes_seq (fun b => buf_push b ["["%char]) (fun b => write_list write_node_buf true b syms));
      [apply buf_push_writes|].
    apply write_list_first, Forall_forall. intros s _. apply write_node_writes. }
  destruct (Hw (mkBuf [] 0)) as [Hok Hd]; [unfold b_ok, b_len; cbn; lia|].
  split; [exact Hok|]. unfold document_symbols_buf. rewrite Hd. cbn [json_text b_data]. by rewrite map_map.
Qed.

(** All positions of the tree are 32-bit. *)
Fixpoint positions_ok (n : tj_node) : Prop :=
  pos_wf (rstart (tn_range n)) /\ pos_wf (rend (tn_range n)) /\
  pos_wf (rstart (tn_selection_range n)) /\ pos_wf (rend (tn_selection_range n)) /\
  fold_right (fun c a => positions_ok c /\ a) True (tn_children n).

Lemma range_json_wf r : pos_wf (rstart r) -> pos_wf (rend r) -> json_wf (range_json r).
Proof. unfold pos_wf, is_u32, u32_modulus. cbn. lia. Qed.

Lemma positions_ok_children n : positions_ok n -> Forall positions_ok (tn_children n).
Proof.
  destruct n as [k0 d0 n0 r0 s0 a0 b0 c0 e0 f0 cs]. cbn. intros (_ & _ & _ & _ & H).
  induction cs as [|c cs IH]; [done|]. destruct H as [Hc H]. constructor; [done|by apply IH].
Qed.

Lemma symbol_json_wf sym : positions_ok sym -> json_wf (symbol_json sym).
Proof.
  induction sym as [sym IH] using tj_node_rect_children. intros Hp.
  assert (Hch : Forall json_wf (map symbol_json (tn_children sym))).
  { apply Forall_fmap. apply positions_ok_children in Hp. rewrite Forall_forall in *.
    intros c Hc. apply IH; [done|by apply Hp]. }
  assert (Hr : json_wf (range_json (tn_range sym)) /\ json_wf (range_json (tn_selection_range sym))).
  { destruct sym; destruct Hp as (? & ? & ? & ? & _). split; by apply range_json_wf. }
  destruct sym as [k0 d0 n0 r0 s0 a0 b0 c0 e0 f0 cs]. cbn [symbol_json tn_children] in *.
  apply json_wf_members, Forall_app. split.
  - apply Forall_cons_2; [exact I|]. apply Forall_cons_2; [exact I|].
    apply Forall_cons_2; [destruct k0; vm_compute; (split; [discriminate|reflexivity])|]. apply Forall_cons_2; [apply Hr|].
    apply Forall_cons_2; [apply Hr|done].
  - destruct cs as [|c cs]; [done|]. apply Forall_cons_2; [by apply json_wf_elems|done].
Qed.

(** C30: The outline is well-formed JSON and loses nothing: reading back the
    bytes of the document-symbol answer gives, for every top-level declaration
    and recursively for its children, the object with its name, id, kind and
    two ranges, whatever characters the strings hold.  No byte is written
    outside the buffer, whose doubling always makes enough room. *)
Theorem document_symbols_roundtrip syms :
  Forall positions_ok syms ->
  b_ok (document_symbols_buf syms) /\
  read_json (length (build_document_symbols_json syms)) (build_document_symbols_json syms)
    = Some (Json_arr (map symbol_json syms), []).
Proof.
  intros Hp. destruct (document_symbols_writes syms) as [Hok Hd]. split; [done|].
  unfold build_document_symbols_json. rewrite Hd.
  pose proof (read_json_text (Json_arr (map symbol_json syms))) as Hr. rewrite <- (app_nil_r (json_text _)) at 2.
  apply Hr; [|done|done]. apply json_wf_elems, Forall_fmap. eapply Forall_impl; [exact Hp|].
  intros s. apply symbol_json_wf.
Qed.

Lemma document_symbols_roundtrip_witness :
  let s := TjNode KW_TASK (Some "a"%string) (Some (lit "say ~hi~"))
             (mkRange (mkPos 0 0) (mkPos 2 1)) (mkRange (mkPos 0 5) (mkPos 0 6)) 0 0 false false [] [] in
  Forall positions_ok [s] /\
  read_json (length (build_document_symbols_json [s])) (build_document_symbols_json [s])
    = Some (Json_arr [symbol_json s], []).
Proof.
  intros s. assert (Hs : Forall positions_ok [s]) by (repeat constructor; by vm_compute).
  split; [done|]. apply (document_symbols_roundtrip [s] Hs).
Defined.

(** ** Workspace symbols *)

Definition symbol_name (n : tj_node) : string := default EmptyString (tn_name n).

Lemma matches_spec query name : matches query name = true <->
  exists l r, tolower <$> str name = l ++ (tolower <$> str query) ++ r.
Proof.
  unfold matches. rewrite orb_true_iff, bool_decide_eq_true, strcasestr_spec.
  split; [|by right]. intros [->|?]; [|done]. by exists [], (tolower <$> str name).
Qed.

(** A match strictly below [n]. *)
Definition found_below (query uri : string) (n : tj_node) (w : WorkspaceSymbol) : Prop :=
  exists p i parent m, node_at n p = Some parent /\ tn_children parent !! i = Some m /\
    matches query (symbol_name m) = true /\
    w = emit_workspace_symbol m (symbol_name m) uri (Some (symbol_name parent)).

Lemma collect_symbol_spec query uri w n : forall container,
  w ∈ collect_symbol query uri container n <->
  (matches query (symbol_name n) = true /\ w = emit_workspace_symbol n (symbol_name n) uri container) \/
  found_below query uri n w.
Proof.
  induction n as [n IH] using tj_node_rect_children. intros container.
  assert (Heq : collect_symbol query uri container n =
    (if matches query (symbol_name n) then [emit_workspace_symbol n (symbol_name n) uri container] else [])
      ++ flat_map (collect_symbol query uri (Some (symbol_name n))) (tn_children n)) by (by destruct n).
  rewrite Heq, elem_of_app, (list_elem_of_In (flat_map _ _) w), in_flat_map. clear Heq.
  assert (Hself : w ∈ (if matches query (symbol_name n)
      then [emit_workspace_symbol n (symbol_name n) uri container] else []) <->
    matches query (symbol_name n) = true /\ w = emit_workspace_symbol n (symbol_name n) uri container).
  { destruct (matches query (symbol_name n)); [rewrite list_elem_of_singleton|rewrite elem_of_nil]; naive_solver. }
  rewrite Hself. match goal with |- ?a \/ ?b <-> ?a \/ ?c => enough (b <-> c) as -> by done end.
  rewrite Forall_lookup in IH. split.
  - intros (c & Hc & Hw). apply list_elem_of_In in Hc, Hw. apply list_elem_of_lookup in Hc as [i Hi].
    apply (IH i c Hi) in Hw as [[Hm ->]|(p & j & parent & m & Hp & Hj & Hm & ->)].
    + by exists [], i, n, c.
    + exists (i :: p), j, parent, m. split_and!; [cbn; by rewrite Hi|done..].
  - intros (p & j & parent & m & Hp & Hj & Hm & ->).
    assert (Hc : exists i c, tn_children n !! i = Some c /\ emit_workspace_symbol m (symbol_name m) uri
      (Some (symbol_name parent)) ∈ collect_symbol query uri (Some (symbol_name n)) c).
    { destruct p as [|i p]; cbn in Hp.
      - injection Hp as ->. exists j, m. split; [done|]. apply (IH j m Hj). by left.
      - destruct (tn_children n !! i) as [c|] eqn:Hi; [|done]. exists i, c. split; [done|].
        apply (IH i c Hi). right. by exists p, j, parent, m. }
    destruct Hc as (i & c & Hi & Hin). exists c. split; [|by apply list_elem_of_In].
    apply list_elem_of_In. by eapply list_elem_of_lookup_2.
Qed.

(** The workspace search finds exactly the declarations, at any depth,
    whose name contains the query ignoring case, each with its kind, the range
    of its name and, below the top level, the name of its parent as container. *)
Theorem workspace_symbols_exact query uri root w :
  w ∈ collect_workspace_symbols query (tn_children root) uri <->
  exists p i parent m, node_at root p = Some parent /\ tn_children parent !! i = Some m /\
    (exists l r, tolower <$> str (symbol_name m) = l ++ (tolower <$> str query) ++ r) /\
    w = mkWSym (symbol_name m) (symbol_kind_for (tn_keyword m))
          (match p with [] => None | _ => Some (symbol_name parent) end) uri (tn_selection_range m).
Proof.
  unfold collect_workspace_symbols. rewrite list_elem_of_In, in_flat_map. split.
  - intros (c & Hc & Hw). apply list_elem_of_In in Hc, Hw. apply list_elem_of_lookup in Hc as [i Hi].
    apply collect_symbol_spec in Hw as [[Hm ->]|(p & j & parent & m & Hp & Hj & Hm & ->)].
    + exists [], i, root, c. by rewrite <- matches_spec.
    + exists (i :: p), j, parent, m. rewrite <- matches_spec. split_and!; [cbn; by rewrite Hi|done..].
  - intros (p & j & parent & m & Hp & Hj & Hm%matches_spec & ->). destruct p as [|i p]; cbn in Hp.
    + injection Hp as ->. exists m. split; [apply list_elem_of_In; by eapply list_elem_of_lookup_2|].
      apply list_elem_of_In, collect_symbol_spec. by left.
    + destruct (tn_children root !! i) as [c|] eqn:Hi; [|done]. exists c.
      split; [apply list_elem_of_In; by eapply list_elem_of_lookup_2|].
      apply list_elem_of_In, collect_symbol_spec. right. by exists p, j, parent, m.
Qed.

(** ** Brackets *)

(** Nesting after the spans, from nesting [d]; [None] if a bracket closes that
    was not opened. *)
Definition level_step (d : nat) (s : TokenSpan) : option nat :=
  match ts_kind s with
  | TK_LBRACKET => Some (S d)
  | TK_RBRACKET => match d with O => None | S d' => Some d' end
  | _ => Some d
  end.

Fixpoint level (d : nat) (spans : list TokenSpan) : option nat :=
  match spans with
  | [] => Some d
  | s :: spans' => level_step d s ≫= fun d' => level d' spans'
  end.

Definition balanced (spans : list TokenSpan) : Prop := level 0 spans = Some 0%nat.

(** The stack of the code after the spans. *)
Definition stack_step (st : list Z) (s : TokenSpan) : list Z :=
  match ts_kind s with
  | TK_LBRACKET => if (length st <? MAX_BRACKET_DEPTH)%nat then line (ts_start s) :: st else st
  | TK_RBRACKET => tail st
  | _ => st
  end.

Definition stack_after (st : list Z) (spans : list TokenSpan) : list Z := foldl stack_step st spans.

(** What one token emits. *)
Definition fold_at (st : list Z) (s : TokenSpan) : list FoldingRange :=
  match ts_kind s with
  | TK_RBRACKET =>
      match st with
      | a :: _ => if line (ts_start s) >? a then [mkFold a (line (ts_start s)) Fold_region] else []
      | [] => []
      end
  | TK_BLOCK_COMMENT =>
      if line (ts_end s) >? line (ts_start s)
      then [mkFold (line (ts_start s)) (line (ts_end s)) Fold_comment] else []
  | _ => []
  end.

Lemma emit_step st s spans :
  emit_token_ranges_from st (s :: spans) = fold_at st s ++ emit_token_ranges_from (stack_step st s) spans.
Proof.
  unfold fold_at, stack_step. cbn [emit_token_ranges_from].
  destruct (ts_kind s); try reflexivity. by destruct st.
Qed.

Lemma emit_in st spans r : r ∈ emit_token_ranges_from st spans <->
  exists pre s post, spans = pre ++ s :: post /\ r ∈ fold_at (stack_after st pre) s.
Proof.
  revert st. induction spans as [|s spans IH]; intros st.
  - split; [by intros ?%elem_of_nil|]. by intros ([] & s & post & ? & _).
  - rewrite emit_step, elem_of_app, IH. split.
    + intros [H|(pre & s' & post & -> & H)]; [by exists [], s, spans|]. by exists (s :: pre), s', post.
    + intros ([|x pre] & s' & post & [= -> ->] & H); [by left|]. right. by exists pre, s', post.
Qed.

Lemma level_app d l1 l2 : level d (l1 ++ l2) = level d l1 ≫= fun d' => level d' l2.
Proof.
  revert d. induction l1 as [|s l1 IH]; intros d; [done|]. cbn. destruct (level_step d s); [apply IH|done].
Qed.

(** Below the limit no opening bracket is dropped. *)
Definition depth_ok (spans : list TokenSpan) : Prop :=
  forall pre, pre `prefix_of` spans -> (length (stack_after [] pre) < MAX_BRACKET_DEPTH)%nat.

(** What opened entry [k] of the stack. *)
Definition opened_by (pre : list TokenSpan) (k : nat) (a : Z) : Prop :=
  exists l o inner, pre = l ++ o :: inner /\ ts_kind o = TK_LBRACKET /\ line (ts_start o) = a /\
    level 0 inner = Some k.

Lemma opened_by_snoc pre s k a k' : opened_by pre k a -> level_step k s = Some k' ->
  opened_by (pre ++ [s]) k' a.
Proof.
  intros (l & o & inner & -> & Ho & Ha & Hl) Hs. exists l, o, (inner ++ [s]).
  split_and!; [by rewrite <- app_assoc|done..|]. rewrite level_app, Hl. cbn. by rewrite Hs.
Qed.

Lemma stack_opened pre : (forall p, p `prefix_of` pre -> (length (stack_after [] p) < MAX_BRACKET_DEPTH)%nat) ->
  forall k a, stack_after [] pre !! k = Some a -> opened_by pre k a.
Proof.
  induction pre as [|s pre IH] using rev_ind; intros Hd k a; [done|].
  assert (Hd' : forall p, p `prefix_of` pre -> (length (stack_after [] p) < MAX_BRACKET_DEPTH)%nat).
  { intros p Hp. apply Hd. by apply prefix_app_r. }
  specialize (IH Hd'). specialize (Hd' pre ltac:(done)). unfold stack_after in *. rewrite foldl_app. cbn [foldl].
  unfold stack_step at 1. destruct (ts_kind s) eqn:E;
    try (intros Hk; apply (opened_by_snoc _ _ k); [by apply IH|unfold level_step; by rewrite E]).
  - rewrite (proj2 (Nat.ltb_lt _ _) Hd'). destruct k as [|k]; cbn.
    + intros [= <-]. exists pre, s, []. by split_and!.
    + intros Hk. apply (opened_by_snoc _ _ k); [by apply IH|unfold level_step; by rewrite E].
  - intros Hk. rewrite lookup_tail in Hk. apply (opened_by_snoc _ _ (S k)); [by apply IH|].
    unfold level_step. by rewrite E.
Qed.

(** Balanced spans leave the stack as it was. *)
Lemma stack_balanced inner : forall st xs d, length xs = d -> level d inner = Some 0%nat ->
  (forall p, p `prefix_of` inner -> (length (stack_after (xs ++ st) p) < MAX_BRACKET_DEPTH)%nat) ->
  stack_after (xs ++ st) inner = st.
Proof.
  induction inner as [|s inner IH]; intros st xs d Hx Hl Hd; cbn [level] in Hl.
  - injection Hl as ->. by destruct xs.
  - pose proof (Hd [] (prefix_nil _)) as H0. cbn in H0.
    destruct (level_step d s) as [d'|] eqn:Es; [|done]. cbn [mbind option_bind] in Hl.
    assert (Hs : exists xs', stack_step (xs ++ st) s = xs' ++ st /\ length xs' = d').
    { unfold stack_step. unfold level_step in Es. rewrite (proj2 (Nat.ltb_lt _ _) H0).
      destruct (ts_kind s); try (injection Es as <-; by exists xs).
      - injection Es as <-. exists (line (ts_start s) :: xs). by rewrite <- Hx.
      - destruct d as [|d]; [done|]. injection Es as <-. destruct xs as [|x xs]; [done|].
        exists xs. split; [done|by injection Hx]. }
    destruct Hs as (xs' & Hs & Hx'). unfold stack_after in *. cbn [foldl]. rewrite Hs.
    apply (IH st xs' d' Hx' Hl). intros p Hp. specialize (Hd (s :: p) (prefix_cons s _ _ Hp)).
    cbn [foldl] in Hd. by rewrite Hs in Hd.
Qed.

(** The folding ranges of the tokens, for brackets nested less than 256
    deep: one region for each pair of an opening bracket and the closing
    bracket that matches it (only balanced text lies between them) that are on
    different lines, and one comment range for each comment of several lines;
    nothing else, and every range has its end line after its start line. *)
Theorem token_ranges_exact spans r : depth_ok spans ->
  r ∈ emit_token_ranges spans <->
  (exists l o inner c post, spans = l ++ o :: inner ++ c :: post /\
     ts_kind o = TK_LBRACKET /\ ts_kind c = TK_RBRACKET /\ balanced inner /\
     line (ts_start o) < line (ts_start c) /\
     r = mkFold (line (ts_start o)) (line (ts_start c)) Fold_region) \/
  (exists s, s ∈ spans /\ ts_kind s = TK_BLOCK_COMMENT /\ line (ts_start s) < line (ts_end s) /\
     r = mkFold (line (ts_start s)) (line (ts_end s)) Fold_comment).
Proof.
  intros Hd. unfold emit_token_ranges. rewrite emit_in. split.
  - intros (pre & s & post & -> & Hr). unfold fold_at in Hr.
    destruct (ts_kind s) eqn:E; try (by apply elem_of_nil in Hr).
    + left. destruct (stack_after [] pre) as [|a st] eqn:Est; [by apply elem_of_nil in Hr|].
      destruct (Z.gtb_spec (line (ts_start s)) a) as [Hgt|]; [|by apply elem_of_nil in Hr].
      apply list_elem_of_singleton in Hr as ->.
      destruct (stack_opened pre) with (k := 0%nat) (a := a) as (l & o & inner & -> & Ho & <- & Hb).
      * intros p Hp. apply Hd. by apply prefix_app_r.
      * by rewrite Est.
      * exists l, o, inner, s, post. split_and!; try done. by rewrite <- app_assoc.
    + right. destruct (Z.gtb_spec (line (ts_end s)) (line (ts_start s))); [|by apply elem_of_nil in Hr].
      apply list_elem_of_singleton in Hr as ->. exists s. split_and!; try done.
      apply elem_of_app. right. left.
  - intros [(l & o & inner & c & post & -> & Ho & Hc & Hb & Hlt & ->)|(s & Hin & Hk & Hlt & ->)].
    + exists (l ++ o :: inner), c, post. split; [by rewrite <- app_assoc|].
      assert (Hst : stack_after [] (l ++ o :: inner) = line (ts_start o) :: stack_after [] l).
      { unfold stack_after at 1. rewrite foldl_app. cbn [foldl]. fold (stack_after [] l).
        pose proof (Hd l ltac:(by eexists)) as H1. unfold stack_step at 2. rewrite Ho.
        rewrite (proj2 (Nat.ltb_lt _ _) H1).
        apply (stack_balanced inner (line (ts_start o) :: stack_after [] l) [] 0 eq_refl Hb).
        intros p [q ->]. pose proof (Hd (l ++ o :: p)) as H2. unfold stack_after in H2 at 1.
        rewrite foldl_app in H2. cbn [foldl] in H2. fold (stack_after [] l) in H2.
        unfold stack_step at 2 in H2. rewrite Ho, (proj2 (Nat.ltb_lt _ _) H1) in H2. apply H2.
        exists (q ++ c :: post). by rewrite <- !app_assoc. }
      rewrite Hst. unfold fold_at. rewrite Hc. destruct (Z.gtb_spec (line (ts_start c)) (line (ts_start o))); [left|lia].
    + apply list_elem_of_split in Hin as (pre & post & ->). exists pre, s, post. split; [done|].
      unfold fold_at. rewrite Hk. destruct (Z.gtb_spec (line (ts_end s)) (line (ts_start s))); [left|lia].
Qed.

(** [macro m [ a [ b ] ]] over four lines, and a comment. *)
Definition bracket_spans : list TokenSpan :=
  (fun x => mkSpan x.1.1 (mkPos x.1.2 0) (mkPos x.2 1) None) <$>
  [ (TK_LBRACKET, 0, 0); (TK_LBRACKET, 1, 1); (TK_RBRACKET, 2, 2); (TK_BLOCK_COMMENT, 2, 4); (TK_RBRACKET, 5, 5) ].

Lemma token_ranges_exact_witness :
  emit_token_ranges bracket_spans = [mkFold 1 2 Fold_region; mkFold 2 4 Fold_comment; mkFold 0 5 Fold_region] /\
  mkFold 0 5 Fold_region ∈ emit_token_ranges bracket_spans.
Proof.
  split; [by vm_compute|]. apply (token_ranges_exact bracket_spans).
  - intros pre [k Hk]. unfold bracket_spans in Hk. cbn in Hk.
    do 6 (destruct pre as [|? pre]; [vm_compute; lia|injection Hk as <- Hk || discriminate Hk]).
  - left. exists [], (mkSpan TK_LBRACKET (mkPos 0 0) (mkPos 0 1) None),
      (take 3 (drop 1 bracket_spans)), (mkSpan TK_RBRACKET (mkPos 5 0) (mkPos 5 1) None), [].
    split_and!; by vm_compute.
Defined.
