(* ===== verification/Tj3.v ===== *)
(** * [tj3.c]: the members of a project and the messages of tj3.

    The members of a project have paths relative to their common directory, and
    the lines tj3 writes to stderr become diagnostics of the member documents.
    Staging the members is in [Staging], running tj3 in [Tj3Run]. *)

From S2P Require Import Prelude CText PathUri Syntax Store Assembly Diagnostics DiagWorker.

Definition chars (s : string) : list ascii := list_ascii_of_string s.
Arguments chars s%_string_scope.

Record member : Set := mkMember {
  m_path : list ascii; m_relpath : list ascii; m_uri : string; m_text : string }.

(** ** Paths *)

Definition path_join (a b : list ascii) : list ascii := a ++ slash :: b.

(** How far [p] agrees with the first [len] characters of [p0]. *)
Fixpoint match_len (len : nat) (p0 p : list ascii) : nat :=
  match len, p0, p with
  | S len', a :: p0', b :: p' => if bool_decide (a = b) then S (match_len len' p0' p') else O
  | _, _, _ => O
  end.

(** [while (len > 0 && p0[len - 1] != '/') len--]. *)
Fixpoint trim_to_slash (p0 : list ascii) (len : nat) : nat :=
  match len with
  | O => O
  | S len' => if bool_decide (p0 !! len' = Some slash) then len else trim_to_slash p0 len'
  end.

Definition common_dir_len (paths : list (list ascii)) : nat :=
  match paths with
  | [] => O
  | p0 :: rest => trim_to_slash p0 (foldl (fun len p => match_len len p0 p) (length p0) rest)
  end.

(** The part after the last slash, or the whole path. *)
Fixpoint basename_from (best p : list ascii) : list ascii :=
  match p with
  | [] => best
  | c :: p' => basename_from (if bool_decide (c = slash) then p' else best) p'
  end.
Definition basename (p : list ascii) : list ascii := basename_from p p.

Definition relpath_of (common_len : nat) (path : list ascii) : list ascii :=
  match drop common_len path with
  | [] => basename path
  | rel => rel
  end.

Definition assign_member_relpaths (ms : list member) : list member :=
  let common_len := common_dir_len (m_path <$> ms) in
  (fun m => mkMember (m_path m) (relpath_of common_len (m_path m)) (m_uri m) (m_text m)) <$> ms.

(** ** Members and staging *)

Definition member_of (pindex : nat) (w : ws_doc) : option member :=
  match wd_snap w with
  | Some s =>
      if bool_decide (wd_project_index w = Z.of_nat pindex)
      then (fun path => mkMember (chars path) [] (snap_uri s) (snap_text s)) <$> uri_to_path (snap_uri s)
      else None
  | None => None
  end.

Definition collect_project_members (ws : workspace_snapshot) (pindex : nat) : list member :=
  omap (member_of pindex) (ws_docs ws).

(** ** Reading a file descriptor *)

(** The buffer and its capacity; one more byte is kept for the NUL. *)
Fixpoint read_chunks (realloc_ok : Z -> bool) (buf : list ascii) (cap : Z) (chunks : list (list ascii))
  : option (list ascii) :=
  match chunks with
  | [] => if (cap =? 0)%Z then None else Some buf
  | c :: chunks' =>
      let need := (Z.of_nat (length buf) + Z.of_nat (length c) + 1)%Z in
      if (need >? cap)%Z then
        if realloc_ok (need * 2)%Z then read_chunks realloc_ok (buf ++ c) (need * 2) chunks' else None
      else read_chunks realloc_ok (buf ++ c) cap chunks'
  end.

Definition read_fd_to_string (realloc_ok : Z -> bool) (chunks : list (list ascii)) : option (list ascii) :=
  read_chunks realloc_ok [] 0 chunks.

(** ** Messages *)

(** The pieces between separators, empty ones left out: [strtok_r] with one
    separator. *)
Fixpoint strtok_from (sep : ascii) (seg cs : list ascii) : list (list ascii) :=
  match cs with
  | [] => match seg with [] => [] | _ => [reverse seg] end
  | c :: cs' =>
      if bool_decide (c = sep)
      then match seg with [] => strtok_from sep [] cs' | _ => reverse seg :: strtok_from sep [] cs' end
      else strtok_from sep (c :: seg) cs'
  end.
Definition strtok (sep : ascii) (cs : list ascii) : list (list ascii) := strtok_from sep [] cs.

Fixpoint strip (p s : list ascii) : option (list ascii) :=
  match p, s with
  | [], _ => Some s
  | a :: p', b :: s' => if bool_decide (a = b) then strip p' s' else None
  | _, _ => None
  end.

(** [strstr]: what comes before the first occurrence and what comes after it. *)
Fixpoint strstr (line pat : list ascii) : option (list ascii * list ascii) :=
  match strip pat line with
  | Some after => Some ([], after)
  | None =>
      match line with
      | [] => None
      | c :: line' => (fun r => (c :: r.1, r.2)) <$> strstr line' pat
      end
  end.

(** Splits at the last colon. *)
Fixpoint last_colon (cs : list ascii) : option (list ascii * list ascii) :=
  match cs with
  | [] => None
  | c :: cs' =>
      match last_colon cs' with
      | Some (a, b) => Some (c :: a, b)
      | None => if bool_decide (c = ":"%char) then Some ([], cs') else None
      end
  end.

(** The digits of the line number; anything else makes the line no message. *)
Definition line_number (ds : list ascii) : option Z :=
  match ds with
  | [] => None
  | _ => if forallb is_digit ds
         then Some (foldl (fun v c => int32 (v * 10 + digit_val c)) 0%Z ds) else None
  end.

(** [while (p[0] == '.' && p[1] == '/') p += 2]. *)
Fixpoint skip_dot_slash (p : list ascii) : list ascii :=
  match p with
  | c1 :: c2 :: p' =>
      if bool_decide (c1 = "."%char) && bool_decide (c2 = slash) then skip_dot_slash p' else p
  | _ => p
  end.

Definition map_reported_path (path tmpdir : list ascii) (real_tmp : option (list ascii))
    (ms : list member) : option string :=
  let p := skip_dot_slash path in
  let p := match p with
           | c :: _ =>
               if bool_decide (c = slash) then
                 match strip (tmpdir ++ [slash]) p with
                 | Some q => q
                 | None => default p (real_tmp ≫= fun r => strip (r ++ [slash]) p)
                 end
               else p
           | [] => p
           end in
  let p := skip_dot_slash p in
  m_uri <$> List.find (fun m => bool_decide (m_relpath m = p)) ms.

Definition error_marker : list ascii := chars ": Error: ".
Definition warning_marker : list ascii := chars ": Warning: ".

(** The severity, the text before the marker and the message. *)
Definition find_marker (line : list ascii) : option (Z * list ascii * list ascii) :=
  match strstr line error_marker with
  | Some (before, message) => Some (DIAG_ERROR, before, message)
  | None =>
      match strstr line warning_marker with
      | Some (before, message) => Some (DIAG_WARNING, before, message)
      | None => None
      end
  end.

Definition parse_diagnostic_line (tmpdir : list ascii) (real_tmp : option (list ascii))
    (ms : list member) (out : diag_set) (line : list ascii) : diag_set :=
  default out (
    '(severity, before, message) ← find_marker line;
    '(path, digits) ← last_colon before;
    lineno ← line_number digits;
    uri ← map_reported_path path tmpdir real_tmp ms;
    let l := if (lineno >? 0)%Z then (lineno - 1)%Z else 0%Z in
    Some (diag_set_add out uri
            (mkDiagnostic (mkRange (mkPos l 0) (mkPos l INT_MAX)) severity
               (string_of_list_ascii message) (Some "tj3"%string)))).

Definition parse_diagnostics (stderr_buf : option (list ascii)) (tmpdir : list ascii)
    (real_tmp : option (list ascii)) (ms : list member) (out : diag_set) : diag_set :=
  match stderr_buf with
  | None => out
  | Some buf => foldl (parse_diagnostic_line tmpdir real_tmp ms) out (strtok "010"%char (until_nul buf))
  end.

(** ** The common directory *)

Lemma match_len_spec len : forall p0 p, (len <= length p0)%nat ->
  (match_len len p0 p <= len)%nat /\ take (match_len len p0 p) p0 = take (match_len len p0 p) p /\
  (match_len len p0 p <= length p)%nat /\
  forall k, (k <= len)%nat -> take k p0 `prefix_of` p -> (k <= match_len len p0 p)%nat.
Proof.
  induction len as [|len IH]; intros [|a p0] [|b p] Hl; cbn [match_len length] in *; try lia;
    try (split_and!; [lia|done|lia|]; intros [|k] Hk Hp; [lia|];
         try (by apply prefix_nil_inv in Hp); lia).
  case_bool_decide as E.
  - subst b. destruct (IH p0 p ltac:(lia)) as (H1 & H2 & H3 & H4). split_and!; [lia|cbn; congruence|lia|].
    intros [|k] Hk Hp; [lia|]. cbn in Hp. apply prefix_cons_inv_2 in Hp. specialize (H4 k ltac:(lia) Hp). lia.
  - split_and!; [lia|done|lia|]. intros [|k] Hk Hp; [lia|]. cbn in Hp. by apply prefix_cons_inv_1 in Hp.
Qed.

(** The length all paths agree to with the first. *)
Lemma agree_spec p0 rest : forall len, (len <= length p0)%nat ->
  let l := foldl (fun len p => match_len len p0 p) len rest in
  (l <= len)%nat /\ (forall p, p ∈ rest -> take l p0 `prefix_of` p) /\
  forall k, (k <= len)%nat -> (forall p, p ∈ rest -> take k p0 `prefix_of` p) -> (k <= l)%nat.
Proof.
  induction rest as [|p rest IH]; intros len Hl; cbn [foldl].
  { split_and!; [lia|by intros ? ?%elem_of_nil|done]. }
  destruct (match_len_spec len p0 p Hl) as (H1 & H2 & H3 & H4).
  destruct (IH (match_len len p0 p) ltac:(lia)) as (H5 & H6 & H7). split_and!; [lia| |].
  - intros q [->|Hq]%elem_of_cons; [|by apply H6].
    transitivity (take (match_len len p0 p) p0); [|rewrite H2; apply prefix_take].
    set (l := foldl _ _ _) in *. exists (drop l (take (match_len len p0 p) p0)).
    rewrite <- (take_drop l (take (match_len len p0 p) p0)) at 1. by rewrite take_take, Nat.min_l.
  - intros k Hk Hall. apply H7; [apply H4; [done|apply Hall; left]|]. intros q Hq. apply Hall. by right.
Qed.

Lemma trim_to_slash_spec p0 len : (len <= length p0)%nat ->
  (trim_to_slash p0 len <= len)%nat /\
  (forall l, trim_to_slash p0 len = S l -> p0 !! l = Some slash) /\
  (forall k, (S k <= len)%nat -> p0 !! k = Some slash -> (S k <= trim_to_slash p0 len)%nat).
Proof.
  induction len as [|len IH]; intros Hl; cbn [trim_to_slash].
  { split_and!; [lia|done|lia]. }
  destruct (IH ltac:(lia)) as (H1 & H2 & H3). case_bool_decide as E; split_and!; try lia.
  - intros l [= <-]. done.
  - done.
  - intros k Hk Hs. destruct (decide (k = len)) as [->|]; [done|]. apply H3; [lia|done].
Qed.

Lemma prefix_take_iff {A} (l l' : list A) k : (k <= length l)%nat -> take k l `prefix_of` l' -> take k l = take k l'.
Proof.
  intros Hk [r ->]. rewrite take_app_le by (rewrite length_take; lia). by rewrite take_take, Nat.min_id.
Qed.

(** A directory: nothing, or a path that ends in a slash. *)
Definition is_dir (d : list ascii) : Prop := d = [] \/ exists d', d = d' ++ [slash].

Lemma common_dir_spec paths : paths <> [] ->
  exists d, length d = common_dir_len paths /\ is_dir d /\ (forall p, p ∈ paths -> d `prefix_of` p) /\
    forall d', is_dir d' -> (forall p, p ∈ paths -> d' `prefix_of` p) -> (length d' <= length d)%nat.
Proof.
  destruct paths as [|p0 rest]; [done|intros _]. unfold common_dir_len.
  destruct (agree_spec p0 rest (length p0) ltac:(lia)) as (H1 & H2 & H3).
  set (l := foldl _ _ _) in *. destruct (trim_to_slash_spec p0 l H1) as (H4 & H5 & H6).
  exists (take (trim_to_slash p0 l) p0). rewrite length_take, Nat.min_l by lia. split_and!; [done| | |].
  - destruct (trim_to_slash p0 l) as [|k] eqn:E; [by left|]. right. exists (take k p0).
    apply take_S_r. by apply H5.
  - intros p [->|Hp]%elem_of_cons; [apply prefix_take|].
    transitivity (take l p0); [|by apply H2]. exists (drop (trim_to_slash p0 l) (take l p0)).
    rewrite <- (take_drop (trim_to_slash p0 l) (take l p0)) at 1. by rewrite take_take, Nat.min_l.
  - intros d' [->|[d'' ->]] Hall; [cbn; lia|]. rewrite length_app. cbn [length].
    destruct (Hall p0 ltac:(left)) as [r Hr].
    assert (Hd : d'' ++ [slash] = take (S (length d'')) p0).
    { rewrite Hr, take_app_le by (rewrite length_app; cbn; lia). rewrite take_ge; [done|]. rewrite length_app. cbn. lia. }
    assert (Hlen : (S (length d'') <= length p0)%nat) by (rewrite Hr, !length_app; cbn; lia).
    assert (Hk : (S (length d'') <= l)%nat).
    { apply H3; [done|]. intros p Hp. rewrite <- Hd. apply Hall. by right. }
    specialize (H6 (length d'') Hk). rewrite Nat.add_1_r. apply H6.
    rewrite Hr, <- app_assoc, lookup_app_r, Nat.sub_diag by lia. done.
Qed.

(** ** Staging *)

(** The path of a file: not empty and not ending in a slash. *)
Definition file_path (p : list ascii) : Prop := p <> [] /\ last p <> Some slash.

Lemma relpath_file d p : is_dir d -> d `prefix_of` p -> file_path p ->
  p = d ++ relpath_of (length d) p /\ relpath_of (length d) p <> [].
Proof.
  intros Hd [r ->] [Hne Hl]. unfold relpath_of. rewrite drop_app_length. destruct r as [|c r]; [|done].
  exfalso. rewrite app_nil_r in *. destruct Hd as [->|[d' ->]]; [done|]. by rewrite last_snoc in Hl.
Qed.

(** Members with distinct file paths: each path is the common directory, the
    longest all paths share, followed by the relative path, and the relative
    paths are distinct and not empty. *)
Lemma relpaths_mirror ms :
  ms <> [] -> NoDup (m_path <$> ms) -> Forall (fun m => file_path (m_path m)) ms ->
  let ms' := assign_member_relpaths ms in
  exists d, is_dir d /\
    (forall d', is_dir d' -> (forall m, m ∈ ms -> d' `prefix_of` m_path m) -> (length d' <= length d)%nat) /\
    NoDup (m_relpath <$> ms') /\
    forall m, m ∈ ms' -> m_path m = d ++ m_relpath m /\ m_relpath m <> [].
Proof.
  intros Hne Hnd Hf ms'. destruct (common_dir_spec (m_path <$> ms)) as (d & Hlen & Hd & Hpre & Hmax).
  { by destruct ms. }
  assert (Hm : forall m, m ∈ ms -> m_path m = d ++ relpath_of (length d) (m_path m) /\
    relpath_of (length d) (m_path m) <> []).
  { intros m Hm. rewrite Forall_forall in Hf. apply relpath_file; [done| |by apply Hf].
    apply Hpre, list_elem_of_fmap. by exists m. }
  assert (Hrel : m_relpath <$> ms' = (fun m => relpath_of (length d) (m_path m)) <$> ms).
  { unfold ms', assign_member_relpaths. rewrite <- list_fmap_compose, Hlen. done. }
  assert (Hnd' : NoDup (m_relpath <$> ms')).
  { rewrite Hrel. clear -Hnd Hm. induction ms as [|m ms IH]; cbn in *; [constructor|].
    apply NoDup_cons in Hnd as [Hn Hnd]. apply NoDup_cons. split; [|apply IH; [done|intros; apply Hm; by right]].
    intros [x [Hx Hin]]%list_elem_of_fmap. apply Hn, list_elem_of_fmap. exists x. split; [|done].
    rewrite (proj1 (Hm m ltac:(left))), (proj1 (Hm x ltac:(by right))). by rewrite Hx. }
  exists d. split_and!; [done| |done|].
  - intros d' Hd' Hall. apply Hmax; [done|]. intros p [m [-> Hin]]%list_elem_of_fmap. by apply Hall.
  - intros m Hin. unfold ms', assign_member_relpaths in Hin. apply list_elem_of_fmap in Hin as (x & -> & Hx).
    cbn [m_path m_relpath]. rewrite <- Hlen. by apply Hm.
Qed.

Definition sample_members : list member :=
  [ mkMember (chars "/w/p/main.tjp") [] "file:///w/p/main.tjp" "include";
    mkMember (chars "/w/lib/team.tji") [] "file:///w/lib/team.tji" "resource" ].

(** ** What tj3 writes *)

Definition lf : ascii := "010"%char.

(** A line of stderr: a message about a member under some path of it, or
    anything without a marker. *)
Inductive tj3_line : Set :=
  | Report (m : member) (path : list ascii) (lineno severity : Z) (message : list ascii)
  | Noise (text : list ascii).

Definition marker_of (severity : Z) : list ascii :=
  if (severity =? DIAG_ERROR)%Z then error_marker else warning_marker.

Definition report_text (path : list ascii) (lineno severity : Z) (message : list ascii) : list ascii :=
  path ++ ":"%char :: write_decimal 10 lineno ++ marker_of severity ++ message.

Definition line_text (l : tj3_line) : list ascii :=
  match l with
  | Report _ path n s msg => report_text path n s msg
  | Noise text => text
  end.

Definition stderr_text (ls : list tj3_line) : list ascii := flat_map (fun l => line_text l ++ [lf]) ls.

(** The diagnostic a line stands for. *)
Definition add_report (out : diag_set) (l : tj3_line) : diag_set :=
  match l with
  | Report m _ n s msg =>
      diag_set_add out (m_uri m)
        (mkDiagnostic (mkRange (mkPos (n - 1) 0) (mkPos (n - 1) INT_MAX)) s (string_of_list_ascii msg)
           (Some "tj3"%string))
  | Noise _ => out
  end.

(** Relative paths that need no normalising, and have no colon. *)
Definition plain_relpath (p : list ascii) : Prop :=
  skip_dot_slash p = p /\ head p <> Some slash /\ ":"%char ∉ p.

(** Any number of [./]. *)
Definition dots (n : nat) : list ascii := concat (replicate n (chars "./")).

(** The paths tj3 uses for the staged file [rel]: relative to the staging
    directory it runs in, or below that directory's name, as it was created or
    with its links resolved. *)
Inductive reported_as (tmpdir : list ascii) (real_tmp : option (list ascii)) (rel : list ascii) : list ascii -> Prop :=
  | As_relative n : reported_as tmpdir real_tmp rel (dots n ++ rel)
  | As_staged n k : reported_as tmpdir real_tmp rel (dots n ++ path_join tmpdir (dots k ++ rel))
  | As_resolved real n k : real_tmp = Some real ->
      reported_as tmpdir real_tmp rel (dots n ++ path_join real (dots k ++ rel)).

Definition absolute_dir (dir : list ascii) : Prop := head dir = Some slash /\ ":"%char ∉ dir.

(** The staging directory's two names: absolute, without a colon, and if they
    differ neither lies below the other. *)
Definition temp_names (tmpdir : list ascii) (real_tmp : option (list ascii)) : Prop :=
  absolute_dir tmpdir /\
  forall real, real_tmp = Some real -> absolute_dir real /\
    (real = tmpdir \/
     ~ (tmpdir ++ [slash]) `prefix_of` (real ++ [slash]) /\ ~ (real ++ [slash]) `prefix_of` (tmpdir ++ [slash])).

Definition one_line (cs : list ascii) : Prop := cs <> [] /\ (lf ∉ cs) /\ (nul ∉ cs).

Definition line_ok (tmpdir : list ascii) (real_tmp : option (list ascii)) (ms : list member) (l : tj3_line) : Prop :=
  one_line (line_text l) /\
  match l with
  | Report m path n s msg =>
      m ∈ ms /\ plain_relpath (m_relpath m) /\ reported_as tmpdir real_tmp (m_relpath m) path /\ (1 <= n < 2147483648)%Z /\
      (s = DIAG_ERROR \/ s = DIAG_WARNING /\ strstr (warning_marker ++ msg) error_marker = None)
  | Noise text => find_marker text = None
  end.

(** ** Cutting stderr into lines *)

Lemma strtok_line sep seg l rest : sep ∉ l ->
  strtok_from sep seg (l ++ sep :: rest) =
    match reverse l ++ seg with
    | [] => strtok_from sep [] rest
    | s => reverse s :: strtok_from sep [] rest
    end.
Proof.
  revert seg. induction l as [|c l IH]; intros seg Hn.
  - cbn [app strtok_from]. rewrite bool_decide_eq_true_2 by done. by destruct seg.
  - apply not_elem_of_cons in Hn as [Hc Hn]. cbn [app strtok_from].
    rewrite bool_decide_eq_false_2, IH, reverse_cons, <- app_assoc by done. done.
Qed.

Lemma strtok_stderr ls : Forall (fun l => one_line (line_text l)) ls ->
  strtok lf (stderr_text ls) = line_text <$> ls.
Proof.
  induction 1 as [|l ls (Hne & Hlf & _) _ IH]; [done|]. unfold strtok, stderr_text in *. cbn [flat_map].
  rewrite <- app_assoc. cbn [app]. rewrite strtok_line by done. rewrite app_nil_r.
  destruct (reverse (line_text l)) as [|c r] eqn:E.
  - apply (f_equal reverse) in E. rewrite reverse_involutive in E. done.
  - rewrite <- E, reverse_involutive, fmap_cons. by rewrite IH.
Qed.

Lemma stderr_no_nul ls : Forall (fun l => one_line (line_text l)) ls -> nul ∉ stderr_text ls.
Proof.
  induction 1 as [|l ls (_ & _ & Hn) _ IH]; [by intros ?%elem_of_nil|]. unfold stderr_text in *. cbn [flat_map].
  rewrite !elem_of_app, list_elem_of_singleton. intros [[?|?]|?]; done.
Qed.

(** ** Reading one line *)

Lemma strip_app p r : strip p (p ++ r) = Some r.
Proof. induction p as [|a p IH]; [done|]. cbn. by rewrite bool_decide_eq_true_2. Qed.

(** A character that cannot start the pattern is skipped. *)
Lemma strstr_skip c line a pat : c <> a ->
  strstr (c :: line) (a :: pat) = (fun r => (c :: r.1, r.2)) <$> strstr line (a :: pat).
Proof. intros Hc. cbn [strstr strip]. by rewrite bool_decide_eq_false_2 by congruence. Qed.

Lemma strstr_skip_all pre line a pat : a ∉ pre ->
  strstr (pre ++ line) (a :: pat) = (fun r => (pre ++ r.1, r.2)) <$> strstr line (a :: pat).
Proof.
  induction pre as [|c pre IH]; intros Hn.
  - cbn [app]. by destruct (strstr line _) as [[? ?]|].
  - apply not_elem_of_cons in Hn as [Hc Hn]. cbn [app]. rewrite strstr_skip, IH by done.
    by destruct (strstr line _) as [[? ?]|].
Qed.

Lemma digits_no_colon ds : Forall (fun c => is_digit c = true) ds -> ":"%char ∉ ds.
Proof. rewrite Forall_forall. intros Hd Hin. by specialize (Hd _ Hin). Qed.

(** The colon of the line number is not a marker. *)
Lemma strstr_at_number rel ds rest b pat marker : marker = ":"%char :: b :: pat -> ":"%char ∉ rel -> Forall (fun c => is_digit c = true) ds -> ds <> [] ->
  is_digit b = false ->
  strstr (rel ++ ":"%char :: ds ++ rest) marker
    = (fun r => (rel ++ ":"%char :: ds ++ r.1, r.2)) <$> strstr rest marker.
Proof.
  intros -> Hrel Hds Hne Hb. rewrite strstr_skip_all by done.
  destruct ds as [|d ds]; [done|]. pose proof Hds as [Hd _]%Forall_cons.
  assert (Hhead : strstr (":"%char :: (d :: ds) ++ rest) (":"%char :: b :: pat)
    = (fun r => (":"%char :: r.1, r.2)) <$> strstr ((d :: ds) ++ rest) (":"%char :: b :: pat)).
  { cbn [app]. cbn [strstr strip]. rewrite bool_decide_eq_true_2 by done.
    rewrite bool_decide_eq_false_2; [done|]. intros ->. congruence. }
  rewrite Hhead, strstr_skip_all by (by apply digits_no_colon).
  by destruct (strstr rest _) as [[? ?]|].
Qed.

Lemma last_colon_none cs : ":"%char ∉ cs -> last_colon cs = None.
Proof.
  induction cs as [|c cs IH]; intros Hn; [done|]. apply not_elem_of_cons in Hn as [Hc Hn]. cbn.
  rewrite IH by done. by rewrite bool_decide_eq_false_2 by congruence.
Qed.

Lemma last_colon_at rel ds : ":"%char ∉ ds -> last_colon (rel ++ ":"%char :: ds) = Some (rel, ds).
Proof.
  intros Hn. induction rel as [|c rel IH]; cbn [app last_colon]; [by rewrite last_colon_none|by rewrite IH].
Qed.

Lemma dec_value_lower ds : forall v, (0 <= v)%Z -> Forall (fun c => is_digit c = true) ds -> (v <= dec_value v ds)%Z.
Proof.
  induction ds as [|c ds IH]; intros v Hv Hd; [done|]. apply Forall_cons in Hd as [Hc Hd].
  change (dec_value v (c :: ds)) with (dec_value (v * 10 + digit_val c) ds).
  pose proof (is_digit_range c Hc). specialize (IH (v * 10 + digit_val c)%Z ltac:(lia) Hd). lia.
Qed.

Lemma int32_id z : (0 <= z < 2147483648)%Z -> int32 z = z.
Proof. intros Hz. unfold int32. rewrite Z.mod_small; lia. Qed.

Lemma foldl_int32 ds : forall v, (0 <= v)%Z -> Forall (fun c => is_digit c = true) ds ->
  (dec_value v ds < 2147483648)%Z ->
  foldl (fun v c => int32 (v * 10 + digit_val c)) v ds = dec_value v ds.
Proof.
  induction ds as [|c ds IH]; intros v Hv Hd Hlt; [done|]. apply Forall_cons in Hd as [Hc Hd].
  change (dec_value v (c :: ds)) with (dec_value (v * 10 + digit_val c) ds) in *.
  pose proof (is_digit_range c Hc). pose proof (dec_value_lower ds (v * 10 + digit_val c) ltac:(lia) Hd).
  cbn [foldl]. rewrite int32_id by lia. apply IH; [lia|done|done].
Qed.

Lemma line_number_decimal n : (1 <= n < 2147483648)%Z -> line_number (write_decimal 10 n) = Some n.
Proof.
  intros Hn. pose proof (write_decimal_digits 10 n) as Hd.
  pose proof (write_decimal_nonempty 10 n ltac:(lia) ltac:(lia)) as Hne.
  pose proof (write_decimal_value 10 n ltac:(lia)) as Hv.
  unfold line_number. destruct (write_decimal 10 n) as [|c ds] eqn:E; [done|].
  replace (forallb is_digit (c :: ds)) with true.
  2: { symmetry. apply forallb_forall. intros x Hx. rewrite Forall_forall in Hd. by apply Hd, list_elem_of_In. }
  rewrite foldl_int32 by (done || lia). by rewrite Hv.
Qed.

Lemma find_member ms m : NoDup (m_relpath <$> ms) -> m ∈ ms ->
  List.find (fun x => bool_decide (m_relpath x = m_relpath m)) ms = Some m.
Proof.
  induction ms as [|x ms IH]; intros Hnd Hin; [by apply elem_of_nil in Hin|].
  apply NoDup_cons in Hnd as [Hx Hnd]. cbn. apply elem_of_cons in Hin as [->|Hin].
  - by rewrite bool_decide_eq_true_2.
  - rewrite bool_decide_eq_false_2; [by apply IH|]. intros Heq. apply Hx. rewrite Heq.
    apply list_elem_of_fmap. by exists m.
Qed.

Lemma skip_dots n p : skip_dot_slash (dots n ++ p) = skip_dot_slash p.
Proof. induction n as [|n IH]; [done|]. change (skip_dot_slash (dots n ++ p) = skip_dot_slash p). exact IH. Qed.

Lemma dots_no_colon n : ":"%char ∉ dots n.
Proof.
  induction n as [|n IH]; [by apply not_elem_of_nil|]. change (":"%char ∉ chars "./" ++ dots n).
  apply not_elem_of_app. split; [|done]. by apply (bool_decide_unpack _).
Qed.

Lemma strip_prefix p s q : strip p s = Some q -> s = p ++ q.
Proof.
  revert s. induction p as [|a p IH]; intros s H; cbn in H; [by injection H|].
  destruct s as [|b s]; [done|]. case_bool_decide as E; [|done]. cbn. rewrite E. f_equal. by apply IH.
Qed.

(** Below a directory, the part after its name is looked up. *)
Lemma skip_absolute n dir rest : head dir = Some slash ->
  skip_dot_slash (dots n ++ path_join dir rest) = path_join dir rest.
Proof. intros Hd. rewrite skip_dots. destruct dir as [|c dir]; [done|]. injection Hd as ->. by destruct dir. Qed.

Lemma strip_below dir rest : strip (dir ++ [slash]) (path_join dir rest) = Some rest.
Proof. unfold path_join. change (slash :: rest) with ([slash] ++ rest). rewrite app_assoc. apply strip_app. Qed.

Lemma strip_temp tmpdir real_tmp dir rest : temp_names tmpdir real_tmp ->
  dir = tmpdir \/ real_tmp = Some dir ->
  match strip (tmpdir ++ [slash]) (path_join dir rest) with
  | Some q => q
  | None => default (path_join dir rest) (real_tmp ≫= fun r => strip (r ++ [slash]) (path_join dir rest))
  end = rest.
Proof.
  intros [_ Hreal] Hdir. destruct (decide (dir = tmpdir)) as [->|Hne]; [by rewrite strip_below|].
  destruct Hdir as [?|Hr]; [done|]. destruct (Hreal dir Hr) as [_ [?|[Ha Hb]]]; [done|].
  destruct (strip (tmpdir ++ [slash]) _) as [q|] eqn:Eq.
  - exfalso. apply strip_prefix in Eq.
    assert (Hd : (dir ++ [slash]) `prefix_of` path_join dir rest).
    { exists rest. unfold path_join. by rewrite <- app_assoc. }
    assert (Ht : (tmpdir ++ [slash]) `prefix_of` path_join dir rest) by (by exists q).
    destruct (prefix_weak_total _ _ _ Hd Ht); contradiction.
  - rewrite Hr. cbn [mbind option_bind]. by rewrite strip_below.
Qed.

(** Every path tj3 uses for a member leads to its URI. *)
Lemma map_reported ms m path tmpdir real_tmp : NoDup (m_relpath <$> ms) -> m ∈ ms -> temp_names tmpdir real_tmp ->
  plain_relpath (m_relpath m) -> reported_as tmpdir real_tmp (m_relpath m) path ->
  map_reported_path path tmpdir real_tmp ms = Some (m_uri m).
Proof.
  intros Hnd Hin Htemp (Hdot & Hslash & _) Hpath. unfold map_reported_path.
  assert (Habs : forall n k dir, dir = tmpdir \/ real_tmp = Some dir -> head dir = Some slash ->
    path = dots n ++ path_join dir (dots k ++ m_relpath m) ->
    map_reported_path path tmpdir real_tmp ms = Some (m_uri m)).
  { intros n k dir Hdir Hhead ->. unfold map_reported_path. rewrite skip_absolute by done.
    pose proof (strip_temp tmpdir real_tmp dir (dots k ++ m_relpath m) Htemp Hdir) as Hstrip.
    destruct dir as [|c dir]; [done|]. injection Hhead as ->. unfold path_join in Hstrip |- *. cbn [app] in Hstrip |- *.
    rewrite bool_decide_eq_true_2, Hstrip by done. by rewrite skip_dots, Hdot, find_member. }
  destruct Hpath as [n|n k|real n k Hr].
  - rewrite skip_dots, Hdot. pose proof (find_member ms m Hnd Hin) as Hfind.
    destruct (m_relpath m) as [|c r]; [by rewrite Hdot, Hfind|].
    rewrite bool_decide_eq_false_2 by (cbn in Hslash; congruence). by rewrite Hdot, Hfind.
  - apply (Habs n k tmpdir); [by left|by destruct Htemp as [[? _] _]|done].
  - apply (Habs n k real); [by right| |done]. by destruct (proj2 Htemp real Hr) as [[? _] _].
Qed.

(** None of those paths has a colon. *)
Lemma reported_no_colon tmpdir real_tmp rel path : temp_names tmpdir real_tmp -> ":"%char ∉ rel ->
  reported_as tmpdir real_tmp rel path -> ":"%char ∉ path.
Proof.
  intros [[_ Ht] Hreal] Hrel Hpath.
  assert (Hjoin : forall n k dir, ":"%char ∉ dir -> ":"%char ∉ dots n ++ path_join dir (dots k ++ rel)).
  { intros n k dir Hd. unfold path_join. rewrite not_elem_of_app, not_elem_of_app, not_elem_of_cons, not_elem_of_app.
    split_and!; [apply dots_no_colon|done|done|apply dots_no_colon|done]. }
  destruct Hpath as [n|n k|real n k Hr].
  - apply not_elem_of_app. split; [apply dots_no_colon|done].
  - by apply Hjoin.
  - apply Hjoin. by destruct (Hreal real Hr) as [[_ ?] _].
Qed.

Lemma parse_report ms tmpdir real_tmp out m path n s msg : NoDup (m_relpath <$> ms) ->
  temp_names tmpdir real_tmp -> line_ok tmpdir real_tmp ms (Report m path n s msg) ->
  parse_diagnostic_line tmpdir real_tmp ms out (report_text path n s msg) = add_report out (Report m path n s msg).
Proof.
  intros Hnd Htemp (_ & Hin & Hplain & Hpath & Hn & Hs). pose proof (write_decimal_digits 10 n) as Hd.
  pose proof (write_decimal_nonempty 10 n ltac:(lia) ltac:(lia)) as Hne.
  assert (Hcolon : ":"%char ∉ path) by (eapply reported_no_colon; [done|apply Hplain|done]).
  assert (Hm : find_marker (report_text path n s msg)
    = Some (s, path ++ ":"%char :: write_decimal 10 n, msg)).
  { unfold find_marker, report_text, marker_of. destruct Hs as [->|[-> Hnone]].
    - change (DIAG_ERROR =? DIAG_ERROR)%Z with true. cbn iota.
      rewrite (strstr_at_number _ _ _ " "%char (chars "Error: ")) by done.
      change (strstr (error_marker ++ msg) error_marker) with (Some (@nil ascii, msg)).
      cbn [fmap option_fmap option_map fst snd]. by rewrite app_nil_r.
    - change (DIAG_WARNING =? DIAG_ERROR)%Z with false. cbn iota.
      rewrite (strstr_at_number _ _ _ " "%char (chars "Error: ")) by done. rewrite Hnone.
      cbn [fmap option_fmap option_map].
      rewrite (strstr_at_number _ _ _ " "%char (chars "Warning: ")) by done.
      change (strstr (warning_marker ++ msg) warning_marker) with (Some (@nil ascii, msg)).
      cbn [fmap option_fmap option_map fst snd]. by rewrite app_nil_r. }
  unfold parse_diagnostic_line. rewrite Hm. cbn [mbind option_bind].
  rewrite last_colon_at by (by apply digits_no_colon). cbn [mbind option_bind].
  rewrite line_number_decimal by done. cbn [mbind option_bind]. rewrite (map_reported ms m) by done.
  cbn [mbind option_bind default from_option id add_report].
  by rewrite (proj2 (Z.gtb_lt n 0)) by lia.
Qed.

(** The set stays well formed, as the workers require of their tj3. *)
Lemma parse_line_nodup tmpdir real_tmp ms out line :
  NoDup (uris out) -> NoDup (uris (parse_diagnostic_line tmpdir real_tmp ms out line)).
Proof.
  intros Hn. unfold parse_diagnostic_line.
  destruct (find_marker line) as [[[s b] msg]|]; cbn [mbind option_bind default from_option]; [|done].
  destruct (last_colon b) as [[p ds]|]; cbn [mbind option_bind default from_option]; [|done].
  destruct (line_number ds); cbn [mbind option_bind default from_option]; [|done].
  destruct (map_reported_path _ _ _ _); cbn [mbind option_bind default from_option id]; [|done].
  by apply uris_add_nodup.
Qed.

Lemma parse_diagnostics_nodup buf tmpdir real_tmp ms out :
  NoDup (uris out) -> NoDup (uris (parse_diagnostics buf tmpdir real_tmp ms out)).
Proof.
  intros Hn. unfold parse_diagnostics. destruct buf as [buf|]; [|done].
  revert out Hn. induction (strtok _ _) as [|l ls IH]; intros out Hn; cbn [foldl]; [done|].
  by apply IH, parse_line_nodup.
Qed.

(** C32: Every message tj3 writes about a member reaches that member's document.
    For stderr made of message lines [path:line: Error: text] or [.. Warning: ..]
    and of any other lines without a marker, the parsed set is exactly the given
    set with one diagnostic appended per message, in order: under the URI of
    the member the path names, on that line (counted from 0), with its severity
    and its whole text. The path may take every form tj3 uses ([reported_as]):
    the member's relative path with any number of [./] before it, alone or below
    the staging directory's name as created or as resolved. The relative paths
    of the members are distinct, without a colon and normalised, and line
    numbers are below 2^31. The text of a warning contains no [: Error: ] (such
    a warning is lost, [quoted_error_lost] below). *)
Theorem parse_diagnostics_roundtrip ls ms tmpdir real_tmp out :
  NoDup (m_relpath <$> ms) -> temp_names tmpdir real_tmp -> Forall (line_ok tmpdir real_tmp ms) ls ->
  parse_diagnostics (Some (stderr_text ls)) tmpdir real_tmp ms out = foldl add_report out ls.
Proof.
  intros Hnd Htemp Hls. assert (Hone : Forall (fun l => one_line (line_text l)) ls).
  { eapply Forall_impl; [exact Hls|]. by intros l []. }
  unfold parse_diagnostics. rewrite until_nul_id by (by apply stderr_no_nul).
  change "010"%char with lf. rewrite strtok_stderr by done. clear Hone. revert out.
  induction Hls as [|l ls Hl _ IH]; intros out; [done|]. rewrite fmap_cons. cbn [foldl]. rewrite IH. f_equal.
  destruct l as [m path n s msg|text]; [by apply parse_report|].
  destruct Hl as [_ Hnone]. cbn [line_text]. unfold parse_diagnostic_line. by rewrite Hnone.
Qed.

(** A warning under a relative path, a summary line, an error below the resolved
    directory and a warning below the directory as created. *)
Definition staged_main : member := mkMember (chars "/w/p/main.tjp") (chars "p/main.tjp") "file:///w/p/main.tjp" "include".
Definition staged_team : member :=
  mkMember (chars "/w/lib/team.tji") (chars "lib/team.tji") "file:///w/lib/team.tji" "resource".

Definition sample_stderr : list tj3_line :=
  [ Report staged_main (chars "./p/main.tjp") 12 DIAG_WARNING (chars "Project is late");
    Noise (chars "1 warning so far");
    Report staged_team (chars "/private/tmp/t/./lib/team.tji") 3 DIAG_ERROR (chars "Unknown resource: bob");
    Report staged_main (chars "/tmp/t/p/main.tjp") 2 DIAG_WARNING (chars "No leader") ].

(** [one_line] on concrete text. *)
Lemma one_line_dec cs :
  negb (bool_decide (cs = [])) && negb (bool_decide (lf ∈ cs)) && negb (bool_decide (nul ∈ cs)) = true -> one_line cs.
Proof.
  rewrite !andb_true_iff, !negb_true_iff, !bool_decide_eq_false. by intros [[? ?] ?].
Qed.

Lemma plain_relpath_dec p :
  bool_decide (skip_dot_slash p = p) && negb (bool_decide (head p = Some slash))
    && negb (bool_decide (":"%char ∈ p)) = true -> plain_relpath p.
Proof.
  rewrite !andb_true_iff, !negb_true_iff, !bool_decide_eq_false, bool_decide_eq_true. by intros [[? ?] ?].
Qed.

Lemma parse_diagnostics_roundtrip_witness :
  let ms := [staged_main; staged_team] in
  let real_tmp := Some (chars "/private/tmp/t") in
  let out := parse_diagnostics (Some (stderr_text sample_stderr)) (chars "/tmp/t") real_tmp ms [] in
  assign_member_relpaths sample_members = ms /\
  map (fun f => (fst f, map (fun d => (line (rstart (dg_range d)), dg_message d)) (snd f))) out
    = [("file:///w/p/main.tjp", [(11, "Project is late"); (1, "No leader")]);
       ("file:///w/lib/team.tji", [(2, "Unknown resource: bob")])]%string%Z /\
  out = foldl add_report [] sample_stderr.
Proof.
  intros ms real_tmp out. split; [by vm_compute|]. split; [by vm_compute|].
  apply (parse_diagnostics_roundtrip sample_stderr ms (chars "/tmp/t") real_tmp []).
  - apply (bool_decide_unpack _). vm_compute. exact I.
  - split; [split; [done|by apply (bool_decide_unpack _)]|]. intros real [= <-].
    split; [split; [done|by apply (bool_decide_unpack _)]|]. right.
    split; by apply (bool_decide_unpack _).
  - repeat apply Forall_cons_2; [..|done]; (split; [by apply one_line_dec; vm_compute|]).
    + split_and!; [left|by apply plain_relpath_dec; vm_compute|apply (As_relative _ _ _ 1)|done|done|right; by split].
    + by vm_compute.
    + split_and!; [right; left|by apply plain_relpath_dec; vm_compute|by apply (As_resolved _ _ _ (chars "/private/tmp/t") 0 1)|done|done|by left].
    + split_and!; [left|by apply plain_relpath_dec; vm_compute|exact (As_staged (chars "/tmp/t") real_tmp (m_relpath staged_main) 0 0)|done|done|right; by split].
Defined.

(** A warning whose text mentions an error is lost: the first [: Error: ] of
    the line is taken for the marker. *)
Example quoted_error_lost :
  parse_diagnostics (Some (chars "a.tjp:3: Warning: late: Error: x")) (chars "/tmp/t") None
    [mkMember (chars "/w/a.tjp") (chars "a.tjp") "file:///w/a.tjp" ""] [] = [].
Proof. vm_compute. reflexivity. Qed.
