(* ===== verification/FileSys.v ===== *)
(** * The file system, as far as [tj3.c] uses it.

    A tree of directories, files and symbolic links, given by the entries at
    absolute paths.  Paths are resolved as the kernel does, one component after
    the other, following links; every call the code makes is a function on
    trees.  Permissions and space are not limited, and what fails for another
    reason leaves the tree as it is.  The calls of the clean-up, which meet what
    a foreign program left, may be refused: that is a parameter of [Staging]. *)

From S2P Require Import Prelude PathUri.

Abbreviation name := (list ascii).
(** The components from the root. *)
Abbreviation fpath := (list name).

Inductive entry : Set :=
  | Dir
  | File (text : string)
  | Link (target : list ascii).

#[global] Instance entry_eq_dec : EqDecision entry.
Proof. solve_decision. Defined.

Abbreviation fsys := (gmap fpath entry).

Definition dot : name := ["."%char].
Definition dot_dot : name := ["."%char; "."%char].

(** What a directory entry can be called. *)
Definition good_name (n : name) : Prop := n <> [] /\ n <> dot /\ n <> dot_dot /\ slash ∉ n.

#[global] Instance good_name_dec n : Decision (good_name n).
Proof. unfold good_name. apply _. Defined.

(** Every entry stands in a directory and has a proper name. *)
Definition fs_wf (fs : fsys) : Prop :=
  fs !! [] = Some Dir /\
  forall d n e, fs !! (d ++ [n]) = Some e -> fs !! d = Some Dir /\ good_name n.

(** ** Resolving a path *)

Definition segs (path : list ascii) : list name := segments_from [] path.

Definition absolute (path : list ascii) : bool := bool_decide (head path = Some slash).

Definition parent (p : fpath) : fpath := take (pred (length p)) p.

(** [follow] says whether a link in the last place is followed; [links] bounds
    the links on the way (ELOOP). *)
Fixpoint walk (links : nat) (fs : fsys) (follow : bool) : fpath -> list name -> option fpath :=
  fix go (cur : fpath) (ss : list name) : option fpath :=
    match ss with
    | [] => Some cur
    | s :: rest =>
        match fs !! cur with
        | Some Dir =>
            if bool_decide (s = dot) then go cur rest
            else if bool_decide (s = dot_dot) then go (parent cur) rest
            else match fs !! (cur ++ [s]) with
                 | Some (Link t) =>
                     if follow || negb (bool_decide (rest = [])) then
                       match links with
                       | O => None
                       | S links' => walk links' fs follow (if absolute t then [] else cur) (segs t ++ rest)
                       end
                     else Some (cur ++ [s])
                 | _ => go (cur ++ [s]) rest
                 end
        | _ => None
        end
    end.

Definition MAXSYMLINKS : nat := 40.

Section Calls.
(** The working directory of the server. *)
Variable cwd : fpath.

Definition namei (fs : fsys) (follow : bool) (path : list ascii) : option fpath :=
  if bool_decide (path = []) then None
  else walk MAXSYMLINKS fs follow (if absolute path then [] else cwd) (segs path).

(** ** The calls *)

Definition mkdir (fs : fsys) (path : list ascii) : fsys :=
  match namei fs false path with
  | Some p => match fs !! p with None => <[p := Dir]> fs | Some _ => fs end
  | None => fs
  end.

(** [fopen (path, "w")]: the file it opens and the tree with that file empty. *)
Definition fopen_w (fs : fsys) (path : list ascii) : option (fpath * fsys) :=
  match namei fs true path with
  | Some p => if bool_decide (fs !! p = Some Dir) then None else Some (p, <[p := File EmptyString]> fs)
  | None => None
  end.

Definition lstat (fs : fsys) (path : list ascii) : option entry := namei fs false path ≫= fun p => fs !! p.

Definition child_name (d k : fpath) : option name :=
  match last k with
  | Some n => if bool_decide (k = d ++ [n]) then Some n else None
  | None => None
  end.

(** The names a directory holds, in no particular order. *)
Definition children (fs : fsys) (d : fpath) : list name :=
  omap (fun ke => child_name d ke.1) (map_to_list fs).

(** [opendir] and [readdir] until the end. *)
Definition read_dir (fs : fsys) (path : list ascii) : list name :=
  match namei fs true path with
  | Some d => dot :: dot_dot :: children fs d
  | None => []
  end.

Definition rmdir (fs : fsys) (path : list ascii) : fsys :=
  match namei fs false path with
  | Some p =>
      if bool_decide (fs !! p = Some Dir) && bool_decide (children fs p = []) && negb (bool_decide (p = []))
      then delete p fs else fs
  | None => fs
  end.

Definition unlink (fs : fsys) (path : list ascii) : fsys :=
  match namei fs false path with
  | Some p => if bool_decide (fs !! p = Some Dir) then fs else delete p fs
  | None => fs
  end.

(** [realpath]: the path with every link resolved. *)
Definition render (p : fpath) : list ascii :=
  match p with [] => [slash] | _ => concat (cons slash <$> p) end.

Definition realpath (fs : fsys) (path : list ascii) : option (list ascii) :=
  match namei fs true path with
  | Some p => if bool_decide (is_Some (fs !! p)) then Some (render p) else None
  | None => None
  end.
End Calls.

(** ** Trees *)

Lemma fs_wf_child fs d n r e : fs_wf fs -> fs !! (d ++ n :: r) = Some e ->
  good_name n /\ exists e', fs !! (d ++ [n]) = Some e'.
Proof.
  intros [_ Hwf]. revert e. induction r as [|x r IH] using rev_ind; intros e He.
  - split; [by eapply Hwf|by exists e].
  - apply (IH Dir). rewrite app_comm_cons, app_assoc in He. by apply Hwf in He as [? _].
Qed.

(** What stands above an entry is a directory. *)
Lemma fs_wf_above fs d r e : fs_wf fs -> r <> [] -> fs !! (d ++ r) = Some e -> fs !! d = Some Dir.
Proof.
  intros Hwf Hr He. destruct r as [|n r]; [done|].
  destruct (fs_wf_child _ _ _ _ _ Hwf He) as (_ & e' & He'). by apply (proj2 Hwf) in He' as [? _].
Qed.

Lemma fs_wf_fresh fs p r : fs_wf fs -> fs !! p = None -> fs !! (p ++ r) = None.
Proof.
  intros Hwf Hp. destruct (fs !! (p ++ r)) as [e|] eqn:He; [|done].
  destruct r as [|n r]; [rewrite app_nil_r in He; congruence|].
  by rewrite (fs_wf_above _ _ (n :: r) _ Hwf) in Hp by done.
Qed.

Lemma elem_of_children fs d n : n ∈ children fs d <-> is_Some (fs !! (d ++ [n])).
Proof.
  unfold children. rewrite list_elem_of_omap. split.
  - intros ([k e] & Hin%elem_of_map_to_list & Hn). unfold child_name in Hn. cbn in Hn.
    destruct (last k); [|done]. case_bool_decide; [|done]. injection Hn as ->. subst. by exists e.
  - intros [e He]. exists (d ++ [n], e). split; [by apply elem_of_map_to_list|].
    unfold child_name. cbn. by rewrite last_snoc, bool_decide_eq_true_2.
Qed.

Lemma NoDup_children fs d : NoDup (children fs d).
Proof.
  unfold children. pose proof (NoDup_fst_map_to_list fs) as Hn. revert Hn.
  induction (map_to_list fs) as [|[k e] l IH]; intros Hn; [constructor|]. cbn in *.
  apply NoDup_cons in Hn as [Hk Hn]. destruct (child_name d k) as [n|] eqn:E; [|by apply IH].
  apply NoDup_cons. split; [|by apply IH]. rewrite list_elem_of_omap. intros ([k' e'] & Hin & E').
  apply Hk, list_elem_of_fmap. exists (k', e'). split; [|done]. cbn in *. unfold child_name in *.
  destruct (last k); [|done]. destruct (last k'); [|done]. repeat case_bool_decide; congruence.
Qed.

(** ** Walking *)

Lemma walk_cons links fs follow cur s rest :
  walk links fs follow cur (s :: rest) =
    match fs !! cur with
    | Some Dir =>
        if bool_decide (s = dot) then walk links fs follow cur rest
        else if bool_decide (s = dot_dot) then walk links fs follow (parent cur) rest
        else match fs !! (cur ++ [s]) with
             | Some (Link t) =>
                 if follow || negb (bool_decide (rest = [])) then
                   match links with
                   | O => None
                   | S links' => walk links' fs follow (if absolute t then [] else cur) (segs t ++ rest)
                   end
                 else Some (cur ++ [s])
             | _ => walk links fs follow (cur ++ [s]) rest
             end
    | _ => None
    end.
Proof. by destruct links. Qed.

Lemma walk_nil links fs follow cur : walk links fs follow cur [] = Some cur.
Proof. by destruct links. Qed.

(** Induction on the links left and the components left. *)
Lemma walk_ind (P : nat -> list name -> Prop) :
  (forall links, (forall links' ss, links = S links' -> P links' ss) -> P links []) ->
  (forall links s rest, P links rest -> (forall links' ss, links = S links' -> P links' ss) -> P links (s :: rest)) ->
  forall links ss, P links ss.
Proof.
  intros Hn Hc. induction links as [|links IH]; induction ss as [|s rest IHs].
  - by apply Hn.
  - by apply Hc.
  - apply Hn. by intros ? ? [= <-].
  - apply Hc; [done|]. by intros ? ? [= <-].
Qed.

(** A directory reached without following a link in the last place: an entry
    of it is reached by one more component. *)
Lemma walk_child fs d n follow : good_name n -> fs !! d = Some Dir ->
  (follow = false \/ forall t, fs !! (d ++ [n]) <> Some (Link t)) ->
  forall links ss cur, walk links fs false cur ss = Some d -> walk links fs follow cur (ss ++ [n]) = Some (d ++ [n]).
Proof.
  intros (Hne & Hd1 & Hd2 & _) Hd Hl. refine (walk_ind _ _ _).
  - intros links _ cur. rewrite walk_nil. intros [= ->]. cbn [app].
    rewrite walk_cons, Hd, !bool_decide_eq_false_2 by done. rewrite bool_decide_eq_true_2, orb_false_r by done.
    destruct (fs !! (d ++ [n])) as [[|t|t]|] eqn:E; rewrite ?walk_nil; try done.
    destruct follow; [|done]. destruct Hl as [|Hl]; [done|]. by destruct (Hl t).
  - intros links s rest IH IHl cur. cbn [app]. rewrite !walk_cons.
    destruct (fs !! cur) as [[|t|t]|]; try done. case_bool_decide; [apply IH|]. case_bool_decide; [apply IH|].
    destruct (fs !! (cur ++ [s])) as [[|t|t]|] eqn:E; try apply IH.
    rewrite (bool_decide_eq_false_2 (rest ++ [n] = [])) by (by destruct rest). rewrite orb_true_r.
    destruct (decide (rest = [])) as [->|Hr].
    + cbn. intros [= <-]. congruence.
    + rewrite bool_decide_eq_false_2, orb_true_r by done. destruct links as [|links]; [done|].
      intros Hw. rewrite app_assoc. by apply IHl.
Qed.

(** What a walk passes stands in the tree. *)
Lemma walk_prefix fs p s2 : s2 <> [] -> forall links s1 cur,
  walk links fs false cur (s1 ++ s2) = Some p ->
  exists c e, walk links fs false cur s1 = Some c /\ fs !! c = Some e.
Proof.
  intros Hs2. refine (walk_ind _ _ _).
  - intros links _ cur. cbn [app]. destruct s2 as [|s s2]; [done|]. rewrite walk_cons, walk_nil.
    destruct (fs !! cur) as [e|] eqn:E; [|done]. intros _. by exists cur, e.
  - intros links s rest IH IHl cur. cbn [app]. rewrite !walk_cons.
    destruct (fs !! cur) as [[|t|t]|] eqn:Ec; try done. case_bool_decide; [apply IH|]. case_bool_decide; [apply IH|].
    destruct (fs !! (cur ++ [s])) as [[|t|t]|] eqn:E; try apply IH.
    rewrite (bool_decide_eq_false_2 (rest ++ s2 = [])) by (by destruct rest, s2). rewrite orb_true_r.
    destruct links as [|links]; [done|]. rewrite app_assoc. intros Hw.
    destruct (decide (rest = [])) as [->|Hr].
    + rewrite bool_decide_eq_true_2 by done. cbn. by exists (cur ++ [s]), (Link t).
    + rewrite bool_decide_eq_false_2, orb_true_r by done. by apply (IHl _ _ eq_refl).
Qed.

(** A walk to a place where nothing is does not see what stands beneath it. *)
Lemma walk_agree fs fs' p : fs !! p = None -> fs_wf fs ->
  (forall k, ~ p `prefix_of` k -> fs' !! k = fs !! k) -> (forall t, fs' !! p <> Some (Link t)) ->
  forall links ss cur, walk links fs false cur ss = Some p -> walk links fs' false cur ss = Some p.
Proof.
  intros Hp Hwf Hag Hl. refine (walk_ind _ _ _).
  - intros links _ cur. by rewrite !walk_nil.
  - intros links s rest IH IHl cur. rewrite !walk_cons.
    destruct (fs !! cur) as [e|] eqn:Ec; [|done].
    assert (Hcur : ~ p `prefix_of` cur).
    { intros [r ->]. rewrite fs_wf_fresh in Ec by done. done. }
    rewrite Hag, Ec by done. destruct e; try done. case_bool_decide; [apply IH|]. case_bool_decide; [apply IH|].
    destruct (decide (p `prefix_of` cur ++ [s])) as [Hpre|Hpre].
    + assert (Heq : cur ++ [s] = p).
      { destruct Hpre as [r Hr]. destruct r as [|x r _] using rev_ind; [by rewrite app_nil_r in Hr|].
        exfalso. apply Hcur. exists r. rewrite app_assoc in Hr. by apply app_inj_tail in Hr as [-> _]. }
      rewrite Heq, Hp. intros Hw. assert (Hr : rest = []).
      { destruct rest; [done|]. by rewrite walk_cons, Hp in Hw. }
      subst rest. rewrite walk_nil in *. destruct (fs' !! p) as [[|t|t]|] eqn:E; try done.
    + rewrite Hag by done. destruct (fs !! (cur ++ [s])) as [[|t|t]|] eqn:E; try apply IH.
      destruct (false || negb (bool_decide (rest = []))).
      * destruct links; [done|]. by apply IHl.
      * intros [= <-]. by destruct Hpre.
Qed.

(** ** Paths *)

Lemma segs_slash a b : segs (a ++ slash :: b) = segs a ++ segs b.
Proof.
  unfold segs. assert (H : forall seg, segments_from seg (a ++ slash :: b) = segments_from seg a ++ segments_from [] b);
    [|apply H]. induction a as [|c a IH]; intros seg; cbn [app segments_from].
  - by rewrite bool_decide_eq_true_2 by done.
  - rewrite !IH. case_bool_decide; [|done]. by rewrite app_assoc.
Qed.

Lemma segs_name n : n <> [] -> slash ∉ n -> segs n = [n].
Proof.
  intros Hne Hn. unfold segs. rewrite <- (app_nil_r n) at 1. rewrite segments_from_app, app_nil_r by done. cbn.
  rewrite bool_decide_eq_false_2, reverse_involutive; [done|]. by rewrite reverse_nil_iff.
Qed.

(** The path of [q] below [path]. *)
Definition below (path : list ascii) (q : fpath) : list ascii := path ++ concat (cons slash <$> q).

Lemma below_nil path : below path [] = path.
Proof. apply app_nil_r. Qed.

Lemma below_snoc path q n : below path (q ++ [n]) = below path q ++ slash :: n.
Proof. unfold below. rewrite fmap_app, concat_app, app_assoc. cbn. by rewrite app_nil_r. Qed.

Lemma path_segs_below path q : Forall good_name q -> segs (below path q) = segs path ++ q.
Proof.
  induction q as [|n q IH] using rev_ind; intros Hq; [by rewrite below_nil, app_nil_r|].
  apply Forall_app in Hq as [Hq [(Hne & _ & _ & Hs) _]%Forall_cons].
  rewrite below_snoc, segs_slash, IH, (segs_name n) by done. by rewrite app_assoc.
Qed.

Lemma absolute_below path q : path <> [] -> absolute (below path q) = absolute path.
Proof. unfold absolute, below. by destruct path. Qed.

(** If no link stands in the last place, following it makes no difference. *)
Lemma walk_follow fs p : (forall t, fs !! p <> Some (Link t)) ->
  forall links ss cur, walk links fs false cur ss = Some p -> walk links fs true cur ss = Some p.
Proof.
  intros Hl. refine (walk_ind _ _ _).
  - intros links _ cur. by rewrite !walk_nil.
  - intros links s rest IH IHl cur. rewrite !walk_cons.
    destruct (fs !! cur) as [[|t|t]|]; try done. case_bool_decide; [apply IH|]. case_bool_decide; [apply IH|].
    destruct (fs !! (cur ++ [s])) as [[|t|t]|] eqn:E; try apply IH. cbn [orb].
    case_bool_decide as Hr; cbn [negb].
    + intros [= <-]. by destruct (Hl t).
    + destruct links; [done|]. by apply IHl.
Qed.

(** ** A new directory and what grows in it *)

Lemma fs_wf_insert fs d n e : fs_wf fs -> good_name n -> fs !! d = Some Dir ->
  fs !! (d ++ [n]) <> Some Dir \/ e = Dir -> fs_wf (<[d ++ [n] := e]> fs).
Proof.
  intros [Hr Hwf] Hn Hd Hnd. split.
  - rewrite lookup_insert_ne; [done|]. by destruct d.
  - intros d' n' e' He'. destruct (decide (d ++ [n] = d' ++ [n'])) as [Heq|Hne].
    + apply app_inj_tail in Heq as [-> ->]. split; [|done]. rewrite lookup_insert_ne; [done|].
      intros Heq%(f_equal length). rewrite length_app in Heq. cbn in Heq. lia.
    + rewrite lookup_insert_ne in He' by done. apply Hwf in He' as [Hd' Hn']. split; [|done].
      destruct (decide (d ++ [n] = d')) as [<-|]; [|by rewrite lookup_insert_ne].
      rewrite lookup_insert_eq. destruct Hnd as [Hnd| ->]; [|done]. by rewrite Hd' in Hnd.
Qed.

Section Grown.
Context (cwd : fpath) (fs0 : fsys) (path : list ascii) (p : fpath).

(** [path] leads to [p], where nothing is. *)
Definition fresh_place : Prop :=
  fs_wf fs0 /\ segs path <> [] /\ namei cwd fs0 false path = Some p /\ fs0 !! p = None.

(** A tree with a directory at [p] that outside of it is still [fs0]. *)
Definition grown (fs : fsys) : Prop :=
  fs_wf fs /\ fs !! p = Some Dir /\ forall k, ~ p `prefix_of` k -> fs !! k = fs0 !! k.

Context (Hfresh : fresh_place).

Lemma fresh_path : path <> [].
Proof. destruct Hfresh as (_ & Hne & _). by intros ->. Qed.

Lemma fresh_walk : walk MAXSYMLINKS fs0 false (if absolute path then [] else cwd) (segs path) = Some p.
Proof.
  destruct Hfresh as (_ & _ & Hp & _). unfold namei in Hp. by rewrite bool_decide_eq_false_2 in Hp by apply fresh_path.
Qed.

(** A place where nothing is was named in a directory. *)
Lemma walk_fresh : fs0 !! p = None -> forall links ss cur, Forall seg_ok ss ->
  walk links fs0 false cur ss = Some p ->
  (ss = [] /\ p = cur) \/ exists d n, p = d ++ [n] /\ fs0 !! d = Some Dir /\ good_name n.
Proof.
  intros Hn. refine (walk_ind _ _ _).
  - intros links _ cur _. rewrite walk_nil. intros [= ->]. by left.
  - intros links s rest IH IHl cur [Hs Hok]%Forall_cons. rewrite walk_cons.
    destruct (fs0 !! cur) as [[|t|t]|] eqn:Ec; try done. case_bool_decide as H1; [|case_bool_decide as H2].
    + intros Hw. destruct (IH cur Hok Hw) as [[_ ->]|?]; [congruence|by right].
    + intros Hw. right. destruct (IH _ Hok Hw) as [[_ ->]|?]; [|done]. exfalso.
      destruct Hfresh as (Hwf & _). unfold parent in Hn. destruct cur as [|n cur _] using rev_ind; [cbn in Hn; congruence|].
      rewrite length_app, Nat.add_1_r in Hn. cbn [pred] in Hn. rewrite take_app_length in Hn.
      apply (proj2 Hwf) in Ec as [? _]. congruence.
    + assert (Hgo : walk links fs0 false (cur ++ [s]) rest = Some p ->
        exists d n, p = d ++ [n] /\ fs0 !! d = Some Dir /\ good_name n).
      { intros Hw. destruct (IH _ Hok Hw) as [[_ ->]|?]; [|done]. exists cur, s. split_and!; [done|done|].
        by destruct Hs. }
      destruct (fs0 !! (cur ++ [s])) as [[|t|t]|] eqn:E; try (intros Hw; right; by apply Hgo).
      cbn [orb]. case_bool_decide as Hr; cbn [negb].
      * intros [= <-]. congruence.
      * destruct links as [|links]; [done|]. intros Hw. right.
        destruct (IHl links _ eq_refl _ (proj2 (Forall_app _ _ _) (conj (segments_from_ok [] t ltac:(by apply not_elem_of_nil)) Hok)) Hw)
          as [[Hnil _]|?]; [|done]. apply app_eq_nil in Hnil as [_ ->]. done.
Qed.

(** Making the directory gives a tree that has grown by it. *)
Lemma fresh_grown : grown (<[p := Dir]> fs0).
Proof.
  destruct Hfresh as (Hwf & Hne & _ & Hn).
  destruct (walk_fresh Hn _ _ _ (segments_from_ok [] path ltac:(by apply not_elem_of_nil)) fresh_walk)
    as [[Hnil _]|(d & n & Hp & Hd & Hgn)]; [done|]. split_and!.
  - rewrite Hp. apply fs_wf_insert; [done..|by right].
  - by rewrite lookup_insert_eq.
  - intros k Hk. rewrite lookup_insert_ne; [done|]. intros ->. by apply Hk.
Qed.

(** The directories above [q] stand. *)
Definition standing (fs : fsys) (q : fpath) : Prop :=
  forall d r, q = d ++ r -> r <> [] -> fs !! (p ++ d) = Some Dir.

Lemma standing_snoc fs q n : standing fs (q ++ [n]) <-> standing fs q /\ fs !! (p ++ q) = Some Dir.
Proof.
  split.
  - intros H. split; [|by apply (H q [n])]. intros d r -> Hr. apply (H d (r ++ [n])); [by rewrite app_assoc|].
    by destruct r.
  - intros [Hs Hq] d r Heq Hr. destruct r as [|x r _] using rev_ind; [done|].
    rewrite app_assoc in Heq. apply app_inj_tail in Heq as [-> _]. destruct r as [|y r].
    + by rewrite app_nil_r in Hq.
    + by apply (Hs d (y :: r)).
Qed.

Lemma walk_below fs q : grown fs -> Forall good_name q -> standing fs q ->
  walk MAXSYMLINKS fs false (if absolute path then [] else cwd) (segs path ++ q) = Some (p ++ q).
Proof.
  intros (Hwf & Hp & Hout). destruct Hfresh as (Hwf0 & _ & _ & Hn).
  induction q as [|n q IH] using rev_ind; intros Hq Hs.
  - rewrite !app_nil_r. apply (walk_agree fs0 fs p Hn Hwf0 Hout); [congruence|apply fresh_walk].
  - apply Forall_app in Hq as [Hq [Hg _]%Forall_cons]. apply standing_snoc in Hs as [Hs Hd].
    rewrite !app_assoc. apply walk_child; [done|done|by left|by apply IH].
Qed.

Lemma namei_below fs q follow : grown fs -> Forall good_name q -> standing fs q ->
  follow = false \/ (forall t, fs !! (p ++ q) <> Some (Link t)) ->
  namei cwd fs follow (below path q) = Some (p ++ q).
Proof.
  intros Hg Hq Hs Hl. pose proof fresh_path as Hne. unfold namei.
  rewrite bool_decide_eq_false_2 by (unfold below; by destruct path).
  rewrite absolute_below, path_segs_below by done. pose proof (walk_below fs q Hg Hq Hs) as Hw.
  destruct follow; [|exact Hw]. destruct Hl as [[=]|Hl]. exact (walk_follow _ _ Hl _ _ _ Hw).
Qed.

(** ** Calls in the new directory *)

Lemma grown_insert fs q n e : grown fs -> good_name n -> fs !! (p ++ q) = Some Dir ->
  fs !! (p ++ q ++ [n]) <> Some Dir \/ e = Dir -> grown (<[p ++ q ++ [n] := e]> fs).
Proof.
  intros (Hwf & Hp & Hout) Hn Hd Hnd. split_and!.
  - rewrite app_assoc in *. by apply fs_wf_insert.
  - rewrite lookup_insert_ne; [done|]. rewrite <- (app_nil_r p) at 2. intros Heq%app_inv_head. by destruct q.
  - intros k Hk. rewrite lookup_insert_ne; [by apply Hout|]. intros <-. apply Hk. by exists (q ++ [n]).
Qed.

(** [mkdir] on a path to be created in a standing directory. *)
Lemma mkdir_below fs q n : grown fs -> Forall good_name (q ++ [n]) -> standing fs (q ++ [n]) ->
  fs !! (p ++ q ++ [n]) = None \/ fs !! (p ++ q ++ [n]) = Some Dir ->
  mkdir cwd fs (below path (q ++ [n])) = <[p ++ q ++ [n] := Dir]> fs /\
  grown (<[p ++ q ++ [n] := Dir]> fs).
Proof.
  intros Hg Hq Hs He. split.
  - unfold mkdir. rewrite (namei_below fs (q ++ [n]) false Hg Hq Hs (or_introl eq_refl)). destruct He as [He|He]; rewrite He; [done|]. by rewrite insert_id.
  - apply grown_insert; [done| | |by right].
    + by apply Forall_app in Hq as [_ [? _]%Forall_cons].
    + by apply standing_snoc in Hs as [_ ?].
Qed.

Lemma write_below fs q n text : grown fs -> Forall good_name (q ++ [n]) -> standing fs (q ++ [n]) ->
  (forall t, fs !! (p ++ q ++ [n]) <> Some (Link t)) -> fs !! (p ++ q ++ [n]) <> Some Dir ->
  fopen_w cwd fs (below path (q ++ [n])) = Some (p ++ q ++ [n], <[p ++ q ++ [n] := File ""]> fs) /\
  grown (<[p ++ q ++ [n] := File text]> fs).
Proof.
  intros Hg Hq Hs Hl Hd. split.
  - unfold fopen_w. rewrite (namei_below fs (q ++ [n]) true Hg Hq Hs (or_intror Hl)). by rewrite bool_decide_eq_false_2.
  - apply grown_insert; [done| | |by left].
    + by apply Forall_app in Hq as [_ [? _]%Forall_cons].
    + by apply standing_snoc in Hs as [_ ?].
Qed.
End Grown.

(** ** Removing a subtree *)

(** The tree without what stands at [p] or beneath it. *)
Definition prune (fs : fsys) (p : fpath) : fsys := filter (fun ke => ~ p `prefix_of` ke.1) fs.

Lemma prune_lookup fs p k : prune fs p !! k = if bool_decide (p `prefix_of` k) then None else fs !! k.
Proof.
  unfold prune. case_bool_decide as H.
  - apply map_lookup_filter_None. right. by intros e _ Hn.
  - destruct (fs !! k) as [e|] eqn:E; [by apply map_lookup_filter_Some|].
    apply map_lookup_filter_None. by left.
Qed.

Lemma fs_wf_prune fs p : fs_wf fs -> p <> [] -> fs_wf (prune fs p).
Proof.
  intros [Hr Hwf] Hp. split.
  - rewrite prune_lookup, bool_decide_eq_false_2; [done|]. by intros ->%prefix_nil_inv.
  - intros d n e. rewrite !prune_lookup. case_bool_decide as H; [done|]. intros He. apply Hwf in He as [Hd Hn].
    split; [|done]. rewrite bool_decide_eq_false_2; [done|]. intros Hpre. apply H. by apply prefix_app_r.
Qed.

Lemma grown_prune fs0 p fs q n : grown fs0 p fs -> grown fs0 p (prune fs (p ++ q ++ [n])).
Proof.
  intros (Hwf & Hp & Hout). split_and!.
  - apply fs_wf_prune; [done|]. by destruct p, q.
  - rewrite prune_lookup, bool_decide_eq_false_2; [done|]. intros Hpre%prefix_length.
    rewrite !length_app in Hpre. cbn in Hpre. lia.
  - intros k Hk. rewrite prune_lookup. case_bool_decide as H; [|by apply Hout].
    destruct Hk. destruct H as [r ->]. rewrite <- app_assoc. by eexists.
Qed.

(** Taking the whole new directory away gives the tree there was. *)
Lemma prune_grown cwd fs0 path p fs : fresh_place cwd fs0 path p -> grown fs0 p fs -> prune fs p = fs0.
Proof.
  intros (Hwf0 & _ & _ & Hn) (_ & _ & Hout). apply map_eq. intros k. rewrite prune_lookup.
  case_bool_decide as H; [|by apply Hout]. destruct H as [r ->]. by rewrite fs_wf_fresh.
Qed.
