(* ===== verification/Staging.v ===== *)
(** * [tj3.c]: the staging directory.

    Creating directories, writing the members' texts and removing everything
    again, on the file system of [FileSys]. *)

From S2P Require Import Prelude CText PathUri Syntax Store Assembly Diagnostics DiagWorker Tj3 FileSys.

Section Operations.
Variable cwd : fpath.

(** The loop of [make_dirs], [mkdir] at every slash and at the end: [before] is
    what stands before [p]. *)
Fixpoint make_dirs_from (fs : fsys) (before rest : list ascii) : fsys :=
  match rest with
  | [] => mkdir cwd fs before
  | c :: rest' =>
      make_dirs_from (if bool_decide (c = slash) then mkdir cwd fs before else fs) (before ++ [c]) rest'
  end.

(** [dir] is not empty; the first character is skipped. *)
Definition make_dirs (fs : fsys) (dir : list ascii) : fsys :=
  make_dirs_from fs (take 1 dir) (drop 1 dir).

Definition write_text_file (fs : fsys) (path : list ascii) (text : string) : fsys :=
  match fopen_w cwd fs path with
  | Some (p, fs') => <[p := File text]> fs'
  | None => fs
  end.

(** What the kernel refuses in a tree for a reason outside the model (rights
    tj3 took away, open descriptors, the length of a path): [opendir] of a
    directory, and [rmdir] or [unlink] of an entry. *)
Variables may_list may_remove : fsys -> list ascii -> bool.

(** The fuel bounds the depth of the tree. *)
Fixpoint remove_recursive (fuel : nat) (fs : fsys) (path : list ascii) : fsys :=
  match fuel with
  | O => fs
  | S fuel' =>
      match lstat cwd fs path with
      | None => fs
      | Some Dir =>
          let fs :=
            if may_list fs path then
              foldl (fun fs e => if bool_decide (e = dot) || bool_decide (e = dot_dot) then fs
                                 else remove_recursive fuel' fs (path_join path e))
                    fs (read_dir cwd fs path)
            else fs in
          if may_remove fs path then rmdir cwd fs path else fs
      | Some _ => if may_remove fs path then unlink cwd fs path else fs
      end
  end.

(** [strrchr (dest, '/')]: what stands before the last slash. *)
Definition dir_part (dest : list ascii) : option (list ascii) :=
  match list_find (fun c => c = slash) (reverse dest) with
  | Some (i, _) => Some (take (length dest - S i) dest)
  | None => None
  end.

Definition stage_member (tmpdir : list ascii) (fs : fsys) (m : member) : fsys :=
  let dest := path_join tmpdir (m_relpath m) in
  let fs := match dir_part dest with Some d => make_dirs fs d | None => fs end in
  write_text_file fs dest (m_text m).

Definition stage_members_to_tmpdir (fs : fsys) (tmpdir : list ascii) (ms : list member) : fsys :=
  foldl (stage_member tmpdir) fs ms.
End Operations.

(** ** Removing *)

(** Deep enough for every path of the tree. *)
Definition tree_height (fs : fsys) : nat := max_list ((fun ke => length ke.1) <$> map_to_list fs).

Lemma tree_height_spec fs k e : fs !! k = Some e -> (length k <= tree_height fs)%nat.
Proof.
  intros Hk. apply max_list_elem_of_le, list_elem_of_fmap. exists (k, e). split; [done|].
  by apply elem_of_map_to_list.
Qed.

(** A file, or a directory without entries, is all there is beneath its path. *)
Lemma delete_prune fs d : fs_wf fs -> children fs d = [] -> delete d fs = prune fs d.
Proof.
  intros Hwf Hc. apply map_eq. intros k. rewrite prune_lookup. case_bool_decide as H.
  - destruct H as [[|n r] ->]; [by rewrite app_nil_r, lookup_delete_eq|].
    rewrite lookup_delete_ne by (rewrite <- (app_nil_r d) at 1; by intros ?%app_inv_head).
    destruct (fs !! (d ++ n :: r)) as [e|] eqn:E; [|done].
    destruct (fs_wf_child _ _ _ _ _ Hwf E) as [_ He]. apply elem_of_children in He. rewrite Hc in He.
    by apply elem_of_nil in He.
  - rewrite lookup_delete_ne; [done|]. intros ->. by apply H.
Qed.

Lemma file_no_children fs d : fs_wf fs -> fs !! d <> Some Dir -> children fs d = [].
Proof.
  intros [_ Hwf] Hd. destruct (children fs d) as [|n l] eqn:E; [done|]. exfalso.
  assert (Hn : n ∈ children fs d) by (rewrite E; left). apply elem_of_children in Hn as [e He].
  by apply Hwf in He as [? _].
Qed.

Section Staged.
Context (cwd : fpath) (fs0 : fsys) (path : list ascii) (p : fpath) (Hfresh : fresh_place cwd fs0 path p).

(** A directory [q] of the tree [fs], above which all directories stand. *)
Definition dir_at (fs : fsys) (q : fpath) : Prop :=
  grown fs0 p fs /\ Forall good_name q /\ standing p fs q /\ fs !! (p ++ q) = Some Dir.

Lemma dir_at_prune fs q n : dir_at fs q -> dir_at (prune fs (p ++ q ++ [n])) q.
Proof.
  intros (Hg & Hq & Hs & Hd).
  assert (Hkeep : forall d r, q = d ++ r -> prune fs (p ++ q ++ [n]) !! (p ++ d) = fs !! (p ++ d)).
  { intros d r ->. rewrite prune_lookup, bool_decide_eq_false_2; [done|].
    intros Hl%prefix_length. rewrite !length_app in Hl. cbn in Hl. lia. }
  split_and!; [by apply grown_prune|done| |].
  - intros d r Heq Hr. rewrite (Hkeep d r) by done. by apply (Hs d r).
  - rewrite (Hkeep q []); [done|]. by rewrite app_nil_r.
Qed.

(** Removing the entries of a directory one after the other. *)
Lemma remove_entries (f : fsys -> list ascii -> fsys) (B : nat) q :
  (forall fs n e, dir_at fs q -> good_name n -> fs !! (p ++ q ++ [n]) = Some e ->
     (forall k e', fs !! k = Some e' -> (length k <= B)%nat) ->
     f fs (below path (q ++ [n])) = prune fs (p ++ q ++ [n])) ->
  forall L fs, NoDup L -> dir_at fs q -> (forall k e', fs !! k = Some e' -> (length k <= B)%nat) ->
    (forall n, n ∈ L -> good_name n /\ is_Some (fs !! (p ++ q ++ [n]))) ->
    let fs' := foldl (fun fs e => if bool_decide (e = dot) || bool_decide (e = dot_dot) then fs
                                  else f fs (path_join (below path q) e)) fs L in
    dir_at fs' q /\
    forall k, ((exists n, n ∈ L /\ (p ++ q ++ [n]) `prefix_of` k) /\ fs' !! k = None) \/ fs' !! k = fs !! k /\
              ~ (exists n, n ∈ L /\ (p ++ q ++ [n]) `prefix_of` k).
Proof.
  intros Hf. induction L as [|n L IH]; intros fs Hnd Hd HB HL; cbn [foldl].
  { split; [done|]. intros k. right. split; [done|]. by intros (? & ?%elem_of_nil & _). }
  apply NoDup_cons in Hnd as [Hn Hnd]. destruct (HL n ltac:(left)) as [Hgn [e He]].
  rewrite !bool_decide_eq_false_2 by apply Hgn. cbn [orb].
  change (path_join (below path q) n) with (below path q ++ slash :: n). rewrite <- below_snoc, (Hf _ _ e) by done.
  destruct (IH (prune fs (p ++ q ++ [n]))) as [Hd' Hk]; [done|by apply dir_at_prune| | |].
  - intros k e'. rewrite prune_lookup. case_bool_decide; [done|]. apply HB.
  - intros n' Hn'. destruct (HL n' ltac:(by right)) as [? ?]. split; [done|].
    rewrite prune_lookup, bool_decide_eq_false_2; [done|]. intros [r Hr]. rewrite <- !app_assoc in Hr.
    apply app_inv_head, app_inv_head in Hr. injection Hr as -> _. done.
  - split; [done|]. intros k. destruct (Hk k) as [[(m & Hm & Hp) Hnone]|[Heq Hnot]].
    + left. split; [|done]. exists m. split; [by right|done].
    + rewrite prune_lookup in Heq. case_bool_decide as Hp.
      * left. split; [|done]. exists n. split; [left|done].
      * right. split; [done|]. intros (m & [->|Hm]%elem_of_cons & Hpm); [done|]. apply Hnot. by exists m.
Qed.

(** A directory whose entries are gone is removed itself. *)
Lemma rmdir_emptied fs fs' q : dir_at fs' q ->
  (forall k, ((exists n, n ∈ children fs (p ++ q) /\ (p ++ q ++ [n]) `prefix_of` k) /\ fs' !! k = None) \/
             fs' !! k = fs !! k /\ ~ (exists n, n ∈ children fs (p ++ q) /\ (p ++ q ++ [n]) `prefix_of` k)) ->
  rmdir cwd fs' (below path q) = prune fs (p ++ q).
Proof.
  intros (Hg & Hq & Hs & Hd) Hk.
  assert (Hc : children fs' (p ++ q) = []).
  { destruct (children fs' (p ++ q)) as [|n l] eqn:E; [done|]. exfalso.
    assert (Hn : n ∈ children fs' (p ++ q)) by (rewrite E; left). apply elem_of_children in Hn as [e' Hn].
    destruct (Hk ((p ++ q) ++ [n])) as [[_ Hnone]|[Heq Hnot]]; [congruence|]. apply Hnot. exists n.
    rewrite app_assoc. split; [|done]. apply elem_of_children. rewrite <- Heq. by exists e'. }
  assert (Hr : rmdir cwd fs' (below path q) = delete (p ++ q) fs').
  { unfold rmdir. rewrite (namei_below cwd fs0 path p Hfresh fs' q false Hg Hq Hs (or_introl eq_refl)).
    rewrite !bool_decide_eq_true_2 by done. rewrite bool_decide_eq_false_2; [done|].
    intros Hnil. apply app_eq_nil in Hnil as [-> _]. destruct Hfresh as ([Hroot _] & _ & _ & Hno). congruence. }
  rewrite Hr, delete_prune by (apply Hg || done). apply map_eq. intros k. rewrite !prune_lookup.
  case_bool_decide as Hpre; [done|]. destruct (Hk k) as [[(n & _ & Hp) _]|[Heq _]]; [|done].
  destruct Hpre. rewrite app_assoc in Hp. by eapply prefix_app_l.
Qed.

(** With fuel for the depth of the tree, and if the kernel permits it, what
    stands at the path is gone with all that is beneath it, and nothing else. *)
Lemma remove_spec may_list may_remove fuel :
  (forall fs q, may_list fs (below path q) = true /\ may_remove fs (below path q) = true) -> forall fs q e, grown fs0 p fs -> Forall good_name q -> standing p fs q ->
  fs !! (p ++ q) = Some e -> (forall k e', fs !! k = Some e' -> (length k < fuel + length (p ++ q))%nat) ->
  remove_recursive cwd may_list may_remove fuel fs (below path q) = prune fs (p ++ q).
Proof.
  intros Hmay. induction fuel as [|fuel IH]; intros fs q e Hg Hq Hs He HB; [specialize (HB _ _ He); lia|].
  cbn [remove_recursive]. pose proof (namei_below cwd fs0 path p Hfresh fs q false Hg Hq Hs (or_introl eq_refl)) as Hn.
  assert (Hst : lstat cwd fs (below path q) = Some e) by (unfold lstat; by rewrite Hn).
  rewrite Hst. destruct (decide (e = Dir)) as [->|Hne].
  - rewrite (proj1 (Hmay fs q)), (proj2 (Hmay _ q)).
    assert (Hrd : read_dir cwd fs (below path q) = dot :: dot_dot :: children fs (p ++ q)).
    { unfold read_dir. rewrite (namei_below cwd fs0 path p Hfresh fs q true Hg Hq Hs); [done|]. right. congruence. }
    rewrite Hrd. cbn [foldl]. rewrite (bool_decide_eq_true_2 (dot = dot)), (bool_decide_eq_true_2 (dot_dot = dot_dot)) by done.
    rewrite orb_true_r. cbn [orb].
    destruct (remove_entries (remove_recursive cwd may_list may_remove fuel) (fuel + length (p ++ q)) q) with (L := children fs (p ++ q)) (fs := fs)
      as [Hd' Hk].
    + intros fs' n e' (Hg' & _ & Hs' & Hd') Hgn He' HB'. rewrite (IH fs' (q ++ [n]) e'); [done|done| | |done|].
      * apply Forall_app. split; [done|]. by constructor.
      * by apply standing_snoc.
      * intros k e'' Hk. specialize (HB' _ _ Hk). rewrite !length_app in *. cbn. lia.
    + apply NoDup_children.
    + done.
    + intros k e' Hk. specialize (HB _ _ Hk). lia.
    + intros n Hc. apply elem_of_children in Hc as [e' Hc]. split; [by apply (proj2 (proj1 Hg)) in Hc as [_ ?]|].
      rewrite <- app_assoc in Hc. by exists e'.
    + by apply (rmdir_emptied fs).
  - assert (Hu : unlink cwd fs (below path q) = delete (p ++ q) fs).
    { unfold unlink. rewrite Hn, bool_decide_eq_false_2; [done|]. congruence. }
    rewrite (proj2 (Hmay fs q)), Hu, delete_prune; [by destruct e|apply Hg|]. apply file_no_children; [apply Hg|]. congruence.
Qed.

(** Whatever the kernel refuses, only entries at the path or beneath it go. *)
Definition shrunk (q : fpath) (fs fs' : fsys) : Prop :=
  fs_wf fs' /\ forall k, fs' !! k = fs !! k \/ (p ++ q) `prefix_of` k /\ fs' !! k = None.

Lemma shrunk_refl q fs : fs_wf fs -> shrunk q fs fs.
Proof. split; [done|]. by left. Qed.

Lemma shrunk_trans q r fs1 fs2 fs3 : shrunk (q ++ r) fs1 fs2 -> shrunk q fs2 fs3 -> shrunk q fs1 fs3.
Proof.
  intros [_ H12] [Hwf H23]. split; [done|]. intros k. destruct (H23 k) as [->|?]; [|by right].
  destruct (H12 k) as [?|[Hp ?]]; [by left|right]. split; [|done]. rewrite app_assoc in Hp. by eapply prefix_app_l.
Qed.

Lemma shrunk_grown q n fs fs' : grown fs0 p fs -> shrunk (q ++ [n]) fs fs' ->
  grown fs0 p fs' /\ forall d r, q = d ++ r -> fs' !! (p ++ d) = fs !! (p ++ d).
Proof.
  intros (Hwf & Hp & Hout) [Hwf' Hk].
  assert (Hkeep : forall d r, q = d ++ r -> fs' !! (p ++ d) = fs !! (p ++ d)).
  { intros d r ->. destruct (Hk (p ++ d)) as [|[Hl%prefix_length _]]; [done|]. rewrite !length_app in Hl. cbn in Hl. lia. }
  split; [|done]. split_and!; [done| |].
  - rewrite <- Hp, <- (app_nil_r p). by apply (Hkeep [] q).
  - intros k Hn. destruct (Hk k) as [->|[Hpre _]]; [by apply Hout|]. destruct Hn. by eapply prefix_app_l.
Qed.

Lemma delete_shrunk fs q : fs_wf fs -> p <> [] -> children fs (p ++ q) = [] -> shrunk q fs (delete (p ++ q) fs).
Proof.
  intros Hwf Hp Hc. rewrite delete_prune by done. split; [apply fs_wf_prune; [done|by destruct p]|].
  intros k. rewrite prune_lookup. case_bool_decide; [by right|by left].
Qed.

Lemma remove_shrinks may_list may_remove fuel : forall fs q, grown fs0 p fs -> Forall good_name q -> standing p fs q ->
  shrunk q fs (remove_recursive cwd may_list may_remove fuel fs (below path q)).
Proof.
  assert (Hpne : p <> []) by (intros ->; destruct Hfresh as ([Hr _] & _ & _ & Hn); congruence).
  induction fuel as [|fuel IH]; intros fs q Hg Hq Hs; cbn [remove_recursive]; [by apply shrunk_refl, Hg|].
  pose proof (namei_below cwd fs0 path p Hfresh fs q false Hg Hq Hs (or_introl eq_refl)) as Hn.
  unfold lstat at 1. rewrite Hn. cbn [mbind option_bind]. destruct (fs !! (p ++ q)) as [e|] eqn:He; [|by apply shrunk_refl, Hg].
  assert (Hfold : forall L fs, dir_at fs q -> Forall (fun n => n = dot \/ n = dot_dot \/ good_name n) L ->
    let fs' := foldl (fun fs e => if bool_decide (e = dot) || bool_decide (e = dot_dot) then fs
        else remove_recursive cwd may_list may_remove fuel fs (path_join (below path q) e)) fs L in
    dir_at fs' q /\ shrunk q fs fs').
  { clear fs Hg Hs Hn e He. induction L as [|n L IHL]; intros fs Hd HL; cbn [foldl]; [split; [done|by apply shrunk_refl, Hd]|].
    apply Forall_cons in HL as [Hgn HL]. case_bool_decide as E1; [by apply IHL|]. case_bool_decide as E2; [by apply IHL|]. cbn [orb].
    destruct Hgn as [?|[?|Hgn]]; [done..|].
    change (path_join (below path q) n) with (below path q ++ slash :: n). rewrite <- below_snoc.
    destruct Hd as (Hg & Hq' & Hs & Hdir).
    assert (Hsh : shrunk (q ++ [n]) fs (remove_recursive cwd may_list may_remove fuel fs (below path (q ++ [n])))).
    { apply IH; [done| |by apply standing_snoc]. apply Forall_app. split; [done|by constructor]. }
    destruct (shrunk_grown q n _ _ Hg Hsh) as [Hg' Hkeep].
    destruct (IHL (remove_recursive cwd may_list may_remove fuel fs (below path (q ++ [n])))) as [Hd' Hsh']; [|done|].
    - split_and!; [done|done| |].
      + intros d r Heq Hr. rewrite (Hkeep d r) by done. by apply (Hs d r).
      + by rewrite (Hkeep q []) by (by rewrite app_nil_r).
    - split; [done|]. by eapply shrunk_trans. }
  destruct (decide (e = Dir)) as [->|Hne].
  - assert (Hd : dir_at fs q) by (by split_and!).
    match goal with |- shrunk q fs (if may_remove ?t _ then _ else _) => set (fs1 := t) end.
    assert (H1 : dir_at fs1 q /\ shrunk q fs fs1).
    { subst fs1. destruct (may_list _ _); [|split; [done|by apply shrunk_refl, Hg]]. apply Hfold; [done|].
      unfold read_dir. rewrite (namei_below cwd fs0 path p Hfresh fs q true Hg Hq Hs) by (right; congruence).
      constructor; [by left|]. constructor; [right; by left|]. apply Forall_forall. intros n Hc. do 2 right.
      apply elem_of_children in Hc as [e' Hc]. by apply (proj2 (proj1 Hg)) in Hc as [_ ?]. }
    destruct H1 as [(Hg1 & _ & Hs1 & Hdir1) H1]. destruct (may_remove _ _); [|done].
    unfold rmdir. rewrite (namei_below cwd fs0 path p Hfresh fs1 q false Hg1 Hq Hs1 (or_introl eq_refl)).
    destruct (bool_decide (fs1 !! (p ++ q) = Some Dir) && _ && _) eqn:E; [|done].
    apply andb_true_iff in E as [[_ Hc%bool_decide_eq_true_1]%andb_true_iff _].
    apply (shrunk_trans q [] fs fs1); [by rewrite app_nil_r|]. by apply delete_shrunk; [apply Hg1| |].
  - assert (Hc : children fs (p ++ q) = []) by (apply file_no_children; [apply Hg|congruence]).
    assert (Hu : shrunk q fs (unlink cwd fs (below path q))).
    { unfold unlink. rewrite Hn, bool_decide_eq_false_2 by congruence. by apply delete_shrunk; [apply Hg| |]. }
    assert (Hr : shrunk q fs (if may_remove fs (below path q) then unlink cwd fs (below path q) else fs))
      by (destruct (may_remove _ _); [done|by apply shrunk_refl, Hg]).
    by destruct e.
Qed.

(** ** Creating directories *)

Lemma make_dirs_name a : slash ∉ a -> forall fs before rest,
  make_dirs_from cwd fs before (a ++ rest) = make_dirs_from cwd fs (before ++ a) rest.
Proof.
  induction a as [|c a IH]; intros Ha fs before rest; [by rewrite app_nil_r|].
  apply not_elem_of_cons in Ha as [Hc Ha]. cbn [app make_dirs_from].
  rewrite bool_decide_eq_false_2, IH, <- app_assoc by congruence. done.
Qed.

(** What is above the new directory stands already. *)
Lemma mkdir_above fs a b : grown fs0 p fs -> path = a ++ slash :: b -> a <> [] -> mkdir cwd fs a = fs.
Proof.
  intros Hg Heq Ha. pose proof (walk_below cwd fs0 path p Hfresh fs [] Hg ltac:(constructor)) as Hw.
  rewrite !app_nil_r in Hw. assert (Hs : standing p fs []) by (intros d r Hd Hr; by destruct d, r).
  specialize (Hw Hs). unfold mkdir, namei. rewrite bool_decide_eq_false_2 by done.
  assert (Habs : absolute path = absolute a) by (rewrite Heq; unfold absolute; by destruct a).
  rewrite Habs, Heq, segs_slash in Hw. destruct (decide (segs b = [])) as [Hb|Hb].
  - rewrite Hb, app_nil_r in Hw. rewrite Hw. destruct Hg as (_ & Hp & _). by rewrite Hp.
  - destruct (walk_prefix fs p (segs b) Hb _ _ _ Hw) as (c & e & Hc & He). by rewrite Hc, He.
Qed.

Lemma make_dirs_above fs rest : grown fs0 p fs -> forall b a, path = a ++ b -> a <> [] ->
  make_dirs_from cwd fs a (b ++ rest) = make_dirs_from cwd fs path rest.
Proof.
  intros Hg. induction b as [|c b IH]; intros a Heq Ha.
  - rewrite app_nil_r in Heq. by rewrite Heq.
  - cbn [app make_dirs_from]. case_bool_decide as Hc.
    + subst c. rewrite (mkdir_above fs a b) by done. apply IH; [by rewrite <- app_assoc|by destruct a].
    + apply IH; [by rewrite <- app_assoc|by destruct a].
Qed.

Lemma mkdir_at fs q : grown fs0 p fs -> Forall good_name q -> standing p fs q ->
  fs !! (p ++ q) = None \/ fs !! (p ++ q) = Some Dir ->
  mkdir cwd fs (below path q) = <[p ++ q := Dir]> fs /\ grown fs0 p (<[p ++ q := Dir]> fs).
Proof.
  intros Hg Hq Hs He. destruct q as [|n q _] using rev_ind; [|by apply mkdir_below].
  pose proof (namei_below cwd fs0 path p Hfresh fs [] false Hg Hq Hs (or_introl eq_refl)) as Hn.
  unfold mkdir. rewrite Hn, app_nil_r. pose proof Hg as (_ & Hp & _). rewrite insert_id by done. by rewrite Hp.
Qed.

(** All directories from [q] down to [q ++ d]. *)
Lemma make_dirs_below d : forall fs q, grown fs0 p fs -> Forall good_name (q ++ d) -> standing p fs q ->
  (forall x, x `prefix_of` q ++ d -> fs !! (p ++ x) = None \/ fs !! (p ++ x) = Some Dir) ->
  let fs' := make_dirs_from cwd fs (below path q) (concat (cons slash <$> d)) in
  grown fs0 p fs' /\
  forall x, fs' !! (p ++ x) =
    if bool_decide (q `prefix_of` x) && bool_decide (x `prefix_of` q ++ d) then Some Dir else fs !! (p ++ x).
Proof.
  induction d as [|n d IH]; intros fs q Hg Hq Hs He; cbn [fmap list_fmap concat app make_dirs_from].
  - rewrite app_nil_r in *. destruct (mkdir_at fs q Hg Hq Hs) as [Hm Hg']; [by apply He|]. rewrite Hm.
    split; [done|]. intros x. destruct (decide (q = x)) as [->|Hne].
    + by rewrite lookup_insert_eq, !bool_decide_eq_true_2.
    + rewrite lookup_insert_ne by (by intros ?%app_inv_head). do 2 (case_bool_decide; [|done]).
      exfalso. apply Hne. by apply (anti_symm prefix).
  - assert (Hgn : good_name n) by (apply Forall_app in Hq as [_ [? _]%Forall_cons]; done).
    destruct (mkdir_at fs q) as [Hm Hg']; [done|by apply Forall_app in Hq as [? _]|done|apply He; by apply prefix_app_r|].
    rewrite bool_decide_eq_true_2, make_dirs_name, Hm by (done || apply Hgn). rewrite <- app_assoc. cbn [app].
    rewrite <- below_snoc. replace (q ++ n :: d) with ((q ++ [n]) ++ d) in * by (by rewrite <- app_assoc).
    destruct (IH (<[p ++ q := Dir]> fs) (q ++ [n])) as [Hg'' Hx]; [done|done| | |].
    + apply standing_snoc. split; [|by rewrite lookup_insert_eq]. intros d' r -> Hr.
      rewrite lookup_insert_ne; [by apply (Hs d' r)|]. intros Heq%app_inv_head.
      apply (f_equal length) in Heq. rewrite length_app in Heq. by destruct r; [|cbn in Heq; lia].
    + intros x Hpre. destruct (decide (q = x)) as [->|]; [rewrite lookup_insert_eq; by right|].
      rewrite lookup_insert_ne by (by intros ?%app_inv_head). by apply He.
    + split; [done|]. intros x. rewrite Hx. destruct (decide (q = x)) as [<-|Hne].
      * assert (Hn : ~ q ++ [n] `prefix_of` q).
        { intros Hl%prefix_length. rewrite length_app in Hl. cbn in Hl. lia. }
        assert (Hqd : q `prefix_of` (q ++ [n]) ++ d) by (rewrite <- app_assoc; by eexists).
        by rewrite lookup_insert_eq, (bool_decide_eq_false_2 _ Hn), (bool_decide_eq_true_2 _ Hqd),
          (bool_decide_eq_true_2 (q `prefix_of` q)) by done.
      * rewrite lookup_insert_ne by (by intros ?%app_inv_head).
        destruct (decide (x `prefix_of` (q ++ [n]) ++ d)) as [Hxd|Hxd];
          [|by rewrite (bool_decide_eq_false_2 _ Hxd), !andb_false_r].
        rewrite (bool_decide_eq_true_2 _ Hxd), !andb_true_r.
        rewrite (bool_decide_ext (q ++ [n] `prefix_of` x) (q `prefix_of` x)); [done|]. split.
        { intros. by eapply prefix_app_l. }
        intros [r ->]. destruct r as [|m r]; [by rewrite app_nil_r in Hne|]. rewrite <- app_assoc in Hxd.
        apply prefix_app_inv in Hxd. apply prefix_cons_inv_1 in Hxd as ->. exists r. by rewrite <- app_assoc.
Qed.

(** ** Staging one member *)

(** Where a member goes, from the staging directory. *)
Definition stage_path (m : member) : fpath := segs (m_relpath m).

(** A relative path of proper names: no empty component, no [.] and no [..]. *)
Definition plain_path (r : list ascii) : Prop :=
  Forall good_name (segs r) /\ slash :: r = concat (cons slash <$> segs r).

Lemma plain_path_split r : plain_path r -> exists d n, segs r = d ++ [n] /\ slash :: r = concat (cons slash <$> d) ++ slash :: n.
Proof.
  intros [_ Heq]. destruct (segs r) as [|n d _] using rev_ind; [done|]. exists d, n. split; [done|].
  rewrite Heq, fmap_app, concat_app. cbn. by rewrite app_nil_r.
Qed.

Lemma dir_part_below tmpdir d n : slash ∉ n -> dir_part (below tmpdir (d ++ [n])) = Some (below tmpdir d).
Proof.
  intros Hn. rewrite below_snoc. unfold dir_part. rewrite reverse_app, reverse_cons, <- app_assoc.
  assert (Hf : forall l, slash ∉ l -> list_find (fun c => c = slash) (l ++ [slash] ++ reverse (below tmpdir d))
    = Some (length l, slash)).
  { induction l as [|c l IH]; intros Hl; cbn.
    - by rewrite decide_True.
    - apply not_elem_of_cons in Hl as [Hc Hl]. rewrite decide_False by congruence. cbn in IH. by rewrite IH. }
  rewrite Hf by (by rewrite elem_of_reverse). f_equal. rewrite length_app, length_reverse. cbn.
  replace (_ - _)%nat with (length (below tmpdir d)) by lia. by rewrite take_app_length.
Qed.

Lemma stage_member_spec fs m : grown fs0 p fs -> plain_path (m_relpath m) ->
  fs !! (p ++ stage_path m) <> Some Dir -> (forall t, fs !! (p ++ stage_path m) <> Some (Link t)) ->
  (forall x, x `prefix_of` stage_path m -> x <> stage_path m -> fs !! (p ++ x) = None \/ fs !! (p ++ x) = Some Dir) ->
  let fs' := stage_member cwd path fs m in
  grown fs0 p fs' /\
  forall x, fs' !! (p ++ x) =
    if bool_decide (x = stage_path m) then Some (File (m_text m))
    else if bool_decide (x `prefix_of` stage_path m) then Some Dir else fs !! (p ++ x).
Proof.
  intros Hg Hpl Hnd Hnl Habove. destruct (plain_path_split _ Hpl) as (d & n & Hq & Hr).
  unfold stage_path in *. rewrite Hq in *. destruct Hpl as [Hgood _]. rewrite Hq in Hgood.
  assert (Hdest : path_join path (m_relpath m) = below path (d ++ [n])).
  { unfold path_join. rewrite Hr. unfold below. rewrite fmap_app, concat_app. cbn. by rewrite app_nil_r. }
  pose proof Hgood as [Hd [Hgn _]%Forall_cons]%Forall_app.
  unfold stage_member. rewrite Hdest, dir_part_below by apply Hgn. unfold make_dirs.
  pose proof (fresh_path cwd fs0 path p Hfresh) as Hne.
  assert (Htake : below path d = path ++ concat (cons slash <$> d)) by done. rewrite Htake.
  rewrite take_app_le, drop_app_le by (destruct path; [done|cbn; lia]).
  rewrite (make_dirs_above fs _ Hg (drop 1 path) (take 1 path)) by (by rewrite ?take_drop || by destruct path).
  destruct (make_dirs_below d fs []) as [Hg' Hx]; [done|done| | |].
  { intros d' r Hd' Hr'. by destruct d', r. }
  { intros x Hpre. apply Habove; [by apply prefix_app_r|]. intros ->. apply prefix_length in Hpre.
    rewrite length_app in Hpre. cbn in Hpre. lia. }
  rewrite below_nil in Hg', Hx. set (fs' := make_dirs_from _ _ path _) in *. cbn [app] in Hx.
  assert (Hnot : ~ d ++ [n] `prefix_of` d) by (intros Hl%prefix_length; rewrite length_app in Hl; cbn in Hl; lia).
  assert (Hlast : fs' !! (p ++ d ++ [n]) = fs !! (p ++ d ++ [n])).
  { by rewrite Hx, (bool_decide_eq_false_2 _ Hnot), andb_false_r. }
  assert (Hs : standing p fs' (d ++ [n])).
  { intros x r Heq Hr'. rewrite Hx, !bool_decide_eq_true_2; [done| |apply prefix_nil].
    destruct r as [|y r _] using rev_ind; [done|]. rewrite app_assoc in Heq. apply app_inj_tail in Heq as [-> _].
    by eexists. }
  destruct (write_below cwd fs0 path p Hfresh fs' d n (m_text m)) as [Hw Hg'']; [done|done|done| | |].
  { intros t. rewrite Hlast. apply Hnl. }
  { by rewrite Hlast. }
  unfold write_text_file. rewrite Hw, insert_insert_eq. split; [done|]. intros x. case_bool_decide as Hxq.
  - subst x. by rewrite lookup_insert_eq.
  - rewrite lookup_insert_ne by (by intros Heq%app_inv_head). rewrite Hx, bool_decide_eq_true_2 by apply prefix_nil.
    cbn [andb]. rewrite (bool_decide_ext (x `prefix_of` d) (x `prefix_of` d ++ [n])); [done|]. split.
    + by apply prefix_app_r.
    + intros [r Hr']. destruct r as [|y r _] using rev_ind; [by rewrite app_nil_r in Hr'|].
      rewrite app_assoc in Hr'. apply app_inj_tail in Hr' as [-> _]. by eexists.
Qed.

(** ** Staging them all *)

(** What the staging directory holds: the members' texts, and the directories
    above them. *)
Definition layout (ms : list member) (x : fpath) : option entry :=
  match List.find (fun m => bool_decide (stage_path m = x)) ms with
  | Some m => Some (File (m_text m))
  | None =>
      if bool_decide (x = []) || existsb (fun m => bool_decide (x `prefix_of` stage_path m)) ms
      then Some Dir else None
  end.

(** No two members share a place, and none stands where another needs a directory. *)
Definition no_clash (ms : list member) : Prop :=
  forall i j mi mj, ms !! i = Some mi -> ms !! j = Some mj -> stage_path mi `prefix_of` stage_path mj -> i = j.

Lemma no_clash_snoc ms m : no_clash (ms ++ [m]) ->
  no_clash ms /\ forall m', m' ∈ ms -> ~ stage_path m' `prefix_of` stage_path m /\ ~ stage_path m `prefix_of` stage_path m'.
Proof.
  intros H. split.
  - intros i j mi mj Hi Hj. apply H; by apply lookup_app_l_Some.
  - intros m' [i Hi]%list_elem_of_lookup. pose proof (lookup_lt_Some _ _ _ Hi) as Hlt.
    assert (Hm : (ms ++ [m]) !! length ms = Some m) by (by apply list_lookup_middle).
    apply (lookup_app_l_Some ms [m]) in Hi.
    split; intros Hp; [specialize (H _ _ _ _ Hi Hm Hp)|specialize (H _ _ _ _ Hm Hi Hp)]; lia.
Qed.

Lemma find_snoc {A} (f : A -> bool) l x :
  List.find f (l ++ [x]) = match List.find f l with Some y => Some y | None => if f x then Some x else None end.
Proof. induction l as [|y l IH]; cbn; [done|]. by destruct (f y). Qed.

Lemma layout_snoc ms m x : no_clash (ms ++ [m]) ->
  layout (ms ++ [m]) x =
    if bool_decide (x = stage_path m) then Some (File (m_text m))
    else if bool_decide (x `prefix_of` stage_path m) then Some Dir else layout ms x.
Proof.
  intros [_ Hc]%no_clash_snoc. unfold layout. rewrite find_snoc, existsb_app. cbn [existsb]. rewrite orb_false_r.
  rewrite (bool_decide_ext (stage_path m = x) (x = stage_path m)) by done.
  destruct (List.find _ ms) as [m'|] eqn:E.
  - apply find_some in E as [Hin Heq%bool_decide_eq_true_1]. apply list_elem_of_In in Hin.
    destruct (Hc m' Hin) as [Hn _]. rewrite Heq in Hn. rewrite (bool_decide_eq_false_2 _ Hn), bool_decide_eq_false_2; [done|].
    intros ->. by apply Hn.
  - case_bool_decide; [done|]. rewrite orb_assoc.
    destruct (bool_decide (x `prefix_of` stage_path m)); [by rewrite orb_true_r|by rewrite orb_false_r].
Qed.

Lemma layout_above ms m x : no_clash (ms ++ [m]) -> x `prefix_of` stage_path m ->
  layout ms x = None \/ layout ms x = Some Dir.
Proof.
  intros [_ Hc]%no_clash_snoc Hx. unfold layout. destruct (List.find _ ms) as [m'|] eqn:E.
  - apply find_some in E as [Hin <-%bool_decide_eq_true_1]. apply list_elem_of_In in Hin. by destruct (Hc m' Hin).
  - case_match; [by right|by left].
Qed.

Lemma layout_free ms m : no_clash (ms ++ [m]) -> stage_path m <> [] -> layout ms (stage_path m) = None.
Proof.
  intros [_ Hc]%no_clash_snoc Hne. unfold layout. destruct (List.find _ ms) as [m'|] eqn:E.
  - apply find_some in E as [Hin Heq%bool_decide_eq_true_1]. apply list_elem_of_In in Hin.
    destruct (Hc m' Hin) as [Hn _]. by rewrite Heq in Hn.
  - rewrite bool_decide_eq_false_2 by done. cbn [orb]. destruct (existsb _ ms) eqn:Ex; [|done].
    apply existsb_exists in Ex as (m' & Hin & Hp%bool_decide_eq_true_1). apply list_elem_of_In in Hin.
    by destruct (Hc m' Hin).
Qed.

Lemma stage_spec ms : Forall (fun m => plain_path (m_relpath m)) ms -> no_clash ms ->
  let fs := stage_members_to_tmpdir cwd (<[p := Dir]> fs0) path ms in
  grown fs0 p fs /\ forall x, fs !! (p ++ x) = layout ms x.
Proof.
  unfold stage_members_to_tmpdir.
  induction ms as [|m ms IH] using rev_ind; intros Hpl Hc.
  - pose proof (fresh_grown cwd fs0 path p Hfresh) as Hg. split; [done|]. intros x. cbn [foldl]. unfold layout. cbn.
    rewrite orb_false_r. case_bool_decide as Hx; [subst x; by rewrite app_nil_r, lookup_insert_eq|].
    rewrite lookup_insert_ne by (rewrite <- (app_nil_r p) at 1; by intros Heq%app_inv_head).
    destruct Hfresh as (Hwf & _ & _ & Hno). by apply fs_wf_fresh.
  - apply Forall_app in Hpl as [Hpl [Hm _]%Forall_cons]. pose proof (no_clash_snoc _ _ Hc) as [Hc' _].
    destruct (IH Hpl Hc') as [Hg Hx]. rewrite foldl_snoc. set (fs := foldl _ _ ms) in *.
    destruct (plain_path_split _ Hm) as (d & n & Hq & _).
    assert (Hfree : fs !! (p ++ stage_path m) = None).
    { rewrite Hx. apply layout_free; [done|]. unfold stage_path. rewrite Hq. by destruct d. }
    destruct (stage_member_spec fs m Hg Hm) as [Hg' Hx'].
    + by rewrite Hfree.
    + intros t. by rewrite Hfree.
    + intros x Hpre _. rewrite Hx. by eapply layout_above.
    + split; [done|]. intros x. by rewrite Hx', layout_snoc, Hx.
Qed.
End Staged.

Lemma layout_member ms m : no_clash ms -> m ∈ ms -> layout ms (stage_path m) = Some (File (m_text m)).
Proof.
  induction ms as [|x ms IH] using rev_ind; intros Hc Hm; [by apply elem_of_nil in Hm|].
  rewrite layout_snoc by done. apply elem_of_app in Hm as [Hm|Heq%list_elem_of_singleton].
  - apply no_clash_snoc in Hc as [Hc Hx]. destruct (Hx m Hm) as [Hn _].
    rewrite (bool_decide_eq_false_2 (_ `prefix_of` _) Hn), bool_decide_eq_false_2; [by apply IH|].
    intros Heq. by rewrite Heq in Hn.
  - subst. by rewrite bool_decide_eq_true_2.
Qed.

(** C39: Staging a project copies its layout and touches nothing else.  For
    members with distinct file paths whose relative paths have only proper
    names and do not stand in each other's way, staged under a new directory:
    each member's path is the longest directory common to all, followed by its
    relative path; the file at that relative path beneath the directory holds
    the member's text; beneath it there is nothing but these files and the
    directories above them; and the rest of the file system is as it was. *)
Theorem staging_mirrors_project cwd fs0 tmpdir p ms :
  fresh_place cwd fs0 tmpdir p ->
  ms <> [] -> NoDup (m_path <$> ms) -> Forall (fun m => file_path (m_path m)) ms ->
  let ms' := assign_member_relpaths ms in
  Forall (fun m => plain_path (m_relpath m)) ms' -> no_clash ms' ->
  let fs := stage_members_to_tmpdir cwd (<[p := Dir]> fs0) tmpdir ms' in
  (exists d, is_dir d /\
     (forall d', is_dir d' -> (forall m, m ∈ ms -> d' `prefix_of` m_path m) -> (length d' <= length d)%nat) /\
     forall m, m ∈ ms' -> m_path m = d ++ m_relpath m /\ fs !! (p ++ segs (m_relpath m)) = Some (File (m_text m))) /\
  (forall x, fs !! (p ++ x) = layout ms' x) /\
  (forall k, ~ p `prefix_of` k -> fs !! k = fs0 !! k).
Proof.
  intros Hf Hne Hnd Hfp ms' Hpl Hc fs. destruct (stage_spec cwd fs0 tmpdir p Hf ms' Hpl Hc) as [(_ & _ & Hout) Hx].
  destruct (relpaths_mirror ms Hne Hnd Hfp) as (d & Hd & Hmax & _ & Hm). split_and!; [|done|done].
  exists d. split_and!; [done|done|]. intros m Hin. split; [by apply Hm|]. rewrite <- (layout_member ms' m Hc Hin). apply Hx.
Qed.

(** [/tmp], and nothing else. *)
Definition sample_fs : fsys := <[[chars "tmp"] := Dir]> {[ [] := Dir ]}.

Lemma sample_fs_wf : fs_wf sample_fs.
Proof.
  apply (fs_wf_insert _ [] (chars "tmp")); [|by apply (bool_decide_unpack _); vm_compute|done|by right].
  split; [done|]. intros d n e He. apply lookup_singleton_Some in He as [He _]. by destruct d.
Qed.

Lemma sample_fresh : fresh_place [] sample_fs (chars "/tmp/tjlsp-q1w2e3") [chars "tmp"; chars "tjlsp-q1w2e3"].
Proof. split_and!; [apply sample_fs_wf|by vm_compute..]. Qed.

(** Checking [no_clash] on concrete members. *)
Definition clash_free (ms : list member) : bool :=
  forallb (fun i => forallb (fun j => match ms !! i, ms !! j with
    | Some mi, Some mj => negb (bool_decide (stage_path mi `prefix_of` stage_path mj)) || (i =? j)
    | _, _ => true end) (seq 0 (length ms))) (seq 0 (length ms)).

Lemma clash_free_spec ms : clash_free ms = true -> no_clash ms.
Proof.
  unfold clash_free. rewrite forallb_forall. intros H i j mi mj Hi Hj Hp.
  pose proof (lookup_lt_Some _ _ _ Hi). pose proof (lookup_lt_Some _ _ _ Hj).
  specialize (H i). rewrite in_seq, forallb_forall in H. specialize (H ltac:(lia) j). rewrite in_seq in H.
  specialize (H ltac:(lia)). rewrite Hi, Hj, bool_decide_eq_true_2 in H by done. by apply Nat.eqb_eq in H.
Qed.

Lemma plain_paths_dec ms :
  forallb (fun m => bool_decide (Forall good_name (segs (m_relpath m)))
                    && bool_decide (slash :: m_relpath m = concat (cons slash <$> segs (m_relpath m)))) ms = true ->
  Forall (fun m => plain_path (m_relpath m)) ms.
Proof.
  rewrite forallb_forall, Forall_forall. intros H m Hm%list_elem_of_In.
  apply H in Hm as [? ?]%andb_true_iff. by split; apply (bool_decide_unpack _), Is_true_true.
Qed.

Lemma staging_mirrors_project_witness :
  let ms' := assign_member_relpaths sample_members in
  let p := [chars "tmp"; chars "tjlsp-q1w2e3"] in
  let fs := stage_members_to_tmpdir [] (<[p := Dir]> sample_fs) (chars "/tmp/tjlsp-q1w2e3") ms' in
  m_relpath <$> ms' = [chars "p/main.tjp"; chars "lib/team.tji"] /\
  fs !! (p ++ [chars "lib"; chars "team.tji"]) = Some (File "resource") /\
  fs !! [chars "tmp"] = Some Dir.
Proof.
  intros ms' p fs. split; [by vm_compute|].
  destruct (staging_mirrors_project [] sample_fs (chars "/tmp/tjlsp-q1w2e3") p sample_members sample_fresh) as (_ & Hx & Hk).
  - done.
  - apply (bool_decide_unpack _). vm_compute. exact I.
  - repeat constructor; by vm_compute.
  - apply plain_paths_dec. vm_compute. reflexivity.
  - apply clash_free_spec. vm_compute. reflexivity.
  - split; [exact (Hx [chars "lib"; chars "team.tji"])|]. refine (Hk [chars "tmp"] _).
    intros H%prefix_length. apply (Nat.leb_le 2 1) in H. discriminate H.
Defined.

(** A relative path that climbs out of the staging directory is written where
    it leads: [uri_to_path] keeps the dots of a file that does not exist. *)
Example staging_climbs_out :
  let ms := assign_member_relpaths
    [ mkMember (chars "/w/p/main.tjp") [] "file:///w/p/main.tjp" "include";
      mkMember (chars "/w/p/../x.tji") [] "file:///w/p/../x.tji" "resource" ] in
  m_relpath <$> ms = [chars "main.tjp"; chars "../x.tji"] /\
  stage_members_to_tmpdir [] (<[[chars "tmp"; chars "tjlsp-q1w2e3"] := Dir]> sample_fs)
    (chars "/tmp/tjlsp-q1w2e3") ms !! [chars "tmp"; chars "x.tji"] = Some (File "resource").
Proof. by vm_compute. Qed.
