(* ===== verification/Syscalls.v ===== *)
(** * Programs that call the kernel.

    The code that confines, starts and reaps a child process is a sequence of
    system calls with a branch on each answer.  [prog] is such code, [exec] runs
    it against any kernel, and [Process] is what the calls so far did to the
    calling process, as the manual pages document it.  [wp] is the precondition
    for all answers a kernel can give. *)

From S2P Require Import Prelude.

(** ** Calls and answers *)

Inductive syscall : Set :=
  | CreateRulesetVersion                       (* landlock_create_ruleset (NULL, 0, VERSION) *)
  | CreateRuleset (handled : Z)
  | AddRule (ruleset_fd allowed parent_fd : Z)
  | RestrictSelf (ruleset_fd : Z)
  | SetNoNewPrivs                              (* prctl (PR_SET_NO_NEW_PRIVS, 1, ..) *)
  | Open (path : list ascii) (flags : Z)
  | Close (fd : Z)
  | Dup2 (fd newfd : Z)
  | Pipe
  | Fork
  | Waitpid (pid : Z)
  | Chdir (dir : list ascii)
  | ReadAll (fd : Z).                          (* [read] until it returns 0 or fails *)

Definition answer (c : syscall) : Set :=
  match c with
  | Pipe => option (Z * Z)
  | ReadAll _ => list (list ascii)
  | _ => Z
  end.

Inductive event : Set := Event (c : syscall) (x : answer c).

(** [execvp] returns only when it fails, [_exit] not at all. *)
Inductive prog (A : Type) : Type :=
  | Ret (a : A)
  | Call (c : syscall) (k : answer c -> prog A)
  | Execvp (argv : list (list ascii)) (k : prog A)
  | Exit (code : Z).
Arguments Ret {A} a.
Arguments Call {A} c k.
Arguments Execvp {A} argv k.
Arguments Exit {A} code.

Fixpoint prog_bind {A B} (f : A -> prog B) (p : prog A) : prog B :=
  match p with
  | Ret a => f a
  | Call c k => Call c (fun x => prog_bind f (k x))
  | Execvp argv k => Execvp argv (prog_bind f k)
  | Exit code => Exit code
  end.

#[export] Instance prog_mret : MRet prog := fun A a => Ret a.
#[export] Instance prog_mbind : MBind prog := fun A B f p => prog_bind f p.

Definition call (c : syscall) : prog (answer c) := Call c (fun x => Ret x).

(** ** The calling process *)

Record ruleset : Set := mkRuleset { rs_handled : Z; rs_rules : list (Z * list ascii) }.

#[global] Instance ruleset_eq_dec : EqDecision ruleset.
Proof. solve_decision. Defined.

Inductive fd_object : Set :=
  | FdStd (n : Z)
  | FdPath (path : list ascii)
  | FdRuleset (rs : ruleset)
  | FdPipe (write_end : bool).

(** The open descriptors, [no_new_privs], the rulesets enforced on the process
    (the latest first), the working directory it changed to, and the children
    not waited for. *)
Record Process : Set := mkProcess {
  pr_fds : gmap Z fd_object;
  pr_nnp : bool;
  pr_domain : list ruleset;
  pr_cwd : option (list ascii);
  pr_children : list Z
}.

Definition set_fds (f : gmap Z fd_object -> gmap Z fd_object) (s : Process) : Process :=
  mkProcess (f (pr_fds s)) (pr_nnp s) (pr_domain s) (pr_cwd s) (pr_children s).

Definition STDOUT_FILENO : Z := 1.
Definition STDERR_FILENO : Z := 2.

(** What an answered call did.  [waitpid] of a child the caller has returns with
    the child reaped: it fails for such a child only when a handled signal
    interrupts it, and the server handles none. *)
Definition step (s : Process) (e : event) : Process :=
  let 'Event c x := e in
  match c return answer c -> Process with
  | CreateRulesetVersion => fun _ => s
  | CreateRuleset handled => fun fd =>
      if (fd <? 0)%Z then s else set_fds (<[fd := FdRuleset (mkRuleset handled [])]>) s
  | AddRule r allowed parent => fun rc =>
      if (rc =? 0)%Z then
        match pr_fds s !! r, pr_fds s !! parent with
        | Some (FdRuleset rs), Some (FdPath p) =>
            set_fds (<[r := FdRuleset (mkRuleset (rs_handled rs) (rs_rules rs ++ [(allowed, p)]))]>) s
        | _, _ => s
        end
      else s
  | RestrictSelf r => fun rc =>
      match pr_fds s !! r with
      | Some (FdRuleset rs) =>
          if (rc =? 0)%Z
          then mkProcess (pr_fds s) (pr_nnp s) (rs :: pr_domain s) (pr_cwd s) (pr_children s) else s
      | _ => s
      end
  | SetNoNewPrivs => fun rc =>
      if (rc =? 0)%Z then mkProcess (pr_fds s) true (pr_domain s) (pr_cwd s) (pr_children s) else s
  | Open path _ => fun fd => if (fd <? 0)%Z then s else set_fds (<[fd := FdPath path]>) s
  | Close fd => fun _ => set_fds (delete fd) s
  | Dup2 fd newfd => fun rc =>
      if (rc <? 0)%Z then s
      else match pr_fds s !! fd with Some o => set_fds (<[newfd := o]>) s | None => s end
  | Pipe => fun p =>
      match p with
      | Some (r, w) => set_fds (fun m => <[w := FdPipe true]> (<[r := FdPipe false]> m)) s
      | None => s
      end
  | Fork => fun pid =>
      if (0 <? pid)%Z then mkProcess (pr_fds s) (pr_nnp s) (pr_domain s) (pr_cwd s) (pid :: pr_children s)
      else if (pid =? 0)%Z then mkProcess (pr_fds s) (pr_nnp s) (pr_domain s) (pr_cwd s) [] else s
  | Waitpid pid => fun _ =>
      mkProcess (pr_fds s) (pr_nnp s) (pr_domain s) (pr_cwd s) (filter (.≠ pid) (pr_children s))
  | Chdir dir => fun rc =>
      if (rc =? 0)%Z then mkProcess (pr_fds s) (pr_nnp s) (pr_domain s) (Some dir) (pr_children s) else s
  | ReadAll _ => fun _ => s
  end x.

(** A process with the three standard descriptors. *)
Definition fresh_process : Process :=
  mkProcess {[0%Z := FdStd 0; 1%Z := FdStd 1; 2%Z := FdStd 2]} false [] None [].

Definition after (h : list event) : Process := foldl step fresh_process h.

(** ** Running a program *)

(** The answers of a kernel, which may depend on everything that happened,
    whether an [execvp] succeeds, and the version of Landlock it has. *)
Record Kernel : Type := mkKernel {
  landlock_abi : Z;
  answers : list event -> forall c, answer c;
  execs : list event -> bool
}.

Inductive outcome (A : Type) : Type :=
  | Done (a : A)
  | Replaced (argv : list (list ascii))
  | Exited (code : Z).
Arguments Done {A} a.
Arguments Replaced {A} argv.
Arguments Exited {A} code.

Fixpoint exec {A} (K : Kernel) (h : list event) (p : prog A) : outcome A * list event :=
  match p with
  | Ret a => (Done a, h)
  | Call c k => let x := answers K h c in exec K (h ++ [Event c x]) (k x)
  | Execvp argv k => if execs K h then (Replaced argv, h) else exec K h k
  | Exit code => (Exited code, h)
  end.

(** A call that opens a descriptor answers one that is not open, or a negative
    number; a pipe has two different ones.  A new child is none of the children
    there are.  The version of Landlock does not change. *)
Definition valid (abi : Z) (s : Process) (c : syscall) : answer c -> Prop :=
  match c return answer c -> Prop with
  | CreateRuleset _ | Open _ _ => fun fd => (fd < 0)%Z \/ pr_fds s !! fd = None
  | Pipe => fun p =>
      match p with
      | Some (r, w) => r <> w /\ pr_fds s !! r = None /\ pr_fds s !! w = None
      | None => True
      end
  | Fork => fun pid => pid ∉ pr_children s
  | CreateRulesetVersion => fun version => version = abi
  | _ => fun _ => True
  end.

Class Posix (K : Kernel) : Prop := fresh_descriptors : 
  forall h c, valid (landlock_abi K) (after h) c (answers K h c).

(** ** Preconditions *)

Fixpoint wp {A} (abi : Z) (p : prog A) (s : Process) (Q : outcome A -> Process -> Prop) : Prop :=
  match p with
  | Ret a => Q (Done a) s
  | Call c k => forall x, valid abi s c x -> wp abi (k x) (step s (Event c x)) Q
  | Execvp argv k => Q (Replaced argv) s /\ wp abi k s Q
  | Exit code => Q (Exited code) s
  end.

Lemma after_snoc h e : after (h ++ [e]) = step (after h) e.
Proof. unfold after. by rewrite foldl_snoc. Qed.

(** What holds for all answers holds on every kernel. *)
Lemma wp_exec {A} (p : prog A) K (HK : Posix K) (Q : outcome A -> Process -> Prop) : forall h,
  wp (landlock_abi K) p (after h) Q -> Q (exec K h p).1 (after (exec K h p).2).
Proof.
  induction p as [a|c k IH|argv k IH|code]; intros h Hw; cbn [exec wp] in *; [done| | |done].
  - apply IH. rewrite after_snoc. apply Hw, HK.
  - destruct Hw as [Hr Hw]. destruct (execs K h); [done|by apply IH].
Qed.

Lemma wp_mono {A} abi (p : prog A) (Q Q' : outcome A -> Process -> Prop) :
  (forall o s, Q o s -> Q' o s) -> forall s, wp abi p s Q -> wp abi p s Q'.
Proof.
  intros HQ. induction p as [a|c k IH|argv k IH|code]; intros s; cbn [wp]; [apply HQ| | |apply HQ].
  - intros Hw x Hx. by apply IH, Hw.
  - intros [? ?]. split; [by apply HQ|by apply IH].
Qed.

(** The precondition of a sequence. *)
Lemma wp_bind {A B} abi (p : prog A) (f : A -> prog B) (Q : outcome B -> Process -> Prop) : forall s,
  wp abi p s (fun o s' => match o with
                      | Done a => wp abi (f a) s' Q
                      | Replaced argv => Q (Replaced argv) s'
                      | Exited code => Q (Exited code) s'
                      end) -> wp abi (p ≫= f) s Q.
Proof.
  induction p as [a|c k IH|argv k IH|code]; intros s; cbn; [done| | |done].
  - intros Hw x Hx. by apply IH, Hw.
  - intros [? ?]. split; [done|by apply IH].
Qed.

Lemma call_wp {B} abi c (k : answer c -> prog B) (Q : outcome B -> Process -> Prop) s :
  (forall x, valid abi s c x -> wp abi (k x) (step s (Event c x)) Q) -> wp abi (call c ≫= k) s Q.
Proof. done. Qed.

(** ** A kernel *)

(** One more than all of them. *)
Definition above (l : list Z) : Z := foldr Z.max 2%Z l + 1.

Lemma above_fresh l x : x ∈ l -> (x < above l)%Z.
Proof.
  unfold above. induction l as [|y l IH]; intros Hx; [by apply elem_of_nil in Hx|]. cbn.
  apply elem_of_cons in Hx as [->|Hx]; [lia|]. specialize (IH Hx). lia.
Qed.

Definition next_fd (s : Process) : Z := above ((map_to_list (pr_fds s)).*1).

Lemma next_fd_fresh s fd : (next_fd s <= fd)%Z -> pr_fds s !! fd = None.
Proof.
  intros Hle. destruct (pr_fds s !! fd) as [o|] eqn:E; [|done]. exfalso. unfold next_fd in Hle.
  assert (Hin : fd ∈ (map_to_list (pr_fds s)).*1).
  { apply list_elem_of_fmap. exists (fd, o). split; [done|]. by apply elem_of_map_to_list. }
  apply above_fresh in Hin. lia.
Qed.

(** Every call succeeds; [Fork] answers in the child if [child], and [input] is
    what comes through the pipe. *)
Definition plain_kernel (abi : Z) (child : bool) (input : list (list ascii)) : Kernel :=
  mkKernel abi
    (fun h c =>
      match c return answer c with
      | CreateRulesetVersion => abi
      | CreateRuleset _ | Open _ _ => next_fd (after h)
      | Pipe => Some (next_fd (after h), next_fd (after h) + 1)%Z
      | Fork => if child then 0%Z else above (0%Z :: pr_children (after h))
      | ReadAll _ => input
      | _ => 0%Z
      end)
    (fun _ => true).

Lemma children_positive h : Forall (fun pid => (0 < pid)%Z) (pr_children (after h)).
Proof.
  induction h as [|[c x] h IH] using rev_ind; [constructor|]. rewrite after_snoc. destruct c; cbn in *;
    repeat case_match; cbn; try done.
  - constructor; [by apply Z.ltb_lt|done].
  - rewrite Forall_forall in *. intros q [_ Hin]%list_elem_of_filter. by apply IH.
Qed.

#[export] Instance plain_kernel_posix abi child input : Posix (plain_kernel abi child input).
Proof.
  intros h c. destruct c; cbn; try done.
  - right. by apply next_fd_fresh.
  - right. by apply next_fd_fresh.
  - split_and!; [lia|apply next_fd_fresh; lia|apply next_fd_fresh; lia].
  - pose proof (children_positive h) as Hpos. rewrite Forall_forall in Hpos. intros Hin.
    destruct child; [apply Hpos in Hin; lia|].
    assert (H : above (0%Z :: pr_children (after h)) ∈ 0%Z :: pr_children (after h)) by (by right).
    apply above_fresh in H. lia.
Qed.
