(* ===== verification/Sandbox.v ===== *)
(** * [sandbox.c]: confining a child's writes with Landlock. *)

From S2P Require Import Prelude CText PathUri Syscalls.

(** ** Access rights of [linux/landlock.h] *)

Definition LANDLOCK_ACCESS_FS_WRITE_FILE : Z := Z.shiftl 1 1.
Definition LANDLOCK_ACCESS_FS_REMOVE_DIR : Z := Z.shiftl 1 4.
Definition LANDLOCK_ACCESS_FS_REMOVE_FILE : Z := Z.shiftl 1 5.
Definition LANDLOCK_ACCESS_FS_MAKE_CHAR : Z := Z.shiftl 1 6.
Definition LANDLOCK_ACCESS_FS_MAKE_DIR : Z := Z.shiftl 1 7.
Definition LANDLOCK_ACCESS_FS_MAKE_REG : Z := Z.shiftl 1 8.
Definition LANDLOCK_ACCESS_FS_MAKE_SOCK : Z := Z.shiftl 1 9.
Definition LANDLOCK_ACCESS_FS_MAKE_FIFO : Z := Z.shiftl 1 10.
Definition LANDLOCK_ACCESS_FS_MAKE_BLOCK : Z := Z.shiftl 1 11.
Definition LANDLOCK_ACCESS_FS_MAKE_SYM : Z := Z.shiftl 1 12.
Definition LANDLOCK_ACCESS_FS_REFER : Z := Z.shiftl 1 13.
Definition LANDLOCK_ACCESS_FS_TRUNCATE : Z := Z.shiftl 1 14.

Definition write_access_mask (abi : Z) : Z :=
  let writes :=
    foldr Z.lor 0%Z
      [ LANDLOCK_ACCESS_FS_WRITE_FILE; LANDLOCK_ACCESS_FS_REMOVE_DIR; LANDLOCK_ACCESS_FS_REMOVE_FILE;
        LANDLOCK_ACCESS_FS_MAKE_CHAR; LANDLOCK_ACCESS_FS_MAKE_DIR; LANDLOCK_ACCESS_FS_MAKE_REG;
        LANDLOCK_ACCESS_FS_MAKE_SOCK; LANDLOCK_ACCESS_FS_MAKE_FIFO; LANDLOCK_ACCESS_FS_MAKE_BLOCK;
        LANDLOCK_ACCESS_FS_MAKE_SYM ] in
  let writes := if (2 <=? abi)%Z then Z.lor writes LANDLOCK_ACCESS_FS_REFER else writes in
  if (3 <=? abi)%Z then Z.lor writes LANDLOCK_ACCESS_FS_TRUNCATE else writes.

(** ** The two operations *)

(** The cached answer (-1 unknown, 0 absent, 1 present) and the answer. *)
Definition sandbox_available (cached : Z) : prog (Z * Z) :=
  if (0 <=? cached)%Z then mret (cached, cached)
  else abi ← call CreateRulesetVersion;
       let cached := if (1 <=? abi)%Z then 1%Z else 0%Z in
       mret (cached, cached).

(** [O_PATH | O_CLOEXEC]. *)
Definition O_PATH_CLOEXEC : Z := Z.lor (Z.shiftl 1 21) (Z.shiftl 1 19).
Definition dev_null : list ascii := list_ascii_of_string "/dev/null".

(** [{ close (fd); return -1; }]. *)
Definition close_and_fail (fd : Z) : prog Z := _ ← call (Close fd); mret (-1)%Z.

Definition sandbox_confine_writes_to (dir : list ascii) : prog Z :=
  abi ← call CreateRulesetVersion;
  if (abi <? 1)%Z then mret (-1)%Z else
  let writes := write_access_mask abi in
  ruleset_fd ← call (CreateRuleset writes);
  if (ruleset_fd <? 0)%Z then mret (-1)%Z else
  dir_fd ← call (Open dir O_PATH_CLOEXEC);
  if (dir_fd <? 0)%Z then close_and_fail ruleset_fd else
  rc ← call (AddRule ruleset_fd writes dir_fd);
  _ ← call (Close dir_fd);
  if negb (rc =? 0)%Z then close_and_fail ruleset_fd else
  null_fd ← call (Open dev_null O_PATH_CLOEXEC);
  if (null_fd <? 0)%Z then close_and_fail ruleset_fd else
  rc ← call (AddRule ruleset_fd LANDLOCK_ACCESS_FS_WRITE_FILE null_fd);
  _ ← call (Close null_fd);
  if negb (rc =? 0)%Z then close_and_fail ruleset_fd else
  rc ← call SetNoNewPrivs;
  if negb (rc =? 0)%Z then close_and_fail ruleset_fd else
  rc ← call (RestrictSelf ruleset_fd);
  if negb (rc =? 0)%Z then close_and_fail ruleset_fd else
  _ ← call (Close ruleset_fd);
  mret 0%Z.

(** ** What a ruleset permits *)

(** [right] is not handled, or a rule on a directory [covers] the place grants
    it. *)
Definition permits (rs : ruleset) (covers : list ascii -> Prop) (right : Z) : Prop :=
  Z.land (rs_handled rs) right = 0%Z \/
  exists allowed p, (allowed, p) ∈ rs_rules rs /\ covers p /\ Z.land allowed right <> 0%Z.

(** The ruleset of a confined child. *)
Definition confinement (abi : Z) (dir : list ascii) : ruleset :=
  mkRuleset (write_access_mask abi)
    [(write_access_mask abi, dir); (LANDLOCK_ACCESS_FS_WRITE_FILE, dev_null)].

(** The rights that change what files there are, as the confinement has them
    from the first version on. *)
Definition write_rights : list Z :=
  [ LANDLOCK_ACCESS_FS_WRITE_FILE; LANDLOCK_ACCESS_FS_REMOVE_DIR; LANDLOCK_ACCESS_FS_REMOVE_FILE;
    LANDLOCK_ACCESS_FS_MAKE_CHAR; LANDLOCK_ACCESS_FS_MAKE_DIR; LANDLOCK_ACCESS_FS_MAKE_REG;
    LANDLOCK_ACCESS_FS_MAKE_SOCK; LANDLOCK_ACCESS_FS_MAKE_FIFO; LANDLOCK_ACCESS_FS_MAKE_BLOCK;
    LANDLOCK_ACCESS_FS_MAKE_SYM ].

(** Of these, a confined child has every one beneath [dir], and elsewhere only
    writing to [/dev/null]. *)
Lemma confinement_permits abi dir covers right : right ∈ write_rights ->
  permits (confinement abi dir) covers right <->
    covers dir \/ right = LANDLOCK_ACCESS_FS_WRITE_FILE /\ covers dev_null.
Proof.
  intros Hr.
  assert (Hw : Z.land (write_access_mask abi) right <> 0%Z /\
    (Z.land LANDLOCK_ACCESS_FS_WRITE_FILE right <> 0%Z <-> right = LANDLOCK_ACCESS_FS_WRITE_FILE)).
  { unfold write_access_mask, write_rights in *. clear -Hr.
    repeat (apply elem_of_cons in Hr as [->|Hr];
      [repeat case_match; (split; [|split]; vm_compute; (congruence || tauto))|]).
    by apply elem_of_nil in Hr. }
  destruct Hw as [Hmask Hnull]. unfold permits, confinement. cbn [rs_handled rs_rules]. split.
  - intros [?|(a & p & Hin & Hc & Ha)]; [done|].
    apply elem_of_cons in Hin as [[= -> ->]|Hin%list_elem_of_singleton]; [by left|].
    injection Hin as -> ->. right. split; [by apply Hnull|done].
  - intros [Hd|[-> Hn]]; right.
    + exists (write_access_mask abi), dir. split_and!; [left|done|done].
    + exists LANDLOCK_ACCESS_FS_WRITE_FILE, dev_null. split_and!; [right; left|done|by apply Hnull].
Qed.

(** From the third version on, truncating is confined to [dir]; before, it is
    permitted everywhere. *)
Lemma confinement_truncate abi dir covers :
  permits (confinement abi dir) covers LANDLOCK_ACCESS_FS_TRUNCATE <-> (abi < 3)%Z \/ covers dir.
Proof.
  unfold permits, confinement, write_access_mask. cbn [rs_handled rs_rules].
  destruct (3 <=? abi)%Z eqn:E3, (2 <=? abi)%Z eqn:E2; try lia.
  - split.
    + intros [H|(a & p & Hin & Hc & Ha)]; [by vm_compute in H|]. right.
      apply elem_of_cons in Hin as [[= -> ->]|Hin%list_elem_of_singleton]; [done|].
      injection Hin as -> ->. by vm_compute in Ha.
    + intros [?|Hd]; [lia|]. right. do 2 eexists. split_and!; [left|done|]. by vm_compute.
  - split; [left; lia|]. intros _. left. by vm_compute.
  - split; [left; lia|]. intros _. left. by vm_compute.
Qed.

(** ** Confining a process *)

Definition with_fds (fds : gmap Z fd_object) (s : Process) : Process := set_fds (fun _ => fds) s.

(** A process that is like [s] but for [no_new_privs]. *)
Definition unconfined_like (s s' : Process) : Prop :=
  exists nnp, s' = mkProcess (pr_fds s) nnp (pr_domain s) (pr_cwd s) (pr_children s).

Definition confined_to (abi : Z) (dir : list ascii) (s : Process) : Process :=
  mkProcess (pr_fds s) true (confinement abi dir :: pr_domain s) (pr_cwd s) (pr_children s).

Lemma with_fds_id s : with_fds (pr_fds s) s = s.
Proof. by destruct s. Qed.

(** Closing the ruleset that was opened last restores the descriptors. *)
Lemma close_and_fail_wp abi r o s s' Q : pr_fds s !! r = None ->
  s' = with_fds (<[r := o]> (pr_fds s)) s -> Q (Done (-1)%Z) s -> wp abi (close_and_fail r) s' Q.
Proof.
  intros Hr -> HQ x _. cbn. unfold set_fds. cbn. rewrite delete_insert_id by done. by destruct s.
Qed.

(** Opening a path, adding a rule for it and closing it again. *)
Lemma grant_wp abi s r rs p allowed k Q : pr_fds s !! r = None ->
  Q (Done (-1)%Z) s ->
  wp abi k (with_fds (<[r := FdRuleset (mkRuleset (rs_handled rs) (rs_rules rs ++ [(allowed, p)]))]> (pr_fds s)) s) Q ->
  wp abi (fd ← call (Open p O_PATH_CLOEXEC);
      if (fd <? 0)%Z then close_and_fail r else
      rc ← call (AddRule r allowed fd);
      _ ← call (Close fd);
      if negb (rc =? 0)%Z then close_and_fail r else k)
    (with_fds (<[r := FdRuleset rs]> (pr_fds s)) s) Q.
Proof.
  intros Hr Hfail Hk fd Hfd. cbn. destruct (Z.ltb_spec fd 0).
  { by eapply close_and_fail_wp. }
  destruct Hfd as [?|Hfd]; [lia|]. cbn in Hfd. apply lookup_insert_None in Hfd as [Hfd Hne].
  intros rc _ y _. cbn. rewrite lookup_insert_ne, lookup_insert_eq by done. rewrite lookup_insert_eq.
  destruct (rc =? 0)%Z; cbn [negb].
  - unfold set_fds, with_fds, set_fds in *. cbn in *.
    rewrite insert_insert_ne, insert_insert_eq, delete_insert_id in * by (rewrite ?lookup_insert_None; done). done.
  - eapply (close_and_fail_wp _ _ (FdRuleset rs) s); [done| |done]. unfold set_fds, with_fds, set_fds. cbn.
    rewrite delete_insert_id by (rewrite lookup_insert_None; done). done.
Qed.

Lemma confine_wp abi dir s :
  wp abi (sandbox_confine_writes_to dir) s (fun o s' =>
    o = Done 0%Z /\ (1 <= abi)%Z /\ s' = confined_to abi dir s \/
    o = Done (-1)%Z /\ unconfined_like s s').
Proof.
  set (Q := fun o s' => _).
  assert (Hfail : Q (Done (-1)%Z) s) by (right; split; [done|]; exists (pr_nnp s); by destruct s).
  apply call_wp. intros v Hv. cbn in Hv. subst v. destruct (Z.ltb_spec abi 1); [exact Hfail|].
  apply call_wp. intros r Hr. cbn [step]. destruct (Z.ltb_spec r 0); [exact Hfail|]. destruct Hr as [?|Hr]; [lia|].
  apply (grant_wp _ s r (mkRuleset _ [])); [done..|].
  apply (grant_wp _ s r (mkRuleset _ [_])); [done..|]. cbn [rs_handled rs_rules app].
  apply call_wp. intros rc _. cbn [step]. destruct (rc =? 0)%Z; cbn [negb].
  2: { by eapply close_and_fail_wp. }
  apply call_wp. intros rc' _. cbn. rewrite lookup_insert_eq. destruct (rc' =? 0)%Z; cbn [negb].
  - apply call_wp. intros y _. left. split; [done|]. split; [lia|]. unfold confined_to. cbn. unfold set_fds. cbn.
    by rewrite delete_insert_id.
  - eapply (close_and_fail_wp _ _ _ (mkProcess (pr_fds s) true (pr_domain s) (pr_cwd s) (pr_children s)));
      [done|done|]. right. split; [done|]. by exists true.
Qed.

(** C17: Confining a process either works or leaves it as it was.  On any kernel,
    whatever it answers: [sandbox_confine_writes_to] returns 0, sets
    [no_new_privs] and enforces exactly one more ruleset on the calling process;
    or it returns -1 and enforces none.  Either way every descriptor it opened is
    closed again.  The ruleset permits the write rights beneath [dir] and writing
    to [/dev/null], and nothing else; it confines truncating from the third
    version of Landlock on. *)
Theorem sandbox_confines K (HK : Posix K) h dir :
  let abi := landlock_abi K in
  let r := exec K h (sandbox_confine_writes_to dir) in
  (r.1 = Done 0%Z /\ (1 <= abi)%Z /\ after r.2 = confined_to abi dir (after h) \/
   r.1 = Done (-1)%Z /\ unconfined_like (after h) (after r.2)) /\
  (forall covers right, right ∈ write_rights ->
     permits (confinement abi dir) covers right <->
       covers dir \/ right = LANDLOCK_ACCESS_FS_WRITE_FILE /\ covers dev_null) /\
  (forall covers, permits (confinement abi dir) covers LANDLOCK_ACCESS_FS_TRUNCATE <-> (abi < 3)%Z \/ covers dir).
Proof.
  intros abi r. split_and!.
  - exact (wp_exec _ K HK _ h (confine_wp _ dir (after h))).
  - intros covers right. apply confinement_permits.
  - intros covers. apply confinement_truncate.
Qed.

Lemma sandbox_confines_witness :
  let dir := list_ascii_of_string "/tmp/t" in
  let r := exec (plain_kernel 4 true []) [] (sandbox_confine_writes_to dir) in
  r.1 = Done 0%Z /\ after r.2 = confined_to 4 dir fresh_process.
Proof.
  intros dir r. destruct (sandbox_confines (plain_kernel 4 true []) _ [] dir) as [[(H1 & _ & H2)|[H _]] _].
  - by split.
  - vm_compute in H. discriminate H.
Defined.
