(* ===== verification/Tj3Run.v ===== *)
(** * [tj3.c]: running TaskJuggler over a project.

    [run_tj3] forks a child that confines itself and becomes tj3, and reads what
    it writes to stderr; [tj3_collect_project] stages the members of a project,
    runs tj3 there, reads its messages and removes what was staged.  The kernel
    and tj3 itself are the environment [Tj3Env]. *)

From S2P Require Import Prelude CText PathUri Syntax Store Assembly Diagnostics DiagWorker Tj3 FileSys Staging.
From S2P Require Import ProjectTree Syscalls Sandbox.

(** ** The child process *)

Definition O_WRONLY : Z := 1.

Section Run.
Variable realloc_ok : Z -> bool.

(** [_exit (127)] in the child; what the server returns is the text. *)
Definition run_tj3 (tmpdir : list ascii) (argv : list (list ascii)) (confine : bool) : prog (option (list ascii)) :=
  errpipe ← call Pipe;
  match errpipe with
  | None => mret None
  | Some (rd, wr) =>
      pid ← call Fork;
      if (pid <? 0)%Z then
        _ ← call (Close rd);
        _ ← call (Close wr);
        mret None
      else if (pid =? 0)%Z then
        rc ← call (Chdir tmpdir);
        if negb (rc =? 0)%Z then Exit 127 else
        devnull ← call (Open dev_null O_WRONLY);
        _ ← (if (0 <=? devnull)%Z then
               _ ← call (Dup2 devnull STDOUT_FILENO);
               call (Close devnull)
             else mret 0%Z);
        _ ← call (Dup2 wr STDERR_FILENO);
        _ ← call (Close rd);
        _ ← call (Close wr);
        rc ← (if confine then sandbox_confine_writes_to tmpdir else mret 0%Z);
        if negb (rc =? 0)%Z then Exit 127 else
        Execvp argv (Exit 127)
      else
        _ ← call (Close wr);
        chunks ← call (ReadAll rd);
        let buf := read_fd_to_string realloc_ok chunks in
        _ ← call (Close rd);
        _ ← call (Waitpid pid);
        mret buf
  end.

(** The server is as it was: no descriptor and no child is left. *)
Definition server_unchanged (s s' : Process) : Prop := s' = s.

(** The process that becomes tj3: it runs in [tmpdir], writes its messages to
    the pipe if [dup2] went through, has the server's other descriptors and no
    more, and is confined to [tmpdir] if that was asked for. *)
Definition tj3_ready (abi : Z) (tmpdir : list ascii) (confine : bool) (s s' : Process) : Prop :=
  pr_cwd s' = Some tmpdir /\ pr_children s' = [] /\
  (pr_fds s' !! STDERR_FILENO = Some (FdPipe true) \/ pr_fds s' !! STDERR_FILENO = pr_fds s !! STDERR_FILENO) /\
  (pr_fds s' !! STDOUT_FILENO = Some (FdPath dev_null) \/ pr_fds s' !! STDOUT_FILENO = pr_fds s !! STDOUT_FILENO) /\
  (forall fd, fd <> STDOUT_FILENO -> fd <> STDERR_FILENO -> pr_fds s' !! fd = pr_fds s !! fd) /\
  if confine then (1 <= abi)%Z /\ pr_domain s' = confinement abi tmpdir :: pr_domain s
  else pr_domain s' = pr_domain s.

Definition run_outcome (abi : Z) (tmpdir : list ascii) (argv : list (list ascii)) (confine : bool) (s : Process)
    (o : outcome (option (list ascii))) (s' : Process) : Prop :=
  match o with
  | Done _ => server_unchanged s s'
  | Replaced argv' => argv' = argv /\ tj3_ready abi tmpdir confine s s'
  | Exited code => code = 127%Z
  end.

(** What the child's descriptors are before it confines itself. *)
Definition child_fds (s s' : Process) : Prop :=
  (pr_fds s' !! STDERR_FILENO = Some (FdPipe true) \/ pr_fds s' !! STDERR_FILENO = pr_fds s !! STDERR_FILENO) /\
  (pr_fds s' !! STDOUT_FILENO = Some (FdPath dev_null) \/ pr_fds s' !! STDOUT_FILENO = pr_fds s !! STDOUT_FILENO) /\
  (forall fd, fd <> STDOUT_FILENO -> fd <> STDERR_FILENO -> pr_fds s' !! fd = pr_fds s !! fd).

(** The end of the child: confine, then become tj3. *)
Lemma child_end_wp abi tmpdir argv (confine : bool) s0 s : child_fds s0 s -> pr_domain s = pr_domain s0 ->
  pr_cwd s = Some tmpdir -> pr_children s = [] ->
  wp abi (rc ← (if confine then sandbox_confine_writes_to tmpdir else mret 0%Z);
      if negb (rc =? 0)%Z then Exit (A := option (list ascii)) 127 else Execvp argv (Exit 127)) s (run_outcome abi tmpdir argv confine s0).
Proof.
  intros (He & Ho & Hfd) Hd Hc Hch. apply wp_bind. destruct confine.
  - eapply wp_mono; [|apply confine_wp]. intros o s' [(-> & Habi & ->)|[-> _]]; cbn.
    + split; [|done]. split; [done|]. split_and!; try done. unfold confined_to. cbn. by rewrite Hd.
    + done.
  - cbn. split; [|done]. by split_and!.
Qed.

(** Closing both ends of the pipe. *)
Lemma close_pipe (m : gmap Z fd_object) (rd wr : Z) : rd <> wr -> m !! rd = None -> m !! wr = None ->
  delete wr (delete rd (<[wr := FdPipe true]> (<[rd := FdPipe false]> m))) = m.
Proof.
  intros Hne Hr Hw. rewrite delete_insert_ne, (delete_insert_id m rd) by done.
  by rewrite delete_insert_id.
Qed.

(** The descriptors the child has set up, whichever of its calls failed. *)
Lemma child_fds_setup (m : gmap Z fd_object) (rd wr : Z) (out err : bool) : rd <> wr -> m !! rd = None -> m !! wr = None ->
  is_Some (m !! STDOUT_FILENO) -> is_Some (m !! STDERR_FILENO) ->
  let m1 := <[wr := FdPipe true]> (<[rd := FdPipe false]> m) in
  let m2 := if out then <[STDOUT_FILENO := FdPath dev_null]> m1 else m1 in
  let m3 := delete wr (delete rd (if err then <[STDERR_FILENO := FdPipe true]> m2 else m2)) in
  (m3 !! STDERR_FILENO = Some (FdPipe true) \/ m3 !! STDERR_FILENO = m !! STDERR_FILENO) /\
  (m3 !! STDOUT_FILENO = Some (FdPath dev_null) \/ m3 !! STDOUT_FILENO = m !! STDOUT_FILENO) /\
  (forall fd, fd <> STDOUT_FILENO -> fd <> STDERR_FILENO -> m3 !! fd = m !! fd).
Proof.
  intros Hne Hr Hw [o1 H1] [o2 H2] m1 m2 m3. unfold m3, m2, m1.
  split_and!; [| |intros fd Hf1 Hf2]; destruct out, err;
    rewrite !lookup_delete, !lookup_insert; repeat case_decide; subst; auto; try congruence; discriminate.
Qed.

(** The child from the redirection of stderr on. *)
Lemma child_wp abi tmpdir argv (confine out : bool) m nnp dom cwd ch (rd wr : Z) : rd <> wr -> m !! rd = None -> m !! wr = None ->
  is_Some (m !! STDOUT_FILENO) -> is_Some (m !! STDERR_FILENO) ->
  let m1 := <[wr := FdPipe true]> (<[rd := FdPipe false]> m) in
  wp abi (_ ← call (Dup2 wr STDERR_FILENO);
      _ ← call (Close rd);
      _ ← call (Close wr);
      rc ← (if confine then sandbox_confine_writes_to tmpdir else mret 0%Z);
      if negb (rc =? 0)%Z then Exit (A := option (list ascii)) 127 else Execvp argv (Exit 127))
    (mkProcess (if out then <[STDOUT_FILENO := FdPath dev_null]> m1 else m1) nnp dom (Some tmpdir) [])
    (run_outcome abi tmpdir argv confine (mkProcess m nnp dom cwd ch)).
Proof.
  intros Hne Hr Hw Ho He m1. pose proof (child_fds_setup m rd wr out) as Hset.
  assert (Hwr : (if out then <[STDOUT_FILENO := FdPath dev_null]> m1 else m1) !! wr = Some (FdPipe true)).
  { unfold m1. destruct out; [|by rewrite lookup_insert_eq]. rewrite lookup_insert_ne; [by rewrite lookup_insert_eq|].
    intros <-. rewrite Hw in Ho. by destruct Ho. }
  apply call_wp. intros rc _. apply call_wp. intros x _. apply call_wp. intros y _.
  cbn [step pr_fds]. rewrite Hwr. destruct (rc <? 0)%Z.
  - apply child_end_wp; [|done..]. exact (Hset false Hne Hr Hw Ho He).
  - apply child_end_wp; [|done..]. exact (Hset true Hne Hr Hw Ho He).
Qed.

Lemma run_tj3_wp abi tmpdir argv confine s :
  is_Some (pr_fds s !! STDOUT_FILENO) -> is_Some (pr_fds s !! STDERR_FILENO) ->
  wp abi (run_tj3 tmpdir argv confine) s (run_outcome abi tmpdir argv confine s).
Proof.
  intros Ho He. destruct s as [m nnp dom cwd ch]. cbn [pr_fds] in Ho, He.
  apply call_wp. intros [[rd wr]|] Hv; [|done]. destruct Hv as (Hne & Hr & Hw). cbn in Hr, Hw.
  apply call_wp. cbn [step set_fds pr_fds pr_nnp pr_domain pr_cwd pr_children]. intros pid Hpid. cbn in Hpid. change Z in pid.
  destruct (Z.ltb_spec pid 0).
  { rewrite (proj2 (Z.ltb_ge 0 pid)), (proj2 (Z.eqb_neq pid 0)) by lia.
    intros x _ y _. cbn. unfold server_unchanged, set_fds. cbn.
    by rewrite close_pipe. }
  destruct (Z.eqb_spec pid 0) as [->|Hz].
  - change (0 <? 0)%Z with false. cbn iota. apply call_wp. intros rc _.
    destruct (rc =? 0)%Z eqn:Erc; cbn [negb]; [|done]. cbn [step]. rewrite Erc. cbn [pr_fds pr_nnp pr_domain pr_cwd pr_children].
    apply call_wp. intros d Hd. cbn in Hd. change Z in d. apply wp_bind. destruct (Z.leb_spec 0 d).
    + destruct Hd as [?|Hd]; [lia|]. apply call_wp. intros x _ y _. cbn [step answer].
      rewrite (proj2 (Z.ltb_ge d 0)) by lia. unfold set_fds. cbn [pr_fds pr_nnp pr_domain pr_cwd pr_children].
      rewrite lookup_insert_eq. destruct (x <? 0)%Z; cbn [pr_fds pr_nnp pr_domain pr_cwd pr_children].
      * rewrite delete_insert_id by done. by apply (child_wp abi tmpdir argv confine false).
      * assert (Hd1 : d <> STDOUT_FILENO).
        { intros ->. apply lookup_insert_None in Hd as [Hd _]. apply lookup_insert_None in Hd as [Hd _].
          rewrite Hd in Ho. by destruct Ho. }
        rewrite delete_insert_ne, delete_insert_id by done. by apply (child_wp abi tmpdir argv confine true).
    + cbn. rewrite (proj2 (Z.ltb_lt d 0)) by lia. by apply (child_wp abi tmpdir argv confine false).
  - rewrite (proj2 (Z.ltb_lt 0 pid)) by lia.
    apply call_wp. intros x _. apply call_wp. intros y _. apply call_wp. intros z _. apply call_wp. intros w _.
    cbn [step set_fds pr_fds pr_nnp pr_domain pr_cwd pr_children].
    unfold run_outcome, server_unchanged, set_fds. cbn [wp mret prog_mret pr_fds pr_nnp pr_domain pr_cwd pr_children].
    rewrite delete_delete, close_pipe by done. f_equal. rewrite filter_cons_False by (intros Hn; by apply Hn).
    apply list_filter_all. intros c Hc Hn. by rewrite Hn in Hc.
Qed.
End Run.

(** C16: What becomes of [run_tj3] on any kernel.  Where it returns, in the
    server, no descriptor and no child process is left behind; where tj3 is
    executed, in the child, it has the given arguments, runs in the staging
    directory with the server's descriptors other than stdout and stderr and no
    more, and is confined to that directory if that was asked for; and a child
    that could not be confined has exited with 127 instead. *)
Theorem run_tj3_outcome K (HK : Posix K) realloc_ok h tmpdir argv confine :
  is_Some (pr_fds (after h) !! STDOUT_FILENO) -> is_Some (pr_fds (after h) !! STDERR_FILENO) ->
  let r := exec K h (run_tj3 realloc_ok tmpdir argv confine) in
  run_outcome (landlock_abi K) tmpdir argv confine (after h) r.1 (after r.2).
Proof. intros Ho He. exact (wp_exec _ K HK _ h (run_tj3_wp _ _ tmpdir argv confine (after h) Ho He)). Qed.

Lemma run_tj3_outcome_witness :
  let argv := [chars "tj3"; chars "main.tjp"] in
  let child := exec (plain_kernel 4 true []) [] (run_tj3 (fun _ => true) (chars "/tmp/t") argv true) in
  let server := exec (plain_kernel 4 false [chars "bad"]) [] (run_tj3 (fun _ => true) (chars "/tmp/t") argv true) in
  child.1 = Replaced argv /\ pr_domain (after child.2) = [confinement 4 (chars "/tmp/t")] /\
  server.1 = Done (Some (chars "bad")) /\ after server.2 = fresh_process.
Proof.
  intros argv child server.
  pose proof (run_tj3_outcome (plain_kernel 4 true []) _ (fun _ => true) [] (chars "/tmp/t") argv true
                ltac:(by eexists) ltac:(by eexists)) as Hc.
  pose proof (run_tj3_outcome (plain_kernel 4 false [chars "bad"]) _ (fun _ => true) [] (chars "/tmp/t") argv true
                ltac:(by eexists) ltac:(by eexists)) as Hs.
  assert (H1 : child.1 = Replaced argv) by (by vm_compute).
  assert (H2 : server.1 = Done (Some (chars "bad"))) by (by vm_compute).
  cbv zeta in Hc, Hs. fold child in Hc. fold server in Hs. rewrite H1 in Hc. rewrite H2 in Hs.
  destruct Hc as (_ & _ & _ & _ & _ & _ & _ & Hd). by split_and!.
Defined.

(** ** The environment *)

Class Tj3Env := mkTj3Env {
  (** [getenv ("TASKJUGGLER_LSP_DISABLE_TJ3")] and [getenv ("PATH")]. *)
  tj3_disabled : bool;
  env_path : option (list ascii);
  (** [access (cand, X_OK) == 0]. *)
  executable : list ascii -> bool;
  (** The working directory, and the characters [mkdtemp] picks. *)
  server_cwd : fpath;
  tmp_suffix : fsys -> option name;
  (** What the kernel lets the server do when it cleans up: [opendir], and
      [rmdir] or [unlink]. *)
  may_list : fsys -> list ascii -> bool;
  may_remove : fsys -> list ascii -> bool;
  (** The kernel as the server sees it, given what comes through the pipe, and
      as the child does. *)
  server_kernel : list (list ascii) -> Kernel;
  child_kernel : Kernel;
  (** tj3 started by a process: the tree it leaves and what it writes to stderr,
      in the pieces [read] returns. *)
  tj3_process : list (list ascii) -> Process -> fsys -> fsys * list (list ascii);
  realloc_ok : Z -> bool
}.

Section Collect.
Context `{Tj3Env}.

(** The cached answer: -1 unknown, 0 absent, 1 present. *)
Definition tj3_available (cached : Z) : Z :=
  if (cached >=? 0)%Z then cached
  else if tj3_disabled then 0%Z
  else match env_path with
       | None => 0%Z
       | Some path =>
           if existsb (fun dir => executable (path_join dir (chars "tj3"))) (strtok ":"%char path)
           then 1%Z else 0%Z
       end.

(** The answer of [sandbox_available] in the server. *)
Definition can_sandbox : bool :=
  match (exec (server_kernel []) [] (sandbox_available (-1))).1 with
  | Done (_, answer) => negb (answer =? 0)%Z
  | _ => false
  end.

(** The arguments and whether the child is confined. *)
Definition tj3_command (mode : tj3_mode) (root_rel : list ascii) : list (list ascii) * bool :=
  if bool_decide (mode = TJ3_SYNTAX_ONLY)
  then ([chars "tj3"; chars "--check-syntax"; root_rel], false)
  else if can_sandbox then ([chars "tj3"; root_rel], true)
  else ([chars "tj3"; chars "--no-reports"; root_rel], false).

(** [mkdtemp ("/tmp/tjlsp-XXXXXX")]: a new directory. *)
Definition mkdtemp (fs : fsys) : option (list ascii * fsys) :=
  sfx ← tmp_suffix fs;
  let path := chars "/tmp/tjlsp-" ++ sfx in
  p ← namei server_cwd fs false path;
  match fs !! p with
  | None => Some (path, mkdir server_cwd fs path)
  | Some _ => None
  end.

(** Whether the server got a child. *)
Definition forked (h : list event) : bool :=
  existsb (fun e => match e with Event Fork pid => (0 <? pid)%Z | _ => false end) h.

(** Both sides of [run_tj3]: the tree the child leaves, and the text. *)
Definition run_child (fs : fsys) (tmpdir : list ascii) (argv : list (list ascii)) (confine : bool)
  : fsys * option (list ascii) :=
  let program := run_tj3 realloc_ok tmpdir argv confine in
  let child := exec child_kernel [] program in
  let '(fs', pieces) :=
    match child.1 with
    | Replaced argv' => tj3_process argv' (after child.2) fs
    | _ => (fs, [])
    end in
  let server := exec (server_kernel pieces) [] program in
  (if forked server.2 then fs' else fs, match server.1 with Done buf => buf | _ => None end).

(** The run over the project at [pindex]: the tree it leaves and the set. *)
Definition tj3_collect_project (fs : fsys) (ws : workspace_snapshot) (pindex : nat) (mode : tj3_mode)
    (out : diag_set) : fsys * diag_set :=
  if (tj3_available (-1) =? 0)%Z then (fs, out)
  else match ws_projects ws !! pindex with
  | None => (fs, out)
  | Some proj =>
      let ms := assign_member_relpaths (collect_project_members ws pindex) in
      match List.find (fun m => bool_decide (Some (m_uri m) = wp_id proj)) ms with
      | None => (fs, out)
      | Some root =>
          match mkdtemp fs with
          | None => (fs, out)
          | Some (tmpdir, fs) =>
              let real_tmp := realpath server_cwd fs tmpdir in
              let fs := stage_members_to_tmpdir server_cwd fs tmpdir ms in
              let '(argv, confine) := tj3_command mode (m_relpath root) in
              let '(fs, errbuf) := run_child fs tmpdir argv confine in
              let out := parse_diagnostics errbuf tmpdir real_tmp ms out in
              (remove_recursive server_cwd may_list may_remove (S (tree_height fs)) fs tmpdir, out)
          end
      end
  end.
End Collect.

(** ** The new directory *)

Lemma mkdtemp_fresh `{Tj3Env} fs tmpdir fs1 : fs_wf fs -> mkdtemp fs = Some (tmpdir, fs1) ->
  exists p, fresh_place server_cwd fs tmpdir p /\ fs1 = <[p := Dir]> fs.
Proof.
  intros Hwf Hm. unfold mkdtemp in Hm. destruct (tmp_suffix fs) as [sfx|]; [|done]. cbn [mbind option_bind] in Hm.
  set (path := chars "/tmp/tjlsp-" ++ sfx) in *.
  destruct (namei server_cwd fs false path) as [p|] eqn:Hp; [|done]. cbn [mbind option_bind] in Hm.
  destruct (fs !! p) eqn:Hn; [done|]. injection Hm as <- <-. exists p.
  assert (Hsegs : segs path <> []).
  { intros Hnil. unfold namei in Hp. rewrite Hnil in Hp.
    change (bool_decide (path = [])) with false in Hp. change (absolute path) with true in Hp.
    rewrite walk_nil in Hp. injection Hp as <-. destruct Hwf. congruence. }
  split; [by split_and!|]. unfold mkdir. by rewrite Hp, Hn.
Qed.

(** ** What tj3 and the kernel promise *)

(** The Landlock rights one of which a change of an entry takes, and where it
    has to be granted: on the file that is written, or on the directory. *)
Definition rights_of (before after : option entry) : list Z :=
  match before, after with
  | None, Some Dir => [LANDLOCK_ACCESS_FS_MAKE_DIR]
  | None, Some (File _) => [LANDLOCK_ACCESS_FS_MAKE_REG]
  | None, Some (Link _) => [LANDLOCK_ACCESS_FS_MAKE_SYM]
  | Some Dir, _ => [LANDLOCK_ACCESS_FS_REMOVE_DIR]
  | Some (File _), Some (File _) =>
      [LANDLOCK_ACCESS_FS_WRITE_FILE; LANDLOCK_ACCESS_FS_TRUNCATE; LANDLOCK_ACCESS_FS_REMOVE_FILE]
  | Some _, _ => [LANDLOCK_ACCESS_FS_REMOVE_FILE]
  | None, None => []
  end.

Definition place_of (right : Z) (k : fpath) : fpath :=
  if bool_decide (right = LANDLOCK_ACCESS_FS_WRITE_FILE) || bool_decide (right = LANDLOCK_ACCESS_FS_TRUNCATE)
  then k else parent k.

(** The rule for [path] covers the place. *)
Definition covers `{Tj3Env} (fs : fsys) (place : fpath) (path : list ascii) : Prop :=
  exists q, namei server_cwd fs true path = Some q /\ q `prefix_of` place.

Class Tj3Laws `{Tj3Env} : Prop := mkTj3Laws {
  server_posix pieces : Posix (server_kernel pieces);
  child_posix : Posix child_kernel;
  (** What tj3 leaves is a tree, and every change of a process takes a right
      that each ruleset enforced on it permits. *)
  tj3_tree argv pr fs : fs_wf fs -> fs_wf (tj3_process argv pr fs).1;
  landlock argv pr fs k rs : fs_wf fs -> rs ∈ pr_domain pr ->
    (tj3_process argv pr fs).1 !! k <> fs !! k ->
    exists right, right ∈ rights_of (fs !! k) ((tj3_process argv pr fs).1 !! k) /\
      permits rs (covers fs (place_of right k)) right;
  (** What is written to [/dev/null] is gone. *)
  null_device argv pr fs q k s s' : namei server_cwd fs true dev_null = Some q -> q `prefix_of` k ->
    fs !! k = Some (File s) -> (tj3_process argv pr fs).1 !! k = Some (File s') -> s' = s
}.

(** ** Confined to the staging directory *)

Lemma prefix_parent (p k : fpath) : p `prefix_of` parent k -> p `prefix_of` k.
Proof. intros H. transitivity (parent k); [done|]. apply prefix_take. Qed.

Lemma not_prefix_parent (p : fpath) : p <> [] -> ~ p `prefix_of` parent p.
Proof.
  intros Hp Hl%prefix_length. unfold parent in Hl. rewrite length_take in Hl. destruct p; [done|]. cbn in Hl. lia.
Qed.

(** Every right of a change is a write right or truncating. *)
Lemma rights_of_write b a right : right ∈ rights_of b a ->
  right ∈ write_rights \/ right = LANDLOCK_ACCESS_FS_TRUNCATE /\ exists s s', b = Some (File s) /\ a = Some (File s').
Proof.
  intros Hr. assert (H : right = LANDLOCK_ACCESS_FS_TRUNCATE /\ (exists s s', b = Some (File s) /\ a = Some (File s')) \/
    bool_decide (right ∈ write_rights) = true).
  { destruct b as [[|s|t]|], a as [[|s'|t']|]; cbn in Hr;
      repeat (apply elem_of_cons in Hr as [->|Hr]; [first [right; by vm_compute|left; split; [done|by do 2 eexists]]|]);
      by apply elem_of_nil in Hr. }
  destruct H as [H|H]; [by right|left; by apply bool_decide_eq_true in H].
Qed.

Lemma write_file_change b a : LANDLOCK_ACCESS_FS_WRITE_FILE ∈ rights_of b a ->
  exists s s', b = Some (File s) /\ a = Some (File s').
Proof.
  intros Hr. destruct b as [[|s|t]|], a as [[|s'|t']|]; cbn in Hr; try (by do 2 eexists);
    repeat (apply elem_of_cons in Hr as [Hr|Hr]; [discriminate Hr|]); by apply elem_of_nil in Hr.
Qed.

(** A confined process changes nothing but what is beneath its directory. *)
Lemma confined_changes `{Tj3Laws} argv pr fs tmpdir p abi k : fs_wf fs -> p <> [] -> fs !! p = Some Dir ->
  namei server_cwd fs true tmpdir = Some p -> confinement abi tmpdir ∈ pr_domain pr -> (3 <= abi)%Z ->
  (tj3_process argv pr fs).1 !! k <> fs !! k -> p `prefix_of` k /\ k <> p.
Proof.
  intros Hwf Hpne Hp Hn Hd Habi Hne. destruct (landlock argv pr fs k _ Hwf Hd Hne) as (right & Hr & Hper).
  assert (Hcov : covers fs (place_of right k) tmpdir).
  { destruct (rights_of_write _ _ _ Hr) as [Hw|[-> _]].
    - apply confinement_permits in Hper as [?|[-> (q & Hq & Hpre)]]; [done| |done]. exfalso.
      destruct (write_file_change _ _ Hr) as (s & s' & Hs & Hs'). rewrite Hs, Hs' in Hne. apply Hne. do 2 f_equal.
      by apply (null_device argv pr fs q k).
    - apply confinement_truncate in Hper as [?|?]; [lia|done]. }
  destruct Hcov as (q & Hq & Hpre). rewrite Hn in Hq. injection Hq as <-.
  assert (Hk : k <> p).
  { intros ->. rewrite Hp in Hr. apply list_elem_of_singleton in Hr as ->. by apply not_prefix_parent in Hpre. }
  split; [|done]. unfold place_of in Hpre. destruct (_ || _); [done|by apply prefix_parent].
Qed.

(** What a child that became tj3 is, started with confinement. *)
Lemma child_confined `{Tj3Laws} tmpdir argv argv' :
  (exec child_kernel [] (run_tj3 realloc_ok tmpdir argv true)).1 = Replaced argv' ->
  argv' = argv /\ confinement (landlock_abi child_kernel) tmpdir
    ∈ pr_domain (after (exec child_kernel [] (run_tj3 realloc_ok tmpdir argv true)).2).
Proof.
  intros Hc.
  pose proof (wp_exec _ child_kernel child_posix _ [] (run_tj3_wp realloc_ok _ tmpdir argv true (after [])
    ltac:(by eexists) ltac:(by eexists))) as Ho.
  rewrite Hc in Ho. destruct Ho as [-> (_ & _ & _ & _ & _ & _ & Hd)]. split; [done|]. rewrite Hd. left.
Qed.

(** After a confined run the tree has at most grown in the staging directory. *)
Lemma run_child_grown `{Tj3Laws} fs0 fs tmpdir p argv : fresh_place server_cwd fs0 tmpdir p -> grown fs0 p fs ->
  (3 <= landlock_abi child_kernel)%Z -> grown fs0 p (run_child fs tmpdir argv true).1.
Proof.
  intros Hf Hg Habi. unfold run_child.
  destruct (exec child_kernel [] (run_tj3 realloc_ok tmpdir argv true)).1 as [r|argv'|code] eqn:Hc;
    [by destruct (forked _)| |by destruct (forked _)].
  apply child_confined in Hc as [_ Hd]. set (pr := after _) in *.
  pose proof (tj3_tree argv' pr fs) as Htree. pose proof (confined_changes argv' pr fs tmpdir p) as Hch.
  destruct (tj3_process argv' pr fs) as [fs' pieces]. cbn [fst] in *. destruct (forked _); [|done].
  destruct Hg as (Hwf & Hp & Hout).
  assert (Hpne : p <> []) by (intros ->; destruct Hf as ([Hr _] & _ & _ & Hn); congruence).
  assert (Hn : namei server_cwd fs true tmpdir = Some p).
  { pose proof (namei_below server_cwd fs0 tmpdir p Hf fs [] true) as Hb. rewrite below_nil, app_nil_r in Hb.
    apply Hb; [by split_and!|constructor|by intros [|] [|]|right; congruence]. }
  assert (Hkeep : forall k, ~ (p `prefix_of` k /\ k <> p) -> fs' !! k = fs !! k).
  { intros k Hk. destruct (decide (fs' !! k = fs !! k)) as [|Hne]; [done|]. destruct Hk. by eapply Hch. }
  split_and!; [by apply Htree|rewrite Hkeep by (by intros [_ ?]); done|].
  intros k Hk. rewrite Hkeep; [by apply Hout|]. by intros [? _].
Qed.

(** The kernel refuses nothing the cleanup asks for in the new directory: it has
    descriptors for [opendir], paths are not too long, and tj3 took no rights
    away. *)
Definition cleanup_permitted `{Tj3Env} (fs : fsys) : Prop :=
  forall tmpdir fs1 fs' q, mkdtemp fs = Some (tmpdir, fs1) ->
    may_list fs' (below tmpdir q) = true /\ may_remove fs' (below tmpdir q) = true.

(** What a full run does to the file system up to the cleanup. *)
Lemma run_to_cleanup `{Tj3Laws} fs ws i out :
  let ms := assign_member_relpaths (collect_project_members ws i) in
  fs_wf fs -> can_sandbox = true -> (3 <= landlock_abi child_kernel)%Z ->
  Forall (fun m => plain_path (m_relpath m)) ms -> no_clash ms ->
  (tj3_collect_project fs ws i TJ3_FULL out).1 = fs \/
  exists tmpdir p fs3, mkdtemp fs = Some (tmpdir, <[p := Dir]> fs) /\ fresh_place server_cwd fs tmpdir p /\ grown fs p fs3 /\
    (tj3_collect_project fs ws i TJ3_FULL out).1 = remove_recursive server_cwd may_list may_remove (S (tree_height fs3)) fs3 tmpdir.
Proof.
  intros ms Hwf Hsb Habi Hpl Hc. unfold tj3_collect_project.
  destruct (tj3_available (-1) =? 0)%Z; [by left|]. destruct (ws_projects ws !! i) as [proj|]; [|by left].
  destruct (List.find _ _) as [root|]; [|by left]. destruct (mkdtemp fs) as [[tmpdir fs1]|] eqn:Hm; [|by left]. right.
  destruct (mkdtemp_fresh fs tmpdir fs1 Hwf Hm) as (p & Hf & ->).
  destruct (stage_spec server_cwd fs tmpdir p Hf ms Hpl Hc) as [Hg _]. fold ms.
  unfold tj3_command. rewrite Hsb. change (bool_decide (TJ3_FULL = TJ3_SYNTAX_ONLY)) with false. cbn iota.
  set (fs2 := stage_members_to_tmpdir _ _ _ _) in *.
  pose proof (run_child_grown fs fs2 tmpdir p [chars "tj3"; m_relpath root] Hf Hg Habi) as Hg3.
  destruct (run_child fs2 tmpdir _ true) as [fs3 errbuf]. cbn [fst] in *. by exists tmpdir, p, fs3.
Qed.

(** C15: Diagnosing a project leaves no trace.  In a full run in which the kernel
    can confine the child, with a version of Landlock (3 or later) that confines
    truncating, over members whose relative paths have only proper names (no
    [..]) and do not stand in each other's way: whatever tj3 does, every entry
    the file system had is still there as it was, and what is new lies in the
    directory [mkdtemp] made; and if the kernel refuses nothing the cleanup asks
    for, that is gone too, with the staged members and the reports of tj3, and
    the file system is exactly as it was. *)
Theorem tj3_leaves_no_trace `{Tj3Laws} fs ws i out :
  let ms := assign_member_relpaths (collect_project_members ws i) in
  fs_wf fs -> can_sandbox = true -> (3 <= landlock_abi child_kernel)%Z ->
  Forall (fun m => plain_path (m_relpath m)) ms -> no_clash ms ->
  let fs' := (tj3_collect_project fs ws i TJ3_FULL out).1 in
  (forall k e, fs !! k = Some e -> fs' !! k = Some e) /\
  (forall k, fs' !! k <> fs !! k -> exists tmpdir p, mkdtemp fs = Some (tmpdir, <[p := Dir]> fs) /\ p `prefix_of` k) /\
  (cleanup_permitted fs -> fs' = fs).
Proof.
  intros ms Hwf Hsb Habi Hpl Hc fs'.
  destruct (run_to_cleanup fs ws i out Hwf Hsb Habi Hpl Hc) as [E|(tmpdir & p & fs3 & Hm & Hf & Hg & E)]; fold fs' in E.
  { rewrite E. by split_and!. }
  assert (Hout : forall k, ~ p `prefix_of` k -> fs' !! k = fs !! k).
  { destruct (remove_shrinks server_cwd fs tmpdir p Hf may_list may_remove (S (tree_height fs3)) fs3 [] Hg) as [_ Hk];
      [constructor|by intros [|] [|]|]. rewrite below_nil, <- E, app_nil_r in Hk. destruct Hg as (_ & _ & Hout).
    intros k Hn. destruct (Hk k) as [->|[? _]]; [by apply Hout|done]. }
  split_and!.
  - intros k e Hk. rewrite Hout; [done|]. intros [r ->]. destruct Hf as (_ & _ & _ & Hn). by rewrite fs_wf_fresh in Hk.
  - intros k Hk. exists tmpdir, p. split; [done|]. destruct (decide (p `prefix_of` k)); [done|]. by rewrite Hout in Hk.
  - intros Hmay. rewrite E, <- (below_nil tmpdir).
    rewrite (remove_spec server_cwd fs tmpdir p Hf may_list may_remove _ (fun fs' q => Hmay tmpdir _ fs' q Hm) fs3 [] Dir); rewrite ?app_nil_r.
    + by apply (prune_grown server_cwd fs tmpdir p).
    + done.
    + constructor.
    + by intros [|] [|].
    + by destruct Hg as (_ & ? & _).
    + intros k e Hk. apply tree_height_spec in Hk. lia.
Qed.

(** The set stays well formed, as the workers require of their tj3. *)
Lemma tj3_nodup `{Tj3Env} fs ws i md out :
  NoDup (uris out) -> NoDup (uris (tj3_collect_project fs ws i md out).2).
Proof.
  intros Hn. unfold tj3_collect_project. repeat case_match; cbn; try done. by apply parse_diagnostics_nodup.
Qed.

(** ** A run *)

(** A tj3 that writes a report beside the project, if it is confined there. *)
Definition report : name := chars "report.html".

Definition reporting_tj3 (argv : list (list ascii)) (pr : Process) (fs : fsys) : fsys * list (list ascii) :=
  match pr_cwd pr with
  | Some dir =>
      match namei [] fs true dir with
      | Some p =>
          if bool_decide (pr_domain pr = [confinement 4 dir]) && bool_decide (fs !! p = Some Dir)
             && bool_decide (fs !! (p ++ [report]) = None)
          then (<[p ++ [report] := File "<html>"]> fs, [chars "main.tjp:3: Warning: late"; [lf]])
          else (fs, [])
      | None => (fs, [])
      end
  | None => (fs, [])
  end.

Definition reporting_env : Tj3Env := mkTj3Env false (Some (chars "/bin:/usr/bin")) (fun _ => true) []
  (fun _ => Some (chars "q1w2e3")) (fun _ _ => true) (fun _ _ => true) (plain_kernel 4 false) (plain_kernel 4 true []) reporting_tj3 (fun _ => true).

Lemma reporting_changes argv pr fs k : (reporting_tj3 argv pr fs).1 !! k <> fs !! k ->
  exists dir p, namei [] fs true dir = Some p /\ pr_domain pr = [confinement 4 dir] /\ fs !! p = Some Dir /\
    k = p ++ [report] /\ fs !! k = None /\ (reporting_tj3 argv pr fs).1 = <[k := File "<html>"]> fs.
Proof.
  unfold reporting_tj3. destruct (pr_cwd pr) as [dir|]; [|done]. destruct (namei [] fs true dir) as [p|] eqn:Hp; [|done].
  destruct (bool_decide _ && _ && _) eqn:E; [|done]. cbn [fst]. intros Hne.
  apply andb_true_iff in E as [[H1%bool_decide_eq_true_1 H2%bool_decide_eq_true_1]%andb_true_iff H3%bool_decide_eq_true_1].
  destruct (decide (k = p ++ [report])) as [->|Hk]; [|by rewrite lookup_insert_ne in Hne].
  exists dir, p. by split_and!.
Qed.

#[local] Instance reporting_laws : @Tj3Laws reporting_env.
Proof.
  split.
  - intros pieces. apply plain_kernel_posix.
  - apply plain_kernel_posix.
  - intros argv pr fs Hwf. cbn. unfold reporting_tj3. destruct (pr_cwd pr) as [dir|]; [|done].
    destruct (namei [] fs true dir) as [p|]; [|done]. destruct (bool_decide _ && _ && _) eqn:E; [|done]. cbn [fst].
    apply andb_true_iff in E as [[_ Hp%bool_decide_eq_true_1]%andb_true_iff Hn%bool_decide_eq_true_1].
    apply fs_wf_insert; [done|by apply (bool_decide_unpack _); vm_compute|done|left; congruence].
  - intros argv pr fs k rs Hwf Hrs Hne. cbn in *.
    destruct (reporting_changes _ _ _ _ Hne) as (dir & p & Hp & Hd & _ & Hk & Hn & Heq).
    rewrite Heq, Hn, lookup_insert_eq. exists LANDLOCK_ACCESS_FS_MAKE_REG. split; [left|].
    rewrite Hd in Hrs. apply list_elem_of_singleton in Hrs as ->. apply confinement_permits.
    { apply (bool_decide_eq_true_1 _). by vm_compute. }
    left. exists p. split; [done|]. rewrite Hk. unfold place_of. cbn.
    unfold parent. rewrite length_app, Nat.add_1_r. cbn [pred]. by rewrite take_app_length.
  - intros argv pr fs q k s s' _ _ Hs Hs'. cbn in *.
    destruct (decide ((reporting_tj3 argv pr fs).1 !! k = fs !! k)) as [He|Hne]; [rewrite He in Hs'; congruence|].
    apply reporting_changes in Hne as (_ & _ & _ & _ & _ & _ & Hn & _). congruence.
Qed.

Definition sample_doc (uri text : string) : ws_doc :=
  mkWsDoc (Some (mkDocSnapshot 0 uri text tj_node_new [] [] 0)) empty_prefix_set 0 false.

Definition sample_ws : workspace_snapshot :=
  mkWs [sample_doc "file:///w/p/main.tjp" "include"; sample_doc "file:///w/p/lib/team.tji" "resource"]
    [mkWsProject (Some "file:///w/p/main.tjp"%string) empty_project_root false] 0.

Lemma tj3_leaves_no_trace_witness :
  let r := @tj3_collect_project reporting_env sample_fs sample_ws 0 TJ3_FULL [] in
  r.1 = sample_fs /\
  map (fun f => (fst f, map dg_message (snd f))) r.2 = [("file:///w/p/main.tjp", ["late"])]%string.
Proof.
  intros r. split; [|by vm_compute].
  refine (proj2 (proj2 (tj3_leaves_no_trace (H := reporting_env) sample_fs sample_ws 0 [] _ _ _ _ _)) _).
  - apply sample_fs_wf.
  - by vm_compute.
  - by vm_compute.
  - apply plain_paths_dec. by vm_compute.
  - apply clash_free_spec. by vm_compute.
  - done.
Defined.
