(* ===== verification/Arena.v ===== *)
(** * [arena.c]: the append-only arena.

    The blocks of the list from [head], each with the bytes written to it; a
    pointer is a block (numbered in the order of allocation) and an offset.
    Sizes are [size_t]; [malloc] is the environment.  The theorem is about any
    history of allocations, strings and stores by the clients. *)

From S2P Require Import Prelude CText.
Local Open Scope Z_scope.

(** ** Blocks and pointers *)

(** [size_t] arithmetic, and the largest size of an object. *)
Definition size_t (z : Z) : Z := z mod 18446744073709551616.
Definition PTRDIFF_MAX : Z := 9223372036854775807.

Definition ARENA_BLOCK_SIZE : Z := 64 * 1024.

(** [sizeof (arena_block)]: a pointer and two sizes. *)
Definition HEADER_SIZE : Z := 24.

Record arena_block : Set := mkBlock { blk_used : Z; blk_cap : Z; blk_data : gmap Z ascii }.

(** The list from [head] along [next]. *)
Abbreviation str_arena := (list arena_block).

Record ptr : Set := mkPtr { p_block : nat; p_off : Z }.

(** The block with a number: the oldest one is number 0. *)
Fixpoint block (a : str_arena) (k : nat) : option arena_block :=
  match a with
  | [] => None
  | b :: next => if bool_decide (k = length next) then Some b else block next k
  end.

Fixpoint set_byte (a : str_arena) (k : nat) (off : Z) (c : ascii) : str_arena :=
  match a with
  | [] => []
  | b :: next =>
      if bool_decide (k = length next)
      then mkBlock (blk_used b) (blk_cap b) (<[off := c]> (blk_data b)) :: next
      else b :: set_byte next k off c
  end.

(** [memcpy] of bytes to consecutive offsets. *)
Fixpoint put_bytes (d : gmap Z ascii) (off : Z) (cs : list ascii) : gmap Z ascii :=
  match cs with
  | [] => d
  | c :: cs' => put_bytes (<[off := c]> d) (off + 1) cs'
  end.

(** The [n] bytes from an offset, if all of them were written. *)
Fixpoint get_bytes (d : gmap Z ascii) (off : Z) (n : nat) : option (list ascii) :=
  match n with
  | O => Some []
  | S n' => c ← d !! off; cons c <$> get_bytes d (off + 1) n'
  end.

(** ** Operations *)

Section Arena.
(** Whether [malloc] of a size succeeds; the process ends if not ([None]). *)
Context (malloc_ok : Z -> bool).

Definition arena_new : str_arena := [].

Definition arena_grow (a : str_arena) (need : Z) : option str_arena :=
  let cap := if need >? ARENA_BLOCK_SIZE then need else ARENA_BLOCK_SIZE in
  if malloc_ok (size_t (HEADER_SIZE + cap)) then Some (mkBlock 0 cap ∅ :: a) else None.

(** [(used + 7u) & ~(size_t) 7u]. *)
Definition round_up8 (used : Z) : Z := Z.ldiff (size_t (used + 7)) 7.

(** Moves the bump pointer of the newest block. *)
Definition bump (a : str_arena) (off len : Z) : option (ptr * str_arena) :=
  match a with
  | [] => None
  | b :: next => Some (mkPtr (length next) off, mkBlock (size_t (off + len)) (blk_cap b) (blk_data b) :: next)
  end.

Definition arena_alloc (a : str_arena) (n : Z) : option (ptr * str_arena) :=
  match a with
  | b :: _ =>
      let off := round_up8 (blk_used b) in
      if size_t (off + n) >? blk_cap b then arena_grow a n ≫= fun a => bump a 0 n
      else bump a off n
  | [] => arena_grow a n ≫= fun a => bump a 0 n
  end.

(** Copies [len] bytes and the NUL to the bump pointer. *)
Definition intern (a : str_arena) (s : list ascii) : option (ptr * str_arena) :=
  match a with
  | [] => None
  | b :: next =>
      Some (mkPtr (length next) (blk_used b),
            mkBlock (size_t (blk_used b + size_t (Z.of_nat (length s) + 1))) (blk_cap b)
              (put_bytes (blk_data b) (blk_used b) (s ++ [nul])) :: next)
  end.

(** [arena_strndup (a, s, len)], [s] being the [len] bytes. *)
Definition arena_strndup (a : str_arena) (s : list ascii) : option (ptr * str_arena) :=
  let need := size_t (Z.of_nat (length s) + 1) in
  match a with
  | b :: _ => if size_t (blk_cap b - blk_used b) <? need then arena_grow a need ≫= fun a => intern a s
              else intern a s
  | [] => arena_grow a need ≫= fun a => intern a s
  end.

(** The blocks passed to [free], in order. *)
Fixpoint arena_free (a : str_arena) : list nat :=
  match a with
  | [] => []
  | _ :: next => length next :: arena_free next
  end.

(** ** A history of an arena *)

(** What clients do: allocate, intern, store a byte in a region they
    allocated.  Interned strings are not written to. *)
Inductive arena_op : Set :=
  | Op_alloc (n : Z)
  | Op_strndup (s : list ascii)
  | Op_store (region : nat) (i : Z) (c : ascii).

(** A region handed out; [Some] text if it was interned. *)
Record region : Set := mkRegion { r_ptr : ptr; r_len : Z; r_text : option (list ascii) }.

Definition arena_step (st : str_arena * list region) (op : arena_op) : option (str_arena * list region) :=
  let '(a, rs) := st in
  match op with
  | Op_alloc n => '(p, a') ← arena_alloc a n; Some (a', rs ++ [mkRegion p n None])
  | Op_strndup s =>
      '(p, a') ← arena_strndup a s; Some (a', rs ++ [mkRegion p (Z.of_nat (length s) + 1) (Some s)])
  | Op_store k i c =>
      r ← rs !! k;
      if bool_decide (r_text r = None) && (0 <=? i) && (i <? r_len r)
      then Some (set_byte a (p_block (r_ptr r)) (p_off (r_ptr r) + i) c, rs) else None
  end.

Fixpoint arena_run (st : str_arena * list region) (ops : list arena_op) : option (str_arena * list region) :=
  match ops with
  | [] => Some st
  | op :: ops' => st' ← arena_step st op; arena_run st' ops'
  end.

(** Sizes of objects that can exist. *)
Definition op_ok (op : arena_op) : Prop :=
  match op with
  | Op_alloc n => 0 <= n <= PTRDIFF_MAX
  | Op_strndup s => Z.of_nat (length s) < PTRDIFF_MAX
  | Op_store _ _ _ => True
  end.
End Arena.

(** ** Invariant *)

Definition block_ok (b : arena_block) : Prop := 0 <= blk_used b <= blk_cap b /\ HEADER_SIZE + blk_cap b <= PTRDIFF_MAX.

(** The region lies in the used part of its block; the text of an interned
    region is there with its NUL; an allocated one is aligned. *)
Definition region_ok (a : str_arena) (r : region) : Prop :=
  exists b, block a (p_block (r_ptr r)) = Some b /\ 0 <= p_off (r_ptr r) /\ 0 <= r_len r /\
    p_off (r_ptr r) + r_len r <= blk_used b /\
    match r_text r with
    | Some s => r_len r = Z.of_nat (length s) + 1 /\
                get_bytes (blk_data b) (p_off (r_ptr r)) (S (length s)) = Some (s ++ [nul])
    | None => p_off (r_ptr r) mod 8 = 0
    end.

Definition disjoint (r1 r2 : region) : Prop :=
  p_block (r_ptr r1) = p_block (r_ptr r2) ->
  p_off (r_ptr r1) + r_len r1 <= p_off (r_ptr r2) \/ p_off (r_ptr r2) + r_len r2 <= p_off (r_ptr r1).

Definition pairwise_disjoint (rs : list region) : Prop :=
  forall i j ri rj, rs !! i = Some ri -> rs !! j = Some rj -> i <> j -> disjoint ri rj.

Definition arena_ok (st : str_arena * list region) : Prop :=
  Forall block_ok st.1 /\ Forall (region_ok st.1) st.2 /\ pairwise_disjoint st.2.

(** ** Blocks *)

Lemma block_lt a k b : block a k = Some b -> (k < length a)%nat.
Proof.
  induction a as [|b0 a IH]; [done|]. cbn. case_bool_decide as E; [intros; lia|]. intros H. apply IH in H. lia.
Qed.

Lemma block_old b a k : (k < length a)%nat -> block (b :: a) k = block a k.
Proof. intros H. cbn. case_bool_decide; [lia|done]. Qed.

Lemma block_head b a : block (b :: a) (length a) = Some b.
Proof. cbn. by case_bool_decide. Qed.

Lemma block_elem a k b : block a k = Some b -> b ∈ a.
Proof.
  induction a as [|b0 a IH]; [done|]. cbn. case_bool_decide.
  - intros [= ->]. by left.
  - intros ?. right. auto.
Qed.

Lemma arena_free_all a : arena_free a = reverse (seq 0 (length a)).
Proof.
  induction a as [|b a IH]; [done|]. cbn [arena_free length]. by rewrite IH, seq_S, reverse_snoc.
Qed.

(** ** Bytes *)

Lemma put_bytes_other d off cs o :
  o < off \/ off + Z.of_nat (length cs) <= o -> put_bytes d off cs !! o = d !! o.
Proof.
  revert d off. induction cs as [|c cs IH]; intros d off H; [done|]. cbn in *.
  rewrite IH by lia. apply lookup_insert_ne. lia.
Qed.

Lemma get_bytes_agree d d' off n :
  (forall o, off <= o < off + Z.of_nat n -> d !! o = d' !! o) -> get_bytes d off n = get_bytes d' off n.
Proof.
  revert off. induction n as [|n IH]; intros off H; [done|]. cbn.
  rewrite (H off) by lia. rewrite (IH (off + 1)); [done|]. intros. apply H. lia.
Qed.

Lemma get_put_bytes d off cs : get_bytes (put_bytes d off cs) off (length cs) = Some cs.
Proof.
  revert d off. induction cs as [|c cs IH]; intros d off; [done|]. cbn.
  rewrite put_bytes_other by lia. rewrite lookup_insert_eq. cbn. by rewrite IH.
Qed.

Lemma size_t_id z : 0 <= z < 18446744073709551616 -> size_t z = z.
Proof. apply Z.mod_small. Qed.

Lemma round_up8_spec u : 0 <= u <= PTRDIFF_MAX ->
  u <= round_up8 u < u + 8 /\ round_up8 u mod 8 = 0.
Proof.
  unfold PTRDIFF_MAX, round_up8. intros H. rewrite size_t_id by lia.
  change 7 with (Z.ones 3) at 2 4 6. rewrite Z.ldiff_ones_r by lia.
  rewrite Z.shiftl_mul_pow2, Z.shiftr_div_pow2 by lia. change (2 ^ 3) with 8.
  split; [|apply Z.mod_mul; lia]. pose proof (Z.div_mod (u + 7) 8). pose proof (Z.mod_pos_bound (u + 7) 8). lia.
Qed.

(** ** Growth: what a later arena keeps of an earlier one *)

Definition extends (a a' : str_arena) : Prop :=
  forall k b, block a k = Some b -> exists b', block a' k = Some b' /\ blk_used b <= blk_used b' /\
    forall o, o < blk_used b -> blk_data b' !! o = blk_data b !! o.

Lemma arena_extends_refl a : extends a a.
Proof. intros k b ?. by exists b. Qed.

Lemma arena_extends_trans a1 a2 a3 : extends a1 a2 -> extends a2 a3 -> extends a1 a3.
Proof.
  intros H12 H23 k b1 (b2 & H2 & U2 & D2)%H12. destruct (H23 _ _ H2) as (b3 & H3 & U3 & D3).
  exists b3. split_and!; [done|lia|]. intros o Ho. rewrite D3 by lia. by apply D2.
Qed.

Lemma extends_push a b : extends a (b :: a).
Proof. intros k b' H. exists b'. rewrite block_old by eauto using block_lt. done. Qed.

Lemma extends_head a b b' :
  blk_used b <= blk_used b' -> (forall o, o < blk_used b -> blk_data b' !! o = blk_data b !! o) ->
  extends (b :: a) (b' :: a).
Proof.
  intros Hu Hd k c. cbn. case_bool_decide; [intros [= <-]; eauto|intros ?; by exists c].
Qed.

Lemma region_ok_extends a a' r : extends a a' -> region_ok a r -> region_ok a' r.
Proof.
  intros He (b & (b' & Hb' & Hu & Hd)%He & Ho & Hl & Hin & Ht). exists b'. split_and!; try done; [lia|].
  destruct (r_text r) as [s|]; [|done]. destruct Ht as [El Hg]. split; [done|]. rewrite <- Hg.
  apply get_bytes_agree. intros o Hr. apply Hd. lia.
Qed.

(** The pointer lies behind everything used so far in its block. *)
Definition fresh_ptr (a : str_arena) (p : ptr) : Prop :=
  forall b, block a (p_block p) = Some b -> blk_used b <= p_off p.

(** What both allocators guarantee. *)
Definition carved (a a' : str_arena) (r : region) : Prop :=
  Forall block_ok a' /\ extends a a' /\ region_ok a' r /\ fresh_ptr a (r_ptr r).

(** A region handed out joins the others. *)
Lemma carved_ok a a' rs r : arena_ok (a, rs) -> carved a a' r -> arena_ok (a', rs ++ [r]).
Proof.
  intros (_ & Hr & Hd) (Hb' & He & Hok & Hf). split_and!; cbn in *; [done| |].
  - apply Forall_app_2; [|by constructor]. eapply Forall_impl; [done|]. intros. by eapply region_ok_extends.
  - assert (Hold : forall i ri, rs !! i = Some ri -> disjoint ri r).
    { intros i ri Hi E. left. pose proof (proj1 (Forall_lookup _ _) Hr _ _ Hi) as (b & Hb & _ & _ & Hin & _).
      rewrite E in Hb. specialize (Hf _ Hb). lia. }
    intros i j ri rj [[_ Hi]|[-> ->]]%lookup_snoc_Some [[_ Hj]|[-> ->]]%lookup_snoc_Some Hij; [by eapply Hd|eauto| |done].
    intros E. pose proof (Hold _ _ Hj (eq_sym E)). tauto.
Qed.

Section Allocators.
Context (malloc_ok : Z -> bool).
(** [malloc] refuses sizes no object can have. *)
Hypothesis malloc_bound : forall z, malloc_ok z = true -> z <= PTRDIFF_MAX.

Lemma arena_grow_spec a need a' :
  0 <= need <= PTRDIFF_MAX + 1 -> arena_grow malloc_ok a need = Some a' ->
  exists cap, a' = mkBlock 0 cap ∅ :: a /\ 0 <= cap /\ need <= cap /\ HEADER_SIZE + cap <= PTRDIFF_MAX.
Proof.
  unfold arena_grow. intros Hn H. destruct (malloc_ok _) eqn:E; [|done]. injection H as <-.
  apply malloc_bound in E. unfold ARENA_BLOCK_SIZE, HEADER_SIZE, PTRDIFF_MAX in *.
  eexists. split; [done|]. rewrite size_t_id in E; destruct (Z.gtb_spec need (64 * 1024)); lia.
Qed.

(** Moving the bump pointer of a block with room. *)
Lemma bump_carved a0 b a off n p a' :
  Forall block_ok (b :: a) -> extends a0 (b :: a) ->
  (forall b0, block a0 (length a) = Some b0 -> blk_used b0 <= off) ->
  blk_used b <= off -> off mod 8 = 0 -> 0 <= n -> off + n <= blk_cap b ->
  bump (b :: a) off n = Some (p, a') -> carved a0 a' (mkRegion p n None).
Proof.
  intros [Hb Ha]%Forall_cons He Hf Hu H8 Hn Hc [= <- <-].
  destruct Hb as [Hb1 Hb2]. unfold PTRDIFF_MAX, HEADER_SIZE in *. rewrite size_t_id by lia.
  split_and!; [|by eapply arena_extends_trans, extends_head; [done|cbn; lia|done]| |done].
  - constructor; [|done]. split; cbn; unfold PTRDIFF_MAX, HEADER_SIZE; lia.
  - exists (mkBlock (off + n) (blk_cap b) (blk_data b)). cbn [r_ptr p_block]. rewrite block_head.
    split_and!; cbn; (done || lia).
Qed.

Lemma arena_alloc_carved a n p a' :
  Forall block_ok a -> 0 <= n <= PTRDIFF_MAX -> arena_alloc malloc_ok a n = Some (p, a') ->
  carved a a' (mkRegion p n None).
Proof.
  intros Ha Hn. assert (Hgrow : arena_grow malloc_ok a n ≫= (fun a => bump a 0 n) = Some (p, a') ->
                               carved a a' (mkRegion p n None)).
  { destruct (arena_grow malloc_ok a n) as [a1|] eqn:E; [|done]. cbn [mbind option_bind].
    apply arena_grow_spec in E as (cap & -> & H0 & Hc & Hm); [|lia].
    apply bump_carved; cbn; try done; try lia.
    - constructor; [|done]. split; cbn; lia.
    - apply extends_push.
    - intros b0 Hb0%block_lt. lia. }
  unfold arena_alloc. destruct a as [|b a]; [done|]. pose proof Ha as [Hb _]%Forall_cons. destruct Hb as [Hb1 Hb2].
  unfold PTRDIFF_MAX, HEADER_SIZE in *.
  pose proof (round_up8_spec (blk_used b)) as [Hr H8]; [unfold PTRDIFF_MAX; lia|].
  rewrite size_t_id by lia. destruct (Z.gtb_spec (round_up8 (blk_used b) + n) (blk_cap b)); [done|]. apply bump_carved; try done; try lia.
  - apply arena_extends_refl.
  - intros b0. rewrite block_head. intros [= <-]. lia.
Qed.

(** Interning into a block with room. *)
Lemma intern_carved a0 b a s p a' :
  Forall block_ok (b :: a) -> extends a0 (b :: a) ->
  (forall b0, block a0 (length a) = Some b0 -> blk_used b0 <= blk_used b) ->
  Z.of_nat (length s) < PTRDIFF_MAX -> blk_used b + Z.of_nat (length s) + 1 <= blk_cap b ->
  intern (b :: a) s = Some (p, a') -> carved a0 a' (mkRegion p (Z.of_nat (length s) + 1) (Some s)).
Proof.
  intros [Hb Ha]%Forall_cons He Hf Hs Hc [= <- <-].
  destruct Hb as [Hb1 Hb2]. unfold PTRDIFF_MAX, HEADER_SIZE in *.
  rewrite (size_t_id (_ + 1)) by lia. rewrite size_t_id by lia.
  split_and!; [| | |done].
  - constructor; [|done]. split; cbn; unfold PTRDIFF_MAX, HEADER_SIZE; lia.
  - eapply arena_extends_trans; [done|]. apply extends_head; cbn; [lia|]. intros. apply put_bytes_other. lia.
  - eexists. cbn [r_ptr p_block]. rewrite block_head. split; [done|]. cbn [r_ptr p_off r_len r_text blk_used blk_data].
    split_and!; try (done || lia). replace (S (length s)) with (length (s ++ [nul])) by (rewrite length_app; cbn; lia).
    apply get_put_bytes.
Qed.

Lemma arena_strndup_carved a s p a' :
  Forall block_ok a -> Z.of_nat (length s) < PTRDIFF_MAX -> arena_strndup malloc_ok a s = Some (p, a') ->
  carved a a' (mkRegion p (Z.of_nat (length s) + 1) (Some s)).
Proof.
  intros Ha Hs. unfold arena_strndup. unfold PTRDIFF_MAX in Hs. rewrite (size_t_id (_ + 1)) by lia.
  assert (Hgrow : arena_grow malloc_ok a (Z.of_nat (length s) + 1) ≫= (fun a => intern a s) = Some (p, a') ->
                  carved a a' (mkRegion p (Z.of_nat (length s) + 1) (Some s))).
  { destruct (arena_grow malloc_ok a _) as [a1|] eqn:E; [|done]. cbn [mbind option_bind].
    apply arena_grow_spec in E as (cap & -> & H0 & Hc & Hm); [|unfold PTRDIFF_MAX; lia].
    apply intern_carved; cbn; try done; try (unfold PTRDIFF_MAX; lia).
    - constructor; [|done]. split; cbn; lia.
    - apply extends_push.
    - intros b0 Hb0%block_lt. lia. }
  destruct a as [|b a]; [done|]. pose proof Ha as [Hb _]%Forall_cons. destruct Hb as [Hb1 Hb2].
  unfold PTRDIFF_MAX, HEADER_SIZE in Hb2. rewrite size_t_id by lia. destruct (Z.ltb_spec (blk_cap b - blk_used b) (Z.of_nat (length s) + 1)); [done|].
  apply intern_carved; try done; try lia.
  - apply arena_extends_refl.
  - intros b0. rewrite block_head. intros [= <-]. lia.
Qed.
End Allocators.

(** ** Stores *)

Lemma length_set_byte a k off c : length (set_byte a k off c) = length a.
Proof. induction a as [|b a IH]; [done|]. cbn. case_bool_decide; cbn; lia. Qed.

Lemma block_set_byte a k off c j :
  block (set_byte a k off c) j
  = (fun b => if bool_decide (j = k) then mkBlock (blk_used b) (blk_cap b) (<[off := c]> (blk_data b)) else b)
      <$> block a j.
Proof.
  induction a as [|b a IH]; [done|].
  destruct (decide (j = length a)) as [->|Hj]; destruct (decide (k = length a)) as [->|Hk]; cbn;
    rewrite ?length_set_byte, ?bool_decide_true, ?bool_decide_false by done; cbn;
    rewrite ?length_set_byte, ?bool_decide_true, ?bool_decide_false by done; try done.
  by destruct (block a j).
Qed.

Lemma set_byte_block_ok a k off c : Forall block_ok a -> Forall block_ok (set_byte a k off c).
Proof.
  induction 1 as [|b a Hb Ha IH]; [constructor|]. cbn. case_bool_decide; by constructor.
Qed.

Lemma store_ok a rs k r i c :
  arena_ok (a, rs) -> rs !! k = Some r -> r_text r = None -> 0 <= i < r_len r ->
  arena_ok (set_byte a (p_block (r_ptr r)) (p_off (r_ptr r) + i) c, rs).
Proof.
  intros (Hb & Hr & Hd) Hk Ht Hi. split_and!; cbn in *; [by apply set_byte_block_ok| |done].
  apply Forall_lookup. intros j r' Hj. pose proof (proj1 (Forall_lookup _ _) Hr _ _ Hj) as (b & Eb & Ho & Hl & Hin & Htx).
  eexists. rewrite block_set_byte, Eb. split; [done|]. case_bool_decide as E; [|done]. cbn [blk_used blk_data]. split_and!; try done.
  destruct (r_text r') as [s|] eqn:Er; [|done]. destruct Htx as [El Hg]. split; [done|]. rewrite <- Hg.
  apply get_bytes_agree. intros o Hrange. apply lookup_insert_ne.
  assert (Hdis : disjoint r' r) by (eapply Hd; [done..|congruence]). specialize (Hdis E). lia.
Qed.

(** ** Theorem *)

(** C36: What the arena hands out stays valid.  After any history of
    allocations, strings and stores, and whatever sizes were asked for up to the
    largest possible object: every region lies inside the block it was carved
    from, no two overlap, those of [arena_alloc] are aligned to 8 bytes, every
    interned string still reads back with its terminating NUL, and freeing the
    arena passes each of its blocks to [free] exactly once. *)
Theorem arena_regions_valid malloc_ok ops a rs :
  (forall z, malloc_ok z = true -> z <= PTRDIFF_MAX) -> Forall op_ok ops ->
  arena_run malloc_ok (arena_new, []) ops = Some (a, rs) ->
  (forall r, r ∈ rs -> exists b, block a (p_block (r_ptr r)) = Some b /\
     0 <= p_off (r_ptr r) /\ p_off (r_ptr r) + r_len r <= blk_cap b /\
     match r_text r with
     | Some s => get_bytes (blk_data b) (p_off (r_ptr r)) (S (length s)) = Some (s ++ [nul])
     | None => p_off (r_ptr r) mod 8 = 0
     end) /\
  pairwise_disjoint rs /\ arena_free a ≡ₚ seq 0 (length a).
Proof.
  intros Hm Hops Hrun. assert (Hok : arena_ok (a, rs)).
  { revert Hrun. assert (H0 : arena_ok (arena_new, [])) by (split_and!; by (constructor || intros ?)).
    revert H0. generalize (arena_new, @nil region) as st.
    induction Hops as [|op ops Hop Hops IH]; intros [a0 rs0] H0; cbn [arena_run]; [by intros [= <- <-]|].
    destruct (arena_step malloc_ok (a0, rs0) op) as [st'|] eqn:E; [|done]. intros Hrun. revert Hrun. apply IH.
    pose proof (proj1 H0) as Hb. destruct op as [n|s|k i c]; cbn [arena_step op_ok] in *.
    - destruct (arena_alloc malloc_ok a0 n) as [[p a']|] eqn:Ea; [|done]. injection E as <-.
      eapply carved_ok; [done|]. by eapply arena_alloc_carved.
    - destruct (arena_strndup malloc_ok a0 s) as [[p a']|] eqn:Ea; [|done]. injection E as <-.
      eapply carved_ok; [done|]. by eapply arena_strndup_carved.
    - destruct (rs0 !! k) as [r|] eqn:Ek; [|done]. cbn in E.
      destruct (bool_decide (r_text r = None)) eqn:Et; [apply bool_decide_eq_true in Et|done].
      destruct (Z.leb_spec 0 i); [|done]. destruct (Z.ltb_spec i (r_len r)); [|done]. injection E as <-.
      by eapply store_ok. }
  destruct Hok as (Hb & Hr & Hd). split_and!; [|done|rewrite arena_free_all; apply reverse_Permutation].
  intros r Hin. pose proof (proj1 (Forall_forall _ _) Hr r Hin) as (b & Eb & Ho & Hl & Hu & Ht). exists b.
  pose proof (proj1 (Forall_forall _ _) Hb b (block_elem _ _ _ Eb)) as [Hb1 Hb2].
  split_and!; [done|done|cbn in *; lia|]. destruct (r_text r); [apply Ht|done].
Qed.

(** A string, an allocation, a store into it and a string too large for the
    rest of the block. *)
Lemma arena_regions_valid_witness : exists a rs,
  arena_run (fun z => z <=? PTRDIFF_MAX) (arena_new, [])
    [Op_strndup ["t"; "1"]%char; Op_alloc 16; Op_store 1 15 "x"%char; Op_alloc 70000; Op_strndup ["q"%char]]
    = Some (a, rs) /\
  length a = 3%nat /\ (r_ptr <$> rs) = [mkPtr 0 0; mkPtr 0 8; mkPtr 1 0; mkPtr 2 0] /\
  pairwise_disjoint rs.
Proof.
  eexists _, _. split; [vm_compute; reflexivity|]. split; [done|]. split; [done|].
  eapply (arena_regions_valid (fun z => z <=? PTRDIFF_MAX)
    [Op_strndup ["t"; "1"]%char; Op_alloc 16; Op_store 1 15 "x"%char; Op_alloc 70000; Op_strndup ["q"%char]]).
  - intros z. apply Z.leb_le.
  - unfold op_ok, PTRDIFF_MAX. repeat constructor; cbn; lia.
  - vm_compute. reflexivity.
Defined.
