(* ===== verification/Snapshots.v ===== *)
(** * Lifetimes: reference counts of snapshots, their token-span buffers and
    memos ([query_context.c], [parser.c], [document_store.c]).

    The other files treat snapshots as values.  Here they are objects of a heap
    with the counts the code keeps, shared by the coordinator, query workers and
    diagnostics workers.  What a thread has still to do is a list of tasks, each
    one atomic access of shared memory; any thread may take the next step. *)

From S2P Require Import Prelude Tokens Syntax SemTokens.
Local Open Scope Z_scope.

(** ** Objects *)

(** A token-span buffer: its usable size in bytes and what was written to it. *)
Record span_buf : Set := mkBuf { sb_size : Z; sb_spans : list TokenSpan }.

(** A [doc_snapshot]; [so_parsed] records the tokens it was created with, which
    the code reads from the buffer. *)
Record snap_obj : Set := mkSnap {
  so_count : Z; so_spans : option nat; so_num_spans : nat;
  so_memo : option (list Z); so_parsed : list TokenSpan
}.

(** A [workspace_snapshot]: its count and the snapshots of its documents. *)
Record ws_obj : Set := mkWs { wo_count : Z; wo_docs : list nat }.

(** The heap, the recycle slot, and the number of memo blocks allocated. *)
Record heap : Set := mkHeap {
  h_snaps : gmap nat snap_obj; h_wss : gmap nat ws_obj; h_bufs : gmap nat span_buf;
  h_recycle : option nat; h_memos : Z
}.

Definition set_snaps (f : gmap nat snap_obj -> gmap nat snap_obj) (h : heap) : heap :=
  mkHeap (f (h_snaps h)) (h_wss h) (h_bufs h) (h_recycle h) (h_memos h).
Definition set_wss (f : gmap nat ws_obj -> gmap nat ws_obj) (h : heap) : heap :=
  mkHeap (h_snaps h) (f (h_wss h)) (h_bufs h) (h_recycle h) (h_memos h).
Definition set_bufs (f : gmap nat span_buf -> gmap nat span_buf) (r : option nat) (h : heap) : heap :=
  mkHeap (h_snaps h) (h_wss h) (f (h_bufs h)) r (h_memos h).
Definition add_memos (n : Z) (h : heap) : heap :=
  mkHeap (h_snaps h) (h_wss h) (h_bufs h) (h_recycle h) (h_memos h + n).

(** What a thread has still to do.  [T_sem_cas s fresh]: between the
    computation of a memo and the compare-exchange that publishes it. *)
Inductive task : Set :=
  | T_release_snap (s : nat) | T_free_snap (s : nat)
  | T_release_ws (w : nat) | T_dealloc_ws (w : nat)
  | T_sem (s : nat) | T_sem_cas (s : nat) (fresh : list Z).

(** ** Token-span buffers *)

Definition TOK_SPANS_RECYCLE_MIN_BYTES : Z := 32 * 1024 * 1024.
Definition SIZEOF_SPAN : Z := 32.

(** The accumulator of the parse in progress: [g_tok_spans],
    [g_num_tok_spans] and [g_tok_span_cap]. *)
Record parse_state : Set := mkParse { ps_buf : option nat; ps_num : nat; ps_cap : Z }.

(** The exchange empties the slot. *)
Definition tok_spans_take (h : heap) : option (parse_state * heap) :=
  match h_recycle h with
  | None => Some (mkParse None 0 0, h)
  | Some b =>
      buf ← h_bufs h !! b;
      Some (mkParse (Some b) 0 (sb_size buf / SIZEOF_SPAN), set_bufs id None h)
  end.

(** Cached if it is large and the slot is empty, freed otherwise. *)
Definition tok_spans_release (b : option nat) (h : heap) : option heap :=
  match b with
  | None => Some h
  | Some b =>
      buf ← h_bufs h !! b;
      if sb_size buf <? TOK_SPANS_RECYCLE_MIN_BYTES then Some (set_bufs (delete b) (h_recycle h) h)
      else match h_recycle h with
           | None => Some (set_bufs id (Some b) h)
           | Some r => Some (set_bufs (delete b) (Some r) h)
           end
  end.

(** [realloc] of the accumulator: the allocator picks the new block [b'] and a
    usable size; [None] if it is in use or too small. *)
Definition grow_spans (b' : nat) (usable : Z) (ps : parse_state) (h : heap) : option (parse_state * heap) :=
  let cap := if ps_cap ps =? 0 then 64 else ps_cap ps * 2 in
  if bool_decide (b' ∈ dom (h_bufs h)) || (usable <? cap * SIZEOF_SPAN) then None
  else match ps_buf ps with
       | None => Some (mkParse (Some b') (ps_num ps) cap, set_bufs <[b' := mkBuf usable []]> (h_recycle h) h)
       | Some b =>
           buf ← h_bufs h !! b;
           Some (mkParse (Some b') (ps_num ps) cap,
                 set_bufs (fun m => <[b' := mkBuf usable (sb_spans buf)]> (delete b m)) (h_recycle h) h)
       end.

(** The store of a token behind the others; [None] if it is out of bounds. *)
Definition store_span (t : TokenSpan) (ps : parse_state) (h : heap) : option (parse_state * heap) :=
  b ← ps_buf ps;
  buf ← h_bufs h !! b;
  if (Z.of_nat (ps_num ps) + 1) * SIZEOF_SPAN <=? sb_size buf
  then Some (mkParse (Some b) (S (ps_num ps)) (ps_cap ps),
             set_bufs <[b := mkBuf (sb_size buf) (take (ps_num ps) (sb_spans buf) ++ [t])]> (h_recycle h) h)
  else None.

Definition push_tok_span (b' : nat) (usable : Z) (t : TokenSpan) (ps : parse_state) (h : heap)
  : option (parse_state * heap) :=
  if Z.of_nat (ps_num ps) >=? ps_cap ps
  then '(ps, h) ← grow_spans b' usable ps h; store_span t ps h
  else store_span t ps h.

(** What a snapshot reads from its buffer. *)
Definition spans_of (h : heap) (b : option nat) (n : nat) : option (list TokenSpan) :=
  match b with
  | None => Some []
  | Some b => (fun buf => take n (sb_spans buf)) <$> h_bufs h !! b
  end.

(** ** Document snapshots *)

(** [docsnap_new] at a fresh address, taking over the buffer. *)
Definition docsnap_new (s : nat) (ps : parse_state) (h : heap) : option heap :=
  parsed ← spans_of h (ps_buf ps) (ps_num ps);
  if bool_decide (s ∈ dom (h_snaps h)) then None
  else Some (set_snaps <[s := mkSnap 1 (ps_buf ps) (ps_num ps) None parsed]> h).

Definition add_count (n : Z) (o : snap_obj) : snap_obj :=
  mkSnap (so_count o + n) (so_spans o) (so_num_spans o) (so_memo o) (so_parsed o).

Definition docsnap_acquire (s : nat) (h : heap) : option heap :=
  o ← h_snaps h !! s; Some (set_snaps <[s := add_count 1 o]> h).

(** The decrement; the thread that brings the count to 0 goes on to free. *)
Definition docsnap_release (s : nat) (h : heap) : option (heap * list task) :=
  o ← h_snaps h !! s;
  Some (set_snaps <[s := add_count (-1) o]> h, if so_count o =? 1 then [T_free_snap s] else []).

(** The rest of [docsnap_release]: its only shared access is the recycle slot. *)
Definition docsnap_free (s : nat) (h : heap) : option heap :=
  o ← h_snaps h !! s;
  h ← tok_spans_release (so_spans o) h;
  Some (add_memos (if so_memo o is Some _ then -1 else 0) (set_snaps (delete s) h)).

(** [docsnap_sem_tokens] up to the computed buffer, and the compare-exchange. *)
Definition sem_load (s : nat) (h : heap) : option ((list Z + list Z) * heap) :=
  o ← h_snaps h !! s;
  match so_memo o with
  | Some data => Some (inl data, h)
  | None =>
      spans ← spans_of h (so_spans o) (so_num_spans o);
      Some (inr (compute_semantic_tokens_data spans), add_memos 1 h)
  end.

Definition sem_cas (s : nat) (fresh : list Z) (h : heap) : option (list Z * heap) :=
  o ← h_snaps h !! s;
  match so_memo o with
  | None =>
      Some (fresh, set_snaps <[s := mkSnap (so_count o) (so_spans o) (so_num_spans o) (Some fresh) (so_parsed o)]> h)
  | Some winner => Some (winner, add_memos (-1) h)
  end.

(** ** Workspace snapshots *)

Definition ws_acquire (w : nat) (h : heap) : option heap :=
  o ← h_wss h !! w; Some (set_wss <[w := mkWs (wo_count o + 1) (wo_docs o)]> h).

Definition ws_release (w : nat) (h : heap) : option (heap * list task) :=
  o ← h_wss h !! w;
  Some (set_wss <[w := mkWs (wo_count o - 1) (wo_docs o)]> h,
        if wo_count o =? 1 then (T_release_snap <$> wo_docs o) ++ [T_dealloc_ws w] else []).

Definition ws_dealloc (w : nat) (h : heap) : option heap :=
  _ ← h_wss h !! w; Some (set_wss (delete w) h).

(** [docsnap_acquire] for every document, as [populate_ws_doc] does. *)
Fixpoint acquire_all (docs : list nat) (h : heap) : option heap :=
  match docs with
  | [] => Some h
  | s :: docs' => h ← docsnap_acquire s h; acquire_all docs' h
  end.

Definition ws_build (w : nat) (docs : list nat) (h : heap) : option heap :=
  h ← acquire_all docs h;
  if bool_decide (w ∈ dom (h_wss h)) then None else Some (set_wss <[w := mkWs 1 docs]> h).

(** ** The system *)

(** The roots that hold references: the document slots ([snap] and
    [prev_snap]), [g_ws], and the snapshots pending at the diagnostics workers;
    the parse in progress; the tasks of the threads, the coordinator first; and
    the semantic-token buffers returned so far, with the tokens they are of. *)
Record system : Set := mkSystem {
  y_heap : heap; y_parse : option parse_state;
  y_slots : list (option nat * option nat); y_ws : option nat; y_pending : list (option nat);
  y_todo : list (list task); y_results : list (list TokenSpan * list Z)
}.

Definition system_init (num_slots num_workers : nat) : system :=
  mkSystem (mkHeap ∅ ∅ ∅ None 0) None (replicate num_slots (None, None)) None (replicate num_workers None) [[]] [].

Definition with_heap (h : heap) (y : system) : system :=
  mkSystem h (y_parse y) (y_slots y) (y_ws y) (y_pending y) (y_todo y) (y_results y).
Definition with_parse (p : option parse_state) (y : system) : system :=
  mkSystem (y_heap y) p (y_slots y) (y_ws y) (y_pending y) (y_todo y) (y_results y).
Definition with_slot (i : nat) (v : option nat * option nat) (y : system) : system :=
  mkSystem (y_heap y) (y_parse y) (<[i := v]> (y_slots y)) (y_ws y) (y_pending y) (y_todo y) (y_results y).
Definition with_ws (w : option nat) (y : system) : system :=
  mkSystem (y_heap y) (y_parse y) (y_slots y) w (y_pending y) (y_todo y) (y_results y).
Definition with_pending (k : nat) (v : option nat) (y : system) : system :=
  mkSystem (y_heap y) (y_parse y) (y_slots y) (y_ws y) (<[k := v]> (y_pending y)) (y_todo y) (y_results y).
Definition with_todo (t : nat) (ts : list task) (y : system) : system :=
  mkSystem (y_heap y) (y_parse y) (y_slots y) (y_ws y) (y_pending y) (<[t := ts]> (y_todo y)) (y_results y).
Definition with_thread (ts : list task) (y : system) : system :=
  mkSystem (y_heap y) (y_parse y) (y_slots y) (y_ws y) (y_pending y) (y_todo y ++ [ts]) (y_results y).
Definition log_result (r : list TokenSpan * list Z) (y : system) : system :=
  mkSystem (y_heap y) (y_parse y) (y_slots y) (y_ws y) (y_pending y) (y_todo y) (y_results y ++ [r]).

(** The coordinator is at work on nothing else. *)
Definition coordinator_idle (y : system) : bool := match y_todo y !! O with Some [] => true | _ => false end.

Definition release_opt (s : option nat) : list task := if s is Some s then [T_release_snap s] else [].
Definition release_ws_opt (w : option nat) : list task := if w is Some w then [T_release_ws w] else [].

(** [parse] begins, reads a token, is abandoned ([parse_output_free]). *)
Definition parse_begin (y : system) : option system :=
  if coordinator_idle y && (if y_parse y is Some _ then false else true)
  then '(ps, h) ← tok_spans_take (y_heap y); Some (with_parse (Some ps) (with_heap h y)) else None.

Definition parse_token (b' : nat) (usable : Z) (t : TokenSpan) (y : system) : option system :=
  ps ← y_parse y;
  '(ps, h) ← push_tok_span b' usable t ps (y_heap y);
  Some (with_parse (Some ps) (with_heap h y)).

Definition parse_output_free (y : system) : option system :=
  ps ← y_parse y;
  h ← tok_spans_release (ps_buf ps) (y_heap y);
  Some (with_parse None (with_heap h y)).

(** [doc_install_parse] and [doc_clear_parse_state] on slot [i]. *)
Definition install_parse (i s : nat) (y : system) : option system :=
  if coordinator_idle y then
    '(snap, prev) ← y_slots y !! i;
    ps ← y_parse y;
    h ← docsnap_new s ps (y_heap y);
    Some (with_todo 0 (release_opt prev) (with_slot i (Some s, snap) (with_parse None (with_heap h y))))
  else None.

Definition clear_parse_state (i : nat) (y : system) : option system :=
  if coordinator_idle y then
    '(snap, prev) ← y_slots y !! i;
    Some (with_todo 0 (release_opt snap ++ release_opt prev) (with_slot i (None, None) y))
  else None.

(** [publish_workspace_snapshot]: the slots that have a snapshot are retained. *)
Definition publish (w : nat) (y : system) : option system :=
  if coordinator_idle y then
    h ← ws_build w (omap fst (y_slots y)) (y_heap y);
    Some (with_todo 0 (release_ws_opt (y_ws y)) (with_ws (Some w) (with_heap h y)))
  else None.

(** [diag_worker_request] to worker [k]. *)
Definition diag_request (k : nat) (y : system) : option system :=
  if coordinator_idle y then
    old ← y_pending y !! k;
    w ← y_ws y;
    h ← ws_acquire w (y_heap y);
    Some (with_todo 0 (release_ws_opt old) (with_pending k (Some w) (with_heap h y)))
  else None.

(** Worker [k] takes its pending snapshot, to run on it or to drop it. *)
Definition diag_take (k : nat) (y : system) : option system :=
  p ← y_pending y !! k;
  w ← p;
  Some (with_thread [T_release_ws w] (with_pending k None y)).

(** A query about slot [i]: the coordinator retains the previous parse and the
    published snapshot; a worker reads semantic tokens of snapshots in [uses]
    and drops the context ([query_context_free]). *)
Definition start_query (i : nat) (uses : list nat) (y : system) : option system :=
  if coordinator_idle y then
    '(_, prev) ← y_slots y !! i;
    h ← (if prev is Some s then docsnap_acquire s (y_heap y) else Some (y_heap y));
    match y_ws y with
    | None => Some (with_thread (release_opt prev) (with_heap h y))
    | Some w =>
        h ← ws_acquire w h;
        o ← h_wss h !! w;
        if bool_decide (Forall (fun s => s ∈ wo_docs o \/ prev = Some s) uses)
        then Some (with_thread ((T_sem <$> uses) ++ release_opt prev ++ [T_release_ws w]) (with_heap h y))
        else None
    end
  else None.

(** The next access of thread [t]; [None] if it touches a freed object. *)
Definition run_task (tk : task) (h : heap) : option (heap * list task * option (nat * list Z)) :=
  match tk with
  | T_release_snap s => '(h, ts) ← docsnap_release s h; Some (h, ts, None)
  | T_free_snap s => h ← docsnap_free s h; Some (h, [], None)
  | T_release_ws w => '(h, ts) ← ws_release w h; Some (h, ts, None)
  | T_dealloc_ws w => h ← ws_dealloc w h; Some (h, [], None)
  | T_sem s =>
      '(r, h) ← sem_load s h;
      Some (h, match r with inl _ => [] | inr fresh => [T_sem_cas s fresh] end,
            match r with inl data => Some (s, data) | inr _ => None end)
  | T_sem_cas s fresh => '(data, h) ← sem_cas s fresh h; Some (h, [], Some (s, data))
  end.

Definition thread_step (t : nat) (y : system) : option system :=
  ts ← y_todo y !! t;
  match ts with
  | [] => None
  | tk :: ts =>
      '(h, new, res) ← run_task tk (y_heap y);
      let y := with_todo t (new ++ ts) (with_heap h y) in
      match res with
      | None => Some y
      | Some (s, data) => o ← h_snaps h !! s; Some (log_result (so_parsed o, data) y)
      end
  end.

Inductive system_step (y y' : system) : Prop :=
  | Step_parse_begin : parse_begin y = Some y' -> system_step y y'
  | Step_parse_token b' usable t : parse_token b' usable t y = Some y' -> system_step y y'
  | Step_parse_output_free : parse_output_free y = Some y' -> system_step y y'
  | Step_install_parse i s : install_parse i s y = Some y' -> system_step y y'
  | Step_clear_parse_state i : clear_parse_state i y = Some y' -> system_step y y'
  | Step_publish w : publish w y = Some y' -> system_step y y'
  | Step_diag_request k : diag_request k y = Some y' -> system_step y y'
  | Step_diag_take k : diag_take k y = Some y' -> system_step y y'
  | Step_start_query i uses : start_query i uses y = Some y' -> system_step y y'
  | Step_thread t : thread_step t y = Some y' -> system_step y y'.

(** ** Counting references *)

Fixpoint mult (x : nat) (l : list nat) : Z :=
  match l with
  | [] => 0
  | y :: l' => (if bool_decide (x = y) then 1 else 0) + mult x l'
  end.

Lemma mult_app x l1 l2 : mult x (l1 ++ l2) = mult x l1 + mult x l2.
Proof. induction l1 as [|y l1 IH]; cbn [mult app]; lia. Qed.

Lemma mult_nonneg x l : 0 <= mult x l.
Proof. induction l as [|y l IH]; cbn [mult]; [lia|]. case_bool_decide; lia. Qed.

Lemma mult_elem x l : x ∈ l <-> 0 < mult x l.
Proof.
  induction l as [|y l IH]; cbn [mult]; [split; [by intros ?%not_elem_of_nil|lia]|].
  pose proof (mult_nonneg x l). rewrite elem_of_cons, IH. case_bool_decide; naive_solver lia.
Qed.

#[global] Instance mult_proper x : Proper ((≡ₚ) ==> (=)) (mult x).
Proof. intros l1 l2. induction 1; cbn [mult]; lia. Qed.

Lemma mult_cons_eq x l : mult x (x :: l) = 1 + mult x l.
Proof. cbn [mult]. by rewrite bool_decide_true. Qed.

Lemma mult_cons_ne x y l : x <> y -> mult x (y :: l) = mult x l.
Proof. intros. cbn [mult]. by rewrite bool_decide_false. Qed.

(** What the values of a map hold. *)
Definition gather {A} (f : A -> list nat) (m : gmap nat A) : list nat :=
  flat_map (fun kv => f kv.2) (map_to_list m).

Lemma gather_insert_new {A} (f : A -> list nat) m k v :
  m !! k = None -> gather f (<[k := v]> m) ≡ₚ f v ++ gather f m.
Proof. intros H. unfold gather. rewrite map_to_list_insert by done. done. Qed.

Lemma gather_delete {A} (f : A -> list nat) m k v :
  m !! k = Some v -> gather f m ≡ₚ f v ++ gather f (delete k m).
Proof.
  intros H. rewrite <- (gather_insert_new f (delete k m) k v) by apply lookup_delete_eq.
  by rewrite insert_delete_id.
Qed.

Lemma gather_insert {A} (f : A -> list nat) m k v :
  gather f (<[k := v]> m) ≡ₚ f v ++ gather f (delete k m).
Proof. rewrite <- insert_delete_eq. apply gather_insert_new, lookup_delete_eq. Qed.

(** Replacing a value by one that holds the same. *)
Lemma gather_same {A} (f : A -> list nat) m k v v' :
  m !! k = Some v -> f v' = f v -> gather f (<[k := v']> m) ≡ₚ gather f m.
Proof. intros H E. by rewrite gather_insert, E, <- gather_delete. Qed.

Lemma elem_of_gather {A} (f : A -> list nat) m x : x ∈ gather f m <-> exists k v, m !! k = Some v /\ x ∈ f v.
Proof.
  unfold gather. rewrite list_elem_of_In, in_flat_map. split.
  - intros ([k v] & Hin%list_elem_of_In & Hx%list_elem_of_In). exists k, v. by rewrite <- elem_of_map_to_list.
  - intros (k & v & Hk & Hx). exists (k, v). rewrite <- !list_elem_of_In. by rewrite elem_of_map_to_list.
Qed.

(** Changing one element of a list of roots. *)
Lemma flat_map_update {A B} (f : A -> list B) l i v :
  l !! i = Some v -> exists rest, flat_map f l ≡ₚ f v ++ rest /\
    forall v', flat_map f (<[i := v']> l) ≡ₚ f v' ++ rest.
Proof.
  intros H. exists (flat_map f (take i l) ++ flat_map f (drop (S i) l)). split.
  - rewrite <- (take_drop_middle l i v H) at 1. rewrite flat_map_app. cbn. by rewrite Permutation_app_swap_app.
  - intros v'. rewrite insert_take_drop by eauto using lookup_lt_Some. rewrite flat_map_app. cbn.
    by rewrite Permutation_app_swap_app.
Qed.

(** ** The heap invariant *)

Definition live_docs (o : ws_obj) : list nat := if wo_count o =? 0 then [] else wo_docs o.
Definition held_span (o : snap_obj) : list nat := option_list (so_spans o).
Definition held_memo (o : snap_obj) : list nat := if so_memo o is Some _ then [O] else [].

(** A snapshot finds the tokens it was created with, and a memo is theirs. *)
Definition snap_data_ok (h : heap) (o : snap_obj) : Prop :=
  spans_of h (so_spans o) (so_num_spans o) = Some (so_parsed o) /\
  forall d, so_memo o = Some d -> d = compute_semantic_tokens_data (so_parsed o).

(** An object with [count] references and [teardown] threads about to free it. *)
Definition counted (count refs teardown : Z) : Prop :=
  count = refs /\ teardown = (if count =? 0 then 1 else 0).

(** The references from outside the heap to snapshots and workspaces, the
    pending frees, the buffer of a parse, and the memos not yet published. *)
Record heap_ok (h : heap) (Rs Rw Fs Fw P : list nat) (cas : Z) : Prop := mkHeapOk {
  ok_snaps : forall s, match h_snaps h !! s with
    | Some o => counted (so_count o) (mult s (Rs ++ gather live_docs (h_wss h))) (mult s Fs) /\ snap_data_ok h o
    | None => mult s (Rs ++ gather live_docs (h_wss h)) = 0 /\ mult s Fs = 0
    end;
  ok_wss : forall w, match h_wss h !! w with
    | Some o => counted (wo_count o) (mult w Rw) (mult w Fw)
    | None => mult w Rw = 0 /\ mult w Fw = 0
    end;
  ok_bufs : option_list (h_recycle h) ++ P ++ gather held_span (h_snaps h) ≡ₚ (map_to_list (h_bufs h)).*1;
  ok_memos : h_memos h = Z.of_nat (length (gather held_memo (h_snaps h))) + cas;
  ok_sizes : map_Forall (fun _ buf => 0 <= sb_size buf) (h_bufs h)
}.

#[global] Instance heap_ok_proper h :
  Proper ((≡ₚ) ==> (≡ₚ) ==> (≡ₚ) ==> (≡ₚ) ==> (≡ₚ) ==> (=) ==> iff) (heap_ok h).
Proof.
  assert (Himp : forall Rs Rs' Rw Rw' Fs Fs' Fw Fw' P P' c, Rs ≡ₚ Rs' -> Rw ≡ₚ Rw' -> Fs ≡ₚ Fs' -> Fw ≡ₚ Fw' ->
            P ≡ₚ P' -> heap_ok h Rs Rw Fs Fw P c -> heap_ok h Rs' Rw' Fs' Fw' P' c).
  { intros * E1 E2 E3 E4 E5 [H1 H2 H3 H4 H5]. split; [intros s; specialize (H1 s)|intros w; specialize (H2 w)| |done|done].
    - destruct (h_snaps h !! s); by rewrite <- E1, <- E3.
    - destruct (h_wss h !! w); by rewrite <- E2, <- E4.
    - by rewrite <- E5. }
  intros ?? E1 ?? E2 ?? E3 ?? E4 ?? E5 ?? ->. split; apply Himp; done.
Qed.

(** What an operation keeps of the objects whose count satisfies [Q]. *)
Definition keeps (Q : Z -> Prop) (h h' : heap) : Prop :=
  (forall s o, h_snaps h !! s = Some o -> Q (so_count o) ->
     exists o', h_snaps h' !! s = Some o' /\ so_parsed o' = so_parsed o) /\
  (forall w o, h_wss h !! w = Some o -> Q (wo_count o) ->
     exists o', h_wss h' !! w = Some o' /\ wo_docs o' = wo_docs o).
Definition always (_ : Z) : Prop := True.
Definition nonzero (n : Z) : Prop := n <> 0.

Lemma keeps_always Q h h' : keeps always h h' -> keeps Q h h'.
Proof. intros [H1 H2]. split; intros x o Hx _; [by eapply H1|by eapply H2]. Qed.

Lemma keeps_refl h : keeps always h h.
Proof. split; eauto. Qed.

Lemma keeps_trans h1 h2 h3 : keeps always h1 h2 -> keeps always h2 h3 -> keeps always h1 h3.
Proof.
  intros [A1 A2] [B1 B2]. split.
  - intros s o (o2 & H2 & E2)%A1; [|done]. destruct (B1 _ _ H2 I) as (o3 & H3 & E3). exists o3. by rewrite E3.
  - intros s o (o2 & H2 & E2)%A2; [|done]. destruct (B2 _ _ H2 I) as (o3 & H3 & E3). exists o3. by rewrite E3.
Qed.

Lemma keeps_same h h' : h_snaps h' = h_snaps h -> h_wss h' = h_wss h -> keeps always h h'.
Proof. intros E1 E2. split; rewrite ?E1, ?E2; eauto. Qed.

Lemma keeps_set_snaps_insert Q h s o o' :
  h_snaps h !! s = Some o -> so_parsed o' = so_parsed o -> keeps Q h (set_snaps <[s := o']> h).
Proof.
  intros Hs E. split; cbn; [|eauto]. intros s1 o1 H1 _.
  destruct (decide (s = s1)) as [->|Hn]; [rewrite lookup_insert_eq|rewrite lookup_insert_ne by done]; naive_solver.
Qed.

Lemma keeps_set_wss_insert Q h w o o' :
  h_wss h !! w = Some o -> wo_docs o' = wo_docs o -> keeps Q h (set_wss <[w := o']> h).
Proof.
  intros Hs E. split; cbn; [eauto|]. intros s1 o1 H1 _.
  destruct (decide (w = s1)) as [->|Hn]; [rewrite lookup_insert_eq|rewrite lookup_insert_ne by done]; naive_solver.
Qed.

Section Heap.
Context (h : heap) (Rs Rw Fs Fw P : list nat) (cas : Z).

(** ** References and objects *)

Lemma ref_snap_alive s : heap_ok h Rs Rw Fs Fw P cas -> s ∈ Rs ++ gather live_docs (h_wss h) ->
  exists o, h_snaps h !! s = Some o /\ 0 < so_count o /\ snap_data_ok h o.
Proof.
  intros [Hs _ _ _ _] Hin%mult_elem. specialize (Hs s).
  destruct (h_snaps h !! s) as [o|]; [|lia]. destruct Hs as [[Hc _] Hd]. exists o. split_and!; [done|lia|done].
Qed.

Lemma ref_ws_alive w : heap_ok h Rs Rw Fs Fw P cas -> w ∈ Rw ->
  exists o, h_wss h !! w = Some o /\ 0 < wo_count o.
Proof.
  intros [_ Hw _ _ _] Hin%mult_elem. specialize (Hw w).
  destruct (h_wss h !! w) as [o|]; [|lia]. destruct Hw as [Hc _]. exists o. split; [done|lia].
Qed.

(** The documents of a workspace that is referenced are alive. *)
Lemma ws_docs_alive w o s : heap_ok h Rs Rw Fs Fw P cas -> w ∈ Rw -> h_wss h !! w = Some o -> s ∈ wo_docs o ->
  s ∈ Rs ++ gather live_docs (h_wss h).
Proof.
  intros Hok Hw Ho Hs. destruct (ref_ws_alive w Hok Hw) as (o' & Ho' & Hc). simplify_eq.
  apply elem_of_app. right. apply elem_of_gather. exists w, o. split; [done|].
  unfold live_docs. destruct (Z.eqb_spec (wo_count o) 0); [lia|done].
Qed.

Lemma freed_snap s : heap_ok h Rs Rw (s :: Fs) Fw P cas ->
  exists o, h_snaps h !! s = Some o /\ so_count o = 0 /\ snap_data_ok h o /\
    mult s Fs = 0 /\ mult s (Rs ++ gather live_docs (h_wss h)) = 0.
Proof.
  intros [Hs _ _ _ _]. specialize (Hs s). rewrite mult_cons_eq in Hs.
  pose proof (mult_nonneg s Fs). destruct (h_snaps h !! s) as [o|]; [|lia].
  destruct Hs as [[Hc Ht] Hd]. exists o. destruct (Z.eqb_spec (so_count o) 0); [|lia]. split_and!; (done || lia).
Qed.

(** ** Reference counting of document snapshots *)

Lemma docsnap_acquire_ok s : heap_ok h Rs Rw Fs Fw P cas -> s ∈ Rs ++ gather live_docs (h_wss h) ->
  exists h', docsnap_acquire s h = Some h' /\ heap_ok h' (s :: Rs) Rw Fs Fw P cas /\ keeps always h h' /\
    h_wss h' = h_wss h.
Proof.
  intros Hok Hin. destruct (ref_snap_alive s Hok Hin) as (o & Ho & Hc & Hd).
  unfold docsnap_acquire. rewrite Ho. cbn. eexists. split; [done|]. split_and!; [|by eapply keeps_set_snaps_insert|done].
  destruct Hok as [Hs Hw Hb Hm Hz]. split; cbn -[mult]; [|done| | |done].
  - intros s'. specialize (Hs s'). destruct (decide (s = s')) as [<-|Hne].
    + rewrite lookup_insert_eq. rewrite Ho in Hs. destruct Hs as [[E1 E2] _]. split; [|exact Hd].
      rewrite mult_cons_eq. split; cbn [so_count add_count]; [lia|].
      destruct (Z.eqb_spec (so_count o) 0), (Z.eqb_spec (so_count o + 1) 0); lia.
    + rewrite lookup_insert_ne by done.
      rewrite mult_cons_ne by done. exact Hs.
  - rewrite <- Hb. by rewrite (gather_same held_span _ s o) by done.
  - rewrite Hm. f_equal. f_equal. apply Permutation_length. by rewrite (gather_same held_memo _ s o).
Qed.

Lemma docsnap_release_ok s : heap_ok h (s :: Rs) Rw Fs Fw P cas ->
  exists h' ts, docsnap_release s h = Some (h', ts) /\ keeps nonzero h h' /\
    (ts = [] /\ heap_ok h' Rs Rw Fs Fw P cas \/ ts = [T_free_snap s] /\ heap_ok h' Rs Rw (s :: Fs) Fw P cas).
Proof.
  intros Hok. assert (Halive : exists o, h_snaps h !! s = Some o /\ 0 < so_count o /\ snap_data_ok h o).
  { destruct Hok as [Hs _ _ _ _]. specialize (Hs s).
    cbn [app] in Hs. rewrite mult_cons_eq in Hs.
    pose proof (mult_nonneg s (Rs ++ gather live_docs (h_wss h))). destruct (h_snaps h !! s) as [o|]; [|lia].
    destruct Hs as [[Hc _] Hd]. exists o. split_and!; [done|lia|done]. }
  destruct Halive as (o & Ho & Hc & Hd). unfold docsnap_release. rewrite Ho. cbn. eexists _, _. split; [done|].
  split; [by eapply keeps_set_snaps_insert|].
  assert (Hgen : forall F, mult s F = mult s Fs + (if so_count o =? 1 then 1 else 0) ->
                 (forall s', s' <> s -> mult s' F = mult s' Fs) ->
                 heap_ok (set_snaps <[s := add_count (-1) o]> h) Rs Rw F Fw P cas).
  { intros F HF1 HF2. destruct Hok as [Hs Hw Hb Hm Hz]. split; cbn -[mult]; [|done| | |done].
    - intros s'. specialize (Hs s'). cbn [app] in Hs.
      destruct (decide (s = s')) as [<-|Hne].
      + rewrite lookup_insert_eq. rewrite Ho, mult_cons_eq in Hs. destruct Hs as [[E1 E2] _]. split; [|exact Hd].
        rewrite HF1. split; cbn [so_count add_count]; [lia|].
        destruct (Z.eqb_spec (so_count o) 1), (Z.eqb_spec (so_count o) 0), (Z.eqb_spec (so_count o + -1) 0); lia.
      + rewrite lookup_insert_ne by done. rewrite mult_cons_ne in Hs by done. rewrite HF2 by done. exact Hs.
    - rewrite <- Hb. by rewrite (gather_same held_span _ s o) by done.
    - rewrite Hm. f_equal. f_equal. apply Permutation_length. by rewrite (gather_same held_memo _ s o). }
  destruct (so_count o =? 1); [right|left]; (split; [done|]); apply Hgen; cbn [mult]; intros.
  - rewrite bool_decide_true by done. lia.
  - by rewrite bool_decide_false.
  - lia.
  - done.
Qed.

(** ** Buffers *)

Lemma bufs_nodup : heap_ok h Rs Rw Fs Fw P cas ->
  NoDup (option_list (h_recycle h) ++ P ++ gather held_span (h_snaps h)).
Proof. intros [_ _ Hb _ _]. rewrite Hb. apply NoDup_fst_map_to_list. Qed.

Lemma buf_owned b : heap_ok h Rs Rw Fs Fw P cas ->
  b ∈ option_list (h_recycle h) ++ P ++ gather held_span (h_snaps h) -> is_Some (h_bufs h !! b).
Proof.
  intros [_ _ Hb _ _]. rewrite Hb, list_elem_of_fmap. intros ([b' v] & -> & Hin).
  rewrite elem_of_map_to_list in Hin. eauto.
Qed.

(** Changing buffers no snapshot owns. *)
Lemma set_bufs_ok f r P' : heap_ok h Rs Rw Fs Fw P cas ->
  (forall b, b ∈ gather held_span (h_snaps h) -> f (h_bufs h) !! b = h_bufs h !! b) ->
  option_list r ++ P' ++ gather held_span (h_snaps h) ≡ₚ (map_to_list (f (h_bufs h))).*1 ->
  map_Forall (fun _ buf => 0 <= sb_size buf) (f (h_bufs h)) ->
  heap_ok (set_bufs f r h) Rs Rw Fs Fw P' cas.
Proof.
  intros [Hs Hw Hb Hm Hz] Hf Hp Hz'. split; cbn; try done.
  intros s. specialize (Hs s). destruct (h_snaps h !! s) as [o|] eqn:Eo; [|done].
  destruct Hs as [Hc [Hd Hmemo]]. split; [done|]. split; [|done].
  rewrite <- Hd. unfold spans_of. destruct (so_spans o) as [b|] eqn:Eb; [|done]. cbn. rewrite Hf; [done|].
  apply elem_of_gather. exists s, o. split; [done|]. unfold held_span. rewrite Eb. apply list_elem_of_singleton. done.
Qed.

Lemma keys_delete {A} (m : gmap nat A) b v : m !! b = Some v -> (map_to_list m).*1 ≡ₚ b :: (map_to_list (delete b m)).*1.
Proof. intros H. by rewrite <- (map_to_list_delete m b v H). Qed.

Lemma keys_insert_same {A} (m : gmap nat A) b v v' : m !! b = Some v ->
  (map_to_list (<[b := v']> m)).*1 ≡ₚ (map_to_list m).*1.
Proof.
  intros H. rewrite (keys_delete m b v H), <- insert_delete_eq.
  rewrite map_to_list_insert by apply lookup_delete_eq. done.
Qed.

End Heap.

Lemma tok_spans_release_ok h Rs Rw Fs Fw P cas b : heap_ok h Rs Rw Fs Fw (option_list b ++ P) cas ->
  exists h', tok_spans_release b h = Some h' /\ heap_ok h' Rs Rw Fs Fw P cas /\
    h_snaps h' = h_snaps h /\ h_wss h' = h_wss h.
Proof.
  intros Hok. destruct b as [b|]; cbn [option_list option_rect] in Hok; [|by exists h]. cbn [tok_spans_release].
  pose proof (bufs_nodup _ _ _ _ _ _ _ Hok) as Hnd.
  destruct (buf_owned _ _ _ _ _ _ _ b Hok) as [buf Hbuf]; [set_solver|]. rewrite Hbuf. cbn.
  assert (Hnot : b ∉ option_list (h_recycle h) ++ P ++ gather held_span (h_snaps h)).
  { intros Hin. cbn in Hnd. rewrite <- Permutation_middle in Hnd. by apply NoDup_cons in Hnd as [Hn _]. }
  assert (Hfree : forall r, h_recycle h = r -> heap_ok (set_bufs (delete b) r h) Rs Rw Fs Fw P cas).
  { intros r <-. eapply set_bufs_ok; [done| | |].
    - intros b' Hb'. apply lookup_delete_ne. intros <-. set_solver.
    - destruct Hok as [_ _ Hb _ _]. rewrite (keys_delete _ _ _ Hbuf) in Hb. cbn in Hb.
      rewrite <- Permutation_middle in Hb. by apply Permutation_cons_inv in Hb.
    - by apply map_Forall_delete, Hok. }
  destruct (sb_size buf <? TOK_SPANS_RECYCLE_MIN_BYTES); [eexists; split_and!; [done|by apply Hfree|done..]|].
  destruct (h_recycle h) as [r|] eqn:Er; eexists; (split; [done|]); (split; [|done]); [by apply Hfree|].
  eapply set_bufs_ok; [done|done| |apply Hok]. destruct Hok as [_ _ Hb _ _]. rewrite Er in Hb. exact Hb.
Qed.

(** A parse in progress: what is written fits the buffer it owns. *)
Definition parse_ok (h : heap) (ps : parse_state) : Prop :=
  match ps_buf ps with
  | None => ps_num ps = O /\ ps_cap ps = 0
  | Some b => exists buf, h_bufs h !! b = Some buf /\ 0 <= ps_cap ps /\ ps_cap ps * SIZEOF_SPAN <= sb_size buf /\
      Z.of_nat (ps_num ps) <= ps_cap ps /\ (ps_num ps <= length (sb_spans buf))%nat
  end.

Lemma tok_spans_take_ok h Rs Rw Fs Fw cas : heap_ok h Rs Rw Fs Fw [] cas ->
  exists ps h', tok_spans_take h = Some (ps, h') /\ heap_ok h' Rs Rw Fs Fw (option_list (ps_buf ps)) cas /\
    parse_ok h' ps /\ h_snaps h' = h_snaps h /\ h_wss h' = h_wss h /\ h_bufs h' = h_bufs h.
Proof.
  intros Hok. unfold tok_spans_take. destruct (h_recycle h) as [b|] eqn:Er; [|by eexists _, h].
  destruct (buf_owned _ _ _ _ _ _ _ b Hok) as [buf Hbuf]; [rewrite Er; set_solver|]. rewrite Hbuf. cbn.
  eexists _, _. split; [done|]. split; [|split; [|done]].
  - eapply set_bufs_ok; [done|done| |apply Hok]. destruct Hok as [_ _ Hb _ _]. rewrite Er in Hb. exact Hb.
  - exists buf. cbn. unfold SIZEOF_SPAN. pose proof (ok_sizes _ _ _ _ _ _ _ Hok _ _ Hbuf) as Hsz. cbn in Hsz.
    pose proof (Z.div_pos (sb_size buf) 32 Hsz). pose proof (Z.mul_div_le (sb_size buf) 32). split_and!; try done; lia.
Qed.

Lemma store_span_ok h Rs Rw Fs Fw cas ps t :
  heap_ok h Rs Rw Fs Fw (option_list (ps_buf ps)) cas -> parse_ok h ps -> Z.of_nat (ps_num ps) < ps_cap ps ->
  exists ps' h', store_span t ps h = Some (ps', h') /\
    heap_ok h' Rs Rw Fs Fw (option_list (ps_buf ps')) cas /\ parse_ok h' ps' /\
    h_snaps h' = h_snaps h /\ h_wss h' = h_wss h.
Proof.
  intros Hok Hps Hlt. unfold store_span, parse_ok in *. destruct (ps_buf ps) as [b|] eqn:Eb; cbn [option_list option_rect] in *.
  - destruct Hps as (buf & Hbuf & Hc & Hsz & Hn & Hl). cbn. rewrite Hbuf. cbn. unfold SIZEOF_SPAN in *.
    destruct (Z.leb_spec ((Z.of_nat (ps_num ps) + 1) * 32) (sb_size buf)); [|lia].
    eexists _, _. split; [done|]. cbn [ps_buf option_list option_rect]. split; [|split; [|done]].
    + eapply set_bufs_ok; [done| | |].
      * intros b' Hb'. apply lookup_insert_ne. intros <-. pose proof (bufs_nodup _ _ _ _ _ _ _ Hok) as Hnd.
        rewrite NoDup_app in Hnd. destruct Hnd as (_ & _ & Hnd). cbn in Hnd. apply NoDup_cons in Hnd as [Hnd _]. done.
      * rewrite (keys_insert_same _ _ _ _ Hbuf). apply Hok.
      * apply map_Forall_insert_2; [|apply Hok]. exact (ok_sizes _ _ _ _ _ _ _ Hok _ _ Hbuf).
    + eexists. cbn. rewrite lookup_insert_eq. split; [done|]. cbn.
      rewrite length_app, length_take. cbn. split_and!; lia.
  - destruct Hps. lia.
Qed.

Lemma grow_spans_ok h Rs Rw Fs Fw cas ps b' usable :
  heap_ok h Rs Rw Fs Fw (option_list (ps_buf ps)) cas -> parse_ok h ps ->
  b' ∉ dom (h_bufs h) -> (if ps_cap ps =? 0 then 64 else ps_cap ps * 2) * SIZEOF_SPAN <= usable ->
  exists ps' h', grow_spans b' usable ps h = Some (ps', h') /\
    heap_ok h' Rs Rw Fs Fw (option_list (ps_buf ps')) cas /\ parse_ok h' ps' /\ ps_num ps' = ps_num ps /\
    ps_cap ps' = (if ps_cap ps =? 0 then 64 else ps_cap ps * 2) /\
    h_snaps h' = h_snaps h /\ h_wss h' = h_wss h.
Proof.
  intros Hok Hps Hf Hu. unfold grow_spans. set (cap := if ps_cap ps =? 0 then 64 else ps_cap ps * 2) in *.
  rewrite bool_decide_false by done. destruct (Z.ltb_spec usable (cap * SIZEOF_SPAN)); [lia|]. cbn.
  unfold parse_ok in Hps. apply not_elem_of_dom in Hf.
  pose proof (buf_owned h Rs Rw Fs Fw _ cas b' Hok) as Hown. rewrite Hf in Hown.
  pose proof (bufs_nodup _ _ _ _ _ _ _ Hok) as Hnd. pose proof (ok_bufs _ _ _ _ _ _ _ Hok) as Hb.
  assert (Hcap : 0 <= ps_cap ps -> 0 <= cap /\ ps_cap ps <= cap)
    by (intros; unfold cap; destruct (Z.eqb_spec (ps_cap ps) 0); lia).
  unfold SIZEOF_SPAN in *. clearbody cap.
  destruct (ps_buf ps) as [b|] eqn:Eb; cbn [option_list option_rect] in *.
  - destruct Hps as (buf & Hbuf & Hc & Hsz & Hn & Hl). rewrite Hbuf. cbn.
    assert (b <> b') by (intros ->; congruence).
    eexists _, _. split; [done|]. cbn [ps_buf option_list option_rect]. split; [|split].
    + eapply set_bufs_ok; [done| | |].
      * intros k Hk. rewrite lookup_insert_ne by (intros <-; destruct Hown; [set_solver|done]).
        apply lookup_delete_ne. intros <-. rewrite NoDup_app in Hnd. destruct Hnd as (_ & _ & Hnd).
        cbn in Hnd. apply NoDup_cons in Hnd as [Hnd _]. done.
      * rewrite map_to_list_insert by (rewrite lookup_delete_ne by done; done). cbn.
        rewrite (keys_delete _ _ _ Hbuf) in Hb. cbn in Hb. rewrite <- Permutation_middle in Hb |- *.
        apply Permutation_cons_inv in Hb. constructor. exact Hb.
      * apply map_Forall_insert_2; [cbn; lia|]. apply map_Forall_delete, Hok.
    + eexists. cbn. rewrite lookup_insert_eq. split; [done|]. cbn.
      destruct Hcap; [done|]. unfold SIZEOF_SPAN. split_and!; lia.
    + done.
  - destruct Hps as [Hn Hc]. eexists _, _. split; [done|]. cbn [ps_buf option_list option_rect]. split; [|split].
    + eapply set_bufs_ok; [done| | |].
      * intros k Hk. apply lookup_insert_ne. intros <-. destruct Hown; [set_solver|done].
      * rewrite map_to_list_insert by done. cbn. rewrite <- Permutation_middle. constructor. exact Hb.
      * apply map_Forall_insert_2; [cbn; lia|apply Hok].
    + eexists. cbn. rewrite lookup_insert_eq. split; [done|]. cbn. rewrite Hn in *.
      destruct Hcap; [lia|]. unfold SIZEOF_SPAN. split_and!; cbn; lia.
    + done.
Qed.

(** ** Creating, freeing and reading snapshots *)

Lemma parse_spans h ps : parse_ok h ps -> exists l, spans_of h (ps_buf ps) (ps_num ps) = Some l.
Proof.
  unfold parse_ok, spans_of. destruct (ps_buf ps); [|eauto]. intros (buf & -> & _). cbn. eauto.
Qed.

Lemma docsnap_new_ok h Rs Rw Fs Fw cas s ps :
  heap_ok h Rs Rw Fs Fw (option_list (ps_buf ps)) cas -> parse_ok h ps -> s ∉ dom (h_snaps h) ->
  exists h', docsnap_new s ps h = Some h' /\ heap_ok h' (s :: Rs) Rw Fs Fw [] cas /\ keeps always h h' /\
    h_wss h' = h_wss h.
Proof.
  intros Hok Hps Hs0. destruct (parse_spans _ _ Hps) as [l Hl]. unfold docsnap_new. rewrite Hl. cbn.
  rewrite bool_decide_false by done. apply not_elem_of_dom in Hs0. eexists. split; [done|].
  destruct Hok as [Hs Hw Hb Hm Hz]. split_and!; [|split; cbn; [|eauto]|done].
  - split; cbn -[mult]; [|done| | |done].
    + intros s'. specialize (Hs s'). destruct (decide (s = s')) as [<-|Hne].
      * rewrite lookup_insert_eq. rewrite Hs0 in Hs. destruct Hs as [E1 E2]. rewrite mult_cons_eq, E1, E2.
        by repeat split.
      * rewrite lookup_insert_ne by done. rewrite mult_cons_ne by done. exact Hs.
    + rewrite <- Hb, gather_insert_new by done. done.
    + rewrite Hm. by rewrite gather_insert_new.
  - intros s1 o1 H1 _. rewrite lookup_insert_ne by congruence. eauto.
Qed.

Lemma tok_spans_release_frame b n f h :
  tok_spans_release b (add_memos n (set_snaps f h))
  = (fun h' => add_memos n (set_snaps f h')) <$> tok_spans_release b h.
Proof.
  destruct b as [b|]; [|done]. cbn. destruct (h_bufs h !! b); [|done]. cbn.
  destruct (_ <? _); [done|]. by destruct (h_recycle h).
Qed.

Lemma docsnap_free_ok h Rs Rw Fs Fw P cas s : heap_ok h Rs Rw (s :: Fs) Fw P cas ->
  exists h', docsnap_free s h = Some h' /\ heap_ok h' Rs Rw Fs Fw P cas /\ keeps nonzero h h' /\ h_wss h' = h_wss h.
Proof.
  intros Hok. destruct (freed_snap _ _ _ _ _ _ _ s Hok) as (o & Ho & Hc & Hd & Hf & Hr).
  set (n := if so_memo o is Some _ then -1 else 0).
  assert (H1 : heap_ok (add_memos n (set_snaps (delete s) h)) Rs Rw Fs Fw (option_list (so_spans o) ++ P) cas).
  { destruct Hok as [Hs Hw Hb Hm Hz]. split; cbn -[mult]; [|done| | |done].
    - intros s'. specialize (Hs s'). destruct (decide (s = s')) as [<-|Hne].
      + by rewrite lookup_delete_eq.
      + rewrite lookup_delete_ne by done. rewrite mult_cons_ne in Hs by done. exact Hs.
    - rewrite <- Hb. rewrite (gather_delete held_span _ s o Ho). unfold held_span at 2.
      rewrite <- (app_assoc (option_list (so_spans o))). by rewrite (Permutation_app_swap_app P).
    - rewrite Hm. rewrite (Permutation_length (gather_delete held_memo _ s o Ho)). rewrite length_app.
      unfold held_memo at 1, n. destruct (so_memo o); cbn; lia. }
  destruct (tok_spans_release_ok _ _ _ _ _ _ _ _ H1) as (h' & Hrel & Hok' & Es & Ew).
  unfold docsnap_free. rewrite Ho. cbn. rewrite tok_spans_release_frame in Hrel.
  destruct (tok_spans_release (so_spans o) h) as [h2|]; [|done]. injection Hrel as Hrel. cbn.
  exists h'. split; [by rewrite <- Hrel|]. split; [done|]. split; [|done].
  split; rewrite ?Es, ?Ew; cbn; [|eauto]. intros s1 o1 H2 Hn. exists o1.
  rewrite lookup_delete_ne; [done|]. intros <-. by simplify_eq.
Qed.

Lemma sem_load_ok h Rs Rw Fs Fw P cas s : heap_ok h Rs Rw Fs Fw P cas -> s ∈ Rs ++ gather live_docs (h_wss h) ->
  exists o r h', h_snaps h !! s = Some o /\ sem_load s h = Some (r, h') /\
    h_snaps h' = h_snaps h /\ h_wss h' = h_wss h /\
    match r with inl d | inr d => d = compute_semantic_tokens_data (so_parsed o) end /\
    heap_ok h' Rs Rw Fs Fw P (if r is inr _ then cas + 1 else cas).
Proof.
  intros Hok Hin. destruct (ref_snap_alive _ _ _ _ _ _ _ s Hok Hin) as (o & Ho & Hc & Hsp & Hm).
  unfold sem_load. rewrite Ho. cbn. destruct (so_memo o) as [d|].
  - exists o, (inl d), h. split_and!; try done. by apply Hm.
  - rewrite Hsp. cbn. eexists o, _, _. split_and!; try done.
    destruct Hok as [Hs Hw Hb Hm' Hz]. split; cbn -[mult]; try done. lia.
Qed.

Lemma sem_cas_ok h Rs Rw Fs Fw P cas s o fresh : heap_ok h Rs Rw Fs Fw P (cas + 1) ->
  h_snaps h !! s = Some o -> fresh = compute_semantic_tokens_data (so_parsed o) ->
  exists h', sem_cas s fresh h = Some (fresh, h') /\ heap_ok h' Rs Rw Fs Fw P cas /\ keeps always h h' /\
    h_wss h' = h_wss h.
Proof.
  intros Hok Ho Hf. pose proof (ok_snaps _ _ _ _ _ _ _ Hok s) as Hs0. rewrite Ho in Hs0. destruct Hs0 as [Hc [Hsp Hm]].
  unfold sem_cas. rewrite Ho. cbn. destruct (so_memo o) as [d|] eqn:Em.
  - rewrite (Hm d), <- Hf by done. eexists. split; [done|].
    split_and!; [|by apply keeps_same|done].
    destruct Hok as [Hs Hw Hb Hm' Hz]. split; cbn -[mult]; try done. lia.
  - eexists. split; [done|]. split_and!; [|by eapply keeps_set_snaps_insert|done].
    destruct Hok as [Hs Hw Hb Hm' Hz]. split; cbn -[mult]; [|done| | |done].
    + intros s'. specialize (Hs s'). destruct (decide (s = s')) as [<-|Hne].
      * rewrite lookup_insert_eq. rewrite Ho in Hs. destruct Hs as [Hc' _]. split; [done|]. split; [done|].
        cbn. by intros ? [= <-].
      * by rewrite lookup_insert_ne by done.
    + rewrite <- Hb. by rewrite (gather_same held_span _ s o) by done.
    + rewrite Hm', (gather_insert held_memo). rewrite (gather_delete held_memo _ s o Ho). unfold held_memo at 1 3.
      rewrite Em. cbn. lia.
Qed.

(** ** Workspace snapshots *)

(** Changing the workspaces only: the references to snapshots must add up. *)
Lemma set_wss_ok h f Rs Rs' Rw Rw' Fs Fw Fw' P cas : heap_ok h Rs Rw Fs Fw P cas ->
  Rs ++ gather live_docs (h_wss h) ≡ₚ Rs' ++ gather live_docs (f (h_wss h)) ->
  (forall w, match f (h_wss h) !! w with
    | Some o => counted (wo_count o) (mult w Rw') (mult w Fw')
    | None => mult w Rw' = 0 /\ mult w Fw' = 0
    end) ->
  heap_ok (set_wss f h) Rs' Rw' Fs Fw' P cas.
Proof.
  intros [Hs Hw Hb Hm Hz] E Hw'. split; cbn; try done.
  intros s. specialize (Hs s). destruct (h_snaps h !! s) as [o|]; by rewrite <- E.
Qed.

Lemma ws_acquire_ok h Rs Rw Fs Fw P cas w : heap_ok h Rs Rw Fs Fw P cas -> w ∈ Rw ->
  exists h' o, ws_acquire w h = Some h' /\ heap_ok h' Rs (w :: Rw) Fs Fw P cas /\ keeps always h h' /\
    h_wss h !! w = Some o /\ h_wss h' !! w = Some (mkWs (wo_count o + 1) (wo_docs o)).
Proof.
  intros Hok Hin. destruct (ref_ws_alive _ _ _ _ _ _ _ w Hok Hin) as (o & Ho & Hc).
  unfold ws_acquire. rewrite Ho. cbn. eexists _, o. split; [done|].
  split_and!; [|by eapply keeps_set_wss_insert|done|cbn; by rewrite lookup_insert_eq].
  eapply set_wss_ok; [done| |].
  - rewrite (gather_same _ _ _ o); [done..|]. unfold live_docs. cbn.
    by destruct (Z.eqb_spec (wo_count o) 0), (Z.eqb_spec (wo_count o + 1) 0); try lia.
  - intros w'. pose proof (ok_wss _ _ _ _ _ _ _ Hok w') as Hw. destruct (decide (w = w')) as [<-|Hne].
    + rewrite lookup_insert_eq, mult_cons_eq. rewrite Ho in Hw. destruct Hw as [E1 E2]. split; cbn [wo_count]; [lia|].
      destruct (Z.eqb_spec (wo_count o) 0), (Z.eqb_spec (wo_count o + 1) 0); lia.
    + rewrite lookup_insert_ne, mult_cons_ne by done. exact Hw.
Qed.

Lemma ws_release_ok h Rs Rw Fs Fw P cas w : heap_ok h Rs (w :: Rw) Fs Fw P cas ->
  exists h' ts o, ws_release w h = Some (h', ts) /\ h_wss h !! w = Some o /\ keeps nonzero h h' /\
    (ts = [] /\ heap_ok h' Rs Rw Fs Fw P cas \/
     ts = (T_release_snap <$> wo_docs o) ++ [T_dealloc_ws w] /\ heap_ok h' (wo_docs o ++ Rs) Rw Fs (w :: Fw) P cas).
Proof.
  intros Hok. destruct (ref_ws_alive _ _ _ _ _ _ _ w Hok) as (o & Ho & Hc); [by left|].
  unfold ws_release. rewrite Ho. cbn. eexists _, _, o. split; [done|]. split; [done|].
  split; [by eapply keeps_set_wss_insert|].
  assert (Hgen : forall Rs' F, Rs ++ gather live_docs (h_wss h) ≡ₚ
                   Rs' ++ gather live_docs (<[w := mkWs (wo_count o - 1) (wo_docs o)]> (h_wss h)) ->
                 mult w F = mult w Fw + (if wo_count o =? 1 then 1 else 0) ->
                 (forall w', w' <> w -> mult w' F = mult w' Fw) ->
                 heap_ok (set_wss <[w := mkWs (wo_count o - 1) (wo_docs o)]> h) Rs' Rw Fs F P cas).
  { intros Rs' F HR HF1 HF2. eapply set_wss_ok; [done|done|].
    intros w'. pose proof (ok_wss _ _ _ _ _ _ _ Hok w') as Hw. destruct (decide (w = w')) as [<-|Hne].
    - rewrite lookup_insert_eq. rewrite Ho, mult_cons_eq in Hw. destruct Hw as [E1 E2]. rewrite HF1.
      split; cbn [wo_count]; [lia|].
      destruct (Z.eqb_spec (wo_count o) 1), (Z.eqb_spec (wo_count o) 0), (Z.eqb_spec (wo_count o - 1) 0); lia.
    - rewrite lookup_insert_ne by done. rewrite mult_cons_ne in Hw by done. rewrite HF2 by done. exact Hw. }
  destruct (Z.eqb_spec (wo_count o) 1) as [E|E]; [right|left]; (split; [done|]); apply Hgen; intros.
  - rewrite gather_insert, (gather_delete _ _ _ o Ho). unfold live_docs at 1 3. cbn [wo_count wo_docs]. rewrite E.
    cbn. rewrite (Permutation_app_comm (wo_docs o) Rs), <- app_assoc. done.
  - rewrite mult_cons_eq. lia.
  - by rewrite mult_cons_ne.
  - rewrite (gather_same _ _ _ o); [done..|]. unfold live_docs. cbn [wo_count wo_docs].
    by destruct (Z.eqb_spec (wo_count o) 0), (Z.eqb_spec (wo_count o - 1) 0); try lia.
  - lia.
  - done.
Qed.

Lemma ws_dealloc_ok h Rs Rw Fs Fw P cas w : heap_ok h Rs Rw Fs (w :: Fw) P cas ->
  exists h', ws_dealloc w h = Some h' /\ heap_ok h' Rs Rw Fs Fw P cas /\ keeps nonzero h h' /\ h_snaps h' = h_snaps h.
Proof.
  intros Hok. pose proof (ok_wss _ _ _ _ _ _ _ Hok w) as Hw. rewrite mult_cons_eq in Hw.
  pose proof (mult_nonneg w Fw). destruct (h_wss h !! w) as [o|] eqn:Ho; [|lia].
  destruct Hw as [E1 E2]. destruct (Z.eqb_spec (wo_count o) 0) as [E|E]; [|lia].
  unfold ws_dealloc. rewrite Ho. cbn. eexists. split; [done|]. split_and!; [|split; cbn; [eauto|]|done].
  - eapply set_wss_ok; [done| |].
    + rewrite (gather_delete _ _ _ o Ho). unfold live_docs at 1. by rewrite E.
    + intros w'. pose proof (ok_wss _ _ _ _ _ _ _ Hok w') as Hw. destruct (decide (w = w')) as [<-|Hne].
      * rewrite lookup_delete_eq. lia.
      * rewrite lookup_delete_ne by done. rewrite mult_cons_ne in Hw by done. exact Hw.
  - intros w' o' Ho' Hn. rewrite lookup_delete_ne; [eauto|]. intros <-. unfold nonzero in Hn. congruence.
Qed.

Lemma acquire_all_ok h Rs Rw Fs Fw P cas docs : heap_ok h Rs Rw Fs Fw P cas -> docs ⊆ Rs ->
  exists h', acquire_all docs h = Some h' /\ heap_ok h' (docs ++ Rs) Rw Fs Fw P cas /\ keeps always h h' /\
    h_wss h' = h_wss h.
Proof.
  revert h Rs. induction docs as [|s docs IH]; intros h Rs Hok Hin; [exists h; by split_and!; eauto using keeps_refl|].
  cbn. destruct (docsnap_acquire_ok _ _ _ _ _ _ _ s Hok) as (h1 & -> & H1 & K1 & E1); [set_solver|]. cbn.
  destruct (IH h1 (s :: Rs) H1) as (h2 & -> & H2 & K2 & E2); [set_solver|].
  exists h2. split_and!; [done| |by eapply keeps_trans|congruence]. by rewrite <- Permutation_middle in H2.
Qed.

Lemma ws_build_ok h Rs Rw Fs Fw P cas w docs : heap_ok h Rs Rw Fs Fw P cas -> docs ⊆ Rs -> w ∉ dom (h_wss h) ->
  exists h', ws_build w docs h = Some h' /\ heap_ok h' Rs (w :: Rw) Fs Fw P cas /\ keeps always h h'.
Proof.
  intros Hok Hin Hw0. destruct (acquire_all_ok _ _ _ _ _ _ _ _ Hok Hin) as (h1 & Ha & H1 & K1 & E1).
  unfold ws_build. rewrite Ha. cbn. rewrite <- E1 in Hw0. rewrite bool_decide_false by done.
  apply not_elem_of_dom in Hw0. eexists. split; [done|]. split.
  - eapply set_wss_ok; [done| |].
    + rewrite gather_insert_new by done. unfold live_docs at 2. cbn.
      rewrite (Permutation_app_comm docs Rs), <- app_assoc. done.
    + intros w'. pose proof (ok_wss _ _ _ _ _ _ _ H1 w') as Hw. destruct (decide (w = w')) as [<-|Hne].
      * rewrite lookup_insert_eq, mult_cons_eq. rewrite Hw0 in Hw. destruct Hw as [F1 F2]. rewrite F1, F2. by split.
      * rewrite lookup_insert_ne, mult_cons_ne by done. exact Hw.
  - eapply keeps_trans; [done|]. split; cbn; [eauto|]. intros w' o' Ho' _. rewrite lookup_insert_ne by congruence. eauto.
Qed.

(** ** The invariant of the system *)

Definition task_snaps (tk : task) : list nat := match tk with T_release_snap s => [s] | _ => [] end.
Definition task_wss (tk : task) : list nat := match tk with T_release_ws w => [w] | _ => [] end.
Definition task_frees (tk : task) : list nat := match tk with T_free_snap s => [s] | _ => [] end.
Definition task_deallocs (tk : task) : list nat := match tk with T_dealloc_ws w => [w] | _ => [] end.
Definition task_cas (tk : task) : list nat := match tk with T_sem_cas _ _ => [O] | _ => [] end.

(** What all threads have to do, of one sort. *)
Definition of_todo (f : task -> list nat) (todo : list (list task)) : list nat := flat_map (flat_map f) todo.
Arguments of_todo : simpl never.

Definition slot_refs (v : option nat * option nat) : list nat := option_list v.1 ++ option_list v.2.
Definition snap_roots (y : system) : list nat := flat_map slot_refs (y_slots y) ++ of_todo task_snaps (y_todo y).
Definition ws_roots (y : system) : list nat :=
  option_list (y_ws y) ++ flat_map option_list (y_pending y) ++ of_todo task_wss (y_todo y).
Definition parse_bufs (p : option parse_state) : list nat := if p is Some ps then option_list (ps_buf ps) else [].

Definition roots_ok (h : heap) (y : system) : Prop :=
  heap_ok h (snap_roots y) (ws_roots y) (of_todo task_frees (y_todo y)) (of_todo task_deallocs (y_todo y))
    (parse_bufs (y_parse y)) (mult 0 (of_todo task_cas (y_todo y))).

(** The rest of a thread's tasks holds a reference that keeps [s] alive. *)
Definition pinned_by (h : heap) (s : nat) (ts : list task) : Prop :=
  T_release_snap s ∈ ts \/
  exists w o, T_release_ws w ∈ ts /\ h_wss h !! w = Some o /\ s ∈ wo_docs o.

Fixpoint pinned (h : heap) (ts : list task) : Prop :=
  match ts with
  | [] => True
  | tk :: ts' =>
      match tk with
      | T_sem s => pinned_by h s ts'
      | T_sem_cas s fresh => pinned_by h s ts' /\
          exists o, h_snaps h !! s = Some o /\ fresh = compute_semantic_tokens_data (so_parsed o)
      | _ => True
      end /\ pinned h ts'
  end.

Record sys_ok (y : system) : Prop := mkSysOk {
  sys_roots : roots_ok (y_heap y) y;
  sys_pinned : Forall (pinned (y_heap y)) (y_todo y);
  sys_parse : if y_parse y is Some ps then parse_ok (y_heap y) ps else True;
  sys_results : Forall (fun r => r.2 = compute_semantic_tokens_data r.1) (y_results y)
}.

Lemma heap_ok_mult h Rs Rs' Rw Rw' Fs Fs' Fw Fw' P P' c c' :
  (forall x, mult x Rs = mult x Rs') -> (forall x, mult x Rw = mult x Rw') ->
  (forall x, mult x Fs = mult x Fs') -> (forall x, mult x Fw = mult x Fw') -> P = P' -> c = c' ->
  heap_ok h Rs Rw Fs Fw P c -> heap_ok h Rs' Rw' Fs' Fw' P' c'.
Proof.
  intros E1 E2 E3 E4 -> -> [Hs Hw Hb Hm Hz]. split; [intros s|intros w|done..].
  - specialize (Hs s). rewrite mult_app in *. by rewrite <- E1, <- E3.
  - specialize (Hw w). by rewrite <- E2, <- E4.
Qed.

Lemma mult_update {A} (f : A -> list nat) l i v v' x : l !! i = Some v ->
  mult x (flat_map f (<[i := v']> l)) = mult x (flat_map f l) - mult x (f v) + mult x (f v').
Proof. intros H. destruct (flat_map_update f l i v H) as (rest & E1 & E2). rewrite E1, E2, !mult_app. lia. Qed.

Lemma elem_of_todo f todo t ts tk x : todo !! t = Some ts -> tk ∈ ts -> x ∈ f tk -> x ∈ of_todo f todo.
Proof.
  intros Ht Htk Hx. unfold of_todo. rewrite list_elem_of_In, in_flat_map. exists ts.
  rewrite <- !list_elem_of_In. split; [by eapply list_elem_of_lookup_2|].
  rewrite list_elem_of_In, in_flat_map. exists tk. by rewrite <- !list_elem_of_In.
Qed.

(** A pinned snapshot is alive. *)
Lemma pinned_by_alive h y t ts pre s : roots_ok h y -> y_todo y !! t = Some (pre ++ ts) -> pinned_by h s ts ->
  s ∈ snap_roots y ++ gather live_docs (h_wss h).
Proof.
  intros Hok Ht [Hp|(w & o & Hp & Ho & Hs)].
  - apply elem_of_app. left. apply elem_of_app. right. eapply (elem_of_todo _ _ _ _ (T_release_snap s)); [done|set_solver|by left].
  - eapply ws_docs_alive; [done| |done|done]. unfold ws_roots. rewrite !elem_of_app. right; right.
    eapply (elem_of_todo _ _ _ _ (T_release_ws w)); [done|set_solver|by left].
Qed.

Lemma pinned_keeps h h' y t ts pre : roots_ok h y -> y_todo y !! t = Some (pre ++ ts) -> keeps nonzero h h' ->
  pinned h ts -> pinned h' ts.
Proof.
  intros Hok Ht [K1 K2]. revert pre Ht. induction ts as [|tk ts IH]; intros pre Ht; [done|]. cbn.
  assert (Ht' : y_todo y !! t = Some ((pre ++ [tk]) ++ ts)) by by rewrite <- app_assoc.
  intros [Htk Hts]. split; [|by eapply IH].
  assert (Hby : forall s, pinned_by h s ts -> pinned_by h' s ts).
  { intros s [Hp|(w & o & Hp & Ho & Hs)]; [by left|]. right.
    destruct (ref_ws_alive _ _ _ _ _ _ _ w Hok) as (o' & Ho' & Hc).
    { unfold ws_roots. rewrite !elem_of_app. right; right. eapply (elem_of_todo _ _ _ _ (T_release_ws w)); [done|set_solver|by left]. }
    simplify_eq. destruct (K2 _ _ Ho) as (o2 & Ho2 & E2); [unfold nonzero; lia|].
    exists w, o2. by rewrite E2. }
  destruct tk; try done; [by apply Hby|]. destruct Htk as [Hp (o & Ho & ->)]. split; [by apply Hby|].
  pose proof (pinned_by_alive _ _ _ _ _ _ Hok Ht' Hp) as Hin.
  destruct (ref_snap_alive _ _ _ _ _ _ _ s Hok Hin) as (o' & Ho' & Hc & _). simplify_eq.
  destruct (K1 _ _ Ho) as (o2 & Ho2 & E2); [unfold nonzero; lia|]. exists o2. by rewrite E2.
Qed.

(** ** Threads *)

(** Taking a task off a thread, and putting tasks in its place. *)
Lemma roots_pop h y t tk ts : y_todo y !! t = Some (tk :: ts) -> roots_ok h y ->
  let y0 := with_todo t ts y in
  heap_ok h (task_snaps tk ++ snap_roots y0) (task_wss tk ++ ws_roots y0)
    (task_frees tk ++ of_todo task_frees (y_todo y0)) (task_deallocs tk ++ of_todo task_deallocs (y_todo y0))
    (parse_bufs (y_parse y)) (mult 0 (task_cas tk) + mult 0 (of_todo task_cas (y_todo y0))).
Proof.
  intros Ht. apply heap_ok_mult; intros; try done; unfold snap_roots, ws_roots, of_todo; cbn;
    rewrite ?mult_app, ?(mult_update _ _ _ _ ts _ Ht); cbn; rewrite ?mult_app; lia.
Qed.

Lemma roots_push h y t tk ts new : y_todo y !! t = Some (tk :: ts) ->
  let y0 := with_todo t ts y in
  heap_ok h (flat_map task_snaps new ++ snap_roots y0) (flat_map task_wss new ++ ws_roots y0)
    (flat_map task_frees new ++ of_todo task_frees (y_todo y0))
    (flat_map task_deallocs new ++ of_todo task_deallocs (y_todo y0))
    (parse_bufs (y_parse y)) (mult 0 (flat_map task_cas new) + mult 0 (of_todo task_cas (y_todo y0))) ->
  roots_ok h (with_todo t (new ++ ts) y).
Proof.
  intros Ht. apply heap_ok_mult; intros; try done; unfold snap_roots, ws_roots, of_todo; cbn;
    rewrite ?mult_app, ?(mult_update _ _ _ _ ts _ Ht), ?(mult_update _ _ _ _ (new ++ ts) _ Ht), flat_map_app, ?mult_app; lia.
Qed.

(** Freeing only removes buffers. *)
Lemma run_task_bufs tk h h' new res : run_task tk h = Some (h', new, res) -> h_bufs h' ⊆ h_bufs h.
Proof.
  destruct tk; cbn; unfold docsnap_release, docsnap_free, tok_spans_release, ws_release, ws_dealloc, sem_load, sem_cas;
    intros; repeat (case_match || simplify_option_eq); try done; apply delete_subseteq.
Qed.

Lemma flat_map_release docs : flat_map task_snaps (T_release_snap <$> docs) = docs /\
  flat_map task_wss (T_release_snap <$> docs) = [] /\ flat_map task_frees (T_release_snap <$> docs) = [] /\
  flat_map task_deallocs (T_release_snap <$> docs) = [] /\ flat_map task_cas (T_release_snap <$> docs) = [].
Proof. induction docs as [|s docs (IH1 & IH2 & IH3 & IH4 & IH5)]; [done|]. cbn. by rewrite IH1, IH2, IH3, IH4, IH5. Qed.

Lemma pinned_releases h docs w ts : pinned h ts -> pinned h ((T_release_snap <$> docs) ++ T_dealloc_ws w :: ts).
Proof. intros. induction docs; cbn; done. Qed.

(** No task touches a freed object, and each keeps the references right. *)
Lemma run_task_ok y t tk ts : sys_ok y -> y_todo y !! t = Some (tk :: ts) ->
  exists h' new res, run_task tk (y_heap y) = Some (h', new, res) /\
    roots_ok h' (with_todo t (new ++ ts) y) /\ keeps nonzero (y_heap y) h' /\ pinned h' (new ++ ts) /\
    match res with
    | Some (s, data) => exists o, h_snaps h' !! s = Some o /\ data = compute_semantic_tokens_data (so_parsed o)
    | None => True
    end.
Proof.
  intros Hsys Ht. pose proof (sys_roots _ Hsys) as Hroots.
  pose proof (proj1 (Forall_lookup _ _) (sys_pinned _ Hsys) _ _ Ht) as [Htk Hts].
  assert (Hkeep : forall h', keeps nonzero (y_heap y) h' -> pinned h' ts).
  { intros h' K. exact (pinned_keeps _ _ y t ts [tk] Hroots Ht K Hts). }
  pose proof (roots_pop _ _ _ _ _ Ht Hroots) as Hpop. pose proof (fun h new => roots_push h y t tk ts new Ht) as Hpush.
  destruct tk as [s|s|w|w|s|s fresh]; cbn [task_snaps task_wss task_frees task_deallocs task_cas app mult] in Hpop.
  - destruct (docsnap_release_ok _ _ _ _ _ _ _ s Hpop) as (h' & new & Hr & K & Hcase).
    exists h', new, None. cbn. rewrite Hr. split; [done|].
    destruct Hcase as [[-> H]|[-> H]]; (split_and!; [by apply Hpush|done| |done]); cbn; auto.
  - destruct (docsnap_free_ok _ _ _ _ _ _ _ s Hpop) as (h' & Hr & H & K & _).
    exists h', [], None. cbn [run_task]. rewrite Hr. split_and!; [done|by apply Hpush|done|by apply Hkeep|done].
  - destruct (ws_release_ok _ _ _ _ _ _ _ w Hpop) as (h' & new & o & Hr & Ho & K & Hcase).
    exists h', new, None. cbn [run_task]. rewrite Hr. split; [done|].
    destruct Hcase as [[-> H]|[-> H]]; (split_and!; [apply Hpush|done| |done]); [done|by apply Hkeep| |].
    + destruct (flat_map_release (wo_docs o)) as (E1 & E2 & E3 & E4 & E5). rewrite !flat_map_app, E1, E2, E3, E4, E5. cbn.
      by rewrite app_nil_r.
    + rewrite <- app_assoc. apply pinned_releases. auto.
  - destruct (ws_dealloc_ok _ _ _ _ _ _ _ w Hpop) as (h' & Hr & H & K & _).
    exists h', [], None. cbn [run_task]. rewrite Hr. split_and!; [done|by apply Hpush|done|by apply Hkeep|done].
  - pose proof (pinned_by_alive _ _ _ _ [T_sem s] _ Hroots Ht Htk) as Hin.
    destruct (sem_load_ok _ _ _ _ _ _ _ s Hroots Hin) as (o & r & h' & Ho & Hr & Es & Ew & Hd & _).
    destruct (sem_load_ok _ _ _ _ _ _ _ s Hpop) as (o2 & r2 & h2 & Ho2 & Hr2 & _ & _ & _ & H).
    { revert Hin. rewrite !(mult_elem s), !mult_app. unfold snap_roots, of_todo. cbn.
      rewrite !mult_app, (mult_update _ _ _ _ ts _ Ht). cbn. lia. }
    rewrite Hr in Hr2. injection Hr2 as <- <-.
    assert (K : keeps nonzero (y_heap y) h') by by apply keeps_always, keeps_same.
    exists h'. cbn [run_task]. rewrite Hr. cbn. destruct r as [d|d]; eexists _, _; (split; [done|]).
    + split_and!; [by apply Hpush|done|by apply Hkeep|]. exists o. by rewrite Es.
    + split_and!; [apply Hpush; cbn; by rewrite Z.add_comm in H|done| |done]. cbn.
      split; [|by apply Hkeep]. split; [|by exists o; rewrite Es].
      destruct Htk as [Hp|(w & o' & Hp & Ho' & Hs)]; [by left|right]. exists w, o'. by rewrite Ew.
  - destruct Htk as [Hp (o & Ho & Hf)]. rewrite Z.add_comm in Hpop. cbn in Hpop.
    destruct (sem_cas_ok _ _ _ _ _ _ _ s o fresh Hpop Ho Hf) as (h' & Hr & H & K & _).
    pose proof K as [K1 _]. destruct (K1 _ _ Ho I) as (o' & Ho' & E').
    exists h', [], (Some (s, fresh)). cbn [run_task]. rewrite Hr.
    split_and!; [done|by apply Hpush|by apply keeps_always|by apply Hkeep, keeps_always|]. exists o'. by rewrite E'.
Qed.

Lemma pinned_all y h' : sys_ok y -> keeps nonzero (y_heap y) h' -> Forall (pinned h') (y_todo y).
Proof.
  intros Hsys K. apply Forall_lookup. intros t ts Ht.
  eapply (pinned_keeps _ _ y t ts []); [apply Hsys|done|done|].
  by eapply (proj1 (Forall_lookup _ _) (sys_pinned _ Hsys)).
Qed.

Lemma parse_shrinks h h' p Rs Rw Fs Fw c : heap_ok h' Rs Rw Fs Fw (parse_bufs p) c -> h_bufs h' ⊆ h_bufs h ->
  (if p is Some ps then parse_ok h ps else True) -> if p is Some ps then parse_ok h' ps else True.
Proof.
  intros Hr Hsub. destruct p as [ps|]; [|done]. unfold parse_ok.
  destruct (ps_buf ps) as [b|] eqn:Eb; [|done]. intros (buf & Hb & H). exists buf. split; [|done].
  destruct (buf_owned _ _ _ _ _ _ _ b Hr) as [v Hv]; [cbn; rewrite Eb; set_solver|].
  rewrite Hv. eapply lookup_weaken in Hv; [|done]. congruence.
Qed.

Lemma thread_step_ok y t tk ts : sys_ok y -> y_todo y !! t = Some (tk :: ts) ->
  exists y', thread_step t y = Some y' /\ sys_ok y'.
Proof.
  intros Hsys Ht. destruct (run_task_ok _ _ _ _ Hsys Ht) as (h' & new & res & Hrun & Hr & K & Hp & Hres).
  assert (Hok : sys_ok (with_todo t (new ++ ts) (with_heap h' y))).
  { split; cbn; [exact Hr| | |apply Hsys].
    - by apply Forall_insert; [apply (pinned_all _ _ Hsys K)|].
    - eapply (parse_shrinks (y_heap y) h'); [exact Hr| |apply Hsys].
      by eapply run_task_bufs. }
  unfold thread_step. rewrite Ht. cbn. rewrite Hrun. cbn. destruct res as [[s data]|]; [|by eexists].
  destruct Hres as (o & Ho & ->). rewrite Ho. cbn. eexists. split; [done|].
  destruct Hok as [H1 H2 H3 H4]. split; cbn; try done. apply Forall_app_2; [done|]. by constructor.
Qed.

(** ** The coordinator *)

Lemma idle_todo y : coordinator_idle y = true -> y_todo y !! O = Some [].
Proof. unfold coordinator_idle. by destruct (y_todo y !! O) as [[|]|]. Qed.

(** The roots after the idle coordinator is given work. *)
Lemma todo_new f y new x : coordinator_idle y = true ->
  mult x (of_todo f (<[O := new]> (y_todo y))) = mult x (flat_map f new) + mult x (of_todo f (y_todo y)).
Proof. intros H%idle_todo. unfold of_todo. rewrite (mult_update _ _ _ _ _ _ H). cbn. lia. Qed.

Lemma todo_thread f todo new x :
  mult x (of_todo f (todo ++ [new])) = mult x (of_todo f todo) + mult x (flat_map f new).
Proof. unfold of_todo. rewrite flat_map_app, mult_app. cbn. by rewrite app_nil_r. Qed.

Lemma flat_map_release_opt {f : task -> list nat} s : f = task_wss \/ f = task_frees \/ f = task_deallocs \/ f = task_cas ->
  flat_map f (release_opt s) = [].
Proof. destruct s; intros [->|[->|[->| ->]]]; done. Qed.

Lemma pinned_release_opt h s ts : pinned h ts -> pinned h (release_opt s ++ ts).
Proof. by destruct s. Qed.

Lemma parse_begin_ok y : sys_ok y -> coordinator_idle y = true -> y_parse y = None ->
  exists y', parse_begin y = Some y' /\ sys_ok y'.
Proof.
  intros Hsys Hi Hn. pose proof (sys_roots _ Hsys) as Hr. unfold roots_ok in Hr. rewrite Hn in Hr.
  destruct (tok_spans_take_ok _ _ _ _ _ _ Hr) as (ps & h' & Ht & H & Hps & Es & Ew & Eb).
  unfold parse_begin. rewrite Hi, Hn, Ht. cbn. eexists. split; [done|].
  split; cbn; [exact H|by apply (pinned_all _ _ Hsys), keeps_always, keeps_same|done|apply Hsys].
Qed.

Lemma parse_token_ok y b' usable t ps : sys_ok y -> y_parse y = Some ps ->
  (ps_cap ps <= Z.of_nat (ps_num ps) -> (b' ∉ dom (h_bufs (y_heap y))) /\
     (if ps_cap ps =? 0 then 64 else ps_cap ps * 2) * SIZEOF_SPAN <= usable) ->
  exists y', parse_token b' usable t y = Some y' /\ sys_ok y'.
Proof.
  intros Hsys Hp Hg. pose proof (sys_roots _ Hsys) as Hr. unfold roots_ok in Hr. rewrite Hp in Hr.
  pose proof (sys_parse _ Hsys) as Hps. rewrite Hp in Hps.
  assert (Hpush : exists ps' h', push_tok_span b' usable t ps (y_heap y) = Some (ps', h') /\
     heap_ok h' (snap_roots y) (ws_roots y) (of_todo task_frees (y_todo y)) (of_todo task_deallocs (y_todo y))
       (option_list (ps_buf ps')) (mult 0 (of_todo task_cas (y_todo y))) /\ parse_ok h' ps' /\
     h_snaps h' = h_snaps (y_heap y) /\ h_wss h' = h_wss (y_heap y)).
  { unfold push_tok_span. destruct (Z.geb_spec (Z.of_nat (ps_num ps)) (ps_cap ps)) as [Hge|Hlt].
    - destruct Hg as [Hb Hu]; [lia|].
      destruct (grow_spans_ok _ _ _ _ _ _ _ b' usable Hr Hps Hb Hu) as (ps1 & h1 & Hg & H1 & Hps1 & En & Ec & Es & Ew).
      rewrite Hg. cbn. destruct (store_span_ok _ _ _ _ _ _ ps1 t H1 Hps1) as (ps2 & h2 & Hs & H2 & Hps2 & Es2 & Ew2).
      { rewrite En, Ec. unfold parse_ok in Hps. destruct (ps_buf ps); [destruct Hps as (? & _ & ? & _ & ? & _)|];
          destruct (Z.eqb_spec (ps_cap ps) 0); lia. }
      rewrite Hs. exists ps2, h2. split_and!; congruence || done.
    - by apply store_span_ok. }
  destruct Hpush as (ps' & h' & Ht & H & Hps' & Es & Ew).
  unfold parse_token. rewrite Hp. cbn. rewrite Ht. cbn. eexists. split; [done|].
  split; cbn; [exact H|by apply (pinned_all _ _ Hsys), keeps_always, keeps_same|done|apply Hsys].
Qed.

Lemma parse_output_free_ok y ps : sys_ok y -> y_parse y = Some ps -> exists y', parse_output_free y = Some y' /\ sys_ok y'.
Proof.
  intros Hsys Hp. pose proof (sys_roots _ Hsys) as Hr. unfold roots_ok in Hr. rewrite Hp in Hr.
  cbn [parse_bufs] in Hr. rewrite <- (app_nil_r (option_list _)) in Hr.
  destruct (tok_spans_release_ok _ _ _ _ _ _ _ _ Hr) as (h' & Hrel & H & Es & Ew).
  unfold parse_output_free. rewrite Hp. cbn. rewrite Hrel. cbn. eexists. split; [done|].
  split; cbn; [exact H|by apply (pinned_all _ _ Hsys), keeps_always, keeps_same|done|apply Hsys].
Qed.

(** Counting the roots of a changed system. *)
Ltac count_roots Hi :=
  intros; try done; unfold snap_roots, ws_roots; cbn;
  rewrite ?mult_app, ?(todo_new _ _ _ _ Hi), ?todo_thread, ?flat_map_app, ?mult_app.

Lemma install_parse_ok y i s snap prev ps : sys_ok y -> coordinator_idle y = true -> y_slots y !! i = Some (snap, prev) ->
  y_parse y = Some ps -> s ∉ dom (h_snaps (y_heap y)) -> exists y', install_parse i s y = Some y' /\ sys_ok y'.
Proof.
  intros Hsys Hi Hsl Hp Hs. pose proof (sys_roots _ Hsys) as Hr. unfold roots_ok in Hr. rewrite Hp in Hr.
  pose proof (sys_parse _ Hsys) as Hps. rewrite Hp in Hps.
  destruct (docsnap_new_ok _ _ _ _ _ _ s ps Hr Hps Hs) as (h' & Hn & H & K & Ew).
  unfold install_parse. rewrite Hi, Hsl, Hp. cbn. rewrite Hn. cbn. eexists. split; [done|].
  split; cbn; [| |done|apply Hsys].
  - revert H. apply heap_ok_mult; count_roots Hi; [|destruct prev; cbn; lia..].
    rewrite (mult_update _ _ _ _ (Some s, snap) _ Hsl). unfold slot_refs. cbn [fst snd]. rewrite !mult_app.
    destruct prev, snap; cbn; lia.
  - apply Forall_insert; [by apply (pinned_all _ _ Hsys), keeps_always|by destruct prev].
Qed.

Lemma clear_parse_state_ok y i snap prev : sys_ok y -> coordinator_idle y = true -> y_slots y !! i = Some (snap, prev) ->
  exists y', clear_parse_state i y = Some y' /\ sys_ok y'.
Proof.
  intros Hsys Hi Hsl. unfold clear_parse_state. rewrite Hi, Hsl. cbn. eexists. split; [done|].
  split; cbn; [| |apply Hsys|apply Hsys].
  - pose proof (sys_roots _ Hsys) as H. revert H. apply heap_ok_mult; count_roots Hi; [|destruct prev, snap; cbn; lia..].
    rewrite (mult_update _ _ _ _ (None, None) _ Hsl). unfold slot_refs. cbn [fst snd]. rewrite !mult_app.
    destruct prev, snap; cbn; lia.
  - apply Forall_insert; [apply Hsys|by destruct snap, prev].
Qed.

Lemma acquire_all_bufs docs h h' : acquire_all docs h = Some h' -> h_bufs h' = h_bufs h.
Proof.
  revert h. induction docs as [|s docs IH]; intros h; cbn; [by intros [= ->]|].
  unfold docsnap_acquire. destruct (h_snaps h !! s); [|done]. cbn. by intros ->%IH.
Qed.

Lemma acquire_all_wss docs h h' : acquire_all docs h = Some h' -> h_wss h' = h_wss h.
Proof.
  revert h. induction docs as [|s docs IH]; intros h; cbn; [by intros [= ->]|].
  unfold docsnap_acquire. destruct (h_snaps h !! s); [|done]. cbn. by intros ->%IH.
Qed.

Lemma ws_build_bufs w docs h h' : ws_build w docs h = Some h' -> h_bufs h' = h_bufs h.
Proof.
  unfold ws_build. destruct (acquire_all docs h) as [h1|] eqn:E; [|done]. cbn.
  case_bool_decide; [done|]. intros [= <-]. by apply acquire_all_bufs in E.
Qed.

Lemma publish_ok y w : sys_ok y -> coordinator_idle y = true -> w ∉ dom (h_wss (y_heap y)) ->
  exists y', publish w y = Some y' /\ sys_ok y'.
Proof.
  intros Hsys Hi Hw. pose proof (sys_roots _ Hsys) as Hr. unfold roots_ok in Hr.
  destruct (ws_build_ok _ _ _ _ _ _ _ w (omap fst (y_slots y)) Hr) as (h' & Hb & H & K); [|done|].
  { intros s (v & Hv & Hs)%list_elem_of_omap. apply elem_of_app. left.
    rewrite list_elem_of_In, in_flat_map. exists v. rewrite <- !list_elem_of_In. split; [done|].
    unfold slot_refs. rewrite Hs. by left. }
  unfold publish. rewrite Hi, Hb. cbn. eexists. split; [done|].
  split; cbn; [| | |apply Hsys].
  - revert H. apply heap_ok_mult; count_roots Hi; destruct (y_ws y); cbn; rewrite ?mult_app; cbn; lia.
  - apply Forall_insert; [by apply (pinned_all _ _ Hsys), keeps_always|by destruct (y_ws y)].
  - eapply (parse_shrinks (y_heap y) h'); [exact H|by rewrite (ws_build_bufs _ _ _ _ Hb)|apply Hsys].
Qed.

Lemma diag_request_ok y k old w : sys_ok y -> coordinator_idle y = true -> y_pending y !! k = Some old ->
  y_ws y = Some w -> exists y', diag_request k y = Some y' /\ sys_ok y'.
Proof.
  intros Hsys Hi Hk Hw. pose proof (sys_roots _ Hsys) as Hr. unfold roots_ok in Hr.
  destruct (ws_acquire_ok _ _ _ _ _ _ _ w Hr) as (h' & o & Ha & H & K & Ho & _).
  { unfold ws_roots. rewrite Hw. by left. }
  unfold diag_request. rewrite Hi, Hk, Hw. cbn. rewrite Ha. cbn. eexists. split; [done|].
  split; cbn; [| | |apply Hsys].
  - revert H. apply heap_ok_mult; count_roots Hi; try (destruct old; cbn; lia).
    rewrite (mult_update _ _ _ _ (Some w) _ Hk). destruct old; cbn; rewrite ?mult_app; cbn; lia.
  - apply Forall_insert; [by apply (pinned_all _ _ Hsys), keeps_always|by destruct old].
  - eapply (parse_shrinks (y_heap y) h'); [exact H| |apply Hsys].
    unfold ws_acquire in Ha. rewrite Ho in Ha. by injection Ha as <-.
Qed.

Lemma diag_take_ok y k w : sys_ok y -> y_pending y !! k = Some (Some w) ->
  exists y', diag_take k y = Some y' /\ sys_ok y'.
Proof.
  intros Hsys Hk. unfold diag_take. rewrite Hk. cbn. eexists. split; [done|].
  split; cbn; [| |apply Hsys|apply Hsys].
  - pose proof (sys_roots _ Hsys) as H. revert H. apply heap_ok_mult; count_roots I; try (cbn; lia).
    rewrite (mult_update _ _ _ _ None _ Hk). cbn. lia.
  - apply Forall_app_2; [apply Hsys|by constructor].
Qed.

Lemma flat_map_sems uses : flat_map task_snaps (T_sem <$> uses) = [] /\ flat_map task_wss (T_sem <$> uses) = [] /\
  flat_map task_frees (T_sem <$> uses) = [] /\ flat_map task_deallocs (T_sem <$> uses) = [] /\
  flat_map task_cas (T_sem <$> uses) = [].
Proof. induction uses as [|s uses (IH1 & IH2 & IH3 & IH4 & IH5)]; [done|]. cbn. done. Qed.

Lemma pinned_sems h uses ts : Forall (fun s => pinned_by h s ts) uses -> pinned h ts -> pinned h ((T_sem <$> uses) ++ ts).
Proof.
  intros Hu Hts. induction Hu as [|s uses Hs Hu IH]; [done|]. cbn. split; [|done].
  destruct Hs as [Hp|(w & o & Hp & Ho & Hs)]; [left; set_solver|right]. exists w, o. split; [set_solver|done].
Qed.

Lemma acquire_opt_ok y i cur prev : sys_ok y -> y_slots y !! i = Some (cur, prev) ->
  exists h', (if prev is Some s then docsnap_acquire s (y_heap y) else Some (y_heap y)) = Some h' /\
    heap_ok h' (option_list prev ++ snap_roots y) (ws_roots y) (of_todo task_frees (y_todo y))
      (of_todo task_deallocs (y_todo y)) (parse_bufs (y_parse y)) (mult 0 (of_todo task_cas (y_todo y))) /\
    keeps always (y_heap y) h' /\ h_wss h' = h_wss (y_heap y) /\ h_bufs h' = h_bufs (y_heap y).
Proof.
  intros Hsys Hsl. pose proof (sys_roots _ Hsys) as Hr. unfold roots_ok in Hr.
  destruct prev as [s|]; [|exists (y_heap y); eauto using keeps_refl].
  destruct (docsnap_acquire_ok _ _ _ _ _ _ _ s Hr) as (h' & Ha & H & K & Ew).
  { apply elem_of_app. left. apply elem_of_app. left. rewrite list_elem_of_In, in_flat_map. exists (cur, Some s).
    rewrite <- !list_elem_of_In. split; [by eapply list_elem_of_lookup_2|]. unfold slot_refs. cbn. set_solver. }
  exists h'. split_and!; try done. unfold docsnap_acquire in Ha. destruct (h_snaps (y_heap y) !! s); [|done].
  by injection Ha as <-.
Qed.

(** What a query may read: the documents of the published workspace, and the
    previous parse of its document. *)
Definition readable (y : system) (prev : option nat) (s : nat) : Prop :=
  prev = Some s \/ exists w o, y_ws y = Some w /\ h_wss (y_heap y) !! w = Some o /\ s ∈ wo_docs o.

Lemma start_query_ok y i uses cur prev : sys_ok y -> coordinator_idle y = true -> y_slots y !! i = Some (cur, prev) ->
  (y_ws y <> None -> Forall (readable y prev) uses) -> exists y', start_query i uses y = Some y' /\ sys_ok y'.
Proof.
  intros Hsys Hi Hsl Huses. destruct (acquire_opt_ok y i cur prev Hsys Hsl) as (h1 & Ha & H1 & K1 & Ew1 & Eb1).
  unfold start_query. rewrite Hi, Hsl. cbn. rewrite Ha. cbn. destruct (y_ws y) as [w|] eqn:Ew.
  - destruct (ws_acquire_ok _ _ _ _ _ _ _ w H1) as (h2 & o & Hw & H2 & K2 & Ho & Ho').
    { unfold ws_roots. rewrite Ew. by left. }
    rewrite Hw. cbn. rewrite Ho'. cbn.
    assert (Hin : Forall (fun s => s ∈ wo_docs o \/ prev = Some s) uses).
    { eapply Forall_impl; [by apply Huses|]. intros s [->|(w' & o' & E & Ho'' & Hs)]; [by right|left].
      rewrite Ew1 in Ho. by simplify_eq. }
    rewrite bool_decide_true by done. eexists. split; [done|]. split; cbn; [| | |apply Hsys].
    + revert H2. destruct (flat_map_sems uses) as (E1 & E2 & E3 & E4 & E5).
      apply heap_ok_mult; count_roots Hi; rewrite ?E1, ?E2, ?E3, ?E4, ?E5, ?mult_cons_eq;
        destruct prev; cbn [mult option_list option_rect flat_map release_opt app task_snaps task_wss task_frees task_deallocs task_cas];
        rewrite ?mult_app; cbn [mult]; try lia; rewrite ?Ew; cbn [mult option_list option_rect]; lia.
    + apply Forall_app_2; [by apply (pinned_all _ _ Hsys), keeps_always, (keeps_trans _ h1)|]. constructor; [|done].
      apply pinned_sems; [|by destruct prev].
      eapply Forall_impl; [exact Hin|]. intros s [Hs| ->]; [right|left; cbn; by left].
      exists w, (mkWs (wo_count o + 1) (wo_docs o)). split; [|done]. destruct prev; cbn; set_solver.
    + eapply (parse_shrinks (y_heap y) h2); [exact H2| |apply Hsys].
      unfold ws_acquire in Hw. rewrite Ho in Hw. injection Hw as <-. cbn. by rewrite Eb1.
  - eexists. split; [done|]. split; cbn; [| | |apply Hsys].
    + revert H1. apply heap_ok_mult; count_roots Hi; destruct prev; cbn [mult option_list option_rect flat_map release_opt app task_snaps task_wss task_frees task_deallocs task_cas]; rewrite ?mult_app; cbn [mult]; try lia.
    + apply Forall_app_2; [by apply (pinned_all _ _ Hsys), keeps_always|]. constructor; [by destruct prev|done].
    + eapply (parse_shrinks (y_heap y) h1); [exact H1|by rewrite Eb1|apply Hsys].
Qed.

(** ** Reachable states *)

Lemma system_init_ok n m : sys_ok (system_init n m).
Proof.
  split; cbn; [|by repeat constructor|done|constructor].
  assert (Hslots : flat_map slot_refs (replicate n (None, None)) = []) by (induction n; done).
  assert (Hpend : flat_map option_list (replicate m (@None nat)) = []) by (induction m; done).
  unfold roots_ok, snap_roots, ws_roots. cbn. rewrite Hslots, Hpend. split; try done.
Qed.

Lemma step_ok y y' : sys_ok y -> system_step y y' -> sys_ok y'.
Proof.
  intros Hsys Hstep. destruct Hstep as [H|b' usable t H|H|i s H|i H|w H|k H|k H|i uses H|t H].
  - assert (Hg : coordinator_idle y = true /\ y_parse y = None).
    { revert H. unfold parse_begin. destruct (coordinator_idle y), (y_parse y); done. }
    destruct (parse_begin_ok y Hsys (proj1 Hg) (proj2 Hg)) as (y2 & E & Hok). congruence.
  - destruct (y_parse y) as [ps|] eqn:Ep; [|by unfold parse_token in H; rewrite Ep in H].
    destruct (parse_token_ok y b' usable t ps Hsys Ep) as (y2 & E & Hok); [|congruence].
    intros Hge. unfold parse_token, push_tok_span, grow_spans in H. rewrite Ep in H. cbn in H.
    destruct (Z.geb_spec (Z.of_nat (ps_num ps)) (ps_cap ps)); [|lia].
    case_bool_decide; [done|]. split; [done|]. by destruct (Z.ltb_spec usable ((if ps_cap ps =? 0 then 64 else ps_cap ps * 2) * SIZEOF_SPAN)).
  - destruct (y_parse y) as [ps|] eqn:Ep; [|by unfold parse_output_free in H; rewrite Ep in H].
    destruct (parse_output_free_ok y ps Hsys Ep) as (y2 & E & Hok). congruence.
  - revert H. unfold install_parse. destruct (coordinator_idle y) eqn:Hi; [|done]. intros H.
    destruct (y_slots y !! i) as [[snap prev]|] eqn:Hsl; [|done]. destruct (y_parse y) as [ps|] eqn:Ep; [|done].
    destruct (decide (s ∈ dom (h_snaps (y_heap y)))) as [Hin|Hin].
    + cbn in H. unfold docsnap_new in H. destruct (spans_of _ _ _); [|done]. cbn in H. by rewrite bool_decide_true in H.
    + destruct (install_parse_ok y i s snap prev ps) as (y2 & E & Hok); try done.
      unfold install_parse in E. rewrite Hi, Hsl, Ep in E. congruence.
  - destruct (coordinator_idle y) eqn:Hi; [|by unfold clear_parse_state in H; rewrite Hi in H].
    destruct (y_slots y !! i) as [[snap prev]|] eqn:Hsl; [|by unfold clear_parse_state in H; rewrite Hi, Hsl in H].
    destruct (clear_parse_state_ok y i snap prev Hsys Hi Hsl) as (y2 & E & Hok). congruence.
  - destruct (coordinator_idle y) eqn:Hi; [|by unfold publish in H; rewrite Hi in H].
    destruct (decide (w ∈ dom (h_wss (y_heap y)))) as [Hin|Hin];
      [|by destruct (publish_ok y w Hsys Hi Hin) as (y2 & E & Hok); congruence].
    exfalso. unfold publish, ws_build in H. rewrite Hi in H. destruct (acquire_all _ _) as [h1|] eqn:Ea; [|done].
    apply acquire_all_wss in Ea. cbn in H. rewrite Ea, bool_decide_true in H by done. done.
  - destruct (coordinator_idle y) eqn:Hi; [|by unfold diag_request in H; rewrite Hi in H].
    destruct (y_pending y !! k) as [old|] eqn:Hk; [|by unfold diag_request in H; rewrite Hi, Hk in H].
    destruct (y_ws y) as [w|] eqn:Hw; [|by unfold diag_request in H; rewrite Hi, Hk, Hw in H].
    destruct (diag_request_ok y k old w Hsys Hi Hk Hw) as (y2 & E & Hok). congruence.
  - destruct (y_pending y !! k) as [[w|]|] eqn:Hk; [|by unfold diag_take in H; rewrite Hk in H..].
    destruct (diag_take_ok y k w Hsys Hk) as (y2 & E & Hok). congruence.
  - destruct (coordinator_idle y) eqn:Hi; [|by unfold start_query in H; rewrite Hi in H].
    destruct (y_slots y !! i) as [[cur prev]|] eqn:Hsl; [|by unfold start_query in H; rewrite Hi, Hsl in H].
    destruct (start_query_ok y i uses cur prev Hsys Hi Hsl) as (y2 & E & Hok); [|congruence].
    intros Hws. destruct (y_ws y) as [w|] eqn:Ew; [|done].
    destruct (acquire_opt_ok y i cur prev Hsys Hsl) as (h1 & Ha & _ & _ & Ew1 & _).
    unfold start_query in H. rewrite Hi, Hsl in H. cbn in H. rewrite Ha, Ew in H. cbn in H.
    unfold ws_acquire in H. rewrite Ew1 in H. destruct (h_wss (y_heap y) !! w) as [o|] eqn:Ho; [|done].
    cbn in H. rewrite lookup_insert_eq in H. cbn in H. case_bool_decide as Hu; [|done].
    eapply Forall_impl; [exact Hu|]. intros s [Hs| ->]; [right; eauto|by left].
  - destruct (y_todo y !! t) as [[|tk ts]|] eqn:Ht; [by unfold thread_step in H; rewrite Ht in H| |by unfold thread_step in H; rewrite Ht in H].
    destruct (thread_step_ok y t tk ts Hsys Ht) as (y2 & E & Hok). congruence.
Qed.

Definition reachable (num_slots num_workers : nat) (y : system) : Prop :=
  rtc system_step (system_init num_slots num_workers) y.

Lemma reachable_ok n m y : reachable n m y -> sys_ok y.
Proof.
  intros H. pose proof (system_init_ok n m) as H0. unfold reachable in H.
  induction H as [y|y1 y2 y3 Hs _ IH]; [done|]. eauto using step_ok.
Qed.

(** Nothing holds a reference and no thread has anything left to do. *)
Definition quiescent (y : system) : Prop :=
  y_ws y = None /\ Forall (eq None) (y_pending y) /\ Forall (eq (None, None)) (y_slots y) /\
  Forall (eq []) (y_todo y) /\ y_parse y = None.

Lemma flat_map_empty {A B} (f : A -> list B) v l : Forall (eq v) l -> f v = [] -> flat_map f l = [].
Proof. intros H Hv. induction H as [|x l <- H IH]; [done|]. cbn. by rewrite Hv, IH. Qed.

(** With no reference left there is no object left. *)
Lemma quiescent_empty y : sys_ok y -> quiescent y ->
  h_wss (y_heap y) = ∅ /\ h_snaps (y_heap y) = ∅ /\ h_memos (y_heap y) = 0 /\
  (forall b, is_Some (h_bufs (y_heap y) !! b) -> h_recycle (y_heap y) = Some b).
Proof.
  intros Hsys (Hws & Hp & Hs & Ht & Hpa). pose proof (sys_roots _ Hsys) as [Hsn Hwn Hb Hm Hz].
  unfold snap_roots, ws_roots, of_todo in *. rewrite Hpa, Hws in *.
  assert (Etodo : forall f : task -> list nat, flat_map (flat_map f) (y_todo y) = []) by (intros; by eapply flat_map_empty).
  rewrite !Etodo, (flat_map_empty _ _ _ Hp), (flat_map_empty _ _ _ Hs) in * by done. cbn in *.
  assert (E1 : h_wss (y_heap y) = ∅).
  { apply map_empty. intros w. specialize (Hwn w). destruct (h_wss (y_heap y) !! w) as [o|]; [|done].
    destruct Hwn as [E1 E2]. rewrite E1 in E2. done. }
  rewrite E1 in Hsn. assert (E2 : h_snaps (y_heap y) = ∅).
  { apply map_empty. intros s. specialize (Hsn s). destruct (h_snaps (y_heap y) !! s) as [o|]; [|done].
    destruct Hsn as [[F1 F2] _]. change (gather live_docs ∅) with (@nil nat) in F1. cbn in F1. rewrite F1 in F2. done. }
  rewrite E2 in Hb, Hm. split_and!; [done|done|exact Hm|].
  intros b [v Hv]. assert (Hin : b ∈ (map_to_list (h_bufs (y_heap y))).*1).
  { apply list_elem_of_fmap. exists (b, v). by rewrite elem_of_map_to_list. }
  rewrite <- Hb in Hin. change (gather held_span ∅) with (@nil nat) in Hin.
  destruct (h_recycle (y_heap y)) as [r|]; cbn in Hin; set_solver.
Qed.

(** ** Theorem *)

(** C14: Snapshots live exactly as long as they are referenced.  In every state
    the coordinator, the query workers and the diagnostics workers can reach,
    whatever way their steps interleave: no thread ever touches a freed object
    or gets stuck, nor does the coordinator when it publishes a workspace or
    starts a query; every reference held by a document slot, [g_ws], a worker, a
    query or a workspace is to a live object; each token-span buffer has exactly
    one owner (the recycle slot, the parse in progress or one snapshot), so a
    buffer is never recycled under a reader, and every semantic-token array
    returned is that of the tokens its snapshot was created with, also when
    several threads race to publish the memo; and once no reference is left,
    every snapshot, workspace and memo has been freed, and every buffer too but
    the one cached. *)
Theorem snapshot_lifetimes n m y : reachable n m y ->
  (forall t tk ts, y_todo y !! t = Some (tk :: ts) -> exists y', thread_step t y = Some y') /\
  (forall s, s ∈ snap_roots y ++ gather live_docs (h_wss (y_heap y)) ->
     exists o, h_snaps (y_heap y) !! s = Some o /\ so_count o = mult s (snap_roots y ++ gather live_docs (h_wss (y_heap y)))) /\
  (forall w, w ∈ ws_roots y -> exists o, h_wss (y_heap y) !! w = Some o /\ wo_count o = mult w (ws_roots y)) /\
  (coordinator_idle y = true -> forall w, w ∉ dom (h_wss (y_heap y)) -> exists y', publish w y = Some y') /\
  (coordinator_idle y = true -> forall i uses cur prev, y_slots y !! i = Some (cur, prev) ->
     Forall (readable y prev) uses -> exists y', start_query i uses y = Some y') /\
  (let owned := option_list (h_recycle (y_heap y)) ++ parse_bufs (y_parse y) ++ gather held_span (h_snaps (y_heap y)) in
   NoDup owned /\ forall b, b ∈ owned <-> is_Some (h_bufs (y_heap y) !! b)) /\
  Forall (fun r => r.2 = compute_semantic_tokens_data r.1) (y_results y) /\
  (quiescent y -> h_wss (y_heap y) = ∅ /\ h_snaps (y_heap y) = ∅ /\ h_memos (y_heap y) = 0 /\
     (forall b, is_Some (h_bufs (y_heap y) !! b) -> h_recycle (y_heap y) = Some b)).
Proof.
  intros Hsys%reachable_ok. pose proof (sys_roots _ Hsys) as Hr. split_and!.
  - intros t tk ts Ht. destruct (thread_step_ok _ _ _ _ Hsys Ht) as (y' & E & _). eauto.
  - intros s Hs. destruct (ref_snap_alive _ _ _ _ _ _ _ s Hr Hs) as (o & Ho & _). exists o. split; [done|].
    pose proof (ok_snaps _ _ _ _ _ _ _ Hr s) as H. rewrite Ho in H. apply H.
  - intros w Hw. destruct (ref_ws_alive _ _ _ _ _ _ _ w Hr Hw) as (o & Ho & _). exists o. split; [done|].
    pose proof (ok_wss _ _ _ _ _ _ _ Hr w) as H. rewrite Ho in H. apply H.
  - intros Hi w Hw. destruct (publish_ok y w Hsys Hi Hw) as (y' & E & _). eauto.
  - intros Hi i uses cur prev Hsl Hu. destruct (start_query_ok y i uses cur prev Hsys Hi Hsl) as (y' & E & _); eauto.
  - split; [by eapply bufs_nodup|]. intros b. split; [by eapply buf_owned|]. intros [v Hv]. rewrite (ok_bufs _ _ _ _ _ _ _ Hr).
    apply list_elem_of_fmap. exists (b, v). by rewrite elem_of_map_to_list.
  - apply Hsys.
  - by apply quiescent_empty.
Qed.

(** A document is parsed and published; a query on it is still reading when the
    document is parsed again and published again and the diagnostics worker
    has taken the first workspace. *)
Definition sample_span : TokenSpan := mkSpan TK_IDENT (mkPos 0 0) (mkPos 0 1) (Some "a"%string).

Definition step_all (ops : list (system -> option system)) (y : system) : option system :=
  foldl (fun acc op => acc ≫= op) (Some y) ops.

Definition sample_ops : list (system -> option system) :=
  [parse_begin; parse_token 0 2048 sample_span; install_parse 0 10; publish 20; diag_request 0;
   start_query 0 [10]%nat; diag_take 0; thread_step 1;
   parse_begin; parse_token 1 2048 sample_span; install_parse 0 11; publish 21; thread_step 0;
   thread_step 2; thread_step 1; thread_step 1; thread_step 1; thread_step 1].

Lemma snapshot_lifetimes_witness : exists y,
  step_all sample_ops (system_init 1 1) = Some y /\ reachable 1 1 y /\ length (y_results y) = 1%nat /\
  Forall (fun r => r.2 = compute_semantic_tokens_data r.1) (y_results y) /\
  exists o, h_snaps (y_heap y) !! 10%nat = Some o /\
    so_count o = mult 10 (snap_roots y ++ gather live_docs (h_wss (y_heap y))).
Proof.
  eexists. split; [vm_compute; reflexivity|].
  match goal with |- reachable _ _ ?y /\ _ => assert (Hr : reachable 1 1 y) end.
  { eapply rtc_l; [apply Step_parse_begin; vm_compute; reflexivity|].
    eapply rtc_l; [apply (Step_parse_token _ _ 0 2048 sample_span); vm_compute; reflexivity|].
    eapply rtc_l; [apply (Step_install_parse _ _ 0 10); vm_compute; reflexivity|].
    eapply rtc_l; [apply (Step_publish _ _ 20); vm_compute; reflexivity|].
    eapply rtc_l; [apply (Step_diag_request _ _ 0); vm_compute; reflexivity|].
    eapply rtc_l; [apply (Step_start_query _ _ 0 [10]%nat); vm_compute; reflexivity|].
    eapply rtc_l; [apply (Step_diag_take _ _ 0); vm_compute; reflexivity|].
    eapply rtc_l; [apply (Step_thread _ _ 1); vm_compute; reflexivity|].
    eapply rtc_l; [apply Step_parse_begin; vm_compute; reflexivity|].
    eapply rtc_l; [apply (Step_parse_token _ _ 1 2048 sample_span); vm_compute; reflexivity|].
    eapply rtc_l; [apply (Step_install_parse _ _ 0 11); vm_compute; reflexivity|].
    eapply rtc_l; [apply (Step_publish _ _ 21); vm_compute; reflexivity|].
    eapply rtc_l; [apply (Step_thread _ _ 0); vm_compute; reflexivity|].
    eapply rtc_l; [apply (Step_thread _ _ 2); vm_compute; reflexivity|].
    do 4 (eapply rtc_l; [apply (Step_thread _ _ 1); vm_compute; reflexivity|]).
    apply rtc_refl. }
  destruct (snapshot_lifetimes _ _ _ Hr) as (_ & Hs & _ & _ & _ & _ & Hres & _).
  split; [exact Hr|]. split; [done|]. split; [exact Hres|]. apply Hs, mult_elem. vm_compute. done.
Defined.
