(* ===== verification/Framing.v ===== *)
(** * [main.c] and [rpc.c]: messages on the wire.

    The headers and bodies [read_message] takes from stdin (everything up to the
    end of input, as a list of bytes), the loop of [main], and what
    [lsp_send_message] writes. *)

From S2P Require Import Prelude CText.
Local Open Scope Z_scope.

Definition CONTENT_LENGTH_MAX : Z := 16 * 1024 * 1024.

Definition carriage_return : ascii := "013"%char.
Definition crlf : list ascii := [carriage_return; newline].
Definition content_length_header : list ascii := list_ascii_of_string "Content-Length: ".

(** ** Reading *)

(** [fgets] into a buffer with room for [n] characters: up to the first line
    break, which it keeps; [None] at the end of input. *)
Fixpoint read_line (n : nat) (input : list ascii) : list ascii * list ascii :=
  match n, input with
  | S n', c :: input' =>
      if bool_decide (c = newline) then ([c], input')
      else let '(l, rest) := read_line n' input' in (c :: l, rest)
  | _, _ => ([], input)
  end.
Definition fgets (size : nat) (input : list ascii) : option (list ascii * list ascii) :=
  match input with [] => None | _ => Some (read_line (Nat.pred size) input) end.

(** The trailing carriage returns and line breaks are cut off. *)
Definition is_eol (c : ascii) : bool := bool_decide (c = carriage_return) || bool_decide (c = newline).
Fixpoint drop_eol (rev_line : list ascii) : list ascii :=
  match rev_line with
  | c :: l => if is_eol c then drop_eol l else rev_line
  | [] => []
  end.
Definition strip_eol (line : list ascii) : list ascii := reverse (drop_eol (reverse (until_nul line))).

(** [strncmp (line, "Content-Length: ", 16) == 0] and [atoi] of the rest. *)
Fixpoint after_prefix (p l : list ascii) : option (list ascii) :=
  match p, l with
  | [], _ => Some l
  | a :: p', b :: l' => if bool_decide (a = b) then after_prefix p' l' else None
  | _, _ => None
  end.
Definition header_length (line : list ascii) (content_length : Z) : Z :=
  match after_prefix content_length_header line with
  | Some digits => int32 (strtol digits)
  | None => content_length
  end.

(** The header loop; every line takes a character, so the length of the input
    bounds its rounds. *)
Fixpoint read_headers (fuel : nat) (content_length : Z) (input : list ascii) : option (Z * list ascii) :=
  match fuel with
  | O => None
  | S fuel' =>
      match fgets 256 input with
      | None => Some (content_length, input)
      | Some (line, rest) =>
          match strip_eol line with
          | [] => Some (content_length, rest)
          | line => read_headers fuel' (header_length line content_length) rest
          end
      end
  end.

(** The body: as many bytes as announced, or those left. *)
Definition read_message (input : list ascii) : option (list ascii * list ascii) :=
  '(content_length, rest) ← read_headers (S (length input)) (-1) input;
  if (content_length <=? 0) || (content_length >=? CONTENT_LENGTH_MAX) then None
  else Some (take (Z.to_nat content_length) rest, drop (Z.to_nat content_length) rest).

(** The loop of [main]: the bodies handed to [server_process] until the first
    [NULL]. *)
Fixpoint main_loop (fuel : nat) (input : list ascii) : option (list (list ascii)) :=
  match fuel with
  | O => None
  | S fuel' =>
      match read_message input with
      | None => Some []
      | Some (body, rest) => cons body <$> main_loop fuel' rest
      end
  end.

(** ** Writing *)

(** What one call writes to stdout; the lock keeps it in one piece. *)
Definition lsp_send_message (msg : list ascii) : list ascii :=
  content_length_header ++ write_decimal 20 (Z.of_nat (length msg)) ++ crlf ++ crlf ++ msg.

(** A message of a client: other header lines before and after the length. *)
Record wire_message : Set := mkWire { before : list (list ascii); after : list (list ascii); body : list ascii }.

Definition header_lines (hs : list (list ascii)) : list ascii := flat_map (fun h => h ++ crlf) hs.
Definition wire_text (m : wire_message) : list ascii :=
  header_lines (before m) ++ content_length_header ++ write_decimal 20 (Z.of_nat (length (body m))) ++ crlf
    ++ header_lines (after m) ++ crlf ++ body m.

(** Header lines the reader can take: not blank, short enough for its buffer,
    without line ends or NUL, and not another length. *)
Definition header_ok (h : list ascii) : Prop :=
  h <> [] /\ (length h <= 253)%nat /\ Forall (fun c => c <> nul /\ c <> newline /\ c <> carriage_return) h /\
  after_prefix content_length_header h = None.
Definition wire_ok (m : wire_message) : Prop :=
  Forall header_ok (before m) /\ Forall header_ok (after m) /\
  0 < Z.of_nat (length (body m)) < CONTENT_LENGTH_MAX.

(** ** Lines *)

Lemma read_line_spec n l rest : newline ∉ l -> (length l < n)%nat ->
  read_line n (l ++ newline :: rest) = (l ++ [newline], rest).
Proof.
  revert n. induction l as [|c l IH]; intros [|n] Hl Hn; cbn in *; try lia; [done|].
  apply not_elem_of_cons in Hl as [Hc Hl]. rewrite bool_decide_false by done. rewrite IH by (done || lia). done.
Qed.

Lemma strip_eol_line h : Forall (fun c => c <> nul /\ c <> newline /\ c <> carriage_return) h ->
  strip_eol (h ++ crlf) = h.
Proof.
  intros H. unfold strip_eol. rewrite until_nul_id.
  - rewrite reverse_app. change (drop_eol (reverse crlf ++ reverse h)) with (drop_eol (reverse h)).
    transitivity (reverse (reverse h)); [f_equal|apply reverse_involutive].
    destruct (reverse h) as [|c l] eqn:E; [done|]. cbn.
    assert (Hc : c ∈ h) by (rewrite <- elem_of_reverse, E; by left).
    pose proof (proj1 (Forall_forall _ _) H c Hc) as (_ & H1 & H2). unfold is_eol.
    by rewrite !bool_decide_false.
  - intros [Hin|Hin]%elem_of_app; [by apply (proj1 (Forall_forall _ _) H) in Hin as [? _]|].
    unfold crlf, carriage_return, newline, nul in Hin. set_solver.
Qed.

Lemma after_prefix_app p l : after_prefix p (p ++ l) = Some l.
Proof. induction p as [|a p IH]; [done|]. cbn. by rewrite bool_decide_true. Qed.

(** One header line. *)
Lemma read_header fuel cl h rest :
  h <> [] -> (length h <= 253)%nat -> Forall (fun c => c <> nul /\ c <> newline /\ c <> carriage_return) h ->
  read_headers (S fuel) cl (h ++ crlf ++ rest) = read_headers fuel (header_length h cl) rest.
Proof.
  intros Hne Hl Hc. cbn [read_headers]. unfold fgets.
  destruct (h ++ crlf ++ rest) as [|c0 l0] eqn:E; [by destruct h|]. rewrite <- E.
  replace (h ++ crlf ++ rest) with ((h ++ [carriage_return]) ++ newline :: rest) by (by rewrite <- !app_assoc).
  rewrite read_line_spec.
  - rewrite <- app_assoc. cbn [app]. change [carriage_return; newline] with crlf. rewrite strip_eol_line by done.
    by destruct h.
  - intros [Hin|Hin]%elem_of_app; [by apply (proj1 (Forall_forall _ _) Hc) in Hin as (_ & ? & _)|].
    unfold carriage_return, newline in Hin. set_solver.
  - rewrite length_app. cbn. lia.
Qed.

Lemma read_blank fuel cl rest : read_headers (S fuel) cl (crlf ++ rest) = Some (cl, rest).
Proof. reflexivity. Qed.

Lemma read_header_lines fuel cl hs rest : Forall header_ok hs ->
  read_headers (length hs + fuel) cl (header_lines hs ++ rest) = read_headers fuel cl rest.
Proof.
  induction 1 as [|h hs (Hne & Hl & Hc & Hp) _ IH]; [done|].
  cbn [length header_lines flat_map Nat.add]. rewrite <- !app_assoc. rewrite read_header by done.
  unfold header_length. by rewrite Hp.
Qed.

Lemma length_header_lines hs : (length hs <= length (header_lines hs))%nat.
Proof. induction hs as [|h hs IH]; cbn; [done|]. rewrite length_app, length_app. cbn. unfold header_lines in IH. lia. Qed.

Lemma length_line_ok n : 0 <= n ->
  let h := content_length_header ++ write_decimal 20 n in
  h <> [] /\ (length h <= 253)%nat /\ Forall (fun c => c <> nul /\ c <> newline /\ c <> carriage_return) h.
Proof.
  intros Hn h. split; [done|]. split.
  - unfold h. rewrite length_app. pose proof (length_write_decimal 20 n ltac:(lia)). cbn [length content_length_header list_ascii_of_string]. lia.
  - apply Forall_app. split; [by repeat (constructor; [done|])|].
    eapply Forall_impl; [apply write_decimal_digits|]. intros c Hc. by split_and!; intros ->.
Qed.

(** ** One message *)

Lemma read_wire m rest : wire_ok m -> read_message (wire_text m ++ rest) = Some (body m, rest).
Proof.
  intros (Hb & Ha & Hl). unfold read_message, wire_text.
  set (n := Z.of_nat (length (body m))) in *.
  assert (Hh : forall fuel, read_headers (length (before m) + S (length (after m) + S fuel)) (-1)
                 ((header_lines (before m) ++ content_length_header ++ write_decimal 20 n ++ crlf
                    ++ header_lines (after m) ++ crlf ++ body m) ++ rest) = Some (n, body m ++ rest)).
  { intros fuel. rewrite <- !app_assoc. rewrite read_header_lines by done.
    rewrite (app_assoc content_length_header). destruct (length_line_ok n) as (H1 & H2 & H3); [lia|].
    rewrite read_header by done. unfold header_length. rewrite after_prefix_app, strtol_digits.
    - rewrite write_decimal_value by (unfold CONTENT_LENGTH_MAX in Hl; lia).
      replace (int32 (Z.min LONG_MAX n)) with n.
      + rewrite read_header_lines by done. by rewrite read_blank.
      + unfold int32, LONG_MAX, CONTENT_LENGTH_MAX in *. rewrite Z.min_r by lia. rewrite Z.mod_small by lia. lia.
    - apply write_decimal_nonempty; lia.
    - apply write_decimal_digits. }
  match goal with |- context [read_headers ?f _ ?inp] =>
    replace f with (length (before m) + S (length (after m) + S (f - length (before m) - length (after m) - 2)))%nat end.
  - rewrite Hh. cbn. destruct (Z.leb_spec n 0); [lia|]. destruct (Z.geb_spec n CONTENT_LENGTH_MAX); [lia|]. cbn.
    unfold n. rewrite Nat2Z.id, take_app_length, drop_app_length. done.
  - rewrite !length_app. pose proof (length_header_lines (before m)). pose proof (length_header_lines (after m)). cbn. lia.
Qed.

(** ** Termination *)

Lemma read_line_length n input l rest : read_line n input = (l, rest) -> (0 < n)%nat -> input <> [] ->
  (length rest < length input)%nat.
Proof.
  assert (Hle : forall n input l rest, read_line n input = (l, rest) -> (length rest <= length input)%nat).
  { clear. induction n as [|n IH]; intros [|c input] l rest; cbn; try (intros [= <- <-]; cbn; lia).
    case_bool_decide; [intros [= <- <-]; lia|]. destruct (read_line n input) as [l1 r1] eqn:E.
    intros [= <- <-]. apply IH in E. lia. }
  intros H Hn Hi. destruct n as [|n]; [lia|]. destruct input as [|c input]; [done|]. cbn in H.
  case_bool_decide; [injection H as <- <-; cbn; lia|]. destruct (read_line n input) as [l1 r1] eqn:E.
  injection H as <- <-. apply Hle in E. cbn. lia.
Qed.

Lemma read_headers_total fuel cl input : (length input < fuel)%nat ->
  exists n rest, read_headers fuel cl input = Some (n, rest) /\ (length rest <= length input)%nat.
Proof.
  revert cl input. induction fuel as [|fuel IH]; intros cl input Hf; [lia|]. cbn [read_headers].
  unfold fgets. destruct input as [|c input]; [by eexists _, _|].
  destruct (read_line (Nat.pred 256) (c :: input)) as [line rest] eqn:E.
  apply read_line_length in E as Hlt; [|cbn; lia|done].
  destruct (strip_eol line); [eexists _, _; split; [done|lia]|].
  destruct (IH (header_length (a :: l) cl) rest) as (n & r & -> & Hr); [lia|]. eexists _, _. split; [done|lia].
Qed.

(** A message takes at least one byte of the input. *)
Lemma read_message_total input :
  read_message input = None \/
  exists body rest, read_message input = Some (body, rest) /\
    (input <> [] -> (length rest < length input)%nat) /\ Z.of_nat (length body) < CONTENT_LENGTH_MAX.
Proof.
  unfold read_message. destruct input as [|c input]; [by left|].
  assert (Hlt : exists n rest, read_headers (S (length (c :: input))) (-1) (c :: input) = Some (n, rest) /\
                  (length rest < length (c :: input))%nat).
  { cbn [read_headers]. unfold fgets. destruct (read_line (Nat.pred 256) (c :: input)) as [line rest] eqn:E.
    apply read_line_length in E as Hlt; [|cbn; lia|done].
    destruct (strip_eol line); [by eexists _, _|].
    destruct (read_headers_total (length (c :: input)) (header_length (a :: l) (-1)) rest) as (n & r & -> & Hr); [lia|].
    eexists _, _. split; [done|lia]. }
  destruct Hlt as (n & rest & -> & Hr). cbn [mbind option_bind].
  destruct (Z.leb_spec n 0); [by left|]. destruct (Z.geb_spec n CONTENT_LENGTH_MAX); [by left|]. right.
  eexists _, _. split; [done|]. rewrite length_drop, length_take. split; lia.
Qed.

Lemma main_loop_total fuel input : (length input < fuel)%nat ->
  exists bodies, main_loop fuel input = Some bodies /\
    Forall (fun b => Z.of_nat (length b) < CONTENT_LENGTH_MAX) bodies.
Proof.
  revert input. induction fuel as [|fuel IH]; intros input Hf; [lia|]. cbn [main_loop].
  destruct input as [|c input]; [by exists []|].
  destruct (read_message_total (c :: input)) as [->|(b & rest & -> & Hr & Hb)]; [by exists []|].
  destruct (IH rest) as (bodies & -> & Hbs); [specialize (Hr ltac:(done)); lia|]. exists (b :: bodies). by split; [|constructor].
Qed.

Lemma main_loop_wire fuel ms : Forall wire_ok ms -> (length ms < fuel)%nat ->
  main_loop fuel (flat_map wire_text ms) = Some (body <$> ms).
Proof.
  intros H. revert fuel. induction H as [|m ms Hm _ IH]; intros [|fuel] Hf; cbn [length] in Hf; try lia; [done|].
  cbn [flat_map main_loop].
  rewrite read_wire by done. by rewrite IH by lia.
Qed.

Lemma length_wires ms : (length ms <= length (flat_map wire_text ms))%nat.
Proof.
  induction ms as [|m ms IH]; cbn; [done|]. rewrite length_app. unfold wire_text at 1. rewrite !length_app. cbn. lia.
Qed.

(** ** Theorem *)

(** C33: Messages survive the wire.  The reading loop ends on every input, and
    no body reaches the limit of 16 MB.  A client that sends any sequence of
    messages, each with its byte length in a Content-Length header among other
    short header lines, has exactly their bodies processed, in order, whatever
    bytes they hold, and then the loop ends; and what the server writes with
    [lsp_send_message] is in that format, so the two ends agree. *)
Theorem framing_roundtrip :
  (forall input, exists bodies, main_loop (S (length input)) input = Some bodies /\
     Forall (fun b => Z.of_nat (length b) < CONTENT_LENGTH_MAX) bodies) /\
  (forall ms, Forall wire_ok ms ->
     main_loop (S (length (flat_map wire_text ms))) (flat_map wire_text ms) = Some (body <$> ms)) /\
  (forall msgs, Forall (fun m => 0 < Z.of_nat (length m) < CONTENT_LENGTH_MAX) msgs ->
     main_loop (S (length (flat_map lsp_send_message msgs))) (flat_map lsp_send_message msgs) = Some msgs).
Proof.
  split_and!.
  - intros input. apply main_loop_total. lia.
  - intros ms H. apply main_loop_wire; [done|]. pose proof (length_wires ms). lia.
  - intros msgs H. set (ms := mkWire [] [] <$> msgs).
    assert (E : flat_map lsp_send_message msgs = flat_map wire_text ms).
    { unfold ms. clear. induction msgs as [|m msgs IH]; [done|]. rewrite fmap_cons. cbn [flat_map]. rewrite <- IH. reflexivity. }
    rewrite E. rewrite main_loop_wire.
    + unfold ms. rewrite <- list_fmap_compose. exact (f_equal Some (list_fmap_id msgs)).
    + unfold ms. apply Forall_fmap. eapply Forall_impl; [exact H|]. intros m Hm. by split; [constructor|split; [constructor|]].
    + pose proof (length_wires ms). lia.
Qed.

(** A header line whose line ends fall across the end of the reader's buffer
    (253 characters fit) is taken for the blank line that ends the headers. *)
Example long_header_ends_headers :
  read_message (replicate 255 "x"%char ++ crlf ++ content_length_header ++ ["1"%char] ++ crlf ++ crlf ++ ["a"%char]) = None.
Proof. vm_compute. reflexivity. Qed.

Lemma framing_roundtrip_witness :
  let m := mkWire [list_ascii_of_string "Content-Type: json"] [] ["{"; "}"]%char in
  Forall wire_ok [m; m] /\
  main_loop (S (length (flat_map wire_text [m; m]))) (flat_map wire_text [m; m]) = Some [["{"; "}"]; ["{"; "}"]]%char.
Proof.
  assert (H : let m := mkWire [list_ascii_of_string "Content-Type: json"] [] ["{"; "}"]%char in Forall wire_ok [m; m]).
  { assert (Hm : wire_ok (mkWire [list_ascii_of_string "Content-Type: json"] [] ["{"; "}"]%char)).
    { split; [|split; [constructor|cbn; unfold CONTENT_LENGTH_MAX; lia]]. constructor; [|constructor].
      split_and!; [done|cbn; lia| |done]. cbn. repeat constructor; done. }
    constructor; [exact Hm|]. constructor; [exact Hm|constructor]. }
  split; [exact H|]. exact (proj1 (proj2 framing_roundtrip) _ H).
Defined.
