(* ===== verification/Flex.v ===== *)
(** * Patterns and matching of the flex rules.

    The pattern language lexer.l is written in, its meaning as sets of
    character sequences, and how flex chooses a rule: the longest match, and of
    the rules that match as much the one listed first.  [yy_match] computes it
    by derivatives; [yy_match_spec] says it is that choice. *)

From S2P Require Import Prelude CText.

(** ** Patterns *)

Inductive pattern : Type :=
  | Nothing                              (* no sequence; arises from derivatives only *)
  | Eps                                (* the empty sequence *)
  | Class (p : ascii -> bool)            (* one character of a class *)
  | Cat (r1 r2 : pattern)
  | Alt (r1 r2 : pattern)
  | Star (r : pattern).

Definition chr (c : ascii) : pattern := Class (fun x => (x =? c)%char).

(** A quoted string. *)
Fixpoint quoted (s : string) : pattern :=
  match s with
  | EmptyString => Eps
  | String c s' => Cat (chr c) (quoted s')
  end.

Definition plus (r : pattern) : pattern := Cat r (Star r).
Definition opt (r : pattern) : pattern := Alt r Eps.

Fixpoint times (n : nat) (r : pattern) : pattern :=
  match n with O => Eps | S n' => Cat r (times n' r) end.

(** A bracketed list of characters, and what [^..] matches. *)
Definition one_of (s : string) (c : ascii) : bool := bool_decide (c ∈ list_ascii_of_string s).
Definition none_of (cs : list ascii) (c : ascii) : bool := bool_decide (c ∉ cs).

(** ** Meaning *)

Inductive matches : pattern -> list ascii -> Prop :=
  | matches_empty : matches Eps []
  | matches_class p c : p c = true -> matches (Class p) [c]
  | matches_cat r1 r2 s1 s2 : matches r1 s1 -> matches r2 s2 -> matches (Cat r1 r2) (s1 ++ s2)
  | matches_alt_l r1 r2 s : matches r1 s -> matches (Alt r1 r2) s
  | matches_alt_r r1 r2 s : matches r2 s -> matches (Alt r1 r2) s
  | matches_star_nil r : matches (Star r) []
  | matches_star_app r s1 s2 : matches r s1 -> matches (Star r) s2 -> matches (Star r) (s1 ++ s2).

#[export] Hint Constructors matches : tjlsp.

(** ** Derivatives *)

Fixpoint nullable (r : pattern) : bool :=
  match r with
  | Nothing | Class _ => false
  | Eps | Star _ => true
  | Cat r1 r2 => nullable r1 && nullable r2
  | Alt r1 r2 => nullable r1 || nullable r2
  end.

(** [Cat] and [Alt] without the branches that match nothing. *)
Definition cat (r1 r2 : pattern) : pattern :=
  match r1, r2 with
  | Nothing, _ | _, Nothing => Nothing
  | Eps, r => r
  | _, _ => Cat r1 r2
  end.

Definition alt (r1 r2 : pattern) : pattern :=
  match r1, r2 with
  | Nothing, r | r, Nothing => r
  | _, _ => Alt r1 r2
  end.

(** What may follow [c]. *)
Fixpoint deriv (c : ascii) (r : pattern) : pattern :=
  match r with
  | Nothing | Eps => Nothing
  | Class p => if p c then Eps else Nothing
  | Cat r1 r2 =>
      if nullable r1 then alt (cat (deriv c r1) r2) (deriv c r2) else cat (deriv c r1) r2
  | Alt r1 r2 => alt (deriv c r1) (deriv c r2)
  | Star r1 => cat (deriv c r1) (Star r1)
  end.

Lemma matches_nothing s : ~ matches Nothing s.
Proof. inversion 1. Qed.

Lemma matches_empty_inv s : matches Eps s -> s = [].
Proof. by inversion 1. Qed.

Lemma matches_class_inv p s : matches (Class p) s -> exists c, s = [c] /\ p c = true.
Proof. inversion 1; subst. by eexists. Qed.

Lemma matches_cat_inv r1 r2 s :
  matches (Cat r1 r2) s -> exists s1 s2, s = s1 ++ s2 /\ matches r1 s1 /\ matches r2 s2.
Proof. inversion 1; subst. by eexists _, _. Qed.

Lemma matches_alt_inv r1 r2 s : matches (Alt r1 r2) s -> matches r1 s \/ matches r2 s.
Proof. inversion 1; subst; eauto. Qed.

Lemma nullable_spec r : nullable r = true <-> matches r [].
Proof.
  split.
  - induction r; cbn; intros H; try done; try by constructor.
    + apply andb_true_iff in H as [H1 H2]. change (@nil ascii) with (@nil ascii ++ []). constructor; auto.
    + apply orb_true_iff in H as [H|H]; [apply matches_alt_l|apply matches_alt_r]; auto.
  - remember [] as s eqn:Hs. intros H. revert Hs.
    induction H; cbn; intros Hs; try done.
    + apply app_nil in Hs as [-> ->]. by rewrite IHmatches1, IHmatches2.
    + by rewrite IHmatches.
    + by rewrite IHmatches, orb_true_r.
Qed.

Lemma cat_spec r1 r2 s : matches (cat r1 r2) s <-> matches (Cat r1 r2) s.
Proof.
  assert (He : forall r, matches r s <-> matches (Cat Eps r) s).
  { intros r. split.
    - intros H. change s with ([] ++ s). by repeat constructor.
    - intros (s1 & s2 & -> & ->%matches_empty_inv & H)%matches_cat_inv. done. }
  assert (Hn : forall r r', r = Nothing \/ r' = Nothing -> ~ matches (Cat r r') s).
  { intros r r' Hr (s1 & s2 & _ & H1 & H2)%matches_cat_inv.
    destruct Hr as [-> | ->]; by eapply matches_nothing. }
  destruct r1, r2; cbn [cat]; try done; try apply He;
    (split; [by intros ?%matches_nothing|intros H; exfalso; eapply Hn; [|exact H]; auto]).
Qed.

Lemma alt_spec r1 r2 s : matches (alt r1 r2) s <-> matches r1 s \/ matches r2 s.
Proof.
  assert (H0 : matches Nothing s <-> False) by (split; [apply matches_nothing|done]).
  assert (Ha : forall r r', matches (Alt r r') s <-> matches r s \/ matches r' s).
  { intros. split; [apply matches_alt_inv|intros [?|?]; eauto with tjlsp]. }
  destruct r1, r2; cbn [alt]; rewrite ?H0, ?Ha; tauto.
Qed.

Lemma matches_star_cons r c s :
  matches (Star r) (c :: s) -> exists s1 s2, s = s1 ++ s2 /\ matches r (c :: s1) /\ matches (Star r) s2.
Proof.
  remember (Star r) as q eqn:Hq. remember (c :: s) as cs eqn:Hcs. intros H. revert Hq s Hcs.
  induction H as [| | | | |r'|r' s1 s2 H1 _ H2 IH]; intros Hq t Hcs; try done. simplify_eq.
  destruct s1 as [|x s1]; [by apply IH|]. simpl in Hcs. simplify_eq. by eexists _, _.
Qed.

Lemma matches_cat_cons r1 r2 c s :
  matches (Cat r1 r2) (c :: s) <->
  (exists s1 s2, s = s1 ++ s2 /\ matches r1 (c :: s1) /\ matches r2 s2) \/
  nullable r1 = true /\ matches r2 (c :: s).
Proof.
  split.
  - intros ([|x s1] & s2 & Hs & H1 & H2)%matches_cat_inv; simpl in Hs; simplify_eq.
    + right. by rewrite nullable_spec.
    + left. by eexists _, _.
  - intros [(s1 & s2 & -> & H1 & H2)|[H1%nullable_spec H2]].
    + by apply (matches_cat r1 r2 (c :: s1) s2).
    + by apply (matches_cat r1 r2 [] (c :: s)).
Qed.

(** The derivative by [c] matches what [r] matches after a [c]. *)
Lemma deriv_spec c r s : matches (deriv c r) s <-> matches r (c :: s).
Proof.
  revert s. induction r as [| |p|r1 IH1 r2 IH2|r1 IH1 r2 IH2|r IH]; intros s; cbn [deriv].
  - split; inversion 1.
  - split; inversion 1.
  - destruct (p c) eqn:Hc; split; inversion 1; subst; [by constructor|constructor|congruence].
  - assert (Hl : matches (cat (deriv c r1) r2) s <->
      exists s1 s2, s = s1 ++ s2 /\ matches r1 (c :: s1) /\ matches r2 s2).
    { rewrite cat_spec. split.
      - intros (s1 & s2 & -> & H1%IH1 & H2)%matches_cat_inv. by eexists _, _.
      - intros (s1 & s2 & -> & H1%IH1 & H2). by constructor. }
    rewrite matches_cat_cons. destruct (nullable r1).
    + rewrite alt_spec, IH2, Hl. tauto.
    + rewrite Hl. split; [tauto|]. by intros [?|[? ?]].
  - rewrite alt_spec, IH1, IH2. split; [by intros [?|?]; eauto with tjlsp|apply matches_alt_inv].
  - rewrite cat_spec. split.
    + intros (s1 & s2 & -> & H1%IH & H2)%matches_cat_inv. by apply (matches_star_app r (c :: s1) s2).
    + intros (s1 & s2 & -> & H1%IH & H2)%matches_star_cons. by constructor.
Qed.

(** ** The longest match of a pattern *)

(** Length of the longest prefix of [s] that [r] matches. *)
Fixpoint longest (r : pattern) (s : list ascii) : option nat :=
  match r, s with
  | Nothing, _ => None
  | _, c :: s' =>
      match longest (deriv c r) s' with
      | Some n => Some (S n)
      | None => if nullable r then Some O else None
      end
  | _, [] => if nullable r then Some O else None
  end.

Lemma longest_eq r s :
  longest r s =
  match match s with [] => None | c :: s' => longest (deriv c r) s' end with
  | Some n => Some (S n)
  | None => if nullable r then Some O else None
  end.
Proof.
  destruct r, s as [|c s]; cbn [longest]; try done. cbn [deriv nullable].
  destruct s; done.
Qed.

(** [n] is the length of the longest prefix of [s] in [r], if there is one. *)
Definition longest_prefix (r : pattern) (s : list ascii) (n : option nat) : Prop :=
  match n with
  | Some n => n <= length s /\ matches r (take n s) /\
              forall m, n < m <= length s -> ~ matches r (take m s)
  | None => forall m, ~ matches r (take m s)
  end.

Lemma longest_spec r s : longest_prefix r s (longest r s).
Proof.
  revert r. induction s as [|c s IH]; intros r; rewrite longest_eq.
  - destruct (nullable r) eqn:Hn; cbn.
    + split_and!; [done|by apply nullable_spec|lia].
    + intros m Hm. rewrite take_nil in Hm. apply nullable_spec in Hm. congruence.
  - specialize (IH (deriv c r)). destruct (longest (deriv c r) s) as [n|]; cbn in *.
    + destruct IH as (Hn & Hm & Hmax). split_and!; [lia|by apply deriv_spec|].
      intros [|m] Hm' H; [lia|]. cbn in H. apply deriv_spec in H. apply (Hmax m); [lia|done].
    + assert (Hpos : forall m, ~ matches r (take (S m) (c :: s))).
      { intros m H. cbn in H. apply deriv_spec in H. by apply (IH m). }
      destruct (nullable r) eqn:Hn; cbn.
      * split_and!; [lia|by apply nullable_spec|]. intros [|m] ?; [lia|apply Hpos].
      * intros [|m]; [|apply Hpos]. cbn. intros H%nullable_spec. congruence.
Qed.

(** ** Choosing a rule *)

Section rules.
Context {A : Type}.

(** The rules of a start condition in the order of the file. *)
Fixpoint yy_match (rules : list (pattern * A)) (s : list ascii) : option (nat * A) :=
  match rules with
  | [] => None
  | (r, a) :: rules' =>
      match longest r s, yy_match rules' s with
      | Some n, Some (m, b) => if m <=? n then Some (n, a) else Some (m, b)
      | Some n, None => Some (n, a)
      | None, x => x
      end
  end.

(** [a] is the action flex runs on [n] characters of [s]. *)
Definition chosen (rules : list (pattern * A)) (s : list ascii) (n : nat) (a : A) : Prop :=
  exists before r after,
    rules = before ++ (r, a) :: after /\ n <= length s /\ matches r (take n s) /\
    (forall r' a' m, (r', a') ∈ rules -> n < m <= length s -> ~ matches r' (take m s)) /\
    (forall r' a', (r', a') ∈ before -> ~ matches r' (take n s)).

Lemma longest_none_or r s n m :
  longest r s = n -> m <= length s -> matches r (take m s) -> exists k, n = Some k /\ m <= k.
Proof.
  intros Hl Hm H. pose proof (longest_spec r s) as Hs. rewrite Hl in Hs. destruct n as [k|]; cbn in Hs.
  - exists k. split; [done|]. destruct Hs as (_ & _ & Hmax).
    destruct (decide (m <= k)); [done|]. exfalso. apply (Hmax m); [lia|done].
  - exfalso. by apply (Hs m).
Qed.

(** The longest match, the first rule among equals; nothing when no rule
    matches anything. *)
Lemma yy_match_spec rules s :
  match yy_match rules s with
  | Some (n, a) => chosen rules s n a
  | None => forall r a m, (r, a) ∈ rules -> m <= length s -> ~ matches r (take m s)
  end.
Proof.
  induction rules as [|[r a] rules IH]; cbn [yy_match].
  { by intros r a m ?%not_elem_of_nil. }
  pose proof (longest_spec r s) as Hl. destruct (longest r s) as [n|] eqn:El; cbn in Hl.
  - destruct Hl as (Hn & Hm & Hmax).
    assert (Hhead : forall o, (forall r' a' m, (r', a') ∈ rules -> m <= length s -> matches r' (take m s) -> m <= n) ->
      o = (n, a) -> chosen ((r, a) :: rules) s o.1 o.2).
    { intros o Hrest ->. exists [], r, rules. split_and!; [done..| |by intros ? ? ?%not_elem_of_nil].
      intros r' a' m [[= -> ->]|Hin]%elem_of_cons Hlt H; [by eapply Hmax|].
      specialize (Hrest r' a' m Hin). cbn in *. assert (m <= n) by (apply Hrest; [lia|done]). lia. }
    destruct (yy_match rules s) as [[m b]|].
    + destruct IH as (before & r' & after & -> & Hm' & Hmm & Hmax' & Hfirst).
      destruct (Nat.leb_spec m n) as [Hle|Hle].
      * apply (Hhead (n, a)); [|done].
        intros q c k Hin Hk H. destruct (decide (k <= n)); [done|]. exfalso. apply (Hmax' q c k Hin); [lia|done].
      * exists ((r, a) :: before), r', after. split_and!; [done..| |].
        -- intros q c k [[= -> ->]|Hin]%elem_of_cons Hk; [apply Hmax; lia|by apply (Hmax' q c)].
        -- intros q c [[= -> ->]|Hin]%elem_of_cons; [apply Hmax; lia|by apply (Hfirst q c)].
    + apply (Hhead (n, a)); [|done]. intros q c k Hin Hk H. exfalso. by eapply (IH q c k).
  - destruct (yy_match rules s) as [[m b]|].
    + destruct IH as (before & r' & after & -> & Hm' & Hmm & Hmax' & Hfirst).
      exists ((r, a) :: before), r', after. split_and!; [done..| |].
      * intros q c k [[= -> ->]|Hin]%elem_of_cons Hk; [apply Hl|by apply (Hmax' q c)].
      * intros q c [[= -> ->]|Hin]%elem_of_cons; [apply Hl|by apply (Hfirst q c)].
    + intros q c k [[= -> ->]|Hin]%elem_of_cons Hk; [apply Hl|by apply (IH q c)].
Qed.

End rules.

(** ** Which characters a pattern uses *)

Definition all_chars : list ascii := ascii_of_nat <$> seq 0 256.

Lemma all_chars_complete c : c ∈ all_chars.
Proof.
  apply list_elem_of_fmap. exists (nat_of_ascii c). rewrite ascii_nat_embedding.
  split; [done|]. apply elem_of_seq. pose proof (nat_ascii_bounded c). lia.
Qed.

(** Every class of [r] lies within [p]. *)
Fixpoint within (p : ascii -> bool) (r : pattern) : bool :=
  match r with
  | Nothing | Eps => true
  | Class q => forallb (fun c => implb (q c) (p c)) all_chars
  | Cat r1 r2 | Alt r1 r2 => within p r1 && within p r2
  | Star r1 => within p r1
  end.

Lemma within_matches p r s : matches r s -> within p r = true -> Forall (fun c => p c = true) s.
Proof.
  induction 1 as [|q c Hc| r1 r2 s1 s2 _ IH1 _ IH2| | | |r s1 s2 _ IH1 _ IH2]; cbn [within].
  - constructor.
  - rewrite forallb_forall. intros H. constructor; [|done].
    specialize (H c (proj1 (list_elem_of_In _ _) (all_chars_complete c))). rewrite Hc in H. exact H.
  - intros [??]%andb_true_iff. apply Forall_app. auto.
  - intros [??]%andb_true_iff. auto.
  - intros [??]%andb_true_iff. auto.
  - constructor.
  - intros H. apply Forall_app. auto.
Qed.

Lemma matches_quoted w s : matches (quoted w) s <-> s = list_ascii_of_string w.
Proof.
  revert s. induction w as [|c w IH]; intros s; cbn [quoted list_ascii_of_string].
  { split; [apply matches_empty_inv|intros ->; constructor]. }
  split.
  - intros (s1 & s2 & -> & H1 & H2%IH)%matches_cat_inv. inversion H1 as [|p x Hx| | | | |]; subst.
    apply Ascii.eqb_eq in Hx as ->. done.
  - intros ->. change (c :: list_ascii_of_string w) with ([c] ++ list_ascii_of_string w).
    constructor; [|by apply IH]. constructor. apply Ascii.eqb_refl.
Qed.

(** Every character a non-empty match of [r] can begin with is in [p]. *)
Fixpoint begins (p : ascii -> bool) (r : pattern) : bool :=
  match r with
  | Nothing | Eps => true
  | Class q => forallb (fun c => implb (q c) (p c)) all_chars
  | Cat r1 r2 => begins p r1 && (if nullable r1 then begins p r2 else true)
  | Alt r1 r2 => begins p r1 && begins p r2
  | Star r1 => begins p r1
  end.

Lemma begins_matches p r c s : matches r (c :: s) -> begins p r = true -> p c = true.
Proof.
  remember (c :: s) as cs eqn:Hcs. intros H. revert s Hcs.
  induction H as [|q x Hx|r1 r2 s1 s2 H1 IH1 _ IH2| | | |r s1 s2 _ IH1 _ IH2]; intros t Hcs; cbn [begins]; try done.
  - simplify_eq. rewrite forallb_forall. intros H.
    specialize (H c (proj1 (list_elem_of_In _ _) (all_chars_complete c))). rewrite Hx in H. exact H.
  - intros [Hb Hn]%andb_true_iff. destruct s1 as [|x s1].
    + apply nullable_spec in H1. rewrite H1 in Hn. by eapply IH2.
    + simpl in Hcs. simplify_eq. by eapply IH1.
  - intros [??]%andb_true_iff. by eapply IHmatches.
  - intros [??]%andb_true_iff. by eapply IHmatches.
  - intros Hb. destruct s1 as [|x s1]; [by eapply IH2|]. simpl in Hcs. simplify_eq. by eapply IH1.
Qed.
