(* ===== verification/Scanner.v ===== *)
(** * The rules and actions of [lexer.l].

    The start conditions with their rules, the position bookkeeping around
    them ([YY_USER_ACTION], [yylineno], [yycolumn]), the buffer for token
    bodies and the emission helpers.  [raw_yylex] is one call of the generated
    scanner, [scan] the calls of a whole parse.  What the other components
    assume of the recorded spans is proved here for every text. *)

From S2P Require Import Prelude Tokens CText Syntax SemTokens TokenQuery Signature Completion Lexer Flex.
Local Open Scope Z_scope.

(** ** State *)

Inductive start_condition : Set := INITIAL | BLOCK_COMMENT | SCISSORS | DQUOTE | SQUOTE.

#[global] Instance start_condition_eq_dec : EqDecision start_condition.
Proof. solve_decision. Defined.

(** [yylineno] counts from 1 and is advanced by flex before the action of a
    rule runs; [str_buf] is the filled part of the 4096-byte array. *)
Record lex_state : Set := mkLex {
  yylineno : Z;
  yycolumn : Z;
  tok_sl_sc : LspPos;
  mfrag_sl_sc : LspPos;
  str_buf : list ascii;
  g_pending_newline : bool;
  yy_start : start_condition;
  g_spans : list TokenSpan * Z;          (* [g_tok_spans], [g_num_sem_entries] *)
  yyout : list ascii                     (* what the default rule echoes to stdout *)
}.

Definition set_pos (l c : Z) (tok : LspPos) (st : lex_state) : lex_state :=
  mkLex l c tok (mfrag_sl_sc st) (str_buf st) (g_pending_newline st) (yy_start st) (g_spans st) (yyout st).
Definition set_pending (b : bool) (st : lex_state) : lex_state :=
  mkLex (yylineno st) (yycolumn st) (tok_sl_sc st) (mfrag_sl_sc st) (str_buf st) b (yy_start st)
    (g_spans st) (yyout st).
Definition BEGIN (m : start_condition) (st : lex_state) : lex_state :=
  mkLex (yylineno st) (yycolumn st) (tok_sl_sc st) (mfrag_sl_sc st) (str_buf st) (g_pending_newline st) m
    (g_spans st) (yyout st).
Definition set_buf (b : list ascii) (st : lex_state) : lex_state :=
  mkLex (yylineno st) (yycolumn st) (tok_sl_sc st) (mfrag_sl_sc st) b (g_pending_newline st) (yy_start st)
    (g_spans st) (yyout st).
Definition column_0 (st : lex_state) : lex_state := set_pos (yylineno st) 0 (tok_sl_sc st) st.
Definition mark_fragment (st : lex_state) : lex_state :=
  mkLex (yylineno st) (yycolumn st) (tok_sl_sc st) (tok_sl_sc st) (str_buf st) (g_pending_newline st)
    (yy_start st) (g_spans st) (yyout st).
Definition push_span (s : TokenSpan) (st : lex_state) : lex_state :=
  mkLex (yylineno st) (yycolumn st) (tok_sl_sc st) (mfrag_sl_sc st) (str_buf st) (g_pending_newline st)
    (yy_start st) (g_push_tok_span (g_spans st) s) (yyout st).
Definition ECHO (yytext : list ascii) (st : lex_state) : lex_state :=
  mkLex (yylineno st) (yycolumn st) (tok_sl_sc st) (mfrag_sl_sc st) (str_buf st) (g_pending_newline st)
    (yy_start st) (g_spans st) (yyout st ++ yytext).

Definition STR_BUF_SIZE : Z := 4096.

Definition STR_APPEND (s : list ascii) (st : lex_state) : lex_state :=
  if Z.of_nat (length (str_buf st)) + Z.of_nat (length s) <? STR_BUF_SIZE - 1
  then set_buf (str_buf st ++ s) st else st.

(** The position the scanner has reached, as the actions read it. *)
Definition here (st : lex_state) : LspPos := mkPos (u32 (yylineno st - 1)) (u32 (yycolumn st)).

Definition count_newlines (cs : list ascii) : Z := Z.of_nat (length (filter (fun c => c = newline) cs)).

(** [%option yylineno] and then [YY_USER_ACTION], for a matched [yytext]. *)
Definition YY_USER_ACTION (yytext : list ascii) (st : lex_state) : lex_state :=
  let l := yylineno st + count_newlines yytext in
  set_pos l (yycolumn st + Z.of_nat (length yytext)) (mkPos (u32 (l - 1)) (u32 (yycolumn st))) st.

(** ** Token emission *)

Definition of_chars (cs : list ascii) : string := string_of_list_ascii cs.

Definition store_semantic_token (token : token_kind) (yytext : list ascii) (st : lex_state) : lex_state :=
  push_span (mkSpan token (tok_sl_sc st) (here st) (Some (of_chars yytext))) st.

Definition emit_kw (code : token_kind) (yytext : list ascii) (st : lex_state) : lex_state * Token :=
  (push_span (mkSpan code (tok_sl_sc st) (here st) (Some (of_chars yytext))) st,
   mkTok code (tok_sl_sc st) (here st) (Some (of_chars yytext))).

Definition emit_plain (code : token_kind) (yytext : list ascii) (st : lex_state) : lex_state * Token :=
  (match emit_plain_record code with
   | RecordText => push_span (mkSpan code (tok_sl_sc st) (here st) (Some (of_chars yytext))) st
   | RecordNoText => push_span (mkSpan code (tok_sl_sc st) (here st) None) st
   | RecordNothing => st
   end,
   mkTok code (tok_sl_sc st) (here st)
     (if bool_decide (code = TK_IDENT) then Some (of_chars yytext) else None)).

Definition emit_kw_mfrag_text (code : token_kind) (text : list ascii) (st : lex_state) : lex_state * Token :=
  (push_span (mkSpan code (mfrag_sl_sc st) (here st) (Some (of_chars text))) st,
   mkTok code (mfrag_sl_sc st) (here st) (Some (of_chars text))).

(** ** Actions *)

Inductive action : Set :=
  | Skip
  | Newline
  | LineComment
  | Open (m : start_condition) (delim : string)
  | Append
  | AppendNewline
  | CloseComment (delim : string)
  | CloseStr (code : token_kind) (delim : string)
  | StrNewline
  | EmitKw (code : token_kind)
  | EmitPlain (code : token_kind)
  | Default.                             (* flex's own rule: no rule of the file matches *)

(** The token returned to the caller, if the action returns. *)
Definition run_action (a : action) (yytext : list ascii) (st : lex_state) : lex_state * option Token :=
  let returning (r : lex_state * Token) := (r.1, Some r.2) in
  match a with
  | Skip => (st, None)
  | Newline => (set_pending true (column_0 st), None)
  | LineComment => (store_semantic_token TK_LINE_COMMENT yytext st, None)
  | Open m delim =>
      (BEGIN m (STR_APPEND (list_ascii_of_string delim) (set_buf [] (mark_fragment st))), None)
  | Append => (STR_APPEND yytext st, None)
  | AppendNewline => (column_0 (STR_APPEND yytext st), None)
  | CloseComment delim =>
      let st := STR_APPEND (list_ascii_of_string delim) st in
      (BEGIN INITIAL
        (push_span (mkSpan TK_BLOCK_COMMENT (mfrag_sl_sc st) (here st) (Some (of_chars (str_buf st)))) st), None)
  | CloseStr code delim =>
      let st := BEGIN INITIAL (STR_APPEND (list_ascii_of_string delim) st) in
      returning (emit_kw_mfrag_text code (str_buf st) st)
  | StrNewline => returning (emit_plain TK_ERROR yytext (BEGIN INITIAL (column_0 st)))
  | EmitKw code => returning (emit_kw code yytext st)
  | EmitPlain code => returning (emit_plain code yytext st)
  | Default => (ECHO yytext st, None)
  end.

(** ** Rules *)

Definition nl : pattern := chr newline.
Definition not_nl : pattern := Class (none_of [newline]).
Definition digit : pattern := Class is_digit.
Definition digits (n : nat) : pattern := times n digit.

Definition is_alpha (c : ascii) : bool :=
  ((97 <=? ch_code c) && (ch_code c <=? 122)) || ((65 <=? ch_code c) && (ch_code c <=? 90)).
Definition ident_start (c : ascii) : bool := is_alpha c || (c =? "_")%char || (128 <=? ch_code c).
Definition ident_char (c : ascii) : bool := ident_start c || is_digit c || (c =? ":")%char.

(** A blank, tab, carriage return, form feed or vertical tab. *)
Definition is_blank (c : ascii) : bool :=
  bool_decide (ch_code c ∈ [32; 9; 13; 12; 11]).

Definition date_pattern : pattern :=
  Cat (digits 4) (Cat (quoted "-") (Cat (digits 2) (Cat (quoted "-") (Cat (digits 2) (Cat
    (opt (Cat (quoted "-") (Cat (digits 2) (Cat (quoted ":") (Cat (digits 2)
      (opt (Cat (quoted ":") (digits 2))))))))
    (opt (Cat (quoted "-") (Cat (Class (one_of "+-")) (digits 4))))))))).

Definition duration_pattern : pattern :=
  Cat (opt (Class (one_of "+-"))) (Cat (plus digit)
    (Alt (quoted "min") (Alt (quoted "h") (Alt (quoted "d") (Alt (quoted "w") (Alt (quoted "m") (quoted "y"))))))).

Definition dquote_text : string := String dquote EmptyString.

Definition opening_rules : list (pattern * action) :=
  [ (plus (Class is_blank), Skip);
    (nl, Newline);
    (Cat (quoted "#") (Star not_nl), LineComment);
    (Cat (quoted "//") (Star not_nl), LineComment);
    (quoted "/*", Open BLOCK_COMMENT "/*");
    (quoted "-8<-", Open SCISSORS "-8<-");
    (quoted dquote_text, Open DQUOTE dquote_text);
    (quoted "'", Open SQUOTE "'");
    (date_pattern, EmitKw TK_DATE);
    (duration_pattern, EmitKw TK_DURATION);
    (Cat (plus digit) (Cat (quoted ".") (plus digit)), EmitPlain TK_FLOAT);
    (plus digit, EmitPlain TK_INTEGER) ].

Definition keyword_rules : list (pattern * action) :=
  (fun x => (quoted x.1, EmitKw x.2)) <$> lexer_keywords.

Definition ident_pattern : pattern := Cat (Class ident_start) (Star (Class ident_char)).

Definition punctuation_rules : list (pattern * action) :=
  [ (quoted "{", EmitPlain TK_LBRACE); (quoted "}", EmitPlain TK_RBRACE);
    (quoted "[", EmitPlain TK_LBRACKET); (quoted "]", EmitPlain TK_RBRACKET);
    (quoted "!", EmitPlain TK_BANG); (quoted "+", EmitPlain TK_PLUS);
    (quoted "-", EmitPlain TK_MINUS); (quoted ".", EmitPlain TK_DOT);
    (quoted ":", EmitPlain TK_COLON); (quoted ",", EmitPlain TK_COMMA);
    (quoted "%", EmitPlain TK_PERCENT); (quoted "$", EmitPlain TK_DOLLAR);
    (not_nl, EmitPlain TK_ERROR) ].

(** The rules of a string body with the given delimiter. *)
Definition string_rules (delim : ascii) : list (pattern * action) :=
  [ (chr delim, CloseStr TK_STR (String delim EmptyString));
    (nl, StrNewline);
    (Cat (chr backslash) not_nl, Append);
    (plus (Class (none_of [delim; backslash; newline])), Append) ].

Definition rules (m : start_condition) : list (pattern * action) :=
  match m with
  | INITIAL =>
      opening_rules ++ keyword_rules ++ (ident_pattern, EmitPlain TK_IDENT) :: punctuation_rules
  | BLOCK_COMMENT =>
      [ (quoted "*/", CloseComment "*/");
        (nl, AppendNewline);
        (plus (Class (none_of ["*"%char; newline])), Append);
        (quoted "*", Append) ]
  | SCISSORS =>
      [ (quoted "->8-", CloseStr TK_MULTI_LINE_STR "->8-");
        (nl, AppendNewline);
        (plus (Class (none_of ["-"%char; newline])), Append);
        (quoted "-", Append) ]
  | DQUOTE => string_rules dquote
  | SQUOTE => string_rules "'"%char
  end.

(** ** Scanning *)

(** [Continue] goes on inside the call; [Return None] is the 0 of the end of
    input. *)
Inductive yy_result : Set := Continue | Return (t : option Token).

(** One round of the matching loop, [<<EOF>>] rules included: those run
    without [YY_USER_ACTION] and leave the input where it is. *)
Definition yy_step (st : lex_state) (input : list ascii) : lex_state * list ascii * yy_result :=
  match input with
  | [] =>
      if bool_decide (yy_start st = INITIAL) then (st, [], Return None)
      else let '(st, t) := emit_plain TK_ERROR [] (BEGIN INITIAL st) in (st, [], Return (Some t))
  | _ =>
      let '(n, a) := default (1%nat, Default) (yy_match (rules (yy_start st)) input) in
      let yytext := take n input in
      let '(st, r) := run_action a yytext (YY_USER_ACTION yytext st) in
      (st, drop n input, match r with Some t => Return (Some t) | None => Continue end)
  end.

(** One call. *)
Fixpoint raw_yylex (fuel : nat) (st : lex_state) (input : list ascii)
  : option (option Token * lex_state * list ascii) :=
  match fuel with
  | O => None
  | S fuel' =>
      let '(st, input, r) := yy_step st input in
      match r with
      | Return t => Some (t, st, input)
      | Continue => raw_yylex fuel' st input
      end
  end.

(** Every round consumes a character, apart from the last. *)
Definition call_fuel (input : list ascii) : nat := S (length input).

(** The calls of the wrapper up to the end of input, each with
    [g_pending_newline] cleared before and sampled after. *)
Fixpoint scan_tokens (fuel : nat) (st : lex_state) (input : list ascii)
  : option (list (bool * Token) * lex_state) :=
  match fuel with
  | O => None
  | S fuel' =>
      match raw_yylex (call_fuel input) (set_pending false st) input with
      | None => None
      | Some (None, st, _) => Some ([], st)
      | Some (Some t, st, input) =>
          (fun r => ((g_pending_newline st, t) :: r.1, r.2)) <$> scan_tokens fuel' st input
      end
  end.

(** [install_parse_globals]; the other variables keep their values from the
    parse before, and every call returns in [INITIAL]. *)
Definition start_scan (st : lex_state) : lex_state :=
  mkLex 1 0 (tok_sl_sc st) (mfrag_sl_sc st) (str_buf st) false (yy_start st) ([], 0) (yyout st).

(** Every call that returns a token consumes a character. *)
Definition scan_fuel (src : list ascii) : nat := S (length src).

Definition scan (st : lex_state) (src : list ascii) : option (list (bool * Token) * lex_state) :=
  scan_tokens (scan_fuel src) (start_scan st) src.

(** What the wrapper of [Lexer] reads. *)
Definition raw_of (r : list (bool * Token) * lex_state) : raw_scanner :=
  mkRaw r.1 (g_pending_newline r.2) (here r.2).

Definition idle : lex_state := mkLex 1 0 zero_pos zero_pos [] false INITIAL ([], 0) [].

Definition chars (s : string) : list ascii := list_ascii_of_string (lit s).

Definition kinds_and_texts (r : list (bool * Token) * lex_state) :=
  (map (fun x => (x.1, tok_kind x.2)) r.1, map (fun s => (ts_kind s, ts_text s)) (g_spans r.2).1).

Example scan_small :
  option_map kinds_and_texts (scan idle (chars "task a.b ~T~ { # c\ start 2024-01-01\ } tasks 2h 1.5 '"))
  = Some ([ (false, KW_TASK); (false, TK_IDENT); (false, TK_DOT); (false, TK_IDENT); (false, TK_STR);
            (false, TK_LBRACE); (true, KW_START); (false, TK_DATE); (true, TK_RBRACE); (false, TK_IDENT);
            (false, TK_DURATION); (false, TK_FLOAT); (false, TK_ERROR) ],
          [ (KW_TASK, Some "task"%string); (TK_IDENT, Some "a"%string); (TK_DOT, None); (TK_IDENT, Some "b"%string);
            (TK_STR, Some (lit "~T~")); (TK_LBRACE, None); (TK_LINE_COMMENT, Some "# c"%string);
            (KW_START, Some "start"%string); (TK_DATE, Some "2024-01-01"%string); (TK_RBRACE, None);
            (TK_IDENT, Some "tasks"%string); (TK_DURATION, Some "2h"%string) ]).
Proof. vm_compute. reflexivity. Qed.

(** A backslash at the end of a line of a string matches no rule: the default
    rule writes it to standard output, where the protocol's messages go. *)
Example stray_backslash_echoed :
  option_map (fun r => yyout r.2) (scan idle (list_ascii_of_string dquote_text ++ [backslash; newline]))
    = Some [backslash].
Proof. vm_compute. reflexivity. Qed.

(** The line break that ends an unterminated string is not a pending newline,
    so the statement after it gets no terminator. *)
Example break_after_open_string_lost :
  option_map (fun r => map (fun x => (x.1, tok_kind x.2)) r.1) (scan idle (chars "note ~a\start"))
    = Some [ (false, KW_NOTE); (false, TK_ERROR); (false, KW_START) ].
Proof. vm_compute. reflexivity. Qed.

(** A piece that does not fit [str_buf] is dropped, the ones after it are not:
    the text recorded for a long comment has a hole. *)
Example long_comment_has_hole :
  option_map (fun r => map ts_text (g_spans r.2).1)
    (scan idle (chars "/* " ++ replicate 5000 "x"%char ++ chars "* b\*/"))
    = Some [ Some (lit "/** b\*/") ].
Proof. vm_compute. reflexivity. Qed.

(** ** Positions in the text *)

Definition step_pos (p : LspPos) (c : ascii) : LspPos :=
  if bool_decide (c = newline) then mkPos (line p + 1) 0 else mkPos (line p) (character p + 1).

(** The position after the characters [cs] of a text: zero-based line, bytes
    since the last line break. *)
Definition text_pos (cs : list ascii) : LspPos := foldl step_pos zero_pos cs.

Definition no_newline (w : list ascii) : Prop := Forall (fun c => c <> newline) w.

#[global] Instance no_newline_dec w : Decision (no_newline w).
Proof. unfold no_newline. apply _. Defined.

Lemma step_pos_no_newline p w :
  no_newline w -> foldl step_pos p w = mkPos (line p) (character p + Z.of_nat (length w)).
Proof.
  intros H. revert p. induction H as [|c w Hc _ IH]; intros p; cbn [foldl length].
  - destruct p; cbn. f_equal. lia.
  - rewrite IH. unfold step_pos. rewrite bool_decide_false by done. cbn. f_equal. lia.
Qed.

Lemma text_pos_app cs w : text_pos (cs ++ w) = foldl step_pos (text_pos cs) w.
Proof. apply foldl_app. Qed.

Lemma text_pos_newline cs : text_pos (cs ++ [newline]) = mkPos (line (text_pos cs) + 1) 0.
Proof. rewrite text_pos_app. reflexivity. Qed.

Lemma step_pos_le p w : 0 <= character p -> pos_le p (foldl step_pos p w) /\ 0 <= character (foldl step_pos p w).
Proof.
  revert p. induction w as [|c w IH]; intros p Hp; cbn [foldl]; [split; [reflexivity|done]|].
  assert (Ha : pos_le p (step_pos p c) /\ 0 <= character (step_pos p c)).
  { unfold step_pos. case_bool_decide; pos_lia. }
  destruct Ha as [Hle H0]. destruct (IH _ H0) as [Hle' ?]. split; [by transitivity (step_pos p c)|done].
Qed.

Lemma text_pos_0 cs : 0 <= character (text_pos cs).
Proof. apply (step_pos_le zero_pos cs). cbn. lia. Qed.

Lemma text_pos_le cs w : pos_le (text_pos cs) (text_pos (cs ++ w)).
Proof. rewrite text_pos_app. apply step_pos_le, text_pos_0. Qed.

Lemma text_pos_bound cs :
  0 <= line (text_pos cs) <= Z.of_nat (length cs) /\ 0 <= character (text_pos cs) <= Z.of_nat (length cs).
Proof.
  induction cs as [|c cs IH] using rev_ind; [cbn; lia|].
  rewrite text_pos_app, length_app. cbn [foldl length]. unfold step_pos.
  case_bool_decide; cbn [line character]; lia.
Qed.

(** A token's text ends with a character other than a line break. *)
Definition ends_inside (body : list ascii) : Prop := exists w c, body = w ++ [c] /\ c <> newline.

Lemma no_newline_ends w : w <> [] -> no_newline w -> ends_inside w.
Proof.
  intros Hn H. destruct w as [|c w _] using rev_ind; [done|].
  apply Forall_app in H as [_ [H _]%Forall_cons]. by exists w, c.
Qed.

Lemma ends_inside_app w v : ends_inside v -> ends_inside (w ++ v).
Proof. intros (u & c & -> & H). exists (w ++ u), c. by rewrite app_assoc. Qed.

Lemma text_pos_ends before body :
  ends_inside body -> 0 < character (text_pos (before ++ body)) /\
                      pos_lt (text_pos before) (text_pos (before ++ body)).
Proof.
  intros (w & c & -> & Hc). rewrite app_assoc, (text_pos_app (before ++ w)). cbn [foldl].
  pose proof (text_pos_0 (before ++ w)) as H0.
  unfold step_pos. rewrite bool_decide_false by done. cbn [character]. split; [lia|].
  eapply pos_le_lt_trans; [apply (text_pos_le before w)|]. right. cbn [line character]. lia.
Qed.

(** ** What the rules of the file guarantee of a match *)

(** The closing delimiters and the pieces between them stay on one line; the
    lexeme of a keyword rule is the keyword; an identifier is not a keyword
    (flex prefers the rule listed first); and no character but a backslash at
    the end of a line, or of the text, of a string lacks a rule. *)
Definition match_ok (m : start_condition) (input w : list ascii) (a : action) : Prop :=
  match a with
  | Skip | LineComment => m = INITIAL /\ no_newline w
  | Append => m <> INITIAL /\ no_newline w
  | Newline => m = INITIAL /\ w = [newline]
  | AppendNewline => m ∈ [BLOCK_COMMENT; SCISSORS] /\ w = [newline]
  | StrNewline => m <> INITIAL /\ w = [newline]
  | Open m' delim =>
      m = INITIAL /\ m' <> INITIAL /\ w = list_ascii_of_string delim /\ no_newline w
  | CloseComment delim => m <> INITIAL /\ w = list_ascii_of_string delim /\ no_newline w
  | CloseStr code delim =>
      m <> INITIAL /\ w = list_ascii_of_string delim /\ no_newline w /\ code ∈ [TK_STR; TK_MULTI_LINE_STR]
  | EmitKw code =>
      m = INITIAL /\ no_newline w /\ (code ∈ [TK_DATE; TK_DURATION] \/ (of_chars w, code) ∈ lexer_keywords)
  | EmitPlain code =>
      m = INITIAL /\ no_newline w /\
      code ∈ TK_FLOAT :: TK_INTEGER :: TK_IDENT :: [TK_LBRACE; TK_RBRACE; TK_LBRACKET; TK_RBRACKET; TK_BANG;
              TK_PLUS; TK_MINUS; TK_DOT; TK_COLON; TK_COMMA; TK_PERCENT; TK_DOLLAR; TK_ERROR] /\
      (code = TK_IDENT -> of_chars w ∉ lexer_keywords.*1)
  | Default => m ∈ [DQUOTE; SQUOTE] /\ w = [backslash] /\ (forall c r, input = backslash :: c :: r -> c = newline)
  end.

Lemma within_no_newline r w : matches r w -> within (none_of [newline]) r = true -> no_newline w.
Proof.
  intros Hm Hr. eapply Forall_impl; [by eapply within_matches|]. intros c H.
  apply bool_decide_eq_true in H. intros ->. apply H. by left.
Qed.

Lemma matches_chr c w : matches (chr c) w -> w = [c].
Proof. by intros (x & -> & ->%Ascii.eqb_eq)%matches_class_inv. Qed.

Lemma matches_nonempty r w : matches r w -> nullable r = false -> w <> [].
Proof. intros Hm Hr ->. apply nullable_spec in Hm. congruence. Qed.

Lemma keyword_no_newline lex k : (lex, k) ∈ lexer_keywords -> no_newline (list_ascii_of_string lex).
Proof.
  intros H. assert (Ha : Forall (fun x => no_newline (list_ascii_of_string x.1)) lexer_keywords).
  { apply (bool_decide_unpack _). vm_compute. exact I. }
  rewrite Forall_forall in Ha. exact (Ha _ H).
Qed.

(** The only rule of its kind splits the list in one way. *)
Lemma split_unique {A} (P : A -> Prop) l1 x l2 l1' y l2' :
  l1 ++ x :: l2 = l1' ++ y :: l2' -> P y -> Forall (fun z => ~ P z) l1 -> Forall (fun z => ~ P z) l2 -> l1' = l1.
Proof.
  intros H Hy H1 H2. revert l1' H. induction H1 as [|z l1 Hz _ IH]; intros [|z' l1'] H; simpl in H; simplify_eq.
  - done.
  - exfalso. rewrite Forall_forall in H2. apply (H2 y); [|done]. apply elem_of_app. right. by left.
  - done.
  - f_equal. by apply IH.
Qed.

Lemma of_chars_to s : of_chars (list_ascii_of_string s) = s.
Proof. apply string_of_list_ascii_of_string. Qed.

Lemma ident_not_keyword n input r :
  chosen (rules INITIAL) input n (EmitPlain TK_IDENT) -> (r, EmitPlain TK_IDENT) ∈ rules INITIAL ->
  of_chars (take n input) ∉ lexer_keywords.*1.
Proof.
  intros (before & r' & after & Hr & _ & _ & _ & Hfirst) _ [[lex k] [Hw Hin]]%list_elem_of_fmap. cbn in Hw.
  assert (Hb : before = opening_rules ++ keyword_rules).
  { set (P := fun z : pattern * action => z.2 = EmitPlain TK_IDENT).
    eapply (split_unique P _ (ident_pattern, EmitPlain TK_IDENT) punctuation_rules);
      [by rewrite <- app_assoc, <- Hr|done| |].
    - apply Forall_app. split; [by repeat constructor|].
      apply Forall_fmap, Forall_forall. by intros [].
    - by repeat constructor. }
  apply (Hfirst (quoted lex) (EmitKw k)).
  - rewrite Hb. apply elem_of_app. right. apply list_elem_of_fmap. by exists (lex, k).
  - apply matches_quoted. rewrite <- Hw. symmetry. apply list_ascii_of_string_of_list_ascii.
Qed.

(** Splits the membership of a rule in an explicit list. *)
Ltac each_rule H :=
  repeat (apply elem_of_cons in H as [H|H]; [injection H as -> ->|]); [..|by apply not_elem_of_nil in H].

Ltac one_line := eapply within_no_newline; [eassumption|vm_compute; reflexivity].
Ltac one_newline := match goal with H : matches _ _ |- _ => exact (matches_chr _ _ H) end.
Ltac is_quoted :=
  match goal with
  | H : matches _ ?w |- ?w = ?l => exact (proj1 (matches_quoted (string_of_list_ascii l) w) H)
  end.
Ltac in_kinds := apply (bool_decide_unpack _); vm_compute; exact I.

Lemma string_rule_ok delim m input w r a :
  m <> INITIAL -> (delim =? newline)%char = false -> (r, a) ∈ string_rules delim -> matches r w ->
  match_ok m input w a /\ w <> [].
Proof.
  intros Hm Hd Hr H.
  assert (Hdn : delim <> newline) by (intros ->; by rewrite Ascii.eqb_refl in Hd).
  each_rule Hr; (split; [|by apply (matches_nonempty _ _ H)]); cbn.
  - apply matches_chr in H as ->. split_and!; [done|done| |in_kinds]. by constructor.
  - split; [done|one_newline].
  - split; [done|one_line].
  - split; [done|]. destruct delim as [[] [] [] [] [] [] [] []]; one_line.
Qed.

Lemma initial_rule_ok n input r a :
  chosen (rules INITIAL) input n a -> (r, a) ∈ rules INITIAL -> matches r (take n input) ->
  match_ok INITIAL input (take n input) a /\ take n input <> [].
Proof.
  intros Hc Hr H. pose proof Hr as Hr'. set (w := take n input) in *. cbn [rules] in Hr'.
  rewrite !elem_of_app in Hr'. destruct Hr' as [Hin|[Hin|Hin]].
  - each_rule Hin; (split; [|by apply (matches_nonempty _ _ H)]); cbn; split_and!;
      try done; first [one_line|one_newline|is_quoted|left; in_kinds|in_kinds].
  - apply list_elem_of_fmap in Hin as [[lex k] [[= -> ->] Hin]].
    apply matches_quoted in H. cbn in H. split.
    + cbn. rewrite H. split_and!; [done|by eapply keyword_no_newline|]. right. by rewrite of_chars_to.
    + rewrite H. intros Hnil. destruct lex; [|done].
      assert (Ha : Forall (fun x => x.1 <> EmptyString) lexer_keywords) by in_kinds.
      rewrite Forall_forall in Ha. by apply (Ha _ Hin).
  - apply elem_of_cons in Hin as [[= -> ->]|Hin].
    + split; [|by apply (matches_nonempty _ _ H)]. cbn.
      split_and!; [done|one_line|in_kinds|]. intros _. by eapply ident_not_keyword.
    + each_rule Hin; (split; [|by apply (matches_nonempty _ _ H)]); cbn; split_and!; try done;
        first [one_line|in_kinds].
Qed.

Lemma rule_ok m input n a :
  yy_match (rules m) input = Some (n, a) ->
  (n <= length input)%nat /\ match_ok m input (take n input) a /\ take n input <> [].
Proof.
  intros Hy. pose proof (yy_match_spec (rules m) input) as Hc. rewrite Hy in Hc.
  pose proof Hc as (before & r & after & Hr & Hn & H & _ & _).
  assert (Hin : (r, a) ∈ rules m) by (rewrite Hr; apply elem_of_app; right; by left).
  split; [done|]. destruct m.
  - by eapply initial_rule_ok.
  - each_rule Hin; (split; [|by apply (matches_nonempty _ _ H)]); cbn; split_and!; try done;
      first [one_line|one_newline|is_quoted|in_kinds].
  - each_rule Hin; (split; [|by apply (matches_nonempty _ _ H)]); cbn; split_and!; try done;
      first [one_line|one_newline|is_quoted|in_kinds].
  - by apply (string_rule_ok dquote _ _ _ r).
  - by apply (string_rule_ok "'"%char _ _ _ r).
Qed.

Ltac in_list := repeat first [by left|right].

(** A single character other than a line break that a body has no rule for. *)
Lemma string_default delim m c input :
  m ∈ [DQUOTE; SQUOTE] -> delim <> newline ->
  (forall r a k, (r, a) ∈ string_rules delim -> (k <= length (c :: input))%nat -> ~ matches r (take k (c :: input))) ->
  match_ok m (c :: input) [c] Default.
Proof.
  intros Hm Hd Hn.
  assert (H1 : forall r a, (r, a) ∈ string_rules delim -> ~ matches r [c]).
  { intros r a Hr. apply (Hn r a 1%nat Hr). cbn. lia. }
  destruct (decide (c = newline)) as [->|Hc].
  { exfalso. apply (H1 nl StrNewline); [in_list|by constructor]. }
  destruct (decide (c = delim)) as [->|Hcd].
  { exfalso. eapply (H1 (chr delim)); [in_list|]. constructor. apply Ascii.eqb_refl. }
  destruct (decide (c = backslash)) as [->|Hcb].
  - split_and!; [done|done|]. intros x r [= ->]. destruct (decide (x = newline)) as [|Hx]; [done|].
    exfalso. apply (Hn (Cat (chr backslash) not_nl) Append 2%nat); [in_list|cbn; lia|].
    apply (matches_cat _ _ [backslash] [x]); constructor; [done|].
    apply bool_decide_eq_true. by intros ->%list_elem_of_singleton.
  - exfalso. apply (H1 (plus (Class (none_of [delim; backslash; newline]))) Append); [in_list|].
    apply (matches_cat _ _ [c] []); constructor. apply bool_decide_eq_true. set_solver.
Qed.

(** Where no rule matches: a backslash before a line break, or before the end,
    inside a string. *)
Lemma default_ok m c input :
  yy_match (rules m) (c :: input) = None -> match_ok m (c :: input) [c] Default.
Proof.
  intros Hy. pose proof (yy_match_spec (rules m) (c :: input)) as Hn. rewrite Hy in Hn.
  assert (H1 : forall r a, (r, a) ∈ rules m -> ~ matches r [c]).
  { intros r a Hr. apply (Hn r a 1%nat Hr). cbn. lia. }
  assert (Hplus : forall p, p c = true -> matches (plus (Class p)) [c]).
  { intros p Hp. apply (matches_cat _ _ [c] []); by constructor. }
  destruct m; [exfalso|exfalso|exfalso|apply (string_default dquote)|apply (string_default "'"%char)];
    try in_kinds; try done.
  - destruct (decide (c = newline)) as [->|Hc].
    + apply (H1 nl Newline); [|by constructor]. apply elem_of_app. left. in_list.
    + apply (H1 not_nl (EmitPlain TK_ERROR)).
      * apply elem_of_app. right. apply elem_of_app. right. right. in_list.
      * constructor. apply bool_decide_eq_true. by intros ->%list_elem_of_singleton.
  - destruct (decide (c = newline)) as [->|Hc]; [apply (H1 nl AppendNewline); [in_list|by constructor]|].
    destruct (decide (c = "*"%char)) as [->|Hs].
    + apply (H1 (quoted "*") Append); [in_list|by apply matches_quoted].
    + apply (H1 (plus (Class (none_of ["*"%char; newline]))) Append); [in_list|].
      apply Hplus, bool_decide_eq_true. set_solver.
  - destruct (decide (c = newline)) as [->|Hc]; [apply (H1 nl AppendNewline); [in_list|by constructor]|].
    destruct (decide (c = "-"%char)) as [->|Hs].
    + apply (H1 (quoted "-") Append); [in_list|by apply matches_quoted].
    + apply (H1 (plus (Class (none_of ["-"%char; newline]))) Append); [in_list|].
      apply Hplus, bool_decide_eq_true. set_solver.
Qed.

(** ** What a recorded span says of the text *)

(** [body] is the part of [text] from [s] to [e]. *)
Definition stands_at (text body : list ascii) (s e : LspPos) : Prop :=
  ends_inside body /\
  exists before after, text = before ++ body ++ after /\ s = text_pos before /\ e = text_pos (before ++ body).

(** Its lexeme: the characters themselves, unless a body outgrew [str_buf]. *)
Definition lexeme_of (k : token_kind) (body : list ascii) (t : option string) : Prop :=
  exists l, t = Some (of_chars l) /\ (length l <= length body)%nat /\
    (l = body \/ k ∈ [TK_STR; TK_MULTI_LINE_STR; TK_BLOCK_COMMENT] /\ STR_BUF_SIZE - 1 <= Z.of_nat (length body)).

Definition span_at (text : list ascii) (s : TokenSpan) : Prop :=
  exists body, stands_at text body (ts_start s) (ts_end s) /\
    if lexed_with_text (ts_kind s) then lexeme_of (ts_kind s) body (ts_text s) else ts_text s = None.

Definition scanned (text : list ascii) (s : TokenSpan) : Prop :=
  span_at text s /\ lexeme_ok s /\ ident_ok s.

(** A text flex can scan: its buffer length is an [int]. *)
Definition fits (text : list ascii) : Prop := Z.of_nat (length text) < 2147483647.

(** The tokens for the parser.  [TK_ERROR] has no position of its own. *)
Definition token_at (text : list ascii) (t : Token) : Prop :=
  tok_kind t <> TK_EOF /\ tok_kind t <> TK_EOL /\
  (tok_kind t = TK_ERROR \/
   exists body, stands_at text body (tok_start t) (tok_end t) /\
     if emitted_as_kw (tok_kind t) || bool_decide (tok_kind t = TK_IDENT)
     then lexeme_of (tok_kind t) body (tok_text t) else tok_text t = None).

Lemma fits_prefix a b : fits (a ++ b) -> fits a.
Proof. unfold fits. rewrite length_app. lia. Qed.

Lemma text_pos_wf cs : fits cs -> pos_wf (text_pos cs).
Proof.
  unfold fits. intros H. destruct (text_pos_bound cs). split; unfold is_u32, u32_modulus; lia.
Qed.

Lemma stands_at_ok text body s e :
  fits text -> stands_at text body s e ->
  pos_wf s /\ pos_wf e /\ pos_lt s e /\ 0 < character e /\ Z.of_nat (length body) <= Z.of_nat (length text) /\
  0 <= line e - line s < u32_modulus - 1.
Proof.
  intros Hf (Hb & before & after & -> & -> & ->).
  destruct (text_pos_ends before body Hb) as [Hc Hlt].
  assert (Hf1 : fits (before ++ body)) by (apply (fits_prefix _ after); by rewrite <- app_assoc).
  split_and!; try done.
  - by apply text_pos_wf, (fits_prefix _ body).
  - by apply text_pos_wf.
  - rewrite !length_app. lia.
  - pose proof (text_pos_le before body) as Hle. pos_lia.
  - pose proof (text_pos_bound before). pose proof (text_pos_bound (before ++ body)).
    unfold fits in Hf1. unfold u32_modulus. lia.
Qed.

Lemma length_of_chars l : String.length (of_chars l) = length l.
Proof. unfold of_chars. induction l as [|c l IH]; [done|]. exact (f_equal S IH). Qed.

Lemma scanned_span_ok text s : fits text -> scanned text s -> span_ok s /\ span_lines_ok s.
Proof.
  intros Hf [(body & Hs & Ht) _]. destruct (stands_at_ok _ _ _ _ Hf Hs) as (? & ? & ? & ? & Hb & ?).
  split; [|done]. split_and!; try done. unfold fits in Hf. unfold u32_modulus. case_match.
  - destruct Ht as (l & -> & Hl & _). cbn. rewrite length_of_chars. lia.
  - rewrite Ht. cbn. lia.
Qed.

(** A keyword's lexeme is unique. *)
Lemma keyword_lexeme_unique a b k :
  (a, k) ∈ lexer_keywords -> (b, k) ∈ lexer_keywords -> a = b.
Proof.
  intros [i Hi]%list_elem_of_lookup [j Hj]%list_elem_of_lookup.
  assert (i = j) as ->.
  { eapply NoDup_lookup; [apply lexer_keywords_kinds_nodup| |];
      rewrite list_lookup_fmap, ?Hi, ?Hj; reflexivity. }
  by simplify_eq.
Qed.

Lemma keyword_kind_unique lex k1 k2 :
  (lex, k1) ∈ lexer_keywords -> (lex, k2) ∈ lexer_keywords -> k1 = k2.
Proof.
  intros [i Hi]%list_elem_of_lookup [j Hj]%list_elem_of_lookup.
  assert (i = j) as ->.
  { eapply NoDup_lookup; [apply lexer_keywords_nodup| |];
      rewrite list_lookup_fmap, ?Hi, ?Hj; reflexivity. }
  by simplify_eq.
Qed.

Lemma scanned_text text k body l s e :
  stands_at text body s e -> lexed_with_text k = true -> lexeme_of k body (Some (of_chars l)) ->
  (k ∈ lexer_keywords.*2 -> (of_chars l, k) ∈ lexer_keywords) ->
  (k = TK_IDENT -> of_chars l ∉ lexer_keywords.*1) ->
  scanned text (mkSpan k s e (Some (of_chars l))).
Proof.
  intros Hs Hk Hl Hkw Hid. split_and!.
  - exists body. cbn. by rewrite Hk.
  - split; cbn.
    + unfold lexed_kind, lexed_with_text in *. by destruct (record_of k).
    + intros lex Hin. f_equal. eapply keyword_lexeme_unique; [|exact Hin].
      apply Hkw, list_elem_of_fmap. by exists (lex, k).
  - intros Hi x [= <-]. by apply Hid.
Qed.

Lemma scanned_no_text text k body s e :
  stands_at text body s e -> record_of k = RecordNoText -> scanned text (mkSpan k s e None).
Proof.
  intros Hs Hk. split_and!.
  - exists body. cbn. unfold lexed_with_text. by rewrite Hk.
  - split; cbn; [unfold lexed_kind; by rewrite Hk|]. intros lex Hin. exfalso.
    unfold record_of, emitted_as_kw in Hk. rewrite bool_decide_true in Hk; [done|].
    apply list_elem_of_fmap. by exists (lex, k).
  - by intros _ x [= ].
Qed.

(** ** Spans in order *)

Definition ends_by (p : LspPos) (spans : list TokenSpan) : Prop :=
  forall s, last spans = Some s -> pos_le (ts_end s) p.

Lemma spans_from_snoc p spans s :
  spans_from p spans -> pos_le p (ts_start s) -> ends_by (ts_start s) spans -> span_ok s ->
  spans_from p (spans ++ [s]).
Proof.
  intros H Hp He Hs. revert Hp. induction H as [p|p a spans Hpa Ha H IH]; intros Hp; cbn.
  - constructor; [done|done|constructor].
  - constructor; [done|done|]. destruct spans as [|b spans].
    + constructor; [by apply He|done|constructor].
    + apply IH; [by intros x Hx; apply He|].
      inversion H as [|? ? ? Hab Hb Hrest]; subst.
      transitivity (ts_end b); [transitivity (ts_start b); [done|]; apply pos_lt_le, Hb|].
      clear -Hrest He. revert b Hrest He. induction spans as [|c spans IHs]; intros b Hrest He; [by apply He|].
      inversion Hrest as [|? ? ? Hbc Hc Hr]; subst.
      transitivity (ts_end c); [transitivity (ts_start c); [done|]; apply pos_lt_le, Hc|].
      apply IHs; [done|]. intros x Hx. apply He. exact Hx.
Qed.

(** The accumulators of [g_push_tok_span] after the spans of a prefix of
    [text] that end by [p]. *)
Record spans_inv (text : list ascii) (acc : list TokenSpan * Z) (p : LspPos) : Prop := {
  inv_scanned : Forall (scanned text) acc.1;
  inv_from : spans_from zero_pos acc.1;
  inv_ends : ends_by p acc.1;
  inv_entries : acc = foldl g_push_tok_span ([], 0) acc.1
}.

Lemma spans_inv_mono text acc p q : spans_inv text acc p -> pos_le p q -> spans_inv text acc q.
Proof.
  intros [H1 H2 H3 H4] Hpq. split; try done. intros s Hs. transitivity p; [by apply H3|done].
Qed.

Lemma text_pos_zero cs : pos_le zero_pos (text_pos cs).
Proof. apply (text_pos_le [] cs). Qed.

Lemma spans_inv_push text acc p s :
  fits text -> spans_inv text acc p -> scanned text s -> p = ts_start s ->
  spans_inv text (g_push_tok_span acc s) (ts_end s).
Proof.
  intros Hf [H1 H2 H3 H4] Hs ->. split.
  - apply Forall_app. split; [done|]. by constructor.
  - apply spans_from_snoc; try done; [|by eapply scanned_span_ok].
    destruct Hs as [(body & (_ & before & after & _ & -> & _) & _) _]. apply text_pos_zero.
  - intros x Hx. cbn in Hx. rewrite last_snoc in Hx. by simplify_eq.
  - cbn [g_push_tok_span fst]. rewrite foldl_app, <- H4. reflexivity.
Qed.

(** ** The invariant of the scanner *)

Definition pos_inv (consumed : list ascii) (st : lex_state) : Prop :=
  yylineno st - 1 = line (text_pos consumed) /\ yycolumn st = character (text_pos consumed).

(** [str_buf] holds the body so far, unless the body outgrew it. *)
Definition buffered (st : lex_state) (body : list ascii) : Prop :=
  (length (str_buf st) <= length body)%nat /\
  (str_buf st = body \/ STR_BUF_SIZE - 1 <= Z.of_nat (length body)).

(** After a stray backslash only the end of the line can follow. *)
Definition at_line_end (input : list ascii) : Prop := forall c r, input = c :: r -> c = newline.

Definition body_inv (consumed input : list ascii) (st : lex_state) : Prop :=
  yy_start st <> INITIAL ->
  exists before body, consumed = before ++ body /\ mfrag_sl_sc st = text_pos before /\
    (buffered st body \/ yy_start st ∈ [DQUOTE; SQUOTE] /\ at_line_end input).

(** The recorded spans end before the token being scanned. *)
Definition frontier (consumed : list ascii) (st : lex_state) : LspPos :=
  if bool_decide (yy_start st = INITIAL) then text_pos consumed else mfrag_sl_sc st.

Record lex_inv (consumed input : list ascii) (st : lex_state) : Prop := {
  inv_pos : pos_inv consumed st;
  inv_spans : spans_inv (consumed ++ input) (g_spans st) (frontier consumed st);
  inv_body : body_inv consumed input st
}.

Lemma here_pos consumed st : fits consumed -> pos_inv consumed st -> here st = text_pos consumed.
Proof.
  intros Hf [Hl Hc]. destruct (text_pos_wf consumed Hf). unfold here.
  rewrite Hl, Hc, !u32_id by done. by destruct (text_pos consumed).
Qed.

Lemma count_newlines_0 w : no_newline w -> count_newlines w = 0.
Proof.
  intros H. unfold count_newlines. rewrite list_filter_none; [done|].
  by rewrite <- Forall_forall.
Qed.

(** [YY_USER_ACTION] for a match on one line. *)
Lemma user_action_line consumed w st :
  fits consumed -> no_newline w -> pos_inv consumed st ->
  pos_inv (consumed ++ w) (YY_USER_ACTION w st) /\ tok_sl_sc (YY_USER_ACTION w st) = text_pos consumed.
Proof.
  intros Hf Hw Hp. pose proof (here_pos _ _ Hf Hp) as Hh. destruct Hp as [Hl Hc].
  unfold YY_USER_ACTION. rewrite count_newlines_0, Z.add_0_r by done. split; [|exact Hh].
  unfold pos_inv. rewrite text_pos_app, step_pos_no_newline by done. cbn. by rewrite <- Hl, <- Hc.
Qed.

(** For a line break the actions reset the column. *)
Lemma user_action_newline consumed st st' :
  pos_inv consumed st -> yylineno st' = yylineno (YY_USER_ACTION [newline] st) ->
  pos_inv (consumed ++ [newline]) (column_0 st').
Proof.
  intros [Hl _] Hl'. unfold pos_inv. rewrite text_pos_newline. cbn [column_0 set_pos yylineno yycolumn line character].
  rewrite Hl'. change (yylineno (YY_USER_ACTION [newline] st)) with (yylineno st + 1). split; [lia|done].
Qed.

(** ** The actions *)

Definition act (a : action) (w : list ascii) (st : lex_state) : lex_state * option Token :=
  run_action a w (YY_USER_ACTION w st).

Lemma buffered_append st body w :
  buffered st body -> buffered (STR_APPEND w st) (body ++ w).
Proof.
  intros [Hl Hb]. unfold buffered, STR_APPEND. rewrite length_app, Nat2Z.inj_add.
  case_match eqn:E; cbn [str_buf set_buf].
  - rewrite length_app. split; [lia|]. destruct Hb as [->|Hb]; [by left|right; lia].
  - split; [lia|]. right. destruct Hb as [<-|Hb]; lia.
Qed.

Lemma str_append_frame w st :
  yylineno (STR_APPEND w st) = yylineno st /\ yycolumn (STR_APPEND w st) = yycolumn st /\
  tok_sl_sc (STR_APPEND w st) = tok_sl_sc st /\ mfrag_sl_sc (STR_APPEND w st) = mfrag_sl_sc st /\
  yy_start (STR_APPEND w st) = yy_start st /\ g_spans (STR_APPEND w st) = g_spans st /\
  here (STR_APPEND w st) = here st.
Proof. unfold STR_APPEND. by case_match. Qed.

Section action.
Context (consumed w rest : list ascii) (st : lex_state).
Context (Hfits : fits (consumed ++ w ++ rest)) (Hne : w <> []).
Context (Hinv : lex_inv consumed (w ++ rest) st).

Let text := consumed ++ w ++ rest.

Lemma fits_consumed : fits consumed.
Proof. by eapply fits_prefix. Qed.
Lemma fits_matched : fits (consumed ++ w).
Proof. apply (fits_prefix _ rest). by rewrite <- app_assoc. Qed.

(** What is left to show of a state after [w]. *)
Lemma lex_inv_after st' :
  pos_inv (consumed ++ w) st' -> spans_inv text (g_spans st') (frontier (consumed ++ w) st') ->
  body_inv (consumed ++ w) rest st' -> lex_inv (consumed ++ w) rest st'.
Proof. intros. split; [done| |done]. by rewrite <- app_assoc. Qed.

Lemma stands_matched :
  no_newline w -> stands_at text w (text_pos consumed) (text_pos (consumed ++ w)).
Proof. intros Hw. split; [by apply no_newline_ends|]. by exists consumed, rest. Qed.

(** An action in [INITIAL] that records at most the matched text. *)
Lemma initial_spans :
  yy_start st = INITIAL -> spans_inv text (g_spans st) (text_pos consumed).
Proof. intros Hm. pose proof (inv_spans _ _ _ Hinv) as Hs. unfold frontier in Hs. by rewrite bool_decide_true in Hs. Qed.

Lemma act_skip_ok :
  yy_start st = INITIAL -> no_newline w -> lex_inv (consumed ++ w) rest (YY_USER_ACTION w st).
Proof.
  intros Hm Hw. destruct (user_action_line consumed w st fits_consumed Hw (inv_pos _ _ _ Hinv)) as [Hp _].
  apply lex_inv_after; [done| |by intros []].
  unfold frontier. rewrite bool_decide_true by done.
  eapply spans_inv_mono; [by apply initial_spans|apply text_pos_le].
Qed.

(** Recording the matched text in [INITIAL]. *)
Lemma act_record_ok s :
  yy_start st = INITIAL -> no_newline w -> scanned text s ->
  ts_start s = text_pos consumed -> ts_end s = text_pos (consumed ++ w) ->
  lex_inv (consumed ++ w) rest (push_span s (YY_USER_ACTION w st)).
Proof.
  intros Hm Hw Hs Hb He.
  destruct (user_action_line consumed w st fits_consumed Hw (inv_pos _ _ _ Hinv)) as [Hp _].
  apply lex_inv_after; [done| |by intros []].
  unfold frontier. rewrite bool_decide_true by done. rewrite <- He.
  eapply spans_inv_push; [done|by apply initial_spans|done|done].
Qed.

(** Inside a body: the start and the text so far. *)
Lemma body_frontier : yy_start st <> INITIAL -> spans_inv text (g_spans st) (mfrag_sl_sc st).
Proof. intros Hm. pose proof (inv_spans _ _ _ Hinv) as Hs. unfold frontier in Hs. by rewrite bool_decide_false in Hs. Qed.

Lemma body_continues st' :
  yy_start st <> INITIAL -> yy_start st' = yy_start st -> mfrag_sl_sc st' = mfrag_sl_sc st ->
  g_spans st' = g_spans st -> pos_inv (consumed ++ w) st' ->
  (forall body, buffered st body -> buffered st' (body ++ w)) ->
  (yy_start st ∈ [DQUOTE; SQUOTE] -> ~ at_line_end (w ++ rest)) ->
  lex_inv (consumed ++ w) rest st'.
Proof.
  intros Hm Hm' Hf Hs Hp Hb Hl. apply lex_inv_after; [done| |].
  - unfold frontier. rewrite Hm', Hf, Hs, bool_decide_false by done. by apply body_frontier.
  - intros _. destruct (inv_body _ _ _ Hinv Hm) as (before & body & -> & Hfr & [Hbuf|[Hq He]]).
    + exists before, (body ++ w). rewrite app_assoc, Hf. split_and!; [done|done|]. left. by apply Hb.
    + by destruct (Hl Hq He).
Qed.

Lemma not_at_line_end : no_newline w -> ~ at_line_end (w ++ rest).
Proof.
  destruct w as [|c w']; [done|]. intros [Hc _]%Forall_cons H. by apply Hc, (H c (w' ++ rest)).
Qed.

(** The closing delimiter: the whole body and the text recorded for it. *)
Lemma closed_body :
  yy_start st <> INITIAL -> no_newline w ->
  exists body, stands_at text body (mfrag_sl_sc st) (text_pos (consumed ++ w)) /\
    buffered (STR_APPEND w (YY_USER_ACTION w st)) body.
Proof.
  intros Hm Hw. destruct (inv_body _ _ _ Hinv Hm) as (before & body & Hc & Hf & [Hbuf|[_ Hl]]).
  - exists (body ++ w). split; [|by apply buffered_append]. split; [by apply ends_inside_app, no_newline_ends|].
    exists before, rest. rewrite Hf, Hc. unfold text. rewrite Hc, <- !app_assoc. done.
  - by destruct (not_at_line_end Hw).
Qed.

Lemma multi_fragment_kinds k :
  k ∈ [TK_STR; TK_MULTI_LINE_STR; TK_BLOCK_COMMENT] ->
  lexed_with_text k = true /\ (k ∉ lexer_keywords.*2) /\ k <> TK_IDENT.
Proof. revert k. apply Forall_forall. in_kinds. Qed.

(** What every action has to establish. *)
Definition act_ok (r : lex_state * option Token) : Prop :=
  lex_inv (consumed ++ w) rest r.1 /\
  match r.2 with Some t => yy_start r.1 = INITIAL /\ token_at text t | None => True end.

Lemma user_action_here :
  no_newline w ->
  tok_sl_sc (YY_USER_ACTION w st) = text_pos consumed /\
  here (YY_USER_ACTION w st) = text_pos (consumed ++ w).
Proof.
  intros Hw. destruct (user_action_line consumed w st fits_consumed Hw (inv_pos _ _ _ Hinv)) as [Hp Ht].
  split; [done|]. by apply here_pos; [apply fits_matched|].
Qed.

Lemma matched_lexeme k : lexeme_of k w (Some (of_chars w)).
Proof. exists w. split_and!; [done|done|by left]. Qed.

Lemma act_newline_ok : match_ok (yy_start st) (w ++ rest) w Newline -> act_ok (act Newline w st).
Proof.
  intros [Hm Hw]. split; [|done]. cbn [act run_action fst]. apply lex_inv_after; [| |by intros []].
  - rewrite Hw at 1. by apply (user_action_newline consumed st); [apply Hinv|rewrite Hw].
  - unfold frontier. rewrite bool_decide_true by done.
    eapply spans_inv_mono; [by apply initial_spans|apply text_pos_le].
Qed.

Lemma act_line_comment_ok :
  match_ok (yy_start st) (w ++ rest) w LineComment -> act_ok (act LineComment w st).
Proof.
  intros [Hm Hw]. split; [|done]. destruct (user_action_here Hw) as [Ht Hh].
  cbn [act run_action fst]. unfold store_semantic_token. rewrite Ht, Hh. apply act_record_ok; try done.
  eapply scanned_text; [by apply stands_matched|by vm_compute|apply matched_lexeme| |done].
  intros Hk. exfalso. revert Hk. apply (bool_decide_unpack _). vm_compute. exact I.
Qed.

Lemma act_open_ok m delim :
  match_ok (yy_start st) (w ++ rest) w (Open m delim) -> act_ok (act (Open m delim) w st).
Proof.
  intros (Hm & Hm' & Hd & Hw). split; [|done]. cbn [act run_action fst].
  destruct (user_action_line consumed w st fits_consumed Hw (inv_pos _ _ _ Hinv)) as [Hp Ht].
  set (st1 := set_buf [] (mark_fragment (YY_USER_ACTION w st))).
  destruct (str_append_frame (list_ascii_of_string delim) st1) as (El & Ec & _ & Ef & _ & Es & _).
  apply lex_inv_after.
  - unfold pos_inv. cbn [BEGIN yylineno yycolumn]. by rewrite El, Ec.
  - unfold frontier. cbn [BEGIN yy_start g_spans mfrag_sl_sc]. rewrite bool_decide_false, Ef, Es by done.
    cbn [st1 set_buf mark_fragment g_spans mfrag_sl_sc]. rewrite Ht. by apply initial_spans.
  - intros _. exists consumed, w. cbn [BEGIN mfrag_sl_sc]. rewrite Ef. split_and!; [done|exact Ht|]. left.
    rewrite Hd. apply (buffered_append st1 []). by split; [|left].
Qed.

Lemma act_append_ok : match_ok (yy_start st) (w ++ rest) w Append -> act_ok (act Append w st).
Proof.
  intros [Hm Hw]. split; [|done]. cbn [act run_action fst].
  destruct (user_action_line consumed w st fits_consumed Hw (inv_pos _ _ _ Hinv)) as [Hp _].
  destruct (str_append_frame w (YY_USER_ACTION w st)) as (El & Ec & _ & Ef & Em & Es & _).
  apply body_continues; try done.
  - unfold pos_inv. by rewrite El, Ec.
  - intros body Hb. by apply buffered_append.
  - intros _. by apply not_at_line_end.
Qed.

Lemma act_append_newline_ok :
  match_ok (yy_start st) (w ++ rest) w AppendNewline -> act_ok (act AppendNewline w st).
Proof.
  intros [Hm Hw]. split; [|done]. cbn [act run_action fst].
  destruct (str_append_frame w (YY_USER_ACTION w st)) as (El & Ec & _ & Ef & Em & Es & _).
  apply body_continues; try done.
  - intros Hi. rewrite Hi in Hm. revert Hm. apply (bool_decide_unpack _). vm_compute. exact I.
  - rewrite Hw at 1. apply (user_action_newline consumed st); [apply Hinv|]. rewrite El. by rewrite Hw.
  - intros body Hb. by apply (buffered_append (YY_USER_ACTION w st)).
  - intros Hq. exfalso. destruct (yy_start st); revert Hm Hq; clear; set_solver.
Qed.

(** Recording a whole body at its closing delimiter. *)
Lemma close_ok k :
  yy_start st <> INITIAL -> no_newline w -> k ∈ [TK_STR; TK_MULTI_LINE_STR; TK_BLOCK_COMMENT] ->
  let st' := STR_APPEND w (YY_USER_ACTION w st) in
  lex_inv (consumed ++ w) rest
    (BEGIN INITIAL (push_span (mkSpan k (mfrag_sl_sc st') (here st') (Some (of_chars (str_buf st')))) st')) /\
  exists body, stands_at text body (mfrag_sl_sc st') (here st') /\
    lexeme_of k body (Some (of_chars (str_buf st'))).
Proof.
  intros Hm Hw Hk st'. destruct (closed_body Hm Hw) as (body & Hs & Hl & Hb).
  destruct (user_action_line consumed w st fits_consumed Hw (inv_pos _ _ _ Hinv)) as [Hp _].
  destruct (str_append_frame w (YY_USER_ACTION w st)) as (El & Ec & _ & Ef & _ & Es & Eh). fold st' in El, Ec, Ef, Es, Eh, Hl, Hb.
  destruct (user_action_here Hw) as [_ Hh]. rewrite Eh, Hh, Ef.
  assert (Hx : lexeme_of k body (Some (of_chars (str_buf st')))).
  { exists (str_buf st'). split_and!; [done|done|]. destruct Hb as [Hb|Hb]; [by left|by right]. }
  split; [|by exists body]. apply lex_inv_after; [| |by intros []].
  - unfold pos_inv. cbn [BEGIN push_span yylineno yycolumn]. by rewrite El, Ec.
  - unfold frontier. cbn [BEGIN push_span yy_start g_spans]. rewrite bool_decide_true, Es by done.
    eapply (spans_inv_push text _ (mfrag_sl_sc st) (mkSpan k (mfrag_sl_sc st) (text_pos (consumed ++ w)) _));
      [done|by apply body_frontier| |done].
    destruct (multi_fragment_kinds k Hk) as (? & Hn & ?). by eapply scanned_text.
Qed.

Lemma act_close_comment_ok delim :
  match_ok (yy_start st) (w ++ rest) w (CloseComment delim) -> act_ok (act (CloseComment delim) w st).
Proof.
  intros (Hm & Hd & Hw). split; [|done]. cbn [act run_action fst]. rewrite <- Hd.
  apply (close_ok TK_BLOCK_COMMENT Hm Hw). in_kinds.
Qed.

Lemma string_kinds k :
  k ∈ [TK_STR; TK_MULTI_LINE_STR] ->
  k ∈ [TK_STR; TK_MULTI_LINE_STR; TK_BLOCK_COMMENT] /\ emitted_as_kw k = true /\ k <> TK_EOF /\ k <> TK_EOL.
Proof. revert k. apply Forall_forall. in_kinds. Qed.

Lemma act_close_str_ok code delim :
  match_ok (yy_start st) (w ++ rest) w (CloseStr code delim) -> act_ok (act (CloseStr code delim) w st).
Proof.
  intros (Hm & Hd & Hw & Hk). destruct (string_kinds code Hk) as (Hk' & He & ? & ?).
  cbn [act run_action]. rewrite <- Hd.
  destruct (close_ok code Hm Hw Hk') as [Hi (body & Hs & Hl)]. split; [exact Hi|].
  split; [done|]. split_and!; [done|done|]. right. exists body. cbn. by rewrite He.
Qed.

Lemma act_str_newline_ok :
  match_ok (yy_start st) (w ++ rest) w StrNewline -> act_ok (act StrNewline w st).
Proof.
  intros [Hm Hw]. split; [|split; [done|split_and!; [done|done|by left]]]. cbn [act run_action fst].
  change (emit_plain TK_ERROR w ?s).1 with s. apply lex_inv_after; [| |by intros []].
  - rewrite Hw at 1. by apply (user_action_newline consumed st); [apply Hinv|rewrite Hw].
  - unfold frontier. rewrite bool_decide_true by done. eapply spans_inv_mono; [by apply body_frontier|].
    destruct (inv_body _ _ _ Hinv Hm) as (before & body & -> & -> & _). rewrite <- app_assoc. apply text_pos_le.
Qed.

Lemma act_emit_kw_ok code :
  match_ok (yy_start st) (w ++ rest) w (EmitKw code) -> act_ok (act (EmitKw code) w st).
Proof.
  intros (Hm & Hw & Hk). destruct (user_action_here Hw) as [Ht Hh].
  assert (He : emitted_as_kw code = true /\ code <> TK_EOF /\ code <> TK_EOL /\ code <> TK_IDENT /\
               (code ∈ lexer_keywords.*2 -> (of_chars w, code) ∈ lexer_keywords)).
  { destruct Hk as [Hk|Hk].
    - revert Hk. assert (Hf : Forall (fun k => emitted_as_kw k = true /\ k <> TK_EOF /\ k <> TK_EOL /\
          k <> TK_IDENT /\ (k ∉ lexer_keywords.*2)) [TK_DATE; TK_DURATION]) by in_kinds.
      intros Hk. rewrite Forall_forall in Hf. destruct (Hf _ Hk) as (? & ? & ? & ? & ?). by split_and!.
    - assert (Hin : code ∈ lexer_keywords.*2) by (apply list_elem_of_fmap; by exists (of_chars w, code)).
      assert (Hf : Forall (fun k => emitted_as_kw k = true /\ k <> TK_EOF /\ k <> TK_EOL /\ k <> TK_IDENT)
          lexer_keywords.*2) by in_kinds.
      rewrite Forall_forall in Hf. destruct (Hf _ Hin) as (? & ? & ? & ?). by split_and!. }
  destruct He as (He & ? & ? & ? & Hin). cbn [act run_action]. unfold emit_kw. rewrite Ht, Hh.
  pose proof (stands_matched Hw) as Hs. split; cbn [fst snd].
  - apply act_record_ok; try done. apply (scanned_text _ _ w); try done; [|apply matched_lexeme].
    unfold lexed_with_text, record_of. by rewrite He.
  - split; [done|]. split_and!; [done|done|]. right. exists w. split; [exact Hs|].
    cbn [tok_kind tok_text]. rewrite He. cbn [orb]. apply matched_lexeme.
Qed.

Lemma act_emit_plain_ok code :
  match_ok (yy_start st) (w ++ rest) w (EmitPlain code) -> act_ok (act (EmitPlain code) w st).
Proof.
  intros (Hm & Hw & Hk & Hid). destruct (user_action_here Hw) as [Ht Hh].
  pose proof (stands_matched Hw) as Hs.
  assert (Hx : emitted_as_kw code = false /\ code <> TK_EOF /\ code <> TK_EOL /\ (code ∉ lexer_keywords.*2)).
  { revert code Hk Hid. clear. intros code Hk _. revert code Hk. apply Forall_forall. in_kinds. }
  destruct Hx as (He & ? & ? & ?).
  assert (Hr : record_of code = emit_plain_record code) by (unfold record_of; by rewrite He).
  cbn [act run_action]. unfold emit_plain. rewrite Ht, Hh. split; cbn [fst snd].
  - destruct (emit_plain_record code) eqn:Er.
    + apply act_record_ok; try done. apply (scanned_text _ _ w); try done; [|apply matched_lexeme].
      unfold lexed_with_text. by rewrite Hr.
    + apply act_record_ok; try done. by apply (scanned_no_text _ _ w).
    + by apply act_skip_ok.
  - split; [by destruct (emit_plain_record code)|].
    split_and!; [done|done|]. right. exists w. split; [exact Hs|]. cbn [tok_kind tok_text]. rewrite He.
    cbn [orb]. case_bool_decide; [apply matched_lexeme|done].
Qed.

Lemma act_default_ok :
  match_ok (yy_start st) (w ++ rest) w Default -> act_ok (act Default w st).
Proof.
  intros (Hq & Hw & Hl). split; [|done]. cbn [act run_action fst].
  assert (Hm : yy_start st <> INITIAL).
  { intros Hi. rewrite Hi in Hq. revert Hq. apply (bool_decide_unpack _). vm_compute. exact I. }
  assert (Hn : no_newline w) by (rewrite Hw; by constructor).
  destruct (user_action_line consumed w st fits_consumed Hn (inv_pos _ _ _ Hinv)) as [Hp _].
  apply lex_inv_after; [done| |].
  - unfold frontier. cbn [ECHO yy_start YY_USER_ACTION set_pos g_spans mfrag_sl_sc].
    rewrite bool_decide_false by done. by apply body_frontier.
  - intros _. destruct (inv_body _ _ _ Hinv Hm) as (before & body & Hc & Hf & _).
    exists before, (body ++ w). rewrite Hc, app_assoc. split_and!; [done|done|]. right. split; [exact Hq|].
    intros c r Hr. apply (Hl c r). by rewrite Hw, Hr.
Qed.

Lemma act_correct a : match_ok (yy_start st) (w ++ rest) w a -> act_ok (act a w st).
Proof.
  destruct a; intros Hok.
  - destruct Hok. split; [by apply act_skip_ok|done].
  - by apply act_newline_ok.
  - by apply act_line_comment_ok.
  - by apply act_open_ok.
  - by apply act_append_ok.
  - by apply act_append_newline_ok.
  - by apply act_close_comment_ok.
  - by apply act_close_str_ok.
  - by apply act_str_newline_ok.
  - by apply act_emit_kw_ok.
  - by apply act_emit_plain_ok.
  - by apply act_default_ok.
Qed.

End action.

(** ** Calls *)

(** What a call leaves behind: the input before it is [w ++ input']. *)
Definition returned (consumed w input' : list ascii) (st' : lex_state) (t : option Token) : Prop :=
  lex_inv (consumed ++ w) input' st' /\ yy_start st' = INITIAL /\
  match t with Some t => token_at (consumed ++ w ++ input') t | None => input' = [] end.

Lemma yy_step_ok consumed input st :
  fits (consumed ++ input) -> lex_inv consumed input st ->
  let '(st', input', r) := yy_step st input in
  exists w, input = w ++ input' /\
    match r with
    | Continue => w <> [] /\ lex_inv (consumed ++ w) input' st'
    | Return t => returned consumed w input' st' t /\ (w = [] -> t = None \/ yy_start st <> INITIAL)
    end.
Proof.
  intros Hf Hi. destruct input as [|c input].
  { unfold yy_step. case_bool_decide as Hm.
    - exists []. split; [done|]. split; [|by left]. split_and!; [by rewrite app_nil_r|done|done].
    - destruct (inv_body _ _ _ Hi Hm) as (before & body & Hc & Hfr & _).
      destruct Hi as [Hp Hs _]. unfold frontier in Hs. rewrite bool_decide_false in Hs by done.
      exists []. split; [done|]. split; [|by right]. split_and!; [|done|by split_and!; [done|done|left]].
      rewrite app_nil_r. split; [done| |by intros []].
      unfold frontier. rewrite bool_decide_true by done. eapply spans_inv_mono; [done|].
      rewrite Hfr, Hc. apply text_pos_le. }
  unfold yy_step.
  destruct (default (1%nat, Default) (yy_match (rules (yy_start st)) (c :: input))) as [n a] eqn:Hy.
  assert (Hok : (n <= length (c :: input))%nat /\
    match_ok (yy_start st) (c :: input) (take n (c :: input)) a /\ take n (c :: input) <> []).
  { destruct (yy_match _ _) as [[n' a']|] eqn:E; cbn in Hy; simplify_eq.
    - by apply rule_ok.
    - split_and!; [cbn; lia|by apply default_ok|done]. }
  destruct Hok as (_ & Hm & Hne). pose proof (take_drop n (c :: input)) as Htd.
  set (w := take n (c :: input)) in *. set (rest := drop n (c :: input)) in *. clearbody w rest.
  rewrite <- Htd in *.
  pose proof (act_correct consumed w rest st Hf Hne Hi a Hm) as [Ha Hr]. unfold act in Ha, Hr.
  destruct (run_action _ _ _) as [st' [t|]]; exists w; (split; [done|]).
  - destruct Hr as [Hm' Ht]. by split_and!.
  - by split.
Qed.

(** The call returns, and leaves an input the scanner is still sound on. *)
Lemma raw_yylex_ok fuel consumed input st :
  fits (consumed ++ input) -> lex_inv consumed input st -> (length input < fuel)%nat ->
  exists t st' w input', raw_yylex fuel st input = Some (t, st', input') /\ input = w ++ input' /\
    returned consumed w input' st' t /\ (w = [] -> t = None \/ yy_start st <> INITIAL).
Proof.
  revert consumed input st. induction fuel as [|fuel IH]; intros consumed input st Hf Hi Hl; [lia|].
  cbn [raw_yylex]. pose proof (yy_step_ok consumed input st Hf Hi) as Hs.
  destruct (yy_step st input) as [[st' input'] [|t]]; destruct Hs as (w & -> & Hs).
  - destruct Hs as [Hw Hi']. rewrite app_assoc in Hf.
    destruct (IH (consumed ++ w) input' st' Hf Hi') as (t & st2 & w2 & input2 & -> & -> & Hr & _).
    { rewrite length_app in Hl. destruct w; [done|cbn in Hl; lia]. }
    exists t, st2, (w ++ w2), input2. rewrite app_assoc. split_and!; [done|done| |].
    + destruct Hr as (? & ? & ?). split_and!; [by rewrite app_assoc|done|].
      destruct t; [by rewrite <- !app_assoc in *|done].
    + intros [-> _]%app_eq_nil. done.
  - destruct Hs as [Hr Hn]. by exists t, st', w, input'.
Qed.

Lemma scan_tokens_ok fuel consumed input st :
  fits (consumed ++ input) -> lex_inv consumed input st -> yy_start st = INITIAL -> (length input < fuel)%nat ->
  exists toks st', scan_tokens fuel st input = Some (toks, st') /\
    Forall (fun x => token_at (consumed ++ input) x.2) toks /\
    lex_inv (consumed ++ input) [] st' /\ yy_start st' = INITIAL.
Proof.
  revert consumed input st. induction fuel as [|fuel IH]; intros consumed input st Hf Hi Hm Hl; [lia|].
  cbn [scan_tokens].
  destruct (raw_yylex_ok (call_fuel input) consumed input (set_pending false st)) as
    (t & st' & w & input' & -> & -> & (Hi' & Hm' & Ht) & Hw); [done|by destruct Hi|unfold call_fuel; lia|].
  destruct t as [t|]; cycle 1.
  { subst. exists [], st'. rewrite app_nil_r in *. by split_and!. }
  destruct (IH (consumed ++ w) input' st') as (toks & st2 & -> & Hts & Hi2 & Hm2); try done.
  - by rewrite <- app_assoc.
  - destruct w as [|c w]; [by destruct (Hw eq_refl)|]. cbn in Hl. rewrite length_app in Hl. lia.
  - rewrite <- app_assoc in Hts, Hi2. exists ((g_pending_newline st', t) :: toks), st2.
    split_and!; [done|by constructor|done|done].
Qed.

(** ** Words *)

(** A word as the identifier rule takes it: a maximal run of identifier
    characters after a first one. *)
Definition word (w rest : list ascii) : Prop :=
  (exists c v, w = c :: v /\ ident_start c = true) /\ Forall (fun c => ident_char c = true) w /\
  (forall c v, rest = c :: v -> ident_char c = false).

Definition classify_word (w : list ascii) : action :=
  match list_find (fun x => x.1 = of_chars w) lexer_keywords with
  | Some (_, (_, k)) => EmitKw k
  | None => EmitPlain TK_IDENT
  end.

Lemma ident_start_char c : ident_start c = true -> ident_char c = true.
Proof. unfold ident_char. by intros ->. Qed.

Lemma matches_star_class p s : Forall (fun c => p c = true) s -> matches (Star (Class p)) s.
Proof.
  induction 1 as [|c s Hc _ IH]; [constructor|]. apply (matches_star_app _ [c]); [by constructor|done].
Qed.

Lemma word_matches w rest : word w rest -> matches ident_pattern w.
Proof.
  intros ((c & v & -> & Hc) & [_ Hv]%Forall_cons & _).
  apply (matches_cat _ _ [c] v); [by constructor|by apply matches_star_class].
Qed.

Definition not_word_start (c : ascii) : bool := negb (ident_start c).

(** A longer match would take the character after the word. *)
Lemma word_longer w rest n :
  word w rest -> (length w < n <= length (w ++ rest))%nat -> ~ Forall (fun c => ident_char c = true) (take n (w ++ rest)).
Proof.
  intros (_ & _ & Hr) Hn H. rewrite take_app_ge in H by lia. apply Forall_app in H as [_ H].
  destruct rest as [|c v]; [rewrite app_nil_r in Hn; lia|].
  destruct (n - length w)%nat eqn:E; [lia|]. cbn in H. apply Forall_cons in H as [H _].
  by rewrite (Hr c v eq_refl) in H.
Qed.

(** Each rule of [INITIAL] on a text that begins with a word. *)
Lemma rule_on_word w rest n r a :
  word w rest -> (0 < n <= length (w ++ rest))%nat -> (r, a) ∈ rules INITIAL -> matches r (take n (w ++ rest)) ->
  ((exists k, a = EmitKw k /\ (of_chars (take n (w ++ rest)), k) ∈ lexer_keywords) \/ a = EmitPlain TK_IDENT) /\
    Forall (fun c => ident_char c = true) (take n (w ++ rest)) \/
  a = EmitPlain TK_ERROR /\ n = 1%nat.
Proof.
  intros Hw Hn Hr H. pose proof Hw as ((c & v & Hc & Hs) & _ & _).
  assert (Ht : take n (w ++ rest) = c :: take (pred n) (v ++ rest)) by (rewrite Hc; by destruct n; [lia|]).
  assert (Hb : begins not_word_start r = true -> False).
  { intros Hb. rewrite Ht in H. pose proof (begins_matches _ _ _ _ H Hb) as Hx. unfold not_word_start in Hx.
    by rewrite Hs in Hx. }
  cbn [rules] in Hr. rewrite !elem_of_app in Hr. destruct Hr as [Hin|[Hin|Hin]].
  - exfalso. apply Hb. revert Hin. clear. intros Hin.
    assert (Hf : forallb (fun x => begins not_word_start x.1) opening_rules = true) by (vm_compute; reflexivity).
    rewrite forallb_forall in Hf. by apply (Hf (r, a)), list_elem_of_In.
  - left. apply list_elem_of_fmap in Hin as [[lex k] [[= -> ->] Hin]]. apply matches_quoted in H. cbn in H. rewrite H.
    split; [left; exists k; split; [done|by rewrite of_chars_to]|].
    assert (Hf : Forall (fun x => Forall (fun c => ident_char c = true) (list_ascii_of_string x.1)) lexer_keywords)
      by in_kinds.
    rewrite Forall_forall in Hf. apply (Hf _ Hin).
  - apply elem_of_cons in Hin as [[= -> ->]|Hin].
    + left. split; [by right|]. eapply within_matches; [exact H|vm_compute; reflexivity].
    + assert (Hf : forallb (fun x => begins not_word_start x.1)
                     (take (pred (length punctuation_rules)) punctuation_rules) = true) by (vm_compute; reflexivity).
      right. rewrite <- (take_drop (pred (length punctuation_rules)) punctuation_rules) in Hin.
      apply elem_of_app in Hin as [Hin|Hin].
      * exfalso. apply Hb. rewrite forallb_forall in Hf. by apply (Hf (r, a)), list_elem_of_In.
      * apply list_elem_of_singleton in Hin as [= -> ->]. split; [done|].
        apply matches_class_inv in H as (x & Hx & _). apply (f_equal length) in Hx. rewrite length_take in Hx. cbn in Hx. lia.
Qed.

(** The catch-all rule comes last. *)
Lemma error_rule_last before r after :
  rules INITIAL = before ++ (r, EmitPlain TK_ERROR) :: after ->
  (ident_pattern, EmitPlain TK_IDENT) ∈ before.
Proof.
  intros Hr. set (P := fun z : pattern * action => z.2 = EmitPlain TK_ERROR).
  assert (Hb : before = opening_rules ++ keyword_rules ++
                 (ident_pattern, EmitPlain TK_IDENT) :: take (pred (length punctuation_rules)) punctuation_rules).
  { eapply (split_unique P _ (not_nl, EmitPlain TK_ERROR) []);
      [by rewrite <- Hr, <- !app_assoc|done| |by constructor].
    apply Forall_app. split; [by repeat constructor|]. apply Forall_app. split.
    - apply Forall_fmap, Forall_forall. by intros [].
    - by repeat constructor. }
  rewrite Hb. apply elem_of_app. right. apply elem_of_app. right. by left.
Qed.

(** Longest match first, then file order: a maximal identifier is taken whole,
    and is a keyword exactly when it is in the keyword list. *)
Theorem word_scanned w rest :
  word w rest -> yy_match (rules INITIAL) (w ++ rest) = Some (length w, classify_word w).
Proof.
  intros Hw. pose proof (word_matches _ _ Hw) as Hm. pose proof Hw as ((c & v & Hcv & _) & _ & _).
  assert (Hl : (0 < length w <= length (w ++ rest))%nat) by (rewrite length_app, Hcv; cbn; lia).
  assert (Hi : (ident_pattern, EmitPlain TK_IDENT) ∈ rules INITIAL).
  { apply elem_of_app; right. apply elem_of_app; right. by left. }
  pose proof (yy_match_spec (rules INITIAL) (w ++ rest)) as Hs.
  assert (Htw : take (length w) (w ++ rest) = w) by (by rewrite take_app_length).
  destruct (yy_match _ _) as [[n a]|]; cycle 1.
  { exfalso. apply (Hs _ _ (length w) Hi); [lia|by rewrite Htw]. }
  pose proof Hs as (before & r & after & Hr & Hn & Hmr & Hmax & Hfirst).
  assert (Hin : (r, a) ∈ rules INITIAL) by (rewrite Hr; apply elem_of_app; right; by left).
  assert (Hge : (length w <= n)%nat).
  { destruct (decide (length w <= n)%nat); [done|]. exfalso. apply (Hmax _ _ (length w) Hi); [lia|by rewrite Htw]. }
  destruct (rule_on_word w rest n r a Hw ltac:(lia) Hin Hmr) as [[Ha Hall]|[-> Hn1]].
  - assert (n = length w) as ->.
    { destruct (decide (n = length w)); [done|]. exfalso. eapply (word_longer w rest n); [done|lia|done]. }
    rewrite Htw in *. f_equal. f_equal. unfold classify_word.
    destruct Ha as [(k & -> & Hk)| ->].
    + destruct (list_find_elem_of (fun x => x.1 = of_chars w) lexer_keywords _ Hk eq_refl) as [[i [lex k']] Hf].
      rewrite Hf. apply list_find_Some in Hf as (Hf & Hlex & _). cbn in Hlex. subst lex.
      apply list_elem_of_lookup_2 in Hf. f_equal. by apply keyword_kind_unique with (of_chars w).
    + destruct (list_find _ lexer_keywords) as [[i [lex k]]|] eqn:Hf; [|done].
      exfalso. apply list_find_Some in Hf as (Hf & Hlex & _). cbn in Hlex. subst lex.
      apply list_elem_of_lookup_2 in Hf. eapply ident_not_keyword; [exact Hs|exact Hi|]. rewrite Htw.
      apply list_elem_of_fmap. by exists (of_chars w, k).
  - exfalso. subst n. assert (length w = 1)%nat by lia.
    apply (Hfirst ident_pattern (EmitPlain TK_IDENT)); [|by rewrite <- H, Htw].
    eapply error_rule_last. exact Hr.
Qed.

(** ** Whole texts *)

Lemma start_scan_inv st src :
  yy_start st = INITIAL -> lex_inv [] src (start_scan st).
Proof.
  intros Hm. split.
  - by split.
  - unfold frontier. cbn [start_scan yy_start g_spans]. rewrite bool_decide_true by done.
    split; [constructor|constructor|done|done].
  - intros Hn. by destruct Hn.
Qed.

Lemma scan_inv st src :
  yy_start st = INITIAL -> fits src ->
  exists toks st', scan st src = Some (toks, st') /\ Forall (fun x => token_at src x.2) toks /\
    yy_start st' = INITIAL /\ here st' = text_pos src /\ spans_inv src (g_spans st') (text_pos src).
Proof.
  intros Hm Hf. destruct (scan_tokens_ok (scan_fuel src) [] src (start_scan st)) as
    (toks & st' & Hs & Ht & Hi & Hm'); [done|by apply start_scan_inv|done|unfold scan_fuel; lia|].
  exists toks, st'. split_and!; [done|done|done| |].
  - by apply here_pos; [|apply Hi].
  - pose proof (inv_spans _ _ _ Hi) as Hsp. unfold frontier in Hsp.
    rewrite bool_decide_true, app_nil_r in Hsp by done. exact Hsp.
Qed.

Lemma spans_inv_all text acc p :
  fits text -> spans_inv text acc p ->
  Forall span_lines_ok acc.1 /\ Forall lexeme_ok acc.1 /\ Forall ident_ok acc.1 /\ no_eof acc.1.
Proof.
  intros Hf [Hs _ _ _]. split_and!; (eapply Forall_impl; [exact Hs|]); intros s Hsc.
  - by eapply scanned_span_ok.
  - apply Hsc.
  - apply Hsc.
  - destruct Hsc as (_ & [Hk _] & _). intros He. rewrite He in Hk. revert Hk. by vm_compute.
Qed.

(** Spans in order are sorted and do not overlap. *)
Lemma spans_from_apart p spans : spans_from p spans -> spans_apart spans.
Proof.
  induction 1 as [|p s spans _ Hs H [IHp IHf]]; [by repeat constructor|]. split.
  - constructor; [by apply pos_lt_le, Hs|done].
  - constructor; [done|]. inversion H; by constructor.
Qed.

(** C23: Whatever the text, the scanner consumes all of it, ends in [INITIAL]
    (so the next parse starts there) at the position after the last character,
    and what it recorded is well-formed: every span stands for a part of the
    text, from the position before it to the one after it, with that part as
    its lexeme; spans come in source order and do not overlap; a keyword span
    carries its keyword and an identifier is never one.  The tokens returned
    to the parser stand for parts of the text likewise, except the error
    tokens. *)
Theorem scan_correct st src :
  yy_start st = INITIAL -> fits src ->
  exists toks st', scan st src = Some (toks, st') /\ yy_start st' = INITIAL /\ here st' = text_pos src /\
    Forall (fun x => token_at src x.2) toks /\
    Forall (scanned src) (g_spans st').1 /\ spans_from zero_pos (g_spans st').1 /\ spans_apart (g_spans st').1.
Proof.
  intros Hm Hf. destruct (scan_inv st src Hm Hf) as (toks & st' & Hs & Ht & Hm' & Hh & Hi).
  exists toks, st'. split_and!; try done; [apply Hi|apply Hi|]. eapply spans_from_apart, Hi.
Qed.

(** The semantic tokens of a document are true to its text, whatever the
    text: a client that decodes the data of the spans the scanner recorded
    recovers the pieces of exactly those spans, and each span stands for its
    part of the text. *)
Theorem scanned_semantic_tokens st src :
  yy_start st = INITIAL -> fits src ->
  exists toks st', scan st src = Some (toks, st') /\
    decode 0 0 (compute_semantic_tokens_data (g_spans st').1) = concat (span_entries <$> (g_spans st').1) /\
    Forall (span_at src) (g_spans st').1.
Proof.
  intros Hm Hf. destruct (scan_inv st src Hm Hf) as (toks & st' & Hs & _ & _ & _ & Hi).
  exists toks, st'. split_and!; [done| |].
  - apply sem_tokens_decode, Hi.
  - eapply Forall_impl; [apply Hi|]. by intros s [? _].
Qed.

(** C38: The buffer of [compute_semantic_tokens_data] is large enough for every
    text: the counter the scanner advanced while it recorded the spans, times
    five, bounds the integers written for them. *)
Theorem scanned_buffer_bound st src :
  yy_start st = INITIAL -> fits src ->
  exists toks st', scan st src = Some (toks, st') /\
    Z.of_nat (length (compute_semantic_tokens_data (g_spans st').1)) <= 5 * (g_spans st').2.
Proof.
  intros Hm Hf. destruct (scan_inv st src Hm Hf) as (toks & st' & Hs & _ & _ & _ & Hi).
  exists toks, st'. split; [done|].
  rewrite (f_equal snd (inv_entries _ _ _ Hi)). fold (lexer_num_sem_entries (g_spans st').1).
  apply sem_tokens_buffer_bound. by eapply spans_inv_all.
Qed.

(** From text to parser: for every text the calls of [yylex] end, and the
    parser gets the scanned tokens in order, then a closing brace for every
    body left open, then the end of input, both at the position after the
    text, with terminators only where the wrapper places them. *)
Theorem parser_input_correct st est src :
  yy_start st = INITIAL -> fits src -> fresh est ->
  exists toks st' out, scan st src = Some (toks, st') /\ Forall (token_at src) toks.*2 /\
    yylex_tokens (yylex_fuel toks) (reset_eol_state est) (raw_of (toks, st')) = Some out /\
    filter (fun t => tok_kind t <> TK_EOL) out
      = toks.*2 ++ replicate (unclosed 0 toks) (synthetic_rbrace (text_pos src)) ++ [eof_token (text_pos src)] /\
    eols_placed false out.
Proof.
  intros Hm Hf He. destruct (scan_inv st src Hm Hf) as (toks & st' & Hs & Ht & _ & Hh & _).
  destruct (yylex_only_adds est toks (g_pending_newline st') (text_pos src) He) as (out & Ho & Hfil & Hp).
  { eapply Forall_impl; [exact Ht|]. by intros x (? & ? & _). }
  exists toks, st', out. unfold raw_of. cbn [fst snd]. rewrite Hh. split_and!; try done.
  by apply Forall_fmap.
Qed.

(** The token under the cursor, for every text and position: the last span
    that touches the position, with the text that stands there. *)
Theorem scanned_token_at_cursor st src pos :
  yy_start st = INITIAL -> fits src ->
  exists toks st', scan st src = Some (toks, st') /\
    match tok_span_at (g_spans st').1 pos with
    | Some t => touches t pos /\ span_at src t
    | None => Forall (fun t => ~ touches t pos) (g_spans st').1
    end.
Proof.
  intros Hm Hf. destruct (scan_inv st src Hm Hf) as (toks & st' & Hs & _ & _ & _ & Hi).
  exists toks, st'. split; [done|].
  destruct (spans_inv_all _ _ _ Hf Hi) as (_ & _ & _ & He).
  pose proof (tok_span_at_correct _ pos (spans_from_apart _ _ (inv_from _ _ _ Hi)) He) as Ht.
  destruct (tok_span_at _ _) as [t|].
  - destruct Ht as (i & Hl & ? & _). split; [done|].
    by eapply (Forall_lookup_1 _ _ _ _ (inv_scanned _ _ _ Hi)).
  - apply Forall_lookup. by intros j u ?%Ht.
Qed.

(** ** Witnesses *)

Definition sample_text : list ascii :=
  chars "task a ~A~ {\  /* x\ y */ note -8<- m\n ->8-\  depends !b".

Lemma scan_correct_witness :
  option_map (fun r => map (fun s => (ts_kind s, ts_start s, ts_end s)) (g_spans r.2).1) (scan idle sample_text)
    = Some [ (KW_TASK, mkPos 0 0, mkPos 0 4); (TK_IDENT, mkPos 0 5, mkPos 0 6); (TK_STR, mkPos 0 7, mkPos 0 10);
             (TK_LBRACE, mkPos 0 11, mkPos 0 12); (TK_BLOCK_COMMENT, mkPos 1 2, mkPos 2 5);
             (KW_NOTE, mkPos 2 6, mkPos 2 10); (TK_MULTI_LINE_STR, mkPos 2 11, mkPos 3 6);
             (KW_DEPENDS, mkPos 4 2, mkPos 4 9); (TK_BANG, mkPos 4 10, mkPos 4 11);
             (TK_IDENT, mkPos 4 11, mkPos 4 12) ] /\
  exists toks st', scan idle sample_text = Some (toks, st') /\ Forall (scanned sample_text) (g_spans st').1.
Proof.
  split; [vm_compute; reflexivity|].
  destruct (scan_correct idle sample_text) as (toks & st' & Hs & _ & _ & _ & Hsc & _); [done|by vm_compute|].
  exists toks, st'. split; [exact Hs|exact Hsc].
Defined.

Lemma scanned_semantic_tokens_witness :
  exists toks st', scan idle sample_text = Some (toks, st') /\
    decode 0 0 (compute_semantic_tokens_data (g_spans st').1) = concat (span_entries <$> (g_spans st').1).
Proof.
  destruct (scanned_semantic_tokens idle sample_text) as (toks & st' & Hs & Hd & _); [done|by vm_compute|].
  exists toks, st'. split; [exact Hs|exact Hd].
Defined.

Lemma scanned_buffer_bound_witness :
  option_map (fun r => (g_spans r.2).2) (scan idle sample_text) = Some 10 /\
  exists toks st', scan idle sample_text = Some (toks, st') /\
    Z.of_nat (length (compute_semantic_tokens_data (g_spans st').1)) <= 5 * (g_spans st').2.
Proof.
  split; [vm_compute; reflexivity|]. by apply (scanned_buffer_bound idle sample_text); [|vm_compute].
Defined.

Lemma parser_input_correct_witness :
  option_map (fun r => unclosed 0 r.1) (scan idle sample_text) = Some 1%nat /\
  exists toks st' out, scan idle sample_text = Some (toks, st') /\
    yylex_tokens (yylex_fuel toks) (reset_eol_state initial_eol_state) (raw_of (toks, st')) = Some out /\
    eols_placed false out.
Proof.
  split; [vm_compute; reflexivity|].
  destruct (parser_input_correct idle initial_eol_state sample_text) as
    (toks & st' & out & Hs & _ & Ho & _ & He); [done|by vm_compute|by vm_compute|].
  exists toks, st', out. split; [exact Hs|]. split; [exact Ho|exact He].
Defined.

(** [tasks] is an identifier, not the keyword [task] and an [s]. *)
Lemma word_scanned_witness :
  yy_match (rules INITIAL) (chars "tasks {") = Some (5%nat, EmitPlain TK_IDENT) /\
  yy_match (rules INITIAL) (chars "task {") = Some (4%nat, EmitKw KW_TASK).
Proof.
  split.
  - apply (word_scanned (chars "tasks") (chars " {")). split_and!; [by eexists _, _|by repeat constructor|].
    intros c v [= <- _]. by vm_compute.
  - apply (word_scanned (chars "task") (chars " {")). split_and!; [by eexists _, _|by repeat constructor|].
    intros c v [= <- _]. by vm_compute.
Defined.
