(* ===== verification/ScanOrder.v ===== *)
(** * The tokens of a scan in source order.

    The tokens the scanner returns come one after the other in the text, and
    the keywords among them are recorded: where a declaration starts there is a
    token span. *)

From S2P Require Import Prelude Tokens Syntax Flex Lexer Scanner.

(** ** Actions *)

Section action.
Context (consumed w rest : list ascii) (st : lex_state).
Context (Hfits : fits (consumed ++ w ++ rest)) (Hinv : lex_inv consumed (w ++ rest) st).

(** What an action adds: spans at the end, and a token after everything
    before. *)
Record ordered (r : lex_state * option Token) : Prop := {
  or_frontier : pos_le (frontier consumed st) (frontier (consumed ++ w) r.1);
  or_spans : exists l, (g_spans r.1).1 = (g_spans st).1 ++ l;
  or_token : forall t, r.2 = Some t -> tok_kind t <> TK_ERROR ->
    pos_le (frontier consumed st) (tok_start t) /\ tok_end t = text_pos (consumed ++ w) /\
    (emitted_as_kw (tok_kind t) = true -> exists s, s ∈ (g_spans r.1).1 /\ ts_start s = tok_start t)
}.

Lemma frontier_le : pos_le (frontier consumed st) (text_pos consumed).
Proof.
  unfold frontier. case_bool_decide as Hm; [reflexivity|].
  destruct (inv_body _ _ _ Hinv Hm) as (before & body & -> & -> & _). apply text_pos_le.
Qed.

(** The mode is [INITIAL] afterwards. *)
Lemma frontier_initial st' : yy_start st' = INITIAL -> pos_le (frontier consumed st) (frontier (consumed ++ w) st').
Proof.
  intros Hm. transitivity (text_pos consumed); [apply frontier_le|]. unfold frontier. rewrite bool_decide_true by done.
  apply text_pos_le.
Qed.

(** A body goes on. *)
Lemma frontier_body st' :
  yy_start st <> INITIAL -> yy_start st' = yy_start st -> mfrag_sl_sc st' = mfrag_sl_sc st ->
  pos_le (frontier consumed st) (frontier (consumed ++ w) st').
Proof. intros Hm Hs Hf. unfold frontier. rewrite Hs, Hf, !bool_decide_false by done. reflexivity. Qed.

Lemma ordered_silent st' :
  pos_le (frontier consumed st) (frontier (consumed ++ w) st') -> (exists l, (g_spans st').1 = (g_spans st).1 ++ l) ->
  ordered (st', None).
Proof. intros Hf Hs. by split. Qed.

Lemma same_spans st' : g_spans st' = g_spans st -> exists l, (g_spans st').1 = (g_spans st).1 ++ l.
Proof. intros ->. exists []. by rewrite app_nil_r. Qed.

Lemma act_ordered a : match_ok (yy_start st) (w ++ rest) w a -> ordered (act a w st).
Proof.
  assert (Hc : fits consumed) by by eapply fits_prefix.
  assert (Hhere : no_newline w -> tok_sl_sc (YY_USER_ACTION w st) = text_pos consumed /\
      here (YY_USER_ACTION w st) = text_pos (consumed ++ w)).
  { intros Hw. by eapply user_action_here. }
  destruct a; cbn [match_ok act run_action]; unfold act; cbn [run_action]; intros Hok.
  - destruct Hok as [Hm _]. apply ordered_silent; [by apply frontier_initial|by apply same_spans].
  - destruct Hok as [Hm _]. apply ordered_silent; [by apply frontier_initial|by apply same_spans].
  - destruct Hok as [Hm _]. apply ordered_silent; [by apply frontier_initial|by eexists].
  - destruct Hok as (Hm & Hm' & _ & Hw). destruct (Hhere Hw) as [Ht _].
    destruct (str_append_frame (list_ascii_of_string delim) (set_buf [] (mark_fragment (YY_USER_ACTION w st))))
      as (_ & _ & _ & Ef & _ & Es & _).
    apply ordered_silent; [|by apply same_spans]. unfold frontier. cbn [BEGIN yy_start mfrag_sl_sc].
    rewrite bool_decide_true, bool_decide_false, Ef by done. cbn [set_buf mark_fragment mfrag_sl_sc].
    rewrite Ht. reflexivity.
  - destruct Hok as [Hm _]. destruct (str_append_frame w (YY_USER_ACTION w st)) as (_ & _ & _ & Ef & Em & Es & _).
    apply ordered_silent; [by apply frontier_body|by apply same_spans].
  - destruct Hok as [Hm _]. destruct (str_append_frame w (YY_USER_ACTION w st)) as (_ & _ & _ & Ef & Em & Es & _).
    apply ordered_silent; [apply frontier_body; try done|by apply same_spans].
    intros Hi. rewrite Hi in Hm. revert Hm. apply (bool_decide_unpack _). vm_compute. exact I.
  - destruct Hok as [Hm _]. set (s := STR_APPEND _ _).
    destruct (str_append_frame (list_ascii_of_string delim) (YY_USER_ACTION w st)) as (_ & _ & _ & _ & _ & Es & _). fold s in Es.
    apply ordered_silent; [by apply frontier_initial|]. cbn. rewrite Es. by eexists.
  - destruct Hok as (Hm & Hd & Hw & Hk). destruct (Hhere Hw) as [_ Hh]. set (s := STR_APPEND _ _).
    destruct (str_append_frame (list_ascii_of_string delim) (YY_USER_ACTION w st)) as (_ & _ & _ & Ef & _ & Es & Eh).
    fold s in Ef, Es, Eh. split; cbn [fst snd].
    + by apply frontier_initial.
    + cbn. rewrite Es. by eexists.
    + intros t [= <-] _. cbn [tok_start tok_end tok_kind]. change (mfrag_sl_sc (BEGIN INITIAL s)) with (mfrag_sl_sc s).
      change (here (BEGIN INITIAL s)) with (here s). rewrite Ef, Eh. split_and!; [|done|].
      * unfold frontier. rewrite bool_decide_false by done. reflexivity.
      * intros _. eexists. split; [cbn; apply elem_of_app; right; by left|]. cbn. exact Ef.
  - destruct Hok as [Hm _]. split; cbn [fst snd].
    + by apply frontier_initial.
    + by apply same_spans.
    + by intros t [= <-] Hne.
  - destruct Hok as (Hm & Hw & _). destruct (Hhere Hw) as [Ht Hh]. split; cbn [fst snd].
    + by apply frontier_initial.
    + by eexists.
    + intros t E _. assert (Et : t = (emit_kw code w (YY_USER_ACTION w st)).2) by congruence. rewrite Et.
      unfold emit_kw. cbn [snd tok_start tok_end tok_kind]. rewrite Ht, Hh. split_and!; [apply frontier_le|done|].
      intros _. eexists. split; [cbn; apply elem_of_app; right; by left|done].
  - destruct Hok as (Hm & Hw & Hk & _). destruct (Hhere Hw) as [Ht Hh]. unfold emit_plain. split; cbn [fst snd].
    + apply frontier_initial. by destruct (emit_plain_record code).
    + destruct (emit_plain_record code); [by eexists..|by apply same_spans].
    + intros t E _. assert (Et : t = (emit_plain code w (YY_USER_ACTION w st)).2) by (by injection E as E).
      rewrite Et. clear Et E.
      unfold emit_plain. cbn [snd tok_start tok_end tok_kind]. rewrite Ht, Hh. split_and!; [apply frontier_le|done|].
      intros He. exfalso. revert He. revert code Hk. clear. intros code Hk.
      assert (Hf : Forall (fun k => emitted_as_kw k = false) (TK_FLOAT :: TK_INTEGER :: TK_IDENT :: [TK_LBRACE; TK_RBRACE;
        TK_LBRACKET; TK_RBRACKET; TK_BANG; TK_PLUS; TK_MINUS; TK_DOT; TK_COLON; TK_COMMA; TK_PERCENT; TK_DOLLAR; TK_ERROR])).
      { apply (bool_decide_unpack _). vm_compute. exact I. }
      rewrite Forall_forall in Hf. intros He. rewrite (Hf _ Hk) in He. done.
  - destruct Hok as (Hq & _). assert (Hm : yy_start st <> INITIAL).
    { intros Hi. rewrite Hi in Hq. revert Hq. apply (bool_decide_unpack _). vm_compute. exact I. }
    apply ordered_silent; [by apply frontier_body|by apply same_spans].
Qed.
End action.

(** ** Calls *)

(** What a step or a call does, the input before it being [w ++ input']. *)
Definition in_step (consumed w : list ascii) (st st' : lex_state) (t : option Token) : Prop :=
  pos_le (frontier consumed st) (frontier (consumed ++ w) st') /\
  (exists l, (g_spans st').1 = (g_spans st).1 ++ l) /\
  forall t', t = Some t' -> tok_kind t' <> TK_ERROR ->
    pos_le (frontier consumed st) (tok_start t') /\ tok_end t' = text_pos (consumed ++ w) /\
    (emitted_as_kw (tok_kind t') = true -> exists s, s ∈ (g_spans st').1 /\ ts_start s = tok_start t').

Lemma yy_step_ordered consumed input st :
  fits (consumed ++ input) -> lex_inv consumed input st ->
  let '(st', input', r) := yy_step st input in
  exists w, input = w ++ input' /\ in_step consumed w st st' (match r with Return t => t | Continue => None end).
Proof.
  intros Hf Hi. destruct input as [|c input].
  { unfold yy_step. case_bool_decide as Hm; exists []; (split; [done|]); rewrite app_nil_r || idtac.
    - split_and!; [rewrite app_nil_r; reflexivity|by apply same_spans|done].
    - split_and!; [|by apply same_spans|by intros t [= <-] Hne].
      rewrite app_nil_r. transitivity (text_pos consumed); [by eapply (frontier_le consumed [])|].
      unfold frontier. by rewrite bool_decide_true. }
  unfold yy_step.
  destruct (default (1%nat, Default) (yy_match (rules (yy_start st)) (c :: input))) as [n a] eqn:Hy.
  assert (Hok : match_ok (yy_start st) (c :: input) (take n (c :: input)) a).
  { destruct (yy_match _ _) as [[n' a']|] eqn:E; cbn in Hy; simplify_eq; [by apply rule_ok|by apply default_ok]. }
  pose proof (take_drop n (c :: input)) as Htd.
  set (w := take n (c :: input)) in *. set (rest := drop n (c :: input)) in *. clearbody w rest.
  rewrite <- Htd in *. pose proof (act_ordered consumed w rest st Hf Hi a Hok) as [H1 H2 H3]. unfold act in H1, H2, H3.
  destruct (run_action _ _ _) as [st' [t|]]; exists w; (split; [done|]); by split_and!.
Qed.

Lemma in_step_trans consumed w1 w2 st1 st2 st3 t :
  in_step consumed w1 st1 st2 None -> in_step (consumed ++ w1) w2 st2 st3 t -> in_step consumed (w1 ++ w2) st1 st3 t.
Proof.
  intros (F1 & (l1 & S1) & _) (F2 & (l2 & S2) & T2). unfold in_step. rewrite app_assoc. split_and!.
  - by etransitivity.
  - exists (l1 ++ l2). by rewrite S2, S1, app_assoc.
  - intros t' Ht Hk. destruct (T2 t' Ht Hk) as (? & ? & ?). split_and!; [by etransitivity|done|done].
Qed.

Lemma raw_yylex_ordered fuel consumed input st t st' input' :
  fits (consumed ++ input) -> lex_inv consumed input st -> raw_yylex fuel st input = Some (t, st', input') ->
  exists w, input = w ++ input' /\ in_step consumed w st st' t.
Proof.
  revert consumed input st. induction fuel as [|fuel IH]; intros consumed input st Hf Hi H; [done|].
  cbn [raw_yylex] in H. pose proof (yy_step_ok consumed input st Hf Hi) as Hs.
  pose proof (yy_step_ordered consumed input st Hf Hi) as Ho.
  destruct (yy_step st input) as [[st1 input1] [|t1]]; destruct Hs as (w & -> & Hs), Ho as (w' & Hw & Ho);
    apply app_inv_tail in Hw as <-.
  - destruct Hs as [_ Hi']. rewrite app_assoc in Hf. destruct (IH (consumed ++ w) input1 st1 Hf Hi' H) as (w2 & -> & H2).
    exists (w ++ w2). split; [by rewrite app_assoc|]. by eapply in_step_trans.
  - injection H as <- <- <-. by exists w.
Qed.

(** ** The tokens of a text *)

(** Tokens from [lo] on, in order, up to [hi]; the error tokens have no
    position. *)
Fixpoint tokens_follow (spans : list TokenSpan) (lo hi : LspPos) (ts : list Token) : Prop :=
  match ts with
  | [] => pos_le lo hi
  | t :: ts' =>
      if bool_decide (tok_kind t = TK_ERROR) then tokens_follow spans lo hi ts'
      else pos_le lo (tok_start t) /\
           (emitted_as_kw (tok_kind t) = true -> exists s, s ∈ spans /\ ts_start s = tok_start t) /\
           tokens_follow spans (tok_end t) hi ts'
  end.

Lemma tokens_follow_weaken spans lo lo' hi ts : pos_le lo' lo -> tokens_follow spans lo hi ts -> tokens_follow spans lo' hi ts.
Proof.
  revert lo lo'. induction ts as [|t ts IH]; intros lo lo' Hle; cbn [tokens_follow]; [by etransitivity|].
  case_bool_decide; [by apply IH|]. intros (? & ? & ?). split_and!; [by etransitivity|done|done].
Qed.

Lemma scan_tokens_follow fuel consumed input st toks st' :
  fits (consumed ++ input) -> lex_inv consumed input st -> yy_start st = INITIAL ->
  scan_tokens fuel st input = Some (toks, st') ->
  tokens_follow (g_spans st').1 (text_pos consumed) (text_pos (consumed ++ input)) toks.*2 /\
  exists l, (g_spans st').1 = (g_spans st).1 ++ l.
Proof.
  revert consumed input st toks. induction fuel as [|fuel IH]; intros consumed input st toks Hf Hi Hm H; [done|].
  cbn [scan_tokens] in H. assert (Hi' : lex_inv consumed input (set_pending false st)) by by destruct Hi.
  destruct (raw_yylex_ok (call_fuel input) consumed input (set_pending false st) Hf Hi') as
    (t & st1 & w & input1 & Hy & -> & (Hi1 & Hm1 & Ht) & _); [unfold call_fuel; lia|].
  destruct (raw_yylex_ordered _ _ _ _ _ _ _ Hf Hi' Hy) as (w' & Hw & Hfr & (l & Hs) & Htok). apply app_inv_tail in Hw as <-.
  rewrite Hy in H. unfold frontier in Hfr, Htok. cbn [set_pending yy_start] in Hfr, Htok. rewrite !bool_decide_true in Hfr by done.
  rewrite bool_decide_true in Htok by done. cbn [set_pending g_spans] in Hs.
  destruct t as [t|]; cycle 1.
  { injection H as <- <-. subst. rewrite app_nil_r. split; [exact Hfr|by exists l]. }
  destruct (scan_tokens fuel st1 input1) as [[toks1 st2]|] eqn:E; [|done]. injection H as <- <-.
  rewrite app_assoc in Hf. destruct (IH _ _ _ _ Hf Hi1 Hm1 E) as (Hfol & l2 & Hs2). rewrite <- app_assoc in Hfol.
  split; [|exists (l ++ l2); by rewrite Hs2, Hs, app_assoc].
  rewrite fmap_cons. cbn [tokens_follow snd]. case_bool_decide as Hk; [by eapply tokens_follow_weaken|].
  destruct (Htok t eq_refl Hk) as (H1 & -> & H3). split_and!; [done| |done].
  intros He. destruct (H3 He) as (s & Hin & Hst). exists s. split; [|done]. rewrite Hs2. apply elem_of_app. by left.
Qed.

Lemma scan_follows st src toks st' :
  yy_start st = INITIAL -> fits src -> scan st src = Some (toks, st') ->
  tokens_follow (g_spans st').1 zero_pos (text_pos src) toks.*2.
Proof.
  intros Hm Hf Hs. unfold scan in Hs.
  eapply (scan_tokens_follow _ [] src (start_scan st)) in Hs as [H _]; [exact H|done|by apply start_scan_inv|done].
Qed.
