(* ===== verification/Grammar.v ===== *)
(** * The grammar of [grammar.y] and its semantic actions.

    The productions with their actions, as data and functions, and the moves
    of the parser bison builds from them: shift, reduce and error recovery on a
    stack of states (sets of items), symbols and values.  Which move bison's
    tables pick for a state and a look-ahead is left open, so what [ParseTree]
    proves of every sequence of moves holds of the generated parser. *)

From S2P Require Import Prelude Tokens Syntax Dates Lexer.

(** ** Symbols *)

(** The ones after [nt_body_items] stand for the mid-rule actions and for
    bison's start symbol. *)
Inductive nonterm : Set :=
  | nt_file | nt_items | nt_item | nt_plain_stmt | nt_date_kw | nt_durval_kw | nt_numval_kw |
  nt_int_kw | nt_durlimit_kw | nt_string_kw | nt_ident_kw | nt_idlist_kw | nt_noarg_kw |
  nt_genexpr_kw | nt_ident_string_body_kw | nt_format_kw | nt_stub_kw | nt_symbol_decl | nt_sym_kw |
  nt_report_decl | nt_report_kw | nt_navigator_decl | nt_scenario_decl | nt_timesheet_decl |
  nt_statussheet_decl | nt_tagfile_decl | nt_journalentry_decl | nt_extend_stmt | nt_extend_target |
  nt_supplement_stmt | nt_supplement_target | nt_macro_stmt | nt_include_stmt | nt_num_val |
  nt_dur_unit | nt_dur_val | nt_string_val | nt_opt_id | nt_opt_name | nt_opt_version | nt_interval2
  | nt_interval3 | nt_dotted_id | nt_prefix_path_id | nt_dotted_id_list | nt_id_list | nt_bang_seq |
  nt_dep_path_seg | nt_dep_path | nt_task_ref | nt_dep_ref | nt_dep_ref_list | nt_alloc_ref |
  nt_alloc_ref_list | nt_shift_attr_ref | nt_shift_attr_list | nt_booking_interval_list |
  nt_chargeset_list | nt_credits_list | nt_column_id | nt_column_entry | nt_column_list |
  nt_formats_list | nt_gen_expr | nt_gen_expr_tok | nt_macro_body | nt_macro_body_tok | nt_opt_args
  | nt_arg_token | nt_opt_body | nt_body_items | nt_reset | nt_depends | nt_precedes | nt_open |
  nt_include | nt_accept.

Definition nt_code (n : nonterm) : nat :=
  match n with
  | nt_file => 0 | nt_items => 1 | nt_item => 2 | nt_plain_stmt => 3 | nt_date_kw => 4 |
  nt_durval_kw => 5 | nt_numval_kw => 6 | nt_int_kw => 7 | nt_durlimit_kw => 8 | nt_string_kw => 9 |
  nt_ident_kw => 10 | nt_idlist_kw => 11 | nt_noarg_kw => 12 | nt_genexpr_kw => 13 |
  nt_ident_string_body_kw => 14 | nt_format_kw => 15 | nt_stub_kw => 16 | nt_symbol_decl => 17 |
  nt_sym_kw => 18 | nt_report_decl => 19 | nt_report_kw => 20 | nt_navigator_decl => 21 |
  nt_scenario_decl => 22 | nt_timesheet_decl => 23 | nt_statussheet_decl => 24 | nt_tagfile_decl =>
  25 | nt_journalentry_decl => 26 | nt_extend_stmt => 27 | nt_extend_target => 28 |
  nt_supplement_stmt => 29 | nt_supplement_target => 30 | nt_macro_stmt => 31 | nt_include_stmt =>
  32 | nt_num_val => 33 | nt_dur_unit => 34 | nt_dur_val => 35 | nt_string_val => 36 | nt_opt_id =>
  37 | nt_opt_name => 38 | nt_opt_version => 39 | nt_interval2 => 40 | nt_interval3 => 41 |
  nt_dotted_id => 42 | nt_prefix_path_id => 43 | nt_dotted_id_list => 44 | nt_id_list => 45 |
  nt_bang_seq => 46 | nt_dep_path_seg => 47 | nt_dep_path => 48 | nt_task_ref => 49 | nt_dep_ref =>
  50 | nt_dep_ref_list => 51 | nt_alloc_ref => 52 | nt_alloc_ref_list => 53 | nt_shift_attr_ref =>
  54 | nt_shift_attr_list => 55 | nt_booking_interval_list => 56 | nt_chargeset_list => 57 |
  nt_credits_list => 58 | nt_column_id => 59 | nt_column_entry => 60 | nt_column_list => 61 |
  nt_formats_list => 62 | nt_gen_expr => 63 | nt_gen_expr_tok => 64 | nt_macro_body => 65 |
  nt_macro_body_tok => 66 | nt_opt_args => 67 | nt_arg_token => 68 | nt_opt_body => 69 |
  nt_body_items => 70 | nt_reset => 71 | nt_depends => 72 | nt_precedes => 73 | nt_open => 74 |
  nt_include => 75 | nt_accept => 76
  end.

Definition all_nonterms : list nonterm :=
  [ nt_file; nt_items; nt_item; nt_plain_stmt; nt_date_kw; nt_durval_kw; nt_numval_kw; nt_int_kw;
  nt_durlimit_kw; nt_string_kw; nt_ident_kw; nt_idlist_kw; nt_noarg_kw; nt_genexpr_kw;
  nt_ident_string_body_kw; nt_format_kw; nt_stub_kw; nt_symbol_decl; nt_sym_kw; nt_report_decl;
  nt_report_kw; nt_navigator_decl; nt_scenario_decl; nt_timesheet_decl; nt_statussheet_decl;
  nt_tagfile_decl; nt_journalentry_decl; nt_extend_stmt; nt_extend_target; nt_supplement_stmt;
  nt_supplement_target; nt_macro_stmt; nt_include_stmt; nt_num_val; nt_dur_unit; nt_dur_val;
  nt_string_val; nt_opt_id; nt_opt_name; nt_opt_version; nt_interval2; nt_interval3; nt_dotted_id;
  nt_prefix_path_id; nt_dotted_id_list; nt_id_list; nt_bang_seq; nt_dep_path_seg; nt_dep_path;
  nt_task_ref; nt_dep_ref; nt_dep_ref_list; nt_alloc_ref; nt_alloc_ref_list; nt_shift_attr_ref;
  nt_shift_attr_list; nt_booking_interval_list; nt_chargeset_list; nt_credits_list; nt_column_id;
  nt_column_entry; nt_column_list; nt_formats_list; nt_gen_expr; nt_gen_expr_tok; nt_macro_body;
  nt_macro_body_tok; nt_opt_args; nt_arg_token; nt_opt_body; nt_body_items; nt_reset; nt_depends;
  nt_precedes; nt_open; nt_include; nt_accept ].

Lemma nt_code_inj n1 n2 : nt_code n1 = nt_code n2 -> n1 = n2.
Proof.
  assert (Hs : forall n, all_nonterms !! nt_code n = Some n) by (intros []; reflexivity).
  intros H. apply (f_equal (fun i => all_nonterms !! i)) in H. rewrite !Hs in H. by simplify_eq.
Qed.

#[global] Instance nonterm_eq_dec : EqDecision nonterm.
Proof.
  refine (fun n1 n2 => match Nat.eq_dec (nt_code n1) (nt_code n2) with
                       | left H => left (nt_code_inj _ _ H)
                       | right H => right _
                       end).
  congruence.
Defined.

Inductive symbol : Set := T (k : token_kind) | N (n : nonterm) | Err.

#[global] Instance symbol_eq_dec : EqDecision symbol.
Proof. solve_decision. Defined.

(** ** Productions *)

(** The actions; the positions in [A_decl] are those of id, name and body. *)
Inductive action : Set :=
  | A_none                       (* no action, no typed value *)
  | A_copy                       (* [$$ = $1] *)
  | A_reset | A_route | A_item | A_no_item
  | A_date (start : bool)
  | A_prefix (kind : prefix_kind)
  | A_dep_kind (kind : DepKind)
  | A_project | A_open | A_close
  | A_decl (id name : option nat) (body : nat)
  | A_include_open | A_include
  | A_no_token
  | A_text | A_text_dot
  | A_zero | A_bang
  | A_path | A_path_dot | A_task_ref | A_dep_ref
  | A_no_body | A_body | A_body_item.

Record production : Set := P { lhs : nonterm; rhs : list symbol; act : action }.

(** The keyword and token classes: one production per kind. *)
Definition classes : list (nonterm * list token_kind) :=
  [ (nt_date_kw, [KW_NOW; KW_MAXEND; KW_MINEND; KW_MAXSTART; KW_MINSTART; KW_MARKDATE]);
    (nt_durval_kw, [KW_EFFORT; KW_DURATION; KW_LENGTH; KW_EFFORTDONE; KW_EFFORTLEFT; KW_REMAINING; KW_GAPLENGTH;
      KW_GAPDURATION]);
    (nt_numval_kw, [KW_COMPLETE; KW_OVERTIME; KW_SLOPPY; KW_DAILYWORKINGHOURS; KW_YEARLYWORKINGDAYS;
      KW_EFFICIENCY; KW_RATE; KW_STARTCREDIT; KW_ENDCREDIT]);
    (nt_int_kw, [KW_PRIORITY; KW_HEIGHT; KW_WIDTH]);
    (nt_durlimit_kw, [KW_DAILYMAX; KW_DAILYMIN; KW_WEEKLYMAX; KW_WEEKLYMIN; KW_MONTHLYMAX; KW_MONTHLYMIN;
      KW_MAXIMUM; KW_MINIMUM]);
    (nt_string_kw, [KW_NOTE; KW_EMAIL; KW_HEADLINE; KW_TITLE; KW_CAPTION; KW_EPILOG; KW_PROLOG; KW_LEFT; KW_RIGHT;
      KW_CENTER; KW_FOOTER; KW_HEADER; KW_RAWHTMLHEAD; KW_LISTITEM; KW_CURRENCY; KW_TIMEFORMAT;
      KW_SHORTTIMEFORMAT; KW_TIMEFORMAT1; KW_TIMEFORMAT2; KW_OUTPUTDIR; KW_AUXDIR; KW_COPYRIGHT;
      KW_DETAILS; KW_SUMMARY]);
    (nt_ident_kw, [KW_PROJECTID; KW_TRACKINGSCENARIO; KW_ALERT; KW_AUTHOR; KW_RESOURCEROOT; KW_ACCOUNTROOT;
      KW_PURGE; KW_SCHEDULING; KW_SCHEDULINGMODE; KW_AGGREGATE; KW_SELFCONTAINED; KW_ACTIVE;
      KW_JOURNALMODE; KW_LOADUNIT; KW_SELECT; KW_SCALE; KW_LISTTYPE]);
    (nt_idlist_kw, [KW_RESPONSIBLE; KW_MANAGERS; KW_SCENARIOS; KW_FLAGS; KW_ALTERNATIVE; KW_PROJECTIDS;
      KW_RESOURCES]);
    (nt_noarg_kw, [KW_MILESTONE; KW_SCHEDULED; KW_MANDATORY; KW_PERSISTENT; KW_WEEKSTARTSMONDAY;
      KW_WEEKSTARTSSUNDAY; KW_DISABLED; KW_ENABLED; KW_REPLACE; KW_NOVEVENTS; KW_ONSTART; KW_ONEND;
      KW_STRICT; KW_TIMEOFF]);
    (nt_genexpr_kw, [KW_HIDETASK; KW_HIDERESOURCE; KW_HIDEACCOUNT; KW_HIDEREPORT; KW_HIDEJOURNALENTRY;
      KW_ROLLUPTASK; KW_ROLLUPRESOURCE; KW_ROLLUPACCOUNT; KW_WARN; KW_FAIL; KW_CELLCOLOR;
      KW_CELLTEXT; KW_TOOLTIP; KW_FONTCOLOR; KW_HALIGN; KW_SORTTASKS; KW_SORTRESOURCES;
      KW_SORTACCOUNTS; KW_SORTJOURNALENTRIES; KW_JOURNALATTRIBUTES; KW_TASKATTRIBUTES;
      KW_RESOURCEATTRIBUTES; KW_DEFINITIONS; KW_OPENNODES; KW_LEAVEALLOWANCES; KW_LEAVES;
      KW_VACATION; KW_WORKINGHOURS; KW_ALERTLEVELS]);
    (nt_ident_string_body_kw, [KW_STATUS; KW_NEWTASK; KW_DATE; KW_NUMBER; KW_REFERENCE; KW_RICHTEXT; KW_TEXT]);
    (nt_format_kw, [KW_NUMBERFORMAT; KW_CURRENCYFORMAT]);
    (nt_stub_kw, [KW_ISACTIVE; KW_ISCHILDOF; KW_ISDEPENDENCYOF; KW_ISDUTYOF; KW_ISFEATUREOF; KW_ISLEAF;
      KW_ISMILESTONE; KW_ISONGOING; KW_ISRESOURCE; KW_ISRESPONSIBILITYOF; KW_ISTASK; KW_ISVALID;
      KW_HASALERT; KW_TREELEVEL; KW_INHERIT; KW_SCENARIOSPECIFIC]);
    (nt_sym_kw, [KW_TASK; KW_RESOURCE; KW_ACCOUNT]);
    (nt_report_kw, [KW_TASKREPORT; KW_RESOURCEREPORT; KW_ACCOUNTREPORT; KW_TEXTREPORT; KW_TRACEREPORT; KW_EXPORT;
      KW_STATUSSHEETREPORT; KW_TIMESHEETREPORT]);
    (nt_extend_target, [KW_TASK; KW_RESOURCE]);
    (nt_supplement_target, [KW_ACCOUNT; KW_TASK; KW_RESOURCE; TK_IDENT]);
    (nt_num_val, [TK_INTEGER; TK_FLOAT]);
    (nt_dur_unit, [TK_IDENT; TK_PERCENT]);
    (nt_string_val, [TK_STR; TK_MULTI_LINE_STR]);
    (nt_dep_path_seg, [TK_IDENT; KW_START]);
    (nt_column_id, [TK_IDENT; KW_ALERT; KW_COMPLETE; KW_DATE; KW_DURATION; KW_EFFORT; KW_EMAIL; KW_END; KW_FLAGS;
      KW_LEAVES; KW_LENGTH; KW_NOTE; KW_PRIORITY; KW_RATE; KW_REMAINING; KW_START; KW_STATUS;
      KW_WORK]);
    (nt_gen_expr_tok, [TK_IDENT; TK_INTEGER; TK_FLOAT; TK_STR; TK_DATE; TK_DURATION; TK_BANG; TK_PLUS; TK_MINUS;
      TK_DOT; TK_COLON; TK_COMMA; TK_PERCENT; TK_DOLLAR; TK_LBRACKET; TK_RBRACKET;
      TK_MULTI_LINE_STR; TK_ERROR; KW_ACCOUNTPREFIX; KW_ACCOUNTROOT; KW_ACTIVE; KW_ADOPT;
      KW_AGGREGATE; KW_ALERT; KW_ALERTLEVELS; KW_ALLOCATE; KW_ALTERNATIVE; KW_AUTHOR; KW_AUXDIR;
      KW_BALANCE; KW_BOOKING; KW_CAPTION; KW_CELLCOLOR; KW_CELLTEXT; KW_CENTER; KW_CHARGE;
      KW_CHARGESET; KW_COLUMNS; KW_COMPLETE; KW_COPYRIGHT; KW_CREDITS; KW_CURRENCY;
      KW_CURRENCYFORMAT; KW_DAILYMAX; KW_DAILYMIN; KW_DAILYWORKINGHOURS; KW_DATE; KW_DEFINITIONS;
      KW_DEPENDS; KW_DETAILS; KW_DISABLED; KW_DURATION; KW_EFFICIENCY; KW_EFFORT; KW_EFFORTDONE;
      KW_EFFORTLEFT; KW_EMAIL; KW_ENABLED; KW_END; KW_ENDCREDIT; KW_EPILOG; KW_FAIL; KW_FLAGS;
      KW_FONTCOLOR; KW_FOOTER; KW_FORMATS; KW_GAPDURATION; KW_GAPLENGTH; KW_HALIGN; KW_HASALERT;
      KW_HEADER; KW_HEADLINE; KW_HEIGHT; KW_HIDEACCOUNT; KW_HIDEJOURNALENTRY; KW_HIDEREPORT;
      KW_HIDERESOURCE; KW_HIDETASK; KW_INHERIT; KW_ISACTIVE; KW_ISCHILDOF; KW_ISDEPENDENCYOF;
      KW_ISDUTYOF; KW_ISFEATUREOF; KW_ISLEAF; KW_ISMILESTONE; KW_ISONGOING; KW_ISRESOURCE;
      KW_ISRESPONSIBILITYOF; KW_ISTASK; KW_ISVALID; KW_JOURNALATTRIBUTES; KW_JOURNALMODE;
      KW_LEAVEALLOWANCES; KW_LEAVES; KW_LEFT; KW_LENGTH; KW_LIMITS; KW_LISTITEM; KW_LISTTYPE;
      KW_LOADUNIT; KW_MANAGERS; KW_MANDATORY; KW_MARKDATE; KW_MAXEND; KW_MAXIMUM; KW_MAXSTART;
      KW_MILESTONE; KW_MINEND; KW_MINIMUM; KW_MINSTART; KW_MONTHLYMAX; KW_MONTHLYMIN; KW_NEWTASK;
      KW_NOTE; KW_NOVEVENTS; KW_NOW; KW_NUMBER; KW_NUMBERFORMAT; KW_ONEND; KW_ONSTART; KW_OPENNODES;
      KW_OUTPUTDIR; KW_OVERTIME; KW_PERIOD; KW_PERSISTENT; KW_PRECEDES; KW_PRIORITY; KW_PROJECTID;
      KW_PROJECTIDS; KW_PROJECTION; KW_PROLOG; KW_PURGE; KW_RATE; KW_RAWHTMLHEAD; KW_REFERENCE;
      KW_REMAINING; KW_REPLACE; KW_REPORTPREFIX; KW_RESOURCEATTRIBUTES; KW_RESOURCEPREFIX;
      KW_RESOURCEROOT; KW_RESOURCES; KW_RESPONSIBLE; KW_RICHTEXT; KW_RIGHT; KW_ROLLUPACCOUNT;
      KW_ROLLUPRESOURCE; KW_ROLLUPTASK; KW_SCALE; KW_SCENARIOS; KW_SCENARIOSPECIFIC; KW_SCHEDULED;
      KW_SCHEDULING; KW_SCHEDULINGMODE; KW_SELECT; KW_SELFCONTAINED; KW_SHIFTS; KW_SHORTTIMEFORMAT;
      KW_SLOPPY; KW_SORTACCOUNTS; KW_SORTJOURNALENTRIES; KW_SORTRESOURCES; KW_SORTTASKS; KW_START;
      KW_STARTCREDIT; KW_STATUS; KW_STRICT; KW_SUMMARY; KW_TAGFILE; KW_TASKATTRIBUTES;
      KW_TASKPREFIX; KW_TASKROOT; KW_TEXT; KW_TIMEFORMAT; KW_TIMEFORMAT1; KW_TIMEFORMAT2;
      KW_TIMEOFF; KW_TIMEZONE; KW_TIMINGRESOLUTION; KW_TITLE; KW_TOOLTIP; KW_TRACKINGSCENARIO;
      KW_TREELEVEL; KW_VACATION; KW_WARN; KW_WEEKLYMAX; KW_WEEKLYMIN; KW_WEEKSTARTSMONDAY;
      KW_WEEKSTARTSSUNDAY; KW_WIDTH; KW_WORK; KW_WORKINGHOURS; KW_YEARLYWORKINGDAYS]);
    (nt_macro_body_tok, [TK_IDENT; TK_INTEGER; TK_FLOAT; TK_STR; TK_DATE; TK_DURATION; TK_LBRACE; TK_RBRACE;
      TK_LBRACKET; TK_BANG; TK_PLUS; TK_MINUS; TK_DOT; TK_COLON; TK_COMMA; TK_PERCENT; TK_DOLLAR;
      TK_MULTI_LINE_STR; TK_ERROR; TK_EOL; KW_PROJECT; KW_TASK; KW_RESOURCE; KW_ACCOUNT; KW_SHIFT;
      KW_TASKREPORT; KW_RESOURCEREPORT; KW_ACCOUNTREPORT; KW_TEXTREPORT; KW_TRACEREPORT;
      KW_ICALREPORT; KW_NIKUREPORT; KW_EXPORT; KW_STATUSSHEETREPORT; KW_TIMESHEETREPORT;
      KW_NAVIGATOR; KW_TAGFILE; KW_MACRO; KW_INCLUDE; KW_SUPPLEMENT; KW_SCENARIO; KW_EXTEND;
      KW_TIMESHEET; KW_STATUSSHEET; KW_JOURNALENTRY; KW_ALLOCATE; KW_DEPENDS; KW_EFFORT; KW_START;
      KW_END; KW_COMPLETE; KW_NOTE; KW_TOOLTIP; KW_CELLCOLOR; KW_HIDETASK; KW_HIDERESOURCE;
      KW_FORMATS; KW_COLUMNS; KW_LOADUNIT; KW_HEADLINE; KW_SORTTASKS; KW_SORTRESOURCES; KW_TITLE]);
    (nt_arg_token, [TK_IDENT; TK_STR; TK_INTEGER; TK_FLOAT; TK_DATE; TK_DURATION; TK_BANG; TK_PLUS; TK_MINUS;
      TK_DOT; TK_COLON; TK_COMMA; TK_PERCENT; TK_DOLLAR; TK_LBRACKET; TK_RBRACKET;
      TK_MULTI_LINE_STR; TK_ERROR]) ].

(** The members of the union the non-terminals carry. *)
Inductive value_type : Set := TyTok | TySym | TyBody | TyItem | TyRef | TyInt | TyText | TyNone.

Definition nt_type (n : nonterm) : value_type :=
  match n with
  | nt_symbol_decl | nt_report_decl | nt_navigator_decl | nt_scenario_decl | nt_timesheet_decl
  | nt_statussheet_decl | nt_tagfile_decl | nt_journalentry_decl | nt_open => TySym
  | nt_sym_kw | nt_report_kw | nt_opt_id | nt_opt_name | nt_opt_version | nt_dep_path_seg
  | nt_string_val => TyTok
  | nt_opt_body | nt_body_items => TyBody
  | nt_dep_path | nt_task_ref => TyRef
  | nt_bang_seq => TyInt
  | nt_prefix_path_id => TyText
  | nt_item => TyItem
  | _ => TyNone
  end.

Definition class_productions : list production :=
  flat_map (fun c => map (fun k => P c.1 [T k] (match nt_type c.1 with TyNone => A_none | _ => A_copy end)) c.2)
    classes.

Definition productions : list production :=
  [ P nt_accept [N nt_file] A_none;            (* bison's own: $accept *)
    P nt_file [N nt_reset; N nt_items] A_none;
    P nt_items [] A_none;
    P nt_items [N nt_items; N nt_item] A_route;
    P nt_items [N nt_items; T TK_EOL] A_none;
    P nt_item [N nt_symbol_decl] A_item;
    P nt_item [N nt_report_decl] A_item;
    P nt_item [N nt_navigator_decl] A_item;
    P nt_item [N nt_scenario_decl] A_item;
    P nt_item [N nt_timesheet_decl] A_item;
    P nt_item [N nt_statussheet_decl] A_item;
    P nt_item [N nt_tagfile_decl] A_item;
    P nt_item [N nt_journalentry_decl] A_item;
    P nt_item [N nt_plain_stmt] A_no_item;
    P nt_item [Err] A_no_item;
    P nt_plain_stmt [N nt_extend_stmt] A_none;
    P nt_plain_stmt [N nt_supplement_stmt] A_none;
    P nt_plain_stmt [N nt_macro_stmt] A_none;
    P nt_plain_stmt [N nt_include_stmt] A_none;
    P nt_plain_stmt [T KW_START; T TK_DATE] (A_date true);
    P nt_plain_stmt [T KW_END; T TK_DATE] (A_date false);
    P nt_plain_stmt [N nt_date_kw; T TK_DATE] A_none;
    P nt_plain_stmt [N nt_durval_kw; N nt_dur_val] A_none;
    P nt_plain_stmt [T KW_WORK; N nt_num_val; N nt_dur_unit] A_none;
    P nt_plain_stmt [N nt_numval_kw; N nt_num_val] A_none;
    P nt_plain_stmt [N nt_int_kw; T TK_INTEGER] A_none;
    P nt_plain_stmt [T KW_TIMINGRESOLUTION; T TK_INTEGER; T TK_IDENT] A_none;
    P nt_plain_stmt [N nt_durlimit_kw; N nt_dur_val; N nt_opt_body] A_none;
    P nt_plain_stmt [N nt_string_kw; N nt_string_val] A_none;
    P nt_plain_stmt [T KW_TIMEZONE; N nt_string_val] A_none;
    P nt_plain_stmt [T KW_TIMEZONE; T TK_IDENT] A_none;
    P nt_plain_stmt [N nt_ident_kw; T TK_IDENT] A_none;
    P nt_plain_stmt [T KW_TASKPREFIX; N nt_prefix_path_id] (A_prefix PREFIX_TASK);
    P nt_plain_stmt [T KW_RESOURCEPREFIX; N nt_prefix_path_id] (A_prefix PREFIX_RESOURCE);
    P nt_plain_stmt [T KW_ACCOUNTPREFIX; N nt_prefix_path_id] (A_prefix PREFIX_ACCOUNT);
    P nt_plain_stmt [T KW_REPORTPREFIX; N nt_prefix_path_id] (A_prefix PREFIX_REPORT);
    P nt_plain_stmt [T KW_TASKROOT; N nt_dotted_id] A_none;
    P nt_plain_stmt [T KW_BALANCE; T TK_IDENT; T TK_IDENT] A_none;
    P nt_plain_stmt [T KW_BALANCE; T TK_MINUS] A_none;
    P nt_plain_stmt [N nt_idlist_kw; N nt_id_list] A_none;
    P nt_plain_stmt [T KW_ADOPT; N nt_dotted_id_list] A_none;
    P nt_plain_stmt [N nt_noarg_kw] A_none;
    P nt_plain_stmt [T KW_PERIOD; N nt_interval2] A_none;
    P nt_plain_stmt [T KW_DEPENDS; N nt_depends; N nt_dep_ref_list] A_none;
    P nt_plain_stmt [T KW_PRECEDES; N nt_precedes; N nt_dep_ref_list] A_none;
    P nt_plain_stmt [T KW_ALLOCATE; N nt_alloc_ref_list] A_none;
    P nt_plain_stmt [T KW_BOOKING; T TK_IDENT; N nt_booking_interval_list; N nt_opt_body] A_none;
    P nt_plain_stmt [T KW_SHIFT; N nt_shift_attr_list] A_none;
    P nt_plain_stmt [T KW_SHIFTS; N nt_shift_attr_list] A_none;
    P nt_plain_stmt [T KW_LIMITS; N nt_opt_body] A_none;
    P nt_plain_stmt [T KW_PROJECTION; N nt_opt_body] A_none;
    P nt_plain_stmt [T KW_CHARGESET; N nt_chargeset_list] A_none;
    P nt_plain_stmt [T KW_CHARGE; N nt_num_val; T TK_IDENT] A_none;
    P nt_plain_stmt [T KW_CREDITS; N nt_credits_list] A_none;
    P nt_plain_stmt [N nt_genexpr_kw; N nt_gen_expr; T TK_EOL] A_none;
    P nt_plain_stmt [T KW_COLUMNS; N nt_column_list] A_none;
    P nt_plain_stmt [T KW_FORMATS; N nt_formats_list] A_none;
    P nt_plain_stmt [N nt_ident_string_body_kw; T TK_IDENT; N nt_string_val; N nt_opt_body] A_none;
    P nt_plain_stmt [N nt_format_kw; N nt_string_val; N nt_string_val; N nt_string_val; N nt_string_val; N nt_num_val] A_none;
    P nt_plain_stmt [N nt_stub_kw; N nt_opt_args; T TK_EOL] A_none;
    P nt_plain_stmt [T TK_DOLLAR; T TK_LBRACE; N nt_opt_args; T TK_RBRACE] A_none;
    P nt_plain_stmt [T TK_IDENT; N nt_opt_args; N nt_opt_body] A_none;
    P nt_symbol_decl [T KW_PROJECT; N nt_opt_id; N nt_string_val; N nt_opt_version; N nt_interval2; N nt_opt_body] A_project;
    P nt_symbol_decl [N nt_sym_kw; N nt_opt_id; N nt_string_val; N nt_open; N nt_opt_body] A_close;
    P nt_symbol_decl [T KW_SHIFT; N nt_opt_id; N nt_string_val; N nt_opt_body] (A_decl (Some 2) (Some 3) 4);
    P nt_report_decl [N nt_report_kw; N nt_opt_id; N nt_string_val; N nt_opt_body] (A_decl (Some 2) (Some 3) 4);
    P nt_report_decl [T KW_ICALREPORT; N nt_string_val; N nt_opt_name; N nt_opt_body] (A_decl None (Some 2) 4);
    P nt_report_decl [T KW_NIKUREPORT; N nt_string_val; N nt_opt_name; N nt_opt_body] (A_decl None (Some 2) 4);
    P nt_navigator_decl [T KW_NAVIGATOR; T TK_IDENT; N nt_opt_body] (A_decl (Some 2) None 3);
    P nt_scenario_decl [T KW_SCENARIO; T TK_IDENT; N nt_opt_name; N nt_opt_body] (A_decl (Some 2) (Some 3) 4);
    P nt_timesheet_decl [T KW_TIMESHEET; T TK_IDENT; N nt_interval3; N nt_opt_body] (A_decl (Some 2) None 4);
    P nt_statussheet_decl [T KW_STATUSSHEET; T TK_IDENT; N nt_interval3; N nt_opt_body] (A_decl (Some 2) None 4);
    P nt_tagfile_decl [T KW_TAGFILE; N nt_opt_id; N nt_string_val; N nt_opt_body] (A_decl (Some 2) (Some 3) 4);
    P nt_journalentry_decl [T KW_JOURNALENTRY; T TK_DATE; N nt_string_val; N nt_opt_body] (A_decl None (Some 3) 4);
    P nt_extend_stmt [T KW_EXTEND; N nt_extend_target; N nt_opt_body] A_none;
    P nt_supplement_stmt [T KW_SUPPLEMENT; N nt_supplement_target; N nt_dotted_id; N nt_opt_body] A_none;
    P nt_macro_stmt [T KW_MACRO; T TK_IDENT; T TK_LBRACKET; N nt_macro_body; T TK_RBRACKET] A_none;
    P nt_include_stmt [T KW_INCLUDE; N nt_string_val; N nt_include; N nt_opt_body] A_include;
    P nt_dur_val [N nt_num_val; N nt_dur_unit] A_none;
    P nt_dur_val [T TK_DURATION] A_none;
    P nt_opt_id [] A_no_token;
    P nt_opt_id [T TK_IDENT] A_copy;
    P nt_opt_id [T KW_START] A_copy;
    P nt_opt_name [] A_no_token;
    P nt_opt_name [T TK_STR] A_copy;
    P nt_opt_name [T TK_MULTI_LINE_STR] A_copy;
    P nt_opt_version [] A_no_token;
    P nt_opt_version [T TK_STR] A_copy;
    P nt_interval2 [T TK_DATE; T TK_MINUS; T TK_DATE] A_none;
    P nt_interval2 [T TK_DATE; T TK_DURATION] A_none;
    P nt_interval2 [T TK_DATE; T TK_PLUS; N nt_num_val; N nt_dur_unit] A_none;
    P nt_interval3 [T TK_DATE] A_none;
    P nt_interval3 [T TK_DATE; T TK_MINUS; T TK_DATE] A_none;
    P nt_interval3 [T TK_DATE; T TK_DURATION] A_none;
    P nt_interval3 [T TK_DATE; T TK_PLUS; N nt_num_val; N nt_dur_unit] A_none;
    P nt_dotted_id [T TK_IDENT] A_none;
    P nt_dotted_id [N nt_dotted_id; T TK_DOT; T TK_IDENT] A_none;
    P nt_prefix_path_id [T TK_IDENT] A_text;
    P nt_prefix_path_id [N nt_prefix_path_id; T TK_DOT; T TK_IDENT] A_text_dot;
    P nt_dotted_id_list [N nt_dotted_id] A_none;
    P nt_dotted_id_list [N nt_dotted_id_list; T TK_COMMA; N nt_dotted_id] A_none;
    P nt_id_list [T TK_IDENT] A_none;
    P nt_id_list [N nt_id_list; T TK_COMMA; T TK_IDENT] A_none;
    P nt_bang_seq [] A_zero;
    P nt_bang_seq [N nt_bang_seq; T TK_BANG] A_bang;
    P nt_dep_path [N nt_dep_path_seg] A_path;
    P nt_dep_path [N nt_dep_path; T TK_DOT; N nt_dep_path_seg] A_path_dot;
    P nt_task_ref [N nt_bang_seq; N nt_dep_path] A_task_ref;
    P nt_dep_ref [N nt_task_ref; N nt_opt_body] A_dep_ref;
    P nt_dep_ref_list [N nt_dep_ref] A_none;
    P nt_dep_ref_list [N nt_dep_ref_list; T TK_COMMA; N nt_dep_ref] A_none;
    P nt_alloc_ref [T TK_IDENT; N nt_opt_body] A_none;
    P nt_alloc_ref_list [N nt_alloc_ref] A_none;
    P nt_alloc_ref_list [N nt_alloc_ref_list; T TK_COMMA; N nt_alloc_ref] A_none;
    P nt_shift_attr_ref [T TK_IDENT] A_none;
    P nt_shift_attr_ref [T TK_IDENT; N nt_interval2] A_none;
    P nt_shift_attr_list [N nt_shift_attr_ref] A_none;
    P nt_shift_attr_list [N nt_shift_attr_list; T TK_COMMA; N nt_shift_attr_ref] A_none;
    P nt_booking_interval_list [N nt_interval3] A_none;
    P nt_booking_interval_list [N nt_booking_interval_list; T TK_COMMA; N nt_interval3] A_none;
    P nt_chargeset_list [T TK_IDENT; N nt_num_val; T TK_PERCENT] A_none;
    P nt_chargeset_list [N nt_chargeset_list; T TK_COMMA; T TK_IDENT; N nt_num_val; T TK_PERCENT] A_none;
    P nt_credits_list [T TK_DATE; N nt_string_val; N nt_num_val] A_none;
    P nt_credits_list [N nt_credits_list; T TK_COMMA; T TK_DATE; N nt_string_val; N nt_num_val] A_none;
    P nt_column_entry [N nt_column_id; N nt_opt_body] A_none;
    P nt_column_list [N nt_column_entry] A_none;
    P nt_column_list [N nt_column_list; T TK_COMMA; N nt_column_entry] A_none;
    P nt_formats_list [T TK_IDENT] A_none;
    P nt_formats_list [N nt_formats_list; T TK_COMMA; T TK_IDENT] A_none;
    P nt_gen_expr [N nt_gen_expr_tok] A_none;
    P nt_gen_expr [N nt_gen_expr; N nt_gen_expr_tok] A_none;
    P nt_macro_body [] A_none;
    P nt_macro_body [N nt_macro_body; N nt_macro_body_tok] A_none;
    P nt_opt_args [] A_none;
    P nt_opt_args [N nt_opt_args; N nt_arg_token] A_none;
    P nt_opt_body [] A_no_body;
    P nt_opt_body [T TK_LBRACE; N nt_body_items; T TK_RBRACE] A_body;
    P nt_body_items [] A_no_body;
    P nt_body_items [N nt_body_items; N nt_item] A_body_item;
    P nt_body_items [N nt_body_items; T TK_EOL] A_copy;
    P nt_reset [] A_reset;
    P nt_depends [] (A_dep_kind DEP_KIND_DEPENDS);
    P nt_precedes [] (A_dep_kind DEP_KIND_PRECEDES);
    P nt_open [] A_open;
    P nt_include [] A_include_open ] ++ class_productions.

Local Open Scope Z_scope.

(** ** Nodes and the state the actions share *)

(** The address of a node in the parse's arena. *)
Abbreviation node_ptr := nat.

(** [tj_node] while the tree is built: [parent_node] is left to
    [assign_parent_links], which sets it for the whole tree afterwards. *)
Record pnode : Set := mkPnode {
  pn_keyword : token_kind;
  pn_id : option string;
  pn_name : option string;
  pn_range : LspRange;
  pn_selection_range : LspRange;
  pn_start_date : option Z;             (* [start_date] and [has_start] *)
  pn_end_date : option Z;
  pn_dependencies : list Dependency;
  pn_children : list node_ptr
}.

Record parse_globals : Set := mkGlobals {
  arena_nodes : list pnode;
  root_children : list node_ptr;        (* of [g_output->root] *)
  g_includes : list IncludeRef;         (* of [g_output] *)
  g_in_include_depth : Z;
  g_pending_prefixes : prefix_set;
  g_pending_dep_kind : DepKind;
  g_sym_stack : list node_ptr           (* top first *)
}.

Definition with_nodes (ns : list pnode) (g : parse_globals) : parse_globals :=
  mkGlobals ns (root_children g) (g_includes g) (g_in_include_depth g) (g_pending_prefixes g)
    (g_pending_dep_kind g) (g_sym_stack g).
Definition with_root (rc : list node_ptr) (g : parse_globals) : parse_globals :=
  mkGlobals (arena_nodes g) rc (g_includes g) (g_in_include_depth g) (g_pending_prefixes g)
    (g_pending_dep_kind g) (g_sym_stack g).
Definition with_include (inc : list IncludeRef) (d : Z) (ps : prefix_set) (g : parse_globals) : parse_globals :=
  mkGlobals (arena_nodes g) (root_children g) inc d ps (g_pending_dep_kind g) (g_sym_stack g).
Definition with_dep_kind (k : DepKind) (g : parse_globals) : parse_globals :=
  mkGlobals (arena_nodes g) (root_children g) (g_includes g) (g_in_include_depth g) (g_pending_prefixes g)
    k (g_sym_stack g).
Definition with_sym_stack (s : list node_ptr) (g : parse_globals) : parse_globals :=
  mkGlobals (arena_nodes g) (root_children g) (g_includes g) (g_in_include_depth g) (g_pending_prefixes g)
    (g_pending_dep_kind g) s.

(** The state [parse] starts from: no nodes but the root, and
    [reset_pending_include_state]; the symbol stack and the dependency
    direction are left from the parse before. *)
Definition initial_globals (k : DepKind) (syms : list node_ptr) : parse_globals :=
  mkGlobals [] [] [] 0 empty_prefix_set k syms.

Definition prefix_set_put (k : prefix_kind) (v : option string) (ps : prefix_set) : prefix_set :=
  match k with
  | PREFIX_TASK => mkPrefixSet v (ps_account ps) (ps_resource ps) (ps_report ps)
  | PREFIX_ACCOUNT => mkPrefixSet (ps_task ps) v (ps_resource ps) (ps_report ps)
  | PREFIX_RESOURCE => mkPrefixSet (ps_task ps) (ps_account ps) v (ps_report ps)
  | PREFIX_REPORT => mkPrefixSet (ps_task ps) (ps_account ps) (ps_resource ps) v
  end.

Definition set_pending_prefix (kind : prefix_kind) (value : string) (g : parse_globals) : parse_globals :=
  if (0 <? g_in_include_depth g)%Z
  then with_include (g_includes g) (g_in_include_depth g) (prefix_set_put kind (Some value) (g_pending_prefixes g)) g
  else g.

Definition output_has_project (g : parse_globals) : bool :=
  existsb (fun p => match arena_nodes g !! p with
                    | Some n => bool_decide (pn_keyword n = KW_PROJECT)
                    | None => false
                    end) (root_children g).

(** [None]: the address of no node. *)
Definition route_top_level (p : node_ptr) (g : parse_globals) : option parse_globals :=
  n ← arena_nodes g !! p;
  Some (if bool_decide (pn_keyword n = KW_PROJECT) && output_has_project g then g
        else with_root (root_children g ++ [p]) g).

Definition SYM_STACK_MAX : nat := 128.
Definition sym_stack_push (p : node_ptr) (g : parse_globals) : parse_globals :=
  if (length (g_sym_stack g) <? SYM_STACK_MAX)%nat then with_sym_stack (p :: g_sym_stack g) g else g.
Definition sym_stack_pop (g : parse_globals) : parse_globals := with_sym_stack (tail (g_sym_stack g)) g.
Definition sym_stack_top (g : parse_globals) : option node_ptr := head (g_sym_stack g).

(** A member of the node at [p] is assigned. *)
Definition update_node (p : node_ptr) (f : pnode -> pnode) (g : parse_globals) : option parse_globals :=
  _ ← arena_nodes g !! p; Some (with_nodes (alter f p (arena_nodes g)) g).

Definition pn_set_dates (s e : option Z) (n : pnode) : pnode :=
  mkPnode (pn_keyword n) (pn_id n) (pn_name n) (pn_range n) (pn_selection_range n) s e (pn_dependencies n)
    (pn_children n).
Definition pn_push_dependency (d : Dependency) (n : pnode) : pnode :=
  mkPnode (pn_keyword n) (pn_id n) (pn_name n) (pn_range n) (pn_selection_range n) (pn_start_date n)
    (pn_end_date n) (pn_dependencies n ++ [d]) (pn_children n).
Definition pn_finish (e : LspPos) (cs : list node_ptr) (n : pnode) : pnode :=
  mkPnode (pn_keyword n) (pn_id n) (pn_name n) (mkRange (rstart (pn_range n)) e) (pn_selection_range n)
    (pn_start_date n) (pn_end_date n) (pn_dependencies n) cs.

Definition zero_token : Token := mkTok TK_EOF zero_pos zero_pos None.

Definition alloc_tj_node (kw id name : Token) (g : parse_globals) : node_ptr * parse_globals :=
  let '(i, sel) := match tok_text id with
                   | Some _ => (tok_text id, mkRange (tok_start id) (tok_end id))
                   | None => (tok_text kw, mkRange (tok_start kw) (tok_end kw))
                   end in
  let nm := match tok_text name with Some _ => tok_text name | None => i end in
  (length (arena_nodes g),
   with_nodes (arena_nodes g ++ [mkPnode (tok_kind kw) i nm (mkRange (tok_start kw) zero_pos) sel None None [] []]) g).

(** The end of a declaration: its closing brace, or its keyword. *)
Definition range_end (kw : Token) (body_end : LspPos) : LspPos :=
  if bool_decide (body_end = zero_pos) then tok_end kw else body_end.

Definition finish_tj_node (p : node_ptr) (kw : Token) (syms : list node_ptr) (body_end : LspPos)
    (g : parse_globals) : option parse_globals :=
  update_node p (pn_finish (range_end kw body_end) syms) g.

(** ** Semantic values *)

Inductive value : Set :=
  | VTok (t : Token)
  | VSym (p : node_ptr)
  | VBody (syms : list node_ptr) (body_end : LspPos)
  | VItem (sym : option node_ptr)
  | VRef (bang_count : Z) (path : option string) (start end_ : LspPos)
  | VInt (z : Z)
  | VText (s : string)
  | VNone.

Definition value_type_of (v : value) : value_type :=
  match v with
  | VTok _ => TyTok | VSym _ => TySym | VBody _ _ => TyBody | VItem _ => TyItem | VRef _ _ _ _ => TyRef
  | VInt _ => TyInt | VText _ => TyText | VNone => TyNone
  end.

(** Reading a member of the union: [None] when another one was written. *)
Definition as_tok (v : value) : option Token := match v with VTok t => Some t | _ => None end.
Definition as_sym (v : value) : option node_ptr := match v with VSym p => Some p | _ => None end.
Definition as_body (v : value) : option (list node_ptr * LspPos) :=
  match v with VBody s e => Some (s, e) | _ => None end.
Definition as_item (v : value) : option (option node_ptr) := match v with VItem s => Some s | _ => None end.
Definition as_ref (v : value) : option (Z * option string * LspPos * LspPos) :=
  match v with VRef b p s e => Some (b, p, s, e) | _ => None end.
Definition as_int (v : value) : option Z := match v with VInt z => Some z | _ => None end.
Definition as_text (v : value) : option string := match v with VText s => Some s | _ => None end.

(** ** The actions *)

Section Actions.
(** The values on the stack, top first, and the length of the right-hand side:
    [$i] is [arg i]. *)
Context (vs : list value) (n : nat).

Definition arg (i : nat) : option value := vs !! (n - i)%nat.
Definition arg_tok (i : nat) : option Token := arg i ≫= as_tok.
Definition arg_opt_tok (i : option nat) : option Token :=
  match i with Some i => arg_tok i | None => Some zero_token end.

(** [start] and [end]: onto the enclosing task, if the text is a date. *)
Definition date_action (start : bool) (g : parse_globals) : option parse_globals :=
  match sym_stack_top g with
  | None => Some g
  | Some task =>
      nd ← arena_nodes g !! task;
      if bool_decide (pn_keyword nd = KW_TASK) then
        t ← arg_tok 2;
        match parse_tjp_date (tok_text t) with
        | Some parsed =>
            update_node task (fun nd => if start then pn_set_dates (Some parsed) (pn_end_date nd) nd
                                        else pn_set_dates (pn_start_date nd) (Some parsed) nd) g
        | None => Some g
        end
      else Some g
  end.

(** The body declarations of the project block become siblings of it. *)
Fixpoint hoist (syms : list node_ptr) (g : parse_globals) : option parse_globals :=
  match syms with
  | [] => Some g
  | c :: syms' =>
      nd ← arena_nodes g !! c;
      if bool_decide (pn_keyword nd = KW_PROJECT) then hoist syms' g
      else g ← route_top_level c g; hoist syms' g
  end.

Definition project_action (g : parse_globals) : option (value * parse_globals) :=
  kw ← arg_tok 1; id ← arg_tok 2; name ← arg_tok 3; body ← arg 6 ≫= as_body;
  let '(p, g) := alloc_tj_node kw id name g in
  g ← update_node p (fun nd => pn_finish (range_end kw body.2) (pn_children nd) nd) g;
  g ← hoist body.1 g;
  Some (VSym p, g).

Definition decl_action (id name : option nat) (body : nat) (g : parse_globals) : option (value * parse_globals) :=
  kw ← arg_tok 1; i ← arg_opt_tok id; nm ← arg_opt_tok name; b ← arg body ≫= as_body;
  let '(p, g) := alloc_tj_node kw i nm g in
  g ← finish_tj_node p kw b.1 b.2 g;
  Some (VSym p, g).

(** The mid-rule action of a task, resource or account: the values are those of
    the header before it. *)
Definition open_action (g : parse_globals) : option (value * parse_globals) :=
  kw ← vs !! 2%nat ≫= as_tok; id ← vs !! 1%nat ≫= as_tok; name ← vs !! 0%nat ≫= as_tok;
  let '(p, g) := alloc_tj_node kw id name g in
  Some (VSym p, if bool_decide (tok_kind kw = KW_TASK) then sym_stack_push p g else g).

Definition close_action (g : parse_globals) : option (value * parse_globals) :=
  kw ← arg_tok 1; p ← arg 4 ≫= as_sym; b ← arg 5 ≫= as_body;
  let g := if bool_decide (tok_kind kw = KW_TASK) then sym_stack_pop g else g in
  g ← finish_tj_node p kw b.1 b.2 g;
  Some (VSym p, g).

Definition include_action (g : parse_globals) : option parse_globals :=
  t ← arg_tok 2;
  Some (with_include (push_include (g_includes g) (tok_text t) (Some (g_pending_prefixes g)))
          (g_in_include_depth g - 1) empty_prefix_set g).

Definition dotted (a b : string) : string := (a +:+ "." +:+ b)%string.

(** [None] where the C code reads through a null pointer. *)
Definition path_dot_action : option value :=
  r ← arg 1 ≫= as_ref; t ← arg_tok 3;
  let '(_, path, s, _) := r in
  a ← path; b ← tok_text t;
  Some (VRef 0 (Some (dotted a b)) s (tok_end t)).

Definition dep_ref_action (g : parse_globals) : option parse_globals :=
  r ← arg 1 ≫= as_ref;
  let '(b, path, s, e) := r in
  match sym_stack_top g with
  | Some task => update_node task (pn_push_dependency (mkDep (g_pending_dep_kind g) b path (mkRange s e))) g
  | None => Some g
  end.

Definition run_action (a : action) (g : parse_globals) : option (value * parse_globals) :=
  let keep (v : option value) := v ← v; Some (v, g) in
  let effect (g : option parse_globals) := g ← g; Some (VNone, g) in
  match a with
  | A_none => Some (VNone, g)
  | A_copy => keep (arg 1)
  | A_reset => Some (VNone, with_sym_stack [] g)
  | A_route => i ← arg 2 ≫= as_item;
               effect (match i with Some p => route_top_level p g | None => Some g end)
  | A_item => keep (p ← arg 1 ≫= as_sym; Some (VItem (Some p)))
  | A_no_item => Some (VItem None, g)
  | A_date start => effect (date_action start g)
  | A_prefix k => s ← arg 2 ≫= as_text; effect (Some (set_pending_prefix k s g))
  | A_dep_kind k => Some (VNone, with_dep_kind k g)
  | A_project => project_action g
  | A_open => open_action g
  | A_close => close_action g
  | A_decl id name body => decl_action id name body g
  | A_include_open => Some (VNone, with_include (g_includes g) (g_in_include_depth g + 1) (g_pending_prefixes g) g)
  | A_include => effect (include_action g)
  | A_no_token => Some (VTok zero_token, g)
  | A_text => keep (t ← arg_tok 1; s ← tok_text t; Some (VText s))
  | A_text_dot => keep (s ← arg 1 ≫= as_text; t ← arg_tok 3; x ← tok_text t; Some (VText (dotted s x)))
  | A_zero => Some (VInt 0, g)
  | A_bang => keep (z ← arg 1 ≫= as_int; Some (VInt (z + 1)))
  | A_path => keep (t ← arg_tok 1; Some (VRef 0 (tok_text t) (tok_start t) (tok_end t)))
  | A_path_dot => keep path_dot_action
  | A_task_ref => keep (z ← arg 1 ≫= as_int; r ← arg 2 ≫= as_ref;
                        let '(_, path, s, e) := r in Some (VRef z path s e))
  | A_dep_ref => effect (dep_ref_action g)
  | A_no_body => Some (VBody [] zero_pos, g)
  | A_body => keep (b ← arg 2 ≫= as_body; t ← arg_tok 3; Some (VBody b.1 (tok_end t)))
  | A_body_item => keep (b ← arg 1 ≫= as_body; i ← arg 2 ≫= as_item;
                         Some (VBody (match i with Some p => b.1 ++ [p] | None => b.1 end) b.2))
  end.

End Actions.

(** ** The automaton *)

(** An item is a production, by its index, with a position in its right-hand
    side.  A state is listed by its kernel: the items a step has advanced. *)
Definition item : Set := nat * nat.
Definition lr_state : Set := list item.

Definition production_at (i : nat) : option production := productions !! i.
Definition next_symbol (it : item) : option symbol := p ← production_at it.1; rhs p !! it.2.

(** The non-terminals expected after the items of a list. *)
Definition next_nonterms (ss : list (option symbol)) : list nonterm :=
  omap (fun s => match s with Some (N n) => Some n | _ => None end) ss.

Definition first_nonterms (n : nonterm) : list nonterm :=
  next_nonterms (map (fun p => rhs p !! 0%nat) (filter (fun p => lhs p = n) productions)).

Fixpoint close (fuel : nat) (todo seen : list nonterm) : list nonterm :=
  match fuel, todo with
  | O, _ | _, [] => seen
  | S fuel', n :: todo' =>
      if bool_decide (n ∈ seen) then close fuel' todo' seen
      else close fuel' (first_nonterms n ++ todo') (n :: seen)
  end.

(** The non-terminals a derivation of [n] can begin with. *)
Definition left_corners (n : nonterm) : list nonterm := close 200 [n] [].

Definition corner_table : list (list nonterm) := Eval vm_compute in map left_corners all_nonterms.
Definition corners (n : nonterm) : list nonterm := default [] (corner_table !! nt_code n).

(** The non-terminals a state expects the beginning of. *)
Definition predicted (st : lr_state) : list nonterm :=
  flat_map corners (next_nonterms (map next_symbol st)).

Definition indexed_productions : list (nat * production) := imap pair productions.

Definition goto (st : lr_state) (x : symbol) : option lr_state :=
  let pr := predicted st in
  let advanced := filter (fun it => next_symbol it = Some x) st in
  let started := filter (fun ip : nat * production => rhs ip.2 !! 0%nat = Some x /\ lhs ip.2 ∈ pr) indexed_productions in
  match map (fun it : item => (it.1, S it.2)) advanced ++ map (fun ip : nat * production => (ip.1, 1%nat)) started with
  | [] => None
  | st' => Some st'
  end.

(** The production at [i] can be reduced. *)
Definition reducible (st : lr_state) (i : nat) : bool :=
  match production_at i with
  | None => false
  | Some p => bool_decide ((i, length (rhs p)) ∈ st) ||
              (bool_decide (rhs p = []) && bool_decide (lhs p ∈ predicted st))
  end.

Definition reductions (st : lr_state) : list nat :=
  filter (fun i => reducible st i = true)
    (remove_dups (map fst st ++
       map fst (filter (fun ip : nat * production => rhs ip.2 = []) indexed_productions))).

Definition shifts_error (st : lr_state) : bool := bool_decide (is_Some (goto st Err)).

(** Bison gives a state with reductions a default reduction, so errors are
    found elsewhere, or where the error token can be shifted. *)
Definition detects_error (st : lr_state) : bool :=
  bool_decide (reductions st = []) || shifts_error st.

(** The production of the start symbol is the first. *)
Definition start_state : lr_state := [(0%nat, 0%nat)].

(** ** The parser *)

Record frame : Set := mkFrame { fr_state : lr_state; fr_symbol : symbol; fr_value : value }.

Record yy_config : Set := mkYY {
  yystack : list frame;                 (* top first *)
  yyinput : list Token;                 (* what [yylex] is still to return *)
  yyerrstatus : nat;
  yyglobals : parse_globals
}.

Definition top_state (st : list frame) : lr_state :=
  match st with [] => start_state | f :: _ => fr_state f end.

Inductive yy_move : Set := Shift | Reduce (i : nat) | Error.

(** [Next] goes on; [Abort] ends the parse; [Bad]: no move of the automaton;
    [Crash]: the action reads a member that was not written, a null pointer or
    no node. *)
Inductive yy_result : Set := Next (c : yy_config) | Abort | Bad | Crash.

Definition shift (c : yy_config) : yy_result :=
  match yyinput c with
  | [] => Bad
  | t :: ts =>
      match goto (top_state (yystack c)) (T (tok_kind t)) with
      | None => Bad
      | Some st => Next (mkYY (mkFrame st (T (tok_kind t)) (VTok t) :: yystack c) ts
                           (Nat.pred (yyerrstatus c)) (yyglobals c))
      end
  end.

Definition reduce (i : nat) (c : yy_config) : yy_result :=
  match production_at i with
  | None => Bad
  | Some p =>
      if negb (reducible (top_state (yystack c)) i) then Bad else
      let n := length (rhs p) in
      let below := drop n (yystack c) in
      match goto (top_state below) (N (lhs p)) with
      | None => Bad
      | Some st =>
          match run_action (map fr_value (yystack c)) n (act p) (yyglobals c) with
          | None => Crash
          | Some (v, g) => Next (mkYY (mkFrame st (N (lhs p)) v :: below) (yyinput c) (yyerrstatus c) g)
          end
      end
  end.

(** Symbols are discarded up to a state that shifts the error token. *)
Fixpoint pop_to_error (stack : list frame) : option (list frame) :=
  match goto (top_state stack) Err, stack with
  | Some st, _ => Some (mkFrame st Err VNone :: stack)
  | None, [] => None
  | None, _ :: stack' => pop_to_error stack'
  end.

(** The look-ahead that could not be used right after an error is discarded;
    three shifts end the recovery. *)
Definition error (c : yy_config) : yy_result :=
  if negb (detects_error (top_state (yystack c))) then Bad else
  let input :=
    if bool_decide (yyerrstatus c = 3%nat) then
      match yyinput c with
      | t :: ts => if bool_decide (tok_kind t = TK_EOF) then None else Some ts
      | [] => None
      end
    else Some (yyinput c) in
  match input, pop_to_error (yystack c) with
  | Some ts, Some stack => Next (mkYY stack ts 3 (yyglobals c))
  | _, _ => Abort
  end.

Definition yy_step (m : yy_move) (c : yy_config) : yy_result :=
  match m with Shift => shift c | Reduce i => reduce i c | Error => error c end.

(** [yyparse] on the tokens of [yylex]; it stops in any configuration ([file]
    accepted, recovery failed, stack exhausted), and [parse] harvests the
    globals. *)
Definition yyparse_start (toks : list Token) (g : parse_globals) : yy_config := mkYY [] toks 0 g.

(** One choice of moves, for running the parser: shift if possible, else the
    only reduction, else the one after which the look-ahead can be shifted,
    else recovery. *)
Fixpoint can_shift (fuel : nat) (stack : list (lr_state * symbol)) (k : token_kind) : bool :=
  let st := match stack with [] => start_state | f :: _ => f.1 end in
  bool_decide (is_Some (goto st (T k))) ||
  match fuel with
  | O => false
  | S fuel' =>
      existsb (fun i => match production_at i with
                        | None => false
                        | Some p =>
                            let below := drop (length (rhs p)) stack in
                            match goto (match below with [] => start_state | f :: _ => f.1 end) (N (lhs p)) with
                            | Some st' => can_shift fuel' ((st', N (lhs p)) :: below) k
                            | None => false
                            end
                        end) (reductions st)
  end.

Definition choose (c : yy_config) : option yy_move :=
  let st := top_state (yystack c) in
  match yyinput c with
  | [] => None
  | t :: _ =>
      if bool_decide (is_Some (goto st (T (tok_kind t)))) then Some Shift
      else match reductions st with
           | [] => Some Error
           | [i] => if shifts_error st && negb (bool_decide (tok_kind t = TK_EOF)) then Some Error else Some (Reduce i)
           | i :: is' =>
               let ok := fun i => match production_at i with
                         | None => false
                         | Some p =>
                             let stack := map (fun f => (fr_state f, fr_symbol f)) (yystack c) in
                             let below := drop (length (rhs p)) stack in
                             match goto (match below with [] => start_state | f :: _ => f.1 end) (N (lhs p)) with
                             | Some st' => can_shift 4 ((st', N (lhs p)) :: below) (tok_kind t)
                             | None => false
                             end
                         end in
               Some (Reduce (default i (find ok (i :: is'))))
           end
  end.

Definition accepted (c : yy_config) : bool :=
  match yystack c with f :: _ => bool_decide (fr_symbol f = N nt_file) | [] => false end.

(** ** Runs *)

(** The configurations reached by moves that all satisfy [ok]. *)
Inductive reach (ok : yy_move -> yy_config -> Prop) (c0 : yy_config) : yy_config -> Prop :=
  | reach_start : reach ok c0 c0
  | reach_step c m c' : reach ok c0 c -> ok m c -> yy_step m c = Next c' -> reach ok c0 c'.

Definition any_move (_ : yy_move) (_ : yy_config) : Prop := True.

(** A project block is only ever completed at the top level of the file. *)
Definition projects_at_top (m : yy_move) (c : yy_config) : Prop :=
  forall i p, m = Reduce i -> production_at i = Some p -> act p = A_project ->
    map fr_symbol (drop (length (rhs p)) (yystack c)) = [N nt_items; N nt_reset].

(** The run [choose] makes. *)
Fixpoint drive (fuel : nat) (c : yy_config) : yy_config :=
  match fuel with
  | O => c
  | S fuel' =>
      if accepted c then c
      else match choose c with
           | Some m => match yy_step m c with Next c' => drive fuel' c' | _ => c end
           | None => c
           end
  end.

(** ** The finished tree *)

(** The node at an address, with its subtree; [fuel] bounds the depth. *)
Fixpoint read_tree (fuel : nat) (h : list pnode) (p : node_ptr) : option tj_node :=
  match fuel with
  | O => None
  | S fuel' =>
      n ← h !! p;
      cs ← mapM (read_tree fuel' h) (pn_children n);
      Some (TjNode (pn_keyword n) (pn_id n) (pn_name n) (pn_range n) (pn_selection_range n)
              (default 0 (pn_start_date n)) (default 0 (pn_end_date n))
              (bool_decide (is_Some (pn_start_date n))) (bool_decide (is_Some (pn_end_date n)))
              (pn_dependencies n) cs)
  end.

(** [po->root]: a chain of descendants has no more nodes than the arena. *)
Definition output_root (g : parse_globals) : option tj_node :=
  cs ← mapM (read_tree (S (length (arena_nodes g))) (arena_nodes g)) (root_children g);
  Some (set_children tj_node_new cs).
