(* ===== verification/ParseSafety.v ===== *)
(** * The parser never reads what is not there.

    Invariants of the parser of [Grammar], for every choice of moves: the stack
    is a path of the automaton and its values have the types the grammar
    declares, so no action reads a member of the union that was not written, a
    null pointer or the address of no node, and every reduction the automaton
    offers goes through. *)

From S2P Require Import Prelude Tokens Syntax Lexer Scanner Grammar.

(** ** The automaton *)

Definition is_start_item (it : item) : Prop := it = (0%nat, 0%nat).

(** The stack is a path of the automaton. *)
Inductive lr_stack : list frame -> Prop :=
  | lr_nil : lr_stack []
  | lr_cons f st :
      goto (top_state st) (fr_symbol f) = Some (fr_state f) -> lr_stack st -> lr_stack (f :: st).

Lemma production_at_in i p : production_at i = Some p -> p ∈ productions.
Proof. apply list_elem_of_lookup_2. Qed.

Lemma elem_of_indexed i p : (i, p) ∈ indexed_productions -> production_at i = Some p.
Proof.
  unfold indexed_productions. intros [j Hj]%list_elem_of_lookup.
  rewrite list_lookup_imap in Hj. destruct (productions !! j) eqn:E; [|done].
  cbn in Hj. by simplify_eq.
Qed.

(** A decidable property of every production, of the one at hand. *)
Tactic Notation "each_production" constr(Q) constr(Hp) "as" ident(H) :=
  assert (H : bool_decide (Forall Q productions) = true) by (vm_compute; reflexivity);
  apply bool_decide_eq_true in H; rewrite Forall_forall in H;
  specialize (H _ (production_at_in _ _ Hp)); cbn beta in H.

Lemma indexed_elem i p : production_at i = Some p -> (i, p) ∈ indexed_productions.
Proof.
  intros Hp. apply (list_elem_of_lookup_2 _ i). unfold indexed_productions, production_at in *.
  by rewrite list_lookup_imap, Hp.
Qed.

(** Where the items of a successor state come from. *)
Lemma goto_items st x st' i d :
  goto st x = Some st' -> (i, d) ∈ st' ->
  exists d', d = S d' /\ next_symbol (i, d') = Some x /\
    ((i, d') ∈ st \/ d' = 0%nat /\ exists p, production_at i = Some p /\ lhs p ∈ predicted st).
Proof.
  unfold goto. set (adv := map _ (filter _ st)). set (new := map _ (filter _ indexed_productions)).
  intros H Hin. assert (Hst : adv ++ new = st') by (destruct (adv ++ new); by simplify_eq).
  rewrite <- Hst in Hin. apply elem_of_app in Hin as [Hin|Hin].
  - apply list_elem_of_In, in_map_iff in Hin as ([j d'] & [= -> <-] & Hin).
    apply list_elem_of_In, list_elem_of_filter in Hin as [Hn Hin]. exists d'. auto.
  - apply list_elem_of_In, in_map_iff in Hin as ([j p] & [= -> <-] & Hin).
    apply list_elem_of_In, list_elem_of_filter in Hin as [[Hn Hl] Hin]. cbn in Hn, Hl.
    apply elem_of_indexed in Hin. exists 0%nat. split; [done|]. split.
    + unfold next_symbol. cbn [fst snd]. rewrite Hin. exact Hn.
    + right. split; [done|]. by exists p.
Qed.

(** An item of the top state describes the symbols on top of the stack. *)
Lemma item_symbols stk i d p :
  lr_stack stk -> (i, d) ∈ top_state stk -> production_at i = Some p ->
  (d <= length stk)%nat /\ take d (rhs p) = reverse (map fr_symbol (take d stk)) /\
  (d <= length (rhs p))%nat /\
  (i = 0%nat /\ drop d stk = [] \/ lhs p ∈ predicted (top_state (drop d stk))).
Proof.
  intros Hlr. revert i d p. induction Hlr as [|f st Hg Hlr IH]; intros i d p Hin Hp.
  { cbn in Hin. apply list_elem_of_singleton in Hin as [= -> ->]. cbn. split_and!; [lia|done|lia|by left]. }
  cbn in Hin. destruct (goto_items _ _ _ _ _ Hg Hin) as (d' & -> & Hn & Hor).
  unfold next_symbol in Hn. cbn [fst snd] in Hn. rewrite Hp in Hn. cbn in Hn.
  pose proof (lookup_lt_Some _ _ _ Hn) as Hlt.
  assert (Hrev : forall l, reverse (map fr_symbol (f :: l)) = reverse (map fr_symbol l) ++ [fr_symbol f])
    by (intros; by rewrite <- reverse_cons).
  destruct Hor as [Hin'|[-> (q & Hq & Hpr)]].
  - destruct (IH i d' p Hin' Hp) as (Hl & Ht & _ & Hd). cbn [take drop length]. split_and!; [lia| |lia|done].
    rewrite Hrev, <- Ht. by apply take_S_r.
  - rewrite Hp in Hq. injection Hq as <-. cbn [take drop length]. split_and!; [lia| |lia|by right].
    destruct (rhs p); cbn in Hn |- *; by simplify_eq.
Qed.

(** What a reduction finds on the stack. *)
Lemma reducible_symbols stk i p :
  lr_stack stk -> production_at i = Some p -> reducible (top_state stk) i = true ->
  (length (rhs p) <= length stk)%nat /\ rhs p = reverse (map fr_symbol (take (length (rhs p)) stk)) /\
  (i = 0%nat \/ lhs p ∈ predicted (top_state (drop (length (rhs p)) stk))).
Proof.
  intros Hlr Hp. unfold reducible. rewrite Hp. intros [Hin|Hr]%orb_true_iff.
  - apply bool_decide_eq_true in Hin.
    destruct (item_symbols _ _ _ _ Hlr Hin Hp) as (Hl & Ht & _ & Hd).
    rewrite take_ge in Ht by lia. split_and!; [done|done|]. destruct Hd as [[? _]|?]; auto.
  - apply andb_true_iff in Hr as [Hr%bool_decide_eq_true Hl%bool_decide_eq_true].
    rewrite Hr. cbn. split_and!; [lia|done|by right].
Qed.

Lemma elem_of_predicted st m :
  m ∈ predicted st -> exists it n, it ∈ st /\ next_symbol it = Some (N n) /\ m ∈ corners n.
Proof.
  unfold predicted. intros Hm%list_elem_of_In. apply in_flat_map in Hm as (n & Hn & Hm).
  apply list_elem_of_In in Hm, Hn. unfold next_nonterms in Hn.
  apply list_elem_of_omap in Hn as (s & Hs & Hsn).
  apply list_elem_of_In, in_map_iff in Hs as (it & <- & Hit). apply list_elem_of_In in Hit.
  exists it, n. split_and!; [done| |done]. by destruct (next_symbol it) as [[]|]; simplify_eq.
Qed.

Lemma all_nonterms_complete n : n ∈ all_nonterms.
Proof. apply (list_elem_of_lookup_2 _ (nt_code n)). by destruct n. Qed.

(** A boolean property of every non-terminal, or of every production. *)
Lemma forall_nonterms (Q : nonterm -> bool) : forallb Q all_nonterms = true -> forall n, Q n = true.
Proof. intros H n. rewrite forallb_forall in H. apply H, list_elem_of_In, all_nonterms_complete. Qed.

Lemma forall_productions (Q : production -> bool) :
  forallb Q productions = true -> forall i p, production_at i = Some p -> Q p = true.
Proof.
  intros H i p Hp. rewrite forallb_forall in H. by apply H, list_elem_of_In, (production_at_in i).
Qed.

(** [n] begins only derivations of itself. *)
Definition own_corner (n : nonterm) : bool :=
  forallb (fun m => negb (bool_decide (n ∈ corners m)) || bool_decide (m = n)) all_nonterms.

Lemma own_corner_spec n m : own_corner n = true -> n ∈ corners m -> m = n.
Proof.
  intros H Hn. unfold own_corner in H. rewrite forallb_forall in H.
  specialize (H m (proj1 (list_elem_of_In _ _) (all_nonterms_complete m))).
  rewrite bool_decide_true in H by done. by apply bool_decide_eq_true in H.
Qed.

(** A mid-rule marker is expected only where its production has it: its
    context is on the stack. *)
Definition marker_context (m : nonterm) (before : list symbol) (p : production) : bool :=
  forallb (fun d => negb (bool_decide (rhs p !! d = Some (N m))) || bool_decide (take d (rhs p) = before))
    (seq 0 (length (rhs p))).

Lemma predicted_marker stk m before :
  lr_stack stk -> own_corner m = true -> forallb (marker_context m before) productions = true ->
  m ∈ predicted (top_state stk) -> before = reverse (map fr_symbol (take (length before) stk)).
Proof.
  intros Hlr Ho Hc Hm. apply elem_of_predicted in Hm as ([i d] & n & Hit & Hn & Hmn).
  apply own_corner_spec in Hmn as ->; [|done].
  unfold next_symbol in Hn. cbn [fst snd] in Hn. destruct (production_at i) as [p|] eqn:Hp; [|done]. cbn in Hn.
  destruct (item_symbols _ _ _ _ Hlr Hit Hp) as (_ & Ht & Hl & _).
  pose proof (forall_productions _ Hc i p Hp) as Hb. unfold marker_context in Hb.
  rewrite forallb_forall in Hb. pose proof (lookup_lt_Some _ _ _ Hn) as Hlt.
  specialize (Hb d ltac:(apply in_seq; lia)). rewrite bool_decide_true in Hb by done.
  cbn in Hb. apply bool_decide_eq_true in Hb. rewrite <- Hb, Ht at 1.
  f_equal. f_equal. f_equal. rewrite <- Hb, length_take. lia.
Qed.

(** The marker of a task, resource or account stands behind its header. *)
Lemma open_context stk :
  lr_stack stk -> nt_open ∈ predicted (top_state stk) ->
  exists f1 f2 f3 rest, stk = f1 :: f2 :: f3 :: rest /\
    fr_symbol f1 = N nt_string_val /\ fr_symbol f2 = N nt_opt_id /\ fr_symbol f3 = N nt_sym_kw.
Proof.
  intros Hlr Hm.
  pose proof (predicted_marker stk nt_open [N nt_sym_kw; N nt_opt_id; N nt_string_val] Hlr
    ltac:(vm_compute; reflexivity) ltac:(vm_compute; reflexivity) Hm) as Hb.
  unfold reverse in Hb. destruct stk as [|f1 [|f2 [|f3 rest]]]; cbn in Hb; simplify_eq.
  rewrite take_0 in Hb. cbn in Hb. injection Hb as ? ? ?. by exists f1, f2, f3, rest.
Qed.

(** The bottom of the stack: the marker that resets the symbol stack, then
    [items]. *)
Lemma start_reduces i p :
  production_at i = Some p -> reducible start_state i = true -> p = P nt_reset [] A_reset.
Proof.
  intros Hp Hr.
  assert (Hb : forallb (fun ip => negb (reducible start_state ip.1) ||
      match ip.2 with P nt_reset [] A_reset => true | _ => false end) indexed_productions = true)
    by (vm_compute; reflexivity).
  rewrite forallb_forall in Hb. specialize (Hb (i, p)). cbn [fst snd] in Hb. rewrite Hr in Hb. cbn in Hb.
  assert (Hin : In (i, p) indexed_productions).
  { apply list_elem_of_In, (list_elem_of_lookup_2 _ i). unfold indexed_productions, production_at in *.
    rewrite list_lookup_imap, Hp. done. }
  specialize (Hb Hin). destruct p as [[] [|] []]; done.
Qed.

(** ** Productions by their action *)

#[global] Instance prefix_kind_eq_dec : EqDecision prefix_kind.
Proof. solve_decision. Defined.
#[global] Instance DepKind_eq_dec : EqDecision DepKind.
Proof. solve_decision. Defined.
#[global] Instance value_type_eq_dec : EqDecision value_type.
Proof. solve_decision. Defined.
#[global] Instance action_eq_dec : EqDecision action.
Proof. solve_decision. Defined.
#[global] Instance production_eq_dec : EqDecision production.
Proof. solve_decision. Defined.

(** The tokens a non-terminal with a token value stands for. *)
Definition tok_kinds (n : nonterm) : list token_kind :=
  match n with
  | nt_opt_id => [TK_IDENT; KW_START]
  | nt_opt_name => [TK_STR; TK_MULTI_LINE_STR]
  | nt_opt_version => [TK_STR]
  | _ => match nt_type n with
         | TyTok => flat_map (fun c => if bool_decide (c.1 = n) then c.2 else []) classes
         | _ => []
         end
  end.

Definition copies_token (p : production) : bool :=
  match p with
  | P n [T k] A_copy => bool_decide (k ∈ tok_kinds n) && bool_decide (nt_type n = TyTok)
  | _ => false
  end.

(** The productions whose action does something. *)
Definition acting_productions : list production :=
  Eval vm_compute in filter (fun p => act p <> A_none /\ copies_token p = false) productions.

Definition classified (p : production) : bool :=
  (bool_decide (act p = A_none) && bool_decide (nt_type (lhs p) = TyNone)) || copies_token p ||
  bool_decide (p ∈ acting_productions).

Lemma production_split i p :
  production_at i = Some p ->
  (act p = A_none /\ nt_type (lhs p) = TyNone) \/
  (exists n k, p = P n [T k] A_copy /\ k ∈ tok_kinds n /\ nt_type n = TyTok) \/
  p ∈ acting_productions.
Proof.
  intros Hp.
  pose proof (forall_productions classified ltac:(vm_compute; reflexivity) i p Hp) as H.
  unfold classified in H. apply orb_true_iff in H as [[H|H]%orb_true_iff|H].
  - apply andb_true_iff in H as [?%bool_decide_eq_true ?%bool_decide_eq_true]. by left.
  - right; left. unfold copies_token in H. destruct p as [n [|[k| |] [|]] []]; try done.
    apply andb_true_iff in H as [?%bool_decide_eq_true ?%bool_decide_eq_true]. by exists n, k.
  - right; right. by apply bool_decide_eq_true in H.
Qed.

(** The frames a reduction pops. *)
Lemma popped_frames stk p :
  (length (rhs p) <= length stk)%nat -> rhs p = reverse (map fr_symbol (take (length (rhs p)) stk)) ->
  exists top, stk = top ++ drop (length (rhs p)) stk /\ map fr_symbol top = reverse (rhs p) /\
    length top = length (rhs p).
Proof.
  intros Hl Hr. exists (take (length (rhs p)) stk). split_and!.
  - by rewrite take_drop.
  - rewrite Hr at 2. by rewrite reverse_involutive.
  - rewrite length_take. lia.
Qed.

(** Names the frames of [H : map fr_symbol top = [..]]. *)
Ltac name_frames H :=
  match type of H with
  | map _ ?top = _ =>
      unfold reverse in H; cbn [rhs rev_append] in H;
      repeat first
        [ progress (destruct top as [|[?st ?sy ?v] top]; cbn [map fr_symbol] in H; [discriminate H|injection H as -> H])
        | destruct top; [clear H|discriminate H] ]
  end.

(** ** Types of the semantic values *)

(** The scanner's lexemes are there where an action needs them. *)
Definition tok_good (t : Token) : Prop :=
  emitted_as_kw (tok_kind t) || bool_decide (tok_kind t = TK_IDENT) = true -> is_Some (tok_text t).

Definition node_in (h : list pnode) (p : node_ptr) : Prop := is_Some (h !! p).

Definition value_ok (h : list pnode) (n : nonterm) (v : value) : Prop :=
  match v with
  | VTok t => (t = zero_token /\ n ∈ [nt_opt_id; nt_opt_name; nt_opt_version]) \/
              (tok_kind t ∈ tok_kinds n /\ tok_good t)
  | VSym p => node_in h p
  | VBody syms _ => Forall (node_in h) syms
  | VItem (Some p) => node_in h p
  | VRef _ path _ _ => is_Some path
  | _ => True
  end.

(** A symbol's value has the member the grammar declares for it. *)
Definition typed (h : list pnode) (f : frame) : Prop :=
  match fr_symbol f with
  | T k => exists t, fr_value f = VTok t /\ tok_kind t = k /\ tok_good t
  | N n => value_type_of (fr_value f) = nt_type n /\ value_ok h n (fr_value f)
  | Err => True
  end.

(** The arena only grows. *)
Definition grows (h h' : list pnode) : Prop := (length h <= length h')%nat.

Lemma node_in_grows h h' p : grows h h' -> node_in h p -> node_in h' p.
Proof. unfold grows, node_in. rewrite !lookup_lt_is_Some. lia. Qed.

Lemma value_ok_grows h h' n v : grows h h' -> value_ok h n v -> value_ok h' n v.
Proof.
  intros Hg. destruct v as [| |syms e|[p|]| | | |]; cbn; try done; try by apply node_in_grows.
  intros H. eapply Forall_impl; [exact H|]. intros p. by apply node_in_grows.
Qed.

Lemma typed_grows h h' f : grows h h' -> typed h f -> typed h' f.
Proof. intros Hg. unfold typed. destruct (fr_symbol f); try done. intros [? ?]. eauto using value_ok_grows. Qed.

(** What the actions rely on, and keep: live addresses, on the symbol stack and
    among the declarations. *)
Definition globals_ok (g : parse_globals) : Prop :=
  Forall (node_in (arena_nodes g)) (root_children g) /\ Forall (node_in (arena_nodes g)) (g_sym_stack g).

(** The outcome of an action that does not crash. *)
Definition acts_well (n : nonterm) (g : parse_globals) (r : option (value * parse_globals)) : Prop :=
  exists v g', r = Some (v, g') /\ value_type_of v = nt_type n /\ value_ok (arena_nodes g') n v /\
    globals_ok g' /\ grows (arena_nodes g) (arena_nodes g').

(** *** Operations on nodes *)

Lemma update_node_ok p f g :
  node_in (arena_nodes g) p -> update_node p f g = Some (with_nodes (alter f p (arena_nodes g)) g).
Proof. intros [n Hn]. unfold update_node. by rewrite Hn. Qed.

Lemma grows_alter f p h : grows h (alter f p h).
Proof. unfold grows. by rewrite length_alter. Qed.

Lemma grows_app h l : grows h (h ++ l).
Proof. unfold grows. rewrite length_app. lia. Qed.

Lemma grows_trans h1 h2 h3 : grows h1 h2 -> grows h2 h3 -> grows h1 h3.
Proof. unfold grows. lia. Qed.

#[local] Hint Resolve node_in_grows grows_alter grows_app : core.

Lemma globals_ok_grows g h : globals_ok g -> grows (arena_nodes g) h -> globals_ok (with_nodes h g).
Proof. intros [H1 H2] Hg. split; (eapply Forall_impl; [eassumption|]); eauto. Qed.

Lemma update_node_well p f g :
  globals_ok g -> node_in (arena_nodes g) p ->
  exists g', update_node p f g = Some g' /\ globals_ok g' /\ grows (arena_nodes g) (arena_nodes g') /\
    root_children g' = root_children g /\ g_sym_stack g' = g_sym_stack g.
Proof.
  intros Hg Hp. rewrite update_node_ok by done. eexists. split_and!; [done| |apply grows_alter|done|done].
  apply globals_ok_grows; [done|apply grows_alter].
Qed.

(** The new node, and the globals with it. *)
Lemma alloc_tj_node_well kw id name g :
  globals_ok g ->
  let r := alloc_tj_node kw id name g in
  globals_ok r.2 /\ grows (arena_nodes g) (arena_nodes r.2) /\ node_in (arena_nodes r.2) r.1.
Proof.
  intros Hg. unfold alloc_tj_node. destruct (match tok_text id with Some _ => _ | None => _ end) as [i sel]. cbn.
  split_and!; [by apply globals_ok_grows|apply grows_app|].
  unfold node_in. rewrite lookup_lt_is_Some, length_app. cbn. lia.
Qed.

Lemma route_top_level_well p g :
  globals_ok g -> node_in (arena_nodes g) p ->
  exists g', route_top_level p g = Some g' /\ globals_ok g' /\ arena_nodes g' = arena_nodes g.
Proof.
  intros [H1 H2] [n Hn]. unfold route_top_level. rewrite Hn. cbn. eexists. split; [done|].
  case_match; [done|]. split; [|done]. split; [|done]. apply Forall_app. split; [done|]. by repeat constructor; exists n.
Qed.

Lemma hoist_well syms g :
  globals_ok g -> Forall (node_in (arena_nodes g)) syms ->
  exists g', hoist syms g = Some g' /\ globals_ok g' /\ arena_nodes g' = arena_nodes g.
Proof.
  revert g. induction syms as [|p syms IH]; intros g Hg Hs; [by exists g|].
  apply Forall_cons in Hs as [[n Hn] Hs]. cbn [hoist]. rewrite Hn. cbn [mbind option_bind].
  case_bool_decide; [by apply IH|].
  destruct (route_top_level_well p g Hg ltac:(by exists n)) as (g1 & -> & Hg1 & Ha). cbn [mbind option_bind].
  destruct (IH g1 Hg1) as (g2 & -> & Hg2 & Ha2); [by rewrite Ha|]. exists g2. by rewrite Ha2.
Qed.

(** *** Actions *)

Lemma typed_tok h st n v :
  nt_type n = TyTok -> typed h (mkFrame st (N n) v) -> exists t, v = VTok t /\ value_ok h n (VTok t).
Proof. intros Hn [Ht Hv]. cbn in Ht. rewrite Hn in Ht. destruct v; try done. by eexists. Qed.

(** Reads off the values of the named frames. *)
Ltac read_values :=
  repeat match goal with
  | H : Forall (typed _) (_ :: _) |- _ => apply Forall_cons in H as [? H]
  | H : Forall (typed _) [] |- _ => clear H
  | H : typed _ (mkFrame _ Err _) |- _ => clear H
  | H : typed _ (mkFrame _ (T _) _) |- _ =>
      let t := fresh "t" in let Hk := fresh "Hk" in let Hg := fresh "Hgood" in
      destruct H as (t & H & Hk & Hg); cbn in H; subst
  | H : typed _ (mkFrame _ (N _) ?v) |- _ =>
      let Ht := fresh "Hty" in let Hv := fresh "Hval" in
      destruct H as [Ht Hv]; cbn in Ht; destruct v; try discriminate Ht; clear Ht; cbn [fr_value fr_symbol] in Hv
  end.

Lemma decl_action_well vs n id name body g kw i nm b :
  globals_ok g -> arg_tok vs n 1 = Some kw -> arg_opt_tok vs n id = Some i -> arg_opt_tok vs n name = Some nm ->
  arg vs n body ≫= as_body = Some b -> Forall (node_in (arena_nodes g)) b.1 ->
  exists p g', decl_action vs n id name body g = Some (VSym p, g') /\ node_in (arena_nodes g') p /\
    globals_ok g' /\ grows (arena_nodes g) (arena_nodes g').
Proof.
  intros Hg Hkw Hi Hnm Hb _. unfold decl_action. rewrite Hkw, Hi, Hnm, Hb. cbn [mbind option_bind].
  pose proof (alloc_tj_node_well kw i nm g Hg) as (Hg1 & Hgr & Hp). destruct (alloc_tj_node kw i nm g) as [p g1].
  cbn in Hg1, Hgr, Hp. unfold finish_tj_node.
  destruct (update_node_well p (pn_finish (range_end kw b.2) b.1) g1 Hg1 Hp) as (g2 & -> & Hg2 & Hgr2 & _).
  cbn. exists p, g2. split_and!; eauto using grows_trans.
Qed.

Lemma project_action_well vs g kw id name b :
  globals_ok g -> arg_tok vs 6 1 = Some kw -> arg_tok vs 6 2 = Some id -> arg_tok vs 6 3 = Some name ->
  arg vs 6 6 ≫= as_body = Some b -> Forall (node_in (arena_nodes g)) b.1 ->
  exists p g', project_action vs 6 g = Some (VSym p, g') /\ node_in (arena_nodes g') p /\
    globals_ok g' /\ grows (arena_nodes g) (arena_nodes g').
Proof.
  intros Hg Hkw Hi Hnm Hb Hs. unfold project_action. rewrite Hkw, Hi, Hnm, Hb. cbn [mbind option_bind].
  pose proof (alloc_tj_node_well kw id name g Hg) as (Hg1 & Hgr & Hp). destruct (alloc_tj_node kw id name g) as [p g1].
  cbn in Hg1, Hgr, Hp.
  destruct (update_node_well p (fun nd => pn_finish (range_end kw b.2) (pn_children nd) nd) g1 Hg1 Hp)
    as (g2 & -> & Hg2 & Hgr2 & _). cbn [mbind option_bind].
  destruct (hoist_well b.1 g2 Hg2) as (g3 & -> & Hg3 & Ha).
  { eapply Forall_impl; [exact Hs|]. intros q Hq. eapply node_in_grows; [|exact Hq]. by eapply grows_trans. }
  cbn. exists p, g3. rewrite Ha. split_and!; eauto using grows_trans.
Qed.

Lemma segment_text t k :
  tok_kind t = k -> k ∈ [TK_IDENT; KW_START] -> tok_good t -> exists s, tok_text t = Some s.
Proof.
  intros Hk Hin Hg. destruct (Hg ltac:(rewrite Hk; revert Hin; generalize k; apply Forall_forall;
    apply (bool_decide_unpack _); vm_compute; exact I)) as [s Hs]. by exists s.
Qed.

Lemma segment_value h t : value_ok h nt_dep_path_seg (VTok t) -> exists s, tok_text t = Some s.
Proof.
  intros [[_ Hv]|[Hv Hgd]]; [by apply (bool_decide_pack _) in Hv|].
  by apply (segment_text t (tok_kind t)).
Qed.

(** [acts_well] for an action that leaves the globals alone. *)
Lemma acts_value n g v :
  value_type_of v = nt_type n -> value_ok (arena_nodes g) n v -> globals_ok g ->
  acts_well n g (Some (v, g)).
Proof. intros. exists v, g. split_and!; try done. unfold grows. lia. Qed.

Lemma acts_node n g r :
  nt_type n = TySym ->
  (exists p g', r = Some (VSym p, g') /\ node_in (arena_nodes g') p /\ globals_ok g' /\
     grows (arena_nodes g) (arena_nodes g')) -> acts_well n g r.
Proof. intros Hn (p & g' & -> & ? & ? & ?). exists (VSym p), g'. by rewrite Hn. Qed.

(** An effect without a value. *)
Lemma acts_effect n g r :
  nt_type n = TyNone ->
  (exists g', r = Some g' /\ globals_ok g' /\ grows (arena_nodes g) (arena_nodes g')) ->
  acts_well n g (g ← r; Some (VNone, g)).
Proof. intros Hn (g' & -> & ? & ?). cbn. exists VNone, g'. by rewrite Hn. Qed.

Lemma date_action_well vs n start g t :
  globals_ok g -> arg_tok vs n 2 = Some t ->
  exists g', date_action vs n start g = Some g' /\ globals_ok g' /\ grows (arena_nodes g) (arena_nodes g').
Proof.
  intros Hg Ht. unfold date_action, sym_stack_top. rewrite Ht. pose proof Hg as [_ Hs].
  destruct (g_sym_stack g) as [|task s]; cbn; [exists g; split_and!; [done|done|unfold grows; lia]|].
  apply Forall_cons in Hs as [[nd Hnd] _]. rewrite Hnd. cbn.
  assert (Hsame : exists g', Some g = Some g' /\ globals_ok g' /\ grows (arena_nodes g) (arena_nodes g'))
    by (exists g; split_and!; [done|done|unfold grows; lia]).
  case_bool_decide; [|exact Hsame]. destruct (Dates.parse_tjp_date _); [|exact Hsame].
  match goal with |- context [update_node task ?f g] =>
    destruct (update_node_well task f g Hg ltac:(by exists nd)) as (g' & -> & ? & ? & _) end.
  by exists g'.
Qed.

Lemma dep_ref_action_well vs n g b path s e :
  globals_ok g -> arg vs n 1 = Some (VRef b path s e) ->
  exists g', dep_ref_action vs n g = Some g' /\ globals_ok g' /\ grows (arena_nodes g) (arena_nodes g').
Proof.
  intros Hg Ha. unfold dep_ref_action, sym_stack_top. rewrite Ha. cbn. pose proof Hg as [_ Hs].
  destruct (g_sym_stack g) as [|task st]; cbn; [exists g; split_and!; [done|done|unfold grows; lia]|].
  apply Forall_cons in Hs as [Hnd _].
  match goal with |- context [update_node task ?f g] =>
    destruct (update_node_well task f g Hg Hnd) as (g' & -> & ? & ? & _) end.
  by exists g'.
Qed.

Lemma open_action_well vs g kw id name :
  globals_ok g -> vs !! 2%nat = Some (VTok kw) -> vs !! 1%nat = Some (VTok id) -> vs !! 0%nat = Some (VTok name) ->
  exists p g', open_action vs g = Some (VSym p, g') /\ node_in (arena_nodes g') p /\
    globals_ok g' /\ grows (arena_nodes g) (arena_nodes g').
Proof.
  intros Hg Hkw Hid Hnm. unfold open_action. rewrite Hkw, Hid, Hnm. cbn [mbind option_bind as_tok].
  pose proof (alloc_tj_node_well kw id name g Hg) as (Hg1 & Hgr & Hp). destruct (alloc_tj_node kw id name g) as [p g1].
  cbn in Hg1, Hgr, Hp. eexists p, _. split; [done|]. case_bool_decide; [|done].
  unfold sym_stack_push. case_match; [|done]. split_and!; [done| |done].
  destruct Hg1 as [H1 H2]. split; [done|]. cbn. by constructor.
Qed.

Lemma close_action_well vs g kw p b :
  globals_ok g -> arg_tok vs 5 1 = Some kw -> arg vs 5 4 = Some (VSym p) -> arg vs 5 5 ≫= as_body = Some b ->
  node_in (arena_nodes g) p ->
  exists p' g', close_action vs 5 g = Some (VSym p', g') /\ node_in (arena_nodes g') p' /\
    globals_ok g' /\ grows (arena_nodes g) (arena_nodes g').
Proof.
  intros Hg Hkw Hp Hb Hn. unfold close_action. rewrite Hkw, Hp, Hb. cbn [mbind option_bind as_sym].
  set (g1 := if bool_decide _ then _ else _).
  assert (Hg1 : globals_ok g1 /\ arena_nodes g1 = arena_nodes g).
  { unfold g1. case_bool_decide; [|done]. split; [|done]. destruct Hg as [H1 H2]. split; [done|].
    cbn. destruct (g_sym_stack g); [done|]. by apply Forall_cons in H2 as [_ ?]. }
  destruct Hg1 as [Hg1 Ha].
  destruct (update_node_well p (pn_finish (range_end kw b.2) b.1) g1 Hg1 ltac:(by rewrite Ha))
    as (g2 & Hu & Hg2 & Hgr & _).
  unfold finish_tj_node. rewrite Hu. cbn. exists p, g2. rewrite Ha in Hgr. split_and!; [done| |done|done]. eauto.
Qed.

(** [globals_ok] looks at neither the includes nor the direction. *)
Lemma globals_ok_same g g' :
  globals_ok g -> arena_nodes g' = arena_nodes g -> root_children g' = root_children g ->
  g_sym_stack g' = g_sym_stack g -> globals_ok g'.
Proof. unfold globals_ok. by intros ? -> -> ->. Qed.

Lemma action_well stk i p g :
  lr_stack stk -> Forall (typed (arena_nodes g)) stk -> globals_ok g ->
  production_at i = Some p -> reducible (top_state stk) i = true ->
  acts_well (lhs p) g (run_action (map fr_value stk) (length (rhs p)) (act p) g).
Proof.
  intros Hlr Ht Hg Hp Hr. destruct (reducible_symbols _ _ _ Hlr Hp Hr) as (Hlen & Hrhs & Hpre).
  destruct (popped_frames stk p Hlen Hrhs) as (top & Hstk & Hsym & Hlt).
  destruct (production_split i p Hp) as [[Ha Hn]|[(n & k & -> & Hk & Hn)|Hin]].
  - rewrite Ha. apply acts_value; [done|done|done].
  - cbn [lhs rhs act length] in *. rewrite Hstk, map_app. rewrite Hstk in Ht. apply Forall_app in Ht as [Ht _].
    name_frames Hsym. read_values. cbn. apply acts_value; [done| |done]. by right.
  - unfold acting_productions in Hin. rewrite Hstk, map_app. rewrite Hstk in Ht. apply Forall_app in Ht as [Ht Hrest].
    repeat (apply elem_of_cons in Hin as [->|Hin]); [..|by apply not_elem_of_nil in Hin];
      cbn [lhs rhs act length] in *; try (name_frames Hsym; read_values); cbn [map app Grammar.fr_value] in *.
    all: lazymatch goal with
      | |- acts_well _ _ (run_action _ _ (A_decl _ _ _) _) =>
          apply acts_node; [done|]; eapply decl_action_well; [done|reflexivity..|done]
      | |- acts_well _ _ (run_action _ _ A_project _) =>
          apply acts_node; [done|]; eapply project_action_well; [done|reflexivity..|done]
      | |- acts_well _ _ (run_action _ _ A_close _) =>
          apply acts_node; [done|]; eapply close_action_well; [done|reflexivity..|done]
      | |- acts_well _ _ (run_action _ _ (A_date _) _) =>
          apply acts_effect; [done|]; eapply date_action_well; [done|reflexivity]
      | |- acts_well _ _ (run_action _ _ A_dep_ref _) =>
          apply acts_effect; [done|]; eapply dep_ref_action_well; [done|reflexivity]
      | |- acts_well _ _ (run_action _ _ A_route _) => idtac
      | |- acts_well _ _ (run_action _ _ A_open _) => idtac
      | |- acts_well _ _ (run_action _ _ A_reset _) => idtac
      | |- acts_well _ _ (run_action _ _ (A_prefix _) _) =>
          apply acts_effect; [done|]; eexists; split; [reflexivity|];
          unfold set_pending_prefix; case_match; (split; [|unfold grows; cbn; lia]); by eapply globals_ok_same
      | |- acts_well _ _ (run_action _ _ A_include _) =>
          apply acts_effect; [done|]; eexists; split; [reflexivity|];
          (split; [|unfold grows; cbn; lia]); by eapply globals_ok_same
      | |- acts_well _ _ (run_action _ _ (A_dep_kind _) _) =>
          eexists _, _; split; [reflexivity|];
          split_and!; [done|done|by eapply globals_ok_same|unfold grows; cbn; lia]
      | |- acts_well _ _ (run_action _ _ A_include_open _) =>
          eexists _, _; split; [reflexivity|];
          split_and!; [done|done|by eapply globals_ok_same|unfold grows; cbn; lia]
      | |- _ => idtac
      end.
    all: try (apply acts_value; [done|cbn; by auto|done]).
    all: try (apply acts_value; [done|cbn; left; split; [done|by apply (bool_decide_unpack _)]|done]).
    + destruct sym as [q|]; (apply acts_effect; [done|]).
      * destruct (route_top_level_well q g Hg Hval0) as (g' & -> & ? & Ha). exists g'.
        split_and!; [done|done|unfold grows; rewrite Ha; lia].
      * exists g. split_and!; [done|done|unfold grows; lia].
    + edestruct (segment_text t) as [x Hx]; [done|by left|done|]. cbn. rewrite Hx. by apply acts_value.
    + edestruct (segment_text t0) as [x Hx]; [done|by left|done|]. cbn. rewrite Hx. by apply acts_value.
    + destruct (segment_value _ t Hval) as [x Hx]. cbn. rewrite Hx. apply acts_value; [done|by eexists|done].
    + destruct (segment_value _ t0 Hval0) as [x Hx], Hval as [y Hy]. subst. cbn. rewrite Hx.
      apply acts_value; [done|by eexists|done].
    + apply acts_value; [done| |done]. cbn in *. destruct sym; [|exact Hval].
      apply Forall_app. split; [exact Hval|by apply Forall_singleton].
    + eexists _, _. split; [reflexivity|]. split_and!; [done|done| |unfold grows; cbn; lia].
      split; [apply Hg|constructor].
    + destruct Hpre as [->|Hpre]; [done|]. rewrite drop_0 in Hpre, Hrest.
      destruct (open_context stk Hlr Hpre) as ([? ? ?] & [? ? ?] & [? ? ?] & rest & -> & Hs1 & Hs2 & Hs3).
      cbn in Hs1, Hs2, Hs3. subst. clear Hstk. cbn [map]. read_values.
      apply acts_node; [done|]. by eapply open_action_well.
Qed.


(** ** Steps *)

(** After a reduction the state below has a successor. *)
Definition corner_step (n m : nonterm) : bool :=
  bool_decide (m = n) ||
  existsb (fun p => bool_decide (rhs p !! 0%nat = Some (N m)) && bool_decide (lhs p ∈ corners n)) productions.

Lemma corners_step n m : m ∈ corners n -> corner_step n m = true.
Proof.
  assert (Hb : forallb (fun n => forallb (corner_step n) (corners n)) all_nonterms = true) by (vm_compute; reflexivity).
  intros Hm. pose proof (forall_nonterms _ Hb n) as H. cbn beta in H. rewrite forallb_forall in H.
  by apply H, list_elem_of_In.
Qed.

Lemma goto_is_some st x :
  (exists it, it ∈ st /\ next_symbol it = Some x) \/
  (exists i p, production_at i = Some p /\ rhs p !! 0%nat = Some x /\ lhs p ∈ predicted st) ->
  is_Some (goto st x).
Proof.
  unfold goto. set (adv := map _ (filter _ st)). set (new := map _ (filter _ indexed_productions)).
  intros H. enough (Hne : adv ++ new <> []) by (destruct (adv ++ new); [done|by eexists]).
  enough (exists y, y ∈ adv ++ new) as [y Hy] by (intros E; rewrite E in Hy; by apply not_elem_of_nil in Hy).
  destruct H as [(it & Hit & Hn)|(i & p & Hp & Hr & Hl)].
  - eexists. apply elem_of_app. left. apply list_elem_of_fmap. eexists. split; [done|].
    by apply list_elem_of_filter.
  - eexists. apply elem_of_app. right. apply list_elem_of_fmap. exists (i, p). split; [done|].
    apply list_elem_of_filter. split; [done|]. apply (list_elem_of_lookup_2 _ i).
    unfold indexed_productions, production_at in *. by rewrite list_lookup_imap, Hp.
Qed.

(** Nothing follows the production of bison's start symbol. *)
Definition no_accept (p : production) : bool := negb (bool_decide (N nt_accept ∈ rhs p)).

Lemma goto_accept st : goto st (N nt_accept) = None.
Proof.
  destruct (goto st (N nt_accept)) as [st'|] eqn:E; [|done]. exfalso.
  assert (Hne : exists it, it ∈ st').
  { unfold goto in E. destruct (_ ++ _) as [|it l] in E; [done|]. injection E as <-. exists it. by left. }
  destruct Hne as [[i d] Hin]. destruct (goto_items _ _ _ _ _ E Hin) as (d' & _ & Hn & _).
  unfold next_symbol in Hn. cbn [fst snd] in Hn. destruct (production_at i) as [p|] eqn:Hp; [|done]. cbn in Hn.
  pose proof (forall_productions no_accept ltac:(vm_compute; reflexivity) i p Hp) as Hb. unfold no_accept in Hb.
  rewrite bool_decide_true in Hb; [done|]. by eapply list_elem_of_lookup_2.
Qed.

Lemma predicted_goto st n : n ∈ predicted st -> is_Some (goto st (N n)).
Proof.
  intros Hp. destruct (elem_of_predicted _ _ Hp) as (it & m & Hit & Hn & Hm).
  pose proof (corners_step m n Hm) as [->%bool_decide_eq_true|H]%orb_true_iff.
  - apply goto_is_some. left. by exists it.
  - apply existsb_exists in H as (p & Hin & [Hr%bool_decide_eq_true Hl%bool_decide_eq_true]%andb_true_iff).
    apply list_elem_of_In, list_elem_of_lookup in Hin as [i Hi].
    apply goto_is_some. right. exists i, p. split_and!; [done|done|]. unfold predicted in *.
    apply list_elem_of_In, in_flat_map. exists m. split; [|by apply list_elem_of_In].
    apply list_elem_of_In, list_elem_of_omap. exists (Some (N m)). split; [|done].
    apply list_elem_of_fmap. by exists it.
Qed.

(** The error token is never shifted at the bottom. *)
Lemma pop_to_error_spec stk stk' :
  pop_to_error stk = Some stk' ->
  exists st top below, stk = top ++ below /\ below <> [] /\ goto (top_state below) Err = Some st /\
    stk' = mkFrame st Err VNone :: below.
Proof.
  induction stk as [|f stk IH]; intros H.
  - exfalso. revert H. cbn [pop_to_error top_state].
    assert (E : goto start_state Err = None) by (vm_compute; reflexivity). by rewrite E.
  - cbn [pop_to_error] in H. destruct (goto (top_state (f :: stk)) Err) as [st|] eqn:E.
    + injection H as <-. by exists st, [], (f :: stk).
    + destruct (IH H) as (st & top & below & -> & ? & ? & ->). by exists st, (f :: top), below.
Qed.

Lemma lr_stack_drop n stk : lr_stack stk -> lr_stack (drop n stk).
Proof. intros H. revert n. induction H; intros [|n]; cbn; try constructor; auto. Qed.

Lemma lr_stack_below top below : lr_stack (top ++ below) -> lr_stack below.
Proof. intros H%(lr_stack_drop (length top)). by rewrite drop_app_length in H. Qed.

(** ** The invariant *)

(** Until the first reduction clears it, the symbol stack may hold addresses of
    the parse before. *)
Record config_ok (c : yy_config) : Prop := {
  co_path : lr_stack (yystack c);
  co_typed : Forall (typed (arena_nodes (yyglobals c))) (yystack c);
  co_input : Forall tok_good (yyinput c);
  co_root : Forall (node_in (arena_nodes (yyglobals c))) (root_children (yyglobals c));
  co_syms : yystack c <> [] -> globals_ok (yyglobals c)
}.

Lemma start_shifts_nothing k : goto start_state (T k) = None.
Proof.
  assert (H : forallb (fun k => bool_decide (goto start_state (T k) = None)) all_kinds = true)
    by (vm_compute; reflexivity).
  pose proof (forall_kinds _ H k) as Hk. cbn beta in Hk. by apply bool_decide_eq_true in Hk.
Qed.

Lemma shift_ok c c' : config_ok c -> yy_step Shift c = Next c' -> config_ok c'.
Proof.
  intros [Hl Ht Hi Hr Hs]. cbn. unfold shift. destruct (yyinput c) as [|t ts]; [done|].
  destruct (goto _ _) as [st|] eqn:E; [|done]. intros [= <-]. apply Forall_cons in Hi as [Hgt Hi].
  split; cbn; try done.
  - by constructor.
  - constructor; [|done]. by exists t.
  - intros _. apply Hs. intros Hn. rewrite Hn in E. cbn in E. by rewrite start_shifts_nothing in E.
Qed.

Lemma error_ok c c' : config_ok c -> yy_step Error c = Next c' -> config_ok c'.
Proof.
  intros [Hl Ht Hi Hr Hs]. cbn. unfold error. case_match; [done|].
  destruct (if bool_decide _ then _ else _) as [ts|] eqn:Ei; [|done].
  destruct (pop_to_error _) as [stk|] eqn:E; [|done]. intros [= <-].
  apply pop_to_error_spec in E as (st & top & below & Hb & Hne & Hg & ->).
  rewrite Hb in Hl, Ht, Hs. apply lr_stack_below in Hl. apply Forall_app in Ht as [_ Ht].
  split; cbn; try done.
  - by constructor.
  - by constructor.
  - destruct (bool_decide _); [|by injection Ei as <-].
    destruct (yyinput c); [done|]. case_match; [done|]. injection Ei as <-. by apply Forall_cons in Hi as [_ ?].
  - intros _. apply Hs. destruct top; [|done]. by destruct below.
Qed.

(** A reduction from such a configuration. *)
Lemma reduce_ok c i p :
  config_ok c -> production_at i = Some p -> i <> 0%nat -> reducible (top_state (yystack c)) i = true ->
  exists c', yy_step (Reduce i) c = Next c' /\ config_ok c'.
Proof.
  intros [Hl Ht Hi Hr Hs] Hp Hi0 Hred. cbn. unfold reduce. rewrite Hp, Hred. cbn [negb].
  destruct (reducible_symbols _ _ _ Hl Hp Hred) as (Hlen & _ & Hpre).
  destruct Hpre as [?|Hpre]; [done|]. destruct (predicted_goto _ _ Hpre) as [st Hst]. rewrite Hst.
  assert (Ha : exists v g', run_action (map fr_value (yystack c)) (length (rhs p)) (act p) (yyglobals c) = Some (v, g') /\
    value_type_of v = nt_type (lhs p) /\ value_ok (arena_nodes g') (lhs p) v /\ globals_ok g' /\
    grows (arena_nodes (yyglobals c)) (arena_nodes g')).
  { destruct (yystack c) as [|f stk] eqn:E.
    - rewrite (start_reduces i p Hp Hred). eexists _, _. split; [reflexivity|]. cbn. unfold grows.
      split_and!; [done|done| |cbn; lia]. split; [done|constructor].
    - rewrite <- E in *. apply (action_well _ i); try done. apply Hs. by rewrite E. }
  destruct Ha as (v & g' & -> & Hv & Hvo & Hg & Hgr). eexists. split; [reflexivity|].
  split; cbn; try done.
  - constructor; [done|]. by apply lr_stack_drop.
  - constructor; [done|]. apply Forall_drop. eapply Forall_impl; [exact Ht|]. intros f. by apply typed_grows.
  - apply Hg.
Qed.

Lemma start_ok toks k syms : Forall tok_good toks -> config_ok (yyparse_start toks (initial_globals k syms)).
Proof. intros Ht. by split; cbn; try constructor. Qed.

Lemma reach_ok ok toks k syms c :
  Forall tok_good toks -> reach ok (yyparse_start toks (initial_globals k syms)) c -> config_ok c.
Proof.
  intros Ht Hr. induction Hr as [|c m c' _ IH _ Hstep]; [by apply start_ok|].
  destruct m as [|i|].
  - by eapply shift_ok.
  - pose proof Hstep as Hs'. cbn in Hs'. unfold reduce in Hs'. destruct (production_at i) as [p|] eqn:Hp; [|done].
    destruct (reducible _ i) eqn:Hred; [|done]. cbn [negb] in Hs'.
    destruct (decide (i = 0%nat)) as [->|Hi0].
    + injection Hp as <-. cbn [lhs] in Hs'. by rewrite goto_accept in Hs'.
    + destruct (reduce_ok c i p IH Hp Hi0 Hred) as (c1 & E & ?). rewrite Hstep in E. by injection E as <-.
  - by eapply error_ok.
Qed.

Lemma step_not_crash c m : config_ok c -> yy_step m c <> Crash.
Proof.
  intros Hc. destruct m as [|i|]; cbn.
  - unfold shift. by repeat case_match.
  - intros H. pose proof H as Hs. unfold reduce in Hs. destruct (production_at i) as [p|] eqn:Hp; [|done].
    destruct (reducible _ i) eqn:Hred; [|done]. cbn [negb] in Hs.
    destruct (decide (i = 0%nat)) as [->|Hi0].
    + injection Hp as <-. cbn [lhs] in Hs. by rewrite goto_accept in Hs.
    + destruct (reduce_ok c i p Hc Hp Hi0 Hred) as (c1 & E & _). cbn in E. by rewrite H in E.
  - unfold error. by repeat case_match.
Qed.

(** ** Texts *)

(** What the parser gets for a text is good for the actions. *)
Lemma token_at_good src t : token_at src t -> tok_good t.
Proof.
  intros (_ & _ & [Hk|(body & _ & Ht)]) Hg; [by rewrite Hk in Hg|].
  rewrite Hg in Ht. destruct Ht as (l & -> & _). by eexists.
Qed.

(** The tokens of the parser's input: scanned, terminators, or closing ones. *)
Definition from_input (src : list ascii) (t : Token) : Prop :=
  tok_kind t = TK_EOL \/ token_at src t \/ t = synthetic_rbrace (text_pos src) \/ t = eof_token (text_pos src).

Lemma from_input_good src t : from_input src t -> tok_good t.
Proof.
  intros [H|[H|[->| ->]]]; [|by eapply token_at_good|intros _; by eexists|done].
  intros Hk. by rewrite H in Hk.
Qed.

Lemma parser_input st est src :
  yy_start st = INITIAL -> fits src -> fresh est ->
  exists r toks, scan st src = Some r /\
    yylex_tokens (yylex_fuel r.1) (reset_eol_state est) (raw_of r) = Some toks /\ Forall (from_input src) toks.
Proof.
  intros Hm Hf He. destruct (parser_input_correct st est src Hm Hf He) as (ts & st' & out & Hs & Ht & Hy & Hfil & _).
  exists (ts, st'), out. split_and!; [done|done|]. apply Forall_forall. intros t Hin.
  destruct (decide (tok_kind t = TK_EOL)) as [Hk|Hk]; [by left|right].
  assert (Hin' : t ∈ filter (fun t => tok_kind t <> TK_EOL) out) by by apply list_elem_of_filter.
  rewrite Hfil, !elem_of_app in Hin'. destruct Hin' as [Hi|[Hi|Hi]].
  - left. by eapply Forall_forall in Ht.
  - right; left. by apply elem_of_replicate in Hi as [-> _].
  - right; right. by apply list_elem_of_singleton in Hi.
Qed.

(** C10: For every text, whatever the parse before left in the symbol stack and the
    dependency direction, and whichever moves the tables pick: no action reads
    a member of the union that was not written, a null pointer or the address
    of no node, and every reduction the automaton offers goes through. *)
Theorem parser_never_crashes st est src kind syms :
  yy_start st = INITIAL -> fits src -> fresh est ->
  exists r toks, scan st src = Some r /\
    yylex_tokens (yylex_fuel r.1) (reset_eol_state est) (raw_of r) = Some toks /\
    forall c, reach any_move (yyparse_start toks (initial_globals kind syms)) c ->
      (forall m, yy_step m c <> Crash) /\
      (forall i, i <> 0%nat -> reducible (top_state (yystack c)) i = true -> exists c', yy_step (Reduce i) c = Next c').
Proof.
  intros Hm Hf He. destruct (parser_input st est src Hm Hf He) as (r & toks & Hs & Hy & Ht).
  exists r, toks. split_and!; [done|done|]. intros c Hr. apply reach_ok in Hr as Hc.
  2: { eapply Forall_impl; [exact Ht|]. apply from_input_good. }
  split; [intros m; by apply step_not_crash|]. intros i Hi Hred.
  destruct (production_at i) as [p|] eqn:Hp; [|unfold reducible in Hred; by rewrite Hp in Hred].
  destruct (reduce_ok c i p Hc Hp Hi Hred) as (c' & ? & _). by exists c'.
Qed.

Definition broken_text : list ascii := chars "task a ~A~ { depends !b.c, d\ start 2024-0\ task }} limits {\resource ".

Lemma parser_never_crashes_witness :
  yy_start idle = INITIAL /\ fits broken_text /\ fresh initial_eol_state /\
  exists r toks, scan idle broken_text = Some r /\
    yylex_tokens (yylex_fuel r.1) (reset_eol_state initial_eol_state) (raw_of r) = Some toks /\
    forall c, reach any_move (yyparse_start toks (initial_globals DEP_KIND_DEPENDS [7%nat])) c ->
      (forall m, yy_step m c <> Crash) /\
      (forall i, i <> 0%nat -> reducible (top_state (yystack c)) i = true -> exists c', yy_step (Reduce i) c = Next c').
Proof.
  assert (Hf : fits broken_text) by (vm_compute; reflexivity).
  assert (He : fresh initial_eol_state) by reflexivity.
  split_and!; [reflexivity|exact Hf|exact He|].
  exact (parser_never_crashes idle initial_eol_state broken_text DEP_KIND_DEPENDS [7%nat] eq_refl Hf He).
Defined.
