(* ===== verification/ParseBound.v ===== *)
(** * The parser comes to an end, for every choice of moves.

    A potential that every move lowers: weights of the symbols on the stack,
    what the state at the top may still reduce from nothing, and the tokens
    left.  So [yyparse] makes a number of moves linear in the number of tokens,
    error recovery included, whichever moves the tables pick. *)

From S2P Require Import Prelude Tokens Syntax Lexer Scanner Grammar ParseSafety.

Local Open Scope nat_scope.

(** ** Weights *)

Definition nullable (m : nonterm) : bool := existsb (fun p => bool_decide (lhs p = m /\ rhs p = [])) productions.

Definition nullables : list nonterm := Eval vm_compute in filter (fun m => nullable m = true) all_nonterms.

Definition TOKEN_WEIGHT : nat := 6.

Definition nonterm_weight (n : nonterm) : nat :=
  match n with
  | nt_booking_interval_list => 0
  | nt_file | nt_string_val | nt_dep_ref_list => 1
  | nt_dotted_id_list | nt_task_ref | nt_dep_ref | nt_column_list => 2
  | nt_item | nt_stub_kw | nt_sym_kw | nt_report_kw | nt_extend_target | nt_dur_val | nt_interval3
  | nt_dotted_id | nt_column_id | nt_column_entry => 3
  | nt_plain_stmt | nt_dep_path | nt_shift_attr_list | nt_gen_expr => 4
  | nt_date_kw | nt_durval_kw | nt_numval_kw | nt_int_kw | nt_durlimit_kw | nt_string_kw | nt_ident_kw
  | nt_idlist_kw | nt_noarg_kw | nt_genexpr_kw | nt_ident_string_body_kw | nt_format_kw | nt_report_decl
  | nt_supplement_target | nt_num_val | nt_dur_unit | nt_prefix_path_id | nt_id_list | nt_dep_path_seg
  | nt_alloc_ref_list | nt_shift_attr_ref | nt_formats_list | nt_gen_expr_tok | nt_macro_body_tok
  | nt_arg_token => 5
  | _ => if bool_decide (n ∈ nullables) then 1 else TOKEN_WEIGHT
  end.

Definition weight (x : symbol) : nat := match x with N n => nonterm_weight n | _ => TOKEN_WEIGHT end.

Definition weights (xs : list symbol) : nat := sum_list_with weight xs.

(** ** Reductions from nothing *)

Definition maximum (ns : list nat) : nat := foldr Nat.max 0 ns.

Lemma maximum_le n ns : n ∈ ns -> n <= maximum ns.
Proof.
  induction ns as [|m ns IH]; [by intros ?%not_elem_of_nil|]. intros [->|Hin]%elem_of_cons; cbn; [lia|].
  specialize (IH Hin). unfold maximum in IH. lia.
Qed.

Lemma maximum_attained ns : ns <> [] -> maximum ns ∈ ns.
Proof.
  induction ns as [|m ns IH]; [done|]. intros _. cbn. destruct ns as [|k ns]; [rewrite Nat.max_0_r; by left|].
  specialize (IH ltac:(done)). unfold maximum in IH. cbn [foldr] in *.
  destruct (Nat.max_spec m (Nat.max k (foldr Nat.max 0 ns))) as [[_ ->]|[_ ->]]; [by right|by left].
Qed.

(** The items [m] leads to from an item that expects [n]. *)
Definition advanced (it : item) (n m : nonterm) : list item :=
  (if bool_decide (n = m) then [(it.1, S it.2)] else []) ++
  map (fun ip : nat * production => (ip.1, 1))
    (filter (fun ip : nat * production => rhs ip.2 !! 0 = Some (N m) /\ lhs ip.2 ∈ corners n) indexed_productions).

(** What may be reduced from nothing, one after the other, at an item. *)
Fixpoint item_budget (fuel : nat) (it : item) : nat :=
  match fuel, next_symbol it with
  | S fuel', Some (N n) =>
      maximum (map (fun m => S (nonterm_weight m + maximum (map (item_budget fuel') (advanced it n m))))
        (filter (fun m => m ∈ nullables) (corners n)))
  | _, _ => 0
  end.

(** Never more than two in a row. *)
Definition BUDGET_FUEL : nat := 3.
Definition budget_at (it : item) : nat := item_budget BUDGET_FUEL it.
Definition budget (st : lr_state) : nat := maximum (map budget_at st).
Definition BUDGET_MAX : nat := 4.

Definition all_items : list item :=
  flat_map (fun ip : nat * production => map (pair ip.1) (seq 0 (S (length (rhs ip.2))))) indexed_productions.

Lemma next_in_items i d x : next_symbol (i, d) = Some x -> (i, d) ∈ all_items /\ (i, S d) ∈ all_items.
Proof.
  unfold next_symbol. cbn [fst snd]. destruct (production_at i) as [p|] eqn:Hp; [|done]. cbn. intros Hn%lookup_lt_Some.
  unfold all_items. rewrite <- !list_elem_of_In, !in_flat_map || idtac.
  assert (H : forall d', d' <= length (rhs p) -> (i, d') ∈ all_items).
  { intros d' Hd. apply list_elem_of_In, in_flat_map. exists (i, p). split; [by apply list_elem_of_In, indexed_elem|].
    cbn [fst snd]. apply in_map. apply in_seq. lia. }
  split; apply H; lia.
Qed.

(** ** What the grammar has to satisfy *)

(** The most a state can have left after a non-terminal. *)
Definition after_budget (n : nonterm) : nat :=
  maximum (map (fun it => budget_at (it.1, S it.2)) (filter (fun it => next_symbol it = Some (N n)) all_items)).

(** A reduction of symbols lowers the weight, whatever may follow. *)
Definition lowers (n : nonterm) : bool :=
  let a := after_budget n in
  forallb (fun p => bool_decide (rhs p = []) || (S (nonterm_weight n + a) <=? weights (rhs p)))
    (filter (fun p => lhs p = n) productions).

Lemma all_lower n : n <> nt_accept -> lowers n = true.
Proof.
  assert (H : forallb (fun n => bool_decide (n = nt_accept) || lowers n) all_nonterms = true) by (vm_compute; reflexivity).
  intros Hn. pose proof (forall_nonterms _ H n) as Hb. cbn beta in Hb. by rewrite bool_decide_false in Hb.
Qed.

Lemma production_lowers i p :
  production_at i = Some p -> lhs p <> nt_accept -> rhs p <> [] ->
  S (nonterm_weight (lhs p) + after_budget (lhs p)) <= weights (rhs p).
Proof.
  intros Hp Hn Hr. pose proof (all_lower _ Hn) as H. unfold lowers in H. rewrite forallb_forall in H.
  specialize (H p). rewrite bool_decide_false in H by done. apply Nat.leb_le, H.
  apply list_elem_of_In, list_elem_of_filter. split; [done|]. by apply (production_at_in i).
Qed.

(** The fuel of [item_budget] is enough, and the budgets are small. *)
Lemma budget_settled it : it ∈ all_items -> item_budget 3 it = item_budget 2 it /\ budget_at it <= BUDGET_MAX.
Proof.
  assert (H : forallb (fun it => (item_budget 3 it =? item_budget 2 it) && (budget_at it <=? BUDGET_MAX)) all_items = true)
    by (vm_compute; reflexivity).
  intros Hin. rewrite forallb_forall in H. apply list_elem_of_In in Hin. apply H in Hin.
  by apply andb_true_iff in Hin as [?%Nat.eqb_eq ?%Nat.leb_le].
Qed.

(** Left corners are closed under productions. *)
Definition corner_closed (n : nonterm) (p : production) : bool :=
  match rhs p with
  | N m :: _ => negb (bool_decide (lhs p ∈ corners n)) || bool_decide (m ∈ corners n)
  | _ => true
  end.

Lemma corners_closed n i p m :
  production_at i = Some p -> lhs p ∈ corners n -> rhs p !! 0 = Some (N m) -> m ∈ corners n.
Proof.
  assert (H : forallb (fun n => forallb (corner_closed n) productions) all_nonterms = true) by (vm_compute; reflexivity).
  intros Hp Hl Hr. pose proof (forall_nonterms _ H n) as Hb. clear H. cbn beta in Hb. rewrite forallb_forall in Hb.
  specialize (Hb p (proj1 (list_elem_of_In _ _) (production_at_in i p Hp))). unfold corner_closed in Hb.
  destruct (rhs p) as [|x xs]; [discriminate Hr|]. injection Hr as ->. rewrite bool_decide_true in Hb by exact Hl.
  cbn [negb orb] in Hb. by apply bool_decide_eq_true in Hb.
Qed.

Lemma corners_refl n : n ∈ corners n.
Proof.
  assert (H : forallb (fun n => bool_decide (n ∈ corners n)) all_nonterms = true) by (vm_compute; reflexivity).
  pose proof (forall_nonterms _ H n) as Hb. by apply bool_decide_eq_true in Hb.
Qed.

Lemma nullables_spec i p : production_at i = Some p -> rhs p = [] -> lhs p ∈ nullables.
Proof.
  intros Hp Hr. each_production (fun p => rhs p = [] -> lhs p ∈ nullables) Hp as H. by apply H.
Qed.

(** ** Budgets of states *)

Lemma budget_le st k : Forall (fun it => budget_at it <= k) st -> budget st <= k.
Proof. unfold budget. induction 1 as [|it st Hit _ IH]; [apply Nat.le_0_l|]. by apply Nat.max_lub. Qed.

Lemma budget_small st x st' : goto st x = Some st' -> budget st' <= BUDGET_MAX.
Proof.
  intros Hg. apply budget_le, Forall_forall. intros [i d] Hin. destruct (goto_items _ _ _ _ _ Hg Hin) as (d' & -> & Hn & _).
  by apply budget_settled, (next_in_items i d' x).
Qed.

Lemma budget_after st n st' : goto st (N n) = Some st' -> budget st' <= after_budget n.
Proof.
  intros Hg. apply budget_le, Forall_forall. intros [i d] Hin. destruct (goto_items _ _ _ _ _ Hg Hin) as (d' & -> & Hn & _).
  apply maximum_le, list_elem_of_fmap. exists (i, d'). split; [done|]. apply list_elem_of_filter. split; [done|].
  by eapply next_in_items.
Qed.

(** A reduction from nothing uses up some of the budget. *)
Lemma budget_nothing st m st' :
  m ∈ nullables -> goto st (N m) = Some st' -> S (nonterm_weight m + budget st') <= budget st.
Proof.
  intros Hm Hg. unfold budget at 1.
  assert (Hne : map budget_at st' <> []).
  { unfold goto in Hg. destruct (_ ++ _) as [|it l]; [done|]. by injection Hg as <-. }
  pose proof (maximum_attained _ Hne) as (it' & -> & Hin)%list_elem_of_fmap. destruct it' as [i d].
  destruct (goto_items _ _ _ _ _ Hg Hin) as (d' & -> & Hn & Hor).
  assert (Hsrc : exists it0 n, it0 ∈ st /\ next_symbol it0 = Some (N n) /\ m ∈ corners n /\ (i, S d') ∈ advanced it0 n m).
  { destruct Hor as [Hst|(-> & p & Hp & Hpr)].
    - exists (i, d'), m. split_and!; [done|done|apply corners_refl|]. unfold advanced. rewrite bool_decide_true by done. by left.
    - apply elem_of_predicted in Hpr as (it0 & n & Hit & Hn0 & Hc). exists it0, n.
      unfold next_symbol in Hn. cbn [fst snd] in Hn. rewrite Hp in Hn. cbn in Hn.
      split_and!; [done|done|by eapply corners_closed|]. unfold advanced. apply elem_of_app. right.
      apply list_elem_of_fmap. exists (i, p). split; [done|]. apply list_elem_of_filter. split; [done|]. by apply indexed_elem. }
  destruct Hsrc as ([j e] & n & Hit0 & Hn0 & Hc & Hadv).
  transitivity (budget_at (j, e)); [|apply maximum_le, list_elem_of_fmap; by exists (j, e)].
  unfold budget_at at 2, BUDGET_FUEL. cbn [item_budget]. rewrite Hn0.
  transitivity (S (nonterm_weight m + maximum (map (item_budget 2) (advanced (j, e) n m)))).
  - apply le_n_S, Nat.add_le_mono_l, maximum_le, list_elem_of_fmap. exists (i, S d'). split; [|done].
    unfold budget_at, BUDGET_FUEL. by apply budget_settled, (next_in_items i d' (N m)).
  - apply maximum_le, list_elem_of_fmap. exists m. split; [done|]. by apply list_elem_of_filter.
Qed.

(** ** The potential *)

Definition ERROR_COST : nat := 11.
Definition TOKEN_COST : nat := 22.

Definition potential (c : yy_config) : nat :=
  weights (map fr_symbol (yystack c)) + budget (top_state (yystack c)) +
  ERROR_COST * (3 - yyerrstatus c) + TOKEN_COST * length (yyinput c).

Record stack_ok (c : yy_config) : Prop := {
  so_path : lr_stack (yystack c);
  so_status : yyerrstatus c <= 3
}.

Lemma weights_app xs ys : weights (xs ++ ys) = weights xs + weights ys.
Proof. apply sum_list_with_app. Qed.

Lemma weights_reverse xs : weights (reverse xs) = weights xs.
Proof. apply sum_list_with_reverse. Qed.

Lemma shift_lowers c c' : stack_ok c -> yy_step Shift c = Next c' -> stack_ok c' /\ potential c' < potential c.
Proof.
  intros [Hl Hs]. cbn. unfold shift. destruct (yyinput c) as [|t ts] eqn:Ei; [done|].
  destruct (goto _ _) as [st|] eqn:E; [|done]. intros [= <-]. split; [split; cbn; [by constructor|lia]|].
  unfold potential. cbn [yystack yyinput yyerrstatus map fr_symbol top_state fr_state weights sum_list_with weight].
  rewrite Ei. cbn [length]. pose proof (budget_small _ _ _ E). unfold BUDGET_MAX, ERROR_COST, TOKEN_COST, TOKEN_WEIGHT in *.
  fold (weights (map fr_symbol (yystack c))). lia.
Qed.

Lemma reduce_lowers i c c' : stack_ok c -> yy_step (Reduce i) c = Next c' -> stack_ok c' /\ potential c' < potential c.
Proof.
  intros [Hl Hs] H. cbn in H. unfold reduce in H. destruct (production_at i) as [p|] eqn:Hp; [|done].
  destruct (reducible _ i) eqn:Hr; [|done]. cbn [negb] in H. destruct (goto _ _) as [st|] eqn:Hg; [|done].
  destruct (run_action _ _ _ _) as [[v g']|]; [|done]. injection H as <-.
  split; [split; cbn; [constructor; [done|by apply lr_stack_drop]|done]|].
  destruct (reducible_symbols _ _ _ Hl Hp Hr) as (Hlen & Hrhs & _).
  assert (Hacc : lhs p <> nt_accept) by (intros Ha; rewrite Ha, goto_accept in Hg; done).
  unfold potential. cbn [yystack yyinput yyerrstatus map fr_symbol top_state fr_state weights sum_list_with weight].
  rewrite <- (take_drop (length (rhs p)) (yystack c)) at 2. rewrite map_app. fold (weights (map fr_symbol (drop (length (rhs p)) (yystack c)))).
  rewrite weights_app, <- (weights_reverse (map fr_symbol (take _ _))), <- Hrhs.
  destruct (decide (rhs p = [])) as [He|Hne].
  - rewrite He in *. cbn [length drop weights sum_list_with] in *. rewrite drop_0 in *.
    pose proof (budget_nothing _ _ _ (nullables_spec i p Hp He) Hg). lia.
  - pose proof (budget_after _ _ _ Hg). pose proof (production_lowers i p Hp Hacc Hne). lia.
Qed.

Lemma error_lowers c c' : stack_ok c -> yy_step Error c = Next c' -> stack_ok c' /\ potential c' < potential c.
Proof.
  intros [Hl Hs] H. cbn in H. unfold error in H. case_match; [done|].
  destruct (if bool_decide _ then _ else _) as [ts|] eqn:Ei; [|done].
  destruct (pop_to_error _) as [stk|] eqn:E; [|done]. injection H as <-.
  apply pop_to_error_spec in E as (st & top & below & Hb & Hne & Hg & ->). rewrite Hb in Hl.
  split; [split; cbn; [constructor; [done|by eapply lr_stack_below]|lia]|].
  unfold potential. cbn [yystack yyinput yyerrstatus map fr_symbol top_state fr_state weights sum_list_with weight].
  rewrite Hb, map_app, weights_app. fold (weights (map fr_symbol below)). pose proof (budget_small _ _ _ Hg).
  unfold BUDGET_MAX, ERROR_COST, TOKEN_COST, TOKEN_WEIGHT in *.
  case_bool_decide as H3.
  - rewrite H3. destruct (yyinput c) as [|t ts']; [done|]. case_match; [done|]. injection Ei as <-. cbn [length]. lia.
  - injection Ei as <-. lia.
Qed.

(** ** Runs *)

(** The moves one after the other. *)
Fixpoint run (ms : list yy_move) (c : yy_config) : option yy_config :=
  match ms with
  | [] => Some c
  | m :: ms' => match yy_step m c with Next c' => run ms' c' | _ => None end
  end.

Lemma run_potential ms c c' : stack_ok c -> run ms c = Some c' -> length ms + potential c' <= potential c.
Proof.
  revert c. induction ms as [|m ms IH]; intros c Hc; cbn [run length].
  - intros [= <-]. lia.
  - destruct (yy_step m c) as [c1| | |] eqn:E; try done. intros Hr.
    assert (Hs : stack_ok c1 /\ potential c1 < potential c).
    { destruct m; [by apply shift_lowers|by eapply reduce_lowers|by apply error_lowers]. }
    destruct Hs as [Hc1 Hlt]. specialize (IH c1 Hc1 Hr). lia.
Qed.

Lemma run_stack_ok ms c c' : stack_ok c -> run ms c = Some c' -> stack_ok c'.
Proof.
  revert c. induction ms as [|m ms IH]; intros c Hc; cbn [run]; [by intros [= <-]|].
  destruct (yy_step m c) as [c1| | |] eqn:E; try done. apply IH.
  destruct m; [by eapply shift_lowers|by eapply reduce_lowers|by eapply error_lowers].
Qed.

Lemma elem_of_reductions st i : i ∈ reductions st -> reducible st i = true.
Proof. unfold reductions. by intros [? _]%list_elem_of_filter. Qed.

(** Only the start production has no move, and it ends the parse. *)
Lemma some_move c : stack_ok c -> accepted c = true \/ exists m, yy_step m c <> Bad.
Proof.
  intros [Hl _]. destruct (reductions (top_state (yystack c))) as [|i l] eqn:E.
  - right. exists Error. cbn. unfold error, detects_error. rewrite E. cbn. by repeat case_match.
  - assert (Hi : reducible (top_state (yystack c)) i = true) by (apply elem_of_reductions; rewrite E; by left).
    destruct (production_at i) as [p|] eqn:Hp; [|by unfold reducible in Hi; rewrite Hp in Hi].
    destruct (reducible_symbols _ _ _ Hl Hp Hi) as (Hlen & Hrhs & [->|Hpre]).
    + left. injection Hp as <-. cbn in Hlen, Hrhs. unfold accepted.
      destruct (yystack c) as [|f stk]; [cbn in Hlen; lia|]. cbn in Hrhs. injection Hrhs as <-. done.
    + right. exists (Reduce i). cbn. unfold reduce. rewrite Hp, Hi. cbn [negb].
      destruct (predicted_goto _ _ Hpre) as [st ->]. by repeat case_match.
Qed.

(** C11: [yyparse] comes to an end: whatever the tokens and the globals left from
    the parse before, and whichever moves the tables pick, error recovery
    included, it makes at most [22 n + 37] moves on [n] tokens, and until the
    file is accepted there always is a move to make or to give up with. *)
Theorem yyparse_ends toks g ms c :
  run ms (yyparse_start toks g) = Some c ->
  length ms <= 22 * length toks + 37 /\ (accepted c = true \/ exists m, yy_step m c <> Bad).
Proof.
  intros Hr. assert (Hc : stack_ok (yyparse_start toks g)) by (split; cbn; [constructor|lia]).
  split; [|by eapply some_move, run_stack_ok].
  pose proof (run_potential ms _ _ Hc Hr) as H.
  assert (Hp : potential (yyparse_start toks g) = 37 + 22 * length toks).
  { unfold potential. cbn [yyparse_start yystack yyinput yyerrstatus map top_state].
    assert (Hb : budget start_state = 4) by (vm_compute; reflexivity). rewrite Hb.
    unfold weights, ERROR_COST, TOKEN_COST. cbn [sum_list_with]. lia. }
  lia.
Qed.

(** ** Example *)

(** The moves of [drive]. *)
Fixpoint trace (fuel : nat) (c : yy_config) : list yy_move :=
  match fuel with
  | O => []
  | S fuel' =>
      if accepted c then []
      else match choose c with
           | Some m => match yy_step m c with Next c' => m :: trace fuel' c' | _ => [] end
           | None => []
           end
  end.

(** A task, and one that is broken off. *)
Definition two_tasks : list Token :=
  let at_ k n text := mkTok k (mkPos 0 n) (mkPos 0 (n + 1)) (Some text) in
  [ at_ KW_TASK 0 "task"; at_ TK_IDENT 2 "a"; at_ TK_STR 4 "A"; eol_token; at_ KW_TASK 6 "task"; eol_token;
    eof_token (mkPos 0 8) ]%string%Z.

Lemma yyparse_ends_witness :
  let c0 := yyparse_start two_tasks (initial_globals DEP_KIND_DEPENDS []) in
  length (trace 100 c0) = 24 /\ length (trace 100 c0) <= 22 * length two_tasks + 37.
Proof.
  intros c0. split; [vm_compute; reflexivity|].
  apply (yyparse_ends two_tasks (initial_globals DEP_KIND_DEPENDS []) (trace 100 c0) (default c0 (run (trace 100 c0) c0))).
  vm_compute. reflexivity.
Defined.
