(* ===== verification/ParseTree.v ===== *)
(** * The tree the parser builds, for every choice of moves.

    The values on the parser's stack cover consecutive pieces of the input, so
    the ranges of the finished tree nest, siblings do not overlap, and the body
    of the project block, hoisted to the top level, lies inside the block: what
    [Owners] and [TokenQuery] rely on. *)

From stdpp Require Import sorting.
From S2P Require Import Prelude Tokens Syntax Owners TokenQuery Lexer Scanner Grammar ParseSafety.

(** ** The automaton at the top level *)

(** Where [x] stands in a right-hand side, it ends it. *)
Definition closes (x : symbol) (p : production) : bool :=
  forallb (fun d => negb (bool_decide (rhs p !! d = Some x)) || bool_decide (S d = length (rhs p)))
    (seq 0 (length (rhs p))).

Definition complete (st : lr_state) : Prop :=
  forall i d, (i, d) ∈ st -> exists p, production_at i = Some p /\ d = length (rhs p).

Lemma closed_complete st x st' :
  goto st x = Some st' -> forallb (closes x) productions = true -> complete st'.
Proof.
  intros Hg Hc i d Hin. destruct (goto_items _ _ _ _ _ Hg Hin) as (d' & -> & Hn & _).
  unfold next_symbol in Hn. cbn [fst snd] in Hn. destruct (production_at i) as [p|] eqn:Hp; [|done]. cbn in Hn.
  exists p. split; [done|]. pose proof (forall_productions _ Hc i p Hp) as Hb. unfold closes in Hb.
  rewrite forallb_forall in Hb. pose proof (lookup_lt_Some _ _ _ Hn) as Hlt.
  specialize (Hb d' ltac:(apply in_seq; lia)). rewrite bool_decide_true in Hb by done.
  cbn in Hb. by apply bool_decide_eq_true in Hb.
Qed.

Lemma complete_next st it : complete st -> it ∈ st -> next_symbol it = None.
Proof.
  destruct it as [i d]. intros Hc Hin. destruct (Hc i d Hin) as (p & Hp & ->). unfold next_symbol. cbn [fst snd].
  rewrite Hp. cbn. by apply lookup_ge_None.
Qed.

Lemma complete_predicts st m : complete st -> m ∉ predicted st.
Proof. intros Hc (it & n & Hit & Hn & _)%elem_of_predicted. by rewrite (complete_next st it Hc Hit) in Hn. Qed.

(** A state has items. *)
Lemma goto_item st x st' : goto st x = Some st' -> exists it, it ∈ st'.
Proof.
  unfold goto. destruct (_ ++ _) as [|it l]; [done|]. intros [= <-]. exists it. by left.
Qed.

Lemma complete_goto st x : complete st -> goto st x = None.
Proof.
  intros Hc. destruct (goto st x) as [st'|] eqn:E; [|done]. exfalso.
  destruct (goto_item _ _ _ E) as [[i d] Hin]. destruct (goto_items _ _ _ _ _ E Hin) as (d' & _ & Hn & Hor).
  destruct Hor as [Hit|(_ & p & _ & Hp)]; [|by eapply complete_predicts].
  by rewrite (complete_next st (i, d') Hc Hit) in Hn.
Qed.

Lemma complete_reducible st i p :
  complete st -> production_at i = Some p -> reducible st i = true -> (i, length (rhs p)) ∈ st.
Proof.
  unfold reducible. intros Hc ->. intros [H%bool_decide_eq_true|H]%orb_true_iff; [done|].
  apply andb_true_iff in H as [_ H%bool_decide_eq_true]. by destruct (complete_predicts st (lhs p) Hc).
Qed.

(** Such a state only reduces. *)
Lemma complete_detects st x st' : goto st x = Some st' -> complete st' -> detects_error st' = false.
Proof.
  intros Hg Hc. unfold detects_error, shifts_error. rewrite (complete_goto st' Err Hc).
  rewrite orb_false_r. apply bool_decide_eq_false. intros Hr.
  destruct (goto_item _ _ _ Hg) as [[i d] Hin]. destruct (Hc i d Hin) as (p & Hp & ->).
  apply (not_elem_of_nil i). rewrite <- Hr. unfold reductions. apply list_elem_of_filter. split.
  - unfold reducible. rewrite Hp. by rewrite bool_decide_true.
  - apply elem_of_remove_dups, elem_of_app. left. apply list_elem_of_fmap. by exists (i, length (rhs p)).
Qed.

(** Only the first item of all has not moved. *)
Lemma kernel_item stk i d : lr_stack stk -> (i, d) ∈ top_state stk -> d <> 0%nat \/ stk = [] /\ i = 0%nat.
Proof.
  intros [|f st Hg _]; cbn [top_state].
  - intros [= -> ->]%list_elem_of_singleton. by right.
  - intros Hin. destruct (goto_items _ _ _ _ _ Hg Hin) as (d' & -> & _). by left.
Qed.

(** Where [N n] stands in the productions. *)
Definition stands_only (n : nonterm) (places : list (nat * nat)) : bool :=
  forallb (fun ip : nat * production =>
    forallb (fun d => negb (bool_decide (rhs ip.2 !! d = Some (N n))) || bool_decide ((ip.1, d) ∈ places))
      (seq 0 (length (rhs ip.2)))) indexed_productions.

Lemma stands_only_spec n places it :
  stands_only n places = true -> next_symbol it = Some (N n) -> it ∈ places.
Proof.
  destruct it as [i d]. unfold next_symbol. cbn [fst snd]. intros Hs Hn.
  destruct (production_at i) as [p|] eqn:Hp; [|done]. cbn in Hn. unfold stands_only in Hs. rewrite forallb_forall in Hs.
  specialize (Hs (i, p) (proj1 (list_elem_of_In _ _) (indexed_elem i p Hp))). rewrite forallb_forall in Hs.
  specialize (Hs d). cbn [fst snd] in Hs. rewrite bool_decide_true in Hs by done. cbn in Hs.
  rewrite bool_decide_eq_true in Hs. apply Hs. apply in_seq. apply lookup_lt_Some in Hn. lia.
Qed.

(** [file] is expected at the bottom only, and [items] first on its marker. *)
Lemma file_context stk : lr_stack stk -> nt_file ∈ predicted (top_state stk) -> stk = [].
Proof.
  intros Hlr Hm. apply elem_of_predicted in Hm as ([i d] & n & Hit & Hn & Hc).
  assert (Hb : forallb (fun n => negb (bool_decide (nt_file ∈ corners n)) || bool_decide (n ∈ [nt_file; nt_accept]))
    all_nonterms = true) by (vm_compute; reflexivity).
  pose proof (forall_nonterms _ Hb n) as Hin. cbn beta in Hin. rewrite bool_decide_true in Hin by done.
  cbn [negb orb] in Hin. apply bool_decide_eq_true in Hin. rewrite !elem_of_cons, elem_of_nil in Hin.
  destruct Hin as [->|[->|[]]].
  - apply (stands_only_spec nt_file [(0, 0)%nat]) in Hn; [|vm_compute; reflexivity].
    apply list_elem_of_singleton in Hn as [= -> ->]. by destruct (kernel_item _ _ _ Hlr Hit) as [?|[? _]].
  - apply (stands_only_spec nt_accept []) in Hn; [|vm_compute; reflexivity]. by apply not_elem_of_nil in Hn.
Qed.

Lemma items_context stk :
  lr_stack stk -> nt_items ∈ predicted (top_state stk) -> map fr_symbol stk = [N nt_reset].
Proof.
  intros Hlr Hm. apply elem_of_predicted in Hm as ([i d] & n & Hit & Hn & Hc).
  apply own_corner_spec in Hc as ->; [|vm_compute; reflexivity].
  apply (stands_only_spec nt_items [(1, 1); (3, 0); (4, 0)]%nat) in Hn; [|vm_compute; reflexivity].
  rewrite !elem_of_cons, elem_of_nil in Hn.
  destruct Hn as [[= -> ->]|[[= -> ->]|[[= -> ->]|[]]]];
    [|by destruct (kernel_item _ _ _ Hlr Hit) as [?|[_ ?]]..].
  destruct (item_symbols stk 1 1 _ Hlr Hit eq_refl) as (Hl & Hs & _ & Hd).
  destruct stk as [|f stk]; [cbn in Hl; lia|]. cbn in Hs. rewrite take_0 in Hs. cbn in Hs. injection Hs as Hs.
  destruct Hd as [[? _]|Hd]; [done|]. cbn [drop lhs] in Hd. rewrite drop_0 in Hd. inversion Hlr; subst.
  apply file_context in Hd; [|done]. subst. cbn. by rewrite <- Hs.
Qed.

Definition all_symbols : list symbol := map T all_kinds ++ map N all_nonterms ++ [Err].

Lemma all_symbols_complete x : x ∈ all_symbols.
Proof.
  unfold all_symbols. rewrite !elem_of_app. destruct x as [k|n|].
  - left. apply list_elem_of_fmap. exists k. split; [done|apply all_kinds_complete].
  - right; left. apply list_elem_of_fmap. exists n. split; [done|apply all_nonterms_complete].
  - right; right. by left.
Qed.

Definition goes_only (st : lr_state) (xs : list symbol) : bool :=
  forallb (fun x => bool_decide (goto st x = None) || bool_decide (x ∈ xs)) all_symbols.

Lemma goes_only_spec st xs x st' : goes_only st xs = true -> goto st x = Some st' -> x ∈ xs.
Proof.
  unfold goes_only. rewrite forallb_forall. intros H Hg.
  specialize (H x (proj1 (list_elem_of_In _ _) (all_symbols_complete x))). rewrite Hg in H.
  by apply bool_decide_eq_true in H.
Qed.

(** The bottom of the stack. *)
Definition bottom (st : list frame) : Prop := map fr_symbol st ∈ [[]; [N nt_reset]].

Lemma stack_bottom stk :
  lr_stack stk -> bottom stk \/ Exists (fun f => fr_symbol f ∈ [N nt_items; N nt_file]) stk.
Proof.
  induction 1 as [|f st Hg Hlr [Hb|He]]; [left; by left| |right; by apply Exists_cons_tl].
  unfold bottom in Hb. rewrite !elem_of_cons, elem_of_nil in Hb. destruct Hb as [Hb|[Hb|[]]].
  - apply map_eq_nil in Hb as ->.
    apply (goes_only_spec _ [N nt_reset; N nt_file]) in Hg; [|vm_compute; reflexivity].
    rewrite !elem_of_cons, elem_of_nil in Hg. destruct Hg as [Hg|[Hg|[]]].
    + left. unfold bottom. cbn [map]. rewrite Hg. by right; left.
    + right. apply Exists_cons_hd. rewrite Hg. by right; left.
  - destruct st as [|r [|]]; try discriminate Hb. injection Hb as Hb. inversion Hlr as [|? ? Hr _]; subst.
    rewrite Hb in Hr. assert (He : goto start_state (N nt_reset) = Some [(1, 1)%nat]) by (vm_compute; reflexivity).
    cbn [top_state] in Hr, Hg. rewrite He in Hr. injection Hr as Hr. rewrite <- Hr in Hg.
    apply (goes_only_spec _ [N nt_items]) in Hg; [|vm_compute; reflexivity].
    right. apply Exists_cons_hd. apply list_elem_of_singleton in Hg as ->. by left.
Qed.

(** ** Positions of tokens *)

(** The others have no position of their own. *)
Definition positioned (t : Token) : bool := negb (bool_decide (tok_kind t ∈ [TK_EOL; TK_EOF; TK_ERROR])).

Lemma positioned_kind t k : tok_kind t = k -> positioned (mkTok k zero_pos zero_pos None) = true -> positioned t = true.
Proof. unfold positioned. cbn. by intros ->. Qed.

(** [marks] holds where the declarations may start: at the scanned keywords. *)
Section Tree.
Context (marks : LspPos -> Prop).

Definition tok_in (lo hi : LspPos) (t : Token) : Prop :=
  pos_le lo (tok_start t) /\ pos_le (tok_start t) (tok_end t) /\ pos_le (tok_end t) hi /\
  (tok_kind t <> TK_RBRACE -> pos_lt (tok_start t) (tok_end t)) /\
  (emitted_as_kw (tok_kind t) = true -> marks (tok_start t)).

(** Tokens in source order, from [lo] on. *)
Fixpoint placed (lo : LspPos) (ts : list Token) : Prop :=
  match ts with
  | [] => True
  | t :: ts' => if positioned t then tok_in lo (tok_end t) t /\ placed (tok_end t) ts' else placed lo ts'
  end.

(** ** Trees in the arena *)

(** The nodes at [ps], finished, lie between [lo] and [hi] in order, and so do
    their children after their keyword. *)
Inductive forest (h : list pnode) : LspPos -> LspPos -> list node_ptr -> Prop :=
  | forest_nil lo hi : pos_le lo hi -> forest h lo hi []
  | forest_cons lo hi p n inner ps :
      h !! p = Some n -> pos_le lo (rstart (pn_range n)) -> rend (pn_range n) <> zero_pos ->
      pos_lt (rstart (pn_range n)) inner -> forest h inner (rend (pn_range n)) (pn_children n) ->
      forest h (rend (pn_range n)) hi ps -> forest h lo hi (p :: ps).

Abbreviation tree h lo hi p := (forest h lo hi [p]).

Lemma forest_le h lo hi ps : forest h lo hi ps -> pos_le lo hi.
Proof. induction 1 as [|lo hi p n inner ps _ ? _ ? _ ? _ ?]; [done|]. pos_lia. Qed.

Lemma forest_widen h lo hi ps lo' hi' : forest h lo hi ps -> pos_le lo' lo -> pos_le hi hi' -> forest h lo' hi' ps.
Proof.
  intros H. revert lo' hi'. induction H as [|lo hi p n inner ps Hn Hlo Hz Hi Hc _ Hps IH]; intros lo' hi' Hl Hh.
  - constructor. pos_lia.
  - econstructor; [done|pos_lia|done|done|done|]. apply IH; [reflexivity|done].
Qed.

Lemma forest_snoc h lo mid hi ps p : forest h lo mid ps -> tree h mid hi p -> forest h lo hi (ps ++ [p]).
Proof.
  induction 1 as [lo mid Hle|lo mid q n inner ps Hn Hlo Hz Hi Hc _ Hps IH]; intros Hp.
  - by eapply forest_widen.
  - econstructor; [done..|]. by apply IH.
Qed.

Lemma forest_app h lo mid hi ps qs : forest h lo mid ps -> forest h mid hi qs -> forest h lo hi (ps ++ qs).
Proof.
  induction 1 as [lo mid Hle|lo mid q n inner ps Hn Hlo Hz Hi Hc _ Hps IH]; intros Hq.
  - by eapply forest_widen.
  - econstructor; [done..|]. by apply IH.
Qed.

Lemma forest_filter (Q : node_ptr -> Prop) `{!forall p, Decision (Q p)} h lo hi ps :
  forest h lo hi ps -> forest h lo hi (filter Q ps).
Proof.
  induction 1 as [|lo hi p n inner ps Hn Hlo Hz Hi Hc _ Hps IH]; [by constructor|].
  rewrite filter_cons. case_decide; [by econstructor|]. eapply forest_widen; [exact IH| |reflexivity].
  apply forest_le in Hc. pos_lia.
Qed.

Lemma forest_elem h lo hi ps p : forest h lo hi ps -> p ∈ ps -> tree h lo hi p.
Proof.
  induction 1 as [|lo hi q n inner ps Hn Hlo Hz Hi Hc _ Hps IH]; [by intros ?%not_elem_of_nil|].
  intros [->|Hin]%elem_of_cons.
  - econstructor; [done..|]. constructor. by apply forest_le in Hps.
  - eapply forest_widen; [by apply IH| |reflexivity]. apply forest_le in Hc. pos_lia.
Qed.

Lemma tree_node h lo hi p :
  tree h lo hi p -> exists n inner, h !! p = Some n /\ pos_le lo (rstart (pn_range n)) /\
    rend (pn_range n) <> zero_pos /\ pos_le (rend (pn_range n)) hi /\ pos_lt (rstart (pn_range n)) inner /\
    forest h inner (rend (pn_range n)) (pn_children n).
Proof.
  intros H. inversion H as [|? ? ? n inner ? Hn Hlo Hz Hi Hc Hnil]; subst. exists n, inner.
  split_and!; try done. by apply forest_le in Hnil.
Qed.

(** Two members of a forest do not overlap. *)
Definition nodes_apart (a b : pnode) : Prop :=
  pos_le (rend (pn_range a)) (rstart (pn_range b)) \/ pos_le (rend (pn_range b)) (rstart (pn_range a)).

(** ** Changes of the arena *)

Definition same_node (n n' : pnode) : Prop :=
  pn_keyword n' = pn_keyword n /\ pn_range n' = pn_range n /\ pn_children n' = pn_children n.

(** The nodes other than the one at [q] stay as they are, up to their dates and
    dependencies. *)
Definition stable (q : option node_ptr) (h h' : list pnode) : Prop :=
  forall p n, h !! p = Some n -> q <> Some p -> exists n', h' !! p = Some n' /\ same_node n n'.

Definition unfinished (h : list pnode) (q : option node_ptr) : Prop :=
  forall p, q = Some p -> exists n, h !! p = Some n /\ rend (pn_range n) = zero_pos.

Lemma stable_refl q h : stable q h h.
Proof. intros p n Hn _. by exists n. Qed.

Lemma stable_app h l : stable None h (h ++ l).
Proof. intros p n Hn _. exists n. split; [by apply lookup_app_l_Some|done]. Qed.

Lemma stable_alter_same f p h : (forall n, same_node n (f n)) -> stable None h (alter f p h).
Proof.
  intros Hf q n Hn _. destruct (decide (p = q)) as [->|Hne].
  - exists (f n). by rewrite list_lookup_alter_eq, Hn.
  - exists n. by rewrite list_lookup_alter_ne.
Qed.

Lemma stable_alter f p h : stable (Some p) h (alter f p h).
Proof. intros q n Hn Hne. exists n. rewrite list_lookup_alter_ne; [done|congruence]. Qed.

Lemma stable_trans q h1 h2 h3 : stable None h1 h2 -> stable q h2 h3 -> stable q h1 h3.
Proof.
  intros H1 H2 p n Hn Hq. destruct (H1 p n Hn) as (n1 & Hn1 & S1); [done|].
  destruct (H2 p n1 Hn1 Hq) as (n2 & Hn2 & S2). exists n2. split; [done|].
  destruct S1 as (? & ? & ?), S2 as (? & ? & ?). split_and!; congruence.
Qed.

Lemma stable_node q h h' p n :
  stable q h h' -> unfinished h q -> h !! p = Some n -> rend (pn_range n) <> zero_pos ->
  exists n', h' !! p = Some n' /\ same_node n n'.
Proof.
  intros Hs Hu Hn Hz. apply Hs; [done|]. intros ->. destruct (Hu p eq_refl) as (n1 & Hn1 & Hz1). congruence.
Qed.

Lemma forest_stable q h h' lo hi ps : stable q h h' -> unfinished h q -> forest h lo hi ps -> forest h' lo hi ps.
Proof.
  intros Hs Hu. induction 1 as [|lo hi p n inner ps Hn Hlo Hz Hi Hc IHc Hps IHps]; [by constructor|].
  destruct (stable_node q h h' p n Hs Hu Hn Hz) as (n' & Hn' & Hk & Hr & Hcs).
  econstructor; [exact Hn'|by rewrite Hr|by rewrite Hr|by rewrite Hr|by rewrite Hr, Hcs|by rewrite Hr].
Qed.

(** The fresh node of a declaration, and its end. *)
Definition node_with (kw : Token) (e : LspPos) (cs : list node_ptr) (n : pnode) : Prop :=
  pn_keyword n = tok_kind kw /\ pn_range n = mkRange (tok_start kw) e /\ pn_children n = cs.

(** ** The declarations at the top level *)

Definition project_node (n : pnode) : Prop := pn_keyword n = KW_PROJECT.

Definition node_inside (a b : pnode) : Prop :=
  project_node b /\ pos_le (rstart (pn_range b)) (rstart (pn_range a)) /\
  pos_le (rend (pn_range a)) (rend (pn_range b)).

Definition compatible (h : list pnode) (p q : node_ptr) : Prop :=
  exists a b, h !! p = Some a /\ h !! q = Some b /\
    (nodes_apart a b \/ node_inside a b \/ node_inside b a) /\ ~ (project_node a /\ project_node b).

Definition root_in (h : list pnode) (rc : list node_ptr) (hi : LspPos) : Prop :=
  Forall (fun p => tree h zero_pos hi p) rc /\ StronglySorted (compatible h) rc.

Lemma root_in_widen h rc hi hi' : root_in h rc hi -> pos_le hi hi' -> root_in h rc hi'.
Proof.
  intros [Ht Hc] Hle. split; [|done]. eapply Forall_impl; [exact Ht|]. intros p Hp.
  eapply forest_widen; [exact Hp|reflexivity|done].
Qed.

Lemma compatible_stable q h h' p1 p2 lo hi :
  stable q h h' -> unfinished h q -> tree h lo hi p1 -> tree h lo hi p2 -> compatible h p1 p2 -> compatible h' p1 p2.
Proof.
  intros Hs Hu H1 H2 (a & b & Ha & Hb & Hr & Hn).
  destruct (tree_node _ _ _ _ H1) as (a0 & _ & Ha0 & _ & Hza & _).
  destruct (tree_node _ _ _ _ H2) as (b0 & _ & Hb0 & _ & Hzb & _).
  rewrite Ha in Ha0. rewrite Hb in Hb0. injection Ha0 as <-. injection Hb0 as <-.
  destruct (stable_node q h h' p1 a Hs Hu Ha Hza) as (a' & Ha1 & Ka & Ra & _).
  destruct (stable_node q h h' p2 b Hs Hu Hb Hzb) as (b' & Hb1 & Kb & Rb & _).
  exists a', b'. unfold nodes_apart, node_inside, project_node in *. rewrite Ka, Ra, Kb, Rb. by split_and!.
Qed.

Lemma sorted_impl {A} (R R' : A -> A -> Prop) (Q : A -> Prop) l :
  (forall x y, Q x -> Q y -> R x y -> R' x y) -> Forall Q l -> StronglySorted R l -> StronglySorted R' l.
Proof.
  intros H HQ. induction 1 as [|x l Hl IH Hx]; [constructor|]. apply Forall_cons in HQ as [Qx HQ].
  constructor; [by apply IH|]. apply Forall_forall. intros y Hy. rewrite Forall_forall in Hx, HQ. by auto.
Qed.

Lemma root_in_stable q h h' rc hi : stable q h h' -> unfinished h q -> root_in h rc hi -> root_in h' rc hi.
Proof.
  intros Hs Hu [Ht Hc]. split.
  - eapply Forall_impl; [exact Ht|]. intros p. exact (forest_stable q h h' _ _ _ Hs Hu).
  - eapply sorted_impl; [|exact Ht|exact Hc]. intros p1 p2 H1 H2.
    exact (compatible_stable q h h' p1 p2 _ _ Hs Hu H1 H2).
Qed.

(** ** The values on the stack *)

(** The body of a declaration between [lo] and [hi], or none. *)
Definition body_in (h : list pnode) (lo hi : LspPos) (syms : list node_ptr) (e : LspPos) : Prop :=
  if bool_decide (e = zero_pos) then syms = [] else forest h lo e syms /\ pos_le e hi.

Definition val_in (h : list pnode) (rc : list node_ptr) (lo hi : LspPos) (f : frame) : Prop :=
  pos_le lo hi /\
  match fr_value f with
  | VTok t => positioned t = true -> tok_in lo hi t
  | VSym p => fr_symbol f <> N nt_open -> tree h lo hi p
  | VItem (Some p) => tree h lo hi p
  | VBody syms e => if bool_decide (fr_symbol f = N nt_body_items) then forest h lo hi syms else body_in h lo hi syms e
  | _ => True
  end /\
  (fr_symbol f ∈ [N nt_items; N nt_file] -> root_in h rc hi).

(** The frames cover consecutive pieces of the input, up to [hi]. *)
Inductive segs (h : list pnode) (rc : list node_ptr) : LspPos -> list frame -> Prop :=
  | segs_nil hi : pos_le zero_pos hi -> segs h rc hi []
  | segs_cons lo hi f st : val_in h rc lo hi f -> segs h rc lo st -> segs h rc hi (f :: st).

Lemma tok_in_widen lo hi t lo' hi' : tok_in lo hi t -> pos_le lo' lo -> pos_le hi hi' -> tok_in lo' hi' t.
Proof. intros (? & ? & ? & ? & ?) ? ?. split_and!; try done; pos_lia. Qed.

Lemma body_in_widen h lo hi syms e lo' hi' :
  body_in h lo hi syms e -> pos_le lo' lo -> pos_le hi hi' -> body_in h lo' hi' syms e.
Proof.
  unfold body_in. case_bool_decide; [done|]. intros [Hf He] ? ?. split; [|pos_lia].
  eapply forest_widen; [exact Hf|done|reflexivity].
Qed.

Lemma val_in_widen h rc lo hi f hi' : val_in h rc lo hi f -> pos_le hi hi' -> val_in h rc lo hi' f.
Proof.
  intros (Hl & Hv & Hr) Hle. split_and!; [pos_lia| |intros Hs; eapply root_in_widen; eauto].
  destruct (fr_value f) as [t|p|syms e|[p|]| | | |]; try done.
  - intros Ht. eapply tok_in_widen; [by apply Hv|reflexivity|done].
  - intros Ht. eapply forest_widen; [by apply Hv|reflexivity|done].
  - case_bool_decide; [eapply forest_widen|eapply body_in_widen]; try done; reflexivity.
  - eapply forest_widen; [exact Hv|reflexivity|done].
Qed.

Lemma segs_widen h rc hi st hi' : segs h rc hi st -> pos_le hi hi' -> segs h rc hi' st.
Proof.
  intros [hi0 Hz|lo hi0 f st0 Hv Hs] Hle; [constructor; pos_lia|]. econstructor; [by eapply val_in_widen|done].
Qed.

Lemma segs_base h rc hi st : segs h rc hi st -> pos_le zero_pos hi.
Proof. induction 1 as [|lo hi f st (? & _) _ IH]; [done|]. pos_lia. Qed.

(** The frames below. *)
Lemma segs_below h rc hi top below :
  segs h rc hi (top ++ below) -> exists lo, pos_le lo hi /\ segs h rc lo below.
Proof.
  revert hi. induction top as [|f top IH]; intros hi H; [by exists hi|].
  inversion H as [|lo ? ? ? (Hle & _) Hs]; subst. destruct (IH lo Hs) as (lo' & ? & ?). exists lo'. split; [pos_lia|done].
Qed.

Lemma val_in_stable q h h' rc lo hi f :
  stable q h h' -> unfinished h q -> val_in h rc lo hi f -> val_in h' rc lo hi f.
Proof.
  intros Hs Hu (Hl & Hv & Hr). split_and!; [done| |by intros ?; eapply root_in_stable; eauto].
  destruct (fr_value f) as [t|p|syms e|[p|]| | | |]; try done.
  - intros Ht. eapply forest_stable; eauto.
  - unfold body_in in *. repeat case_bool_decide; try done; try destruct Hv as [Hv ?]; try split; try done;
      eapply forest_stable; eauto.
  - eapply forest_stable; eauto.
Qed.

Lemma segs_stable q h h' rc hi st : stable q h h' -> unfinished h q -> segs h rc hi st -> segs h' rc hi st.
Proof.
  intros Hs Hu. induction 1 as [|lo hi f st Hv _ IH]; [by constructor|]. econstructor; [by eapply val_in_stable|done].
Qed.

(** ** Open declarations *)

(** The nodes of the open headers on the stack, with the keyword's value. *)
Definition open_node (f : frame) : option node_ptr :=
  if bool_decide (fr_symbol f = N nt_open) then match fr_value f with VSym p => Some p | _ => None end else None.

Fixpoint open_nodes (st : list frame) : list (node_ptr * value) :=
  match st with
  | [] => []
  | f :: st' =>
      match open_node f with
      | Some p => (p, default VNone (fr_value <$> st' !! 2%nat)) :: open_nodes st'
      | None => open_nodes st'
      end
  end.

Lemma open_nodes_skip f st : fr_symbol f <> N nt_open -> open_nodes (f :: st) = open_nodes st.
Proof. intros Hf. cbn [open_nodes]. unfold open_node. by rewrite bool_decide_false. Qed.

Definition pending (h : list pnode) (x : node_ptr * value) : Prop :=
  exists kw n, x.2 = VTok kw /\ h !! x.1 = Some n /\ node_with kw zero_pos [] n.

Definition opens_ok (h : list pnode) (st : list frame) : Prop :=
  NoDup (open_nodes st).*1 /\ Forall (pending h) (open_nodes st).

Lemma open_nodes_app top below : exists l, open_nodes (top ++ below) = l ++ open_nodes below.
Proof.
  induction top as [|f top [l IH]]; [by exists []|]. cbn [app open_nodes].
  destruct (open_node f); [|by exists l]. rewrite IH. by eexists (_ :: l).
Qed.

Lemma opens_below h top below : opens_ok h (top ++ below) -> opens_ok h below.
Proof.
  intros [Hn Hp]. destruct (open_nodes_app top below) as [l Hl]. rewrite Hl in Hn, Hp.
  rewrite fmap_app in Hn. apply NoDup_app in Hn as (_ & _ & Hn). by apply Forall_app in Hp as [_ Hp].
Qed.

Lemma opens_push h f st : fr_symbol f <> N nt_open -> opens_ok h st -> opens_ok h (f :: st).
Proof.
  intros Hne. unfold opens_ok. by rewrite open_nodes_skip.
Qed.

Lemma opens_stable q h h' st :
  stable q h h' -> (forall p, q = Some p -> p ∉ (open_nodes st).*1) -> opens_ok h st -> opens_ok h' st.
Proof.
  intros Hs Hq [Hn Hp]. split; [done|]. apply Forall_forall. intros x Hx. rewrite Forall_forall in Hp.
  destruct (Hp x Hx) as (kw & n & Hv & Hl & Hk & Hr & Hc).
  destruct (Hs x.1 n Hl) as (n' & Hl' & Hk' & Hr' & Hc').
  { intros ->. apply (Hq x.1 eq_refl). apply list_elem_of_fmap. by exists x. }
  exists kw, n'. unfold node_with. by rewrite Hk', Hr', Hc'.
Qed.

(** ** The invariant *)

(** Every node starts at a mark, and the project block has no children. *)
Definition heap_ok (h : list pnode) : Prop :=
  forall p n, h !! p = Some n -> marks (rstart (pn_range n)) /\ (project_node n -> pn_children n = []).

(** The frame's node, unless it is still open. *)
Definition frame_node (f : frame) : option node_ptr :=
  match fr_value f with
  | VSym p => if bool_decide (fr_symbol f = N nt_open) then None else Some p
  | VItem (Some p) => Some p
  | _ => None
  end.

Definition plain (h : list pnode) (f : frame) : Prop :=
  forall p, frame_node f = Some p -> exists n, h !! p = Some n /\ rend (pn_range n) <> zero_pos /\ ~ project_node n.

(** The project block, reduced but not yet among the declarations: its body
    [hoisted] already is. *)
Inductive project_done (h : list pnode) (hoisted : list node_ptr) : list frame -> Prop :=
  | project_done_intro f i r p n inner :
      fr_symbol f ∈ [N nt_symbol_decl; N nt_item] -> frame_node f = Some p -> h !! p = Some n -> project_node n ->
      pos_lt (rstart (pn_range n)) inner -> forest h inner (rend (pn_range n)) hoisted ->
      Forall (fun c => exists nc, h !! c = Some nc /\ ~ project_node nc) hoisted ->
      fr_symbol i = N nt_items -> fr_symbol r = N nt_reset ->
      project_done h hoisted [f; i; r].

Inductive tree_inv (c : yy_config) : Prop :=
  | tree_inv_intro hi old hoisted :
      config_ok c ->
      root_children (yyglobals c) = old ++ hoisted ->
      (bottom (yystack c) -> old = []) ->
      segs (arena_nodes (yyglobals c)) old hi (yystack c) ->
      placed hi (yyinput c) ->
      heap_ok (arena_nodes (yyglobals c)) ->
      opens_ok (arena_nodes (yyglobals c)) (yystack c) ->
      (hoisted = [] /\ Forall (plain (arena_nodes (yyglobals c))) (yystack c) \/
       project_done (arena_nodes (yyglobals c)) hoisted (yystack c)) ->
      tree_inv c.

Lemma plain_stable q h h' f : stable q h h' -> unfinished h q -> plain h f -> plain h' f.
Proof.
  intros Hs Hu Hp p Hf. destruct (Hp p Hf) as (n & Hn & Hz & Hk).
  destruct (stable_node q h h' p n Hs Hu Hn Hz) as (n' & Hn' & K & R & _). exists n'.
  unfold project_node in *. rewrite R, K. done.
Qed.

Lemma unfinished_none h : unfinished h None.
Proof. by intros p. Qed.

Lemma plain_value h f : frame_node f = None -> plain h f.
Proof. intros H p Hp. congruence. Qed.

(** A declaration's keyword and body, with whatever stands between them. *)
Lemma decl_frames h old hi fb mid fk below kw syms e :
  segs h old hi (fb :: mid ++ fk :: below) ->
  fr_symbol fb = N nt_opt_body -> fr_value fb = VBody syms e ->
  fr_value fk = VTok kw -> positioned kw = true -> tok_kind kw <> TK_RBRACE ->
  exists lo, segs h old lo below /\ tok_in lo (tok_end kw) kw /\ forest h (tok_end kw) (range_end kw e) syms /\
    pos_le (range_end kw e) hi /\ range_end kw e <> zero_pos.
Proof.
  intros Hs Hsb Hvb Hvk Hpos Hk. inversion Hs as [|m ? ? ? (Hm & Hb & _) Hr]; subst.
  rewrite Hvb, Hsb, bool_decide_false in Hb by done. unfold body_in in Hb.
  destruct (segs_below _ _ _ _ _ Hr) as (m' & Hm' & Hr'). inversion Hr' as [|lo ? ? ? (Hlo & Ht & _) Hbelow]; subst.
  rewrite Hvk in Ht. destruct (Ht Hpos) as (H1 & H2 & H3 & H4 & H5). specialize (H4 Hk).
  pose proof (segs_base _ _ _ _ Hbelow) as Hz. exists lo. split; [done|]. split.
  { by split_and!. }
  unfold range_end. case_bool_decide as He.
  - subst. split_and!; [by constructor|pos_lia|]. intros Hn. rewrite Hn in *. pos_lia.
  - destruct Hb as [Hf He']. split_and!; [|done|done]. eapply forest_widen; [exact Hf|pos_lia|reflexivity].
Qed.

(** The finished node of a declaration. *)
Lemma finished_tree h lo hi kw e syms p n :
  h !! p = Some n -> node_with kw e syms n -> tok_in lo (tok_end kw) kw -> tok_kind kw <> TK_RBRACE ->
  forest h (tok_end kw) e syms -> pos_le e hi -> e <> zero_pos -> tree h lo hi p.
Proof.
  intros Hn (_ & Hr & Hc) (H1 & _ & _ & H4 & _) Hk Hf Hle He.
  econstructor; rewrite ?Hr, ?Hc; cbn; try done; [by apply H4|]. by constructor.
Qed.

(** *** What the actions do to the arena *)

Lemma heap_ok_same f p h : (forall n, same_node n (f n)) -> heap_ok h -> heap_ok (alter f p h).
Proof.
  intros Hf Hh q n Hn. destruct (decide (p = q)) as [->|Hne].
  - rewrite list_lookup_alter_eq in Hn. destruct (h !! q) as [n0|] eqn:E; [|done]. injection Hn as <-.
    destruct (Hf n0) as (K & R & C). unfold project_node. rewrite K, R, C. by apply (Hh q).
  - rewrite list_lookup_alter_ne in Hn by done. by apply (Hh q).
Qed.

Lemma heap_ok_app h n : heap_ok h -> marks (rstart (pn_range n)) -> (project_node n -> pn_children n = []) ->
  heap_ok (h ++ [n]).
Proof.
  intros Hh Hm Hp q n0 [Hn|[_ Hn]]%lookup_app_Some; [by apply (Hh q)|].
  apply list_lookup_singleton_Some in Hn as [_ <-]. done.
Qed.

(** Nothing but dates and dependencies of existing nodes. *)
Definition quiet (g g' : parse_globals) : Prop :=
  root_children g' = root_children g /\ stable None (arena_nodes g) (arena_nodes g') /\
  (heap_ok (arena_nodes g) -> heap_ok (arena_nodes g')).

Lemma quiet_same g g' : root_children g' = root_children g -> arena_nodes g' = arena_nodes g -> quiet g g'.
Proof. intros Hr Ha. unfold quiet. rewrite Ha. split_and!; [done|apply stable_refl|done]. Qed.

Lemma quiet_update p f g g' :
  (forall n, same_node n (f n)) -> update_node p f g = Some g' -> quiet g g'.
Proof.
  intros Hf. unfold update_node. destruct (arena_nodes g !! p); [|done]. intros [= <-].
  split_and!; [done|by apply stable_alter_same|by apply heap_ok_same].
Qed.

Lemma quiet_date vs n start g g' : date_action vs n start g = Some g' -> quiet g g'.
Proof.
  unfold date_action. destruct (sym_stack_top g) as [task|]; [|intros [= <-]; by apply quiet_same].
  destruct (arena_nodes g !! task) as [nd|]; [|done]. cbn. case_bool_decide; [|intros [= <-]; by apply quiet_same].
  destruct (arg_tok vs n 2) as [t|]; [|done]. cbn.
  destruct (Dates.parse_tjp_date _); [|intros [= <-]; by apply quiet_same].
  apply quiet_update. by intros []; destruct start.
Qed.

Lemma quiet_dep_ref vs n g g' : dep_ref_action vs n g = Some g' -> quiet g g'.
Proof.
  unfold dep_ref_action. destruct (arg vs n 1 ≫= as_ref) as [[[[b path] s] e]|]; [|done]. cbn.
  destruct (sym_stack_top g) as [task|]; [|intros [= <-]; by apply quiet_same]. by apply quiet_update.
Qed.

(** The actions that neither make nor finish a declaration. *)
Definition quiet_action (a : action) : bool :=
  match a with A_route | A_project | A_open | A_close | A_decl _ _ _ => false | _ => true end.

Lemma run_quiet vs n a g v g' : quiet_action a = true -> run_action vs n a g = Some (v, g') -> quiet g g'.
Proof.
  destruct a; intros Hq; try discriminate Hq; cbn [run_action]; intros H.
  all: try (injection H as _ <-; by apply quiet_same).
  all: repeat match type of H with
       | mbind _ ?x = Some _ => let E := fresh "E" in destruct x eqn:E; [cbn [mbind option_bind] in H|discriminate H]
       | (let '(_, _) := ?x in _) = Some _ => destruct x
       end.
  all: try (injection H as _ <-).
  all: try (by apply quiet_same).
  - by eapply quiet_date.
  - unfold set_pending_prefix. case_match; by apply quiet_same.
  - unfold include_action in E. destruct (arg_tok vs n 2); [|done]. cbn in E. injection E as <-. by apply quiet_same.
  - by eapply quiet_dep_ref.
Qed.

Lemma alloc_new kw id name g p g1 :
  alloc_tj_node kw id name g = (p, g1) ->
  exists n0, p = length (arena_nodes g) /\ root_children g1 = root_children g /\ node_with kw zero_pos [] n0 /\
    arena_nodes g1 = arena_nodes g ++ [n0] /\
    forall f g2, update_node p f g1 = Some g2 ->
      arena_nodes g2 = arena_nodes g ++ [f n0] /\ root_children g2 = root_children g.
Proof.
  unfold alloc_tj_node. destruct (match tok_text id with Some _ => _ | None => _ end) as [i sel].
  intros [= <- <-]. eexists. split_and!; [done|done| |done|]; [done|].
  intros f g2. unfold update_node. cbn. destruct (_ !! _); [|done]. intros [= <-]. cbn. split; [|done].
  rewrite <- (Nat.add_0_r (length (arena_nodes g))). by rewrite alter_app_r.
Qed.

Lemma decl_action_new vs n id name body g v g' kw b :
  decl_action vs n id name body g = Some (v, g') -> arg_tok vs n 1 = Some kw -> arg vs n body ≫= as_body = Some b ->
  exists n0, v = VSym (length (arena_nodes g)) /\ arena_nodes g' = arena_nodes g ++ [n0] /\
    node_with kw (range_end kw b.2) b.1 n0 /\ root_children g' = root_children g.
Proof.
  unfold decl_action. intros H Hkw Hb. rewrite Hkw, Hb in H. cbn in H.
  destruct (arg_opt_tok vs n id) as [i|]; [|done]. cbn in H. destruct (arg_opt_tok vs n name) as [nm|]; [|done]. cbn in H.
  destruct (alloc_tj_node kw i nm g) as [p g1] eqn:E.
  destruct (alloc_new _ _ _ _ _ _ E) as (n0 & -> & _ & (Hk & Hr & _) & _ & Hu).
  unfold finish_tj_node in H. destruct (update_node _ _ g1) as [g2|] eqn:Eu; [|done]. cbn in H. injection H as <- <-.
  destruct (Hu _ _ Eu) as [Ha Hrc]. eexists. split_and!; [done|exact Ha| |done].
  unfold node_with, pn_finish. cbn. by rewrite Hr.
Qed.

Lemma close_action_new vs n g v g' kw p b :
  close_action vs n g = Some (v, g') -> arg_tok vs n 1 = Some kw -> arg vs n 4 = Some (VSym p) ->
  arg vs n 5 ≫= as_body = Some b ->
  v = VSym p /\ arena_nodes g' = alter (pn_finish (range_end kw b.2) b.1) p (arena_nodes g) /\
  root_children g' = root_children g.
Proof.
  unfold close_action. intros H Hkw Hp Hb. rewrite Hkw, Hp, Hb in H. cbn in H. unfold finish_tj_node, update_node in H.
  case_bool_decide; cbn in H; (destruct (_ !! p); [|done]); cbn in H; by injection H as <- <-.
Qed.

Lemma open_action_new vs g v g' kw :
  open_action vs g = Some (v, g') -> vs !! 2%nat = Some (VTok kw) ->
  exists n0, v = VSym (length (arena_nodes g)) /\ arena_nodes g' = arena_nodes g ++ [n0] /\
    node_with kw zero_pos [] n0 /\ root_children g' = root_children g.
Proof.
  unfold open_action. intros H Hkw. rewrite Hkw in H. cbn in H.
  destruct (vs !! 1%nat ≫= as_tok) as [id|]; [|done]. cbn in H. destruct (vs !! 0%nat ≫= as_tok) as [nm|]; [|done]. cbn in H.
  destruct (alloc_tj_node kw id nm g) as [p g1] eqn:E. destruct (alloc_new _ _ _ _ _ _ E) as (n0 & -> & Hrc & Hw & Ha & _).
  injection H as <- <-. exists n0. unfold sym_stack_push. by repeat case_match.
Qed.

(** A declaration other than a project block. *)
Definition plain_node (h : list pnode) (p : node_ptr) : bool :=
  match h !! p with Some n => negb (bool_decide (pn_keyword n = KW_PROJECT)) | None => false end.

Lemma plain_node_spec h p : plain_node h p = true <-> exists n, h !! p = Some n /\ ~ project_node n.
Proof.
  unfold plain_node, project_node. destruct (h !! p) as [n|]; split.
  - intros Hb%negb_true_iff%bool_decide_eq_false. by exists n.
  - intros (n' & [= <-] & Hn). by apply negb_true_iff, bool_decide_eq_false.
  - done.
  - by intros (? & ? & _).
Qed.

Lemma route_new p g g' :
  route_top_level p g = Some g' ->
  arena_nodes g' = arena_nodes g /\ exists n, arena_nodes g !! p = Some n /\
    (root_children g' = root_children g ++ [p] /\ (project_node n -> output_has_project g = false) \/
     root_children g' = root_children g /\ project_node n /\ output_has_project g = true).
Proof.
  unfold route_top_level, project_node. destruct (arena_nodes g !! p) as [n|] eqn:En; [|done]. cbn. intros [= <-].
  destruct (bool_decide (pn_keyword n = KW_PROJECT) && output_has_project g) eqn:E; (split; [done|]); exists n.
  - apply andb_true_iff in E as [?%bool_decide_eq_true ?]. split; [done|]. by right.
  - split; [done|]. left. split; [done|]. intros Hk. by rewrite bool_decide_true in E.
Qed.

Lemma hoist_new syms g g' :
  hoist syms g = Some g' ->
  arena_nodes g' = arena_nodes g /\
  root_children g' = root_children g ++ filter (fun c => plain_node (arena_nodes g) c = true) syms.
Proof.
  revert g. induction syms as [|c syms IH]; intros g; cbn [hoist].
  { intros [= <-]. by rewrite app_nil_r. }
  destruct (arena_nodes g !! c) as [nd|] eqn:E; [|done]. cbn [mbind option_bind].
  rewrite filter_cons. case_bool_decide as Hk.
  - rewrite decide_False; [apply IH|]. unfold plain_node. by rewrite E, bool_decide_true.
  - rewrite decide_True; [|unfold plain_node; by rewrite E, bool_decide_false].
    destruct (route_top_level c g) as [g1|] eqn:Er; [|done]. cbn [mbind option_bind]. intros H.
    destruct (route_new _ _ _ Er) as (Ha & n & Hn & [[Hr _]|(_ & Hp & _)]); [|unfold project_node in Hp; by simplify_eq].
    destruct (IH g1 H) as [Ha' Hr']. rewrite Ha', Hr', Ha, Hr. split; [done|]. by rewrite <- app_assoc.
Qed.

Lemma project_action_new vs g v g' kw b :
  project_action vs 6 g = Some (v, g') -> arg_tok vs 6 1 = Some kw -> arg vs 6 6 ≫= as_body = Some b ->
  exists n0, v = VSym (length (arena_nodes g)) /\ arena_nodes g' = arena_nodes g ++ [n0] /\
    node_with kw (range_end kw b.2) [] n0 /\
    root_children g' = root_children g ++ filter (fun c => plain_node (arena_nodes g') c = true) b.1.
Proof.
  unfold project_action. intros H Hkw Hb. rewrite Hkw, Hb in H. cbn [mbind option_bind] in H.
  destruct (arg_tok vs 6 2) as [i|]; [|done]. cbn [mbind option_bind] in H.
  destruct (arg_tok vs 6 3) as [nm|]; [|done]. cbn [mbind option_bind] in H.
  destruct (alloc_tj_node kw i nm g) as [p g1] eqn:E.
  destruct (alloc_new _ _ _ _ _ _ E) as (n0 & -> & _ & (Hk & Hr & Hc) & _ & Hu).
  destruct (update_node _ _ g1) as [g2|] eqn:Eu; [|done]. cbn [mbind option_bind] in H.
  destruct (hoist b.1 g2) as [g3|] eqn:Eh; [|done]. cbn [mbind option_bind] in H. injection H as <- <-.
  destruct (Hu _ _ Eu) as [Ha Hrc]. destruct (hoist_new _ _ _ Eh) as [Ha3 Hr3].
  eexists. split_and!; [done|by rewrite Ha3, Ha| |by rewrite Hr3, Hrc, Ha3].
  unfold node_with, pn_finish. cbn. by rewrite Hr.
Qed.

(** ** Steps *)

Lemma start_tree toks k syms :
  Forall tok_good toks -> placed zero_pos toks -> tree_inv (yyparse_start toks (initial_globals k syms)).
Proof.
  intros Ht Hp. apply (tree_inv_intro _ zero_pos [] []); cbn; try done.
  - by apply start_ok.
  - constructor. reflexivity.
  - split; constructor.
  - by left.
Qed.

(** The end of the project block only reduces. *)
Lemma done_complete h hoisted stk :
  lr_stack stk -> project_done h hoisted stk ->
  complete (top_state stk) /\ detects_error (top_state stk) = false.
Proof.
  intros Hlr Hd. destruct Hd as [f i r p n inner Hf _ _ _ _ _ _ _ _]. inversion Hlr as [|? ? Hg _]; subst. cbn [top_state].
  assert (Hc : complete (fr_state f)).
  { eapply closed_complete; [exact Hg|]. rewrite !elem_of_cons, elem_of_nil in Hf.
    destruct Hf as [-> |[->|[]]]; vm_compute; reflexivity. }
  split; [done|]. by eapply complete_detects.
Qed.

Lemma placed_next hi t ts : pos_le zero_pos hi -> placed hi (t :: ts) ->
  exists hi', pos_le hi hi' /\ placed hi' ts /\ (positioned t = true -> tok_in hi hi' t).
Proof.
  intros Hz. cbn [placed]. destruct (positioned t).
  - intros [Ht Hp]. exists (tok_end t). split_and!; [|done|done]. destruct Ht as (? & ? & _). pos_lia.
  - intros Hp. exists hi. split_and!; [reflexivity|done|done].
Qed.

Lemma shift_tree c c' : tree_inv c -> yy_step Shift c = Next c' -> tree_inv c'.
Proof.
  intros [hi old hoisted Hok Hrc Hbot Hs Hp Hh Ho Hd] Hstep. pose proof (shift_ok c c' Hok Hstep) as Hok'.
  cbn in Hstep. unfold shift in Hstep. destruct (yyinput c) as [|t ts]; [done|].
  destruct (goto _ _) as [st|] eqn:E; [|done]. injection Hstep as <-.
  destruct Hd as [[-> Hpl]|Hd]; cycle 1.
  { destruct (done_complete _ _ _ (co_path _ Hok) Hd) as [Hc _]. by rewrite (complete_goto _ _ Hc) in E. }
  destruct (placed_next hi t ts (segs_base _ _ _ _ Hs) Hp) as (hi' & Hle & Hp' & Ht).
  apply (tree_inv_intro _ hi' old []); cbn; try done.
  - intros Hb. unfold bottom in Hb. cbn in Hb. rewrite !elem_of_cons, elem_of_nil in Hb. by destruct Hb as [?|[?|[]]].
  - econstructor; [|exact Hs]. split_and!; [done|done|]. cbn. intros H. rewrite !elem_of_cons, elem_of_nil in H.
    by destruct H as [?|[?|[]]].
  - left. split; [done|]. constructor; [by apply plain_value|done].
Qed.

Lemma error_tree c c' : tree_inv c -> yy_step Error c = Next c' -> tree_inv c'.
Proof.
  intros [hi old hoisted Hok Hrc Hbot Hs Hp Hh Ho Hd] Hstep. pose proof (error_ok c c' Hok Hstep) as Hok'.
  cbn in Hstep. unfold error in Hstep. destruct (detects_error _) eqn:Edet; [|done]. cbn [negb] in Hstep.
  destruct (if bool_decide _ then _ else _) as [ts|] eqn:Ei; [|done].
  destruct (pop_to_error _) as [stk|] eqn:E; [|done]. injection Hstep as <-.
  destruct Hd as [[-> Hpl]|Hd]; cycle 1.
  { destruct (done_complete _ _ _ (co_path _ Hok) Hd) as [_ Hc]. congruence. }
  assert (Hin : exists hi', pos_le hi hi' /\ placed hi' ts).
  { destruct (bool_decide _); [|injection Ei as <-; by exists hi].
    destruct (yyinput c) as [|t ts']; [done|]. case_match; [done|]. injection Ei as <-.
    destruct (placed_next hi t ts' (segs_base _ _ _ _ Hs) Hp) as (hi' & ? & ? & _). by exists hi'. }
  destruct Hin as (hi' & Hle & Hp').
  apply pop_to_error_spec in E as (st & top & below & Hb & Hne & Hg & ->). rewrite Hb in Hs, Ho, Hpl.
  destruct (segs_below _ _ _ _ _ Hs) as (lo & Hlo & Hs').
  apply (tree_inv_intro _ hi' old []); cbn; try done.
  - intros Hbo. unfold bottom in Hbo. cbn in Hbo. rewrite !elem_of_cons, elem_of_nil in Hbo. by destruct Hbo as [?|[?|[]]].
  - econstructor; [|exact Hs']. split_and!; [cbn; pos_lia|done|]. cbn. intros H. rewrite !elem_of_cons, elem_of_nil in H.
    by destruct H as [?|[?|[]]].
  - apply opens_push; [done|]. by eapply opens_below.
  - left. split; [done|]. apply Forall_app in Hpl as [_ Hpl]. constructor; [by apply plain_value|done].
Qed.

(** The invariant but for the end of the project block. *)
Record plain_at (c : yy_config) (hi : LspPos) (old : list node_ptr) : Prop := {
  pa_config : config_ok c;
  pa_root : root_children (yyglobals c) = old;
  pa_bottom : bottom (yystack c) -> old = [];
  pa_segs : segs (arena_nodes (yyglobals c)) old hi (yystack c);
  pa_placed : placed hi (yyinput c);
  pa_heap : heap_ok (arena_nodes (yyglobals c));
  pa_opens : opens_ok (arena_nodes (yyglobals c)) (yystack c);
  pa_plain : Forall (plain (arena_nodes (yyglobals c))) (yystack c)
}.

Lemma plain_tree c hi old : plain_at c hi old -> tree_inv c.
Proof. intros []. apply (tree_inv_intro _ hi old []); rewrite ?app_nil_r; try done. by left. Qed.

(** What a reduction does, in full. *)
Definition reduces (c : yy_config) (i : nat) (p : production) (st : lr_state) (v : value) (g' : parse_globals) : Prop :=
  production_at i = Some p /\ i <> 0%nat /\ reducible (top_state (yystack c)) i = true /\
  run_action (map fr_value (yystack c)) (length (rhs p)) (act p) (yyglobals c) = Some (v, g').

Definition reduced (c : yy_config) (p : production) (st : lr_state) (v : value) (g' : parse_globals) : yy_config :=
  mkYY (mkFrame st (N (lhs p)) v :: drop (length (rhs p)) (yystack c)) (yyinput c) (yyerrstatus c) g'.

Lemma reduce_inv i c c' :
  yy_step (Reduce i) c = Next c' -> exists p st v g', reduces c i p st v g' /\ c' = reduced c p st v g'.
Proof.
  cbn. unfold reduce. destruct (production_at i) as [p|] eqn:Hp; [|done].
  destruct (reducible _ i) eqn:Hr; [|done]. cbn [negb].
  destruct (goto _ _) as [st|] eqn:Hg; [|done]. destruct (run_action _ _ _ _) as [[v g']|] eqn:Ha; [|done].
  intros [= <-]. exists p, st, v, g'. split; [|done]. split_and!; [done| |done|done].
  intros ->. injection Hp as <-. cbn [lhs] in Hg. by rewrite goto_accept in Hg.
Qed.

(** A reduction whose action leaves the declarations alone: its new value has
    to be in place. *)
Lemma quiet_step c hi old i p st v g' :
  plain_at c hi old -> reduces c i p st v g' -> config_ok (reduced c p st v g') ->
  quiet (yyglobals c) g' -> lhs p <> nt_open ->
  (forall lo, pos_le lo hi -> segs (arena_nodes (yyglobals c)) old lo (drop (length (rhs p)) (yystack c)) ->
     exists lo', segs (arena_nodes (yyglobals c)) old lo' (drop (length (rhs p)) (yystack c)) /\
       val_in (arena_nodes g') old lo' hi (mkFrame st (N (lhs p)) v)) ->
  plain (arena_nodes g') (mkFrame st (N (lhs p)) v) ->
  plain_at (reduced c p st v g') hi old.
Proof.
  intros [Hc Hrc Hbot Hs Hp Hh Ho Hpl] (Hpr & _ & Hr & _) Hok (Hrc' & Hst & Hh') Hn Hv Hpf.
  pose proof (take_drop (length (rhs p)) (yystack c)) as Hstk. unfold reduced in *.
  set (top := take _ _) in *. set (below := drop _ _) in *. rewrite <- Hstk in Hs, Ho, Hpl.
  destruct (segs_below _ _ _ _ _ Hs) as (lo & Hlo & Hb). destruct (Hv lo Hlo Hb) as (lo' & Hb' & Hv').
  split; cbn [yystack yyinput yyglobals]; try done.
  - congruence.
  - intros Hbo. unfold bottom in Hbo. cbn in Hbo. rewrite !elem_of_cons, elem_of_nil in Hbo.
    destruct Hbo as [?|[Hbo|[]]]; [done|]. injection Hbo as Hl Hbo. apply map_eq_nil in Hbo.
    apply Hbot. rewrite <- Hstk. rewrite Hbo, app_nil_r.
    each_production (fun p => lhs p = nt_reset -> rhs p = []) Hpr as He. specialize (He Hl).
    subst top. rewrite He. by left.
  - econstructor; [exact Hv'|]. eapply segs_stable; [exact Hst|apply unfinished_none|exact Hb'].
  - by apply Hh'.
  - apply opens_push; [cbn; congruence|]. eapply opens_stable; [exact Hst|done|]. by eapply opens_below.
  - apply Forall_app in Hpl as [_ Hpl]. constructor; [done|].
    eapply Forall_impl; [exact Hpl|]. intros x. apply plain_stable with None; [done|apply unfinished_none].
Qed.

(** The frames a reduction pops, with the segment below. *)
Lemma reduces_frames c i p st v g' :
  config_ok c -> reduces c i p st v g' ->
  exists top, yystack c = top ++ drop (length (rhs p)) (yystack c) /\ map fr_symbol top = reverse (rhs p) /\
    lhs p ∈ predicted (top_state (drop (length (rhs p)) (yystack c))).
Proof.
  intros Hc (Hp & Hi & Hr & _). destruct (reducible_symbols _ _ _ (co_path _ Hc) Hp Hr) as (Hl & Hs & [?|Hpre]); [done|].
  destruct (popped_frames _ _ Hl Hs) as (top & ? & ? & _). by exists top.
Qed.

(** *** Values without positions *)

Definition mute (v : value) : bool :=
  match v with VRef _ _ _ _ | VInt _ | VText _ | VNone | VItem None => true | _ => false end.

Lemma mute_val h rc lo hi f :
  mute (fr_value f) = true -> pos_le lo hi -> (fr_symbol f ∈ [N nt_items; N nt_file] -> root_in h rc hi) ->
  val_in h rc lo hi f.
Proof. intros Hm Hle Hr. split_and!; [done| |done]. by destruct (fr_value f) as [| | |[|]| | | |]. Qed.

Lemma mute_plain h f : mute (fr_value f) = true -> plain h f.
Proof. intros Hm. apply plain_value. unfold frame_node. by destruct (fr_value f) as [| | |[|]| | | |]. Qed.

(** The symbols whose frames carry the declarations. *)
Definition holds_root (n : nonterm) : bool := bool_decide (N n ∈ [N nt_items; N nt_file]).

Lemma mute_reduction c hi old i p st v g' :
  plain_at c hi old -> reduces c i p st v g' -> config_ok (reduced c p st v g') -> quiet (yyglobals c) g' ->
  mute v = true -> lhs p <> nt_open -> holds_root (lhs p) = false -> plain_at (reduced c p st v g') hi old.
Proof.
  intros Hpa Hr Hok Hq Hm Hn Hh. eapply quiet_step; try done.
  - intros lo Hlo Hb. exists lo. split; [done|]. apply mute_val; [done|done|]. cbn. intros Hin.
    unfold holds_root in Hh. by rewrite bool_decide_true in Hh.
  - by apply mute_plain.
Qed.

Lemma quiet_refl g : quiet g g.
Proof. by apply quiet_same. Qed.

(** The productions of the top level. *)
Definition top_productions : list production :=
  [ P nt_items [] A_none; P nt_items [N nt_items; T TK_EOL] A_none; P nt_file [N nt_reset; N nt_items] A_none ].

Lemma none_reduction c hi old i p st v g' :
  plain_at c hi old -> reduces c i p st v g' -> config_ok (reduced c p st v g') ->
  act p = A_none -> plain_at (reduced c p st v g') hi old.
Proof.
  intros Hpa Hr Hok Ha. pose proof Hr as (Hp & _ & _ & Hrun). rewrite Ha in Hrun. injection Hrun as <- <-.
  each_production (fun p => act p = A_none -> lhs p <> nt_open /\ (holds_root (lhs p) = true -> p ∈ top_productions)) Hp as Hb.
  destruct (Hb Ha) as [Hn Ht]. destruct (holds_root (lhs p)) eqn:Eh; [|by eapply mute_reduction; eauto using quiet_refl].
  apply (quiet_step c hi old i p); [done..|apply quiet_refl|done| |by apply mute_plain].
  intros lo Hlo Hbelow. destruct (reduces_frames _ _ _ _ _ _ (pa_config _ _ _ Hpa) Hr) as (top & Hstk & Hsym & Hpre).
  pose proof (pa_segs _ _ _ Hpa) as Hs. specialize (Ht eq_refl). unfold top_productions in Ht.
  rewrite !elem_of_cons, elem_of_nil in Ht.
  destruct Ht as [->|[->|[->|[]]]]; cbn [lhs rhs act length] in *; name_frames Hsym.
  - exists lo. split; [done|]. apply mute_val; [done|done|]. intros _.
    rewrite drop_0 in Hpre. apply items_context in Hpre; [|by apply Hpa].
    rewrite (pa_bottom _ _ _ Hpa); [split; constructor|]. unfold bottom. rewrite Hpre. by right; left.
  - rewrite Hstk in Hs. inversion Hs as [|m ? ? ? (Hm & _) Hs1]; subst. inversion Hs1 as [|lo' ? ? ? (Hm' & _ & Hroot) Hs2]; subst.
    exists lo'. split; [exact Hs2|]. apply mute_val; [done|pos_lia|]. intros _. eapply root_in_widen; [apply Hroot; by left|done].
  - rewrite Hstk in Hs. inversion Hs as [|m ? ? ? (Hm & _ & Hroot) Hs1]; subst. inversion Hs1 as [|lo' ? ? ? (Hm' & _) Hs2]; subst.
    exists lo'. split; [exact Hs2|]. apply mute_val; [done|pos_lia|]. intros _. apply Hroot. by left.
Qed.

Lemma copy_reduction c hi old i n k st v g' :
  plain_at c hi old -> reduces c i (P n [T k] A_copy) st v g' -> config_ok (reduced c (P n [T k] A_copy) st v g') ->
  nt_type n = TyTok -> plain_at (reduced c (P n [T k] A_copy) st v g') hi old.
Proof.
  intros Hpa Hr Hok Hn. pose proof Hr as (Hp & _ & _ & Hrun).
  destruct (reduces_frames _ _ _ _ _ _ (pa_config _ _ _ Hpa) Hr) as (top & Hstk & Hsym & _).
  pose proof (pa_segs _ _ _ Hpa) as Hs. cbn [lhs rhs act length] in *. name_frames Hsym.
  rewrite Hstk in Hrun, Hs. cbn in Hrun. injection Hrun as <- <-.
  pose proof (co_typed _ (pa_config _ _ _ Hpa)) as Ht. rewrite Hstk in Ht. apply Forall_cons in Ht as [(t & Hv & _) _].
  cbn in Hv. subst. inversion Hs as [|lo' ? ? ? (Hm & Htok & _) Hs1]; subst.
  apply (quiet_step c hi old i (P n [T k] A_copy)); [done|done|done|apply quiet_refl|cbn; by intros ->|..].
  - intros lo Hlo Hbelow. exists lo'. split; [exact Hs1|]. split_and!; [done|done|]. cbn. intros Hin.
    rewrite !elem_of_cons, elem_of_nil in Hin. by destruct Hin as [[= ->]|[[= ->]|[]]].
  - by apply plain_value.
Qed.

(** *** Tokens, items and bodies *)

(** The quiet productions whose value covers declarations or tokens. *)
Definition telling : list production :=
  Eval vm_compute in
  filter (fun p => quiet_action (act p) = true /\ nt_type (lhs p) ∈ [TyTok; TySym; TyBody; TyItem] /\ act p <> A_no_item)
    acting_productions.

(** What the reduction of [p] needs for [quiet_step]. *)
Definition in_place (c : yy_config) (hi : LspPos) (old : list node_ptr) (below : list frame) (h' : list pnode) (f : frame) :=
  (forall lo, pos_le lo hi -> segs (arena_nodes (yyglobals c)) old lo below ->
     exists lo', segs (arena_nodes (yyglobals c)) old lo' below /\ val_in h' old lo' hi f) /\ plain h' f.

Lemma no_root_symbol n : holds_root n = false -> forall Q : Prop, N n ∈ [N nt_items; N nt_file] -> Q.
Proof. intros Hn Q Hin. unfold holds_root in Hn. by rewrite bool_decide_true in Hn. Qed.

Lemma token_in_place c hi old below h' n st t :
  holds_root n = false -> positioned t = false -> in_place c hi old below h' (mkFrame st (N n) (VTok t)).
Proof.
  intros Hn Ht. split; [|by apply plain_value]. intros lo Hlo Hb. exists lo. split; [done|].
  split_and!; [done|cbn; congruence|]. cbn. by apply no_root_symbol.
Qed.

Lemma item_in_place c hi old below f h n st p0 :
  segs h old hi (f :: below) -> arena_nodes (yyglobals c) = h -> plain h f -> fr_value f = VSym p0 ->
  fr_symbol f <> N nt_open -> holds_root n = false ->
  in_place c hi old below h (mkFrame st (N n) (VItem (Some p0))).
Proof.
  intros Hs Hh Hpl Hv Hf Hn. inversion Hs as [|lo' ? ? ? (Hm & Hval & _) Hs1]; subst. rewrite Hv in Hval. split.
  - intros lo Hlo Hb. exists lo'. split; [done|]. split_and!; [done|by apply Hval|]. cbn. by apply no_root_symbol.
  - intros p Hp. cbn in Hp. injection Hp as <-. apply Hpl. unfold frame_node. by rewrite Hv, bool_decide_false.
Qed.

Lemma body_value_in_place c hi old below lo' h st n syms e :
  segs h old lo' below -> arena_nodes (yyglobals c) = h -> holds_root n = false -> pos_le lo' hi ->
  (if bool_decide (n = nt_body_items) then forest h lo' hi syms else body_in h lo' hi syms e) ->
  in_place c hi old below h (mkFrame st (N n) (VBody syms e)).
Proof.
  intros Hs <- Hn Hlo Hb. split; [|by apply plain_value]. intros _ _ _. exists lo'. split; [done|].
  split_and!; [done| |cbn; by apply no_root_symbol]. cbn. repeat case_bool_decide; congruence.
Qed.

Ltac cut_segs H :=
  repeat match type of H with
  | segs _ _ _ (_ :: _) =>
      let m := fresh "m" in let Hm := fresh "Hm" in let Hval := fresh "Hin" in let H' := fresh H in
      inversion H as [|m ? ? ? (Hm & Hval & _) H']; subst; clear H; rename H' into H;
      cbn [Grammar.fr_value Grammar.fr_symbol] in Hval
  end.

Lemma telling_in_place c hi old i p st v g' :
  plain_at c hi old -> reduces c i p st v g' -> p ∈ telling ->
  g' = yyglobals c /\ lhs p <> nt_open /\
  in_place c hi old (drop (length (rhs p)) (yystack c)) (arena_nodes (yyglobals c)) (mkFrame st (N (lhs p)) v).
Proof.
  intros Hpa Hr Hin. destruct (reduces_frames _ _ _ _ _ _ (pa_config _ _ _ Hpa) Hr) as (top & Hstk & Hsym & _).
  pose proof Hr as (_ & _ & _ & Hrun). pose proof (pa_segs _ _ _ Hpa) as Hs. pose proof (pa_plain _ _ _ Hpa) as Hpl.
  pose proof (co_typed _ (pa_config _ _ _ Hpa)) as Ht. rewrite Hstk in Hrun, Hs, Hpl, Ht. rewrite map_app in Hrun.
  unfold telling in Hin.
  repeat (apply elem_of_cons in Hin as [->|Hin]); [..|by apply not_elem_of_nil in Hin];
    cbn [lhs rhs act length] in *; name_frames Hsym; apply Forall_app in Ht as [Ht _];
    read_values; cbn in Hrun; injection Hrun as <- <-; (split; [done|]; split; [done|]).
  all: try (apply Forall_cons in Hpl as [Hf _];
    eapply item_in_place; [exact Hs|done|exact Hf|done|done|vm_compute; reflexivity]).
  all: try (by apply token_in_place).
  all: cbn [app] in Hs; cut_segs Hs.
  - split; [|by apply plain_value]. intros lo Hlo Hb. exists lo. split; [done|]. split_and!; [done|done|by apply no_root_symbol].
  - destruct (Hin1 ltac:(by eapply positioned_kind)) as (H1 & H2 & H3 & H4 & _). specialize (H4 ltac:(congruence)).
    destruct (Hin ltac:(by eapply positioned_kind)) as (K1 & K2 & K3 & _).
    rewrite bool_decide_true in Hin0 by done. apply forest_le in Hin0 as Hle. pose proof (segs_base _ _ _ _ Hs) as Hz.
    eapply body_value_in_place; [exact Hs|done|done|pos_lia|]. rewrite bool_decide_false by done. unfold body_in.
    rewrite bool_decide_false by (intros He; rewrite He in *; pos_lia).
    split; [|done]. eapply forest_widen; [exact Hin0|pos_lia|pos_lia].
  - split; [|by apply plain_value]. intros lo Hlo Hb. exists lo. split; [done|].
    split_and!; [done|by constructor|by apply no_root_symbol].
  - rewrite bool_decide_true in Hin0 by done. apply forest_le in Hin0 as Hle.
    eapply body_value_in_place; [exact Hs|done|done|pos_lia|]. rewrite bool_decide_true by done.
    destruct sym; [by eapply forest_snoc|]. eapply forest_widen; [exact Hin0|reflexivity|done].
  - rewrite bool_decide_true in Hin0 by done. apply forest_le in Hin0 as Hle.
    eapply body_value_in_place; [exact Hs|done|done|pos_lia|]. rewrite bool_decide_true by done.
    eapply forest_widen; [exact Hin0|reflexivity|done].
Qed.

(** *** Declarations *)

Definition kw_symbol (s : symbol) : bool :=
  match s with T k => emitted_as_kw k | N n => bool_decide (n ∈ [nt_report_kw; nt_sym_kw]) | Err => false end.

(** The keyword of a declaration. *)
Record keyword_token (s : symbol) (kw : Token) : Prop := {
  kw_emitted : emitted_as_kw (tok_kind kw) = true;
  kw_positioned : positioned kw = true;
  kw_no_brace : tok_kind kw <> TK_RBRACE;
  kw_project : s <> T KW_PROJECT -> tok_kind kw <> KW_PROJECT
}.

Lemma emitted_kinds k : emitted_as_kw k = true -> (k ∉ [TK_EOL; TK_EOF; TK_ERROR]) /\ k <> TK_RBRACE.
Proof.
  assert (H : forallb (fun k => negb (emitted_as_kw k) || bool_decide ((k ∉ [TK_EOL; TK_EOF; TK_ERROR]) /\ k <> TK_RBRACE))
    all_kinds = true) by (vm_compute; reflexivity).
  intros Hk. pose proof (forall_kinds _ H k) as Hb. cbn beta in Hb. rewrite Hk in Hb. by apply bool_decide_eq_true in Hb.
Qed.

Lemma keyword_frame h f :
  typed h f -> kw_symbol (fr_symbol f) = true -> exists kw, fr_value f = VTok kw /\ keyword_token (fr_symbol f) kw.
Proof.
  unfold typed. intros Ht Hs. destruct (fr_symbol f) as [k|n|] eqn:E; [..|done].
  - destruct Ht as (t & -> & <- & _). exists t. split; [done|]. cbn in Hs. destruct (emitted_kinds _ Hs) as [Hp Hb].
    split; [done| |done|congruence]. unfold positioned. by rewrite bool_decide_false.
  - apply bool_decide_eq_true in Hs. destruct Ht as [Ht Hv].
    assert (Hty : nt_type n = TyTok /\ (n ∉ [nt_opt_id; nt_opt_name; nt_opt_version]) /\
        Forall (fun k => emitted_as_kw k = true /\ k <> KW_PROJECT) (tok_kinds n)).
    { revert n Hs Ht Hv E. clear. intros n Hs _ _ _. revert n Hs. apply Forall_forall. apply (bool_decide_unpack _).
      vm_compute. exact I. }
    destruct Hty as (Hty & Hno & Hk). rewrite Hty in Ht. destruct (fr_value f) as [t| | | | | | |]; try discriminate Ht.
    destruct Hv as [[_ Hv]|[Hv _]]; [done|]. rewrite Forall_forall in Hk. destruct (Hk _ Hv) as [He Hp].
    exists t. split; [done|]. destruct (emitted_kinds _ He) as [Hpos Hb]. split; [done| |done|done].
    unfold positioned. by rewrite bool_decide_false.
Qed.

(** From the keyword to the body. *)
Definition heads_decl (p : production) : bool :=
  match rhs p with s :: l => kw_symbol s && bool_decide (last l = Some (N nt_opt_body)) | [] => false end.

Lemma decl_top top p :
  map fr_symbol top = reverse (rhs p) -> heads_decl p = true ->
  exists fb mid fk, top = fb :: mid ++ [fk] /\ fr_symbol fb = N nt_opt_body /\ head (rhs p) = Some (fr_symbol fk) /\
    kw_symbol (fr_symbol fk) = true /\ length (rhs p) = S (S (length mid)).
Proof.
  unfold heads_decl. destruct (rhs p) as [|s l]; [done|]. intros Hm [Hk Hl%bool_decide_eq_true]%andb_true_iff.
  apply last_Some in Hl as [l' ->]. rewrite reverse_cons, reverse_app in Hm. cbn in Hm.
  destruct top as [|fb top]; [done|]. cbn in Hm. injection Hm as Hb Hm.
  destruct (decide (top = [])) as [->|Hne]; [by destruct (reverse l')|].
  destruct (exists_last Hne) as (mid & fk & ->). rewrite map_app in Hm. cbn in Hm.
  apply app_inj_tail in Hm as [Hm Hs]. exists fb, mid, fk. rewrite Hs. split_and!; try done.
  cbn. apply (f_equal length) in Hm. rewrite length_map, length_reverse in Hm. rewrite length_app. cbn. lia.
Qed.

(** What a reduction of a declaration finds. *)
Record declares (c : yy_config) (hi : LspPos) (old : list node_ptr) (p : production) (fk : frame) (mid below : list frame)
    (kw : Token) (syms : list node_ptr) (e lo : LspPos) : Prop := {
  de_stack : exists fb, yystack c = fb :: mid ++ fk :: below /\ map fr_symbol (fb :: mid ++ [fk]) = reverse (rhs p);
  de_below : drop (length (rhs p)) (yystack c) = below;
  de_keyword : keyword_token (fr_symbol fk) kw /\ fr_value fk = VTok kw /\ head (rhs p) = Some (fr_symbol fk);
  de_args : arg_tok (map fr_value (yystack c)) (length (rhs p)) 1 = Some kw /\
            arg (map fr_value (yystack c)) (length (rhs p)) (length (rhs p)) = Some (VBody syms e);
  de_segs : segs (arena_nodes (yyglobals c)) old lo below;
  de_token : tok_in lo (tok_end kw) kw;
  de_forest : forest (arena_nodes (yyglobals c)) (tok_end kw) (range_end kw e) syms;
  de_end : pos_le (range_end kw e) hi /\ range_end kw e <> zero_pos
}.

Lemma reduces_declares c hi old i p st v g' :
  plain_at c hi old -> reduces c i p st v g' -> heads_decl p = true ->
  exists fk mid below kw syms e lo, declares c hi old p fk mid below kw syms e lo.
Proof.
  intros Hpa Hr Hd. destruct (reduces_frames _ _ _ _ _ _ (pa_config _ _ _ Hpa) Hr) as (top & Hstk & Hsym & _).
  destruct (decl_top top p Hsym Hd) as (fb & mid & fk & -> & Hb & Hh & Hk & Hl).
  set (below := drop _ _) in Hstk. cbn [app] in Hstk. rewrite <- app_assoc in Hstk. cbn [app] in Hstk.
  pose proof (co_typed _ (pa_config _ _ _ Hpa)) as Ht. pose proof (pa_segs _ _ _ Hpa) as Hs. rewrite Hstk in Ht, Hs.
  apply Forall_cons in Ht as [Htb Ht]. apply Forall_app in Ht as [_ Ht]. apply Forall_cons in Ht as [Htk _].
  destruct (keyword_frame _ _ Htk Hk) as (kw & Hvk & Hkt).
  assert (Hbody : exists syms e, fr_value fb = VBody syms e).
  { unfold typed in Htb. rewrite Hb in Htb. destruct Htb as [Htb _]. destruct (fr_value fb); try discriminate Htb. eauto. }
  destruct Hbody as (syms & e & Hvb).
  destruct (decl_frames _ _ _ _ _ _ _ kw _ _ Hs Hb Hvb Hvk (kw_positioned _ _ Hkt) (kw_no_brace _ _ Hkt))
    as (lo & Hsb & Htok & Hf & He & Hz).
  exists fk, mid, below, kw, syms, e, lo. split; try done.
  - by exists fb.
  - unfold arg_tok, arg. rewrite Hstk, Hl. cbn [map]. rewrite map_app. cbn [map]. rewrite Nat.sub_diag. split; [|by rewrite Hvb].
    replace (S (S (length mid)) - 1)%nat with (S (length (map fr_value mid))) by (rewrite length_map; lia).
    rewrite lookup_cons, list_lookup_middle by done. by rewrite Hvk.
Qed.

Definition decl_production (p : production) : bool :=
  match act p with
  | A_decl _ _ b =>
      bool_decide (heads_decl p = true /\ b = length (rhs p) /\ head (rhs p) <> Some (T KW_PROJECT) /\
                   lhs p <> nt_open /\ holds_root (lhs p) = false)
  | _ => true
  end.

Lemma decl_reduction c hi old i p st v g' id name body :
  plain_at c hi old -> reduces c i p st v g' -> config_ok (reduced c p st v g') -> act p = A_decl id name body ->
  plain_at (reduced c p st v g') hi old.
Proof.
  intros Hpa Hr Hok Ha. pose proof Hr as (Hp & _ & _ & Hrun). rewrite Ha in Hrun. cbn [run_action] in Hrun.
  each_production (fun p => decl_production p = true) Hp as Hd. unfold decl_production in Hd. rewrite Ha in Hd.
  apply bool_decide_eq_true in Hd as (Hd & -> & Hnp & Hno & Hnr).
  destruct (reduces_declares _ _ _ _ _ _ _ _ Hpa Hr Hd)
    as (fk & mid & below & kw & syms & e & lo & [_ Hbelow (Hkt & _ & Hh) [Hkw Hb] Hsb Htok Hf [He Hz]]).
  destruct (decl_action_new _ _ _ _ _ _ _ _ kw (syms, e) Hrun Hkw) as (n0 & -> & Hn & Hw & Hrc); [by rewrite Hb|].
  cbn [fst snd] in Hw. pose proof Hw as (Hk0 & Hr0 & Hc0).
  assert (Hst : stable None (arena_nodes (yyglobals c)) (arena_nodes g')) by (rewrite Hn; apply stable_app).
  assert (Hl : arena_nodes g' !! length (arena_nodes (yyglobals c)) = Some n0) by (rewrite Hn; by apply list_lookup_middle).
  assert (Hproj : ~ project_node n0).
  { unfold project_node. rewrite Hk0. apply (kw_project _ _ Hkt). congruence. }
  apply (quiet_step c hi old i p); try done.
  - split_and!; [done|done|]. intros Hh0. rewrite Hn. apply heap_ok_app; [done| |done]. rewrite Hr0. cbn.
    destruct Htok as (_ & _ & _ & _ & Hm). apply Hm, Hkt.
  - intros lo' Hlo' _. exists lo. rewrite Hbelow. split; [done|].
    split_and!; [|intros _|cbn; by apply no_root_symbol].
    + apply forest_le in Hf as Hle. destruct Htok as (? & ? & _). pos_lia.
    + eapply finished_tree; [exact Hl|exact Hw|exact Htok|apply Hkt| |done|done].
      eapply forest_stable; [exact Hst|apply unfinished_none|exact Hf].
  - intros q Hq. unfold frame_node in Hq. cbn in Hq. rewrite bool_decide_false in Hq by congruence. injection Hq as <-.
    exists n0. rewrite Hr0. done.
Qed.

(** Opening a task, resource or account. *)
Lemma open_reduction c hi old i p st v g' :
  plain_at c hi old -> reduces c i p st v g' -> config_ok (reduced c p st v g') -> act p = A_open ->
  plain_at (reduced c p st v g') hi old.
Proof.
  intros Hpa Hr Hok Ha. pose proof Hr as (Hp & _ & _ & Hrun).
  destruct (reduces_frames _ _ _ _ _ _ (pa_config _ _ _ Hpa) Hr) as (_ & _ & _ & Hpre).
  each_production (fun p => act p = A_open -> p = P nt_open [] A_open) Hp as Hpo. rewrite (Hpo Ha) in *. clear Ha Hpo.
  unfold reduced in *. cbn [lhs rhs act length run_action] in *. rewrite drop_0 in *.
  destruct Hpa as [Hc Hrc Hbot Hs Hpl Hh Ho Hplain].
  destruct (open_context _ (co_path _ Hc) Hpre) as (f1 & f2 & f3 & rest & Hstk & E1 & E2 & E3).
  pose proof (co_typed _ Hc) as Ht. rewrite Hstk in Ht. do 2 apply Forall_cons in Ht as [_ Ht]. apply Forall_cons in Ht as [Ht _].
  destruct (keyword_frame _ _ Ht) as (kw & Hv & Hkt); [by rewrite E3|].
  destruct (open_action_new _ _ _ _ kw Hrun) as (n0 & -> & Hn & Hw & Hr0).
  { rewrite Hstk. cbn. by rewrite Hv. }
  pose proof Hw as (Hk0 & Hrg & Hc0).
  assert (Hst : stable None (arena_nodes (yyglobals c)) (arena_nodes g')) by (rewrite Hn; apply stable_app).
  assert (Hmark : marks (tok_start kw)).
  { rewrite Hstk in Hs. cut_segs Hs. rewrite Hv in Hin1. destruct (Hin1 (kw_positioned _ _ Hkt)) as (_ & _ & _ & _ & Hmk).
    apply Hmk, Hkt. }
  split; cbn [yystack yyinput yyglobals]; try done.
  - congruence.
  - intros Hb. unfold bottom in Hb. cbn in Hb. rewrite !elem_of_cons, elem_of_nil in Hb. by destruct Hb as [?|[?|[]]].
  - econstructor; [|eapply segs_stable; [exact Hst|apply unfinished_none|exact Hs]].
    split_and!; [reflexivity|by intros []|cbn; by apply no_root_symbol].
  - rewrite Hn. apply heap_ok_app; [done|by rewrite Hrg|done].
  - pose proof Ho as [Hnd Hpend]. unfold opens_ok. cbn [open_nodes].
    unfold open_node. cbn [fr_symbol fr_value]. rewrite bool_decide_true by done.
    assert (Hk : default VNone (fr_value <$> yystack c !! 2%nat) = VTok kw) by (rewrite Hstk; cbn; by rewrite Hv).
    rewrite Hk. split.
    + cbn. apply NoDup_cons. split; [|done]. intros (x & Hx & Hin)%list_elem_of_fmap. rewrite Forall_forall in Hpend.
      destruct (Hpend x Hin) as (kw1 & n1 & _ & Hl & _). apply lookup_lt_Some in Hl. lia.
    + constructor; [|by eapply opens_stable in Hst as [_ ?]].
      exists kw, n0. split_and!; [done| |done..]. cbn [fst]. rewrite Hn. by apply list_lookup_middle.
  - constructor; [by apply plain_value|]. eapply Forall_impl; [exact Hplain|]. intros x.
    apply plain_stable with None; [done|apply unfinished_none].
Qed.

(** Closing it. *)
Lemma close_reduction c hi old i p st v g' :
  plain_at c hi old -> reduces c i p st v g' -> config_ok (reduced c p st v g') -> act p = A_close ->
  plain_at (reduced c p st v g') hi old.
Proof.
  intros Hpa Hr Hok Ha. pose proof Hr as (Hp & _ & _ & Hrun).
  each_production (fun p => act p = A_close ->
    p = P nt_symbol_decl [N nt_sym_kw; N nt_opt_id; N nt_string_val; N nt_open; N nt_opt_body] A_close) Hp as Hpo.
  rewrite (Hpo Ha) in *. clear Ha Hpo.
  destruct (reduces_declares _ _ _ _ _ _ _ _ Hpa Hr eq_refl)
    as (fk & mid & below & kw & syms & e & lo & [(fb & Hstk & Hsym) Hbelow (Hkt & Hvk & _) [Hkw Hb] Hsb Htok Hf [He Hz]]).
  unfold reduced in *. rewrite Hbelow in *. cbn [lhs rhs act length run_action] in *.
  unfold reverse in Hsym. cbn in Hsym. injection Hsym as Eb Hsym.
  destruct mid as [|fo [|fs [|fi [|? ?]]]]; cbn in Hsym; simplify_eq; [|by destruct l].
  destruct Hpa as [Hc Hrc Hbot Hs Hpl Hh Ho Hplain]. cbn [app] in Hstk.
  pose proof (co_typed _ Hc) as Ht. rewrite Hstk in Ht. apply Forall_cons in Ht as [_ Ht]. apply Forall_cons in Ht as [Hto _].
  assert (Hvo : exists p0, fr_value fo = VSym p0).
  { unfold typed in Hto. rewrite H in Hto. destruct Hto as [Hto _]. destruct (fr_value fo); try discriminate Hto. eauto. }
  destruct Hvo as [p0 Hvo]. set (below := drop 5 (yystack c)) in *. clearbody below.
  destruct (close_action_new _ _ _ _ _ kw p0 (syms, e) Hrun Hkw) as (-> & Hn & Hr0); [|by rewrite Hb|].
  { unfold arg. rewrite Hstk. cbn. by rewrite Hvo. }
  cbn [fst snd] in Hn. destruct Ho as [Hnd Hpend].
  assert (Hopen : open_nodes (yystack c) = (p0, VTok kw) :: open_nodes below).
  { rewrite Hstk, open_nodes_skip by congruence. cbn [open_nodes]. unfold open_node at 1. rewrite bool_decide_true, Hvo by done.
    change ((p0, default VNone (Some (fr_value fk))) :: open_nodes (fs :: fi :: fk :: below) = (p0, VTok kw) :: open_nodes below).
    rewrite !open_nodes_skip by congruence. cbn [default]. by rewrite Hvk. }
  rewrite Hopen in Hnd, Hpend. cbn in Hnd. apply NoDup_cons in Hnd as [Hnin Hnd]. apply Forall_cons in Hpend as [Hp0 Hpend].
  destruct Hp0 as (kw1 & n0 & [= <-] & Hl & Hk0 & Hrg & Hc0). cbn [fst] in Hl.
  assert (Hst : stable (Some p0) (arena_nodes (yyglobals c)) (arena_nodes g')) by (rewrite Hn; apply stable_alter).
  assert (Hu : unfinished (arena_nodes (yyglobals c)) (Some p0)).
  { intros q [= <-]. exists n0. by rewrite Hrg. }
  set (n1 := pn_finish (range_end kw e) syms n0).
  assert (Hl1 : arena_nodes g' !! p0 = Some n1) by (rewrite Hn, list_lookup_alter_eq, Hl; done).
  assert (Hw : node_with kw (range_end kw e) syms n1) by (unfold node_with, n1, pn_finish; cbn; by rewrite Hrg).
  assert (Hproj : ~ project_node n1).
  { unfold project_node. rewrite (proj1 Hw). apply (kw_project _ _ Hkt). congruence. }
  pose proof (proj1 (proj2 Hw)) as Hrg1.
  split; cbn [yystack yyinput yyglobals]; try done.
  - congruence.
  - intros Hbo. unfold bottom in Hbo. cbn in Hbo. rewrite !elem_of_cons, elem_of_nil in Hbo. by destruct Hbo as [?|[?|[]]].
  - apply (segs_cons _ _ lo).
    + split_and!; [|intros _|cbn; by apply no_root_symbol].
      * apply forest_le in Hf as Hle. destruct Htok as (? & ? & _). pos_lia.
      * eapply finished_tree; [exact Hl1|exact Hw|exact Htok|apply Hkt| |done|done].
        eapply forest_stable; [exact Hst|exact Hu|exact Hf].
    + eapply segs_stable; [exact Hst|exact Hu|exact Hsb].
  - intros q n Hq. rewrite Hn in Hq. destruct (decide (p0 = q)) as [<-|Hne].
    + rewrite list_lookup_alter_eq, Hl in Hq. injection Hq as <-. fold n1. rewrite Hrg1. cbn. split; [|done].
      destruct Htok as (_ & _ & _ & _ & Hm). apply Hm, Hkt.
    + rewrite list_lookup_alter_ne in Hq by done. by apply (Hh q).
  - apply opens_push; [done|]. eapply opens_stable; [exact Hst| |by split]. by intros q [= <-].
  - rewrite Hstk in Hplain. do 5 apply Forall_cons in Hplain as [_ Hplain]. constructor.
    + intros q Hq. unfold frame_node in Hq. cbn in Hq. rewrite bool_decide_false in Hq by congruence. injection Hq as <-.
      exists n1. by rewrite Hrg1.
    + eapply Forall_impl; [exact Hplain|]. intros x. by apply plain_stable with (Some p0).
Qed.

(** *** The project block and the top level *)

Lemma not_bottom f st : fr_symbol f <> N nt_reset -> ~ bottom (f :: st).
Proof.
  intros Hf Hb. unfold bottom in Hb. cbn in Hb. rewrite !elem_of_cons, elem_of_nil in Hb.
  destruct Hb as [?|[[= ? _]|[]]]; done.
Qed.

Lemma project_reduction c hi old i p st v g' :
  plain_at c hi old -> reduces c i p st v g' -> config_ok (reduced c p st v g') -> act p = A_project ->
  map fr_symbol (drop (length (rhs p)) (yystack c)) = [N nt_items; N nt_reset] ->
  tree_inv (reduced c p st v g').
Proof.
  intros Hpa Hr Hok Ha Htop. pose proof Hr as (Hp & _ & _ & Hrun).
  each_production (fun p => act p = A_project ->
    p = P nt_symbol_decl [T KW_PROJECT; N nt_opt_id; N nt_string_val; N nt_opt_version; N nt_interval2; N nt_opt_body]
          A_project) Hp as Hpo.
  rewrite (Hpo Ha) in *. clear Ha Hpo.
  destruct (reduces_declares _ _ _ _ _ _ _ _ Hpa Hr eq_refl)
    as (fk & mid & below & kw & syms & e & lo & [(fb & Hstk & Hsym) Hbelow (Hkt & Hvk & Hhead) [Hkw Hb] Hsb Htok Hf [He Hz]]).
  unfold reduced in *. rewrite Hbelow in *. cbn [lhs rhs act length run_action head] in *. injection Hhead as Hk.
  destruct Hpa as [Hc Hrc Hbot Hs Hpl Hh Ho Hplain]. rewrite Hstk in Ho, Hplain.
  assert (Hkind : tok_kind kw = KW_PROJECT).
  { pose proof (co_typed _ Hc) as Ht. rewrite Hstk in Ht. apply Forall_cons in Ht as [_ Ht].
    apply Forall_app in Ht as [_ Ht]. apply Forall_cons in Ht as [Ht _]. unfold typed in Ht. rewrite <- Hk in Ht.
    destruct Ht as (t & Ht & <- & _). congruence. }
  destruct (project_action_new _ _ _ _ kw (syms, e) Hrun Hkw) as (n0 & -> & Hn & Hw & Hr0); [by rewrite Hb|].
  cbn [fst snd] in Hw, Hr0. pose proof Hw as (Hk0 & Hrg & Hc0).
  assert (Hst : stable None (arena_nodes (yyglobals c)) (arena_nodes g')) by (rewrite Hn; apply stable_app).
  assert (Hl : arena_nodes g' !! length (arena_nodes (yyglobals c)) = Some n0) by (rewrite Hn; by apply list_lookup_middle).
  pose proof Htok as (Hle1 & _ & _ & Hlt & Hm). specialize (Hlt (kw_no_brace _ _ Hkt)). specialize (Hm (kw_emitted _ _ Hkt)).
  apply (tree_inv_intro _ hi old (filter (fun c => plain_node (arena_nodes g') c = true) syms));
    cbn [yystack yyinput yyglobals]; try done.
  - congruence.
  - by intros ?%not_bottom.
  - apply (segs_cons _ _ lo).
    + split_and!; [|intros _|cbn; by apply no_root_symbol].
      * apply forest_le in Hf as Hle. pos_lia.
      * econstructor; [exact Hl|by rewrite Hrg|by rewrite Hrg|rewrite Hrg; exact Hlt| |rewrite Hrg; by constructor].
        rewrite Hrg, Hc0. constructor. by apply forest_le in Hf.
    + eapply segs_stable; [exact Hst|apply unfinished_none|exact Hsb].
  - rewrite Hn. apply heap_ok_app; [done|by rewrite Hrg|done].
  - apply opens_push; [done|]. eapply opens_stable; [exact Hst|done|].
    apply (opens_below _ (fb :: mid ++ [fk])). cbn [app]. rewrite <- app_assoc. exact Ho.
  - right. destruct below as [|fi [|fr [|? ?]]]; try discriminate Htop. injection Htop as Hi Hre.
    apply (project_done_intro _ _ _ _ _ (length (arena_nodes (yyglobals c))) n0 (tok_end kw)); try done.
    + by left.
    + unfold project_node. congruence.
    + by rewrite Hrg.
    + rewrite Hrg. apply forest_filter. eapply forest_stable; [exact Hst|apply unfinished_none|exact Hf].
    + apply Forall_forall. intros q Hq. apply list_elem_of_filter in Hq as [Hq _]. by apply plain_node_spec.
Qed.

Lemma tree_end h lo hi p n : tree h lo hi p -> h !! p = Some n ->
  pos_le lo (rstart (pn_range n)) /\ pos_lt (rstart (pn_range n)) (rend (pn_range n)) /\ pos_le (rend (pn_range n)) hi.
Proof.
  intros Ht Hn. destruct (tree_node _ _ _ _ Ht) as (n' & inner & Hn' & ? & _ & ? & ? & Hf). simplify_eq.
  apply forest_le in Hf. split_and!; [done|pos_lia|done].
Qed.

Lemma forest_sorted h lo hi ps :
  forest h lo hi ps -> Forall (fun c => exists nc, h !! c = Some nc /\ ~ project_node nc) ps ->
  StronglySorted (compatible h) ps.
Proof.
  induction 1 as [|lo hi p n inner ps Hn Hlo Hz Hi Hc _ Hps IH]; [constructor|].
  intros [(nc & Hnc & Hk) Hpl]%Forall_cons. simplify_eq. constructor; [by apply IH|].
  apply Forall_forall. intros q Hq. rewrite Forall_forall in Hpl. destruct (Hpl q Hq) as (nq & Hnq & Hkq).
  exists n, nq. split_and!; [done|done| |by intros [? _]].
  left. left. destruct (tree_end _ _ _ _ nq (forest_elem _ _ _ _ _ Hps Hq) Hnq) as (? & _). done.
Qed.

(** What follows the declarations so far. *)
Lemma root_app h rc rc' m hi :
  pos_le zero_pos m -> pos_le m hi -> root_in h rc m ->
  Forall (fun p => tree h m hi p) rc' -> StronglySorted (compatible h) rc' ->
  (forall p q a b, p ∈ rc -> q ∈ rc' -> h !! p = Some a -> h !! q = Some b -> ~ (project_node a /\ project_node b)) ->
  root_in h (rc ++ rc') hi.
Proof.
  intros Hz Hle Hr Ht Hs Hn. split.
  - apply Forall_app. split; [by eapply root_in_widen|]. eapply Forall_impl; [exact Ht|]. intros p Hp.
    eapply forest_widen; [exact Hp|done|reflexivity].
  - destruct Hr as [Hrt Hrs]. apply StronglySorted_app. split_and!; [|done|done].
    intros p q Hp Hq. rewrite Forall_forall in Hrt, Ht. pose proof (Hrt p Hp) as Tp. pose proof (Ht q Hq) as Tq.
    destruct (tree_node _ _ _ _ Tp) as (a & _ & Ha & _). destruct (tree_node _ _ _ _ Tq) as (b & _ & Hb & _).
    exists a, b. split_and!; [done|done| |by eapply Hn].
    destruct (tree_end _ _ _ _ _ Tp Ha) as (? & _ & ?). destruct (tree_end _ _ _ _ _ Tq Hb) as (? & _ & ?).
    left. left. pos_lia.
Qed.

Lemma segs_root h rc rc' lo st :
  Forall (fun f => fr_symbol f ∉ [N nt_items; N nt_file]) st -> segs h rc lo st -> segs h rc' lo st.
Proof.
  intros Hf. induction 1 as [|lo hi f st (Hle & Hv & _) _ IH]; [by constructor|].
  apply Forall_cons in Hf as [Hn Hf]. econstructor; [|by apply IH]. by split_and!.
Qed.

(** A declaration joins the others. *)
Lemma route_reduction c hi old i p st v g' :
  plain_at c hi old -> reduces c i p st v g' -> config_ok (reduced c p st v g') -> act p = A_route ->
  tree_inv (reduced c p st v g').
Proof.
  intros Hpa Hr Hok Ha. pose proof Hr as (Hp & _ & _ & Hrun).
  each_production (fun p => act p = A_route -> p = P nt_items [N nt_items; N nt_item] A_route) Hp as Hpo.
  rewrite (Hpo Ha) in *. clear Ha Hpo.
  destruct (reduces_frames _ _ _ _ _ _ (pa_config _ _ _ Hpa) Hr) as (top & Hstk & Hsym & Hpre).
  destruct Hpa as [Hc Hrc Hbot Hs Hpl Hh Ho Hplain].
  pose proof (co_typed _ Hc) as Ht. unfold reduced in *. cbn [lhs rhs act length] in *.
  set (below := drop 2 (yystack c)) in *. clearbody below. name_frames Hsym. cbn [app] in Hstk.
  rewrite Hstk in Hs, Ho, Hplain, Ht, Hrun. pose proof (co_path _ Hc) as Hlr. rewrite Hstk in Hlr.
  apply (lr_stack_below [_; _]) in Hlr. apply items_context in Hpre; [|done].
  assert (Hbelow : Forall (fun f => fr_symbol f ∉ [N nt_items; N nt_file]) below).
  { destruct below as [|r [|]]; try discriminate Hpre. injection Hpre as Hre. repeat constructor. rewrite Hre.
    by apply (bool_decide_unpack _). }
  inversion Hs as [|m ? ? ? (Hm & Hv & _) Hs1]; subst. inversion Hs1 as [|m1 ? ? ? (Hm1 & _ & Hroot) Hs2]; subst.
  specialize (Hroot ltac:(by left)). cbn [Grammar.fr_symbol Grammar.fr_value] in Hv.
  apply Forall_cons in Hplain as [Hpf Hplain]. apply Forall_cons in Hplain as [_ Hplain].
  apply (opens_below _ [_; _]) in Ho. apply Forall_cons in Ht as [[Ht _] _]. cbn in Ht.
  assert (Hz : pos_le zero_pos m1) by by eapply segs_base.
  assert (Hnext : exists rc', root_children g' = rc' /\ arena_nodes g' = arena_nodes (yyglobals c) /\ v = VNone /\
    root_in (arena_nodes (yyglobals c)) rc' hi).
  { destruct v0 as [| | |[q|]| | | |]; try discriminate Ht; cbn in Hrun.
    - destruct (route_top_level q (yyglobals c)) as [g1|] eqn:Er; [|done]. cbn in Hrun. injection Hrun as <- <-.
      destruct (route_new _ _ _ Er) as (Hg & n & Hn & Hor). destruct (Hpf q eq_refl) as (n' & Hn' & _ & Hk). simplify_eq.
      destruct Hor as [[Hrc _]|(_ & ? & _)]; [|done]. eexists. split_and!; [exact Hrc|done|done|].
      apply (root_app _ _ _ m); [pos_lia|done|done|by apply Forall_singleton|by repeat constructor|].
      intros p1 q1 a b _ ->%list_elem_of_singleton _ Hb. simplify_eq. by intros [_ ?].
    - injection Hrun as <- <-. eexists. split_and!; [done|done|done|]. by eapply root_in_widen. }
  destruct Hnext as (rc' & Hrc' & Hg & -> & Hroot').
  apply (plain_tree _ hi rc'). split; cbn [yystack yyinput yyglobals]; rewrite ?Hg; try done.
  - by intros ?%not_bottom.
  - econstructor; [|eapply segs_root; [done|exact Hs2]]. split_and!; [pos_lia|done|done].
  - constructor; [by apply plain_value|done].
Qed.

(** The only reductions at the end of the project block. *)
Lemma done_production f i r j p :
  lr_stack [f; i; r] -> fr_symbol f ∈ [N nt_symbol_decl; N nt_item] -> fr_symbol i = N nt_items ->
  production_at j = Some p -> reducible (fr_state f) j = true ->
  fr_symbol f = N nt_symbol_decl /\ p = P nt_item [N nt_symbol_decl] A_item \/
  fr_symbol f = N nt_item /\ p = P nt_items [N nt_items; N nt_item] A_route.
Proof.
  intros Hlr Hf Hi Hp Hr. inversion Hlr as [|? ? Hg Hlr1]; subst.
  assert (Hc : complete (fr_state f)).
  { eapply closed_complete; [exact Hg|]. rewrite !elem_of_cons, elem_of_nil in Hf.
    destruct Hf as [-> |[->|[]]]; vm_compute; reflexivity. }
  pose proof (complete_reducible _ _ _ Hc Hp Hr) as Hin.
  destruct (goto_items _ _ _ _ _ Hg Hin) as (d & Hd & _).
  destruct (item_symbols _ _ _ _ Hlr Hin Hp) as (Hl & Hs & _ & _).
  rewrite take_ge in Hs by done. rewrite Hd in Hs. cbn [take map] in Hs. rewrite reverse_cons in Hs.
  assert (Hlast : last (rhs p) = Some (fr_symbol f)) by (rewrite Hs; apply last_snoc).
  each_production (fun p =>
    (last (rhs p) = Some (N nt_symbol_decl) -> p = P nt_item [N nt_symbol_decl] A_item) /\
    (last (rhs p) = Some (N nt_item) ->
       p = P nt_items [N nt_items; N nt_item] A_route \/ p = P nt_body_items [N nt_body_items; N nt_item] A_body_item)) Hp as Hb.
  rewrite Hlast in Hb. rewrite !elem_of_cons, elem_of_nil in Hf. destruct Hf as [Hf|[Hf|[]]]; rewrite Hf in Hb.
  - left. split; [done|]. by apply Hb.
  - right. split; [done|]. destruct Hb as [_ Hb]. destruct (Hb eq_refl) as [?|Hbody]; [done|]. exfalso.
    rewrite Hbody in Hs, Hd. cbn in Hd. injection Hd as <-. cbn in Hs. rewrite Hi in Hs. discriminate Hs.
Qed.

Lemma done_reduction c hi old hoisted i p st v g' :
  config_ok c -> root_children (yyglobals c) = old ++ hoisted ->
  segs (arena_nodes (yyglobals c)) old hi (yystack c) -> placed hi (yyinput c) ->
  heap_ok (arena_nodes (yyglobals c)) -> opens_ok (arena_nodes (yyglobals c)) (yystack c) ->
  project_done (arena_nodes (yyglobals c)) hoisted (yystack c) ->
  reduces c i p st v g' -> config_ok (reduced c p st v g') -> tree_inv (reduced c p st v g').
Proof.
  intros Hc Hrc Hs Hpl Hh Ho Hd (Hp & _ & Hr & Hrun) Hok. pose proof (co_path _ Hc) as Hlr.
  remember (yystack c) as stk eqn:Estk. unfold reduced in *. rewrite <- Estk in *.
  destruct Hd as [f it r q n inner Hf Hq Hn Hk Hin Hfo Hhp Hi Hre].
  destruct (done_production _ _ _ _ _ Hlr Hf Hi Hp Hr) as [[Hfs ->]|[Hfs ->]]; cbn [lhs rhs act length drop] in *.
  - assert (Hv : fr_value f = VSym q).
    { unfold frame_node in Hq. pose proof (co_typed _ Hc) as Ht. rewrite <- Estk in Ht. apply Forall_cons in Ht as [Ht _].
      unfold typed in Ht. rewrite Hfs in Ht, Hq. destruct Ht as [Ht _]. destruct (fr_value f); try discriminate Ht.
      rewrite bool_decide_false in Hq by done. by injection Hq as ->. }
    cbn in Hrun. rewrite Hv in Hrun. injection Hrun as <- <-.
    apply (tree_inv_intro _ hi old hoisted); cbn [yystack yyinput yyglobals]; try done.
    + by intros ?%not_bottom.
    + inversion Hs as [|m ? ? ? (Hm & Hval & _) Hs1]; subst. econstructor; [|exact Hs1]. split_and!; [done| |by apply no_root_symbol].
      rewrite Hv in Hval. apply Hval. congruence.
    + apply opens_push; [done|]. by apply (opens_below _ [f]).
    + right. by apply (project_done_intro _ _ _ _ _ q n inner); try done; right; left.
  - assert (Hv : fr_value f = VItem (Some q)).
    { unfold frame_node in Hq. pose proof (co_typed _ Hc) as Ht. rewrite <- Estk in Ht. apply Forall_cons in Ht as [Ht _].
      unfold typed in Ht. rewrite Hfs in Ht. destruct Ht as [Ht _]. destruct (fr_value f) as [| | |[|]| | | |]; try discriminate Ht; [|done].
      by injection Hq as ->. }
    inversion Hs as [|m ? ? ? (Hm & Hval & _) Hs1]; subst. inversion Hs1 as [|m1 ? ? ? (Hm1 & _ & Hroot) Hs2]; subst.
    rewrite Hi in Hroot. specialize (Hroot ltac:(by left)). rewrite Hv in Hval.
    assert (Hz : pos_le zero_pos m1) by by eapply segs_base.
    destruct (tree_end _ _ _ _ _ Hval Hn) as (K1 & K2 & K3).
    cbn in Hrun. rewrite Hv in Hrun. cbn in Hrun. destruct (route_top_level q (yyglobals c)) as [g1|] eqn:Er; [|done].
    cbn in Hrun. injection Hrun as <- <-. destruct (route_new _ _ _ Er) as (Hg & n' & Hn' & Hor). simplify_eq.
    assert (Hhi : Forall (fun p => tree (arena_nodes (yyglobals c)) m hi p) hoisted).
    { apply Forall_forall. intros x Hx. eapply forest_widen; [exact (forest_elem _ _ _ _ _ Hfo Hx)|pos_lia|done]. }
    assert (Hplain : forall x y a b, x ∈ old -> y ∈ hoisted -> arena_nodes (yyglobals c) !! x = Some a ->
        arena_nodes (yyglobals c) !! y = Some b -> ~ (project_node a /\ project_node b)).
    { intros x y a b _ Hy _ Hb [_ Hkb]. rewrite Forall_forall in Hhp. destruct (Hhp y Hy) as (nc & Hnc & Hkc). by simplify_eq. }
    assert (Hall : root_in (arena_nodes (yyglobals c)) (old ++ hoisted) hi).
    { apply (root_app _ _ _ m); try done; [pos_lia|]. by eapply forest_sorted. }
    assert (Hfin : root_in (arena_nodes (yyglobals c)) (root_children g1) hi).
    { destruct Hor as [[Hrc1 Hno]|(Hrc1 & _)]; [|congruence]. rewrite Hrc1, Hrc, <- app_assoc.
      apply (root_app _ _ _ m); try done; [pos_lia|..].
      - apply Forall_app. split; [done|by apply Forall_singleton].
      - apply StronglySorted_app. split_and!; [|by eapply forest_sorted|by repeat constructor].
        intros x y Hx ->%list_elem_of_singleton. rewrite Forall_forall in Hhp. destruct (Hhp x Hx) as (nc & Hnc & Hkc).
        exists nc, n. split_and!; [done|done| |by intros [? _]]. right. left.
        destruct (tree_end _ _ _ _ _ (forest_elem _ _ _ _ _ Hfo Hx) Hnc) as (? & _ & ?). split_and!; [done|pos_lia|done].
      - intros x y a b Hx Hy Ha Hb [Hka Hkb]. specialize (Hno Hk). unfold output_has_project in Hno. rewrite Hrc in Hno.
        rewrite existsb_app, orb_false_iff in Hno. destruct Hno as [Hno _].
        assert (He : existsb (fun p => match arena_nodes (yyglobals c) !! p with
          | Some n => bool_decide (pn_keyword n = KW_PROJECT) | None => false end) old = true).
        { apply existsb_exists. exists x. split; [by apply list_elem_of_In|]. rewrite Ha. by apply bool_decide_eq_true. }
        congruence. }
    apply (plain_tree _ hi (root_children g1)). split; cbn [yystack yyinput yyglobals]; rewrite ?Hg; try done.
    + by intros ?%not_bottom.
    + econstructor; [|eapply segs_root; [|exact Hs2]]; [split_and!; [pos_lia|done|done]|].
      repeat constructor. rewrite Hre. by apply (bool_decide_unpack _).
    + apply opens_push; [done|]. by apply (opens_below _ [f; it]).
    + constructor; [by apply plain_value|]. constructor; [|constructor]. apply plain_value.
      pose proof (co_typed _ Hc) as Ht. rewrite <- Estk in Ht. do 2 apply Forall_cons in Ht as [_ Ht].
      apply Forall_cons in Ht as [Ht _]. unfold typed in Ht. rewrite Hre in Ht. destruct Ht as [Ht _].
      unfold frame_node. by destruct (fr_value r).
Qed.

(** *** All steps *)

Lemma acting_reduction c hi old i p st v g' :
  plain_at c hi old -> reduces c i p st v g' -> config_ok (reduced c p st v g') ->
  (act p = A_project -> map fr_symbol (drop (length (rhs p)) (yystack c)) = [N nt_items; N nt_reset]) ->
  p ∈ acting_productions -> tree_inv (reduced c p st v g').
Proof.
  intros Hpa Hr Hok Htop Hin. pose proof Hr as (Hp & _ & _ & Hrun).
  destruct (quiet_action (act p)) eqn:Eq; cycle 1.
  - destruct (act p) eqn:Ea; try discriminate Eq.
    + by eapply route_reduction.
    + eapply project_reduction; try done. by apply Htop.
    + apply (plain_tree _ hi old). by eapply open_reduction.
    + apply (plain_tree _ hi old). by eapply close_reduction.
    + apply (plain_tree _ hi old). by eapply decl_reduction.
  - apply (plain_tree _ hi old). pose proof (run_quiet _ _ _ _ _ _ Eq Hrun) as Hq.
    each_production (fun p => quiet_action (act p) = true -> act p <> A_none -> lhs p <> nt_open /\ holds_root (lhs p) = false) Hp as Hb.
    assert (Hc : Forall (fun p => act p <> A_none /\
        (quiet_action (act p) = true -> p ∈ telling \/ act p = A_no_item \/
           nt_type (lhs p) ∈ [TyRef; TyInt; TyText; TyNone])) acting_productions).
    { apply (bool_decide_unpack _). vm_compute. exact I. }
    rewrite Forall_forall in Hc. destruct (Hc p Hin) as [Hnone Hcase]. destruct (Hb Eq Hnone) as [Hno Hnr].
    destruct (Hcase Eq) as [Ht|[Ha|Hty]].
    + destruct (telling_in_place _ _ _ _ _ _ _ _ Hpa Hr Ht) as (-> & _ & Hv & Hpl). by eapply quiet_step.
    + eapply mute_reduction; try done. rewrite Ha in Hrun. by injection Hrun as <- _.
    + eapply mute_reduction; try done. pose proof (co_typed _ Hok) as Htv. apply Forall_cons in Htv as [Htv _].
      unfold typed in Htv. cbn [fr_symbol fr_value] in Htv. destruct Htv as [Htv _]. rewrite <- Htv in Hty.
      destruct v as [| | |[|]| | | |]; try done; exfalso; revert Hty; apply (bool_decide_unpack _); vm_compute; exact I.
Qed.

Lemma reduce_tree c i c' :
  tree_inv c -> projects_at_top (Reduce i) c -> yy_step (Reduce i) c = Next c' -> tree_inv c'.
Proof.
  intros [hi old hoisted Hok Hrc Hbot Hs Hpl Hh Ho Hd] Htop Hstep.
  destruct (reduce_inv _ _ _ Hstep) as (p & st & v & g' & Hr & ->).
  assert (Hok' : config_ok (reduced c p st v g')).
  { destruct Hr as (Hp & Hi & Hred & _). destruct (reduce_ok c i p Hok Hp Hi Hred) as (c1 & E & ?).
    rewrite Hstep in E. by injection E as <-. }
  destruct Hd as [[-> Hplain]|Hd]; [|by eapply done_reduction].
  rewrite app_nil_r in Hrc. assert (Hpa : plain_at c hi old) by done.
  pose proof Hr as (Hp & _). destruct (production_split i p Hp) as [[Ha _]|[(n & k & -> & _ & Hn)|Hin]].
  - apply (plain_tree _ hi old). by eapply none_reduction.
  - apply (plain_tree _ hi old). by eapply copy_reduction.
  - eapply acting_reduction; try done. intros Ha. by eapply Htop.
Qed.

Lemma reach_tree toks k syms c :
  Forall tok_good toks -> placed zero_pos toks ->
  reach projects_at_top (yyparse_start toks (initial_globals k syms)) c -> tree_inv c.
Proof.
  intros Ht Hp Hr. induction Hr as [|c m c' _ IH Hm Hstep]; [by apply start_tree|].
  destruct m as [|i|]; [by eapply shift_tree|by eapply reduce_tree|by eapply error_tree].
Qed.

(** ** The finished tree *)

Lemma tree_inv_root c : tree_inv c ->
  exists hi, root_in (arena_nodes (yyglobals c)) (root_children (yyglobals c)) hi /\ heap_ok (arena_nodes (yyglobals c)).
Proof.
  intros [hi old hoisted Hok Hrc Hbot Hs Hpl Hh Ho Hd].
  assert (Hold : root_in (arena_nodes (yyglobals c)) old hi).
  { destruct (stack_bottom _ (co_path _ Hok)) as [Hb|He].
    - rewrite (Hbot Hb). split; constructor.
    - clear Hok Hrc Hbot Hpl Ho Hd. induction Hs as [|lo hi f st (Hle & Hv & Hr) Hs IH]; [by apply Exists_nil in He|].
      apply Exists_cons in He as [He|He]; [by apply Hr|]. eapply root_in_widen; [by apply IH|done]. }
  destruct Hd as [[-> _]|Hd]; [exists hi; by rewrite Hrc, app_nil_r|].
  remember (yystack c) as stk. destruct Hd as [f it r q n inner Hf Hq Hn Hk Hin Hfo Hhp Hi Hre].
  exists hi. split; [|done]. rewrite Hrc.
  inversion Hs as [|m ? ? ? (Hm & Hval & _) Hs1]; subst. inversion Hs1 as [|m1 ? ? ? (Hm1 & _ & Hroot) Hs2]; subst.
  rewrite Hi in Hroot. specialize (Hroot ltac:(by left)). pose proof (segs_base _ _ _ _ Hs2) as Hz.
  assert (Ht : tree (arena_nodes (yyglobals c)) m hi q).
  { unfold frame_node in Hq. destruct (fr_value f) as [| | |[|]| | | |]; try done.
    - case_bool_decide; [done|]. injection Hq as <-. by apply Hval.
    - by injection Hq as <-. }
  destruct (tree_end _ _ _ _ _ Ht Hn) as (K1 & K2 & K3).
  apply (root_app _ _ _ m); try done; [pos_lia| |by eapply forest_sorted|].
  - apply Forall_forall. intros x Hx. eapply forest_widen; [exact (forest_elem _ _ _ _ _ Hfo Hx)|pos_lia|done].
  - intros x y a b _ Hy _ Hb [_ Hkb]. rewrite Forall_forall in Hhp. destruct (Hhp y Hy) as (nc & Hnc & Hkc). by simplify_eq.
Qed.
End Tree.
