(* ===== verification/ProjectBlocks.v ===== *)
(** * Where project blocks are completed.

    The layout of the parsed document needs project blocks to be completed at
    the top level of the file ([projects_at_top], of a run of the parser).  Here
    a condition on the tokens that ensures it for every run: no brace stands
    before the keyword [project], as in every file TaskJuggler accepts. *)

From S2P Require Import Prelude Tokens Syntax Lexer Grammar ParseSafety ParseTree.

(** [project] never follows an opening brace. *)
Fixpoint projects_lead (seen : bool) (toks : list Token) : bool :=
  match toks with
  | [] => true
  | t :: toks' =>
      negb (seen && bool_decide (tok_kind t = KW_PROJECT)) &&
      projects_lead (seen || bool_decide (tok_kind t = TK_LBRACE)) toks'
  end.

Lemma projects_lead_weaken toks : projects_lead true toks = true -> projects_lead false toks = true.
Proof.
  induction toks as [|t toks IH]; [done|]. cbn. intros [_ H]%andb_true_iff.
  case_bool_decide; [done|]. by apply IH.
Qed.

(** A brace is open on the stack. *)
Definition opened (stk : list frame) : bool := existsb (fun f => bool_decide (fr_symbol f = T TK_LBRACE)) stk.

(** The tokens to come respect the open brace, and no brace lies below a
    project keyword. *)
Fixpoint leads (stk : list frame) : Prop :=
  match stk with
  | [] => True
  | f :: stk' => (fr_symbol f = T KW_PROJECT -> opened stk' = false) /\ leads stk'
  end.

Definition leading (c : yy_config) : Prop :=
  leads (yystack c) /\ projects_lead (opened (yystack c)) (yyinput c) = true.

Lemma projects_lead_less a b toks : (b = true -> a = true) -> projects_lead a toks = true -> projects_lead b toks = true.
Proof.
  destruct a, b; intros Hab; [done|apply projects_lead_weaken| |done]. by specialize (Hab eq_refl).
Qed.

Lemma opened_drop n stk : opened (drop n stk) = true -> opened stk = true.
Proof.
  intros H. unfold opened in *. rewrite <- (take_drop n stk), existsb_app, H. apply orb_true_r.
Qed.

Lemma leads_drop n stk : leads stk -> leads (drop n stk).
Proof. revert stk. induction n as [|n IH]; intros [|f stk]; try done. intros [_ H]. by apply IH. Qed.

Lemma leading_push c n f :
  leading c -> fr_symbol f <> T KW_PROJECT -> fr_symbol f <> T TK_LBRACE ->
  leads (f :: drop n (yystack c)) /\ projects_lead (opened (f :: drop n (yystack c))) (yyinput c) = true.
Proof.
  intros [Hl Hp] Hf1 Hf2. split; [split; [done|by apply leads_drop]|].
  eapply projects_lead_less; [|exact Hp]. cbn. rewrite bool_decide_false by done. apply opened_drop.
Qed.

Lemma shift_leading c c' : leading c -> yy_step Shift c = Next c' -> leading c'.
Proof.
  intros [Hl Hp]. cbn. unfold shift. destruct (yyinput c) as [|t ts] eqn:E; [done|].
  destruct (goto _ _) as [st|]; [|done]. intros [= <-]. cbn in Hp. apply andb_true_iff in Hp as [Hk Hp].
  split; cbn.
  - split; [|done]. intros [= Hkp]. destruct (opened (yystack c)); [|done]. by rewrite bool_decide_true in Hk.
  - rewrite orb_comm. erewrite bool_decide_ext; [exact Hp|]. split; [by intros [= ->]|by intros ->].
Qed.

Lemma reduce_leading i c c' : leading c -> yy_step (Reduce i) c = Next c' -> leading c'.
Proof.
  intros Hc. cbn. unfold reduce. destruct (production_at i) as [p|]; [|done]. case_match; [done|].
  destruct (goto _ _) as [st|]; [|done]. destruct (run_action _ _ _ _) as [[v g]|]; [|done]. intros [= <-].
  by apply (leading_push c).
Qed.

Lemma error_leading c c' : leading c -> yy_step Error c = Next c' -> leading c'.
Proof.
  intros Hc. cbn. unfold error. case_match; [done|].
  destruct (if bool_decide _ then _ else _) as [ts|] eqn:Ei; [|done].
  destruct (pop_to_error _) as [stk|] eqn:E; [|done]. intros [= <-].
  apply pop_to_error_spec in E as (st & top & below & Hb & _ & _ & ->).
  destruct (leading_push c (length top) (mkFrame st Err VNone) Hc) as [Hl Hp]; [done..|].
  rewrite Hb, drop_app_length in Hl, Hp. split; [exact Hl|]. cbn [yystack yyinput].
  case_bool_decide; [|by injection Ei as <-]. destruct (yyinput c) as [|t ts']; [done|]. case_match; [done|].
  injection Ei as <-. cbn [projects_lead] in Hp. apply andb_true_iff in Hp as [_ Hp].
  eapply projects_lead_less; [|exact Hp]. intros ->. reflexivity.
Qed.

Lemma reach_leading toks g c :
  projects_lead false toks = true -> reach any_move (yyparse_start toks g) c -> leading c.
Proof.
  intros Ht Hr. induction Hr as [|c m c' _ IH _ Hs]; [by split|].
  destruct m; [by eapply shift_leading|by eapply reduce_leading|by eapply error_leading].
Qed.

(** ** The place of a declaration *)

(** The two lists of items, where the rest of an item is expected. *)
Definition item_places : list (nat * nat) :=
  Eval vm_compute in
    flat_map (fun ip : nat * production =>
      flat_map (fun d => match rhs ip.2 !! d with
                         | Some (N n) => if bool_decide (nt_symbol_decl ∈ corners n) then [(ip.1, d)] else []
                         | _ => []
                         end) (seq 1 (length (rhs ip.2)))) indexed_productions.

Lemma item_places_complete i d n :
  next_symbol (i, d) = Some (N n) -> nt_symbol_decl ∈ corners n -> d <> 0%nat -> (i, d) ∈ item_places.
Proof.
  intros Hn Hc Hd. unfold next_symbol in Hn. cbn [fst snd] in Hn. destruct (production_at i) as [p|] eqn:Hp; [|done].
  cbn in Hn. change item_places with
    (flat_map (fun ip : nat * production =>
      flat_map (fun d => match rhs ip.2 !! d with
                         | Some (N n) => if bool_decide (nt_symbol_decl ∈ corners n) then [(ip.1, d)] else []
                         | _ => []
                         end) (seq 1 (length (rhs ip.2)))) indexed_productions).
  apply list_elem_of_In, in_flat_map. exists (i, p). split; [by apply list_elem_of_In, indexed_elem|].
  apply in_flat_map. exists d. cbn [fst snd].
  split; [apply in_seq; apply lookup_lt_Some in Hn; lia|]. rewrite Hn.
  rewrite bool_decide_true by done. by left.
Qed.

(** A body stands behind its brace. *)
Lemma body_context stk : lr_stack stk -> nt_body_items ∈ predicted (top_state stk) -> opened stk = true.
Proof.
  intros Hlr Hm. apply elem_of_predicted in Hm as ([i d] & n & Hit & Hn & Hc).
  apply own_corner_spec in Hc as ->; [|vm_compute; reflexivity].
  apply (stands_only_spec nt_body_items [(136, 1); (138, 0); (139, 0)]%nat) in Hn; [|vm_compute; reflexivity].
  rewrite !elem_of_cons, elem_of_nil in Hn.
  destruct Hn as [[= -> ->]|[[= -> ->]|[[= -> ->]|[]]]];
    [|by destruct (kernel_item _ _ _ Hlr Hit) as [?|[_ ?]]..].
  destruct (item_symbols stk 136 1 _ Hlr Hit eq_refl) as (Hl & Hs & _).
  destruct stk as [|f stk]; [cbn in Hl; lia|]. cbn in Hs. rewrite take_0 in Hs. cbn in Hs. injection Hs as Hs.
  cbn. by rewrite <- Hs.
Qed.

(** Behind no open brace, a declaration is expected at the top level only. *)
Lemma declaration_context stk :
  lr_stack stk -> opened stk = false -> nt_symbol_decl ∈ predicted (top_state stk) ->
  map fr_symbol stk = [N nt_items; N nt_reset].
Proof.
  intros Hlr Ho Hm. apply elem_of_predicted in Hm as ([i d] & n & Hit & Hn & Hc).
  destruct (kernel_item _ _ _ Hlr Hit) as [Hd|[-> ->]].
  - pose proof (item_places_complete _ _ _ Hn Hc Hd) as Hp. unfold item_places in Hp.
    rewrite !elem_of_cons, elem_of_nil in Hp. destruct Hp as [[= -> ->]|[[= -> ->]|[]]].
    + destruct (item_symbols stk 3 1 _ Hlr Hit eq_refl) as (Hl & Hs & _ & [[? _]|Hpre]); [done|].
      destruct stk as [|f stk]; [cbn in Hl; lia|]. cbn in Hs. rewrite take_0 in Hs. cbn in Hs. injection Hs as Hs.
      cbn [drop lhs] in Hpre. rewrite drop_0 in Hpre. inversion Hlr; subst. apply items_context in Hpre; [|done].
      cbn. by rewrite <- Hs, Hpre.
    + exfalso. destruct (item_symbols stk 138 1 _ Hlr Hit eq_refl) as (Hl & Hs & _ & [[? _]|Hpre]); [done|].
      destruct stk as [|f stk]; [cbn in Hl; lia|]. cbn [drop lhs] in Hpre. rewrite drop_0 in Hpre.
      inversion Hlr; subst. apply body_context in Hpre; [|done]. unfold opened in Ho, Hpre. cbn in Ho.
      by rewrite Hpre, orb_true_r in Ho.
  - exfalso. cbn in Hit. apply list_elem_of_singleton in Hit as [= ->]. vm_compute in Hn. injection Hn as <-.
    revert Hc. apply (bool_decide_unpack _). vm_compute. exact I.
Qed.

(** ** Runs *)

(** If no brace stands before [project] among the tokens, every run completes
    its project blocks at the top level. *)
Lemma leading_runs toks k syms c :
  Forall tok_good toks -> projects_lead false toks = true ->
  reach any_move (yyparse_start toks (initial_globals k syms)) c ->
  reach projects_at_top (yyparse_start toks (initial_globals k syms)) c.
Proof.
  intros Hg Hp Hr. induction Hr as [|c m c' Hr IH _ Hs]; [constructor|].
  eapply reach_step; [exact IH| |exact Hs]. intros i p -> Hi Ha.
  destruct (reach_ok _ _ _ _ _ Hg Hr) as [Hl _ _ _ _]. destruct (reach_leading _ _ _ Hp Hr) as [Hlead _].
  destruct (reduce_inv _ _ _ Hs) as (p' & st & v & g' & (Hi' & Hne & Hred & _) & _).
  rewrite Hi in Hi'. injection Hi' as <-.
  each_production (fun p => act p = A_project -> lhs p = nt_symbol_decl /\ length (rhs p) = 6%nat /\ head (rhs p) = Some (T KW_PROJECT)) Hi as Hb.
  destruct (Hb Ha) as (Hlhs & Hlen & Hhd).
  destruct (reducible_symbols _ _ _ Hl Hi Hred) as (Hle & Hsym & [?|Hpre]); [done|].
  apply declaration_context; [by apply lr_stack_drop| |by rewrite <- Hlhs].
  rewrite Hlen in *. destruct (yystack c) as [|f1 [|f2 [|f3 [|f4 [|f5 [|f6 below]]]]]]; [cbn in Hle; lia..|].
  rewrite Hsym in Hhd. cbn in Hhd. injection Hhd as Hk. destruct Hlead as (_ & _ & _ & _ & _ & Hop & _).
  cbn [drop]. rewrite drop_0. by apply Hop.
Qed.

(** The parser may stop in [c]: the tokens have no project block behind a brace,
    or the run did complete its blocks at the top level. *)
Definition parses_to (toks : list Token) (g : parse_globals) (c : yy_config) : Prop :=
  projects_lead false toks = true /\ reach any_move (yyparse_start toks g) c \/
  reach projects_at_top (yyparse_start toks g) c.

Lemma parses_at_top toks k syms c :
  Forall tok_good toks -> parses_to toks (initial_globals k syms) c ->
  reach projects_at_top (yyparse_start toks (initial_globals k syms)) c.
Proof. intros Hg [[Hl Hr]|Hr]; [by apply leading_runs|done]. Qed.
