(* ===== verification/ParsedDoc.v ===== *)
(** * The parsed document, from its text.

    The tree read off the arena of [ParseTree] has the layout that token
    owners and cursor queries rely on, and with the tokens of [Scanner] this
    holds for texts: the owners and the node under the cursor are the innermost
    declarations there. *)

From stdpp Require Import sorting.
From S2P Require Import Prelude Tokens Syntax Owners TokenQuery Lexer Scanner ScanOrder Grammar ParseSafety ParseTree ProjectBlocks.

(** [parse] after [yyparse] stopped in [c], on the text the scan [r] read. *)
Definition parse_output (r : list (bool * Token) * lex_state) (c : yy_config) : option ParseOutput :=
  root ← output_root (yyglobals c);
  Some (parse_finish root (g_spans r.2).1 (g_spans r.2).2 (g_includes (yyglobals c))).

(** ** Reading the arena *)

Definition reads (h : list pnode) (p : node_ptr) (t : tj_node) : Prop := exists fuel, read_tree fuel h p = Some t.

Lemma reads_inv h p t :
  reads h p t -> exists n, h !! p = Some n /\ tn_range t = pn_range n /\ tn_keyword t = pn_keyword n /\
    Forall2 (reads h) (pn_children n) (tn_children t).
Proof.
  intros [[|fuel] H]; [done|]. cbn in H. destruct (h !! p) as [n|]; [|done]. cbn in H.
  destruct (mapM _ _) as [cs|] eqn:E; [|done]. cbn in H. injection H as <-.
  exists n. split_and!; try done. cbn. apply mapM_Some in E.
  eapply Forall2_impl; [exact E|]. intros q c Hq. by exists fuel.
Qed.

Lemma nodup_bound (h : list pnode) (l : list node_ptr) :
  NoDup l -> Forall (fun p => is_Some (h !! p)) l -> (length l <= length h)%nat.
Proof.
  intros Hn Hf. rewrite <- (length_seq (length h) 0). apply submseteq_length, NoDup_submseteq; [done|].
  intros p Hp. rewrite Forall_forall in Hf. apply elem_of_seq. pose proof (Hf p Hp) as Hl.
  apply lookup_lt_is_Some in Hl. lia.
Qed.

(** Starts increase along descendants, so the arena bounds the depth. *)
Lemma read_total fuel h lo hi ps seen :
  forest h lo hi ps -> NoDup seen -> Forall (fun q => exists n, h !! q = Some n /\ pos_lt (rstart (pn_range n)) lo) seen ->
  (length h < length seen + fuel)%nat -> Forall (fun p => is_Some (read_tree fuel h p)) ps.
Proof.
  revert lo hi ps seen. induction fuel as [|fuel IH]; intros lo hi ps seen Hf Hnd Hs Hl.
  { exfalso. assert (length seen <= length h)%nat; [|lia]. apply nodup_bound; [done|].
    eapply Forall_impl; [exact Hs|]. intros q (n & -> & _). by eexists. }
  apply Forall_forall. intros p Hp.
  destruct (tree_node _ _ _ _ (forest_elem _ _ _ _ _ Hf Hp)) as (n & inner & Hn & Hlo & _ & _ & Hi & Hc).
  cbn. rewrite Hn. cbn.
  assert (Hcs : is_Some (mapM (read_tree fuel h) (pn_children n))).
  { apply mapM_is_Some_2. apply (IH inner _ _ (p :: seen) Hc).
    - constructor; [|done]. intros Hin. rewrite Forall_forall in Hs. destruct (Hs p Hin) as (n' & Hn' & Hlt).
      simplify_eq. pos_lia.
    - constructor; [by exists n|]. eapply Forall_impl; [exact Hs|]. intros q (n' & ? & ?). exists n'. split; [done|pos_lia].
    - cbn. lia. }
  destruct Hcs as [cs ->]. by eexists.
Qed.

Lemma output_root_total g hi :
  root_in (arena_nodes g) (root_children g) hi ->
  exists cs, output_root g = Some (set_children tj_node_new cs) /\ Forall2 (reads (arena_nodes g)) (root_children g) cs.
Proof.
  intros [Ht _]. unfold output_root. set (fuel := S _).
  assert (Hall : Forall (fun p => is_Some (read_tree fuel (arena_nodes g) p)) (root_children g)).
  { eapply Forall_impl; [exact Ht|]. intros p Hp.
    pose proof (read_total fuel _ _ _ _ [] Hp (NoDup_nil_2) (Forall_nil_2 _)) as H.
    specialize (H ltac:(subst fuel; cbn; lia)). by apply Forall_cons in H as [H _]. }
  destruct (mapM_is_Some_2 _ _ Hall) as [cs Hcs]. rewrite Hcs. exists cs. split; [done|].
  apply mapM_Some in Hcs. eapply Forall2_impl; [exact Hcs|]. intros p t Hp. by exists fuel.
Qed.

(** The nodes of a tree are nodes of the arena. *)
Lemma reads_node_at h p t q n :
  reads h p t -> node_at t q = Some n -> exists p' a, h !! p' = Some a /\ tn_range n = pn_range a.
Proof.
  revert p t. induction q as [|i q IH]; intros p t Hr Hn.
  - injection Hn as <-. destruct (reads_inv _ _ _ Hr) as (a & Ha & Hra & _). by exists p, a.
  - cbn in Hn. destruct (tn_children t !! i) as [c|] eqn:E; [|done].
    destruct (reads_inv _ _ _ Hr) as (a & _ & _ & _ & Hcs).
    destruct (Forall2_lookup_r _ _ _ _ _ Hcs E) as (x & _ & Hx). by eapply IH.
Qed.

(** A forest is a well-formed list of entries. *)
Lemma forest_entries h lo hi ps ts path k lo' :
  forest h lo hi ps -> Forall2 (reads h) ps ts -> pos_le lo' lo ->
  scope_wf child_entries lo' hi (imap (fun i c => (path ++ [(k + i)%nat], c)) ts).
Proof.
  intros Hf. revert ts path k lo'. induction Hf as [lo hi Hle|lo hi p n inner ps Hn Hlo Hz Hi Hc IHc Hps IHps];
    intros ts path k lo' Hts Hl.
  - apply Forall2_nil_inv_l in Hts as ->. constructor. pos_lia.
  - apply Forall2_cons_inv_l in Hts as (t & ts' & Ht & Hts & ->).
    destruct (reads_inv _ _ _ Ht) as (n' & Hn' & Hrg & _ & Hcs). simplify_eq.
    rewrite imap_cons. constructor.
    + unfold e_start. cbn. rewrite Hrg. pos_lia.
    + unfold e_start, e_end, child_entries. cbn. rewrite Hrg.
      apply (IHc _ (path ++ [(k + 0)%nat]) 0%nat); [done|by apply pos_lt_le].
    + unfold e_end. cbn. rewrite Hrg.
      replace (imap ((fun i c => (path ++ [(k + i)%nat], c)) ∘ S) ts') with
        (imap (fun i c => (path ++ [(S k + i)%nat], c)) ts').
      * by apply IHps.
      * apply imap_ext. intros i x _. cbn. by rewrite Nat.add_succ_r.
Qed.

(** ** The layout of the document *)

(** [compatible], of the nodes of the tree. *)
Definition siblings_ok (a b : tj_node) : Prop :=
  (pos_le (rend (tn_range a)) (rstart (tn_range b)) \/ pos_le (rend (tn_range b)) (rstart (tn_range a)) \/
   tn_keyword b = KW_PROJECT /\ pos_le (rstart (tn_range b)) (rstart (tn_range a)) /\
     pos_le (rend (tn_range a)) (rend (tn_range b)) \/
   tn_keyword a = KW_PROJECT /\ pos_le (rstart (tn_range a)) (rstart (tn_range b)) /\
     pos_le (rend (tn_range b)) (rend (tn_range a))) /\
  ~ (tn_keyword a = KW_PROJECT /\ tn_keyword b = KW_PROJECT).

Lemma siblings_ok_sym a b : siblings_ok a b -> siblings_ok b a.
Proof. unfold siblings_ok. intros [[?|[?|[?|?]]] Hn]; (split; [tauto|intros []; by apply Hn]). Qed.

Lemma compatible_siblings h p q a b :
  reads h p a -> reads h q b -> compatible h p q -> siblings_ok a b.
Proof.
  intros Ha Hb (x & y & Hx & Hy & Hr & Hn).
  destruct (reads_inv _ _ _ Ha) as (x' & Hx' & Ra & Ka & _). destruct (reads_inv _ _ _ Hb) as (y' & Hy' & Rb & Kb & _).
  rewrite Hx in Hx'. rewrite Hy in Hy'. injection Hx' as <-. injection Hy' as <-.
  unfold siblings_ok, nodes_apart, node_inside, project_node in *. rewrite Ra, Rb, Ka, Kb. tauto.
Qed.

Lemma sorted_read h ps ts :
  Forall2 (reads h) ps ts -> StronglySorted (compatible h) ps -> StronglySorted siblings_ok ts.
Proof.
  induction 1 as [|p t ps ts Hp Hps IH]; [constructor|]. intros [Hs Hf]%StronglySorted_inv. constructor; [by apply IH|].
  apply Forall_forall. intros t' [j Hj]%list_elem_of_lookup. destruct (Forall2_lookup_r _ _ _ _ _ Hps Hj) as (q & Hq & Hr).
  rewrite Forall_forall in Hf. eapply compatible_siblings; [done|exact Hr|]. apply Hf. by eapply list_elem_of_lookup_2.
Qed.

Lemma sorted_permutation {A} (R : A -> A -> Prop) l l' :
  (forall x y, R x y -> R y x) -> l ≡ₚ l' -> StronglySorted R l -> StronglySorted R l'.
Proof.
  intros Hsym. induction 1 as [|x l l' Hp IH|x y l|l1 l2 l3 _ IH1 _ IH2]; try done.
  - intros [Hs Hf]%StronglySorted_inv. constructor; [by apply IH|]. by rewrite <- Hp.
  - intros [[Hs Hfx]%StronglySorted_inv Hfy]%StronglySorted_inv. apply Forall_cons in Hfy as [Hyx Hfy].
    constructor; [by constructor|]. constructor; [by apply Hsym|done].
  - intros Hs. by apply IH2, IH1.
Qed.

Lemma sorted_lookup {A} (R : A -> A -> Prop) l i j x y :
  (forall x y, R x y -> R y x) -> StronglySorted R l -> l !! i = Some x -> l !! j = Some y -> i <> j -> R x y.
Proof.
  intros Hsym Hs. revert i j. induction Hs as [|z l _ IH Hz]; intros [|i] [|j] Hi Hj Hne; try done; cbn in Hi, Hj.
  - injection Hi as <-. rewrite Forall_forall in Hz. apply Hz. by eapply list_elem_of_lookup_2.
  - injection Hj as <-. rewrite Forall_forall in Hz. apply Hsym, Hz. by eapply list_elem_of_lookup_2.
  - eapply IH; [done..|]. congruence.
Qed.

(** What the arena gives of the children of the root, in any order. *)
Record children_ok (marks : LspPos -> Prop) (cs : list tj_node) : Prop := {
  ch_nested : Forall (fun c => pos_lt (rstart (tn_range c)) (rend (tn_range c)) /\
    forall path, scope_wf child_entries (rstart (tn_range c)) (rend (tn_range c)) (child_entries (path, c))) cs;
  ch_siblings : StronglySorted siblings_ok cs;
  ch_project : Forall (fun c => tn_keyword c = KW_PROJECT -> tn_children c = []) cs;
  ch_marks : Forall (fun c => forall q n, node_at c q = Some n -> marks (rstart (tn_range n))) cs
}.

Lemma children_ok_permutation marks cs cs' : cs ≡ₚ cs' -> children_ok marks cs -> children_ok marks cs'.
Proof.
  intros Hp [H1 H2 H3 H4]. split; [by rewrite <- Hp| |by rewrite <- Hp|by rewrite <- Hp].
  eapply sorted_permutation; [exact siblings_ok_sym|exact Hp|done].
Qed.

Lemma tree_children_ok marks h rc hi cs :
  root_in h rc hi -> heap_ok marks h -> Forall2 (reads h) rc cs -> children_ok marks cs.
Proof.
  intros [Ht Hs] Hh Hr.
  assert (Hin : forall c, c ∈ cs -> exists p n, reads h p c /\ h !! p = Some n /\ forest h zero_pos hi [p] /\
      tn_range c = pn_range n /\ tn_keyword c = pn_keyword n /\ Forall2 (reads h) (pn_children n) (tn_children c)).
  { intros c [j Hj]%list_elem_of_lookup. destruct (Forall2_lookup_r _ _ _ _ _ Hr Hj) as (p & Hp & Hpc).
    destruct (reads_inv _ _ _ Hpc) as (n & Hn & ? & ? & ?). exists p, n. split_and!; try done.
    rewrite Forall_forall in Ht. apply Ht. by eapply list_elem_of_lookup_2. }
  split; [..|by eapply sorted_read| |]; apply Forall_forall; intros c Hc;
    destruct (Hin c Hc) as (p & n & Hpc & Hn & Htr & Hrg & Hk & Hcs).
  - destruct (tree_end _ _ _ _ _ Htr Hn) as (_ & Hlt & _). rewrite Hrg. split; [done|]. intros path.
    destruct (tree_node _ _ _ _ Htr) as (n' & inner & Hn' & _ & _ & _ & Hi & Hf). simplify_eq.
    apply (forest_entries _ _ _ _ _ path 0%nat _ Hf Hcs). by apply pos_lt_le.
  - intros Hkp. destruct (Hh p n Hn) as [_ Hp]. rewrite Hk in Hkp. rewrite (Hp Hkp) in Hcs.
    by apply Forall2_nil_inv_l in Hcs.
  - intros q m Hq. destruct (reads_node_at _ _ _ _ _ Hpc Hq) as (p' & a & Ha & ->). by apply (Hh p' a).
Qed.

Section Document.
Context (marks : LspPos -> Prop) (cs : list tj_node) (Hok : children_ok marks cs).

Abbreviation root := (set_children tj_node_new cs).

Lemma root_entry e : e ∈ child_entries ([], root) -> exists i c, e = ([i], c) /\ cs !! i = Some c.
Proof. intros (i & c & Hc & ->)%elem_of_child_entries. by exists i, c. Qed.

Lemma entries_siblings a b :
  a ∈ child_entries ([], root) -> b ∈ child_entries ([], root) -> a <> b -> siblings_ok a.2 b.2.
Proof.
  intros (i & c & -> & Hi)%root_entry (j & d & -> & Hj)%root_entry Hne. cbn.
  eapply (sorted_lookup siblings_ok cs i j); [exact siblings_ok_sym|apply Hok|done|done|]. intros ->. apply Hne. congruence.
Qed.

Lemma found_project p : find_project root = Some p -> p ∈ child_entries ([], root) /\ tn_keyword p.2 = KW_PROJECT.
Proof.
  intros Hp. split; [by apply find_project_in|]. unfold find_project in Hp.
  destruct (list_find _ _) as [[i x]|] eqn:E; [|done]. cbn in Hp. injection Hp as <-. by apply list_find_Some in E as (_ & ? & _).
Qed.

(** The project block is found if there is one. *)
Lemma project_entry e : e ∈ child_entries ([], root) -> tn_keyword e.2 = KW_PROJECT -> find_project root = Some e.
Proof.
  intros He Hk. destruct (find_project root) as [p|] eqn:E.
  - destruct (found_project p E) as [Hp Hkp]. destruct (decide (p.1 = e.1)) as [Hpe|Hne].
    { by rewrite (child_entries_inj _ _ _ Hp He Hpe). }
    destruct (entries_siblings p e Hp He) as [_ Hn]; [congruence|]. by destruct Hn.
  - unfold find_project in E. destruct (list_find _ _) as [[i x]|] eqn:El; [done|].
    apply list_find_None in El. rewrite Forall_forall in El. by destruct (El e He).
Qed.

Lemma children_root_ok : root_ok root.
Proof.
  split.
  - intros e (i & c & -> & Hi)%root_entry. unfold e_start, e_end. cbn [snd].
    pose proof (ch_nested _ _ Hok) as Hn. rewrite Forall_forall in Hn.
    destruct (Hn c ltac:(by eapply list_elem_of_lookup_2)) as [Hlt Hs]. split; [done|apply Hs].
  - intros a b Ha Hb Hne Hp. destruct (entries_siblings a b Ha Hb Hne) as [Hor Hn]. unfold apart, within, e_start, e_end.
    destruct Hor as [?|[?|[(Hk & ? & ?)|(Hk & _)]]]; [by left; left|by left; right|right|].
    + split; [|done]. rewrite (project_entry b Hb Hk). cbn. by apply bool_decide_eq_true.
    + exfalso. rewrite (project_entry a Ha Hk) in Hp. cbn in Hp. by rewrite bool_decide_true in Hp.
Qed.

Lemma children_doc_ok tokens :
  (forall x, marks x -> exists t, t ∈ tokens /\ ts_start t = x) -> spans_sorted tokens -> no_eof tokens -> doc_ok root tokens.
Proof.
  intros Hm Hs He. split; try done; [apply children_root_ok|..].
  - intros p Hp. destruct (found_project p Hp) as [(i & c & -> & Hi)%root_entry Hk].
    pose proof (ch_project _ _ Hok) as Hc. rewrite Forall_forall in Hc. apply Hc; [by eapply list_elem_of_lookup_2|done].
  - intros [|i q] n Hq Hn; [done|]. cbn in Hn. destruct (cs !! i) as [c|] eqn:E; [|done].
    pose proof (ch_marks _ _ Hok) as Hc. rewrite Forall_forall in Hc. apply Hm. by eapply Hc; [eapply list_elem_of_lookup_2|].
Qed.
End Document.

(** The output of [parse], at whatever configuration [yyparse] stops. *)
Lemma parsed_doc_ok marks tokens toks kind syms c n includes :
  Forall tok_good toks -> placed marks zero_pos toks ->
  (forall x, marks x -> exists t, t ∈ tokens /\ ts_start t = x) -> spans_sorted tokens -> no_eof tokens ->
  reach projects_at_top (yyparse_start toks (initial_globals kind syms)) c ->
  exists root, output_root (yyglobals c) = Some root /\ doc_ok (po_root (parse_finish root tokens n includes)) tokens.
Proof.
  intros Hg Hp Hm Hs He Hr. destruct (tree_inv_root marks c) as (hi & Hroot & Hh); [by eapply reach_tree|].
  destruct (output_root_total _ _ Hroot) as (cs & -> & Hcs). eexists. split; [done|]. cbn [parse_finish po_root].
  apply (children_doc_ok marks); try done. apply (children_ok_permutation marks cs).
  - rewrite merge_sort_Permutation. unfold child_entries. rewrite fmap_imap. cbn [tn_children set_children snd].
    apply reflexive_eq, list_eq. intros i. rewrite list_lookup_imap. by destruct (cs !! i).
  - by eapply tree_children_ok.
Qed.

(** ** Texts *)

(** A declaration may start where a token was recorded. *)
Definition token_start (spans : list TokenSpan) (x : LspPos) : Prop := exists s, s ∈ spans /\ ts_start s = x.

Lemma placed_filter marks lo ts : placed marks lo (filter (fun t => tok_kind t <> TK_EOL) ts) -> placed marks lo ts.
Proof.
  revert lo. induction ts as [|t ts IH]; intros lo; [done|]. rewrite filter_cons. case_decide as Hk; cbn [placed].
  - destruct (positioned t); [intros [? ?]; split; [done|by apply IH]|by apply IH].
  - assert (Hp : positioned t = false); [|rewrite Hp; apply IH].
    unfold positioned. apply negb_false_iff, bool_decide_eq_true. rewrite Hk. by left.
Qed.

(** The closing braces the wrapper adds, and the end. *)
Lemma placed_closing marks lo p n :
  pos_le lo p -> placed marks lo (replicate n (synthetic_rbrace p) ++ [eof_token p]).
Proof.
  revert lo. induction n as [|n IH]; intros lo Hle; [done|]. cbn [replicate app placed]. split; [|by apply IH].
  split_and!; cbn; try done; reflexivity.
Qed.

Lemma tokens_placed src spans lo hi toks rest :
  fits src -> Forall (token_at src) toks -> tokens_follow spans lo hi toks -> pos_le zero_pos lo ->
  (forall lo', pos_le lo' hi -> placed (token_start spans) lo' rest) -> placed (token_start spans) lo (toks ++ rest).
Proof.
  intros Hf Ht. revert lo. induction Ht as [|t toks (Hk1 & Hk2 & Hta) _ IH]; intros lo; cbn [tokens_follow app placed]; [auto|].
  destruct (decide (tok_kind t = TK_ERROR)) as [Hk|Hk]; [rewrite bool_decide_true by done|rewrite bool_decide_false by done].
  - assert (Hp : positioned t = false) by (unfold positioned; rewrite Hk; reflexivity). rewrite Hp. apply IH.
  - destruct Hta as [?|(body & Hs & _)]; [done|]. destruct (stands_at_ok _ _ _ _ Hf Hs) as (_ & _ & Hlt & _).
    intros (H1 & H2 & H3) Hz Hr. assert (Hp : positioned t = true).
    { unfold positioned. apply negb_true_iff, bool_decide_eq_false. rewrite !elem_of_cons, elem_of_nil. tauto. }
    rewrite Hp. split; [|apply IH; [done|pos_lia|done]].
    split_and!; [done|by apply pos_lt_le|reflexivity|done|done].
Qed.

Lemma input_placed st est src :
  yy_start st = INITIAL -> fits src -> fresh est ->
  exists r toks, scan st src = Some r /\
    yylex_tokens (yylex_fuel r.1) (reset_eol_state est) (raw_of r) = Some toks /\
    Forall tok_good toks /\ placed (token_start (g_spans r.2).1) zero_pos toks /\
    spans_sorted (g_spans r.2).1 /\ no_eof (g_spans r.2).1.
Proof.
  intros Hm Hf He. destruct (parser_input_correct st est src Hm Hf He) as (ts & st' & out & Hs & Ht & Hy & Hfil & _).
  destruct (parser_input st est src Hm Hf He) as (r & toks & Hs2 & Hy2 & Hgood).
  rewrite Hs in Hs2. injection Hs2 as <-. cbn [fst] in Hy2. rewrite Hy in Hy2. injection Hy2 as <-.
  destruct (scan_inv st src Hm Hf) as (ts2 & st2 & Hs2 & _ & _ & _ & Hsp). rewrite Hs in Hs2. injection Hs2 as <- <-.
  exists (ts, st'), out. cbn [fst snd]. split_and!; [done|done| | | |].
  - eapply Forall_impl; [exact Hgood|]. apply from_input_good.
  - apply placed_filter. rewrite Hfil. eapply tokens_placed; [exact Hf|done|by eapply scan_follows|reflexivity|].
    intros lo Hle. by apply placed_closing.
  - eapply spans_apart_sorted, spans_from_apart, Hsp.
  - by eapply spans_inv_all.
Qed.

(** C7: For every text that fits flex's buffer, whatever the parse before left
    behind, whichever moves the tables pick and wherever [yyparse] stops, as long
    as no brace stands before [project] or the project blocks were completed at
    the top level of the file for another reason ([parses_to]): [parse] returns a document with the layout everything
    downstream relies on.  Declarations are not empty and start at recorded
    tokens, nested ones lie inside the outer ones in order, top-level ones do
    not overlap, and the body of the one project block, which has no children,
    lies inside the block. *)
Theorem parsed_document_ok st est src kind syms :
  yy_start st = INITIAL -> fits src -> fresh est ->
  exists r toks, scan st src = Some r /\
    yylex_tokens (yylex_fuel r.1) (reset_eol_state est) (raw_of r) = Some toks /\
    forall c, parses_to toks (initial_globals kind syms) c ->
      exists po, parse_output r c = Some po /\ doc_ok (po_root po) (po_tok_spans po).
Proof.
  intros Hm Hf He. destruct (input_placed st est src Hm Hf He) as (r & toks & Hs & Hy & Hg & Hp & Hsort & Heof).
  exists r, toks. split_and!; [done|done|]. intros c Hr%parses_at_top; [|done].
  destruct (parsed_doc_ok (token_start (g_spans r.2).1) (g_spans r.2).1 toks kind syms c (g_spans r.2).2 (g_includes (yyglobals c)))
    as (root & Hroot & Hok); try done.
  unfold parse_output. rewrite Hroot. eexists. split; [done|]. exact Hok.
Qed.

(** The node under the cursor, from the text: with the owners [parse] computed,
    [tj_node_at] answers with the innermost declaration that holds the
    position, the project block aside. *)
Theorem parsed_node_at_innermost st est src kind syms pos :
  yy_start st = INITIAL -> fits src -> fresh est -> pos_wf pos ->
  exists r toks, scan st src = Some r /\
    yylex_tokens (yylex_fuel r.1) (reset_eol_state est) (raw_of r) = Some toks /\
    forall c, parses_to toks (initial_globals kind syms) c ->
      exists po, parse_output r c = Some po /\
        let a := tj_node_at (po_root po) (po_tok_spans po) (po_tok_owners po) pos in
        (forall p, a = Some p -> exists n, p <> [] /\ node_at (po_root po) p = Some n /\ holds_pos (p, n) pos) /\
        (forall q n, q <> [] -> node_at (po_root po) q = Some n -> is_entry (find_project (po_root po)) (q, n) = false ->
           holds_pos (q, n) pos -> exists p, a = Some p /\ q `prefix_of` p).
Proof.
  intros Hm Hf He Hpos. destruct (input_placed st est src Hm Hf He) as (r & toks & Hs & Hy & Hg & Hp & Hsort & Heof).
  exists r, toks. split_and!; [done|done|]. intros c Hr%parses_at_top; [|done].
  destruct (parsed_doc_ok (token_start (g_spans r.2).1) (g_spans r.2).1 toks kind syms c (g_spans r.2).2 (g_includes (yyglobals c)))
    as (root & Hroot & Hok); try done.
  unfold parse_output. rewrite Hroot. eexists. split; [done|]. by apply tj_node_at_spec.
Qed.

(** ** Examples *)

Lemma drive_reach fuel c0 c : reach any_move c0 c -> reach any_move c0 (drive fuel c).
Proof.
  revert c. induction fuel as [|fuel IH]; intros c Hr; [done|]. cbn [drive].
  destruct (accepted c); [done|]. destruct (choose c) as [m|]; [|done].
  destruct (yy_step m c) as [c'| | |] eqn:E; try done. apply IH. by eapply reach_step.
Qed.

(** A project block with a broken task in it, then a task. *)
Definition project_text : list ascii :=
  chars "project p ~P~ 2024-01-01 +1y {\ task a ~A~ { start 2024-02-03\ task b ~B~ { depends !a\ } }\ task }\task c ~C~ { end 2024-05-06 }".

Definition text_scan (src : list ascii) : list (bool * Token) * lex_state := default ([], idle) (scan idle src).

Definition text_tokens (src : list ascii) : list Token :=
  default [] (yylex_tokens (yylex_fuel (text_scan src).1) (reset_eol_state initial_eol_state) (raw_of (text_scan src))).

Definition driven (src : list ascii) : yy_config :=
  drive 400 (yyparse_start (text_tokens src) (initial_globals DEP_KIND_DEPENDS [])).

Lemma driven_parses src :
  projects_lead false (text_tokens src) = true ->
  parses_to (text_tokens src) (initial_globals DEP_KIND_DEPENDS []) (driven src).
Proof. intros H. left. split; [exact H|]. apply drive_reach. constructor. Qed.

Lemma text_scan_eq src r : scan idle src = Some r -> text_scan src = r.
Proof. unfold text_scan. by intros ->. Qed.

Lemma text_tokens_eq src r toks :
  scan idle src = Some r -> yylex_tokens (yylex_fuel r.1) (reset_eol_state initial_eol_state) (raw_of r) = Some toks ->
  text_tokens src = toks.
Proof. intros Hs Hy. unfold text_tokens. rewrite (text_scan_eq _ _ Hs), Hy. done. Qed.

(** The declarations of a tree, in order. *)
Fixpoint outline (t : tj_node) : list string :=
  default ""%string (tn_id t) :: flat_map outline (tn_children t).

Lemma project_text_ok :
  fits project_text /\ fresh initial_eol_state /\
  projects_lead false (text_tokens project_text) = true /\ accepted (driven project_text) = true.
Proof. split_and!; vm_compute; reflexivity. Qed.

Lemma parsed_document_ok_witness :
  (fun po => outline (po_root po)) <$> parse_output (text_scan project_text) (driven project_text)
    = Some [""; "p"; "a"; "b"; "c"]%string /\
  exists po, parse_output (text_scan project_text) (driven project_text) = Some po /\ doc_ok (po_root po) (po_tok_spans po).
Proof.
  destruct project_text_ok as (Hf & He & Hd & _).
  split; [vm_compute; reflexivity|].
  destruct (parsed_document_ok idle initial_eol_state project_text DEP_KIND_DEPENDS [] eq_refl Hf He)
    as (r & toks & Hs & Hy & H).
  rewrite (text_scan_eq _ _ Hs). apply H. rewrite <- (text_tokens_eq _ _ _ Hs Hy). exact (driven_parses project_text Hd).
Defined.

Lemma parsed_node_at_innermost_witness :
  (fun po => tj_node_at (po_root po) (po_tok_spans po) (po_tok_owners po) (mkPos 2 20))
      <$> parse_output (text_scan project_text) (driven project_text) = Some (Some [1; 0]%nat) /\
  exists po, parse_output (text_scan project_text) (driven project_text) = Some po /\
    forall p, tj_node_at (po_root po) (po_tok_spans po) (po_tok_owners po) (mkPos 2 20) = Some p ->
      exists n, p <> [] /\ node_at (po_root po) p = Some n /\ holds_pos (p, n) (mkPos 2 20).
Proof.
  destruct project_text_ok as (Hf & He & Hd & _).
  split; [vm_compute; reflexivity|].
  destruct (parsed_node_at_innermost idle initial_eol_state project_text DEP_KIND_DEPENDS [] (mkPos 2 20) eq_refl Hf He
    ltac:(vm_compute; repeat split; congruence)) as (r & toks & Hs & Hy & H).
  rewrite (text_scan_eq _ _ Hs). destruct (H (driven project_text)) as (po & Hpo & Hin & _).
  { rewrite <- (text_tokens_eq _ _ _ Hs Hy). exact (driven_parses project_text Hd). }
  exists po. split; [exact Hpo|exact Hin].
Defined.
