(* ===== verification/LiveDocs.v ===== *)
(** * The documents the server works on.

    The scheduler and the notification handlers of [Server] and [Lifecycle]
    with the scanner and the parser of [Scanner] and [Grammar] behind
    [yyparse]: what a query handler reads has the layout [ParsedDoc] proves of
    parsed texts. *)

From S2P Require Import Prelude CText PathUri Tokens Syntax Owners TokenQuery Store Workspace Assembly Rpc.
From S2P Require Import TextSync Revalidate Lifecycle QueryContext JobQueue Server Lexer Scanner ScanOrder Grammar ParseSafety ParseTree.
From S2P Require Import ProjectBlocks ParsedDoc.

Definition text_of (s : string) : list ascii := list_ascii_of_string s.

(** No brace stands before [project] in the text. *)
Definition text_leads (src : list ascii) : Prop :=
  forall st r, yy_start st = INITIAL -> scan st src = Some r -> projects_lead false r.1.*2 = true.

(** The parser is the one of the grammar: from whatever the parse before left
    behind it makes moves of the automaton on the tokens of the text, and if the
    nodes it leaves form a tree, the result is that tree with the recorded
    tokens and includes. *)
Definition by_the_grammar : Lawful := fun E =>
  forall src, fits (text_of src) ->
  exists st est kind syms r toks c,
    yy_start st = INITIAL /\ fresh est /\ scan st (text_of src) = Some r /\
    yylex_tokens (yylex_fuel r.1) (reset_eol_state est) (raw_of r) = Some toks /\
    reach any_move (yyparse_start toks (initial_globals kind syms)) c /\
    forall root, output_root (yyglobals c) = Some root ->
      yyparse src = mkYyparse root (g_spans r.2).1 (g_spans r.2).2 (g_includes (yyglobals c)).

(** ** The tokens of the wrapper *)

Lemma projects_lead_filter seen toks :
  projects_lead seen (filter (fun t => tok_kind t <> TK_EOL) toks) = projects_lead seen toks.
Proof.
  revert seen. induction toks as [|t toks IH]; intros seen; [done|]. rewrite filter_cons. case_decide as Hk; cbn [projects_lead].
  - by rewrite IH.
  - assert (He : tok_kind t = TK_EOL) by (destruct (decide (tok_kind t = TK_EOL)); tauto).
    rewrite IH, He. by destruct seen.
Qed.

Lemma projects_lead_closing seen toks p n :
  projects_lead seen (toks ++ replicate n (synthetic_rbrace p) ++ [eof_token p]) = projects_lead seen toks.
Proof.
  revert seen. induction toks as [|t toks IH]; intros seen; cbn [app projects_lead]; [|by rewrite IH].
  induction n as [|n IHn]; cbn [replicate app projects_lead]; [by destruct seen|]. by destruct seen.
Qed.

(** ** Snapshots *)

(** What the handlers assume of a document. *)
Definition laid_out (sn : doc_snapshot) : Prop :=
  doc_ok (snap_root sn) (snap_tok_spans sn) /\
  snap_tok_owners sn = assign_token_owners (snap_root sn) (snap_tok_spans sn).

(** How a snapshot was made. *)
Lemma snapshot_parsed sn :
  parse_of (H := by_the_grammar) sn -> fits (text_of (snap_text sn)) -> text_leads (text_of (snap_text sn)) ->
  exists st est kind syms r toks c root,
    yy_start st = INITIAL /\ fresh est /\ scan st (text_of (snap_text sn)) = Some r /\
    yylex_tokens (yylex_fuel r.1) (reset_eol_state est) (raw_of r) = Some toks /\
    reach projects_at_top (yyparse_start toks (initial_globals kind syms)) c /\
    output_root (yyglobals c) = Some root /\
    let po := parse_finish root (g_spans r.2).1 (g_spans r.2).2 (g_includes (yyglobals c)) in
    doc_ok (po_root po) (po_tok_spans po) /\
    sn = docsnap_new (snap_uri sn) (snap_text sn) po (doc_version sn).
Proof.
  intros (E & v & HE & ->) Hf Hl. cbn [docsnap_new snap_text] in Hf, Hl. set (src := snap_text sn) in *.
  destruct (HE src Hf) as (st & est & kind & syms & r & toks & c & Hm & He & Hs & Hy & Hr & Hres).
  destruct (input_placed st est (text_of src) Hm Hf He) as (r' & toks' & Hs' & Hy' & Hg & Hp & Hsort & Heof).
  rewrite Hs in Hs'. injection Hs' as <-. rewrite Hy in Hy'. injection Hy' as <-.
  assert (Hlead : projects_lead false toks = true).
  { destruct (parser_input_correct st est (text_of src) Hm Hf He) as (ts & st' & out & Hs2 & _ & Hy2 & Hfil & _).
    rewrite Hs in Hs2. injection Hs2 as ->. cbn [fst] in Hy. rewrite Hy in Hy2. injection Hy2 as <-.
    rewrite <- projects_lead_filter, Hfil, projects_lead_closing. by apply (Hl st (ts, st')). }
  apply leading_runs in Hr; [|done..].
  destruct (parsed_doc_ok (token_start (g_spans r.2).1) (g_spans r.2).1 toks kind syms c (g_spans r.2).2 (g_includes (yyglobals c)))
    as (root & Hroot & Hok); try done.
  exists st, est, kind, syms, r, toks, c, root. split_and!; try done. unfold parse. by rewrite (Hres root Hroot).
Qed.

Lemma snapshot_laid_out sn :
  parse_of (H := by_the_grammar) sn -> fits (text_of (snap_text sn)) -> text_leads (text_of (snap_text sn)) -> laid_out sn.
Proof.
  intros Hp Hf Hl. destruct (snapshot_parsed sn Hp Hf Hl) as (_ & _ & _ & _ & r & _ & c & root & _ & _ & _ & _ & _ & _ & Hok & ->).
  by split.
Qed.

(** ** Queries *)

Lemma elem_of_parsed_view idx i docs w :
  w ∈ ws_view idx i docs -> exists d, d ∈ docs /\ is_parsed d = true /\ wd_snap w = d_snap d.
Proof.
  revert i. induction docs as [|d docs IH]; intros i; cbn [ws_view]; [by intros ?%not_elem_of_nil|].
  assert (Hrest : w ∈ ws_view idx (S i) docs -> exists d0, d0 ∈ d :: docs /\ is_parsed d0 = true /\ wd_snap w = d_snap d0).
  { intros Hw. destruct (IH _ Hw) as (d0 & ? & ?). exists d0. split; [by right|done]. }
  destruct (is_parsed d) eqn:Hd; [|done]. intros [->|Hw]%elem_of_cons; [|by apply Hrest].
  exists d. split; [by left|done].
Qed.

(** The documents of a pinned context are documents of the table. *)
Lemma pinned_documents `{Yyjson} `{LW : Lawful} (E : Env) s uri all qd b :
  server_ok s -> published s -> (qd, b) ∈ qc_docs (@build_query_context_locked E s uri all) ->
  exists d, d ∈ sv_docs s /\ d_in_use d = true /\ d_snap d = Some (qd_snap qd).
Proof.
  intros [Hok _] Hpub Hin. unfold build_query_context_locked in Hin. destruct (g_ws s) as [ws|] eqn:Hws; [|by apply not_elem_of_nil in Hin].
  destruct Hpub as [[? _]|(E' & status & Hg)]; [congruence|]. rewrite Hws in Hg. injection Hg as ->.
  assert (Hl : length (sv_docs s) = MAX_DOCS) by apply Hok.
  destruct (@build_form E' (sv_docs s) status Hl) as (vs & _ & Hb).
  set (ws := build_workspace_snapshot _ _) in *.
  set (canon := _ ≫= d_uri) in Hin. set (proj := primary_project canon (ws_docs ws)) in Hin.
  pose proof (collect_docs_spec canon all proj (ws_docs ws) 0 None) as Hc.
  destruct (collect_docs canon all proj (ws_docs ws) 0 None) as [docs idx]. cbn [qc_docs] in Hin.
  destruct Hc as [Hc _]. apply Hc in Hin as (w & sn & Hw & Hsn & _ & -> & _). rewrite Hb in Hw. cbn [ws_docs] in Hw.
  apply elem_of_parsed_view in Hw as (d & Hd & Hp & Hsd). exists d. split; [done|]. unfold is_parsed in Hp.
  apply andb_true_iff in Hp as [Hu _]. split; [done|]. cbn. by rewrite <- Hsd.
Qed.

(** C8: The server answers queries from laid-out documents.  In every state of
    the pool, whatever messages arrived and however the threads were scheduled, a
    document in the hands of a query whose text fits flex's buffer and has no
    brace before [project] is a parse of the text the client's messages had left
    in that document when the query arrived; its declarations nest and are in order ([doc_ok]),
    its token owners are those of its tree, and the node found at a position is
    the innermost declaration there, where the project block itself need not be
    found. *)
Theorem queries_see_laid_out_documents `{QueryHandlers} p j qc qd b :
  reachable (LW := by_the_grammar) p -> j ∈ handed p -> context j = Some qc -> (qd, b) ∈ qc_docs qc ->
  fits (text_of (snap_text (qd_snap qd))) -> text_leads (text_of (snap_text (qd_snap qd))) ->
  laid_out (qd_snap qd) /\
  (exists s d, runs (LW := by_the_grammar) (take (job_no j) (pl_processed p)) s /\ d ∈ sv_docs s /\
     d_in_use d = true /\ d_text d = Some (snap_text (qd_snap qd))) /\
  forall pos, pos_wf pos ->
    let a := tj_node_at (qd_root qd) (qd_tok_spans qd) (snap_tok_owners (qd_snap qd)) pos in
    (forall q, a = Some q -> exists n, q <> [] /\ node_at (qd_root qd) q = Some n /\ holds_pos (q, n) pos) /\
    (forall q n, q <> [] -> node_at (qd_root qd) q = Some n -> is_entry (find_project (qd_root qd)) (q, n) = false ->
       holds_pos (q, n) pos -> exists q', a = Some q' /\ q `prefix_of` q').
Proof.
  intros Hr Hj Hc Hqd Hf Hl. pose proof (reachable_inv (LW := by_the_grammar) p Hr) as Hok.
  pose proof (ok_pinned p Hok) as Hp. rewrite Forall_forall in Hp. destruct (Hp j Hj) as (_ & _ & _ & E & s & Hs & Hctx).
  rewrite Hc in Hctx. injection Hctx as ->. pose proof (runs_reachable _ _ Hs) as Hrs.
  destruct (server_state_ok s Hrs) as (Hso & _ & Hpub).
  destruct (pinned_documents E s _ _ qd b Hso Hpub Hqd) as (d & Hd & Hu & Hsn).
  destruct Hso as [_ Hsync]. rewrite Forall_forall in Hsync. destruct (Hsync d Hd _ Hsn) as [Htext Hparse].
  pose proof (snapshot_laid_out _ Hparse Hf Hl) as Hlay. split_and!; [done|by exists s, d|].
  intros pos Hpos. destruct Hlay as [Hdoc Howners]. rewrite Howners. by apply tj_node_at_spec.
Qed.

(** ** A session *)

(** The parser as it is run in [Grammar]. *)
Definition grammar_parse (src : string) : yyparse_result :=
  let r := text_scan (text_of src) in
  let c := driven (text_of src) in
  match output_root (yyglobals c) with
  | Some root => mkYyparse root (g_spans r.2).1 (g_spans r.2).2 (g_includes (yyglobals c))
  | None => mkYyparse tj_node_new [] 0 []
  end.

(** One file, with an error in it. *)
Definition live_text : string := string_of_list_ascii (chars "task a ~A~ {\ task b ~B~ { depends !c }\ task }").

Definition grammar_env : Env :=
  mkEnv (fun _ => None) (fun p => if bool_decide (p = "/w/a.tjp"%string) then Some live_text else None) grammar_parse.

Lemma grammar_env_lawful : by_the_grammar grammar_env.
Proof.
  intros src Hf. destruct (parser_input idle initial_eol_state (text_of src) eq_refl Hf eq_refl) as (r & toks & Hs & Hy & _).
  exists idle, initial_eol_state, DEP_KIND_DEPENDS, [], r, toks, (driven (text_of src)).
  pose proof (text_tokens_eq _ _ _ Hs Hy) as Ht. split_and!; [done|done|done|done| |].
  - rewrite <- Ht. apply drive_reach. constructor.
  - intros root Hroot. cbn [grammar_env yyparse]. unfold grammar_parse. by rewrite Hroot, (text_scan_eq _ _ Hs).
Qed.

(** Startup loads the file; a hover on it is handed to a worker. *)
Definition live_schedule : list Server.action :=
  (Act_message <$>
    [ message "initialize" (Some 1%Z) root_params;
      message "initialized" None (JObj []);
      message "textDocument/hover" (Some 2%Z) (JObj [("textDocument", text_document "file:///w/a.tjp" [])]) ]%string) ++
  replicate 6 Act_coordinator ++ [Act_coordinator; Act_worker 0].

Definition live_pool : pool := run_from_start grammar_env live_schedule.

Lemma live_text_leads : text_leads (text_of live_text).
Proof.
  intros st r Hm Hs. destruct st. cbn in Hm. subst. vm_compute in Hs. injection Hs as <-. vm_compute. reflexivity.
Qed.

(** The first document of the first query in the hands of the workers. *)
Definition first_view (p : pool) : option (Job * query_context * query_doc * bool) :=
  j ← handed p !! 0%nat; qc ← context j; d ← qc_docs qc !! 0%nat; Some (j, qc, d.1, d.2).

Lemma first_view_spec p j qc qd b :
  first_view p = Some (j, qc, qd, b) -> j ∈ handed p /\ context j = Some qc /\ (qd, b) ∈ qc_docs qc.
Proof.
  unfold first_view. destruct (handed p !! 0%nat) as [j'|] eqn:Ej; [|done]. cbn.
  destruct (context j') as [qc'|] eqn:Ec; [|done]. cbn. destruct (qc_docs qc' !! 0%nat) as [[qd' b']|] eqn:Ed; [|done].
  cbn. intros [= -> -> -> ->]. split_and!; [by eapply list_elem_of_lookup_2|done|by eapply list_elem_of_lookup_2].
Qed.

Lemma live_view :
  exists j qc qd b, first_view live_pool = Some (j, qc, qd, b) /\
    outline (qd_root qd) = [""; "a"; "b"]%string /\ snap_text (qd_snap qd) = live_text.
Proof.
  assert (H : option_map (fun v => (outline (qd_root v.1.2), snap_text (qd_snap v.1.2))) (first_view live_pool)
      = Some ([""; "a"; "b"]%string, live_text)) by (vm_compute; reflexivity).
  destruct (first_view live_pool) as [[[[j qc] qd] b]|]; [|discriminate H].
  exists j, qc, qd, b. split; [reflexivity|]. cbn [option_map fst snd] in H. revert H.
  generalize (outline (qd_root qd)), (snap_text (qd_snap qd)), live_text. intros o s s' [= -> ->]. done.
Qed.

Lemma live_text_fits : fits (text_of live_text).
Proof. vm_compute. reflexivity. Qed.

Lemma live_pool_reachable : reachable (LW := by_the_grammar) live_pool.
Proof. exact (run_from_start_reachable grammar_env live_schedule grammar_env_lawful). Qed.

Lemma queries_see_laid_out_documents_witness :
  exists j qc qd b, first_view live_pool = Some (j, qc, qd, b) /\
    outline (qd_root qd) = [""; "a"; "b"]%string /\ laid_out (qd_snap qd).
Proof.
  destruct live_view as (j & qc & qd & b & Hv & Ho & Ht). exists j, qc, qd, b. split; [exact Hv|]. split; [exact Ho|].
  destruct (first_view_spec _ _ _ _ _ Hv) as (Hj & Hc & Hd).
  apply (queries_see_laid_out_documents live_pool j qc qd b live_pool_reachable Hj Hc Hd); rewrite Ht.
  - exact live_text_fits.
  - exact live_text_leads.
Defined.
