(* ===== verification/Positions.v ===== *)
(** * Positions from text to tree.

    A position in a token, in the tree and in the dependencies is a pair of
    [uint32_t] whatever the text and whichever moves the parser tables pick:
    through the scanner, the terminator wrapper and the semantic actions. *)

From stdpp Require Import sorting.
From S2P Require Import Prelude CText Tokens Syntax Owners TokenQuery Lexer Flex Scanner Grammar ParseSafety ParseTree ParsedDoc.

Definition tok_wf (t : Token) : Prop := pos_wf (tok_start t) /\ pos_wf (tok_end t).

Lemma here_wf st : pos_wf (here st).
Proof. split; apply u32_is_u32. Qed.
#[export] Hint Resolve zero_pos_wf here_wf : tjlsp.

(** ** The scanner *)

(** Where a body is being read its start is known. *)
Definition marked (st : lex_state) : Prop := yy_start st = INITIAL \/ pos_wf (tok_sl_sc st) /\ pos_wf (mfrag_sl_sc st).

Definition token_wf (t : option Token) : Prop := forall t', t = Some t' -> tok_wf t'.

Lemma user_action_tok w st : pos_wf (tok_sl_sc (YY_USER_ACTION w st)).
Proof. split; apply u32_is_u32. Qed.

Lemma append_fields s st : tok_sl_sc (STR_APPEND s st) = tok_sl_sc st /\ mfrag_sl_sc (STR_APPEND s st) = mfrag_sl_sc st /\
  yy_start (STR_APPEND s st) = yy_start st.
Proof. unfold STR_APPEND. by case_match. Qed.

Lemma plain_tok code w st : tok_wf (emit_plain code w st).2 <-> pos_wf (tok_sl_sc st).
Proof. unfold tok_wf. cbn. split; [by intros []|by split; [|apply here_wf]]. Qed.

Lemma plain_mode code w st : yy_start (emit_plain code w st).1 = yy_start st.
Proof. unfold emit_plain. by destruct (emit_plain_record code). Qed.

Lemma action_positions st input w a : marked st -> match_ok (yy_start st) input w a ->
  let r := Scanner.run_action a w (YY_USER_ACTION w st) in marked r.1 /\ token_wf r.2.
Proof.
  intros Hm Hok. pose proof (user_action_tok w st) as Ht. set (st1 := YY_USER_ACTION w st) in *.
  assert (Hy : yy_start st1 = yy_start st) by done. assert (Hf : mfrag_sl_sc st1 = mfrag_sl_sc st) by done.
  assert (Hin : yy_start st <> INITIAL -> pos_wf (mfrag_sl_sc st1)) by (rewrite Hf; intros Hne; by destruct Hm as [?|[_ ?]]).
  clearbody st1.
  assert (Hdone : forall st' t, yy_start st' = INITIAL -> tok_wf t -> marked st' /\ token_wf (Some t)).
  { intros st' t Hs Hw. split; [by left|]. by intros t' [= <-]. }
  destruct a as [| | |m delim| | |delim|code delim| |code|code|]; cbn [Scanner.run_action fst snd].
  1-3: destruct Hok as [Hm0 _]; split; [left; cbn; by rewrite Hy|done].
  - split; [|done]. right. cbn. destruct (append_fields (list_ascii_of_string delim) (set_buf [] (mark_fragment st1))) as (-> & -> & _).
    by split.
  - destruct Hok as [Hne _]. split; [|done]. right. destruct (append_fields w st1) as (-> & -> & _). auto.
  - destruct Hok as [Hne _]. split; [|done]. right. cbn. destruct (append_fields w st1) as (-> & -> & _). split; [done|].
    apply Hin. intros E. rewrite E in Hne. apply (bool_decide_pack _) in Hne. by vm_compute in Hne.
  - split; [by left|done].
  - destruct Hok as [Hne _]. apply Hdone; [done|]. cbn. destruct (append_fields (list_ascii_of_string delim) st1) as (_ & E & _).
    split; cbn; [rewrite E; auto|split; apply u32_is_u32].
  - apply Hdone; [by rewrite plain_mode|by apply plain_tok].
  - destruct Hok as [Hm0 _]. apply Hdone; [cbn; by rewrite Hy|by split; [|apply here_wf]].
  - destruct Hok as [Hm0 _]. apply Hdone; [by rewrite plain_mode, Hy|by apply plain_tok].
  - destruct Hok as [Hne _]. split; [|done]. right. split; [done|]. apply Hin. intros E. rewrite E in Hne. apply (bool_decide_pack _) in Hne. by vm_compute in Hne.
Qed.

Lemma yy_step_positions st input : marked st ->
  let '(st', _, r) := Scanner.yy_step st input in marked st' /\ token_wf (match r with Return t => t | Continue => None end).
Proof.
  intros Hm. unfold Scanner.yy_step. destruct input as [|c input].
  { case_bool_decide as Hi; [by split|]. destruct Hm as [?|[Ht Hf]]; [done|]. split; [by left|]. intros t [= <-].
    split; [done|apply here_wf]. }
  destruct (default (1%nat, Default) (yy_match (rules (yy_start st)) (c :: input))) as [n a] eqn:Hy.
  assert (Hok : match_ok (yy_start st) (c :: input) (take n (c :: input)) a).
  { destruct (yy_match _ _) as [[n' a']|] eqn:E; cbn in Hy; simplify_eq; [by apply rule_ok|by apply default_ok]. }
  pose proof (action_positions st _ _ a Hm Hok) as [H1 H2]. cbn zeta in *.
  destruct (Scanner.run_action _ _ _) as [st' [t|]]; by split.
Qed.

Lemma raw_yylex_positions fuel : forall st input t st' input', marked st ->
  Scanner.raw_yylex fuel st input = Some (t, st', input') -> marked st' /\ token_wf t.
Proof.
  induction fuel as [|fuel IH]; intros st input t st' input' Hm H; [done|]. cbn in H.
  pose proof (yy_step_positions st input Hm) as Hs. destruct (Scanner.yy_step st input) as [[st1 input1] [|t1]]; destruct Hs as [Hm1 Ht].
  - by eapply IH.
  - by injection H as <- <- <-.
Qed.

Lemma scan_tokens_positions fuel : forall st input r, marked st -> scan_tokens fuel st input = Some r -> Forall (fun x => tok_wf x.2) r.1.
Proof.
  induction fuel as [|fuel IH]; intros st input r Hm H; [done|]. cbn [scan_tokens] in H.
  destruct (Scanner.raw_yylex _ _ _) as [[[t st1] input1]|] eqn:E; [|done].
  apply raw_yylex_positions in E as [Hm1 Ht]; [|by destruct Hm; [left|right]]. destruct t as [t|].
  - apply fmap_Some in H as (r' & Hr & ->). constructor; [by apply Ht|by eapply IH].
  - injection H as <-. constructor.
Qed.

Lemma scan_positions st src r : yy_start st = INITIAL -> scan st src = Some r -> Forall (fun x => tok_wf x.2) r.1.
Proof. intros Hm. apply scan_tokens_positions. by left. Qed.

(** ** The wrapper *)

Definition raw_wf (r : raw_scanner) : Prop := Forall (fun x => tok_wf x.2) (raw_tokens r) /\ pos_wf (raw_eof r).

Lemma next_token_positions st r : raw_wf r -> (forall t, g_buffered st = Some t -> tok_wf t) ->
  tok_wf (next_token st r).1.2 /\ raw_wf (next_token st r).2.
Proof.
  intros [Ht He] Hb. unfold next_token. destruct (g_buffered st) as [t|]; [by split; [apply Hb|]|].
  unfold Lexer.raw_yylex. destruct (raw_tokens r) as [|[nl t] ts].
  - assert (Hnil : raw_wf (mkRaw [] false (raw_eof r))) by (by split; [constructor|]).
    case_match; (split; [exact (conj He He)|exact Hnil]).
  - apply Forall_cons in Ht as [Ht Hts]. assert (Htl : raw_wf (mkRaw ts (raw_eof_newline r) (raw_eof r))) by by split.
    case_match; (split; [|exact Htl]); [exact (conj He He)|exact Ht].
Qed.

Lemma yylex_tokens_positions fuel : forall st r toks, raw_wf r -> (forall t, g_buffered st = Some t -> tok_wf t) ->
  yylex_tokens fuel st r = Some toks -> Forall tok_wf toks.
Proof.
  induction fuel as [|fuel IH]; intros st r toks Hr Hb H; [done|]. cbn [yylex_tokens] in H. unfold yylex in H.
  pose proof (next_token_positions st r Hr Hb) as [Ht Hr']. destruct (next_token st r) as [[nl t] r']. cbn [fst snd] in *.
  destruct (g_prev_can_end st && _).
  - cbn in H. apply fmap_Some in H as (ts & Hts & ->). constructor; [by split; apply zero_pos_wf|].
    eapply IH; [exact Hr'| |exact Hts]. by intros t' [= <-].
  - case_bool_decide; [injection H as <-; by constructor|]. apply fmap_Some in H as (ts & Hts & ->). constructor; [done|].
    eapply IH; [exact Hr'| |exact Hts]. unfold track_token. by repeat case_match.
Qed.

(** What the parser reads. *)
Lemma parser_tokens_wf st est src r toks : yy_start st = INITIAL -> fresh est -> scan st src = Some r ->
  yylex_tokens (yylex_fuel r.1) (reset_eol_state est) (raw_of r) = Some toks -> Forall tok_wf toks.
Proof.
  intros Hm He Hs. apply yylex_tokens_positions; [|done]. split; [by eapply scan_positions|apply here_wf].
Qed.

(** ** The parser *)

Definition anode_wf (n : pnode) : Prop :=
  range_wf (Grammar.pn_range n) /\ range_wf (Grammar.pn_selection_range n) /\
  Forall (fun d => range_wf (source_range d)) (Grammar.pn_dependencies n).

Definition value_wf (v : value) : Prop :=
  match v with
  | VTok t => tok_wf t
  | VBody _ e => pos_wf e
  | VRef _ _ s e => pos_wf s /\ pos_wf e
  | _ => True
  end.

Definition nodes_wf (g : parse_globals) : Prop := Forall anode_wf (arena_nodes g).

Section Actions.
Context (vs : list value) (n : nat).
Hypothesis Hvs : Forall value_wf vs.

Lemma arg_wf i v : arg vs n i = Some v -> value_wf v.
Proof. unfold arg. rewrite Forall_lookup in Hvs. apply Hvs. Qed.

Lemma arg_tok_wf i t : arg_tok vs n i = Some t -> tok_wf t.
Proof. intros (v & Hv & Ht)%bind_Some. apply arg_wf in Hv. destruct v; simplify_eq/=. done. Qed.

Lemma arg_opt_tok_wf i t : arg_opt_tok vs n i = Some t -> tok_wf t.
Proof. destruct i as [i|]; [apply arg_tok_wf|]. intros [= <-]. by split; apply zero_pos_wf. Qed.

Lemma arg_body_wf i b : arg vs n i ≫= as_body = Some b -> pos_wf b.2.
Proof. intros (v & Hv & Hb)%bind_Some. apply arg_wf in Hv. by destruct v; simplify_eq/=. Qed.

Lemma arg_ref_wf i b p s e : arg vs n i ≫= as_ref = Some (b, p, s, e) -> pos_wf s /\ pos_wf e.
Proof. intros (v & Hv & Hb)%bind_Some. apply arg_wf in Hv. by destruct v; simplify_eq/=. Qed.

Lemma update_wf p f g g' : nodes_wf g -> (forall nd, anode_wf nd -> anode_wf (f nd)) -> update_node p f g = Some g' -> nodes_wf g'.
Proof.
  intros Hg Hf (nd & Hp & [= <-])%bind_Some. unfold nodes_wf in *. cbn. apply Forall_alter; [done|]. intros x _. apply Hf.
Qed.

Lemma alloc_wf kw id name g : nodes_wf g -> tok_wf kw -> tok_wf id -> nodes_wf (alloc_tj_node kw id name g).2.
Proof.
  intros Hg [? ?] [? ?]. unfold alloc_tj_node.
  destruct (match tok_text id with Some _ => _ | None => _ end) as [i sel] eqn:E. cbn. apply Forall_app. split; [done|].
  constructor; [|constructor]. split_and!; cbn; [by split; [|apply zero_pos_wf]|destruct (tok_text id); simplify_eq; by split|constructor].
Qed.

Lemma finish_wf e cs nd : pos_wf e -> anode_wf nd -> anode_wf (pn_finish e cs nd).
Proof. intros He ([Hs _] & Hsel & Hd). by split_and!. Qed.

Lemma range_end_wf kw e : tok_wf kw -> pos_wf e -> pos_wf (range_end kw e).
Proof. intros [_ ?] He. unfold range_end. by case_bool_decide. Qed.

Definition keeps_positions (r : option (value * parse_globals)) : Prop :=
  forall v g, r = Some (v, g) -> value_wf v /\ nodes_wf g.

Lemma keeps_value (v : option value) g : nodes_wf g -> (forall v', v = Some v' -> value_wf v') ->
  keeps_positions (v ← v; Some (v, g)).
Proof. intros Hg Hv v' g' (w & Hw & [= -> ->])%bind_Some. by split; [apply Hv|]. Qed.

Lemma keeps_effect (g : option parse_globals) : (forall g', g = Some g' -> nodes_wf g') -> keeps_positions (g ← g; Some (VNone, g)).
Proof. intros Hg v g' (w & Hw & [= <- ->])%bind_Some. by split; [|apply Hg]. Qed.

Lemma keeps_done v g : value_wf v -> nodes_wf g -> keeps_positions (Some (v, g)).
Proof. by intros ? ? v' g' [= <- <-]. Qed.

Lemma date_wf start g g' : nodes_wf g -> date_action vs n start g = Some g' -> nodes_wf g'.
Proof.
  intros Hg. unfold date_action. destruct (sym_stack_top g) as [task|]; [|by intros [= <-]].
  intros (nd & _ & H)%bind_Some. case_bool_decide; [|by injection H as <-]. apply bind_Some in H as (t & _ & H).
  match goal with H : context [match ?x with Some _ => _ | None => Some g end] |- _ => destruct x end; [|by injection H as <-]. eapply update_wf; [exact Hg| |exact H]. intros x Hx. by destruct start.
Qed.

Lemma dep_ref_wf g g' : nodes_wf g -> dep_ref_action vs n g = Some g' -> nodes_wf g'.
Proof.
  intros Hg. unfold dep_ref_action. intros ([[[b path] s] e] & Hr & H)%bind_Some. apply arg_ref_wf in Hr.
  destruct (sym_stack_top g) as [task|]; [|by injection H as <-]. eapply update_wf; [exact Hg| |exact H].
  intros x (? & ? & Hd). split_and!; [done|done|]. apply Forall_app. split; [done|]. by constructor.
Qed.

Lemma route_wf p g g' : nodes_wf g -> route_top_level p g = Some g' -> nodes_wf g'.
Proof. intros Hg (nd & _ & [= <-])%bind_Some. by destruct (_ && _). Qed.

Lemma hoist_wf syms : forall g g', nodes_wf g -> hoist syms g = Some g' -> nodes_wf g'.
Proof.
  induction syms as [|c syms IH]; intros g g' Hg; [by intros [= <-]|]. cbn. intros (nd & _ & H)%bind_Some.
  case_bool_decide; [by eapply IH|]. apply bind_Some in H as (g1 & H1 & H). eapply IH; [|exact H]. by eapply route_wf.
Qed.

Lemma project_wf g : nodes_wf g -> keeps_positions (project_action vs n g).
Proof.
  intros Hg v g' (kw & Hk%arg_tok_wf & (id & Hi%arg_tok_wf & (name & _ & (b & Hb%arg_body_wf & H)%bind_Some)%bind_Some)%bind_Some)%bind_Some.
  pose proof (alloc_wf kw id name g Hg Hk Hi) as Ha. destruct (alloc_tj_node kw id name g) as [p g1]. cbn [snd] in Ha.
  apply bind_Some in H as (g2 & H2 & (g3 & H3 & [= <- <-])%bind_Some). split; [done|].
  eapply hoist_wf; [|exact H3]. eapply update_wf; [exact Ha| |exact H2]. intros nd. by apply finish_wf, range_end_wf.
Qed.

Lemma decl_wf id name body g : nodes_wf g -> keeps_positions (decl_action vs n id name body g).
Proof.
  intros Hg v g' (kw & Hk%arg_tok_wf & (i & Hi%arg_opt_tok_wf & (nm & _ & (b & Hb%arg_body_wf & H)%bind_Some)%bind_Some)%bind_Some)%bind_Some.
  pose proof (alloc_wf kw i nm g Hg Hk Hi) as Ha. destruct (alloc_tj_node kw i nm g) as [p g1]. cbn [snd] in Ha.
  apply bind_Some in H as (g2 & H2 & [= <- <-]). split; [done|].
  eapply update_wf; [exact Ha| |exact H2]. intros nd. by apply finish_wf, range_end_wf.
Qed.

Lemma open_wf g : nodes_wf g -> keeps_positions (open_action vs g).
Proof.
  intros Hg v g' (kw & (k & Hk & Hk')%bind_Some & (id & (i & Hi & Hi')%bind_Some & (name & _ & H)%bind_Some)%bind_Some)%bind_Some.
  rewrite Forall_lookup in Hvs. apply Hvs in Hk, Hi. destruct k, i; simplify_eq/=.
  pose proof (alloc_wf kw id name g Hg Hk Hi) as Ha. destruct (alloc_tj_node kw id name g) as [p g1]. injection H as <- <-.
  split; [done|]. cbn [snd] in Ha. case_bool_decide; [|done]. unfold sym_stack_push. by case_match.
Qed.

Lemma close_wf g : nodes_wf g -> keeps_positions (close_action vs n g).
Proof.
  intros Hg v g' (kw & Hk%arg_tok_wf & (p & _ & (b & Hb%arg_body_wf & (g2 & H2 & [= <- <-])%bind_Some)%bind_Some)%bind_Some)%bind_Some.
  split; [done|]. eapply update_wf; [| |exact H2]; [by case_bool_decide|]. intros nd. by apply finish_wf, range_end_wf.
Qed.

Lemma run_action_wf a g : nodes_wf g -> keeps_positions (run_action vs n a g).
Proof.
  intros Hg. destruct a; cbn [run_action];
    try (apply keeps_done; [done || (split; apply zero_pos_wf) || apply zero_pos_wf|done]);
    try (apply keeps_value; [done|]; intros v).
  - by intros Hv%arg_wf.
  - intros v g' (i & _ & H)%bind_Some. revert v g' H. change (keeps_positions (g0 ← match i with Some p => route_top_level p g | None => Some g end; Some (VNone, g0))).
    apply keeps_effect. intros g'. destruct i; [by apply route_wf|by intros [= <-]].
  - by intros (p & _ & [= <-])%bind_Some.
  - apply keeps_effect. intros g'. by apply date_wf.
  - intros v g' (t & _ & H)%bind_Some. injection H as <- <-. split; [done|]. unfold set_pending_prefix. by case_match.
  - by apply project_wf.
  - by apply open_wf.
  - by apply close_wf.
  - by apply decl_wf.
  - apply keeps_effect. intros g' (t & _ & [= <-])%bind_Some. done.
  - by intros (t & _ & (x & _ & [= <-])%bind_Some)%bind_Some.
  - by intros (t & _ & (x & _ & (y & _ & [= <-])%bind_Some)%bind_Some)%bind_Some.
  - by intros (z & _ & [= <-])%bind_Some.
  - by intros (t & [? ?]%arg_tok_wf & [= <-])%bind_Some.
  - intros ([[[b path] s] e] & [Hs _]%arg_ref_wf & (t & [_ Ht]%arg_tok_wf & H)%bind_Some)%bind_Some.
    by apply bind_Some in H as (x & _ & (y & _ & [= <-])%bind_Some).
  - by intros (z & _ & ([[[b path] s] e] & [Hs He]%arg_ref_wf & [= <-])%bind_Some)%bind_Some.
  - apply keeps_effect. intros g'. by apply dep_ref_wf.
  - by intros (b & _ & (t & [_ ?]%arg_tok_wf & [= <-])%bind_Some)%bind_Some.
  - by intros (b & Hb%arg_body_wf & (i & _ & [= <-])%bind_Some)%bind_Some.
Qed.
End Actions.

Definition config_wf (c : yy_config) : Prop :=
  Forall (fun f => value_wf (fr_value f)) (yystack c) /\ Forall tok_wf (yyinput c) /\ nodes_wf (yyglobals c).

Lemma pop_to_error_wf stk stk' : Forall (fun f => value_wf (fr_value f)) stk -> pop_to_error stk = Some stk' ->
  Forall (fun f => value_wf (fr_value f)) stk'.
Proof.
  intros Hs. induction Hs as [|f stk Hf Hs IH]; cbn; destruct (goto _ Err) as [st|]; try done.
  - intros [= <-]. by constructor.
  - intros [= <-]. by repeat constructor.
Qed.

Lemma step_wf m c c' : config_wf c -> yy_step m c = Next c' -> config_wf c'.
Proof.
  intros (Hs & Hi & Hg). destruct m as [|i|]; cbn.
  - unfold shift. destruct (yyinput c) as [|t ts] eqn:E; [done|]. apply Forall_cons in Hi as [Ht Hi].
    destruct (goto _ _); [|done]. intros [= <-]. by split_and!; [constructor|..].
  - unfold reduce. destruct (production_at i) as [p|]; [|done]. destruct (negb _); [done|]. destruct (goto _ _); [|done].
    destruct (run_action _ _ _ _) as [[v g]|] eqn:E; [|done]. intros [= <-].
    apply run_action_wf in E as [Hv Hg']; [|by apply Forall_fmap|done]. split_and!; [|done|done].
    constructor; [done|]. by apply Forall_drop.
  - unfold error. destruct (negb _); [done|].
    destruct (if bool_decide _ then _ else _) as [ts|] eqn:Ei; [|done].
    destruct (pop_to_error _) as [stk|] eqn:E; [|done]. intros [= <-]. split_and!; [by eapply pop_to_error_wf| |done].
    destruct (bool_decide _); [|by injection Ei as <-].
    destruct (yyinput c); [done|]. destruct (bool_decide _); [done|]. injection Ei as <-. by apply Forall_cons in Hi as [_ ?].
Qed.

Lemma reach_wf ok toks k syms c : Forall tok_wf toks -> reach ok (yyparse_start toks (initial_globals k syms)) c -> nodes_wf (yyglobals c).
Proof.
  intros Ht Hr. assert (H : config_wf c); [|apply H].
  induction Hr as [|c m c' _ IH _ Hstep]; [by split_and!; [constructor|..|constructor]|by eapply step_wf].
Qed.

(** ** The tree *)

Lemma read_tree_wf fuel h : Forall anode_wf h -> forall p t, read_tree fuel h p = Some t -> tree_wf t.
Proof.
  intros Hh. induction fuel as [|fuel IH]; intros p t H; [done|]. cbn in H.
  apply bind_Some in H as (n & Hn & (cs & Hcs & [= <-])%bind_Some). rewrite Forall_lookup in Hh. apply Hh in Hn.
  apply tree_wf_intro; [done|]. cbn. apply mapM_Some in Hcs. clear -IH Hcs.
  induction Hcs as [|q c qs cs Hq _ IHcs]; constructor; [by eapply IH|done].
Qed.

Lemma output_root_wf g root : nodes_wf g -> output_root g = Some root -> Forall tree_wf (tn_children root) /\ node_wf root.
Proof.
  intros Hg (cs & Hcs & [= <-])%bind_Some. apply mapM_Some in Hcs. split; [|split_and!; [split; apply zero_pos_wf..|constructor]].
  cbn. induction Hcs as [|q c qs cs Hq _ IHcs]; constructor; [by eapply read_tree_wf|done].
Qed.

Lemma parse_finish_wf root spans k includes : Forall tree_wf (tn_children root) -> node_wf root ->
  tree_wf (po_root (parse_finish root spans k includes)).
Proof.
  intros Hc Hn. cbn. apply tree_wf_intro; [by destruct root|].
  assert (Hp : (merge_sort starts_le (child_entries ([], root))).*2 ≡ₚ tn_children root).
  { rewrite merge_sort_Permutation. unfold child_entries. rewrite fmap_imap. cbn [snd].
    apply reflexive_eq, list_eq. intros i. rewrite list_lookup_imap. by destruct (tn_children root !! i). }
  destruct root. cbn in *. by rewrite Hp.
Qed.
