(* ===== verification/Handshake.v ===== *)
(** * [lifecycle.c], [rpc.c]: what the server tells a client about itself.

    The JSON values of the answer to [initialize], of the watcher registration
    and of [window/showMessage], and that they fit what the server does: each
    request it advertises is in the method table and the other way round, and
    every number in the semantic-token data has a name in the legend. *)

From S2P Require Import Prelude Syntax Tokens SemTokens Lifecycle Server MutJson.

(** ** [build_server_capabilities] *)

(** Token-modifier names by bit position. *)
Definition semantic_token_modifier_names : list string := ["declaration"]%string.

Definition glob_filter (glob : string) : mut_val := M_obj [("pattern", M_obj [("glob", M_str glob)])]%string.

Definition build_server_capabilities : mut_val :=
  let comp_opts := M_obj [("triggerCharacters", M_arr [M_str "!"; M_str "."]); ("resolveProvider", M_bool false)]%string in
  let sig_opts := M_obj [("triggerCharacters", M_arr [M_str " "])]%string in
  let tds := M_obj [("change", M_uint 2); ("openClose", M_bool true)]%string in
  let sem_legend := M_obj [("tokenTypes", M_arr (M_str <$> semantic_token_type_names));
                           ("tokenModifiers", M_arr (M_str <$> semantic_token_modifier_names))]%string in
  let sem_opts := M_obj [("legend", sem_legend); ("full", M_obj [("delta", M_bool true)])]%string in
  let code_lens_opts := M_obj [("resolveProvider", M_bool false)]%string in
  let rename_filters := M_arr [glob_filter "**/*.tjp"; glob_filter "**/*.tji"] in
  let file_ops := M_obj [("didRename", M_obj [("filters", rename_filters)])]%string in
  let workspace_caps := M_obj [("workspaceFolders", M_obj [("supported", M_bool false)]);
                               ("fileOperations", file_ops)]%string in
  M_obj [ ("textDocumentSync", tds);
          ("documentSymbolProvider", M_bool true);
          ("foldingRangeProvider", M_bool true);
          ("codeLensProvider", code_lens_opts);
          ("hoverProvider", M_bool true);
          ("definitionProvider", M_bool true);
          ("referencesProvider", M_bool true);
          ("documentHighlightProvider", M_bool true);
          ("signatureHelpProvider", sig_opts);
          ("completionProvider", comp_opts);
          ("semanticTokensProvider", sem_opts);
          ("workspaceSymbolProvider", M_bool true);
          ("workspace", workspace_caps) ]%string.

Definition VERSION_STRING : string := "0.5.3".

(** The result of [handle_initialize]. *)
Definition initialize_result : mut_val :=
  M_obj [("capabilities", build_server_capabilities);
         ("serverInfo", M_obj [("name", M_str "taskjuggler-lsp"); ("version", M_str VERSION_STRING)])]%string.

(** ** Messages to the client *)

(** The request [handle_initialized] sends. *)
Definition watcher_request : mut_val :=
  let watchers := M_arr [M_obj [("globPattern", M_str "**/*.tjp")]; M_obj [("globPattern", M_str "**/*.tji")]]%string in
  let registration := M_obj [("id", M_str "file-watcher"); ("method", M_str "workspace/didChangeWatchedFiles");
                             ("registerOptions", M_obj [("watchers", watchers)])]%string in
  M_obj [("jsonrpc", M_str "2.0"); ("id", M_str "watcher-reg"); ("method", M_str "client/registerCapability");
         ("params", M_obj [("registrations", M_arr [registration])])]%string.

Definition show_message (type : Z) (message : string) : mut_val :=
  M_obj [("jsonrpc", M_str "2.0"); ("method", M_str "window/showMessage");
         ("params", M_obj [("type", M_int type); ("message", M_str message)])]%string.

(** ** The contract with the client *)

(** Where the protocol has the capability for a request. *)
Definition provider_path (m : query_method) : list string :=
  match m with
  | DocumentSymbol => ["documentSymbolProvider"]
  | FoldingRange => ["foldingRangeProvider"]
  | CodeLens => ["codeLensProvider"]
  | Hover => ["hoverProvider"]
  | SignatureHelp => ["signatureHelpProvider"]
  | References => ["referencesProvider"]
  | DocumentHighlight => ["documentHighlightProvider"]
  | GotoDefinition => ["definitionProvider"]
  | Completion => ["completionProvider"]
  | SemanticTokensFull => ["semanticTokensProvider"; "full"]
  | SemanticTokensFullDelta => ["semanticTokensProvider"; "full"; "delta"]
  | WorkspaceSymbol => ["workspaceSymbolProvider"]
  end%string.

(** A client takes [true] and an object of options for a capability. *)
Definition advertised (m : query_method) : bool :=
  match field_path (provider_path m) build_server_capabilities with
  | Some (M_bool b) => b
  | Some (M_obj _) => true
  | _ => false
  end.

#[global] Instance query_method_eq_dec : EqDecision query_method.
Proof. solve_decision. Defined.

Definition dispatched (m : query_method) : bool :=
  existsb (fun e => match me_kind e with METHOD_QUERY q => bool_decide (q = m) | _ => false end) methods.

Definition all_query_methods : list query_method :=
  [ DocumentSymbol; FoldingRange; CodeLens; Hover; SignatureHelp; References; DocumentHighlight;
    GotoDefinition; Completion; SemanticTokensFull; SemanticTokensFullDelta; WorkspaceSymbol ].

(** The server advertises exactly the requests its method table answers. *)
Theorem capabilities_match_methods :
  (forall m, advertised m = true /\ dispatched m = true) /\
  (forall k, k ∈ keys build_server_capabilities ->
     k = "textDocumentSync"%string \/ k = "workspace"%string \/ exists m, head (provider_path m) = Some k).
Proof.
  split; [by intros []|]. intros k Hk.
  assert (H : forallb (fun k => bool_decide (k = "textDocumentSync"%string) || bool_decide (k = "workspace"%string)
      || existsb (fun m => bool_decide (head (provider_path m) = Some k)) all_query_methods)
      (keys build_server_capabilities) = true) by (by vm_compute).
  rewrite forallb_forall in H. apply list_elem_of_In in Hk. apply H in Hk.
  apply orb_true_iff in Hk as [[Hk|Hk]%orb_true_iff|Hk]; [left|right; left|right; right]; try by apply bool_decide_eq_true in Hk.
  apply existsb_exists in Hk as (m & _ & Hm). exists m. by apply bool_decide_eq_true in Hm.
Qed.

(** Every type and modifier in the semantic-token data has its name in the legend. *)
Theorem legend_names_every_token kind type mods : classify kind = Some (type, mods) ->
  (exists l name, field_path ["semanticTokensProvider"; "legend"; "tokenTypes"]%string build_server_capabilities = Some (M_arr l) /\
     l !! Z.to_nat type = Some (M_str name)) /\
  (exists l, field_path ["semanticTokensProvider"; "legend"; "tokenModifiers"]%string build_server_capabilities = Some (M_arr l) /\
     0 <= mods < 2 ^ Z.of_nat (length l))%Z.
Proof.
  intros Hc. assert (Ht : (0 <= type <= 5)%Z /\ mods = 0%Z).
  { destruct kind; cbn in Hc; try discriminate Hc; injection Hc as <- <-; unfold SEMTOK_TYPE_COMMENT, SEMTOK_TYPE_STRING,
      SEMTOK_TYPE_NUMBER, SEMTOK_TYPE_VARIABLE, SEMTOK_TYPE_KEYWORD, SEMTOK_TYPE_FUNCTION; lia. }
  destruct Ht as [Ht ->]. split; eexists; [|split; [reflexivity|cbn; lia]].
  assert (Hn : is_Some (semantic_token_type_names !! Z.to_nat type)).
  { apply lookup_lt_is_Some. cbn. lia. }
  destruct Hn as [name Hn]. exists name. split; [reflexivity|]. by rewrite list_lookup_fmap, Hn.
Qed.
