(* ===== verification/ReplyTypes.v ===== *)
(** * The replies have the types of the protocol.

    Every answer of every request handler has the result type the protocol
    gives the request, and does not depend on what the memo of the project tree
    holds. *)

From S2P Require Import Prelude CText Tokens Syntax Json Store Workspace Assembly Rpc ProjectTree TokenQuery References.
From S2P Require Import SemTokens SemDelta Diagnostics QueryContext Server CodeLens Signature Hover Completion Symbols.
From S2P Require Import MutJson Handshake Replies.

(** The result of each request. *)
Definition result_type (q : query_method) : lsp_type :=
  match q with
  | DocumentSymbol => T_or T_null (T_array (T_named DocumentSymbol_))
  | Server.FoldingRange => T_or T_null (T_array (T_named FoldingRange_))
  | CodeLens => T_or T_null (T_array (T_named CodeLens_))
  | Hover => T_or T_null (T_named Hover_)
  | SignatureHelp => T_or T_null (T_named SignatureHelp_)
  | References => T_or T_null (T_array (T_named Location_))
  | DocumentHighlight => T_or T_null (T_array (T_named DocumentHighlight_))
  | GotoDefinition => T_or T_null (T_named Location_)
  | Completion => T_or T_null (T_named CompletionList)
  | SemanticTokensFull => T_or T_null (T_named SemanticTokens_)
  | SemanticTokensFullDelta => T_or T_null (T_or (T_named SemanticTokens_) (T_named SemanticTokensDelta))
  | Server.WorkspaceSymbol => T_or T_null (T_array (T_named SymbolInformation))
  end.

(** ** What the data structures hold *)

Definition pnode_wf (n : ProjectNode) : Prop :=
  range_wf (pn_selection_range n) /\ Forall (fun d => range_wf (source_range d)) (pn_dependencies n).

(** The declarations of a project know their document. *)
Definition project_wf (root : ProjectNode) : Prop :=
  pn_dependencies root = [] /\
  forall p n, pnode_at root p = Some n -> pnode_wf n /\ (p <> [] -> is_Some (pn_source_uri n)).

Definition context_wf (qc : query_context) : Prop :=
  (forall qd b, (qd, b) ∈ qc_docs qc -> doc_wf qd) /\ (forall root, project_root qc = Some root -> project_wf root).

Lemma tree_wf_positions n : tree_wf n -> positions_ok n.
Proof.
  induction n as [n IH] using tj_node_rect_children. intros H.
  pose proof (tree_wf_node _ H) as ([? ?] & [? ?] & _). pose proof (tree_wf_children _ H) as Hc.
  destruct n as [k0 d0 n0 r0 s0 a0 b0 c0 e0 f0 cs]. cbn in *. split_and!; try done. clear -IH Hc.
  induction cs as [|c cs IHc]; [done|]. apply Forall_cons in IH as [? ?], Hc as [? ?]. split; auto.
Qed.

(** ** Pieces *)

Lemma location_typed l : is_Some (loc_uri l) -> range_wf (loc_range l) -> has_type (T_named Location_) (location_json l).
Proof. intros [u Hu] Hr. unfold location_json. rewrite Hu. cbn [obj_add_str app]. has_type. Qed.

Lemma markup_typed value : has_type (T_named MarkupContent) (markup_json value).
Proof. unfold markup_json. has_type. apply has_right. has_type. Qed.
#[export] Hint Resolve location_typed markup_typed : lsp.

Lemma hover_typed h : range_wf h.2 -> has_type (T_named Hover_) (hover_json h).
Proof. intros Hr. unfold hover_json. has_type. Qed.

Lemma sig_typed s : (forall a, sh_active s = Some a -> (0 <= a)%Z) -> has_type (T_named SignatureHelp_) (sig_json s).
Proof.
  intros Ha. unfold sig_json. apply has_named. cbn [type_def].
  apply object_intro; [vm_compute; reflexivity|]. cbn. split_and?; try exact I; [|by apply has_uint].
  constructor. intros v ->%list_elem_of_singleton. has_type.
  destruct (sh_active s) as [a|]; cbn [or_null from_option]; [apply has_left, has_uint; by apply Ha|apply has_right, has_null].
Qed.

Lemma highlight_typed h : range_wf (hl_range h) -> (1 <= hl_kind h <= 3)%Z -> has_type (T_named DocumentHighlight_) (push_highlight h).
Proof. intros Hr Hk. unfold push_highlight. has_type. Qed.

Lemma lens_typed l : range_wf (lens_range l) -> has_type (T_named CodeLens_) (push_lens l).
Proof. intros Hr. unfold push_lens. has_type. Qed.

Lemma fold_typed r : (0 <= fr_start r)%Z -> (0 <= fr_end r)%Z -> has_type (T_named FoldingRange_) (push_range r).
Proof. intros Hs He. unfold push_range. has_type. destruct (fr_kind r); [apply has_right|apply has_left]; apply has_literal. Qed.

Lemma symbol_kind_range k : (1 <= symbol_kind_for k <= 26)%Z.
Proof. destruct k; by vm_compute. Qed.

Lemma completion_kind_range k : (1 <= completion_kind_for k <= 25)%Z.
Proof. destruct k; by vm_compute. Qed.

Lemma workspace_symbol_typed w : range_wf (wsym_range w) -> (1 <= wsym_kind w <= 26)%Z ->
  has_type (T_named SymbolInformation) (workspace_symbol_json w).
Proof.
  intros Hr Hk. unfold workspace_symbol_json. destruct (wsym_container w); cbn [obj_add_str app]; has_type.
Qed.

Definition item_wf (i : item) : Prop :=
  (1 <= ci_kind i <= 25)%Z /\ (forall r t, ci_edit i = Some (r, t) -> range_wf r).

Lemma item_typed i : item_wf i -> has_type (T_named CompletionItem) (item_json i).
Proof.
  intros [Hk He]. unfold item_json, id_item_json, keyword_item_json. case_bool_decide; [has_type|].
  destruct (ci_edit i) as [[r t]|]; cbn [app]; [specialize (He r t eq_refl)|]; has_type.
Qed.
#[export] Hint Resolve item_typed : lsp.

Lemma completion_typed l : Forall item_wf l.2 -> has_type (T_named CompletionList) (completion_list_json l).
Proof. intros Hl. rewrite Forall_forall in Hl. unfold completion_list_json. has_type. Qed.

(** *** Raw text *)

Lemma uint_array_text l : build_uint32_array_json l = json_text (Json_arr (Json_num <$> l)).
Proof.
  unfold build_uint32_array_json. cbn [json_text]. do 2 f_equal.
  induction l as [|v l IH]; [done|]. destruct l as [|v' l]; [done|].
  change (write_entries (v :: v' :: l)) with (write_uint32 v ++ ","%char :: write_entries (v' :: l)).
  rewrite IH. done.
Qed.

Lemma uint_array_typed l : Forall is_u32 l -> has_type (T_array T_uint) (M_raw (build_uint32_array_json l)).
Proof.
  intros Hl. rewrite uint_array_text. apply has_raw.
  - apply json_wf_elems, Forall_fmap. eapply Forall_impl; [exact Hl|].
    unfold is_u32, u32_modulus. intros v Hv. cbn. lia.
  - cbn [embed]. rewrite Forall_forall in Hl. apply (array_intro _ embed). intros v (n & -> & Hn)%list_elem_of_fmap.
    apply has_uint, Hl, Hn.
Qed.
#[export] Hint Resolve uint_array_typed : lsp.

Lemma semantic_tokens_typed buf id : Forall is_u32 buf ->
  has_type (T_named SemanticTokens_) (build_semantic_tokens_json_from_buf buf id).
Proof.
  intros Hb%uint_array_typed. unfold build_semantic_tokens_json_from_buf. destruct id; cbn [obj_add_str app]; has_type.
Qed.

Definition edit_wf (e : SemEdit) : Prop := forall data, se_data e = Some data -> Forall is_u32 data.

Lemma edit_typed e : edit_wf e -> has_type (T_named SemanticTokensEdit) (edit_json e).
Proof.
  intros He. unfold edit_json. destruct (se_data e) as [data|] eqn:Ed; cbn [app].
  - pose proof (uint_array_typed data (He data Ed)). has_type.
  - has_type.
Qed.
#[export] Hint Resolve edit_typed : lsp.

Lemma delta_typed d : Forall edit_wf (sd_edits d) -> has_type (T_named SemanticTokensDelta) (delta_json d).
Proof.
  intros Hd. rewrite Forall_forall in Hd. unfold delta_json. destruct (sd_resultId d); cbn [fmap option_fmap option_map obj_add_str app]; has_type.
Qed.

(** The members of a document symbol. *)
Lemma symbol_members n :
  embed (symbol_json n) = M_obj ([
    ("name", M_str (text (str (default EmptyString (tn_name n))))); ("detail", M_str (text (str (default EmptyString (tn_id n)))));
    ("kind", M_uint (symbol_kind_for (tn_keyword n))); ("range", range_json (tn_range n));
    ("selectionRange", range_json (tn_selection_range n)) ]%string ++
    match tn_children n with [] => [] | cs => [("children"%string, M_arr ((fun c => embed (symbol_json c)) <$> cs))] end).
Proof.
  destruct n as [k0 d0 n0 r0 s0 a0 b0 c0 e0 f0 [|c cs]]; [done|].
  change ((fun c => embed (symbol_json c)) <$> tn_children (TjNode k0 d0 n0 r0 s0 a0 b0 c0 e0 f0 (c :: cs)))
    with (map (fun c => embed (symbol_json c)) (c :: cs)).
  cbn [tn_children]. rewrite <- (map_map symbol_json embed). done.
Qed.

Lemma symbol_typed n : tree_wf n -> has_type (T_named DocumentSymbol_) (embed (symbol_json n)).
Proof.
  induction n as [n IH] using tj_node_rect_children. intros Hn. pose proof (tree_wf_node _ Hn) as (Hr & Hs & _).
  pose proof (tree_wf_children _ Hn) as Hc. pose proof (symbol_kind_range (tn_keyword n)) as Hk. rewrite symbol_members.
  assert (Ha : has_type (T_array (T_named DocumentSymbol_)) (M_arr ((fun c => embed (symbol_json c)) <$> tn_children n))).
  { rewrite Forall_forall in IH, Hc. apply array_intro. auto. }
  destruct (tn_children n) as [|c cs]; cbn [app]; has_type.
Qed.

Lemma symbols_typed syms : Forall tree_wf syms ->
  has_type (T_array (T_named DocumentSymbol_)) (M_raw (build_document_symbols_json syms)).
Proof.
  intros Hs. unfold build_document_symbols_json. destruct (document_symbols_writes syms) as [_ ->]. apply has_raw.
  - apply json_wf_elems, Forall_fmap. eapply Forall_impl; [exact Hs|]. intros n Hn. by apply symbol_json_wf, tree_wf_positions.
  - cbn [embed]. rewrite map_map. apply (array_intro _ (fun s => embed (symbol_json s))). rewrite Forall_forall in Hs.
    intros n Hn. by apply symbol_typed, Hs.
Qed.

Lemma diagnostic_typed d : range_wf (dg_range d) -> (1 <= dg_severity d <= 4)%Z -> has_type (T_named Diagnostic_) (diagnostic_json d).
Proof. intros Hr Hs. unfold diagnostic_json. destruct (dg_source d); cbn [obj_add_str app]; has_type. Qed.

(** ** Semantic tokens *)

Definition sem_wf (st : sem_state) : Prop := Forall is_u32 (sem_buf st).

Lemma relative_entry_wf st l c len ty md :
  sem_wf st -> is_u32 c -> is_u32 len -> is_u32 ty -> is_u32 md -> sem_wf (push_relative_entry st l c len ty md).
Proof.
  unfold sem_wf, push_relative_entry, push_entry. intros Hs Hc Hl Ht Hm. cbn [sem_buf]. destruct (len =? 0)%Z; [done|].
  apply Forall_app. split; [done|]. repeat (constructor; [first [done|apply u32_is_u32|case_match; [apply u32_is_u32|done]]|]). constructor.
Qed.

Lemma emit_lines_wf lines ty md : is_u32 ty -> is_u32 md -> forall st p l c, sem_wf st -> is_u32 c ->
  sem_wf (emit_lines lines st p l c ty md).1.1 /\ is_u32 (emit_lines lines st p l c ty md).2.
Proof.
  intros Ht Hm. induction lines as [|lines IH]; intros st p l c Hs Hc; [done|]. cbn [emit_lines].
  destruct (split_nl p) as [n nl]. apply IH; [|done]. case_match; [|done]. apply relative_entry_wf; try done. apply u32_is_u32.
Qed.

Lemma classify_wf k ty md : classify k = Some (ty, md) -> is_u32 ty /\ is_u32 md.
Proof. destruct k; cbn; try done; intros [= <- <-]; by vm_compute. Qed.

Lemma sem_step_wf st s : sem_wf st -> span_wf s -> sem_wf (sem_step st s).
Proof.
  intros Hst [[_ Hs] [_ He]]. unfold sem_step. destruct (classify _) as [[ty md]|] eqn:Ec; [|done].
  apply classify_wf in Ec as [Ht Hm]. unfold emit_token. case_match.
  - apply relative_entry_wf; try done. apply u32_is_u32.
  - pose proof (emit_lines_wf (Z.to_nat (line (ts_end s) - line (ts_start s))) ty md Ht Hm st
      (default EmptyString (ts_text s)) (line (ts_start s)) (character (ts_start s)) Hst Hs) as [H1 H2].
    destruct (emit_lines _ _ _ _ _ _ _) as [[st' l] c]. by apply relative_entry_wf.
Qed.

Lemma data_u32 spans : Forall span_wf spans -> Forall is_u32 (compute_semantic_tokens_data spans).
Proof.
  intros Hs. unfold compute_semantic_tokens_data.
  assert (H : forall st, sem_wf st -> sem_wf (foldl sem_step st spans)).
  { induction Hs as [|s spans Hs _ IH]; intros st Hst; [done|]. cbn. apply IH. by apply sem_step_wf. }
  apply H. constructor.
Qed.

Lemma delta_wf prev new id : Forall is_u32 new -> Forall edit_wf (sd_edits (build_semantic_tokens_delta_json prev new id)).
Proof.
  intros Hn. unfold build_semantic_tokens_delta_json. cbn [sd_edits]. rewrite Forall_fmap. apply Forall_true. intros op data.
  cbn. case_match; [|done]. intros [= <-]. by apply Forall_take, Forall_drop.
Qed.

Lemma sem_answer_typed a : (forall id data, a = AnswerFull id data -> Forall is_u32 data) ->
  (forall d, a = AnswerDelta d -> Forall edit_wf (sd_edits d)) ->
  has_type (T_or T_null (T_or (T_named SemanticTokens_) (T_named SemanticTokensDelta))) (sem_answer_json a).
Proof.
  intros Hf Hd. destruct a as [|id data|d]; cbn [sem_answer_json].
  - apply has_left, has_null.
  - apply has_right, has_left, semantic_tokens_typed. by eapply Hf.
  - apply has_right, has_right, delta_typed. by apply Hd.
Qed.

(** ** Positions that come from tokens *)

Section Tokens.
Variable tokens : list TokenSpan.
Hypothesis Htokens : Forall span_wf tokens.

Definition entry_wf (e : KwStackEntry) : Prop := range_wf (kw_range e) /\ (0 <= kw_argc e)%Z.

Lemma pop_while_wf P stack : Forall entry_wf stack -> Forall entry_wf (pop_while P stack).
Proof. intros H. induction H as [|e st He Hst IH]; cbn; [constructor|]. case_match; [done|by constructor]. Qed.

Lemma bump_at_wf depth stack : Forall entry_wf stack -> Forall entry_wf (bump_at depth stack).
Proof.
  intros H. induction H as [|e st [Hr Ha] Hst IH]; cbn; [constructor|]. case_match; (constructor; [|done]); [|done].
  split; [done|]. cbn. lia.
Qed.

Lemma scan_token_wf cursor kind_max track cap st tok :
  span_wf tok -> Forall entry_wf st.2 -> Forall entry_wf (scan_token cursor kind_max track cap st tok).2.
Proof.
  intros [Hs He] Hst. destruct st as [depth stack]. cbn [snd] in Hst.
  assert (Hb : Forall entry_wf (if track then bump_active_argc stack depth tok cursor else stack)).
  { destruct track; [|done]. unfold bump_active_argc. case_match; [by apply bump_at_wf|done]. }
  assert (Hp : forall text, Forall entry_wf (push_keyword_entry stack cap depth tok text)).
  { intros text. unfold push_keyword_entry. pose proof (pop_while_wf (fun e => kw_depth e >=? depth)%Z stack Hst).
    destruct (_ <? cap)%nat; [|exact H]. constructor; [|exact H]. split; [by split|cbn; lia]. }
  assert (Hd : Forall entry_wf (match ts_text tok with
      | Some text => if below kind_max (ts_kind tok) then (depth, push_keyword_entry stack cap depth tok text)
                     else (depth, if track then bump_active_argc stack depth tok cursor else stack)
      | None => (depth, if track then bump_active_argc stack depth tok cursor else stack)
      end).2) by (repeat case_match; cbn; auto).
  unfold scan_token. destruct (ts_kind tok); try exact Hd; cbn; auto using pop_while_wf.
Qed.

Lemma scan_loop_wf cursor kind_max track cap l : Forall span_wf l -> forall st, Forall entry_wf st.2 ->
  Forall entry_wf (scan_loop cursor kind_max track cap st l).2.
Proof.
  intros Hl. induction Hl as [|tok l Ht _ IH]; intros st Hst; [done|]. cbn. case_match; [done|]. by apply IH, scan_token_wf.
Qed.

Lemma find_depth_wf depth stack e : Forall entry_wf stack -> find_depth depth stack = Some e -> entry_wf e.
Proof. intros H. induction H as [|x st Hx _ IH]; cbn; [done|]. case_match; [by intros [= <-]|done]. Qed.

Lemma scanned_entry_wf cursor kind_max track cap e :
  entry_at_depth (scan_kw_stack tokens cursor kind_max track cap) = Some e -> entry_wf e.
Proof. unfold entry_at_depth, scan_kw_stack. apply find_depth_wf, scan_loop_wf; [done|constructor]. Qed.

Lemma active_keyword_wf cursor k r : active_keyword_at tokens cursor = Some (k, r) -> range_wf r.
Proof.
  unfold active_keyword_at. destruct (entry_at_depth _) as [e|] eqn:E; [|done]. intros [= _ <-]. by apply scanned_entry_wf in E as [? _].
Qed.

Lemma active_context_wf cursor : (0 <= ac_arg_count (active_context tokens cursor))%Z.
Proof. unfold active_context. destruct (entry_at_depth _) as [e|] eqn:E; [|done]. by apply scanned_entry_wf in E as [_ ?]. Qed.

Lemma bangs_back_wf l : Forall span_wf l -> forall n first, pos_wf first -> pos_wf (bangs_back l n first).2.
Proof.
  intros Hl. induction Hl as [|t l [Hs _] _ IH]; intros n first Hf; [done|]. cbn. repeat case_match; try done; by apply IH.
Qed.

Lemma first_bang_wf cursor : pos_wf (count_leading_bangs tokens cursor).2.
Proof.
  unfold count_leading_bangs. apply bangs_back_wf; [|apply zero_pos_wf]. by apply Forall_reverse, Forall_take.
Qed.

(** *** Folding ranges *)

Definition fold_wf (r : FoldingRange) : Prop := (0 <= fr_start r)%Z /\ (0 <= fr_end r)%Z.

Lemma token_folds l : Forall span_wf l -> forall stack, Forall (fun z => 0 <= z)%Z stack -> Forall fold_wf (emit_token_ranges_from stack l).
Proof.
  intros Hl. induction Hl as [|s l [[Hs _] [He _]] _ IH]; intros stack Hst; [constructor|].
  assert (H1 : (0 <= line (ts_start s))%Z) by apply Hs. assert (H2 : (0 <= line (ts_end s))%Z) by apply He.
  cbn [emit_token_ranges_from]. destruct (ts_kind s); try (by apply IH).
  - apply IH. case_match; [by constructor|done].
  - destruct Hst as [|z st Hz Hst]; [by apply IH|]. apply Forall_app. split; [|by apply IH]. case_match; by repeat constructor.
  - apply Forall_app. split; [|by apply IH]. case_match; by repeat constructor.
Qed.
End Tokens.

Lemma symbol_folds n : tree_wf n -> Forall fold_wf (symbol_ranges n).
Proof.
  induction n as [n IH] using tj_node_rect_children. intros Hn. pose proof (tree_wf_node _ Hn) as ([[Hs _] [He _]] & _).
  pose proof (tree_wf_children _ Hn) as Hc. destruct n as [k0 d0 n0 r0 s0 a0 b0 c0 e0 f0 cs]. cbn in *.
  apply Forall_app. split; [case_match; [|constructor]; repeat constructor; [apply Hs|apply He]|].
  clear -IH Hc. induction cs as [|c cs IHc]; [constructor|]. apply Forall_cons in IH as [? ?], Hc as [? ?]. cbn. apply Forall_app. auto.
Qed.

Lemma folds_wf qd l : doc_wf qd -> handle_folding_range (Some qd) = Some l -> Forall fold_wf l.
Proof.
  intros [Ht Hs] [= <-]. apply Forall_app. split; [|by apply token_folds].
  apply tree_wf_children in Ht. unfold emit_symbol_ranges, doc_symbol_pool.
  induction Ht as [|c cs Hc _ IH]; [constructor|]. cbn. apply Forall_app. split; [by apply symbol_folds|done].
Qed.

(** *** Code lenses *)

Lemma lenses_wf qd l : doc_wf qd -> handle_code_lens (Some qd) = Some l -> Forall (fun x => range_wf (lens_range x)) l.
Proof.
  intros [_ Hs] [= <-]. unfold build_code_lens_json. apply Forall_forall. intros x (i & _ & Hx)%list_elem_of_omap.
  unfold lens_at in Hx. apply bind_Some in Hx as (t & Hi & Hx). case_bool_decide; [|done].
  apply bind_Some in Hx as (owner & _ & Hx). destruct (_ && _); [|done].
  apply bind_Some in Hx as ([v u] & _ & Hx). destruct (v =? 0)%Z; [done|]. injection Hx as <-.
  rewrite Forall_lookup in Hs. exact (Hs i t Hi).
Qed.

(** *** Workspace symbols *)

Lemma workspace_symbol_wf sym w query uri container : tree_wf sym -> w ∈ collect_symbol query uri container sym ->
  range_wf (wsym_range w) /\ (1 <= wsym_kind w <= 26)%Z.
Proof.
  intros Hs. rewrite collect_symbol_spec. intros [[_ ->]|(p & i & parent & m & Hp & Hi & _ & ->)]; cbn.
  - split; [by apply tree_wf_node|apply symbol_kind_range].
  - split; [|apply symbol_kind_range]. apply (Hs (p ++ [i])). by rewrite node_at_app, Hp; cbn; rewrite Hi.
Qed.

Lemma workspace_symbols_wf `{Yyjson} params docs w : (forall qd b, (qd, b) ∈ docs -> doc_wf qd) ->
  w ∈ handle_workspace_symbol params docs -> range_wf (wsym_range w) /\ (1 <= wsym_kind w <= 26)%Z.
Proof.
  intros Hd Hw. unfold handle_workspace_symbol in Hw. rewrite list_elem_of_In, in_flat_map in Hw.
  destruct Hw as ([qd b] & Hq%list_elem_of_In & Hw). apply Hd in Hq as [Ht _]. unfold collect_workspace_symbols in Hw.
  rewrite in_flat_map in Hw. destruct Hw as (c & Hc%list_elem_of_In & Hw%list_elem_of_In). cbn in Hc.
  apply tree_wf_children in Ht. rewrite Forall_forall in Ht. by eapply workspace_symbol_wf; [apply Ht|].
Qed.

(** *** Completion *)

Lemma id_item_wf e k b first cursor : pos_wf first -> pos_wf cursor -> item_wf (emit_id_item e k b first cursor).
Proof.
  intros Hf Hc. unfold emit_id_item. destruct b as [|a b]; [|destruct (_ <? _)%nat].
  all: split; cbn; [apply completion_kind_range|intros r t; try done]. intros [= <- _]. by split.
Qed.

Lemma items_wf root tokens owners cursor symbols extra : Forall span_wf tokens -> pos_wf cursor ->
  Forall item_wf (completion_items root tokens owners cursor symbols extra).1.
Proof.
  intros Ht Hc. unfold completion_items.
  assert (Hk : forall partial stack, Forall item_wf (build_keyword_completions tokens cursor partial stack)).
  { intros partial stack. unfold build_keyword_completions. destruct (_ || _); [|constructor].
    apply Forall_fmap, Forall_true. intros e. by split. }
  destruct (is_decl_keyword _); [constructor|]. match goal with |- context [if ?b then match _ with Some _ => _ | None => _ end else _] => destruct b end; [|apply Hk]. destruct (id_kind_for_keyword _) as [k|]; [|apply Hk].
  unfold build_id_completions, build_dep_completions. pose proof (first_bang_wf tokens Ht cursor) as Hb.
  destruct (count_leading_bangs tokens cursor) as [n first]. cbn [snd] in Hb.
  destruct (bool_decide (k = KW_TASK)); cbn [fst]; apply Forall_fmap, Forall_true; intros e; apply id_item_wf; auto using zero_pos_wf.
Qed.

Lemma request_position_wf `{Yyjson} params pos : request_position params = Some pos -> pos_wf pos.
Proof.
  unfold request_position. intros (p & _ & Hp)%bind_Some. cbn in Hp. destruct (yyjson_obj_get _ _) as [o|].
  - injection Hp as <-. apply (json_to_pos_wf (Some o)).
  - apply fmap_Some in Hp as (o & _ & ->). apply (json_to_pos_wf (Some o)).
Qed.

Lemma completion_wf `{Yyjson} params docs qd l : doc_wf qd -> handle_completion params docs (Some qd) = Some l -> Forall item_wf l.2.
Proof.
  intros [_ Hs] Hl. unfold handle_completion in Hl. destruct (request_position params) as [pos|] eqn:Hp; [|done].
  apply request_position_wf in Hp. unfold build_completions_json in Hl. destruct (_ || _); [done|].
  pose proof (items_wf (qd_root qd) (qd_tok_spans qd) (qd_tok_owners qd) pos (doc_symbol_pool (Some qd)) (collect_sibling_pools docs) Hs Hp) as Hi.
  destruct (completion_items _ _ _ _ _ _) as [[|i items] incomplete]; [done|]. by injection Hl as <-.
Qed.

(** ** Requests on the project tree *)

Lemma find_task_below children segs t : find_task children segs = Some t -> t <> [].
Proof.
  destruct segs as [|seg segs]; cbn; [done|]. destruct (child_task children seg) as [[i c]|]; [|done].
  destruct segs; [by intros [= <-]|]. by intros (q & _ & ->)%fmap_Some.
Qed.

Lemma resolve_dep_below root owner d t : resolve_dep root owner d = Some t -> t <> [].
Proof.
  unfold resolve_dep. destruct (split_dotted_path _) as [|seg segs]; [done|]. destruct (_ =? 0)%Z; [by intros ?%find_task_below|].
  destruct (climb_bangs _ _ _) as [a|]; [|done]. intros (n & _ & (q & Hq%find_task_below & ->)%fmap_Some)%bind_Some.
  by destruct a.
Qed.

Lemma resolve_ref_ok root m prefix doc owner ordinal : memo_ok root m ->
  (project_resolve_dep_ref root m prefix doc owner ordinal).1 = (project_resolve_dep_ref root ∅ prefix doc owner ordinal).1 /\
  memo_ok root (project_resolve_dep_ref root m prefix doc owner ordinal).2 /\
  forall t, (project_resolve_dep_ref root m prefix doc owner ordinal).1 = Some t -> t <> [].
Proof.
  intros Hm. unfold project_resolve_dep_ref. destruct (project_node_for_doc_task _ _ _ _) as [q|]; [|done].
  destruct (pnode_at root q) as [n|]; [|done]. destruct (_ <? _)%nat; [|done].
  destruct (project_dep_resolve_ok root m q ordinal Hm) as (-> & Hm' & _).
  destruct (project_dep_resolve_ok root ∅ q ordinal (memo_ok_empty root)) as (-> & _). split_and!; [done|done|].
  unfold dep_target. intros t (d & _ & Ht)%bind_Some. by eapply resolve_dep_below.
Qed.

Lemma chain_node (x : node_path * tj_node) : forall n here p, x ∈ root_chain n here p -> tree_wf n -> node_wf x.2.
Proof.
  intros n here p. revert n here. induction p as [|i p IH]; intros n here Hx Hn; cbn in Hx.
  - apply list_elem_of_singleton in Hx as ->. by apply tree_wf_node.
  - apply elem_of_cons in Hx as [->|Hx]; [by apply tree_wf_node|]. destruct (tn_children n !! i) as [c|] eqn:Hi.
    + by eapply IH, tree_wf_child.
    + by apply not_elem_of_nil in Hx.
Qed.

Lemma dependency_wf qd pos owner i dep : doc_wf qd ->
  dependency_at_cursor (qd_root qd) (qd_tok_spans qd) (qd_tok_owners qd) pos = Some (owner, i, dep) -> range_wf (source_range dep).
Proof.
  intros [Ht _]. unfold dependency_at_cursor. destruct (tj_node_at _ _ _ _) as [p|]; [|done].
  assert (Hc : Forall (fun x => node_wf x.2) (parent_chain (qd_root qd) p)).
  { apply Forall_forall. unfold parent_chain. intros x Hx. rewrite elem_of_reverse in Hx. by apply (chain_node x _ _ _ Hx). }
  induction Hc as [|[q n] chain [_ [_ Hd]] _ IH]; cbn; [done|]. destruct (find_dep pos n) as [[j d]|] eqn:E; [|done].
  intros [= <- <- <-]. apply list_find_Some in E as (Hj & _). rewrite Forall_lookup in Hd. by eapply Hd.
Qed.

(** The reference under the cursor, whatever the memo. *)
Lemma dep_ref_ok root m qd pos : memo_ok root m -> doc_wf qd ->
  match dep_ref_at root m qd pos, dep_ref_at root ∅ qd pos with
  | Some (dep, (t, m')), Some (dep', (t', _)) =>
      dep = dep' /\ t = t' /\ memo_ok root m' /\ range_wf (source_range dep) /\ (forall q, t = Some q -> q <> [])
  | None, None => True
  | _, _ => False
  end.
Proof.
  intros Hm Hd. unfold dep_ref_at. destruct (dependency_at_cursor _ _ _ pos) as [[[owner i] dep]|] eqn:E; [|done].
  apply dependency_wf in E; [|done]. destruct (resolve_ref_ok root m (task_prefix qd) (qd_root qd) owner i Hm) as (H1 & H2 & H3).
  destruct (project_resolve_dep_ref root m _ _ _ _) as [t m'], (project_resolve_dep_ref root ∅ _ _ _ _) as [t' m'']. cbn in *. auto.
Qed.

Definition location_wf (l : Location) : Prop := is_Some (loc_uri l) /\ range_wf (loc_range l).

Lemma project_node root p n : project_wf root -> pnode_at root p = Some n -> pnode_wf n.
Proof. intros [_ H] Hp. by apply H in Hp as [? _]. Qed.

(** What a handler that takes the memo promises: the same answer with a cold
    one, a correct memo afterwards, and a well-formed answer. *)
Definition memo_safe {A} (root : ProjectNode) (Q : A -> Prop) (r cold : option A * memo) : Prop :=
  r.1 = cold.1 /\ memo_ok root r.2 /\ forall x, r.1 = Some x -> Q x.

Lemma memo_safe_none {A} root (Q : A -> Prop) m m' : memo_ok root m -> memo_safe root Q (None, m) (None, m').
Proof. intros ?. by repeat split. Qed.

Section Project.
Variables (root : ProjectNode) (m : memo) (qd : query_doc).
Hypotheses (Hm : memo_ok root m) (Hroot : project_wf root) (Hd : doc_wf qd).

Lemma definition_ok pos : memo_safe root location_wf
  (handle_definition pos (Some root) m (Some qd)) (handle_definition pos (Some root) ∅ (Some qd)).
Proof.
  destruct pos as [pos|]; [|by apply memo_safe_none]. unfold handle_definition. pose proof (dep_ref_ok root m qd pos Hm Hd) as H.
  destruct (dep_ref_at root m qd pos) as [[dep [t m']]|], (dep_ref_at root ∅ qd pos) as [[dep' [t' m'']]|]; try done.
  destruct H as (<- & <- & Hm' & _ & Ht). unfold memo_safe; split_and!; [done|done|]. unfold build_definition_json. cbn.
  intros x (p & -> & (n & Hn & [= <-])%bind_Some)%bind_Some. destruct Hroot as [_ Hw]. apply Hw in Hn as [[Hr _] Hu].
  split; [by apply Hu, Ht|done].
Qed.

Lemma references_ok pos : memo_safe root (Forall location_wf)
  (handle_references pos (Some root) m (Some qd)) (handle_references pos (Some root) ∅ (Some qd)).
Proof.
  destruct pos as [pos|]; [|by apply memo_safe_none]. unfold handle_references.
  destruct (decl_node_at root qd pos) as [w|]; [|by apply memo_safe_none].
  destruct (references_list root m w Hm) as (m1 & -> & Hm1), (references_list root ∅ w (memo_ok_empty root)) as (m2 & -> & _).
  unfold memo_safe; split_and!; [done|done|]. intros x [= <-]. apply Forall_fmap, Forall_forall. intros d [_ Hin]%list_elem_of_filter.
  apply all_deps_elem in Hin as (q & n & _ & Hn & Hi & Hu). destruct Hroot as [Hno Hw].
  destruct (Hw _ _ Hn) as [[_ Hs] Hsrc]. rewrite Forall_lookup in Hs. split; [|by eapply Hs]. cbn. rewrite Hu. apply Hsrc.
  intros ->. cbn in Hn. injection Hn as <-. by rewrite Hno in Hi.
Qed.

Definition highlight_wf (h : Highlight) : Prop := range_wf (hl_range h) /\ (1 <= hl_kind h <= 3)%Z.

Lemma reads_wf w uri d : Forall highlight_wf (reads_in root w uri (qd_tok_spans qd) d).
Proof.
  unfold reads_in. destruct (_ && _); [|constructor]. pose proof (last_ident_spec (qd_tok_spans qd) (source_range (pd_dep d))) as Hl.
  destruct (last_ident_in_range _ _) as [r|]; [|constructor]. destruct Hl as (i & t & Hi & -> & _).
  destruct Hd as [_ Hs]. rewrite Forall_lookup in Hs. constructor; [|constructor]. split; [exact (Hs i t Hi)|done].
Qed.

Lemma highlights_ok wanted m' uri : memo_ok root m' -> memo_safe root (Forall highlight_wf)
  (build_document_highlight_json root m wanted uri (qd_tok_spans qd))
  (build_document_highlight_json root m' wanted uri (qd_tok_spans qd)).
Proof.
  intros Hm'. destruct wanted as [w|]; [|by apply memo_safe_none]. unfold build_document_highlight_json.
  destruct (collect_reads_spec root w uri (qd_tok_spans qd) root m [] Hm) as [H1 H2].
  destruct (collect_reads_spec root w uri (qd_tok_spans qd) root m' [] Hm') as [H3 _].
  destruct (collect_read_highlights _ _ _ _ m _ _) as [hs m1], (collect_read_highlights _ _ _ _ m' _ _) as [hs' m2].
  cbn [fst snd] in *. subst hs hs'. unfold memo_safe; split_and!; [done|done|]. intros x [= <-]. apply Forall_app. split.
  - destruct (pnode_at root w) as [n|] eqn:Hn; [|constructor]. apply project_node in Hn as [Hr _]; [|done].
    case_bool_decide; repeat constructor; apply Hr || done.
  - apply Forall_concat, Forall_fmap, Forall_true. intros d. apply reads_wf.
Qed.
End Project.

Lemma document_highlight_ok root m qd pos : memo_ok root m -> project_wf root -> doc_wf qd -> memo_safe root (Forall highlight_wf)
  (handle_document_highlight pos (Some root) m (Some qd)) (handle_document_highlight pos (Some root) ∅ (Some qd)).
Proof.
  intros Hm Hroot Hd. destruct pos as [pos|]; [|by apply memo_safe_none]. unfold handle_document_highlight, resolve_highlight_target.
  destruct (task_decl_at_cursor _ _ _ pos); [by apply highlights_ok|]. pose proof (dep_ref_ok root m qd pos Hm Hd) as H.
  pose proof (dep_ref_ok root ∅ qd pos (memo_ok_empty root) Hd) as H0.
  destruct (dep_ref_at root m qd pos) as [[dep [t m']]|], (dep_ref_at root ∅ qd pos) as [[dep' [t' m'']]|]; try done.
  destruct H as (<- & <- & Hm' & _), H0 as (_ & _ & Hm'' & _). by apply highlights_ok.
Qed.

Definition hover_wf (h : string * LspRange) : Prop := range_wf h.2.

Lemma hover_ok `{Yyjson} root m qd params : memo_ok root m -> doc_wf qd -> memo_safe root hover_wf
  (handle_hover params (Some root) m (Some qd)) (handle_hover params (Some root) ∅ (Some qd)).
Proof.
  intros Hm Hd. unfold handle_hover, try_dependency_hover. destruct (request_position params) as [pos|]; [|by apply memo_safe_none].
  assert (Hk : forall m1 m2, memo_ok root m1 -> memo_safe root hover_wf
      (match active_keyword_at (qd_tok_spans qd) pos with None => (None, m1) | Some (k, r) => ((fun docs => (docs, r)) <$> keyword_docs (Some k), m1) end)
      (match active_keyword_at (qd_tok_spans qd) pos with None => (None, m2) | Some (k, r) => ((fun docs => (docs, r)) <$> keyword_docs (Some k), m2) end)).
  { intros m1 m2 Hm1. destruct (active_keyword_at _ pos) as [[k r]|] eqn:E; [|by apply memo_safe_none].
    apply active_keyword_wf in E; [|apply Hd]. unfold memo_safe; split_and!; [done|done|]. by intros x (docs & _ & ->)%fmap_Some. }
  pose proof (dep_ref_ok root m qd pos Hm Hd) as H1.
  destruct (dep_ref_at root m qd pos) as [[dep [t m']]|], (dep_ref_at root ∅ qd pos) as [[dep' [t' m'']]|]; try done; try by apply Hk.
  destruct H1 as (<- & <- & Hm' & Hr & _). destruct t as [t|]; [|by apply Hk]. unfold memo_safe; split_and!; [done|done|]. by intros x [= <-].
Qed.

Lemma signature_wf `{Yyjson} params qd s a : doc_wf qd -> handle_signature_help params (Some qd) = Some s -> sh_active s = Some a -> (0 <= a)%Z.
Proof.
  intros [_ Hs]. unfold handle_signature_help. destruct (request_position params) as [pos|]; [|done].
  pose proof (active_context_wf (qd_tok_spans qd) Hs pos) as Ha. destruct (ac_keyword _) as [k|]; [|done].
  unfold build_signature_help_json. intros (d & _ & ->)%fmap_Some. cbn. set (n := length (sig_params d)).
  destruct (Z.gtb_spec (Z.of_nat n) 0); [|done]. intros [= <-]. destruct (Z.of_nat n =? 0)%Z; [done|].
  destruct (Z.ltb_spec (ac_arg_count (active_context (qd_tok_spans qd) pos)) (Z.of_nat n)); lia.
Qed.

(** ** Every request *)

Section Requests.
Context `{Yyjson}.
Variables (params : option yyjson_val) (qc : query_context) (d : option query_doc) (m : memo).
Hypotheses (Hqc : context_wf qc) (Hd : forall qd, d = Some qd -> doc_wf qd)
  (Hm : forall root, project_root qc = Some root -> memo_ok root m).

(** The handlers that take the memo give [null] without a document or a
    project. *)
Lemma through_memo {A} (h : option ProjectNode -> memo -> option query_doc -> option A * memo) (f : A -> mut_val) (Q : A -> Prop) t :
  (forall root qd, project_root qc = Some root -> d = Some qd -> project_wf root -> memo_safe root Q (h (Some root) m (Some qd)) (h (Some root) ∅ (Some qd))) ->
  (forall r m1 m2, r = None \/ d = None -> (h r m1 d).1 = (h r m2 d).1 /\ (h r m1 d).2 = m1 /\ forall x, (h r m1 d).1 = Some x -> Q x) ->
  (forall x, Q x -> has_type t (f x)) ->
  let run m := (or_null f (h (project_root qc) m d).1, (h (project_root qc) m d).2) in
  has_type (T_or T_null t) (run m).1 /\ (run m).1 = (run ∅).1 /\
  forall root, project_root qc = Some root -> memo_ok root (run m).2.
Proof.
  intros Hsafe Hnone Ht run. subst run. cbn. destruct (project_root qc) as [root|] eqn:Er, d as [qd|] eqn:Ed.
  - destruct Hqc as [_ Hp]. destruct (Hsafe root qd eq_refl eq_refl (Hp _ Er)) as (He & Hok & Hq). split_and!.
    + apply null_or. intros y Hy. by apply Ht, Hq.
    + by rewrite He.
    + by intros root' [= <-].
  - destruct (Hnone (Some root) m ∅) as (He & Hs & Hq); [by right|]. split_and!; [|by rewrite He|rewrite Hs; exact Hm].
    apply null_or. intros y Hy. by apply Ht, Hq.
  - destruct (Hnone None m ∅) as (He & Hs & Hq); [by left|]. split_and!; [|by rewrite He|done].
    apply null_or. intros y Hy. by apply Ht, Hq.
  - destruct (Hnone None m ∅) as (He & Hs & Hq); [by left|]. split_and!; [|by rewrite He|done].
    apply null_or. intros y Hy. by apply Ht, Hq.
Qed.

(** What all handlers promise. *)
Definition answers_well (q : query_method) : Prop :=
  has_type (result_type q) (run_handler q params qc m d).1 /\
  (run_handler q params qc m d).1 = (run_handler q params qc ∅ d).1 /\
  forall root, project_root qc = Some root -> memo_ok root (run_handler q params qc m d).2.

Lemma pure_answers q v : (forall m', run_handler q params qc m' d = (v, m')) -> has_type (result_type q) v -> answers_well q.
Proof. intros Hr Hv. unfold answers_well. rewrite !Hr. by split_and!. Qed.

Lemma memo_answers {A} (q : query_method) (h : memo -> option A * memo) (f : A -> mut_val) :
  (forall m', run_handler q params qc m' d = let '(x, m1) := h m' in (or_null f x, m1)) ->
  (let run m' := (or_null f (h m').1, (h m').2) in
   has_type (result_type q) (run m).1 /\ (run m).1 = (run ∅).1 /\ forall root, project_root qc = Some root -> memo_ok root (run m).2) ->
  answers_well q.
Proof.
  intros Hr Hs. cbn in Hs. unfold answers_well. rewrite !Hr. destruct (h m), (h ∅). exact Hs.
Qed.

Lemma definition_answers : answers_well GotoDefinition.
Proof.
  eapply (memo_answers _ (fun m' => handle_definition (cursor_position params) (project_root qc) m' d)); [done|].
  apply (through_memo (handle_definition (cursor_position params)) _ location_wf); [| |by intros x []; auto with lsp].
  - intros root qd Hr Hq Hp. apply definition_ok; eauto.
  - intros r m1 m2 Hx. destruct (cursor_position params), d, r, Hx; done || by split_and!.
Qed.

Lemma references_answers : answers_well References.
Proof.
  eapply (memo_answers _ (fun m' => handle_references (cursor_position params) (project_root qc) m' d)); [done|].
  apply (through_memo (handle_references (cursor_position params)) _ (Forall location_wf)).
  - intros root qd Hr Hq Hp. apply references_ok; eauto.
  - intros r m1 m2 Hx. destruct (cursor_position params), d, r, Hx; done || by split_and!.
  - intros l Hl. rewrite Forall_forall in Hl. apply array_intro. intros x []%Hl. auto with lsp.
Qed.

Lemma highlight_answers : answers_well DocumentHighlight.
Proof.
  eapply (memo_answers _ (fun m' => handle_document_highlight (cursor_position params) (project_root qc) m' d)); [done|].
  apply (through_memo (handle_document_highlight (cursor_position params)) _ (Forall highlight_wf)).
  - intros root qd Hr Hq Hp. apply document_highlight_ok; eauto.
  - intros r m1 m2 Hx. destruct (cursor_position params), d, r, Hx; done || by split_and!.
  - intros l Hl. rewrite Forall_forall in Hl. apply array_intro. intros x []%Hl. by apply highlight_typed.
Qed.

Lemma hover_answers : answers_well Hover.
Proof.
  eapply (memo_answers _ (fun m' => handle_hover params (project_root qc) m' d)); [done|].
  apply (through_memo (handle_hover params) _ hover_wf).
  - intros root qd Hr Hq _. apply hover_ok; eauto.
  - unfold handle_hover. intros r m1 m2 Hrd. destruct (request_position params) as [pos|]; [|by split_and!].
    destruct d as [qd|]; [|by split_and!]. destruct Hrd as [->|[=]]. unfold try_dependency_hover.
    destruct (active_keyword_at _ pos) as [[k r]|] eqn:E; [|by split_and!]. apply active_keyword_wf in E; [|by apply Hd].
    generalize (keyword_docs (Some k)). intros docs. split_and!; [reflexivity..|]. by intros x (y & _ & ->)%fmap_Some.
  - intros h Hh. by apply hover_typed.
Qed.

Lemma pure_null_answers {A} q (x : option A) (f : A -> mut_val) t :
  (forall m', run_handler q params qc m' d = (or_null f x, m')) -> result_type q = T_or T_null t ->
  (forall y, x = Some y -> has_type t (f y)) -> answers_well q.
Proof. intros Hr Ht Hy. eapply pure_answers; [exact Hr|]. rewrite Ht. by apply null_or. Qed.

(** Every answer is of the protocol.  Whatever the request, its parameters
    and the cursor are, and whatever correct memo earlier and concurrent
    requests left in the project tree, the result of a handler has the type the
    Language Server Protocol gives the result of that request (raw JSON text
    included), it is the one a cold memo gives, and the memo left is correct. *)
Theorem replies_typed q :
  has_type (result_type q) (run_handler q params qc m d).1 /\
  (run_handler q params qc m d).1 = (run_handler q params qc ∅ d).1 /\
  forall root, project_root qc = Some root -> memo_ok root (run_handler q params qc m d).2.
Proof.
  change (answers_well q). destruct Hqc as [Hdocs Hproj]. destruct q.
  - eapply pure_null_answers; [done..|]. intros y (qd & -> & ->)%fmap_Some. by apply symbols_typed, tree_wf_children, Hd.
  - eapply pure_null_answers; [done..|]. intros y Hy. destruct d as [qd|]; [|done].
    apply folds_wf in Hy; [|by apply Hd]. rewrite Forall_forall in Hy. apply array_intro. intros r []%Hy. by apply fold_typed.
  - eapply pure_null_answers; [done..|]. intros y Hy. destruct d as [qd|]; [|done].
    apply lenses_wf in Hy; [|by apply Hd]. rewrite Forall_forall in Hy. apply array_intro. intros r ?%Hy. by apply lens_typed.
  - apply hover_answers.
  - eapply pure_null_answers; [done..|]. intros s Hs. apply sig_typed. intros a Ha. destruct d as [qd|].
    + eapply signature_wf; [by apply Hd|done..].
    + unfold handle_signature_help in Hs. by destruct (request_position params).
  - apply references_answers.
  - apply highlight_answers.
  - apply definition_answers.
  - eapply pure_null_answers; [done..|]. intros l Hl. apply completion_typed. destruct d as [qd|].
    + eapply completion_wf; [by apply Hd|done].
    + unfold handle_completion in Hl. by destruct (request_position params).
  - eapply pure_null_answers; [done..|]. intros a Ha. apply semantic_tokens_typed. destruct d as [qd|]; [|done].
    injection Ha as <-. by apply data_u32, Hd.
  - eapply pure_answers; [done|]. apply sem_answer_typed; unfold handle_semantic_tokens_full_delta; destruct d as [qd|] eqn:Ed; try done;
      cbn; intros; destruct (delta_base _ _ _); simplify_eq; by (apply data_u32, Hd || apply delta_wf, data_u32, Hd).
  - eapply pure_answers; [done|]. apply has_right, array_intro. intros w Hw. apply workspace_symbols_wf in Hw as [? ?]; [|done].
    by apply workspace_symbol_typed.
Qed.
End Requests.
