(* ===== verification/LiveReplies.v ===== *)
(** * The replies of a running server.

    Messages, scheduler, document table, scanner, parser, project assembly,
    request handlers and JSON together: every reply a client is sent has the
    type the protocol gives it, and a client that reads the bytes of the
    highlighting of a document gets the pieces of the text it had sent. *)

From S2P Require Import Prelude CText PathUri Tokens Syntax Lexer Scanner Grammar ParsedDoc LiveDocs Positions.
From S2P Require Import Owners TokenQuery ProjectTree Store Workspace Assembly Rpc TextSync Revalidate Lifecycle QueryContext.
From S2P Require Import JobQueue Server SemTokens MutJson Handshake Replies ReplyTypes.

(** ** Documents *)

(** What the server assumes of the texts: they fit flex's buffer and no brace
    stands before [project]. *)
Definition text_ok (sn : doc_snapshot) : Prop :=
  fits (text_of (snap_text sn)) /\ text_leads (text_of (snap_text sn)).

Definition snapshot_wf (sn : doc_snapshot) : Prop :=
  tree_wf (snap_root sn) /\ Forall span_wf (snap_tok_spans sn).

Lemma scan_spans_wf st src r : yy_start st = INITIAL -> fits src -> scan st src = Some r -> Forall span_wf (g_spans r.2).1.
Proof.
  intros Hm Hf Hs. destruct (scan_inv st src Hm Hf) as (toks & st' & Hs' & _ & _ & _ & Hi). rewrite Hs in Hs'. injection Hs' as ->.
  destruct Hi as [Hi _ _ _]. eapply Forall_impl; [exact Hi|]. intros s [(body & Hst & _) _].
  destruct (stands_at_ok _ _ _ _ Hf Hst) as (? & ? & _). by split.
Qed.

Lemma parsed_snapshot_wf sn : parse_of (H := by_the_grammar) sn -> text_ok sn -> snapshot_wf sn.
Proof.
  intros Hp [Hf Hl]. destruct (snapshot_parsed sn Hp Hf Hl) as (st & est & kind & syms & r & toks & c & root & Hm & He & Hs & Hy & Hr & Hroot & _ & ->).
  split; cbn [docsnap_new snap_root snap_tok_spans].
  - apply output_root_wf in Hroot as [Hc Hn]; [by apply parse_finish_wf|]. eapply reach_wf; [|exact Hr]. by eapply parser_tokens_wf.
  - by eapply scan_spans_wf.
Qed.

(** ** The project tree *)

(** A declaration of the project and all below it. *)
Fixpoint declared (n : ProjectNode) : Prop :=
  pnode_wf n /\ is_Some (pn_source_uri n) /\ fold_right (fun c a => declared c /\ a) True (pn_children n).

Lemma declared_eq n : declared n <-> pnode_wf n /\ is_Some (pn_source_uri n) /\ Forall declared (pn_children n).
Proof.
  destruct n as [k d m r s u deps cs]. cbn. do 2 f_equiv. induction cs as [|c cs IH]; [done|]. by rewrite Forall_cons, <- IH.
Qed.

(** The synthetic root with its declarations. *)
Definition rooted (root : ProjectNode) : Prop :=
  pn_dependencies root = [] /\ range_wf (pn_selection_range root) /\ Forall declared (pn_children root).

Lemma declared_at n p m : declared n -> pnode_at n p = Some m -> declared m.
Proof.
  revert n. induction p as [|i p IH]; intros n Hn Hp; [by injection Hp as <-|]. cbn in Hp.
  destruct (pn_children n !! i) as [c|] eqn:Hi; [|done]. apply declared_eq in Hn as (_ & _ & Hc). rewrite Forall_lookup in Hc. by eapply IH; [eapply Hc|].
Qed.

Lemma rooted_wf root : rooted root -> project_wf root.
Proof.
  intros (Hd & Hs & Hc). split; [done|]. intros [|i p] n Hn.
  - injection Hn as <-. split; [|done]. split; [done|]. rewrite Hd. constructor.
  - cbn in Hn. destruct (pn_children root !! i) as [c|] eqn:Hi; [|done]. rewrite Forall_lookup in Hc.
    apply (declared_at c p n) in Hn as (? & ? & _)%declared_eq; [done|by eapply Hc].
Qed.

Lemma append_declared child p : declared child -> forall n, declared n -> declared (project_node_append_child n p child).
Proof.
  intros Hc. induction p as [|i p IH]; intros n (Hw & Hu & Hcs)%declared_eq; cbn [project_node_append_child].
  - destruct n. apply declared_eq. split_and!; [done|done|]. apply Forall_app. split; [done|by constructor].
  - destruct (pn_children n !! i) as [c|] eqn:Hi; [|by apply declared_eq]. destruct n. apply declared_eq. split_and!; [done|done|].
    apply Forall_insert; [done|]. apply IH. rewrite Forall_lookup in Hcs. by eapply Hcs.
Qed.

Lemma append_rooted child p root : declared child -> rooted root -> rooted (project_node_append_child root p child).
Proof.
  intros Hc (Hd & Hs & Hcs). destruct p as [|i p]; cbn [project_node_append_child].
  - destruct root. split_and!; [done|done|]. apply Forall_app. split; [done|by constructor].
  - destruct (pn_children root !! i) as [c|] eqn:Hi; [|by split_and!]. destruct root. split_and!; [done|done|].
    apply Forall_insert; [done|]. apply append_declared; [done|]. rewrite Forall_lookup in Hcs. by eapply Hcs.
Qed.

Lemma copied_declared uri n : is_Some uri -> tree_wf n -> declared (project_node_from_tj uri n).
Proof.
  intros Hu. induction n as [n IH] using tj_node_rect_children. intros Hn. pose proof (tree_wf_node _ Hn) as (_ & Hs & Hd).
  pose proof (tree_wf_children _ Hn) as Hc. destruct n as [k0 d0 n0 r0 s0 a0 b0 c0 e0 f0 cs]. cbn in *.
  split_and!; try done. clear -IH Hc. induction cs as [|c cs IHc]; [done|].
  apply Forall_cons in IH as [H1 IH], Hc as [Hc1 Hc]. cbn. split; [by apply H1|by apply IHc].
Qed.

Section Table.
Variable docs : store.
Hypotheses (Hok : store_ok docs) (Hdocs : forall d sn, d ∈ docs -> d_snap d = Some sn -> tree_wf (snap_root sn)).

Lemma snap_has_uri d sn : d ∈ docs -> d_snap d = Some sn -> is_Some (d_uri d) /\ d_in_use d = true.
Proof.
  intros Hd Hs. destruct Hok as (_ & Hslots & _). rewrite Forall_forall in Hslots. destruct (Hslots d Hd) as (Hb & Hu & _).
  destruct (d_in_use d); [by split; [apply Hu|]|]. rewrite (Hb eq_refl) in Hs. done.
Qed.

Lemma copy_slot_rooted root i : rooted root -> rooted (copy_slot docs root i).
Proof.
  intros Hr. unfold copy_slot. destruct (docs !! i) as [d|] eqn:Hi; [|done]. apply list_elem_of_lookup_2 in Hi.
  unfold copy_document_into_project. destruct (d_snap d) as [sn|] eqn:Hs; [|done].
  destruct (snap_has_uri d sn Hi Hs) as [Hu _]. pose proof (tree_wf_children _ (Hdocs d sn Hi Hs)) as Hc. revert root Hr.
  induction Hc as [|c cs Hc _ IH]; intros root Hr; [done|]. cbn. apply IH. unfold copy_declaration.
  destruct (prefix_kind_of _); [|done]. destruct (find_node_by_dotted_path _ _ _) as [t|]; [|done].
  apply append_rooted; [by apply copied_declared|done].
Qed.

Lemma copies_rooted l : forall root, rooted root -> rooted (foldl (copy_slot docs) root l).
Proof. induction l as [|i l IH]; intros root Hr; [done|]. cbn. by apply IH, copy_slot_rooted. Qed.

Lemma empty_rooted : rooted empty_project_root.
Proof. split_and!; [done|split; apply zero_pos_wf|constructor]. Qed.

Lemma projects_rooted `{Env} status : Forall (fun p => rooted (wp_root p)) (ws_projects (build_workspace_snapshot docs status)).
Proof.
  destruct (build_form docs status) as (vs & _ & ->); [apply Hok|]. cbn [ws_projects]. apply Forall_app. split.
  - generalize (roots_upto docs MAX_DOCS). induction vs as [|v vs IH]; intros [|r rs]; cbn; try constructor; [|by apply IH].
    by apply copies_rooted, empty_rooted.
  - apply Forall_fmap, Forall_true. intros i. by apply copy_slot_rooted, empty_rooted.
Qed.

(** The snapshot shows every parsed document. *)
Lemma snapshot_shows `{Env} status d sn : d ∈ docs -> d_snap d = Some sn ->
  exists w, w ∈ ws_docs (build_workspace_snapshot docs status) /\ wd_snap w = Some sn.
Proof.
  intros Hd Hs. destruct (build_form docs status) as (vs & _ & ->); [apply Hok|]. cbn [ws_docs].
  destruct (snap_has_uri d sn Hd Hs) as [_ Hu]. apply list_elem_of_lookup in Hd as [i Hi].
  eexists. split; [apply elem_of_ws_view; exists i, d; split_and!; [exact Hi| |reflexivity]|done].
  unfold is_parsed. by rewrite Hu, Hs.
Qed.
End Table.

(** ** Contexts *)

(** Every document a context shows is one the server can read. *)
Definition texts_ok (qc : query_context) : Prop :=
  forall ws w sn, qc_ws qc = Some ws -> w ∈ ws_docs ws -> wd_snap w = Some sn -> text_ok sn.

Lemma primary_elem qc qd : query_context_primary qc = Some qd -> exists b, (qd, b) ∈ qc_docs qc.
Proof.
  unfold query_context_primary. destruct (qc_primary_idx qc) as [i|]; [|done]. intros ([qd' b] & Hi & ->)%fmap_Some.
  exists b. by eapply list_elem_of_lookup_2.
Qed.

Lemma context_shape `{Env} s uri all : qc_ws (build_query_context_locked s uri all) = g_ws s /\
  forall root, project_root (build_query_context_locked s uri all) = Some root ->
    exists ws p, g_ws s = Some ws /\ p ∈ ws_projects ws /\ root = wp_root p.
Proof.
  unfold build_query_context_locked, project_root. destruct (g_ws s) as [ws|]; [|done].
  destruct (collect_docs _ _ _ _ _ _) as [l i]. cbn. split; [done|]. intros root Hr.
  destruct (_ && _); [|done]. cbn in Hr. apply fmap_Some in Hr as (p & Hp & ->).
  exists ws, p. split_and!; [done| |done]. by eapply list_elem_of_lookup_2.
Qed.

Lemma pinned_context_wf `{Yyjson} (E : Env) s uri all :
  @server_ok by_the_grammar s -> published s -> texts_ok (@build_query_context_locked E s uri all) ->
  context_wf (@build_query_context_locked E s uri all) /\
  forall qd, query_context_primary (@build_query_context_locked E s uri all) = Some qd -> doc_wf qd.
Proof.
  intros Hso Hpub Ht. destruct (context_shape s uri all) as [Hws Hproj].
  assert (Hdocs : forall d sn, d ∈ sv_docs s -> d_snap d = Some sn -> is_Some (g_ws s) -> snapshot_wf sn).
  { intros d sn Hd Hs [ws Hg]. destruct Hpub as [[? _]|(E' & status & Hb)]; [congruence|]. destruct Hso as [Hok Hsync].
    destruct (@snapshot_shows (sv_docs s) Hok E' status d sn Hd Hs) as (w & Hw & Hsw).
    rewrite Forall_forall in Hsync. destruct (Hsync d Hd _ Hs) as [_ Hparse]. apply parsed_snapshot_wf; [done|].
    eapply Ht; [|exact Hw|exact Hsw]. by rewrite Hws. }
  assert (Hqd : forall qd b, (qd, b) ∈ qc_docs (build_query_context_locked s uri all) -> doc_wf qd).
  { intros qd b Hin. destruct (pinned_documents E s uri all qd b Hso Hpub Hin) as (d & Hd & _ & Hsn).
    apply (Hdocs d _ Hd Hsn). destruct (g_ws s) eqn:Hg; [done|]. unfold build_query_context_locked in Hin. rewrite Hg in Hin.
    by apply not_elem_of_nil in Hin. }
  split; [split; [exact Hqd|]|].
  - intros root (ws & p & Hg & Hp & ->)%Hproj. apply rooted_wf.
    destruct Hpub as [[? _]|(E' & status & Hb)]; [congruence|]. rewrite Hg in Hb. injection Hb as ->.
    assert (Hr : Forall (fun p => rooted (wp_root p)) (ws_projects (@build_workspace_snapshot E' (sv_docs s) status))).
    { apply projects_rooted; [apply Hso|]. intros d sn Hd Hs. by apply (Hdocs d sn Hd Hs). }
    rewrite Forall_forall in Hr. by apply Hr.
  - intros qd (b & Hin)%primary_elem. by eapply Hqd.
Qed.

(** ** Replies *)

(** What the protocol has as the result of a message. *)
Definition message_type `{Yyjson} (j : Job) : lsp_type :=
  match me_kind <$> method_lookup (job_method (request_doc j)) with
  | Some (METHOD_QUERY q) => result_type q
  | Some (METHOD_INLINE Initialize) => T_any
  | _ => T_null
  end.

Definition response_type (t : lsp_type) : lsp_type :=
  T_or (T_object [required "jsonrpc" (T_literal "2.0"); required "id" (T_named ResponseId); required "result" t])
       (T_object [required "jsonrpc" (T_literal "2.0"); required "id" (T_named ResponseId); required "error" (T_named ResponseError)])%string.

Section Replies.
Context `{Yyjson} `{Writer}.
(** [yyjson_get_uint] returns a [uint64_t]. *)
Hypothesis get_uint_range : forall v z, get_uint v = Some z -> (0 <= z)%Z.

Lemma copied_id_typed id : has_type (T_named ResponseId) (id_json (copy_id id)).
Proof.
  apply id_typed. intros z. unfold copy_id. destruct id as [v|]; [|done].
  destruct (get_str v), (get_uint v) as [u|] eqn:Eu, (get_sint v), (get_real v); try done; intros [= <-]; by eapply get_uint_range.
Qed.

Lemma result_response_typed id v t : has_type t v -> has_type (response_type t) (response_json (make_response id v)).
Proof. intros Hv. apply has_left. pose proof (copied_id_typed id). cbn [response_json make_response]. unfold required. has_type. Qed.

Lemma error_response_typed id code message t : has_type (response_type t) (response_json (make_error_response id code message)).
Proof. apply has_right. pose proof (copied_id_typed id). cbn [response_json make_error_response]. unfold required. has_type. Qed.

(** C3: Every reply of the server is of the protocol.  Whatever messages arrived
    and however the threads were scheduled: what the client is sent are the texts
    of the responses to the completed messages, nothing for a response the JSON
    library cannot write; and every response is an object with an id and an
    error, or a value of the result type of its request, as long as the documents
    in view of the request fit flex's buffer and have no brace before
    [project]. *)
Theorem server_replies_typed p :
  reachable (LW := by_the_grammar) p ->
  pl_sent p = pl_freed p ≫= sent_for /\
  forall j r, j ∈ pl_freed p -> (forall qc, context j = Some qc -> texts_ok qc) -> reply_of j = Some r ->
    has_type (response_type (message_type j)) (response_json r).
Proof.
  intros Hr. pose proof (reachable_inv (LW := by_the_grammar) p Hr) as Hinv. split; [apply Hinv|].
  intros j r Hj Htexts Hrep. unfold reply_of in Hrep. destruct (is_notification j) eqn:Hn; [done|].
  destruct (is_cancelled j) eqn:Hx.
  { unfold server_dispatch_cancelled in Hrep. destruct (id_item _) as [id|]; [|done]. injection Hrep as <-. apply error_response_typed. }
  unfold message_type. destruct (me_kind <$> method_lookup (job_method (request_doc j))) as [[n|m|q]|] eqn:Hk.
  - unfold server_run_query in Hrep. rewrite Hk in Hrep. destruct (id_item _) as [id|]; [|by destruct (context j)].
    destruct (context j); injection Hrep as <-; apply result_response_typed, has_null.
  - injection Hrep as <-. apply result_response_typed. destruct m; [apply has_any|apply has_null].
  - destruct (completed_query_pinned (LW := by_the_grammar) p j q Hr Hj Hx Hk) as [_ (_ & _ & _ & E & s & Hs & Hctx)].
    destruct (server_state_ok s (runs_reachable _ _ Hs)) as (Hso & _ & Hpub).
    unfold server_run_query in Hrep. rewrite Hk, Hctx in Hrep. injection Hrep as <-. apply result_response_typed.
    specialize (Htexts _ Hctx). destruct (pinned_context_wf E s _ _ Hso Hpub Htexts) as [Hwf Hprim].
    apply (replies_typed _ _ _ _ Hwf Hprim). intros root _. apply memo_ok_empty.
  - unfold server_run_query in Hrep. rewrite Hk in Hrep. destruct (id_item _) as [id|]; [|by destruct (context j)].
    destruct (context j); injection Hrep as <-; apply result_response_typed, has_null.
Qed.
End Replies.

(** ** Highlighting *)

(** The primary of a context is the document the request names. *)
Lemma primary_is_named `{Yyjson} `{LW : Lawful} (E : Env) s uri all qd :
  server_ok s -> published s -> query_context_primary (@build_query_context_locked E s uri all) = Some qd ->
  exists i d, uri ≫= (fun u => doc_find (sv_docs s) u) = Some i /\ sv_docs s !! i = Some d /\ d_snap d = Some (qd_snap qd) /\
    d_text d = Some (snap_text (qd_snap qd)).
Proof.
  intros Hso Hpub Hp. pose proof Hso as [(_ & Hslots & Huniq) Hsync]. unfold query_context_primary in Hp.
  destruct (qc_primary_idx _) as [k|] eqn:Hk; [|done]. apply fmap_Some in Hp as ([qd' b] & Hin & ->). cbn [fst].
  assert (Hb : b = true /\ exists w sn, wd_snap w = Some sn /\ qd' = make_query_doc w sn /\
      is_primary (((uri ≫= (fun u => doc_find (sv_docs s) u)) ≫= (fun i => sv_docs s !! i)) ≫= d_uri) sn = true).
  { unfold build_query_context_locked in Hk, Hin. destruct (g_ws s) as [ws|]; [|done].
    set (canon := _ ≫= d_uri) in Hk, Hin |- *. set (proj := primary_project canon (ws_docs ws)) in Hk, Hin.
    pose proof (collect_docs_spec canon all proj (ws_docs ws) 0 None) as Hc.
    destruct (collect_docs canon all proj (ws_docs ws) 0 None) as [l idx]. cbn [qc_primary_idx qc_docs] in Hk, Hin.
    destruct Hc as [Hl Hidx]. destruct Hidx as [[-> _]|(k' & q & -> & Hk')]; [done|]. injection Hk as <-. cbn in Hin.
    rewrite Hin in Hk'. injection Hk' as -> ->. split; [done|]. apply list_elem_of_lookup_2 in Hin.
    apply Hl in Hin as (w & sn & _ & Hs & _ & -> & Hprim). by exists w, sn. }
  destruct Hb as (-> & w & sn & Hw & -> & Hprim). cbn [make_query_doc qd_snap].
  destruct (pinned_documents E s uri all (make_query_doc w sn) true Hso Hpub) as (d & Hd & Hu & Hsn).
  { by eapply list_elem_of_lookup_2. }
  cbn in Hsn. unfold is_primary in Hprim. apply bool_decide_eq_true in Hprim.
  apply bind_Some in Hprim as (d0 & (i & Hi & Hd0)%bind_Some & Hu0). exists i, d0. split; [done|]. split; [done|].
  rewrite Forall_forall in Hsync, Hslots. destruct (Hsync d Hd _ Hsn) as [Htext _].
  destruct (Hslots d Hd) as (_ & Hused & Hsnap & _). destruct (Hused Hu) as [[ud Hud] _]. destruct (Hsnap _ Hsn) as [Hsu _].
  rewrite Hud in Hsu. cbn in Hsu. rewrite Hsu in Hu0. apply list_elem_of_lookup in Hd as [j Hj].
  assert (Hu1 : d_in_use d0 = true).
  { apply bind_Some in Hi as (u & _ & Hi). apply doc_find_Some in Hi as [(d' & Hd' & [? _])|(d' & Hd' & [? _])]; congruence. }
  assert (i = j) as <- by (by eapply (Huniq i j d0 d ud)). rewrite Hd0 in Hj. by injection Hj as ->.
Qed.

(** C4: Highlighting, end to end.  A client asks for the semantic tokens of a
    document and is answered: the document is the one its request names, with
    the text the messages before the request left in it; the bytes of the
    [data] member read back as an array, and what the client decodes from the
    array are the pieces of exactly the tokens the scanner finds in that text,
    each standing for its part of the text, in order and apart; for a text that
    fits flex's buffer and has no brace before [project]. *)
Theorem highlighting_end_to_end `{Yyjson} `{Writer} p j qc qd :
  reachable (LW := by_the_grammar) p -> j ∈ pl_freed p -> is_cancelled j = false ->
  me_kind <$> method_lookup (job_method (request_doc j)) = Some (METHOD_QUERY SemanticTokensFull) ->
  context j = Some qc -> query_context_primary qc = Some qd -> text_ok (qd_snap qd) ->
  exists (E : Env) s i d result bytes data st toks st',
    let named := request_primary_uri (job_params (request_doc j)) in
    let src := text_of (snap_text (qd_snap qd)) in
    runs (LW := by_the_grammar) (take (job_no j) (pl_processed p)) s /\
    named ≫= (fun u => doc_find (sv_docs s) u) = Some i /\ sv_docs s !! i = Some d /\
    d_text d = Some (snap_text (qd_snap qd)) /\
    reply_of j = Some (make_response (id_item (request_doc j)) result) /\
    field "data" result = Some (M_raw bytes) /\ scan_array bytes = Some data /\
    scan st src = Some (toks, st') /\
    decode 0 0 data = concat (span_entries <$> (g_spans st').1) /\
    Forall (span_at src) (g_spans st').1 /\ spans_apart (g_spans st').1.
Proof.
  intros Hr Hj Hx Hk Hctx Hprim Htext.
  destruct (completed_query_pinned (LW := by_the_grammar) p j _ Hr Hj Hx Hk) as [Hn (_ & _ & _ & E & s & Hs & Hc)].
  destruct (server_state_ok s (runs_reachable _ _ Hs)) as (Hso & _ & Hpub).
  rewrite Hctx in Hc. injection Hc as ->.
  destruct (primary_is_named (LW := by_the_grammar) E s _ _ qd Hso Hpub Hprim) as (i & d & Hi & Hd & Hsn & Hdt).
  destruct Hso as [_ Hsync]. rewrite Forall_forall in Hsync.
  destruct (Hsync d (list_elem_of_lookup_2 _ _ _ Hd) _ Hsn) as [_ Hparse].
  pose proof (parsed_snapshot_wf _ Hparse Htext) as [_ Hspans]. destruct Htext as [Hf Hl].
  destruct (snapshot_parsed _ Hparse Hf Hl) as (st & _ & _ & _ & r & _ & c & root & Hm & _ & Hscan & _ & _ & _ & _ & Hsnap).
  destruct (scan_inv st _ Hm Hf) as (toks & st' & Hscan' & _ & _ & _ & Hi').
  rewrite Hscan in Hscan'. injection Hscan' as ->.
  assert (Hdata : docsnap_data (qd_snap qd) = compute_semantic_tokens_data (g_spans st').1) by (by rewrite Hsnap at 1).
  exists E, s, i, d, (build_semantic_tokens_json_from_buf (docsnap_data (qd_snap qd)) (Some (Replies.text (sem_tokens_result_id (qd_snap qd))))).
  exists (build_uint32_array_json (docsnap_data (qd_snap qd))), (docsnap_data (qd_snap qd)), st, toks, st'. cbv zeta. split_and!; try done.
  - unfold reply_of, server_run_query. by rewrite Hn, Hx, Hk, Hctx, Hprim.
  - apply uint32_array_roundtrip. unfold docsnap_data. by apply data_u32.
  - rewrite Hdata. apply sem_tokens_decode. apply Hi'.
  - eapply Forall_impl; [apply Hi'|]. by intros x [? _].
  - eapply spans_from_apart, Hi'.
Qed.

(** ** A session *)

(** The writer of the examples. *)
#[local] Existing Instance plain_writer.

(** Startup loads the file; the client asks for its highlighting and its
    outline, and for the references of the task [b] in it. *)
Definition at_position (uri : string) (l c : Z) : sample_json :=
  JObj [("textDocument", text_document uri []); ("position", JObj [("line", JNum l); ("character", JNum c)])]%string.

Definition reply_schedule : list Server.action :=
  (Act_message <$>
    [ message "initialize" (Some 1%Z) root_params;
      message "initialized" None (JObj []);
      message "textDocument/semanticTokens/full" (Some 2%Z) (JObj [("textDocument", text_document "file:///w/a.tjp" [])]);
      message "textDocument/documentSymbol" (Some 3%Z) (JObj [("textDocument", text_document "file:///w/a.tjp" [])]);
      message "textDocument/hover" (Some 4%Z) (at_position "file:///w/a.tjp" 0 1) ]%string) ++
  replicate 13 Act_coordinator ++
  [Act_worker 0; Act_worker 0; Act_worker 0; Act_worker 0; Act_worker 0; Act_worker 0].

Definition reply_pool : pool := run_from_start grammar_env reply_schedule.

Lemma reply_pool_reachable : reachable (LW := by_the_grammar) reply_pool.
Proof. exact (run_from_start_reachable grammar_env reply_schedule grammar_env_lawful). Qed.

(** A completed request with the primary document of its context. *)
Definition freed_view (p : pool) (n : nat) : option (Job * query_context * query_doc) :=
  j ← List.find (fun j => job_no j =? n)%nat (pl_freed p); qc ← context j; qd ← query_context_primary qc; Some (j, qc, qd).

Lemma freed_view_spec p n j qc qd :
  freed_view p n = Some (j, qc, qd) -> j ∈ pl_freed p /\ context j = Some qc /\ query_context_primary qc = Some qd.
Proof.
  unfold freed_view. destruct (List.find _ _) as [j'|] eqn:Ej; [|done]. cbn.
  destruct (context j') as [qc'|] eqn:Ec; [|done]. cbn. destruct (query_context_primary qc') as [qd'|] eqn:Ed; [|done].
  intros [= -> -> ->]. apply List.find_some in Ej as [Ej _]. split_and!; [by apply list_elem_of_In|done|done].
Qed.

(** The texts a context shows. *)
Definition shown_texts (qc : query_context) : list string :=
  match qc_ws qc with Some ws => snap_text <$> omap wd_snap (ws_docs ws) | None => [] end.

Lemma shown_texts_ok qc : Forall (fun s => fits (text_of s) /\ text_leads (text_of s)) (shown_texts qc) -> texts_ok qc.
Proof.
  intros Hall ws w sn Hws Hw Hsn. unfold shown_texts in Hall. rewrite Hws in Hall.
  rewrite Forall_fmap, Forall_forall in Hall. apply Hall, list_elem_of_omap. by exists w.
Qed.

Lemma live_text_ok : fits (text_of live_text) /\ text_leads (text_of live_text).
Proof. split; [exact live_text_fits|exact live_text_leads]. Qed.

Lemma reply_view n (Hn : n = 2%nat \/ n = 4%nat) :
  exists j qc qd, freed_view reply_pool n = Some (j, qc, qd) /\ is_cancelled j = false /\
    is_Some (reply_of j) /\ shown_texts qc = [live_text] /\ snap_text (qd_snap qd) = live_text /\
    me_kind <$> method_lookup (job_method (request_doc j)) = Some (METHOD_QUERY (if (n =? 2)%nat then SemanticTokensFull else Hover)).
Proof.
  assert (H : option_map (fun v => (is_cancelled v.1.1, bool_decide (is_Some (reply_of v.1.1)), shown_texts v.1.2, snap_text (qd_snap v.2),
      me_kind <$> method_lookup (job_method (request_doc v.1.1)))) (freed_view reply_pool n)
      = Some (false, true, [live_text], live_text, Some (METHOD_QUERY (if (n =? 2)%nat then SemanticTokensFull else Hover))))
    by (destruct Hn; subst n; vm_compute; reflexivity).
  destruct (freed_view reply_pool n) as [[[j qc] qd]|]; [|discriminate H].
  exists j, qc, qd. split; [reflexivity|]. cbn [option_map fst snd] in H. revert H.
  generalize (shown_texts qc), (snap_text (qd_snap qd)), live_text. intros o s s' [= -> Hr -> -> ->].
  split_and!; try done. by apply bool_decide_eq_true in Hr.
Qed.

Lemma sample_get_uint_range (v : @yyjson_val sample_yyjson) z : get_uint v = Some z -> (0 <= z)%Z.
Proof. destruct v; cbn; try done. case_match eqn:E; [|done]. intros [= <-]. lia. Qed.

Lemma server_replies_typed_witness :
  exists j r, j ∈ pl_freed reply_pool /\ reply_of j = Some r /\ message_type j = result_type Hover /\
    has_type (response_type (result_type Hover)) (response_json r).
Proof.
  destruct (reply_view 4 (or_intror eq_refl)) as (j & qc & qd & Hv & _ & Hrep & Htexts & _ & Hk).
  destruct (freed_view_spec _ _ _ _ _ Hv) as (Hj & Hc & _).
  assert (Ht : message_type j = result_type Hover) by (unfold message_type; by rewrite Hk).
  destruct Hrep as [r Hrep]. exists j, r. split_and!; [done|done|done|]. rewrite <- Ht.
  apply (proj2 (server_replies_typed sample_get_uint_range reply_pool reply_pool_reachable) j r Hj); [|exact Hrep].
  intros qc' Hc'. rewrite Hc in Hc'. injection Hc' as <-. apply shown_texts_ok. rewrite Htexts.
  repeat constructor; apply live_text_ok.
Defined.

Lemma highlighting_end_to_end_witness :
  exists j result bytes data, j ∈ pl_freed reply_pool /\
    reply_of j = Some (make_response (id_item (request_doc j)) result) /\
    field "data" result = Some (M_raw bytes) /\ scan_array bytes = Some data /\
    exists st toks st', scan st (text_of live_text) = Some (toks, st') /\
      decode 0 0 data = concat (span_entries <$> (g_spans st').1).
Proof.
  destruct (reply_view 2 (or_introl eq_refl)) as (j & qc & qd & Hv & Hx & _ & _ & Ht & Hk).
  destruct (freed_view_spec _ _ _ _ _ Hv) as (Hj & Hc & Hp).
  destruct (highlighting_end_to_end reply_pool j qc qd reply_pool_reachable Hj Hx Hk Hc Hp)
    as (E & s & i & d & result & bytes & data & st & toks & st' & _ & _ & _ & _ & Hr & Hf & Hs & Hsc & Hd & _).
  { unfold text_ok. rewrite Ht. exact live_text_ok. }
  rewrite Ht in Hsc. exists j, result, bytes, data. split_and!; [exact Hj|exact Hr|exact Hf|exact Hs|]. exists st, toks, st'. exact (conj Hsc Hd).
Defined.
