(* ===== verification/LiveDiags.v ===== *)
(** * The diagnostics of a running server.

    Server, workspace snapshots, diagnostics workers, tj3 and JSON together: what
    a client is sent as diagnostics has the type the protocol gives it, and every
    marker a client shows stands for something: an [include] in the text of a
    document, a whole include file, or a message of tj3 about a file of the
    project. *)

From S2P Require Import Prelude CText PathUri Tokens Syntax Rpc MutJson TokenQuery Scanner LiveDocs Store Workspace Assembly Revalidate.
From S2P Require Import Lifecycle QueryContext Server Diagnostics DiagWorker Replies ReplyTypes LiveReplies Tj3 Tj3Run.

(** ** Sets *)

(** Every diagnostic of a set, with its URI, is as [P] says. *)
Definition set_all (P : string -> Diagnostic -> Prop) (s : diag_set) : Prop :=
  Forall (fun f => Forall (P f.1) f.2) s.

Section SetAll.
Variable P : string -> Diagnostic -> Prop.

Lemma set_all_add s uri d : set_all P s -> P uri d -> set_all P (diag_set_add s uri d).
Proof.
  intros Hs Hd. induction Hs as [|[u items] s Hf Hs IH]; cbn; [by repeat constructor|].
  case_bool_decide as E; constructor; cbn in *; try done. subst. apply Forall_app. by repeat constructor.
Qed.

Lemma set_all_items s u d : set_all P s -> d ∈ diag_items s u -> P u d.
Proof.
  induction 1 as [|[u' items] s Hf Hs IH]; cbn; [by intros ?%elem_of_nil|].
  case_bool_decide as E; [|done]. subst. rewrite Forall_forall in Hf. apply Hf.
Qed.

Lemma set_all_warnings spans uri status : forall out, set_all P out ->
  (forall d, d ∈ ((fun t => warning (mkRange (ts_start t) (ts_end t)) (disabled_message status)) <$>
     filter (fun t => ts_kind t = KW_INCLUDE) spans) -> P uri d) ->
  set_all P (warn_includes spans uri status out).
Proof.
  induction spans as [|t spans IH]; intros out Hout Hw; [done|]. cbn. rewrite filter_cons in Hw. apply IH.
  - case_bool_decide as E; [|done]. rewrite decide_True in Hw by done. apply set_all_add; [done|]. apply Hw. by left.
  - intros d Hd. apply Hw. case_decide; [by right|done].
Qed.

(** The set one document adds to. *)
Lemma set_all_cc ws i out : set_all P out ->
  (ws_cc_status ws <> CC_STATUS_OK -> forall w sn d, w ∈ ws_docs ws -> wd_snap w = Some sn ->
     d ∈ doc_warnings (ws_cc_status ws) sn -> P (snap_uri sn) d) ->
  set_all P (diag_collect_cc_missing ws i out).
Proof.
  intros Hout Hw. unfold diag_collect_cc_missing. case_bool_decide as Hst; [done|]. specialize (Hw Hst). clear Hst. revert out Hout Hw.
  generalize (ws_cc_status ws) as status. intros status. induction (ws_docs ws) as [|w docs IH]; intros out Hout Hw; [done|].
  cbn. apply IH; [|intros w' sn d Hin; by apply Hw; right]. unfold collect_ws_doc. destruct (wd_snap w) as [sn|] eqn:E; [|done].
  destruct (_ || _); [done|]. specialize (Hw w sn). unfold collect_doc_cc_warnings. unfold doc_warnings in Hw.
  destruct (ends_with _ _).
  - apply set_all_add; [done|]. apply Hw; [left|done|]. by apply list_elem_of_singleton.
  - apply set_all_warnings; [done|]. intros d. by apply Hw; [left|].
Qed.
End SetAll.

(** ** Messages of tj3 *)

Lemma Forall_subset {A} {P : A -> Prop} (l k : list A) : Forall P l -> k ⊆ l -> Forall P k.
Proof. rewrite !Forall_forall. auto. Qed.

(** A marker for a message about the file: on one line, from its start. *)
Definition tj3_marker (ms : list member) (u : string) (d : Diagnostic) : Prop :=
  u ∈ m_uri <$> ms /\ dg_source d = Some "tj3"%string /\ (dg_severity d = DIAG_ERROR \/ dg_severity d = DIAG_WARNING) /\
  exists l, (0 <= l < INT_MAX)%Z /\ dg_range d = mkRange (mkPos l 0) (mkPos l INT_MAX).

Lemma int32_max z : (int32 z <= INT_MAX)%Z.
Proof. unfold int32, INT_MAX. pose proof (Z.mod_pos_bound (z + 2147483648) 4294967296). lia. Qed.

Lemma line_number_max ds n : line_number ds = Some n -> (n <= INT_MAX)%Z.
Proof.
  unfold line_number. destruct ds as [|c ds]; [done|]. destruct (forallb _ _); [|done]. intros [= <-].
  cbn [foldl]. generalize (int32_max (0 * 10 + digit_val c)). generalize (int32 (0 * 10 + digit_val c)).
  induction ds as [|c' ds IH]; intros v Hv; [done|]. apply IH, int32_max.
Qed.

Section Messages.
Variables (P : string -> Diagnostic -> Prop) (tmpdir : list ascii) (real_tmp : option (list ascii)) (ms : list member).
Hypothesis HP : forall u d, tj3_marker ms u d -> P u d.

Lemma mapped_member path u : map_reported_path path tmpdir real_tmp ms = Some u -> u ∈ m_uri <$> ms.
Proof.
  unfold map_reported_path. intros (mem & Hm & ->)%fmap_Some. apply List.find_some in Hm as [Hm _].
  apply list_elem_of_fmap. exists mem. by split; [|apply list_elem_of_In].
Qed.

Lemma set_all_line out line : set_all P out -> set_all P (parse_diagnostic_line tmpdir real_tmp ms out line).
Proof.
  intros Hout. unfold parse_diagnostic_line.
  destruct (find_marker line) as [[[s b] msg]|] eqn:Es; cbn [mbind option_bind default from_option]; [|done].
  destruct (last_colon b) as [[p ds]|]; cbn [mbind option_bind default from_option]; [|done].
  destruct (line_number ds) as [n|] eqn:En; cbn [mbind option_bind default from_option]; [|done].
  destruct (map_reported_path _ _ _ _) as [u|] eqn:Eu; cbn [mbind option_bind default from_option id]; [|done].
  apply set_all_add; [done|]. apply HP. split; [by eapply mapped_member|]. split; [done|]. cbn [dg_severity dg_range]. split.
  - unfold find_marker in Es. destruct (strstr line error_marker) as [[]|]; [injection Es; auto|].
    destruct (strstr line warning_marker) as [[]|]; [injection Es; auto|done].
  - eexists. split; [|done]. apply line_number_max in En. unfold INT_MAX in *.
    destruct (Z.gtb_spec n 0); lia.
Qed.

Lemma set_all_messages buf out : set_all P out -> set_all P (parse_diagnostics buf tmpdir real_tmp ms out).
Proof.
  intros Hout. unfold parse_diagnostics. destruct buf as [buf|]; [|done].
  revert out Hout. induction (strtok _ _) as [|l ls IH]; intros out Hout; cbn [foldl]; [done|].
  by apply IH, set_all_line.
Qed.
End Messages.

Definition members (ws : workspace_snapshot) (i : nat) : list member := assign_member_relpaths (collect_project_members ws i).

Lemma set_all_tj3 `{Tj3Env} P fs ws i mode out :
  (forall u d, tj3_marker (members ws i) u d -> P u d) -> set_all P out -> set_all P (tj3_collect_project fs ws i mode out).2.
Proof.
  intros HP Hout. unfold tj3_collect_project. repeat case_match; try done. by apply set_all_messages.
Qed.

(** tj3 adds to the set it is given. *)
Lemma items_add s uri d u x : x ∈ diag_items s u -> x ∈ diag_items (diag_set_add s uri d) u.
Proof. intros Hx. rewrite diag_items_add. case_bool_decide; [|done]. subst. apply elem_of_app. by left. Qed.

Lemma messages_keep buf tmpdir real_tmp ms out u x :
  x ∈ diag_items out u -> x ∈ diag_items (parse_diagnostics buf tmpdir real_tmp ms out) u.
Proof.
  intros Hx. unfold parse_diagnostics. destruct buf as [buf|]; [|done]. revert out Hx.
  induction (strtok _ _) as [|line ls IH]; intros out Hx; cbn [foldl]; [done|]. apply IH. unfold parse_diagnostic_line.
  destruct (find_marker line) as [[[s b] msg]|]; cbn [mbind option_bind default from_option]; [|done].
  destruct (last_colon b) as [[p ds]|]; cbn [mbind option_bind default from_option]; [|done].
  destruct (line_number ds); cbn [mbind option_bind default from_option]; [|done].
  destruct (map_reported_path _ _ _ _); cbn [mbind option_bind default from_option id]; [by apply items_add|done].
Qed.

Lemma tj3_keeps `{Tj3Env} fs ws i mode out u x :
  x ∈ diag_items out u -> x ∈ diag_items (tj3_collect_project fs ws i mode out).2 u.
Proof. intros Hx. unfold tj3_collect_project. repeat case_match; try done. by apply messages_keep. Qed.

(** ** What a marker stands for *)

(** A marker of a document of the table, or of a file of a project. *)
Inductive stands_for (docs : store) (ws : workspace_snapshot) (u : string) : Diagnostic -> Prop :=
  | On_include doc text range : doc ∈ docs -> d_in_use doc = true -> d_uri doc = Some u -> d_text doc = Some text ->
      fits (text_of text) -> ws_cc_status ws <> CC_STATUS_OK ->
      stands_at (text_of text) (list_ascii_of_string "include") (rstart range) (rend range) ->
      stands_for docs ws u (warning range (disabled_message (ws_cc_status ws)))
  | On_include_file doc : doc ∈ docs -> d_in_use doc = true -> d_uri doc = Some u -> ends_with ".tji" u = true ->
      ws_cc_status ws <> CC_STATUS_OK ->
      stands_for docs ws u (warning (mkRange (mkPos 0 0) (mkPos 0 INT_MAX)) (standalone_message (ws_cc_status ws)))
  | From_tj3 i d : tj3_marker (members ws i) u d -> stands_for docs ws u d.

(** Every document a snapshot shows is one the server can read. *)
Definition readable (ws : workspace_snapshot) : Prop :=
  forall w sn, w ∈ ws_docs ws -> wd_snap w = Some sn -> text_ok sn.

Lemma include_span text s : scanned text s -> ts_kind s = KW_INCLUDE -> stands_at text (list_ascii_of_string "include") (ts_start s) (ts_end s).
Proof.
  intros [(body & Hst & Hlex) [[_ Hkw] _]] Hk. rewrite Hk in Hlex, Hkw. cbn in Hlex.
  destruct Hlex as (l & Hl & _ & Hb). rewrite (Hkw "include"%string) in Hl.
  - destruct Hb as [->|[Hin _]]; [|exfalso; revert Hin; apply (bool_decide_eq_false_1 (KW_INCLUDE ∈ [TK_STR; TK_MULTI_LINE_STR; TK_BLOCK_COMMENT])); by vm_compute]. injection Hl as Hl.
    apply (f_equal list_ascii_of_string) in Hl. rewrite list_ascii_of_string_of_list_ascii in Hl. by rewrite <- Hl in Hst.
  - apply (bool_decide_unpack _). by vm_compute.
Qed.

Lemma snapshot_scanned sn : parse_of (H := by_the_grammar) sn -> text_ok sn ->
  Forall (scanned (text_of (snap_text sn))) (snap_tok_spans sn).
Proof.
  intros Hp [Hf Hl]. destruct (snapshot_parsed sn Hp Hf Hl) as (st & _ & _ & _ & r & _ & c & root & Hm & _ & Hs & _ & _ & _ & _ & ->).
  cbn [docsnap_new snap_text snap_tok_spans]. destruct (scan_inv st _ Hm Hf) as (toks & st' & Hs' & _ & _ & _ & Hi).
  cbn [docsnap_new snap_text] in Hs. rewrite Hs in Hs'. injection Hs' as ->. apply Hi.
Qed.

(** The documents of a snapshot are those of the table. *)
Lemma shown_from_table `{Env} docs status w sn : length docs = MAX_DOCS ->
  w ∈ ws_docs (build_workspace_snapshot docs status) -> wd_snap w = Some sn ->
  exists d, d ∈ docs /\ d_in_use d = true /\ d_snap d = Some sn.
Proof.
  intros Hl Hw Hs. destruct (build_form docs status Hl) as (vs & _ & E). rewrite E in Hw. cbn [ws_docs] in Hw.
  apply elem_of_ws_view in Hw as (i & d & Hi & Hp & ->). exists d. split; [by eapply list_elem_of_lookup_2|].
  unfold is_parsed in Hp. apply andb_true_iff in Hp as [? _]. by split.
Qed.

Section Published.
Context `{Yyjson}.
Variables (s : server) (ws : workspace_snapshot).
Hypotheses (Hs : rtc (server_step (H0 := by_the_grammar)) server_init s) (Hws : g_ws s = Some ws) (Hread : readable ws).

Lemma shown_document w sn : w ∈ ws_docs ws -> wd_snap w = Some sn ->
  exists d, d ∈ sv_docs s /\ d_in_use d = true /\ d_uri d = Some (snap_uri sn) /\ d_text d = Some (snap_text sn) /\
    Forall (scanned (text_of (snap_text sn))) (snap_tok_spans sn).
Proof.
  intros Hw Hsn. destruct (server_state_ok s Hs) as ([Hok Hsync] & _ & [[? _]|(E & status & Hb)]); [congruence|].
  rewrite Hws in Hb. injection Hb as E'. pose proof Hw as Hw'. rewrite E' in Hw'.
  destruct (shown_from_table _ _ _ _ (proj1 Hok) Hw' Hsn) as (d & Hd & Hu & Hds).
  rewrite Forall_forall in Hsync. destruct (Hsync d Hd _ Hds) as [Ht Hp]. exists d. split_and!; try done.
  - destruct Hok as (_ & Hslots & _). rewrite Forall_forall in Hslots. destruct (Hslots d Hd) as (_ & Hin & Hsl & _).
    destruct (Hin Hu) as [[u Hu'] _]. destruct (Hsl _ Hds) as [-> _]. by rewrite Hu'.
  - apply snapshot_scanned; [done|]. by eapply Hread.
Qed.

Lemma warnings_stand w sn d : w ∈ ws_docs ws -> wd_snap w = Some sn -> ws_cc_status ws <> CC_STATUS_OK ->
  d ∈ doc_warnings (ws_cc_status ws) sn -> stands_for (sv_docs s) ws (snap_uri sn) d.
Proof.
  intros Hw Hsn Hst Hd. destruct (shown_document w sn Hw Hsn) as (doc & Hdoc & Hu & Huri & Ht & Hscan).
  unfold doc_warnings in Hd. destruct (ends_with ".tji" (snap_uri sn)) eqn:Ee.
  - apply list_elem_of_singleton in Hd as ->. by eapply On_include_file.
  - apply list_elem_of_fmap in Hd as (t & -> & [Hk Ht']%list_elem_of_filter). rewrite Forall_forall in Hscan.
    eapply On_include; try done; [by eapply Hread|]. apply include_span; [by apply Hscan|done].
Qed.

Lemma collected_stand `{Tj3Env} fs id mode :
  set_all (stands_for (sv_docs s) ws) (collect id mode (fun ws i mode out => (tj3_collect_project fs ws i mode out).2) ws).
Proof.
  unfold collect. destruct (list_find _ _) as [[i p]|]; [|constructor]. apply set_all_tj3; [intros u d; by apply From_tj3|].
  apply set_all_cc; [constructor|]. intros Hst w sn d Hw Hsn. by apply (warnings_stand w).
Qed.

End Published.

(** ** What is sent *)

Definition publish_type : lsp_type :=
  T_object [required "jsonrpc" (T_literal "2.0"); required "method" (T_literal "textDocument/publishDiagnostics");
            required "params" (T_object [required "uri" T_string; required "diagnostics" (T_array (T_named Diagnostic_))])]%string.

Definition sent_well (p : publication) : Prop := has_type publish_type (publication_json p).

Lemma stands_for_typed docs ws u d : stands_for docs ws u d -> has_type (T_named Diagnostic_) (diagnostic_json d).
Proof.
  assert (Hmax : forall l, (0 <= l < INT_MAX)%Z -> range_wf (mkRange (mkPos l 0) (mkPos l INT_MAX))).
  { unfold INT_MAX. intros l Hl. split; split; cbn; unfold is_u32, u32_modulus; lia. }
  destruct 1 as [doc text range _ _ _ _ Hf _ Hst|doc _ _ _ _ _|i d (_ & _ & Hsev & l & Hl & Hr)].
  - apply stands_at_ok in Hst as (? & ? & _); [|done]. by apply diagnostic_typed; [split|cbn; unfold DIAG_WARNING; lia].
  - apply diagnostic_typed; [by apply Hmax|cbn; unfold DIAG_WARNING; lia].
  - apply diagnostic_typed; [rewrite Hr; by apply Hmax|unfold DIAG_ERROR, DIAG_WARNING in Hsev; lia].
Qed.

Lemma notification_typed u ds : Forall (fun d => has_type (T_named Diagnostic_) (diagnostic_json d)) ds -> sent_well (u, ds).
Proof. intros Hds. rewrite Forall_forall in Hds. unfold sent_well, publish_type, publication_json. cbn [fst snd]. has_type. Qed.

Lemma published_typed `{Writer} docs ws cur prev : set_all (stands_for docs ws) cur -> Forall sent_well (diag_set_publish (Some cur) prev).
Proof.
  intros Hc. rewrite publish_written. apply (Forall_subset (due (Some cur) prev)); [|by intros ? [_ ?]%list_elem_of_filter].
  unfold due. apply Forall_app. split.
  - eapply Forall_impl; [exact Hc|]. intros [u ds] Hds. apply notification_typed. eapply Forall_impl; [exact Hds|]. intros d. apply stands_for_typed.
  - apply Forall_fmap, Forall_true. intros u. by apply notification_typed.
Qed.

(** ** Workers *)

Section Worker.
Context `{Tj3Env} `{Writer}.
(** The file system tj3 is run on for a snapshot. *)
Variable files : workspace_snapshot -> FileSys.fsys.

(** tj3 as the workers call it. *)
Definition tj3_on (ws : workspace_snapshot) (i : nat) (mode : tj3_mode) (out : diag_set) : diag_set :=
  (tj3_collect_project (files ws) ws i mode out).2.

Lemma tj3_on_nodup ws i mode out : NoDup (uris out) -> NoDup (uris (tj3_on ws i mode out)).
Proof. apply tj3_nodup. Qed.

Variables (id : string) (mode : tj3_mode).

(** The warnings of a snapshot are in the set of its project. *)
Lemma collected_warnings ws i p w sn d : list_find (fun p => wp_id p = Some id) (ws_projects ws) = Some (i, p) ->
  ws_cc_status ws <> CC_STATUS_OK -> w ∈ ws_docs ws -> wd_project_index w = Z.of_nat i -> wd_disk_only w = false ->
  wd_snap w = Some sn -> d ∈ doc_warnings (ws_cc_status ws) sn ->
  d ∈ diag_items (collect id mode tj3_on ws) (snap_uri sn).
Proof.
  intros Hf Hst Hw Hi Hdo Hsn Hd. unfold collect. rewrite Hf. apply tj3_keeps.
  destruct (cc_warnings_exact ws i diag_set_new) as (_ & _ & Hx); [apply NoDup_nil_2|]. rewrite Hx by done.
  apply elem_of_app. right. apply list_elem_of_In, in_concat. exists (doc_warnings (ws_cc_status ws) sn).
  split; [|by apply list_elem_of_In]. apply list_elem_of_In, list_elem_of_fmap. exists w. split; [|done]. rewrite Hsn. by rewrite bool_decide_eq_true_2.
Qed.
End Worker.

(** The snapshot was published by the server in one of its states. *)
Definition published_in `{Yyjson} `{Writer} (p : pool) (ws : workspace_snapshot) : Prop :=
  reachable (LW := by_the_grammar) p /\ g_ws (pl_server p) = Some ws /\ readable ws.

Lemma published_server `{Yyjson} `{Writer} p ws : published_in p ws -> rtc (server_step (H0 := by_the_grammar)) server_init (pl_server p).
Proof. intros (Hr & _). eapply runs_reachable, (ok_run p), (reachable_inv (LW := by_the_grammar) p Hr). Qed.

(** C5: Diagnostics, end to end.  A worker is asked to validate snapshots the
    server published, in whatever order and however its thread is scheduled, by
    a tj3 that may write anything; the documents of the snapshots are texts that
    fit flex's buffer and have no brace before [project].  Then every
    notification it sends has the type the protocol gives it.  Each marker the
    client shows is for a document that was in the table, or a file of the
    project, when one of the snapshots was published: it stands exactly on an
    [include] in the text of the document, or covers an include file, while
    compile_commands.json is missing, or it is for a message of tj3.  When the
    worker is idle, at every URI whose notifications the JSON library can write
    (their texts are UTF-8) the markers are for the last snapshot, and every
    warning due for a document of the project is shown; and a worker that exits
    after it was told to clear leaves no marker there. *)
Theorem diagnostics_end_to_end `{Yyjson} `{Tj3Env} `{Writer} files id mode w m rs :
  rtc (worker_step id mode (tj3_on files)) (diag_worker_spawn, no_markers, []) (w, m, rs) ->
  Forall (fun ws => exists p, published_in p ws) rs ->
  (forall ws w' ps, w_running w = Some ws -> run_once id mode (tj3_on files) ws w = (w', ps) -> Forall sent_well ps) /\
  (forall w' ps, exit_thread w = (w', ps) -> Forall sent_well ps) /\
  (forall u d, d ∈ m u -> exists ws p, ws ∈ rs /\ published_in p ws /\ stands_for (sv_docs (pl_server p)) ws u d) /\
  forall u, deliverable id mode (tj3_on files) u rs ->
    (w_stop w = false -> w_pending w = None -> w_running w = None -> forall ws p, last rs = Some ws -> published_in p ws ->
       (forall d, d ∈ m u -> stands_for (sv_docs (pl_server p)) ws u d) /\
       (forall i proj k sn d, list_find (fun p => wp_id p = Some id) (ws_projects ws) = Some (i, proj) ->
          ws_cc_status ws <> CC_STATUS_OK -> k ∈ ws_docs ws -> wd_project_index k = Z.of_nat i -> wd_disk_only k = false ->
          wd_snap k = Some sn -> snap_uri sn = u -> d ∈ doc_warnings (ws_cc_status ws) sn -> d ∈ m u)) /\
    (w_exited w = true -> w_clear_on_stop w = true -> m u = []).
Proof.
  intros Hr Hrs. rewrite Forall_forall in Hrs.
  destruct (worker_run_inv id mode _ (tj3_on_nodup files) _ Hr) as (_ & Hreq & H2 & H3 & H4 & H5 & H6).
  assert (Hstand : forall ws p, published_in p ws -> set_all (stands_for (sv_docs (pl_server p)) ws) (collect id mode (tj3_on files) ws)).
  { intros ws p Hp. eapply collected_stand; [by eapply published_server|apply Hp|apply Hp]. }
  split_and!.
  - intros ws w' ps Hw [= _ <-]. destruct (Hrs ws (Hreq ws (or_intror Hw))) as (p & Hp). by eapply published_typed, Hstand.
  - intros w' ps [= _ <-]. destruct (w_clear_on_stop w); [|constructor]. unfold clear_published. destruct (w_last_published w); [|constructor].
    apply (published_typed [] (mkWs [] [] 0)). constructor.
  - intros u d Hd. destruct (H6 u) as [E|(ws & Hin & E)]; rewrite E in Hd; [by apply elem_of_nil in Hd|].
    destruct (Hrs ws Hin) as (p & Hp). exists ws, p. split_and!; [done..|]. revert Hd. by apply set_all_items, Hstand.
  - intros u Hu. split; [|intros He Hc; by apply H4].
    intros Hst Hp Hrun' ws p Hlast Hpub. specialize (H5 Hst). rewrite Hp, Hrun', Hlast in H5. cbn in H5.
    assert (He : w_exited w = false) by (destruct (w_exited w) eqn:E; [destruct (H2 eq_refl); congruence|done]).
    specialize (H3 He u Hu). rewrite H5 in H3. cbn in H3. rewrite H3. split.
    + intros d. by apply set_all_items, Hstand.
    + intros i proj k sn d Hf Hcc Hk Hi Hdo Hsn <-. by eapply collected_warnings.
Qed.

(** ** A session *)

(** The writer of the examples. *)
#[local] Existing Instance plain_writer.

(** The editor opens a file with an include; there is no
    compile_commands.json. *)
Definition include_text : string := string_of_list_ascii (Scanner.chars "include ~b.tji~\task a ~A~").

Definition include_schedule : list Server.action :=
  (Act_message <$>
    [ message "initialize" (Some 1%Z) (JObj []);
      message "initialized" None (JObj []);
      message "textDocument/didOpen" None (open_params "file:///w/a.tjp" include_text) ]%string) ++
  replicate 6 Act_coordinator.

Definition include_pool : pool := run_from_start grammar_env include_schedule.

(** The first document of a published snapshot, with its project and its first
    warning. *)
Definition first_warning (p : pool) : option (workspace_snapshot * (nat * ws_project) * ws_doc * doc_snapshot * Diagnostic) :=
  ws ← g_ws (pl_server p); f ← list_find (fun p => wp_id p = Some "file:///w/a.tjp"%string) (ws_projects ws);
  k ← ws_docs ws !! 0%nat; sn ← wd_snap k; d ← doc_warnings (ws_cc_status ws) sn !! 0%nat; Some (ws, f, k, sn, d).

Lemma first_warning_spec p ws f k sn d : first_warning p = Some (ws, f, k, sn, d) ->
  g_ws (pl_server p) = Some ws /\ list_find (fun p => wp_id p = Some "file:///w/a.tjp"%string) (ws_projects ws) = Some f /\
  k ∈ ws_docs ws /\ wd_snap k = Some sn /\ d ∈ doc_warnings (ws_cc_status ws) sn.
Proof.
  unfold first_warning. intros (ws' & Hws & (f' & Hf & (k' & Hk & (sn' & Hsn & (d' & Hd & [= -> -> -> -> ->])%bind_Some)%bind_Some)%bind_Some)%bind_Some)%bind_Some.
  split_and!; try done; by eapply list_elem_of_lookup_2.
Qed.

Lemma include_text_ok : fits (text_of include_text) /\ text_leads (text_of include_text).
Proof.
  split; [by vm_compute|]. intros st r Hm Hs. destruct st. cbn in Hm. subst. vm_compute in Hs. injection Hs as <-. by vm_compute.
Qed.

(** What is announced in this session can be written. *)
Definition delivered (ws : workspace_snapshot) : bool :=
  let u := "file:///w/a.tjp"%string in
  writable (u, []) && writable (u, diag_items (collect u TJ3_SYNTAX_ONLY (@tj3_on reporting_env (fun _ => ∅)) ws) u).

Lemma include_view : exists ws f k sn d, first_warning include_pool = Some (ws, f, k, sn, d) /\
  ws_cc_status ws <> CC_STATUS_OK /\ wd_project_index k = Z.of_nat f.1 /\ wd_disk_only k = false /\
  snap_uri sn = "file:///w/a.tjp"%string /\ delivered ws = true /\
  Forall (fun s => s = include_text) (snap_text <$> omap wd_snap (ws_docs ws)).
Proof.
  assert (H : option_map (fun '(ws, f, k, sn, d) => (ws_cc_status ws, wd_project_index k, f.1, wd_disk_only k, snap_uri sn,
      delivered ws, snap_text <$> omap wd_snap (ws_docs ws))) (first_warning include_pool)
    = Some (CC_STATUS_MISSING, 0%Z, 0%nat, false, "file:///w/a.tjp"%string, true, [include_text])) by (vm_compute; reflexivity).
  destruct (first_warning include_pool) as [[[[[ws f] k] sn] d]|]; [|discriminate H].
  exists ws, f, k, sn, d. split; [reflexivity|]. cbn [option_map] in H. revert H.
  generalize (ws_cc_status ws), (snap_text <$> omap wd_snap (ws_docs ws)), include_text, (delivered ws).
  intros st texts s dl [= -> -> -> -> -> -> ->]. split_and!; try done. by repeat constructor.
Qed.

Lemma include_published ws : g_ws (pl_server include_pool) = Some ws ->
  Forall (fun s => s = include_text) (snap_text <$> omap wd_snap (ws_docs ws)) -> published_in include_pool ws.
Proof.
  intros Hws Ht. split_and!; [exact (run_from_start_reachable grammar_env include_schedule grammar_env_lawful)|exact Hws|].
  intros w sn Hw Hsn. rewrite Forall_fmap, Forall_forall in Ht.
  assert (Hin : sn ∈ omap wd_snap (ws_docs ws)) by (apply list_elem_of_omap; exists w; exact (conj Hw Hsn)).
  pose proof (Ht sn Hin) as E. cbn beta in E.
  unfold text_ok. rewrite E. exact include_text_ok.
Qed.

(** A worker that has validated one snapshot. *)
Section OneRun.
Context `{Tj3Env} `{Writer}.
Variables (files : workspace_snapshot -> FileSys.fsys) (id : string) (mode : tj3_mode) (ws : workspace_snapshot).

Definition validated : diag_worker * list publication :=
  run_once id mode (tj3_on files) ws (take_pending ws (diag_worker_request ws diag_worker_spawn)).

Lemma validated_run : rtc (worker_step id mode (tj3_on files)) (diag_worker_spawn, no_markers, [])
  (validated.1, foldl show no_markers validated.2, [ws]).
Proof.
  apply rtc_l with (diag_worker_request ws diag_worker_spawn, no_markers, [ws]).
  { exact (do_request id mode (tj3_on files) diag_worker_spawn no_markers [] ws eq_refl). }
  apply rtc_l with (take_pending ws (diag_worker_request ws diag_worker_spawn), no_markers, [ws]).
  { exact (do_take id mode (tj3_on files) (diag_worker_request ws diag_worker_spawn) no_markers [ws] ws eq_refl eq_refl eq_refl eq_refl). }
  apply rtc_once. unfold validated. destruct (run_once _ _ _ _ _) as [w' ps] eqn:E.
  exact (do_run id mode (tj3_on files) (take_pending ws (diag_worker_request ws diag_worker_spawn)) no_markers [ws] ws w' ps eq_refl E).
Qed.
End OneRun.

Lemma diagnostics_end_to_end_witness :
  exists ws d, let r := @validated reporting_env plain_writer (fun _ => ∅) "file:///w/a.tjp" TJ3_SYNTAX_ONLY ws in
    published_in include_pool ws /\ d ∈ foldl show no_markers r.2 "file:///w/a.tjp"%string /\
    stands_for (sv_docs (pl_server include_pool)) ws "file:///w/a.tjp" d.
Proof.
  destruct include_view as (ws & f & k & sn & d & Hv & Hst & Hi & Hdo & Hu & Hw & Ht).
  destruct (first_warning_spec _ _ _ _ _ _ Hv) as (Hws & Hf & Hk & Hsn & Hd).
  pose proof (include_published ws Hws Ht) as Hp. exists ws, d. intros r.
  destruct (@diagnostics_end_to_end sample_yyjson reporting_env plain_writer (fun _ => ∅) "file:///w/a.tjp" TJ3_SYNTAX_ONLY r.1
    (foldl show no_markers r.2) [ws] (validated_run _ _ _ _)) as (_ & _ & _ & Hshow).
  { constructor; [|constructor]. by exists include_pool. }
  unfold delivered in Hw. apply andb_true_iff in Hw as [He Hw].
  destruct (Hshow "file:///w/a.tjp"%string) as [Hidle _].
  { split; [exact He|]. intros ws' [->|[]%elem_of_nil]%elem_of_cons. exact Hw. }
  destruct (Hidle eq_refl eq_refl eq_refl ws include_pool eq_refl Hp) as [Hs Hall].
  assert (Hin : d ∈ foldl show no_markers r.2 "file:///w/a.tjp"%string)
    by (destruct f as [i proj]; exact (Hall i proj k sn d Hf Hst Hk Hi Hdo Hsn Hu Hd)).
  split; [exact Hp|]. split; [exact Hin|]. exact (Hs _ Hin).
Defined.
