(* ===== verification/ParseScope.v ===== *)
(** * Which task a statement belongs to.

    [start], [end], [depends] and [precedes] store into the top of the symbol
    stack of grammar.y.  That stack lists the tasks whose headers are open on
    the parser's stack, innermost first, through error recovery too, as long as
    no more than [SYM_STACK_MAX] of them are; so each statement writes to the
    innermost task around it and to nothing else. *)

From S2P Require Import Prelude Tokens Syntax Dates Lexer Scanner Grammar ParseSafety ParseBound ParseTree ProjectBlocks ParsedDoc.

(** ** The states around an open header *)

Lemma predicted_intro st it n m : it ∈ st -> next_symbol it = Some (N n) -> m ∈ corners n -> m ∈ predicted st.
Proof.
  intros Hit Hn Hm. unfold predicted. apply list_elem_of_In, in_flat_map. exists n. split; [|by apply list_elem_of_In].
  apply list_elem_of_In. unfold next_nonterms. apply list_elem_of_omap. exists (Some (N n)). split; [|done].
  apply list_elem_of_fmap. by exists it.
Qed.

(** A larger state goes wherever a smaller one goes. *)
Lemma goto_mono st big x st' :
  st ⊆ big -> goto st x = Some st' -> exists big', goto big x = Some big' /\ st' ⊆ big'.
Proof.
  intros Hsub Hg.
  assert (Hpr : forall m, m ∈ predicted st -> m ∈ predicted big).
  { intros m (it & n & Hit & Hn & Hm)%elem_of_predicted. eapply predicted_intro; [by apply Hsub|done|done]. }
  assert (Hitems : forall i d, (i, d) ∈ st' -> forall big', goto big x = Some big' -> (i, d) ∈ big').
  { intros i d Hin big' Hb. destruct (goto_items _ _ _ _ _ Hg Hin) as (d' & -> & Hn & Hor). unfold goto in Hb.
    set (adv := map _ (filter _ big)) in Hb. set (new := map _ (filter _ indexed_productions)) in Hb.
    assert (Hbig : adv ++ new = big') by (destruct (adv ++ new); by simplify_eq). rewrite <- Hbig. apply elem_of_app.
    destruct Hor as [Hit|[-> (p & Hp & Hl)]].
    - left. apply list_elem_of_fmap. exists (i, d'). split; [done|]. apply list_elem_of_filter. auto.
    - right. apply list_elem_of_fmap. exists (i, p). split; [done|]. apply list_elem_of_filter.
      unfold next_symbol in Hn. cbn [fst snd] in Hn |- *. rewrite Hp in Hn. split; [auto|by apply indexed_elem]. }
  destruct (goto_item _ _ _ Hg) as [[i d] Hin]. destruct (goto_items _ _ _ _ _ Hg Hin) as (d' & -> & Hn & Hor).
  destruct (goto_is_some big x) as [big' Hb].
  { destruct Hor as [Hit|[-> (p & Hp & Hl)]]; [left; exists (i, d'); auto|right]. exists i, p. split; [done|].
    unfold next_symbol in Hn. cbn [fst snd] in Hn. rewrite Hp in Hn. split; [done|auto]. }
  exists big'. split; [done|]. intros [j e] Hje. by eapply Hitems.
Qed.

Definition open_state : lr_state := [(63, 4)]%nat.
Definition brace_state : lr_state := [(136, 1)]%nat.

Lemma open_goto st st' : goto st (N nt_open) = Some st' -> st' ⊆ open_state.
Proof.
  intros Hg [i d] Hin. destruct (goto_items _ _ _ _ _ Hg Hin) as (d' & -> & Hn & _).
  apply (stands_only_spec nt_open [(63, 3)%nat]) in Hn; [|vm_compute; reflexivity].
  apply list_elem_of_singleton in Hn as [= -> ->]. by left.
Qed.

(** What comes on top of an open header. *)
Lemma above_open st x st' :
  st ⊆ open_state -> goto st x = Some st' -> complete st' \/ x = T TK_LBRACE /\ st' ⊆ brace_state.
Proof.
  intros Hs Hg. destruct (goto_mono _ _ _ _ Hs Hg) as (big & Hb & Hsub).
  pose proof (goes_only_spec open_state [T TK_LBRACE; N nt_opt_body] x _ ltac:(vm_compute; reflexivity) Hb) as Hx.
  rewrite !elem_of_cons, elem_of_nil in Hx. destruct Hx as [->|[->|[]]].
  - right. split; [done|]. vm_compute in Hb. injection Hb as <-. exact Hsub.
  - left. eapply closed_complete; [exact Hg|vm_compute; reflexivity].
Qed.

(** Above the brace a body begins, and it recovers from errors. *)
Lemma above_brace st x st' :
  st ⊆ brace_state -> goto st x = Some st' -> is_Some (goto st' Err).
Proof.
  intros Hs Hg. destruct (goto_item _ _ _ Hg) as [[i d] Hin].
  assert (Hx : x = N nt_body_items).
  { destruct (goto_mono _ _ _ _ Hs Hg) as (big & Hb & _).
    pose proof (goes_only_spec brace_state [N nt_body_items] x _ ltac:(vm_compute; reflexivity) Hb) as Hx.
    by apply list_elem_of_singleton in Hx. }
  subst x. assert (Hit : (138, 1)%nat ∈ st').
  { unfold goto in Hg. set (adv := map _ (filter _ st)) in Hg. set (new := map _ (filter _ indexed_productions)) in Hg.
    assert (Hst : adv ++ new = st') by (destruct (adv ++ new); by simplify_eq). rewrite <- Hst. apply elem_of_app. right.
    apply list_elem_of_fmap. exists (138%nat, P nt_body_items [N nt_body_items; N nt_item] A_body_item). split; [done|].
    apply list_elem_of_filter. split; [|by apply indexed_elem]. split; [done|]. cbn [lhs snd].
    destruct (goto_items _ _ _ _ _ Hg Hin) as (d' & -> & Hn & Hor).
    assert (Hne : exists it, it ∈ st).
    { destruct Hor as [?|[_ (p & _ & Hp)]]; [by eexists|]. apply elem_of_predicted in Hp as (it & _ & ? & _). by exists it. }
    destruct Hne as [it Hit']. pose proof (Hs it Hit') as Hit2. apply list_elem_of_singleton in Hit2 as ->.
    by apply (predicted_intro _ (136, 1)%nat nt_body_items); [|vm_compute|apply corners_refl]. }
  apply goto_is_some. right. exists 14%nat, (P nt_item [Err] A_no_item). split_and!; [done|done|].
  by apply (predicted_intro _ (138, 1)%nat nt_item); [|vm_compute|apply corners_refl].
Qed.

(** ** Error recovery *)

Definition is_open (f : frame) : bool := bool_decide (fr_symbol f = N nt_open).

(** An open header is neither the top of the stack nor the one below. *)
Definition sheltered (stk : list frame) : Prop :=
  match stk with
  | f :: g :: _ => is_open f = false /\ is_open g = false
  | [f] => is_open f = false
  | [] => True
  end.

Lemma open_nodes_closed f stk : is_open f = false -> open_nodes (f :: stk) = open_nodes stk.
Proof. intros H%bool_decide_eq_false. by apply open_nodes_skip. Qed.

(** A state that expects what may be empty, and no error token, is reduced. *)
Lemma waiting_state st0 x st it i n a :
  goto st0 x = Some st -> st ⊆ [it] -> next_symbol it = Some (N n) -> production_at i = Some (P n [] a) ->
  goto [it] Err = None -> detects_error st = false.
Proof.
  intros Hg Hs Hn Hp He. destruct (goto_item _ _ _ Hg) as [it' Hit]. pose proof (Hs it' Hit) as Heq.
  apply list_elem_of_singleton in Heq as ->. unfold detects_error, shifts_error. apply orb_false_iff. split.
  - apply bool_decide_eq_false. intros Hr. apply (not_elem_of_nil i). rewrite <- Hr. unfold reductions.
    apply list_elem_of_filter. split.
    + unfold reducible. rewrite Hp. apply orb_true_iff. right. cbn [rhs lhs]. rewrite bool_decide_true by done.
      apply bool_decide_eq_true. eapply predicted_intro; [done|done|apply corners_refl].
    + apply elem_of_remove_dups, elem_of_app. right. apply list_elem_of_fmap. exists (i, P n [] a).
      split; [done|]. apply list_elem_of_filter. split; [done|]. by apply indexed_elem.
  - apply bool_decide_eq_false. intros [st' Hst]. destruct (goto_mono _ _ _ _ Hs Hst) as (big & Hb & _). congruence.
Qed.

Lemma detected_sheltered stk : lr_stack stk -> detects_error (top_state stk) = true -> sheltered stk.
Proof.
  intros Hl Hd. destruct Hl as [|f stk Hg Hl]; [done|]. cbn [top_state] in Hd.
  assert (Hf : is_open f = false).
  { unfold is_open. apply bool_decide_eq_false. intros Hf. rewrite Hf in Hg. pose proof (open_goto _ _ Hg) as Hs.
    pose proof (waiting_state _ _ _ _ 135 nt_opt_body A_no_body Hg Hs eq_refl eq_refl ltac:(vm_compute; reflexivity)). congruence. }
  destruct Hl as [|g stk Hg2 Hl]; [done|]. split; [done|]. unfold is_open. apply bool_decide_eq_false. intros Hgo.
  rewrite Hgo in Hg2. pose proof (open_goto _ _ Hg2) as Hs. cbn [top_state] in Hg.
  destruct (above_open _ _ _ Hs Hg) as [Hc|[_ Hs2]].
  - by rewrite (complete_detects _ _ _ Hg Hc) in Hd.
  - pose proof (waiting_state _ _ _ _ 137 nt_body_items A_no_body Hg Hs2 eq_refl eq_refl ltac:(vm_compute; reflexivity)). congruence.
Qed.

(** Recovery gives up no open header. *)
Lemma recovery_opens stk stk' :
  lr_stack stk -> sheltered stk -> pop_to_error stk = Some stk' -> open_nodes stk' = open_nodes stk.
Proof.
  intros Hl. revert stk'. induction Hl as [|f stk Hg Hl IH]; intros stk' Hs.
  - cbn [pop_to_error top_state]. assert (E : goto start_state Err = None) by (vm_compute; reflexivity). by rewrite E.
  - cbn [pop_to_error top_state]. destruct (goto (fr_state f) Err) as [st|] eqn:E.
    + intros [= <-]. by rewrite open_nodes_skip.
    + assert (Hf : is_open f = false) by (destruct stk; [exact Hs|apply Hs]). rewrite (open_nodes_closed f) by done.
      apply IH. destruct stk as [|g stk]; [done|]. destruct Hs as [_ Hgo].
      destruct stk as [|h stk]; [exact Hgo|]. split; [exact Hgo|]. unfold is_open. apply bool_decide_eq_false. intros Hh.
      inversion Hl as [|? ? Hg2 Hl2]; subst. inversion Hl2 as [|? ? Hg3 _]; subst. rewrite Hh in Hg3.
      cbn [top_state] in Hg, Hg2. pose proof (open_goto _ _ Hg3) as Hs3.
      destruct (above_open _ _ _ Hs3 Hg2) as [Hc|[_ Hs2]].
      * by rewrite (complete_goto _ _ Hc) in Hg.
      * destruct (above_brace _ _ _ Hs2 Hg) as [st' He]. congruence.
Qed.

(** ** The symbol stack *)

Definition task_of (x : node_ptr * value) : option node_ptr :=
  match x.2 with VTok kw => if bool_decide (tok_kind kw = KW_TASK) then Some x.1 else None | _ => None end.

(** The open tasks, innermost first. *)
Definition open_tasks (stk : list frame) : list node_ptr := omap task_of (open_nodes stk).

Lemma omap_task q kw l :
  omap task_of ((q, VTok kw) :: l) = (if bool_decide (tok_kind kw = KW_TASK) then [q] else []) ++ omap task_of l.
Proof. cbn. unfold task_of at 1. cbn. by case_bool_decide. Qed.

(** At most [SYM_STACK_MAX] tasks are open at a time. *)
Definition few_open (m : yy_move) (c : yy_config) : Prop :=
  forall i p, m = Reduce i -> production_at i = Some p -> act p = A_open ->
    (length (open_tasks (yystack c)) < SYM_STACK_MAX)%nat.

Definition attributes (n : pnode) : option Z * option Z * list Dependency :=
  (pn_start_date n, pn_end_date n, pn_dependencies n).

(** Nodes keep their keyword, dates and dependencies; new ones have none. *)
Definition carried (h h' : list pnode) : Prop :=
  (forall p n, h !! p = Some n -> exists n', h' !! p = Some n' /\ pn_keyword n' = pn_keyword n /\ attributes n' = attributes n) /\
  (forall p n', h !! p = None -> h' !! p = Some n' -> attributes n' = (None, None, [])).

Lemma carried_refl h : carried h h.
Proof. split; [eauto|congruence]. Qed.

Lemma carried_app h n : attributes n = (None, None, []) -> carried h (h ++ [n]).
Proof.
  intros Hn. split.
  - intros p m Hm. exists m. split; [by apply lookup_app_l_Some|done].
  - intros p n' Hp [Hl|[_ Hl]]%lookup_app_Some; [congruence|]. by apply list_lookup_singleton_Some in Hl as [_ <-].
Qed.

Lemma carried_alter f p h h' :
  (forall n, pn_keyword (f n) = pn_keyword n) -> (forall n, attributes (f n) = attributes n) ->
  carried h h' -> carried h (alter f p h').
Proof.
  intros Hk Ha [H1 H2]. split.
  - intros q n Hn. destruct (H1 q n Hn) as (n' & Hn' & K & A). destruct (decide (p = q)) as [->|Hne].
    + exists (f n'). rewrite list_lookup_alter_eq, Hn'. split_and!; [done|by rewrite Hk|by rewrite Ha].
    + exists n'. by rewrite list_lookup_alter_ne.
  - intros q n' Hq Hn'. destruct (decide (p = q)) as [->|Hne].
    + rewrite list_lookup_alter_eq in Hn'. destruct (h' !! q) eqn:E; [|done]. injection Hn' as <-. rewrite Ha. by eapply H2.
    + rewrite list_lookup_alter_ne in Hn' by done. by eapply H2.
Qed.

Lemma update_node_spec p f g g' :
  update_node p f g = Some g' ->
  arena_nodes g' = alter f p (arena_nodes g) /\ g_sym_stack g' = g_sym_stack g /\ g_pending_dep_kind g' = g_pending_dep_kind g.
Proof. unfold update_node. destruct (arena_nodes g !! p); [|done]. by intros [= <-]. Qed.

Lemma alloc_carried kw id name g : carried (arena_nodes g) (arena_nodes (alloc_tj_node kw id name g).2).
Proof. unfold alloc_tj_node. case_match. by apply carried_app. Qed.

Lemma alloc_same kw id name g :
  g_sym_stack (alloc_tj_node kw id name g).2 = g_sym_stack g /\
  exists n, arena_nodes (alloc_tj_node kw id name g).2 = arena_nodes g ++ [n] /\
    (alloc_tj_node kw id name g).1 = length (arena_nodes g) /\ pn_keyword n = tok_kind kw.
Proof. unfold alloc_tj_node. case_match. split; [done|]. by eexists. Qed.

Lemma route_same p g g' : route_top_level p g = Some g' -> arena_nodes g' = arena_nodes g /\ g_sym_stack g' = g_sym_stack g.
Proof. unfold route_top_level. destruct (arena_nodes g !! p); [|done]. cbn. intros [= <-]. by case_match. Qed.

Lemma hoist_same syms g g' : hoist syms g = Some g' -> arena_nodes g' = arena_nodes g /\ g_sym_stack g' = g_sym_stack g.
Proof.
  revert g. induction syms as [|p syms IH]; intros g; cbn [hoist]; [by intros [= <-]|].
  destruct (arena_nodes g !! p) as [n|]; [|done]. cbn. case_bool_decide as Hk; [apply IH|].
  destruct (route_top_level p g) as [g1|] eqn:E; [|done]. cbn. intros H. apply route_same in E as [E1 E2].
  destruct (IH _ H) as [-> ->]. done.
Qed.

(** The actions that leave the symbol stack alone. *)
Definition stack_action (a : action) : bool := match a with A_reset | A_open | A_close => true | _ => false end.

(** The statements that store an attribute. *)
Definition storing (a : action) : bool := match a with A_date _ | A_dep_ref => true | _ => false end.

Ltac run_through H :=
  repeat match type of H with
  | mbind _ ?x = Some _ => let E := fresh "E" in destruct x eqn:E; cbn [mbind option_bind] in H; [|discriminate H]
  | (let '(_, _) := ?x in _) = Some _ => let E := fresh "E" in destruct x eqn:E
  end.

Lemma decl_action_same vs n id name b g v g' :
  decl_action vs n id name b g = Some (v, g') -> carried (arena_nodes g) (arena_nodes g') /\ g_sym_stack g' = g_sym_stack g.
Proof.
  unfold decl_action. intros H. run_through H. injection H as _ <-. unfold finish_tj_node in E4.
  apply update_node_spec in E4 as (-> & -> & _).
  match goal with E : alloc_tj_node ?k ?i ?m g = _ |- _ => pose proof (alloc_carried k i m g) as Hc; pose proof (alloc_same k i m g) as [Hs _]; rewrite E in Hc, Hs end.
  cbn in Hc, Hs. split; [|done]. by apply carried_alter.
Qed.

Lemma project_action_same vs n g v g' :
  project_action vs n g = Some (v, g') -> carried (arena_nodes g) (arena_nodes g') /\ g_sym_stack g' = g_sym_stack g.
Proof.
  unfold project_action. intros H. run_through H. injection H as _ <-.
  match goal with E : update_node _ _ _ = Some _ |- _ => apply update_node_spec in E as (Ha & Hs & _) end.
  match goal with E : hoist _ _ = Some _ |- _ => apply hoist_same in E as [-> ->] end. rewrite Ha, Hs.
  match goal with E : alloc_tj_node ?k ?i ?m g = _ |- _ => pose proof (alloc_carried k i m g) as Hc; pose proof (alloc_same k i m g) as [Hs' _]; rewrite E in Hc, Hs' end.
  split; [|done]. by apply carried_alter.
Qed.

Lemma open_action_same vs g v g' :
  open_action vs g = Some (v, g') ->
  exists kw p n, vs !! 2%nat = Some (VTok kw) /\ v = VSym p /\ carried (arena_nodes g) (arena_nodes g') /\
    arena_nodes g' !! p = Some n /\ pn_keyword n = tok_kind kw /\
    ((length (g_sym_stack g) < SYM_STACK_MAX)%nat ->
     g_sym_stack g' = if bool_decide (tok_kind kw = KW_TASK) then p :: g_sym_stack g else g_sym_stack g).
Proof.
  unfold open_action. destruct (vs !! 2%nat) as [[kw| | | | | | |]|]; try done. cbn. intros H. run_through H. injection H as <- <-.
  match goal with E : alloc_tj_node ?k ?i ?m g = (?p, ?g1) |- _ =>
    pose proof (alloc_carried k i m g) as Hc; pose proof (alloc_same k i m g) as (Hs & nd & Hn & Hp & Hk);
    rewrite E in Hc, Hs, Hn, Hp; exists k, p, nd; cbn [fst snd] in * end.
  assert (Ha : forall g1 p, arena_nodes (if bool_decide (tok_kind kw = KW_TASK) then sym_stack_push p g1 else g1) = arena_nodes g1).
  { intros ? ?. case_bool_decide; [|done]. unfold sym_stack_push. by case_match. }
  rewrite Ha. split_and!; try done.
  - rewrite Hn, Hp. by apply list_lookup_middle.
  - intros Hl. case_bool_decide; [|done]. unfold sym_stack_push. rewrite Hs. by rewrite (proj2 (Nat.ltb_lt _ _) Hl).
Qed.

Lemma close_action_same vs n g v g' kw :
  close_action vs n g = Some (v, g') -> arg_tok vs n 1 = Some kw ->
  carried (arena_nodes g) (arena_nodes g') /\
  g_sym_stack g' = if bool_decide (tok_kind kw = KW_TASK) then tail (g_sym_stack g) else g_sym_stack g.
Proof.
  unfold close_action. intros H Hkw. rewrite Hkw in H. cbn [mbind option_bind] in H. run_through H. injection H as _ <-.
  match goal with E : finish_tj_node _ _ _ _ _ = Some _ |- _ => unfold finish_tj_node in E; apply update_node_spec in E as (-> & -> & _) end.
  split; [|by case_bool_decide]. apply carried_alter; [done|done|]. case_bool_decide; apply carried_refl.
Qed.

Lemma run_action_same vs n a g v g' :
  storing a = false -> stack_action a = false -> run_action vs n a g = Some (v, g') ->
  carried (arena_nodes g) (arena_nodes g') /\ g_sym_stack g' = g_sym_stack g.
Proof.
  intros Hst Hsa H.
  assert (Hsame : arena_nodes g' = arena_nodes g /\ g_sym_stack g' = g_sym_stack g ->
    carried (arena_nodes g) (arena_nodes g') /\ g_sym_stack g' = g_sym_stack g).
  { intros [-> ->]. split; [apply carried_refl|done]. }
  destruct a; try discriminate Hst; try discriminate Hsa; cbn [run_action] in H;
    try (by apply project_action_same in H); try (by apply decl_action_same in H); apply Hsame; run_through H;
    try (injection H as _ <-); try done.
  - destruct o as [q|]; [by apply route_same in E0|by injection E0 as <-].
  - unfold set_pending_prefix in *. by case_match.
  - unfold include_action in E. run_through E. by injection E as <-.
Qed.

(** ** The invariant *)

Definition task_node (h : list pnode) (p : node_ptr) : Prop := exists n, h !! p = Some n /\ pn_keyword n = KW_TASK.

Record scoped (c : yy_config) : Prop := {
  sc_config : config_ok c;
  sc_syms : yystack c <> [] -> g_sym_stack (yyglobals c) = open_tasks (yystack c);
  sc_tasks : Forall (task_node (arena_nodes (yyglobals c))) (open_tasks (yystack c))
}.

Lemma carried_tasks h h' ps : carried h h' -> Forall (task_node h) ps -> Forall (task_node h') ps.
Proof.
  intros [Hc _] Hf. eapply Forall_impl; [exact Hf|]. intros p (n & Hn & Hk). destruct (Hc p n Hn) as (n' & Hn' & Hk' & _).
  exists n'. split; [done|congruence].
Qed.

Lemma alter_tasks f p h ps : (forall n, pn_keyword (f n) = pn_keyword n) -> Forall (task_node h) ps -> Forall (task_node (alter f p h)) ps.
Proof.
  intros Hf Ht. eapply Forall_impl; [exact Ht|]. intros q (n & Hn & Hk). destruct (decide (p = q)) as [->|Hne].
  - exists (f n). rewrite list_lookup_alter_eq, Hn. by rewrite Hf.
  - exists n. by rewrite list_lookup_alter_ne.
Qed.

(** What a statement stores, if it is one that does. *)
Definition stored (m : yy_move) (c : yy_config) : option (pnode -> pnode) :=
  match m with
  | Reduce i =>
      p ← production_at i;
      let vs := map fr_value (yystack c) in
      match act p with
      | A_date start =>
          t ← arg_tok vs 2 2; d ← parse_tjp_date (tok_text t);
          Some (fun n => if start then pn_set_dates (Some d) (pn_end_date n) n else pn_set_dates (pn_start_date n) (Some d) n)
      | A_dep_ref =>
          r ← arg vs 2 1 ≫= as_ref;
          let '(b, path, s, e) := r in
          Some (pn_push_dependency (mkDep (g_pending_dep_kind (yyglobals c)) b path (mkRange s e)))
      | _ => None
      end
  | _ => None
  end.

(** The effect of a move on the nodes: a statement stores into the innermost
    open task, and nothing else touches dates and dependencies. *)
Definition effect_ok (m : yy_move) (c : yy_config) (h' : list pnode) : Prop :=
  let h := arena_nodes (yyglobals c) in
  match stored m c with
  | Some f => h' = match head (open_tasks (yystack c)) with Some p => alter f p h | None => h end
  | None => carried h h'
  end.

Lemma stored_keyword m c f n : stored m c = Some f -> pn_keyword (f n) = pn_keyword n.
Proof.
  unfold stored. destruct m as [|i|]; try done. intros H. run_through H. destruct (act p); try done; run_through H; injection H as <-.
  - by destruct start.
  - done.
Qed.

Lemma effect_tasks m c h' ps :
  effect_ok m c h' -> Forall (task_node (arena_nodes (yyglobals c))) ps -> Forall (task_node h') ps.
Proof.
  unfold effect_ok. destruct (stored m c) as [f|] eqn:E; [|by apply carried_tasks]. intros ->.
  destruct (head _) as [q|]; [|done]. apply alter_tasks. intros n. by eapply stored_keyword.
Qed.

Lemma storing_effect c i p v g' :
  scoped c -> yystack c <> [] -> production_at i = Some p -> length (rhs p) = 2%nat -> storing (act p) = true ->
  run_action (map fr_value (yystack c)) (length (rhs p)) (act p) (yyglobals c) = Some (v, g') ->
  effect_ok (Reduce i) c (arena_nodes g') /\ g_sym_stack g' = g_sym_stack (yyglobals c).
Proof.
  intros [_ Hsy Ht] Hne Hp Hlen Hst. rewrite Hlen. specialize (Hsy Hne). unfold effect_ok, stored. rewrite Hp. cbn [mbind option_bind].
  destruct (act p); try discriminate Hst; cbn [run_action]; intros H; run_through H; injection H as _ <-.
  - unfold date_action, sym_stack_top in E. rewrite Hsy in E.
    destruct (open_tasks (yystack c)) as [|task tasks] eqn:Eo; cbn [head] in *.
    { injection E as <-. destruct (arg_tok _ 2 2) as [t|]; cbn; [|split; [apply carried_refl|done]].
      destruct (parse_tjp_date _); cbn; [done|split; [apply carried_refl|done]]. }
    apply Forall_cons in Ht as [(nd & Hnd & Hk) _]. rewrite Hnd in E. cbn [mbind option_bind] in E.
    rewrite bool_decide_true in E by done. destruct (arg_tok _ 2 2) as [t|]; [|done]. cbn [mbind option_bind] in E |- *.
    destruct (parse_tjp_date (tok_text t)) as [d|]; cbn [mbind option_bind].
    + by apply update_node_spec in E as (-> & -> & _).
    + injection E as <-. split; [apply carried_refl|done].
  - unfold dep_ref_action, sym_stack_top in E. rewrite Hsy in E. destruct (arg _ 2 1 ≫= as_ref) as [[[[b path] s] e]|]; [|done].
    cbn [mbind option_bind] in E |- *. destruct (head (open_tasks (yystack c))).
    + by apply update_node_spec in E as (-> & -> & _).
    + by injection E as <-.
Qed.

(** ** Every move keeps it *)

Lemma open_tasks_skip f stk : fr_symbol f <> N nt_open -> open_tasks (f :: stk) = open_tasks stk.
Proof. intros Hf. unfold open_tasks. by rewrite open_nodes_skip. Qed.

Lemma open_nodes_above top below :
  Forall (fun f => fr_symbol f <> N nt_open) top -> open_nodes (top ++ below) = open_nodes below.
Proof. induction 1 as [|f top Hf _ IH]; [done|]. cbn [app]. by rewrite open_nodes_skip. Qed.

Lemma scoped_intro c : config_ok c ->
  g_sym_stack (yyglobals c) = open_tasks (yystack c) ->
  Forall (task_node (arena_nodes (yyglobals c))) (open_tasks (yystack c)) -> scoped c.
Proof. by split. Qed.

Lemma shift_scoped c c' : scoped c -> yy_step Shift c = Next c' -> scoped c' /\ effect_ok Shift c (arena_nodes (yyglobals c')).
Proof.
  intros [Hok Hs Ht] Hstep. pose proof (shift_ok _ _ Hok Hstep) as Hok'. cbn in Hstep. unfold shift in Hstep.
  destruct (yyinput c) as [|t ts]; [done|]. destruct (goto _ _) as [st|] eqn:E; [|done]. injection Hstep as <-.
  split; [|apply carried_refl]. apply scoped_intro; [done|..]; cbn [yystack yyglobals]; rewrite open_tasks_skip by done; [|done].
  apply Hs. intros Hn. rewrite Hn in E. cbn in E. by rewrite start_shifts_nothing in E.
Qed.

Lemma error_scoped c c' : scoped c -> yy_step Error c = Next c' -> scoped c' /\ effect_ok Error c (arena_nodes (yyglobals c')).
Proof.
  intros [Hok Hs Ht] Hstep. pose proof (error_ok _ _ Hok Hstep) as Hok'. cbn in Hstep. unfold error in Hstep.
  destruct (detects_error _) eqn:Ed; [|done]. cbn [negb] in Hstep. destruct (if bool_decide _ then _ else _) as [ts|]; [|done].
  destruct (pop_to_error _) as [stk|] eqn:E; [|done]. injection Hstep as <-. split; [|apply carried_refl].
  pose proof (recovery_opens _ _ (co_path _ Hok) (detected_sheltered _ (co_path _ Hok) Ed) E) as Hopen.
  assert (Ho : open_tasks stk = open_tasks (yystack c)) by (unfold open_tasks; by rewrite Hopen).
  apply scoped_intro; [done|..]; cbn [yystack yyglobals]; rewrite Ho; [|done].
  apply Hs. intros Hn. rewrite Hn in E. cbn [pop_to_error top_state] in E.
  assert (Hst : goto start_state Err = None) by (vm_compute; reflexivity). by rewrite Hst in E.
Qed.

(** The reductions but those of headers. *)
Lemma other_reduction c i p st v g' :
  scoped c -> reduces c i p st v g' -> config_ok (reduced c p st v g') -> yystack c <> [] ->
  stack_action (act p) = false ->
  scoped (reduced c p st v g') /\ effect_ok (Reduce i) c (arena_nodes g').
Proof.
  intros Hsc Hr Hok' Hne Hsa. pose proof Hsc as [Hok Hs Ht]. pose proof Hr as (Hp & _ & Hred & Hrun).
  each_production (fun p => stack_action (act p) = false -> (N nt_open ∉ rhs p) /\ lhs p <> nt_open /\ (storing (act p) = true -> length (rhs p) = 2%nat)) Hp as Hb.
  destruct (Hb Hsa) as (Hno & Hlhs & Hlen).
  assert (He : effect_ok (Reduce i) c (arena_nodes g') /\ g_sym_stack g' = g_sym_stack (yyglobals c)).
  { destruct (storing (act p)) eqn:Est; [by eapply storing_effect; eauto|].
    destruct (run_action_same _ _ _ _ _ _ Est Hsa Hrun) as [Hc ?]. split; [|done]. unfold effect_ok, stored. rewrite Hp. cbn.
    by destruct (act p). }
  destruct He as [He Hsyms]. split; [|done].
  destruct (reducible_symbols _ _ _ (co_path _ Hok) Hp Hred) as (Hlen' & Hsym & _).
  destruct (popped_frames _ _ Hlen' Hsym) as (top & Hstk & Htop & _).
  assert (Hopen : open_nodes (drop (length (rhs p)) (yystack c)) = open_nodes (yystack c)).
  { rewrite Hstk at 2. rewrite open_nodes_above; [done|]. apply Forall_forall. intros f Hf Hfo. apply Hno.
    apply elem_of_reverse. rewrite <- Htop. apply list_elem_of_fmap. exists f. split; [by symmetry|done]. }
  assert (Ho : open_tasks (yystack (reduced c p st v g')) = open_tasks (yystack c)).
  { unfold reduced. cbn [yystack]. rewrite open_tasks_skip by (cbn; congruence). unfold open_tasks. by rewrite Hopen. }
  apply scoped_intro; [done|..]; rewrite Ho; unfold reduced; cbn [yyglobals].
  - rewrite Hsyms. by apply Hs.
  - by eapply effect_tasks.
Qed.

Lemma open_scoped c i p st v g' :
  scoped c -> reduces c i p st v g' -> config_ok (reduced c p st v g') -> act p = A_open -> few_open (Reduce i) c ->
  scoped (reduced c p st v g') /\ effect_ok (Reduce i) c (arena_nodes g').
Proof.
  intros [Hok Hs Ht] Hr Hok' Ha Hfew. pose proof Hr as (Hp & _ & _ & Hrun). specialize (Hfew i p eq_refl Hp Ha).
  rewrite Ha in Hrun. cbn [run_action] in Hrun.
  destruct (open_action_same _ _ _ _ Hrun) as (kw & q & n & Hkw & -> & Hc & Hn & Hk & Hsyms).
  assert (Hf : fr_value <$> (yystack c !! 2%nat) = Some (VTok kw)) by (by rewrite <- list_lookup_fmap).
  assert (Hne : yystack c <> []) by (intros Hn0; by rewrite Hn0 in Hf). specialize (Hs Hne).
  assert (He : effect_ok (Reduce i) c (arena_nodes g')) by (unfold effect_ok, stored; rewrite Hp; cbn; by rewrite Ha).
  split; [|exact He]. each_production (fun p => act p = A_open -> p = P nt_open [] A_open) Hp as Hb. rewrite (Hb Ha) in *.
  assert (Ho : open_tasks (yystack (reduced c (P nt_open [] A_open) st (VSym q) g'))
    = (if bool_decide (tok_kind kw = KW_TASK) then [q] else []) ++ open_tasks (yystack c)).
  { unfold reduced, open_tasks. cbn [yystack rhs lhs length]. rewrite drop_0.
    change (open_nodes (mkFrame st (N nt_open) (VSym q) :: yystack c))
      with ((q, default VNone (fr_value <$> (yystack c !! 2%nat))) :: open_nodes (yystack c)).
    rewrite Hf. apply omap_task. }
  apply scoped_intro; [done|..]; rewrite Ho; unfold reduced; cbn [yyglobals].
  - rewrite Hsyms, Hs by (by rewrite Hs). by case_bool_decide.
  - apply Forall_app. split; [|by eapply effect_tasks]. case_bool_decide as Hkt; [|done]. constructor; [|done].
    exists n. split; [done|congruence].
Qed.

Lemma close_scoped c i p st v g' :
  scoped c -> reduces c i p st v g' -> config_ok (reduced c p st v g') -> act p = A_close ->
  scoped (reduced c p st v g') /\ effect_ok (Reduce i) c (arena_nodes g').
Proof.
  intros [Hok Hs Ht] Hr Hok' Ha. pose proof Hr as (Hp & _ & _ & Hrun).
  destruct (reduces_frames _ _ _ _ _ _ Hok Hr) as (top & Hstk & Hsym & _).
  each_production (fun p => act p = A_close ->
    p = P nt_symbol_decl [N nt_sym_kw; N nt_opt_id; N nt_string_val; N nt_open; N nt_opt_body] A_close) Hp as Hb.
  assert (He : forall h', carried (arena_nodes (yyglobals c)) h' -> effect_ok (Reduce i) c h')
    by (intros h' Hc; unfold effect_ok, stored; rewrite Hp; cbn; by rewrite Ha).
  rewrite (Hb Ha) in *. cbn [rhs act length] in *. set (below := drop 5 (yystack c)) in *.
  unfold reverse in Hsym. cbn in Hsym.
  destruct top as [|fb [|fo [|fs [|fi [|fk [|? ?]]]]]]; try discriminate Hsym. injection Hsym as Eb Eo Es Ei Ek. cbn [app] in Hstk.
  pose proof (co_typed _ Hok) as Hty. rewrite Hstk in Hty.
  apply Forall_cons in Hty as [_ Hty]. apply Forall_cons in Hty as [Hto Hty]. do 2 apply Forall_cons in Hty as [_ Hty].
  apply Forall_cons in Hty as [Htk _].
  destruct (keyword_frame _ _ Htk) as (kw & Hkv & _); [by rewrite Ek|].
  assert (Hq : exists q, fr_value fo = VSym q).
  { unfold typed in Hto. rewrite Eo in Hto. destruct Hto as [Hto _]. destruct (fr_value fo); try discriminate Hto. eauto. }
  destruct Hq as [q Hq].
  assert (Hkw : arg_tok (map fr_value (yystack c)) 5 1 = Some kw).
  { unfold arg_tok, arg. rewrite Hstk. cbn. by rewrite Hkv. }
  cbn [run_action] in Hrun. destruct (close_action_same _ _ _ _ _ _ Hrun Hkw) as [Hc Hsyms]. split; [|by apply He].
  assert (Hopen : open_tasks (yystack c) = (if bool_decide (tok_kind kw = KW_TASK) then [q] else []) ++ open_tasks below).
  { assert (Hnodes : open_nodes (yystack c) = (q, VTok kw) :: open_nodes below).
    { rewrite Hstk, open_nodes_skip by congruence. cbn [open_nodes]. unfold open_node at 1. rewrite bool_decide_true, Hq by done.
      change ((q, default VNone (Some (fr_value fk))) :: open_nodes (fs :: fi :: fk :: below) = (q, VTok kw) :: open_nodes below).
      rewrite !open_nodes_skip by congruence. cbn [default]. by rewrite Hkv. }
    unfold open_tasks. rewrite Hnodes. apply omap_task. }
  assert (Ho : open_tasks (yystack (reduced c (P nt_symbol_decl [N nt_sym_kw; N nt_opt_id; N nt_string_val; N nt_open; N nt_opt_body] A_close) st v g'))
    = open_tasks below).
  { unfold reduced. cbn [yystack rhs lhs length]. by rewrite open_tasks_skip. }
  assert (Hne : yystack c <> []) by (by rewrite Hstk). rewrite (Hs Hne), Hopen in Hsyms. rewrite Hopen in Ht.
  apply scoped_intro; [done|..]; rewrite Ho; unfold reduced; cbn [yyglobals].
  - rewrite Hsyms. by case_bool_decide.
  - eapply effect_tasks; [by apply He|]. by apply Forall_app in Ht as [_ Ht].
Qed.

(** The marker of the file stands at the bottom only. *)
Lemma reset_context stk : lr_stack stk -> nt_reset ∈ predicted (top_state stk) -> stk = [].
Proof.
  intros Hlr Hm. apply elem_of_predicted in Hm as ([i d] & n & Hit & Hn & Hc).
  assert (Hb : forallb (fun n => negb (bool_decide (nt_reset ∈ corners n)) || bool_decide (n ∈ [nt_reset; nt_file; nt_accept]))
    all_nonterms = true) by (vm_compute; reflexivity).
  pose proof (forall_nonterms _ Hb n) as Hin. cbn beta in Hin. rewrite bool_decide_true in Hin by done.
  cbn [negb orb] in Hin. apply bool_decide_eq_true in Hin. rewrite !elem_of_cons, elem_of_nil in Hin.
  destruct Hin as [->|[->|[->|[]]]].
  - apply (stands_only_spec nt_reset [(1, 0)%nat]) in Hn; [|vm_compute; reflexivity].
    apply list_elem_of_singleton in Hn as [= -> ->]. by destruct (kernel_item _ _ _ Hlr Hit) as [?|[_ ?]].
  - apply (stands_only_spec nt_file [(0, 0)%nat]) in Hn; [|vm_compute; reflexivity].
    apply list_elem_of_singleton in Hn as [= -> ->]. by destruct (kernel_item _ _ _ Hlr Hit) as [?|[? _]].
  - apply (stands_only_spec nt_accept []) in Hn; [|vm_compute; reflexivity]. by apply not_elem_of_nil in Hn.
Qed.

Lemma reset_scoped c i p st v g' :
  scoped c -> reduces c i p st v g' -> config_ok (reduced c p st v g') -> act p = A_reset ->
  scoped (reduced c p st v g') /\ effect_ok (Reduce i) c (arena_nodes g').
Proof.
  intros [Hok Hs Ht] Hr Hok' Ha. pose proof Hr as (Hp & _ & _ & Hrun).
  destruct (reduces_frames _ _ _ _ _ _ Hok Hr) as (_ & _ & _ & Hpre).
  rewrite Ha in Hrun. injection Hrun as <- <-.
  assert (He : effect_ok (Reduce i) c (arena_nodes (with_sym_stack [] (yyglobals c))))
    by (unfold effect_ok, stored; rewrite Hp; cbn; rewrite Ha; apply carried_refl).
  split; [|exact He]. each_production (fun p => act p = A_reset -> p = P nt_reset [] A_reset) Hp as Hb. rewrite (Hb Ha) in *.
  cbn [rhs lhs length] in *. rewrite drop_0 in Hpre. pose proof (reset_context _ (co_path _ Hok) Hpre) as Hnil.
  apply scoped_intro; [done|..]; unfold reduced; cbn [yystack yyglobals rhs lhs length]; rewrite drop_0, open_tasks_skip, Hnil by done; [done|constructor].
Qed.

Lemma step_scoped c m c' :
  scoped c -> few_open m c -> yy_step m c = Next c' -> scoped c' /\ effect_ok m c (arena_nodes (yyglobals c')).
Proof.
  intros Hsc Hfew Hstep. destruct m as [|i|]; [by apply shift_scoped| |by apply error_scoped].
  destruct (reduce_inv _ _ _ Hstep) as (p & st & v & g' & Hr & ->).
  assert (Hok' : config_ok (reduced c p st v g')).
  { destruct Hr as (Hp & Hi & Hred & _). destruct (reduce_ok c i p (sc_config _ Hsc) Hp Hi Hred) as (c1 & E & ?).
    rewrite Hstep in E. by injection E as <-. }
  destruct (stack_action (act p)) eqn:Esa; cycle 1.
  - eapply other_reduction; try done. intros Hn. pose proof Hr as (Hp & _ & Hred & _). rewrite Hn in Hred.
    rewrite (start_reduces i p Hp Hred) in Esa. done.
  - destruct (act p) eqn:Ea; try discriminate Esa; [by eapply reset_scoped|by eapply open_scoped|by eapply close_scoped].
Qed.

Lemma reach_scoped toks k syms c :
  Forall tok_good toks -> reach few_open (yyparse_start toks (initial_globals k syms)) c -> scoped c.
Proof.
  intros Hg Hr. induction Hr as [|c m c' _ IH Hm Hs]; [split; [by apply start_ok|done|constructor]|].
  by eapply step_scoped in Hs as [? _].
Qed.

(** C9: For every text and whichever moves the tables pick, error recovery included,
    as long as at most [SYM_STACK_MAX] tasks are open at a time: the symbol
    stack lists the tasks whose bodies are being read, innermost first; a
    [start] or [end] date and a dependency are stored in the innermost of them
    and nowhere else; and no other move changes the dates or dependencies of a
    node, or gives a new node any. *)
Theorem statements_reach_innermost_task st est src kind syms :
  yy_start st = INITIAL -> fits src -> fresh est ->
  exists r toks, scan st src = Some r /\
    yylex_tokens (yylex_fuel r.1) (reset_eol_state est) (raw_of r) = Some toks /\
    forall c, reach few_open (yyparse_start toks (initial_globals kind syms)) c ->
      (yystack c <> [] -> g_sym_stack (yyglobals c) = open_tasks (yystack c)) /\
      forall m c', few_open m c -> yy_step m c = Next c' ->
        match stored m c with
        | Some store => arena_nodes (yyglobals c') =
            match head (open_tasks (yystack c)) with
            | Some task => alter store task (arena_nodes (yyglobals c))
            | None => arena_nodes (yyglobals c)
            end
        | None => carried (arena_nodes (yyglobals c)) (arena_nodes (yyglobals c'))
        end.
Proof.
  intros Hm Hf He. destruct (parser_input st est src Hm Hf He) as (r & toks & Hs & Hy & Hg).
  exists r, toks. split_and!; [done|done|]. intros c Hr.
  assert (Hsc : scoped c).
  { eapply reach_scoped; [|exact Hr]. eapply Forall_impl; [exact Hg|]. apply from_input_good. }
  split; [apply Hsc|]. intros m c' Hfew Hstep. by destruct (step_scoped c m c' Hsc Hfew Hstep) as [_ ?].
Qed.

(** ** Example *)

Fixpoint driven_shallow (fuel : nat) (c : yy_config) : bool :=
  (length (open_tasks (yystack c)) <? SYM_STACK_MAX)%nat &&
  match fuel with
  | O => true
  | S fuel' =>
      if accepted c then true
      else match choose c with
           | Some m => match yy_step m c with Next c' => driven_shallow fuel' c' | _ => true end
           | None => true
           end
  end.

Lemma shallow_here fuel c m : driven_shallow fuel c = true -> few_open m c.
Proof. intros H i p _ _ _. destruct fuel; cbn [driven_shallow] in H; apply andb_true_iff in H as [H _]; by apply Nat.ltb_lt in H. Qed.

Lemma drive_shallow fuel c0 c :
  driven_shallow fuel c = true -> reach few_open c0 c -> reach few_open c0 (drive fuel c) /\ forall m, few_open m (drive fuel c).
Proof.
  revert c. induction fuel as [|fuel IH]; intros c Hs Hr; [split; [done|]; intros m; by eapply shallow_here|].
  pose proof (fun m => shallow_here _ _ m Hs) as Hhere. cbn [drive driven_shallow] in *. apply andb_true_iff in Hs as [_ Hs].
  destruct (accepted c); [done|]. destruct (choose c) as [m|]; [|done].
  destruct (yy_step m c) as [c'| | |] eqn:E; try done. apply IH; [done|]. by eapply reach_step.
Qed.

(** Dates and a dependency in nested tasks, behind an error. *)
Definition scope_text : list ascii :=
  chars "task a ~A~ { task ! \ task b ~B~ { start 2024-02-03\ } depends c\ end 2024-05-06\ }".

Definition scope_start : yy_config := yyparse_start (text_tokens scope_text) (initial_globals DEP_KIND_DEPENDS []).

(** The task the next move stores into. *)
Definition stores_into (c : yy_config) : option node_ptr :=
  match choose c with
  | Some m => match yy_step m c, stored m c with Next _, Some _ => head (open_tasks (yystack c)) | _, _ => None end
  | None => None
  end.

Lemma stores_into_spec c task :
  stores_into c = Some task -> exists m c' store,
    yy_step m c = Next c' /\ stored m c = Some store /\ head (open_tasks (yystack c)) = Some task.
Proof.
  unfold stores_into. destruct (choose c) as [m|]; [|done]. destruct (yy_step m c) as [c'| | |] eqn:E; try done.
  destruct (stored m c) as [store|] eqn:Es; [|done]. intros H. by exists m, c', store.
Qed.

Lemma scope_text_ok :
  fits scope_text /\ fresh initial_eol_state /\ driven_shallow 58 scope_start = true /\
  outline <$> output_root (yyglobals (drive 400 scope_start)) = Some [""; "a"; "b"]%string /\
  stores_into (drive 31 scope_start) = Some 1%nat /\ stores_into (drive 58 scope_start) = Some 0%nat.
Proof. split_and!; vm_compute; reflexivity. Qed.

Lemma statements_reach_innermost_task_witness :
  stores_into (drive 31 scope_start) = Some 1%nat /\ stores_into (drive 58 scope_start) = Some 0%nat /\
  exists m c' store, stored m (drive 58 scope_start) = Some store /\ yy_step m (drive 58 scope_start) = Next c' /\
    arena_nodes (yyglobals c') = alter store 0%nat (arena_nodes (yyglobals (drive 58 scope_start))).
Proof.
  destruct scope_text_ok as (Hf & He & Hd & _ & H1 & H0). split; [exact H1|]. split; [exact H0|].
  destruct (statements_reach_innermost_task idle initial_eol_state scope_text DEP_KIND_DEPENDS [] eq_refl Hf He)
    as (r & toks & Hs & Hy & H).
  rewrite <- (text_tokens_eq _ _ _ Hs Hy) in H. change (yyparse_start _ _) with scope_start in H.
  destruct (drive_shallow 58 scope_start scope_start Hd (reach_start _ _)) as [Hr Hfew].
  destruct (stores_into_spec _ _ H0) as (m & c' & store & Hm & Hst & Hhd).
  destruct (H _ Hr) as [_ Heff]. specialize (Heff m c' (Hfew m) Hm). rewrite Hst, Hhd in Heff.
  exists m, c', store. split; [exact Hst|]. split; [exact Hm|exact Heff].
Defined.

(** A [precedes] in the body of a dependency turns the dependencies read after
    it: the direction is a global that the list around it has set before. *)
Example nested_direction :
  let src := chars "task a ~A~ { depends b { precedes c }, d\ }" in
  (fun po => map (fun n => map (fun d => (dep_kind d, dep_path d)) (tn_dependencies n)) (tn_children (po_root po)))
      <$> parse_output (text_scan src) (driven src)
    = Some [[(DEP_KIND_PRECEDES, Some "c"); (DEP_KIND_PRECEDES, Some "b"); (DEP_KIND_PRECEDES, Some "d")]]%string.
Proof. vm_compute. reflexivity. Qed.
